(* ===== verification/_CoqProject ===== *)
-Q . S2P
Prelude.v
Util.v
Intset.v
Ziplist.v
ZiplistRep.v
ZiplistUpd.v
ZiplistOps.v
Dict.v
DictRep.v
DictScan.v
DictIter.v
DictRandom.v
Adlist.v
Object.v
Skiplist.v
SkiplistRep.v
SkiplistOps.v
SetType.v
Glob.v
Server.v
Pubsub.v
Crc.v
Db.v
DbOk.v
DbRules.v
DbCommands.v
SetCmd.v
SetCmdOk.v
SetCommands.v
Commands.v
SetAlgebra.v
Demo.v
Multi.v
MultiOk.v
Transactions.v
DemoTx.v
Sds.v
Protocol.v
ProtocolOk.v
Wire.v
DemoWire.v
Cluster.v
ClusterOk.v
ClusterSafe.v
ClusterCmd.v
ClusterCmdOk.v
Election.v
ElectionOk.v
ClusterProps.v
DemoCluster.v
