(* ===== verification/Prelude.v ===== *)
(** * A verification library for the data store behind the bidding application

    The repository is a bidding site; its program logic in C is the in-memory data
    store it vendors in src/auction/redis-3.0.2/src.  All C file names below
    are files of that directory.  The library follows the data structures
    upwards from bytes: conversions and byte-addressed containers, hash tables
    and lists, objects, the key space, the commands on keys and sets,
    transactions, the protocol that brings requests to the server, and a node of
    a cluster of servers.

    ** Files and what they model

    - Prelude.v (this file): notations, tactics, integers of a machine width
      ([uwrap], [swrap], [in_s64]), bytes, and memory with bounds ([rd], [wr], [load],
      [store], [memmove]): an access outside an allocation is [None].
    - Util.v: [string2ll], [string2l], [digits10], [ll2string] of util.c.
    - Intset.v: intset.c, over the bytes of the allocation.
    - Ziplist.v, ZiplistRep.v, ZiplistUpd.v, ZiplistOps.v: ziplist.c over
      the bytes of the allocation (operations; image of a list of entries and
      decoding; updates; public functions against lists).
    - Dict.v, DictRep.v, DictScan.v, DictIter.v, DictRandom.v: dict.c
      (tables and incremental rehashing; tables as finite maps; the scan cursor;
      hash functions and iterators; random elements).  [DictType] is the
      interface of a key type: the range of its hash.
    - Adlist.v: adlist.c over a heap of nodes with their pointers.
    - Object.v: string objects, encodings and reference counts of object.c,
      over a heap of objects.
    - Skiplist.v, SkiplistRep.v, SkiplistOps.v: the zsl functions of t_zset.c
      over a heap of nodes; [Score] (doubles) and [Member] (string objects) are
      the interfaces of what they compare, and both are implemented.
    - SetType.v: the setType functions of t_set.c, on [Intset.v] and [Dict.v].
    - Glob.v: [stringmatchlen] of util.c, on blocks of memory.
    - Crc.v: crc16.c, crc64.c and [keyHashSlot] of cluster.c.
    - Server.v: the part of [redisServer], [redisDb] and [redisClient]
      (redis.h) that commands share, the state monad of the commands, and [wp],
      which says that a command succeeds with a postcondition.
    - Pubsub.v: pubsub.c and the publication of key space events of notify.c.
    - Db.v, DbOk.v, DbRules.v, DbCommands.v: db.c and the hooks of multi.c on
      key changes (functions; the invariant [server_ok] and the promise of WATCH;
      one rule per function; the commands on keys).
    - SetCmd.v, SetCmdOk.v, SetCommands.v, SetAlgebra.v: the commands on sets of
      t_set.c (functions; rules; the commands; their results as set algebra).
    - Commands.v: the rows of the command table (redis.c) for these commands, and
      sequences of commands of many clients.
    - Multi.v, MultiOk.v, Transactions.v: multi.c, [call], [propagate] and
      [processCommand] of redis.c (functions; what a request may change;
      histories of requests and EXEC).
    - Sds.v: ranges, quoting and splitting of sds.c.
    - Protocol.v, ProtocolOk.v, Wire.v: reading requests from the query buffer,
      networking.c (functions; requests cut into any pieces; any bytes).
    - Cluster.v, ClusterOk.v, ClusterSafe.v: the state of a node of the cluster
      and the packets it exchanges, cluster.c (slot table, roles, epochs, failure
      reports, elections, manual failover; the invariant [table_ok] and rules
      for the functions that move slots and change roles; every packet keeps it).
    - ClusterCmd.v, ClusterCmdOk.v: the subcommands of CLUSTER that change the
      state, the end of [clusterCron], [clusterBeforeSleep], and [getNodeByQuery]
      (functions; their rules and the reference router [route]).
    - Election.v, ElectionOk.v: which actions leave an election alone, and what the
      others do to it; runs of many nodes whose messages are lost or reordered.
    - ClusterProps.v: the theorems about the cluster, which DemoCluster.v applies
      to a small cluster.
    - Demo.v, DemoTx.v, DemoWire.v: a concrete server on which the theorems
      about the commands, transactions and the protocol are applied, and runs
      that show where the code departs from what it means to do.

    ** How the parts meet

    Upper parts use lower ones through what was proved of them.  Hash tables
    whose behaviour as finite maps is [DictRep.dict_refines_map] appear as [gmap]s
    in the server state of Server.v, string objects as their text (Object.v
    relates an object and its text), and lists of clients as lists; set values
    stay the concrete objects of SetType.v (an intset in bytes, or a table in any
    state of rehashing), because commands on sets choose their algorithm by
    encoding and size and iterate over the concrete tables.  A pointer to a
    value of a database is the key it was found at: a value freed in
    the meantime is an access without result.  A connection (Protocol.v) holds
    the query buffer of a client of the same identifier in the server state.

    The cluster has a state of its own, because cluster.c reads the key space
    only to ask which slots have keys and whether a key is there: the record
    [around] of Cluster.v and the argument [present] of [getNodeByQuery].  Its
    slots are those of [keyHashSlot] (Crc.v).  Nodes point to each other by
    name, and following a name that is not in the table is no result.  A step
    of a node is an [event] of ClusterCmd.v: a packet, a command, a timer, or a
    change of what is around it; a cluster in ElectionOk.v is a map of nodes.

    A function of the code is a function of the model: pure ones return [option]
    ([None] is an access out of bounds or a failed assertion), commands are
    in the monad [M] of Server.v, with the same meaning of no result.  The class
    [Env] of Server.v holds what the commands take from outside: the clock, which
    may advance between any two readings, the hash function of tables, the memory
    that [realloc] returns, some settings, and [qsort] as any permutation.  The
    record [front] of Multi.v holds what [processCommand] asks of the rest.

    ** What the theorems show

    - Conversions: the accepted decimal strings are the canonical ones; printing
      and reading are inverse, within the buffer ([Util.v], [Object.v], [Sds.v]).
    - Containers: every sequence of public operations behaves as on the abstract
      structure, with no access out of bounds ([_refines_] theorems of Intset.v,
      ZiplistOps.v, DictRep.v, Adlist.v, SkiplistOps.v, SetType.v); rehashing and
      scanning terminate and scans lose nothing unless a table shrinks under
      them; iterators meet everything once.
    - Checksums equal polynomial division bit by bit; hash slots are those of
      the tag of the key ([Crc.v]).
    - Commands: from a consistent state every admissible command runs without a
      failed assertion, keeps the state consistent and the promise of WATCH; the
      set commands compute set algebra; expired keys are invisible; wrong types
      are refused without effect ([Commands.v], [SetAlgebra.v]).
    - Transactions: over any history of requests, an EXEC that runs has seen
      none of its watched keys change and runs its queue with nothing in between;
      refused requests change nothing and spoil the transaction, but for three
      kinds ([Transactions.v]).
    - Protocol: requests cut into any pieces are run whole, in order, with their
      arguments; any bytes at all parse to an end ([ProtocolOk.v], [Wire.v]).
    - Cluster: whatever a node meets, its slot table stays consistent and no
      assertion fails; claims, failovers and ADDSLOTS move exactly the slots they
      should; a failover needs a majority, and in runs where no vote comes
      between the scheduling of an election and the request for votes no two
      nodes win one epoch; queries are served where the slot table says
      ([ClusterProps.v]).
    - Subscriptions are consistent in both directions and a message reaches
      exactly its subscribers ([Pubsub.v]).

    ** Bounds and fuel

    Machine integers are [Z] with the wrap-around written out where the code can
    reach it (hash values, cursors, lengths of ziplists, checksums); counters that
    only a history of 2^63 steps could overflow are not wrapped.  Loops that are
    not structural have fuel, computed from their input by the functions
    themselves (the bytes of a list, the entries of a heap, the buckets of a
    table, the arguments of a request plus one, the bytes of a query buffer plus one);
    that it is enough is part of the theorems, which state that results exist.
    [admissible] (Commands.v) bounds what a command may meet: the right number of
    arguments, fewer than 2^29 elements in the sets it names, times that fit
    in 64 bits, and no volatile key named twice (that case is a finding).

    In the cluster epochs wrap at 64 bits; times and offsets, which would need
    a history of 2^63 milliseconds or bytes, do not.  [readings] counts the
    readings of the clock whose values are kept; times that nothing modelled
    depends on (of pings and pongs, of the end of a pause of the clients) are not
    read.  The nodes of a table are visited in the order of [map_to_list].  The
    properties of one node leave out packets that are part of a handshake and
    commands that would give slots to slaves ([packet_ok], [command_ok]).

    ** Not modelled

    - Persistence and replication (rdb.c, aof.c, rio.c, bio.c, replication.c but
      for a change of master by the cluster): files, processes and sockets; what commands feed to them is the log
      [propagated] of the server state.
    - Of cluster.c: nodes that join or leave (MEET, handshakes, FORGET, RESET),
      addresses, links, PUBLISH packets, the choice of gossip entries (an
      argument), the configuration file, the loop of [clusterCron] over the nodes
      (its results are arguments), read-only subcommands, the redirection of
      blocked clients, DUMP, RESTORE and MIGRATE.
    - Sentinel (sentinel.c), the event loop and sockets (ae*.c, anet.c), output to the clients
      (networking.c: replies are the list [c_reply] of a client), memory
      (zmalloc.c) and its limit, the slow log, latency and configuration files.
    - The commands on strings, lists, hashes and sorted sets (t_string.c,
      t_list.c, t_hash.c, t_zset.c but for the skip lists), SORT, SCAN, bit
      operations, HyperLogLog, scripting and blocking operations.
    - redis-cli.c, redis-benchmark.c, redis-check-*.c and the code of deps:
      tools and third-party code.
    - The Java web application of auction/src, which is not C. *)
From Stdlib Require Import Lia ZArith Sorted.
From stdpp Require Import base numbers list tactics option.
#[local] Open Scope Z_scope.

(** * Notations and tactics *)

Declare Scope redis_scope.
Delimit Scope redis_scope with redis.
Abbreviation zlen l := (Z.of_nat (length l)).
Notation "a '<=?' b '<?' c" := ((a <=? b) && (b <? c))
  (at level 70, b at next level, no associativity) : redis_scope.

(** Case analysis on the innermost scrutinee of a [match] or [if]. *)
Ltac case_inner e :=
  lazymatch e with
  | context [match ?x with _ => _ end] => case_inner x
  | _ => let E := fresh "E" in destruct e eqn:E
  end.

Ltac case_goal :=
  match goal with |- context [match ?x with _ => _ end] => case_inner x end.

Ltac case_hyp H :=
  match type of H with context [match ?x with _ => _ end] => case_inner x end.

(** Turn boolean integer tests in the context into propositions. *)
Ltac zbool :=
  repeat match goal with
  | H : (_ && _) = true |- _ => apply andb_prop in H; destruct H
  | H : (_ || _) = false |- _ => apply orb_false_elim in H; destruct H
  | H : negb _ = true |- _ => apply negb_true_iff in H
  | H : negb _ = false |- _ => apply negb_false_iff in H
  | H : (_ <? _) = true |- _ => apply Z.ltb_lt in H
  | H : (_ <? _) = false |- _ => apply Z.ltb_ge in H
  | H : (_ <=? _) = true |- _ => apply Z.leb_le in H
  | H : (_ <=? _) = false |- _ => apply Z.leb_gt in H
  | H : (_ >? _) = _ |- _ => rewrite Z.gtb_ltb in H
  | H : (_ >=? _) = _ |- _ => rewrite Z.geb_leb in H
  | H : (_ =? _) = true |- _ => apply Z.eqb_eq in H
  | H : (_ =? _) = false |- _ => apply Z.eqb_neq in H
  end.

(** Decide a boolean integer test whose truth follows by arithmetic. *)
Ltac ztrue b := replace b with true by (symmetry; rewrite ?Z.gtb_ltb, ?Z.geb_leb, ?andb_true_iff, ?orb_true_iff, ?negb_true_iff, ?Z.ltb_lt, ?Z.leb_le, ?Z.eqb_eq, ?Z.ltb_ge, ?Z.leb_gt, ?Z.eqb_neq; lia).
Ltac zfalse b := replace b with false by (symmetry; rewrite ?Z.gtb_ltb, ?Z.geb_leb, ?andb_false_iff, ?orb_false_iff, ?negb_false_iff, ?Z.ltb_ge, ?Z.leb_gt, ?Z.eqb_neq, ?Z.ltb_lt, ?Z.leb_le, ?Z.eqb_eq; lia).

(** * Machine integers *)

(** Conversion to an unsigned integer of [w] bits. *)
Definition uwrap (w z : Z) : Z := z mod 2 ^ w.

(** Conversion to a two's complement integer of [w] bits. *)
Definition swrap (w z : Z) : Z := (z + 2 ^ (w - 1)) mod 2 ^ w - 2 ^ (w - 1).

Abbreviation u8 := (uwrap 8).
Abbreviation u16 := (uwrap 16).
Abbreviation u32 := (uwrap 32).
Abbreviation u64 := (uwrap 64).
Abbreviation s8 := (swrap 8).
Abbreviation s16 := (swrap 16).
Abbreviation s32 := (swrap 32).
Abbreviation s64 := (swrap 64).

Definition INT16_MIN := -32768.
Definition INT16_MAX := 32767.
Definition INT32_MIN := -2147483648.
Definition INT32_MAX := 2147483647.
Definition LLONG_MIN := -9223372036854775808.
Definition LLONG_MAX := 9223372036854775807.
Definition ULLONG_MAX := 18446744073709551615.
Definition UINT16_MAX := 65535.

Definition in_s64 (z : Z) : Prop := LLONG_MIN <= z <= LLONG_MAX.

Lemma uwrap_small w z : 0 <= z < 2 ^ w -> uwrap w z = z.
Proof. apply Z.mod_small. Qed.

Lemma uwrap_bound w z : 0 <= w -> 0 <= uwrap w z < 2 ^ w.
Proof. intros. apply Z.mod_pos_bound. lia. Qed.

Lemma swrap_small w z : 0 < w -> - 2 ^ (w - 1) <= z < 2 ^ (w - 1) -> swrap w z = z.
Proof.
  intros Hw H. unfold swrap.
  assert (2 ^ w = 2 * 2 ^ (w - 1)) as E.
  { rewrite <- Z.pow_succ_r by lia. f_equal. lia. }
  rewrite Z.mod_small; lia.
Qed.

Lemma swrap_bound w z : 0 < w -> - 2 ^ (w - 1) <= swrap w z < 2 ^ (w - 1).
Proof.
  intros Hw. unfold swrap.
  assert (2 ^ w = 2 * 2 ^ (w - 1)) as E.
  { rewrite <- Z.pow_succ_r by lia. f_equal. lia. }
  pose proof (Z.mod_pos_bound (z + 2 ^ (w - 1)) (2 ^ w)). lia.
Qed.

(** Reading back as signed what was stored modulo [2^w]. *)
Lemma swrap_mod w z : 0 < w -> swrap w (z mod 2 ^ w) = swrap w z.
Proof. intros Hw. unfold swrap. by rewrite Zplus_mod_idemp_l. Qed.

(** * Bytes and byte orders *)

Definition byte_ok (b : Z) : Prop := 0 <= b < 256.
Abbreviation bytes_ok := (Forall byte_ok).

(** The [n] low-order bytes of [z], least significant first. *)
Fixpoint le_bytes (n : nat) (z : Z) : list Z :=
  match n with O => [] | S n => z mod 256 :: le_bytes n (z / 256) end.

Fixpoint le_val (l : list Z) : Z :=
  match l with [] => 0 | b :: l => b + 256 * le_val l end.

Lemma length_le_bytes n z : length (le_bytes n z) = n.
Proof. revert z; induction n; intros; simpl; auto. Qed.

Lemma le_bytes_ok n z : bytes_ok (le_bytes n z).
Proof.
  revert z; induction n; intros; simpl; constructor; auto.
  apply Z.mod_pos_bound. lia.
Qed.

Lemma pow256_S (n : nat) : 256 ^ Z.of_nat (S n) = 256 * 256 ^ Z.of_nat n.
Proof. rewrite Nat2Z.inj_succ, Z.pow_succ_r; lia. Qed.

Lemma le_val_bytes n z : le_val (le_bytes n z) = z mod 256 ^ Z.of_nat n.
Proof.
  revert z; induction n; intros z; [simpl; by rewrite Z.mod_1_r|].
  cbn [le_bytes le_val]. rewrite IHn, pow256_S.
  rewrite Z.rem_mul_r by lia. lia.
Qed.

Lemma le_val_bound l : bytes_ok l -> 0 <= le_val l < 256 ^ zlen l.
Proof.
  induction 1 as [|b l Hb Hl IH]; [simpl; lia|].
  cbn [le_val length]. rewrite pow256_S. unfold byte_ok in Hb. lia.
Qed.

Lemma le_bytes_val l : bytes_ok l -> le_bytes (length l) (le_val l) = l.
Proof.
  induction 1 as [|b l Hb Hl IH]; [done|].
  cbn [le_val length le_bytes]. unfold byte_ok in Hb.
  rewrite Z.mul_comm, Z_mod_plus_full, Z.mod_small by lia.
  rewrite Z.div_add, Z.div_small by lia. by rewrite Z.add_0_l, IH.
Qed.

Lemma le_bytes_mod n z : le_bytes n (z mod 256 ^ Z.of_nat n) = le_bytes n z.
Proof.
  rewrite <- le_val_bytes.
  rewrite <- (length_le_bytes n z) at 1. apply le_bytes_val, le_bytes_ok.
Qed.

(** * Addressable memory

    An allocation is the list of its bytes and a pointer into it is an
    offset.  An access outside the allocation has no value: [None]. *)

Definition rd {A} (m : list A) (p : Z) : option A :=
  if p <? 0 then None else m !! Z.to_nat p.

Definition wr {A} (m : list A) (p : Z) (b : A) : option (list A) :=
  if (0 <=? p) && (p <? zlen m) then Some (<[Z.to_nat p := b]> m) else None.

Definition load {A} (m : list A) (p n : Z) : option (list A) :=
  if (0 <=? p) && (0 <=? n) && (p + n <=? zlen m)
  then Some (take (Z.to_nat n) (drop (Z.to_nat p) m)) else None.

Definition store {A} (m : list A) (p : Z) (bs : list A) : option (list A) :=
  if (0 <=? p) && (p + zlen bs <=? zlen m)
  then Some (take (Z.to_nat p) m ++ bs ++ drop (Z.to_nat p + length bs) m) else None.

(** [memmove]/[memcpy]: the source is read before the destination is written. *)
Definition memmove {A} (m : list A) (dst src n : Z) : option (list A) :=
  bs ← load m src n; store m dst bs.

(** [realloc] keeps the common prefix; the bytes of a grown block hold
    whatever [junk] says memory held before. *)
Definition realloc {A} (junk : nat -> A) (m : list A) (n : Z) : list A :=
  take (Z.to_nat n) m ++ (junk <$> seq (length m) (Z.to_nat n - length m)%nat).

Lemma rd_app {A} (pre : list A) b post : rd (pre ++ b :: post) (zlen pre) = Some b.
Proof.
  unfold rd. zfalse (zlen pre <? 0).
  by rewrite Nat2Z.id, list_lookup_middle.
Qed.

Lemma rd_app_at {A} (pre : list A) b post p :
  p = zlen pre -> rd (pre ++ b :: post) p = Some b.
Proof. intros ->. apply rd_app. Qed.

Lemma wr_app {A} (pre : list A) b post c p :
  p = zlen pre -> wr (pre ++ b :: post) p c = Some (pre ++ c :: post).
Proof.
  intros ->. unfold wr. rewrite length_app. cbn [length].
  ztrue ((0 <=? zlen pre) && (zlen pre <? Z.of_nat (length pre + S (length post)))).
  by rewrite Nat2Z.id, insert_app_r_alt, Nat.sub_diag by lia.
Qed.

Lemma load_app {A} (pre mid post : list A) p n :
  p = zlen pre -> n = zlen mid -> load (pre ++ mid ++ post) p n = Some mid.
Proof.
  intros -> ->. unfold load. rewrite !length_app.
  ztrue ((0 <=? zlen pre) && (0 <=? zlen mid) && (zlen pre + zlen mid <=? Z.of_nat (length pre + (length mid + length post)))).
  by rewrite !Nat2Z.id, drop_app_length, take_app_length.
Qed.

Lemma store_app {A} (pre mid post bs : list A) p :
  p = zlen pre -> length bs = length mid ->
  store (pre ++ mid ++ post) p bs = Some (pre ++ bs ++ post).
Proof.
  intros -> Hl. unfold store. rewrite !length_app, Hl.
  ztrue ((0 <=? zlen pre) && (zlen pre + zlen mid <=? Z.of_nat (length pre + (length mid + length post)))).
  rewrite !Nat2Z.id, take_app_length. do 3 f_equal.
  rewrite app_assoc, <- length_app. by rewrite drop_app_length.
Qed.

Lemma load_head {A} (mid post : list A) n : n = zlen mid -> load (mid ++ post) 0 n = Some mid.
Proof. by apply (load_app []). Qed.

Lemma store_head {A} (mid post bs : list A) :
  length bs = length mid -> store (mid ++ post) 0 bs = Some (bs ++ post).
Proof. by apply (store_app []). Qed.

Lemma length_store {A} (m : list A) p bs m' : store m p bs = Some m' -> length m' = length m.
Proof.
  unfold store. intros H. case_hyp H; [|done]. zbool. simplify_eq.
  rewrite !length_app, length_take, length_drop. lia.
Qed.

Lemma realloc_shrink {A} (junk : nat -> A) m rest n :
  n = zlen m -> realloc junk (m ++ rest) n = m.
Proof.
  intros ->. unfold realloc. rewrite Nat2Z.id, take_app_length, length_app.
  replace (length m - (length m + length rest))%nat with 0%nat by lia.
  simpl. by rewrite app_nil_r.
Qed.

Lemma realloc_grow {A} (junk : nat -> A) m n :
  zlen m <= n ->
  exists rest, realloc junk m n = m ++ rest /\ zlen rest = n - zlen m.
Proof.
  intros Hn. unfold realloc. rewrite take_ge by lia.
  eexists. split; [done|]. rewrite length_fmap, length_seq. lia.
Qed.

Lemma length_realloc {A} (junk : nat -> A) m n : 0 <= n -> zlen (realloc junk m n) = n.
Proof.
  intros Hn. unfold realloc. rewrite length_app, length_take, length_fmap, length_seq. lia.
Qed.

(** Opening a gap of [zlen E] bytes before [X], over [E]. *)
Lemma memmove_up_in {A} (P X E S : list A) dst src n :
  src = zlen P -> n = zlen X -> dst = zlen P + zlen E ->
  memmove (P ++ X ++ E ++ S) dst src n = Some (P ++ take (length E) (X ++ E) ++ X ++ S) /\
  length (take (length E) (X ++ E)) = length E.
Proof.
  intros -> -> ->. unfold memmove. rewrite load_app by done. cbn [mbind option_bind].
  rewrite (app_assoc X). set (Y := X ++ E). rewrite <- (take_drop (length E) Y), <- app_assoc, app_assoc.
  assert (length (take (length E) Y) = length E) as Hl by (subst Y; rewrite length_take, length_app; lia).
  rewrite take_drop. split; [|done].
  rewrite store_app; [by rewrite <- app_assoc | rewrite length_app; lia |].
  subst Y. rewrite length_drop, length_app. lia.
Qed.

Lemma memmove_up {A} (P X E : list A) dst src n :
  src = zlen P -> n = zlen X -> dst = zlen P + zlen E ->
  exists M, memmove (P ++ X ++ E) dst src n = Some (P ++ M ++ X) /\ length M = length E.
Proof.
  intros H1 H2 H3. destruct (memmove_up_in P X E [] dst src n H1 H2 H3) as (HM & ?).
  rewrite !app_nil_r in HM. eauto.
Qed.

(** Closing the gap [G] before [X]; the bytes after the moved block are stale. *)
Lemma memmove_down {A} (P G X R : list A) dst src n :
  dst = zlen P -> src = zlen P + zlen G -> n = zlen X ->
  exists T, memmove (P ++ G ++ X ++ R) dst src n = Some (P ++ X ++ T) /\
    length T = (length G + length R)%nat.
Proof.
  intros -> -> ->. unfold memmove.
  rewrite (app_assoc P G), load_app by (rewrite ?length_app; lia). cbn [mbind option_bind].
  rewrite <- app_assoc. set (Y := G ++ X ++ R). rewrite <- (take_drop (length X) Y).
  exists (drop (length X) Y). subst Y. rewrite store_app; [| done |].
  - split; [done|]. rewrite length_drop, !length_app. lia.
  - rewrite length_take, !length_app. lia.
Qed.

(** Reads past a prefix. *)
Lemma rd_shift {A} (P Q : list A) k : 0 <= k -> rd (P ++ Q) (zlen P + k) = rd Q k.
Proof.
  intros Hk. unfold rd. zfalse (zlen P + k <? 0). zfalse (k <? 0).
  rewrite lookup_app_r by lia. f_equal. lia.
Qed.

Lemma load_shift {A} (P Q : list A) k n : 0 <= k -> load (P ++ Q) (zlen P + k) n = load Q k n.
Proof.
  intros Hk. unfold load. rewrite length_app.
  destruct (0 <=? n) eqn:En; [|by rewrite !andb_false_r].
  ztrue (0 <=? zlen P + k). ztrue (0 <=? k).
  destruct (k + n <=? zlen Q) eqn:E; zbool.
  - ztrue (zlen P + k + n <=? Z.of_nat (length P + length Q)). cbn [andb]. do 2 f_equal.
    rewrite drop_app_ge by lia. f_equal. lia.
  - by zfalse (zlen P + k + n <=? Z.of_nat (length P + length Q)).
Qed.

(** Bytes written inside a longer prefix. *)
Lemma store_shift {A} (P Q : list A) k bs : 0 <= k ->
  store (P ++ Q) (zlen P + k) bs = (Q' ← store Q k bs; Some (P ++ Q')).
Proof.
  intros Hk. unfold store. rewrite length_app.
  ztrue (0 <=? zlen P + k). ztrue (0 <=? k). cbn [andb].
  destruct (k + zlen bs <=? zlen Q) eqn:E; zbool.
  - ztrue (zlen P + k + zlen bs <=? Z.of_nat (length P + length Q)). cbn [mbind option_bind]. f_equal.
    rewrite take_app_ge by lia. rewrite <- app_assoc. f_equal.
    replace (Z.to_nat (zlen P + k) - length P)%nat with (Z.to_nat k) by lia. do 2 f_equal.
    rewrite drop_app_ge by lia. f_equal. lia.
  - by zfalse (zlen P + k + zlen bs <=? Z.of_nat (length P + length Q)).
Qed.

(** Disjoint bit fields add up. *)
Lemma lor_shiftl a b k : 0 <= k -> 0 <= b < 2 ^ k -> Z.lor (Z.shiftl a k) b = a * 2 ^ k + b.
Proof.
  intros Hk Hb. rewrite <- Z.shiftl_mul_pow2 by done.
  assert (Z.land (Z.shiftl a k) b = 0) as Hl.
  { apply Z.bits_inj'. intros i Hi. rewrite Z.land_spec, Z.bits_0.
    destruct (Z.lt_ge_cases i k).
    - by rewrite Z.shiftl_spec_low.
    - rewrite <- (Z.mod_small b (2 ^ k)), Z.mod_pow2_bits_high by lia. apply andb_false_r. }
  rewrite <- Z.lxor_lor by done. symmetry. by apply Z.add_nocarry_lxor.
Qed.

Lemma land_255 z : Z.land z 255 = z mod 256.
Proof. apply (Z.land_ones z 8). lia. Qed.

(** A property of all bytes, decided by running through them. *)
Lemma byte_forall (P : Z -> Prop) `{!forall b, Decision (P b)} :
  forallb (fun n => bool_decide (P (Z.of_nat n))) (seq 0 256) = true ->
  forall b, 0 <= b < 256 -> P b.
Proof.
  intros Hall b Hb. rewrite forallb_forall in Hall.
  specialize (Hall (Z.to_nat b)). rewrite bool_decide_eq_true, Z2Nat.id in Hall by lia.
  apply Hall, in_seq. lia.
Qed.

Lemma byte_top2 b : 0 <= b < 256 -> Z.land b 192 = b / 64 * 64 /\ Z.land b 63 = b mod 64.
Proof. revert b. apply (byte_forall (fun b => _ /\ _)). vm_compute. reflexivity. Qed.

(** Four bytes, most significant first, put together with shifts. *)
Lemma be32_val n : 0 <= n < 2 ^ 32 ->
  Z.lor (Z.lor (Z.lor (Z.shiftl (n / 2 ^ 24 mod 256) 24) (Z.shiftl (n / 2 ^ 16 mod 256) 16))
    (Z.shiftl (n / 2 ^ 8 mod 256) 8)) (n mod 256) = n.
Proof.
  intros Hn.
  assert (forall x, 0 <= x mod 256 < 2 ^ 8) as Hb by (intros; apply Z.mod_pos_bound; lia).
  change 24 with (8 + 16) at 2. rewrite <- (Z.shiftl_shiftl _ 8 16), <- Z.shiftl_lor by lia.
  rewrite (lor_shiftl _ _ 8) by (lia || apply Hb).
  change 16 with (8 + 8) at 2. rewrite <- (Z.shiftl_shiftl _ 8 8), <- Z.shiftl_lor by lia.
  rewrite !(lor_shiftl _ _ 8) by (lia || apply Hb).
  change (2 ^ 24) with (256 * 256 * 256). change (2 ^ 16) with (256 * 256). change (2 ^ 8) with 256 in *.
  change (2 ^ 32) with (256 * 256 * 256 * 256) in *.
  rewrite <- !Z.div_div by lia.
  assert (0 <= n / 256 / 256 / 256 < 256).
  { split; [repeat apply Z.div_pos; lia|]. rewrite !Z.div_div by lia. apply Z.div_lt_upper_bound; lia. }
  pose proof (Z.div_mod n 256). pose proof (Z.div_mod (n / 256) 256). pose proof (Z.div_mod (n / 256 / 256) 256).
  rewrite (Z.mod_small (n / 256 / 256 / 256)) by done. lia.
Qed.

(** The index a possibly negative C integer denotes in a list of [n] entries. *)
Definition list_index (n : nat) (index : Z) : option nat :=
  if index <? 0 then (if Z.of_nat n <? - index then None else Some (Z.to_nat (Z.of_nat n + index)))
  else if index <? Z.of_nat n then Some (Z.to_nat index) else None.

Lemma list_index_lt n index i : list_index n index = Some i -> (i < n)%nat.
Proof. unfold list_index. repeat case_goal; intros; simplify_eq; zbool; lia. Qed.
