(* ===== verification/Util.v ===== *)
(** * Decimal conversions of util.c

    [string2ll], [string2l], [digits10] and [ll2string] (src/util.c) over
    64-bit integers.  A C string of known length is the list of its bytes, a
    cursor into it is the remaining suffix; the destination buffer of
    [ll2string] is addressable memory (Prelude), so a write outside it has no
    value.  [dec] is the reference decimal notation the routines are compared
    with. *)
From Stdlib Require Import Lia ZArith Ascii.
From stdpp Require Import base numbers list tactics option strings.
From S2P Require Import Prelude.
#[local] Open Scope Z_scope.

(** The bytes of a string literal. *)
Definition bytes_of (s : String.string) : list Z :=
  (fun a => Z.of_N (N_of_ascii a)) <$> String.list_ascii_of_string s.

#[global] Arguments bytes_of s%_string.

Definition chr_minus := 45.
Definition chr_0 := 48.
Definition is_digit (c : Z) : bool := (48 <=? c) && (c <=? 57).

Module Dec.

(** ** Parsing *)

(** The digit loop of [string2ll]: the accumulated value and the unread
    suffix, or [None] on overflow of the unsigned accumulator. *)
Fixpoint string2ll_loop (p : list Z) (v : Z) : option (Z * list Z) :=
  match p with
  | [] => Some (v, [])
  | c :: p' =>
      if is_digit c then
        if v >? ULLONG_MAX / 10 then None else
        let v := u64 (v * 10) in
        if v >? ULLONG_MAX - (c - 48) then None else
        string2ll_loop p' (u64 (v + (c - 48)))
      else Some (v, p)
  end.

Definition string2ll (s : list Z) : option Z :=
  match s with
  | [] => None
  | c0 :: s' =>
      if (zlen s =? 1) && (c0 =? chr_0) then Some 0 else
      let negative := c0 =? chr_minus in
      match (if negative then s' else s) with
      | [] => None
      | d :: p =>
          if (49 <=? d) && (d <=? 57) then
            '(v, rest) ← string2ll_loop p (d - 48);
            match rest with
            | _ :: _ => None
            | [] =>
                if negative then
                  if v >? - (LLONG_MIN + 1) + 1 then None else Some (s64 (u64 (- v)))
                else if v >? LLONG_MAX then None else Some v
            end
          else if (d =? chr_0) && (zlen s =? 1) then Some 0
          else None
      end
  end.

(** [string2l] with [long] of [w] bits: 64 on LP64, 32 elsewhere. *)
Definition string2l (w : Z) (s : list Z) : option Z :=
  llval ← string2ll s;
  if (llval <? - 2 ^ (w - 1)) || (llval >? 2 ^ (w - 1) - 1) then None
  else Some (swrap w llval).

(** ** Printing *)

Definition b2z (b : bool) : Z := if b then 1 else 0.

(** [digits10] calls itself on [v / 10^12]; two calls serve 64 bits. *)
Fixpoint digits10_rec (fuel : nat) (v : Z) : Z :=
  if v <? 10 then 1 else
  if v <? 100 then 2 else
  if v <? 1000 then 3 else
  if v <? 1000000000000 then
    if v <? 100000000 then
      if v <? 1000000 then
        if v <? 10000 then 4 else 5 + b2z (v >=? 100000)
      else 7 + b2z (v >=? 10000000)
    else if v <? 10000000000 then 9 + b2z (v >=? 1000000000)
    else 11 + b2z (v >=? 100000000000)
  else match fuel with
       | O => 0
       | S fuel => 12 + digits10_rec fuel (v / 1000000000000)
       end.

Definition digits10 (v : Z) : Z := digits10_rec 1 v.

Definition digits : list Z :=
  bytes_of "0001020304050607080910111213141516171819" ++
  bytes_of "2021222324252627282930313233343536373839" ++
  bytes_of "4041424344454647484950515253545556575859" ++
  bytes_of "6061626364656667686970717273747576777879" ++
  bytes_of "8081828384858687888990919293949596979899".

(** The two-digits-at-a-time loop: buffer, cursor and remaining value. *)
Fixpoint ll2string_loop (fuel : nat) (dst : list Z) (next value : Z)
  : option (list Z * Z * Z) :=
  if value >=? 100 then
    match fuel with
    | O => None
    | S fuel =>
        let i := (value mod 100) * 2 in
        let value := value / 100 in
        d1 ← rd digits (i + 1);
        dst ← wr dst next d1;
        d0 ← rd digits i;
        dst ← wr dst (next - 1) d0;
        ll2string_loop fuel dst (next - 2) value
    end
  else Some (dst, next, value).

(** The buffer afterwards and the returned length; [None] is a write out of
    bounds.  [dst] may be longer than [dstlen]. *)
Definition ll2string (dst : list Z) (dstlen svalue : Z) : option (list Z * Z) :=
  let '(value, negative) :=
    if svalue <? 0 then
      (if negb (svalue =? LLONG_MIN) then u64 (- svalue) else u64 (LLONG_MAX + 1), true)
    else (svalue, false) in
  let length := digits10 value + b2z negative in
  if length >=? dstlen then Some (dst, 0) else
  dst ← wr dst length 0;
  '(dst, next, value) ← ll2string_loop 10 dst (length - 1) value;
  dst ← (if value <? 10 then wr dst next (chr_0 + value)
         else
           let i := value * 2 in
           d1 ← rd digits (i + 1);
           dst ← wr dst next d1;
           d0 ← rd digits i;
           wr dst (next - 1) d0);
  dst ← (if negative then wr dst 0 chr_minus else Some dst);
  Some (dst, length).

(** ** Reference notation *)

(** Decimal digits of [v], most significant first; [n] bounds the digits
    after the first. *)
Fixpoint udec (n : nat) (v : Z) : list Z :=
  if v <? 10 then [48 + v] else
  match n with
  | O => []
  | S n => udec n (v / 10) ++ [48 + v mod 10]
  end.

Definition dec (v : Z) : list Z :=
  if v <? 0 then chr_minus :: udec 19 (- v) else udec 19 v.

(** ** The reference notation is canonical *)

Definition horner (v : Z) (ds : list Z) : Z :=
  fold_left (fun v c => v * 10 + (c - 48)) ds v.

Lemma horner_snoc v ds c : horner v (ds ++ [c]) = horner v ds * 10 + (c - 48).
Proof. unfold horner. by rewrite fold_left_app. Qed.

Lemma is_digit_spec c : is_digit c = true <-> 48 <= c <= 57.
Proof. unfold is_digit. rewrite andb_true_iff, !Z.leb_le. done. Qed.

Abbreviation digits_ok := (Forall (fun c => is_digit c = true)).

Lemma horner_mono ds v : 0 <= v -> digits_ok ds -> v <= horner v ds.
Proof.
  intros Hv H. revert v Hv. induction H as [|c ds Hc _ IH]; intros v Hv; [done|].
  apply is_digit_spec in Hc. cbn [horner fold_left].
  specialize (IH (v * 10 + (c - 48))). unfold horner in IH. lia.
Qed.

Lemma pow10_S (n : nat) : 10 ^ Z.of_nat (S n) = 10 * 10 ^ Z.of_nat n.
Proof. rewrite Nat2Z.inj_succ, Z.pow_succ_r; lia. Qed.

Lemma div10_pow v (n : nat) : v < 10 ^ Z.of_nat (S n) -> v / 10 < 10 ^ Z.of_nat n.
Proof. rewrite pow10_S. intros. apply Z.div_lt_upper_bound; lia. Qed.

Lemma udec_fuel n m v : 0 <= v < 10 ^ Z.of_nat (S n) -> (n <= m)%nat -> udec n v = udec m v.
Proof.
  revert m v; induction n; intros m v Hv Hm.
  - assert ((v <? 10) = true) as E by (apply Z.ltb_lt; change (10 ^ Z.of_nat 1) with 10 in Hv; lia).
    destruct m; cbn [udec]; by rewrite E.
  - destruct m as [|m]; [lia|]. cbn [udec]. destruct (v <? 10); [done|].
    f_equal. apply IHn; [|lia]. split; [apply Z.div_pos; lia|]. apply div10_pow; lia.
Qed.

Lemma udec_horner n v : 0 <= v < 10 ^ Z.of_nat (S n) ->
  horner 0 (udec n v) = v /\ digits_ok (udec n v) /\
  exists d ds, udec n v = d :: ds /\ (0 < v -> 49 <= d) /\ (ds = [] \/ 0 < v).
Proof.
  revert v; induction n; intros v Hv; cbn [udec]; destruct (v <? 10) eqn:E; zbool.
  1,3: split_and!; [unfold horner; simpl; lia | repeat constructor; apply is_digit_spec; lia |];
       exists (48 + v), []; split_and!; auto; lia.
  - change (10 ^ Z.of_nat 1) with 10 in Hv. lia.
  - destruct (IHn (v / 10)) as (Hh & Hd & d & ds & Hu & Hpos & _).
    { split; [apply Z.div_pos; lia | apply div10_pow; lia]. }
    assert (0 < v / 10) by (apply Z.div_str_pos; lia).
    pose proof (Z.mod_pos_bound v 10). pose proof (Z.div_mod v 10).
    split_and!.
    + rewrite horner_snoc, Hh. lia.
    + apply Forall_app. split; [done|]. repeat constructor. apply is_digit_spec. lia.
    + rewrite Hu. exists d, (ds ++ [48 + v mod 10]). split_and!; [done | lia | lia].
Qed.

Lemma horner_udec d ds n : digits_ok (d :: ds) -> 49 <= d ->
  horner 0 (d :: ds) < 10 ^ Z.of_nat (S n) -> udec n (horner 0 (d :: ds)) = d :: ds.
Proof.
  intros Hd H49. revert n. induction ds as [|c ds IH] using rev_ind; intros n Hn.
  - inversion Hd as [|? ? Hd1]; subst. apply is_digit_spec in Hd1.
    unfold horner; simpl. destruct n; cbn [udec]; ztrue (0 * 10 + (d - 48) <? 10); f_equal; lia.
  - rewrite app_comm_cons in Hd |- *. apply Forall_app in Hd as [Hds Hc].
    inversion Hc as [|? ? Hc1]; subst. apply is_digit_spec in Hc1.
    rewrite app_comm_cons, horner_snoc in Hn. rewrite horner_snoc. set (h := horner 0 (d :: ds)) in *.
    assert (1 <= h).
    { subst h. change (horner 0 (d :: ds)) with (horner (0 * 10 + (d - 48)) ds).
      inversion Hds; subst. pose proof (horner_mono ds (0 * 10 + (d - 48)) ltac:(lia) ltac:(done)). lia. }
    destruct n as [|n]; [change (10 ^ Z.of_nat 1) with 10 in Hn; lia|].
    cbn [udec]. zfalse (h * 10 + (c - 48) <? 10).
    rewrite Z.div_add_l, (Z.div_small (c - 48)), Z.add_0_r by lia.
    rewrite (Z.add_comm (h * 10)), Z_mod_plus_full, Z.mod_small by lia.
    rewrite IH; [f_equal; f_equal; lia | done |].
    rewrite pow10_S in Hn. lia.
Qed.

(** ** Parsing accepts exactly the canonical notation *)

Lemma string2ll_loop_sound p v w : 0 <= v <= ULLONG_MAX ->
  string2ll_loop p v = Some (w, []) ->
  digits_ok p /\ w = horner v p /\ w <= ULLONG_MAX.
Proof.
  revert v; induction p as [|c p IH]; intros v Hv H; cbn [string2ll_loop] in H.
  - simplify_eq. split_and!; [constructor | done | lia].
  - case_hyp H; [|done]. case_hyp H; [done|].
    rewrite uwrap_small in H; [|unfold ULLONG_MAX in *; zbool; pose proof (Z.mul_div_le 18446744073709551615 10); lia].
    case_hyp H; [done|]. apply is_digit_spec in E as Hc. unfold ULLONG_MAX in *. zbool.
    rewrite uwrap_small in H by lia.
    apply IH in H as (Hd & -> & Hle); [|lia].
    split_and!; [by constructor | done | done].
Qed.

Lemma string2ll_loop_complete p v : 0 <= v -> digits_ok p -> horner v p <= ULLONG_MAX ->
  string2ll_loop p v = Some (horner v p, []).
Proof.
  intros Hv Hp. revert v Hv. induction Hp as [|c p Hc Hp IH]; intros v Hv Hle; [done|].
  cbn [string2ll_loop]. rewrite Hc. apply is_digit_spec in Hc.
  change (horner v (c :: p)) with (horner (v * 10 + (c - 48)) p) in *.
  pose proof (horner_mono p (v * 10 + (c - 48)) ltac:(lia) Hp). unfold ULLONG_MAX in *.
  change (18446744073709551615 / 10) with 1844674407370955161.
  zfalse (v >? 1844674407370955161). rewrite !uwrap_small by lia.
  zfalse (v * 10 >? 18446744073709551615 - (c - 48)).
  apply IH; lia.
Qed.

(** What the digit loop read after a first digit is the notation of its value. *)
Lemma string2ll_loop_udec d p w : 49 <= d <= 57 ->
  string2ll_loop p (d - 48) = Some (w, []) -> 1 <= w <= ULLONG_MAX /\ udec 19 w = d :: p.
Proof.
  intros Hd Hl.
  apply string2ll_loop_sound in Hl as (Hp & Hw & Hle); [|unfold ULLONG_MAX; lia].
  assert (digits_ok (d :: p)) as Hdp by (constructor; [apply is_digit_spec; lia | done]).
  pose proof (horner_mono p (d - 48) ltac:(lia) Hp).
  split; [lia|]. subst w. change (horner (d - 48) p) with (horner 0 (d :: p)) in *.
  apply horner_udec; [done | lia | unfold ULLONG_MAX in *; lia].
Qed.

Lemma string2ll_sound s v : string2ll s = Some v -> in_s64 v /\ s = dec v.
Proof.
  unfold string2ll, in_s64, dec. intros H. destruct s as [|c0 s']; [done|].
  case_hyp H.
  { zbool. injection H as <-. destruct s'; [|cbn [length] in *; lia].
    split; [unfold LLONG_MIN, LLONG_MAX; lia | by subst]. }
  destruct (c0 =? chr_minus) eqn:Hm.
  - destruct s' as [|d p]; [done|]. case_hyp H; [|case_hyp H; [zbool; cbn [length] in *; lia | done]].
    destruct (string2ll_loop p (d - 48)) as [[w rest]|] eqn:Hl; [|done].
    simpl in H. destruct rest; [|done]. case_hyp H; [done|]. injection H as Hv; subst v.
    zbool. subst c0.
    apply string2ll_loop_udec in Hl as [Hw Hu]; [|lia].
    unfold LLONG_MIN, LLONG_MAX, ULLONG_MAX in *. zbool.
    assert (s64 (u64 (- w)) = - w) as ->.
    { unfold uwrap. rewrite swrap_mod, swrap_small by lia. done. }
    split; [lia|]. ztrue (- w <? 0). rewrite Z.opp_involutive, Hu. by f_equal.
  - case_hyp H; [|rewrite andb_comm, E in H; done].
    destruct (string2ll_loop s' (c0 - 48)) as [[w rest]|] eqn:Hl; [|done].
    simpl in H. destruct rest; [|done]. case_hyp H; [done|]. injection H as Hv; subst v.
    zbool.
    apply string2ll_loop_udec in Hl as [Hw Hu]; [|lia].
    unfold LLONG_MIN, LLONG_MAX in *. zbool.
    split; [lia|]. zfalse (w <? 0). done.
Qed.

Lemma string2ll_complete v : in_s64 v -> string2ll (dec v) = Some v.
Proof.
  intros Hv. unfold in_s64, LLONG_MIN, LLONG_MAX in Hv.
  assert (forall w, 1 <= w <= 9223372036854775808 -> exists d ds,
    udec 19 w = d :: ds /\ 49 <= d <= 57 /\ string2ll_loop ds (d - 48) = Some (w, [])) as Hu.
  { intros w Hw. destruct (udec_horner 19 w ltac:(simpl; lia)) as (Hh & Hd & d & ds & E & H49 & _).
    rewrite E in *. apply Forall_cons in Hd as [Hd1 Hds]. apply is_digit_spec in Hd1.
    exists d, ds. split_and!; [done | lia | lia |].
    change (horner 0 (d :: ds)) with (horner (d - 48) ds) in Hh.
    rewrite string2ll_loop_complete, Hh; [done | lia | done | unfold ULLONG_MAX; lia]. }
  unfold dec. destruct (v <? 0) eqn:Hneg; zbool.
  - destruct (Hu (- v) ltac:(lia)) as (d & ds & E & Hd & Hl). rewrite E.
    cbn [string2ll length]. zfalse ((Z.of_nat (S (S (length ds))) =? 1) && (chr_minus =? chr_0)).
    change (chr_minus =? chr_minus) with true. cbn iota.
    ztrue ((49 <=? d) && (d <=? 57)). rewrite Hl. cbn [mbind option_bind].
    unfold LLONG_MIN. zfalse (- v >? - (-9223372036854775808 + 1) + 1).
    unfold uwrap. rewrite swrap_mod, swrap_small by lia. f_equal. lia.
  - destruct (decide (v = 0)) as [->|]; [done|].
    destruct (Hu v ltac:(lia)) as (d & ds & E & Hd & Hl). rewrite E.
    cbn [string2ll]. unfold chr_0, chr_minus.
    zfalse ((zlen (d :: ds) =? 1) && (d =? 48)). zfalse (d =? 45).
    ztrue ((49 <=? d) && (d <=? 57)). rewrite Hl. cbn [mbind option_bind].
    unfold LLONG_MAX. by zfalse (v >? 9223372036854775807).
Qed.

(** ** Printing writes the canonical notation *)

Lemma length_udec n v : 0 <= v < 10 ^ Z.of_nat (S n) ->
  v < 10 ^ zlen (udec n v) /\ (zlen (udec n v) = 1 \/ 10 ^ (zlen (udec n v) - 1) <= v) /\
  1 <= zlen (udec n v).
Proof.
  revert v; induction n; intros v Hv; cbn [udec]; destruct (v <? 10) eqn:E; zbool;
    try (simpl length; split_and!; [simpl; lia | auto | lia]).
  - change (10 ^ Z.of_nat 1) with 10 in Hv. lia.
  - destruct (IHn (v / 10)) as (Hlt & Hge & H1).
    { split; [apply Z.div_pos; lia | apply div10_pow; lia]. }
    rewrite length_app. cbn [length]. rewrite Nat2Z.inj_add. change (Z.of_nat 1) with 1.
    set (k := zlen (udec n (v / 10))) in *.
    assert (10 ^ (k + 1) = 10 * 10 ^ k) as Ek by (rewrite Z.pow_add_r; lia).
    pose proof (Z.div_mod v 10). pose proof (Z.mod_pos_bound v 10).
    split_and!; [lia | right | lia]. rewrite Z.add_simpl_r.
    destruct Hge as [->|Hge]; [change (10 ^ 1) with 10; lia|].
    replace (10 ^ k) with (10 * 10 ^ (k - 1)) by (rewrite <- Z.pow_succ_r by lia; f_equal; lia).
    lia.
Qed.

Lemma digits10_rec_bound (f : nat) v : 0 <= v < 1000000000000 ^ Z.of_nat (S f) ->
  let d := digits10_rec f v in
  1 <= d /\ v < 10 ^ d /\ (d = 1 \/ 10 ^ (d - 1) <= v).
Proof.
  revert v; induction f as [|f IH]; intros v Hv; cbn zeta;
    set (d := digits10_rec _ v); pose proof (eq_refl d) as Hd; unfold d at 2 in Hd;
    cbn [digits10_rec] in Hd; unfold b2z in Hd; clearbody d;
    repeat case_hyp Hd; zbool; try subst d; try (split_and!; simpl; lia).
  destruct (IH (v / 1000000000000)) as (H1 & H2 & H3).
  { split; [apply Z.div_pos; lia|]. apply Z.div_lt_upper_bound; [lia|].
    rewrite Nat2Z.inj_succ, Z.pow_succ_r in Hv; lia. }
  set (d := digits10_rec f (v / 1000000000000)) in *.
  pose proof (Z.div_mod v 1000000000000). pose proof (Z.mod_pos_bound v 1000000000000).
  assert (10 ^ (12 + d) = 1000000000000 * 10 ^ d) as -> by (by rewrite Z.pow_add_r by lia).
  assert (10 ^ (12 + d - 1) = 1000000000000 * 10 ^ (d - 1)) as ->.
  { replace (12 + d - 1) with (12 + (d - 1)) by lia. by rewrite Z.pow_add_r by lia. }
  assert (d = 1 -> 10 ^ (d - 1) = 1) by (intros ->; done).
  split_and!; [lia | lia | right].
  assert (1 <= v / 1000000000000) by (apply Z.div_le_lower_bound; lia).
  assert (10 ^ (d - 1) <= v / 1000000000000) by lia. lia.
Qed.

(** [digits10] counts the digits of the reference notation. *)
Lemma digits10_udec v : 0 <= v <= ULLONG_MAX -> digits10 v = zlen (udec 19 v).
Proof.
  intros Hv. unfold ULLONG_MAX in Hv.
  destruct (length_udec 19 v ltac:(simpl; lia)) as (Ha & Hb & Hc).
  destruct (digits10_rec_bound 1 v ltac:(simpl; lia)) as (H1 & H2 & H3).
  fold (digits10 v) in *. set (d := digits10 v) in *. set (k := zlen (udec 19 v)) in *.
  destruct (Z.lt_trichotomy d k) as [Hlt|[?|Hlt]]; [|done|]; exfalso.
  - destruct Hb as [?|Hb]; [lia|]. pose proof (Z.pow_le_mono_r 10 d (k - 1)). lia.
  - destruct H3 as [?|H3]; [lia|]. pose proof (Z.pow_le_mono_r 10 k (d - 1)). lia.
Qed.

Lemma digits_lookup k : 0 <= k < 100 ->
  rd digits (k * 2) = Some (48 + k / 10) /\ rd digits (k * 2 + 1) = Some (48 + k mod 10).
Proof.
  intros Hk.
  assert (forallb (fun k => bool_decide (rd digits (k * 2) = Some (48 + k / 10) /\
    rd digits (k * 2 + 1) = Some (48 + k mod 10))) (Z.of_nat <$> seq 0 100) = true) as H
    by (vm_compute; reflexivity).
  rewrite forallb_forall in H.
  apply (bool_decide_eq_true_1 _), H, list_elem_of_In, list_elem_of_fmap.
  exists (Z.to_nat k). split; [lia|]. apply elem_of_seq. lia.
Qed.

Lemma udec_S n v :
  udec (S n) v = if v <? 10 then [48 + v] else udec n (v / 10) ++ [48 + v mod 10].
Proof. done. Qed.

#[global] Arguments udec : simpl never.

Lemma udec_step v : 10 <= v < 10 ^ 20 -> udec 19 v = udec 19 (v / 10) ++ [48 + v mod 10].
Proof.
  intros Hv. rewrite (udec_S 18 v). zfalse (v <? 10). rewrite (udec_fuel 18 19); [done | | lia].
  split; [apply Z.div_pos; lia|]. apply div10_pow. simpl; lia.
Qed.

Lemma udec_step2 v : 100 <= v < 10 ^ 20 ->
  udec 19 v = udec 19 (v / 100) ++ [48 + v mod 100 / 10; 48 + v mod 100 mod 10].
Proof.
  intros Hv. rewrite udec_step by lia.
  rewrite (udec_step (v / 10)), <- app_assoc, Z.div_div; try lia.
  - change (10 * 10) with 100. f_equal. cbn [app].
    assert (v mod 100 = v mod 10 + 10 * ((v / 10) mod 10)) as -> by (by apply (Z.rem_mul_r v 10 10)).
    pose proof (Z.mod_pos_bound v 10 ltac:(lia)).
    pose proof (Z.mod_pos_bound (v / 10) 10 ltac:(lia)).
    rewrite (Z.mul_comm 10), Z.div_add, Z_mod_plus_full by lia.
    by rewrite (Z.div_small (v mod 10)), (Z.mod_small (v mod 10)) by lia.
  - split; [apply Z.div_le_lower_bound; lia | apply Z.div_lt_upper_bound; lia].
Qed.

Lemma app_last2 {A} (l : list A) : (2 <= length l)%nat -> exists l' x y, l = l' ++ [x; y].
Proof.
  intros H. induction l as [|y l1 _] using rev_ind; [simpl in H; lia|].
  rewrite length_app in H. induction l1 as [|x l2 _] using rev_ind; [simpl in H; lia|].
  exists l2, x, y. by rewrite <- app_assoc.
Qed.

(** Two adjacent writes, last byte first. *)
Lemma wr_pair {A} (pre : list A) x y post a b p : p = zlen pre + 1 ->
  (dst ← wr (pre ++ [x; y] ++ post) p b; wr dst (p - 1) a) = Some (pre ++ [a; b] ++ post).
Proof.
  intros ->. change ([x; y] ++ post) with ([x] ++ y :: post). rewrite app_assoc.
  rewrite (wr_app (pre ++ [x])) by (rewrite length_app; simpl; lia). cbn [mbind option_bind].
  rewrite <- app_assoc. cbn [app]. by rewrite (wr_app pre) by lia.
Qed.

Lemma ll2string_loop_spec fuel pre tail value :
  0 <= value < 100 ^ Z.of_nat (S fuel) -> value < 10 ^ 20 ->
  (length (udec 19 value) <= length pre)%nat ->
  exists pre' tail' value',
    ll2string_loop fuel (pre ++ tail) (zlen pre - 1) value = Some (pre' ++ tail', zlen pre' - 1, value') /\
    0 <= value' < 100 /\ udec 19 value ++ tail = udec 19 value' ++ tail' /\
    (length pre' + length (udec 19 value) = length pre + length (udec 19 value'))%nat.
Proof.
  revert pre tail value; induction fuel as [|fuel IH]; intros pre tail value Hv H20 Hlen;
    cbn [ll2string_loop]; destruct (value >=? 100) eqn:E; zbool.
  1: change (100 ^ Z.of_nat 1) with 100 in Hv; lia.
  1, 3: by exists pre, tail, value; split_and!; auto; lia.
  rewrite udec_step2 in Hlen |- * by lia. rewrite length_app in Hlen. cbn [length] in Hlen.
  destruct (app_last2 pre) as (pre1 & x & y & ->); [lia|].
  destruct (digits_lookup (value mod 100)) as [-> ->]; [apply Z.mod_pos_bound; lia|].
  rewrite length_app in Hlen |- *. cbn [length mbind option_bind] in *. rewrite <- app_assoc.
  set (p := Z.of_nat (length pre1 + 2) - 1).
  pose proof (wr_pair pre1 x y tail (48 + value mod 100 / 10) (48 + value mod 100 mod 10) p ltac:(lia)) as Hw.
  destruct (wr _ p _) as [dst|]; [|done]. cbn [mbind option_bind] in *. rewrite Hw.
  replace (p - 2) with (zlen pre1 - 1) by lia. rewrite app_assoc, <- (app_assoc pre1), <- (app_assoc _ _ tail).
  edestruct (IH pre1 ([48 + value mod 100 / 10; 48 + value mod 100 mod 10] ++ tail) (value / 100))
    as (pre' & tail' & v' & Hr & Hv' & Ht & Hl); [..|lia|].
  - split; [apply Z.div_pos; lia|]. apply Z.div_lt_upper_bound; [lia|].
    rewrite Nat2Z.inj_succ, Z.pow_succ_r in Hv; lia.
  - apply Z.div_lt_upper_bound; lia.
  - exists pre', tail', v'. split_and!; [exact Hr | lia | lia | exact Ht |].
    rewrite length_app. cbn [length]. lia.
Qed.

(** The last one or two digits, written over the end of [sgn ++ body]. *)
Lemma ll2string_last sgn body tail value : 0 <= value < 100 ->
  length body = length (udec 19 value) ->
  (if value <? 10 then wr ((sgn ++ body) ++ tail) (zlen (sgn ++ body) - 1) (chr_0 + value)
   else
     d1 ← rd digits (value * 2 + 1);
     dst ← wr ((sgn ++ body) ++ tail) (zlen (sgn ++ body) - 1) d1;
     d0 ← rd digits (value * 2);
     wr dst (zlen (sgn ++ body) - 1 - 1) d0)
  = Some (sgn ++ udec 19 value ++ tail).
Proof.
  intros Hv Hl. rewrite length_app, <- app_assoc. destruct (value <? 10) eqn:E.
  - rewrite (udec_S 18), E in Hl |- *. destruct body as [|y [|]]; try done.
    cbn [length app] in *. rewrite (wr_app sgn) by lia. done.
  - destruct (digits_lookup value Hv) as [-> ->]. zbool. cbn [mbind option_bind].
    assert (udec 19 value = [48 + value / 10; 48 + value mod 10]) as Hu.
    { rewrite udec_step by lia. rewrite (udec_S 18).
      assert (value / 10 < 10) by (apply Z.div_lt_upper_bound; lia). by ztrue (value / 10 <? 10). }
    rewrite Hu in Hl |- *. destruct body as [|x [|y [|]]]; try done. cbn [length] in *.
    apply (wr_pair sgn x y tail). lia.
Qed.

(** The body of [ll2string] after the length check, for a buffer [pre] that
    has the room of the sign and the digits. *)
Lemma ll2string_body pre k x rest value :
  0 <= value <= ULLONG_MAX -> length pre = (k + length (udec 19 value))%nat ->
  exists sgn, length sgn = k /\
  (dst ← wr (pre ++ x :: rest) (zlen pre) 0;
   '(dst, next, value) ← ll2string_loop 10 dst (zlen pre - 1) value;
   if value <? 10 then wr dst next (chr_0 + value)
   else
     d1 ← rd digits (value * 2 + 1);
     dst ← wr dst next d1;
     d0 ← rd digits (value * 2);
     wr dst (next - 1) d0)
  = Some (sgn ++ udec 19 value ++ 0 :: rest).
Proof.
  intros Hv Hl. unfold ULLONG_MAX in Hv. rewrite wr_app by done. cbn [mbind option_bind].
  destruct (ll2string_loop_spec 10 pre (0 :: rest) value) as (pre' & tail' & v' & -> & Hv' & Ht & Hl');
    [split; [lia | simpl; lia] | lia | lia |].
  cbn [mbind option_bind]. rewrite <- (take_drop k pre'), Ht.
  exists (take k pre'). split; [rewrite length_take; lia|].
  apply ll2string_last; [lia|]. rewrite length_drop. lia.
Qed.

Lemma ll2string_dec dst dstlen v : in_s64 v -> dstlen <= zlen dst ->
  ll2string dst dstlen v =
    Some (if zlen (dec v) <? dstlen
          then (dec v ++ 0 :: drop (S (length (dec v))) dst, zlen (dec v)) else (dst, 0)).
Proof.
  intros Hv Hd. unfold ll2string, dec, in_s64 in *.
  set (value := Z.abs v). set (neg := v <? 0).
  assert ((if neg then (if negb (v =? LLONG_MIN) then u64 (- v) else u64 (LLONG_MAX + 1), true)
    else (v, false)) = (value, neg)) as ->.
  { subst value neg. unfold LLONG_MIN, LLONG_MAX in *. destruct (v <? 0) eqn:E; zbool; [|f_equal; lia].
    destruct (v =? -9223372036854775808) eqn:E1; zbool; simpl negb; cbn iota;
      rewrite uwrap_small by lia; f_equal; lia. }
  assert (0 <= value <= ULLONG_MAX) as Hval by (subst value; unfold LLONG_MIN, LLONG_MAX, ULLONG_MAX in *; lia).
  rewrite digits10_udec by done.
  assert ((if neg then chr_minus :: udec 19 (- v) else udec 19 v) =
    (if neg then [chr_minus] else []) ++ udec 19 value) as ->.
  { subst neg value. destruct (v <? 0) eqn:E; zbool.
    - by replace (Z.abs v) with (- v) by lia.
    - by replace (Z.abs v) with v by lia. }
  set (k := if neg then 1%nat else 0%nat).
  assert (zlen (udec 19 value) + b2z neg = Z.of_nat (k + length (udec 19 value))) as -> by (subst k; destruct neg; simpl b2z; lia).
  rewrite length_app. assert (length (if neg then [chr_minus] else []) = k) as -> by (by subst k; destruct neg).
  rewrite Z.geb_leb, Z.leb_antisym. destruct (Z.of_nat (k + length (udec 19 value)) <? dstlen) eqn:E; [|done].
  zbool. cbn [negb].
  destruct (lookup_lt_is_Some_2 dst (k + length (udec 19 value))) as [x Hx]; [lia|].
  pose proof (take_drop_middle dst _ x Hx) as Hsplit.
  set (pre := take (k + length (udec 19 value)) dst) in *.
  set (rest := drop (S (k + length (udec 19 value))) dst) in *.
  assert (length pre = (k + length (udec 19 value))%nat) as Hpre by (subst pre; rewrite length_take; lia).
  rewrite <- Hsplit, <- Hpre.
  destruct (ll2string_body pre k x rest value Hval Hpre) as (sgn & Hsgn & Hrun).
  destruct (wr (pre ++ x :: rest) (zlen pre) 0) as [d|]; [|done]. cbn [mbind option_bind] in *.
  destruct (ll2string_loop 10 d (zlen pre - 1) value) as [[[d' nx] v']|]; [|done].
  cbn [mbind option_bind] in *. rewrite Hrun. cbn [mbind option_bind].
  subst k. destruct neg; cbn [length] in Hsgn.
  - by destruct sgn as [|z [|]].
  - by destruct sgn.
Qed.

End Dec.

(** ** Properties *)

Lemma dec_string2ll s v : Dec.string2ll s = Some v <-> in_s64 v /\ s = Dec.dec v.
Proof.
  split; [apply Dec.string2ll_sound|]. intros [Hv ->]. by apply Dec.string2ll_complete.
Qed.

Lemma dec_inj v x : in_s64 v -> in_s64 x -> Dec.dec v = Dec.dec x -> v = x.
Proof.
  intros Hv Hx E. apply Dec.string2ll_complete in Hv, Hx. congruence.
Qed.

Lemma in_s64_width w v : 0 < w <= 64 -> - 2 ^ (w - 1) <= v < 2 ^ (w - 1) -> in_s64 v.
Proof.
  intros Hw Hv. assert (2 ^ (w - 1) <= 2 ^ 63) by (apply Z.pow_le_mono_r; lia).
  unfold in_s64, LLONG_MIN, LLONG_MAX. lia.
Qed.



(** C23: [ll2string] into a buffer of [dstlen] bytes: when the notation and its
    terminating NUL fit, it writes exactly them, leaves the rest of the buffer
    alone and returns the length, and [string2ll] reads the integer back;
    otherwise the buffer is unchanged and 0 is returned.  No write leaves the
    buffer. *)
Theorem ll2string_roundtrip dst dstlen v : in_s64 v -> dstlen <= zlen dst ->
  exists dst' n, Dec.ll2string dst dstlen v = Some (dst', n) /\
    if zlen (Dec.dec v) <? dstlen then
      n = zlen (Dec.dec v) /\ take (Z.to_nat n) dst' = Dec.dec v /\
      Dec.string2ll (take (Z.to_nat n) dst') = Some v /\
      dst' !! Z.to_nat n = Some 0 /\
      drop (S (Z.to_nat n)) dst' = drop (S (Z.to_nat n)) dst
    else dst' = dst /\ n = 0.
Proof.
  intros Hv Hd. rewrite Dec.ll2string_dec by done.
  destruct (zlen (Dec.dec v) <? dstlen) eqn:E; [|by eauto].
  eexists _, _. split; [done|]. rewrite Nat2Z.id, take_app_length. split_and!; [done | done | | |].
  - by apply dec_string2ll.
  - by rewrite list_lookup_middle.
  - rewrite cons_middle, app_assoc. apply drop_app_length'. rewrite length_app. simpl. lia.
Qed.

Lemma ll2string_roundtrip_witness :
  in_s64 LLONG_MIN /\ exists dst' n, Dec.ll2string (replicate 32 7) 21 LLONG_MIN = Some (dst', n) /\
    Dec.string2ll (take (Z.to_nat n) dst') = Some LLONG_MIN.
Proof.
  assert (in_s64 LLONG_MIN) as H by (unfold in_s64, LLONG_MIN, LLONG_MAX; lia).
  split; [exact H|].
  destruct (ll2string_roundtrip (replicate 32 7) 21 LLONG_MIN H ltac:(simpl; lia))
    as (dst' & n & Hr & Hc).
  exists dst', n. split; [exact Hr|].
  assert ((zlen (Dec.dec LLONG_MIN) <? 21) = true) as E by (vm_compute; reflexivity).
  rewrite E in Hc. apply Hc.
Defined.
