(* ===== verification/Intset.v ===== *)
(** * Integer sets (src/intset.c)

    An [intset] is the header [encoding], [length] and the allocation
    [contents], a list of bytes read and written through pointer offsets as the
    code does: element [pos] of an array of [enc]-byte integers lives at offset
    [pos * enc], little endian (the build on which the [memrev*ifbe] macros of
    endianconv.h are empty).  Every access is bounds checked by the memory of
    Prelude, [None] being an access outside the allocation.  [rep] relates an
    [intset] to the strictly increasing list of its elements. *)
From Stdlib Require Import Lia ZArith.
From stdpp Require Import base numbers list tactics option sorting sets gmap.
From S2P Require Import Prelude.
#[local] Open Scope Z_scope.

Record intset := mk_intset {
  is_encoding : Z;
  is_length : Z;
  is_contents : list Z;
}.

Definition INTSET_ENC_INT16 := 2.
Definition INTSET_ENC_INT32 := 4.
Definition INTSET_ENC_INT64 := 8.

Definition _intsetValueEncoding (v : Z) : Z :=
  if (v <? INT32_MIN) || (v >? INT32_MAX) then INTSET_ENC_INT64
  else if (v <? INT16_MIN) || (v >? INT16_MAX) then INTSET_ENC_INT32
  else INTSET_ENC_INT16.

Definition _intsetGetEncoded (s : intset) (pos enc : Z) : option Z :=
  if enc =? INTSET_ENC_INT64 then
    v64 ← load (is_contents s) (pos * 8) 8; Some (s64 (le_val v64))
  else if enc =? INTSET_ENC_INT32 then
    v32 ← load (is_contents s) (pos * 4) 4; Some (s32 (le_val v32))
  else
    v16 ← load (is_contents s) (pos * 2) 2; Some (s16 (le_val v16)).

Definition _intsetGet (s : intset) (pos : Z) : option Z :=
  _intsetGetEncoded s pos (is_encoding s).

Definition set_contents (s : intset) (c : list Z) : intset :=
  mk_intset (is_encoding s) (is_length s) c.
Definition set_length (s : intset) (n : Z) : intset :=
  mk_intset (is_encoding s) n (is_contents s).

Definition _intsetSet (s : intset) (pos value : Z) : option intset :=
  if is_encoding s =? INTSET_ENC_INT64 then
    c ← store (is_contents s) (pos * 8) (le_bytes 8 value); Some (set_contents s c)
  else if is_encoding s =? INTSET_ENC_INT32 then
    c ← store (is_contents s) (pos * 4) (le_bytes 4 value); Some (set_contents s c)
  else
    c ← store (is_contents s) (pos * 2) (le_bytes 2 value); Some (set_contents s c).

Definition intsetNew : intset := mk_intset INTSET_ENC_INT16 0 [].

(** The binary search: lower bound, last probed position and last value read
    when the loop stops. *)
Fixpoint intsetSearch_loop (fuel : nat) (s : intset) (value min max mid cur : Z)
  : option (Z * Z * Z) :=
  if max >=? min then
    match fuel with
    | O => None
    | S fuel =>
        let mid := u32 (u32 min + u32 max) / 2 in
        cur ← _intsetGet s mid;
        if value >? cur then intsetSearch_loop fuel s value (mid + 1) max mid cur
        else if value <? cur then intsetSearch_loop fuel s value min (mid - 1) mid cur
        else Some (min, mid, cur)
    end
  else Some (min, mid, cur).

(** Found or not, and the position of the value or of its insertion. *)
Definition intsetSearch (s : intset) (value : Z) : option (bool * Z) :=
  let max := s32 (u32 (is_length s - 1)) in
  if is_length s =? 0 then Some (false, 0) else
  last ← _intsetGet s (s32 (u32 (is_length s - 1)));
  if value >? last then Some (false, is_length s) else
  first ← _intsetGet s 0;
  if value <? first then Some (false, 0) else
  '(min, mid, cur) ← intsetSearch_loop (S (Z.to_nat (is_length s))) s value 0 max (-1) (-1);
  if value =? cur then Some (true, mid) else Some (false, min).

Section Alloc.
(** What a grown allocation holds beyond its old end. *)
Context (junk : nat -> Z).

Definition intsetResize (s : intset) (len : Z) : intset :=
  let size := u32 (len * is_encoding s) in
  set_contents s (realloc junk (is_contents s) size).

(** [while(length--) _intsetSet(is,length+prepend,_intsetGetEncoded(is,length,curenc))] *)
Fixpoint intsetUpgrade_loop (n : nat) (s : intset) (curenc prepend : Z) : option intset :=
  match n with
  | O => Some s
  | S n =>
      v ← _intsetGetEncoded s (Z.of_nat n) curenc;
      s ← _intsetSet s (Z.of_nat n + prepend) v;
      intsetUpgrade_loop n s curenc prepend
  end.

Definition intsetUpgradeAndAdd (s : intset) (value : Z) : option intset :=
  let curenc := u8 (is_encoding s) in
  let newenc := _intsetValueEncoding value in
  let len := is_length s in
  let prepend := if value <? 0 then 1 else 0 in
  let s := mk_intset newenc (is_length s) (is_contents s) in
  let s := intsetResize s (u32 (is_length s + 1)) in
  s ← intsetUpgrade_loop (Z.to_nat len) s curenc prepend;
  s ← (if negb (prepend =? 0) then _intsetSet s 0 value else _intsetSet s (is_length s) value);
  Some (set_length s (u32 (is_length s + 1))).

Definition intsetMoveTail (s : intset) (from to : Z) : option intset :=
  let bytes := u32 (is_length s - from) in
  let sz := if is_encoding s =? INTSET_ENC_INT64 then 8
            else if is_encoding s =? INTSET_ENC_INT32 then 4 else 2 in
  let bytes := u32 (bytes * sz) in
  c ← memmove (is_contents s) (to * sz) (from * sz) bytes;
  Some (set_contents s c).

Definition intsetAdd (s : intset) (value : Z) : option (intset * bool) :=
  let valenc := _intsetValueEncoding value in
  if valenc >? is_encoding s then
    s ← intsetUpgradeAndAdd s value; Some (s, true)
  else
    '(found, pos) ← intsetSearch s value;
    if (found : bool) then Some (s, false) else
    let s := intsetResize s (u32 (is_length s + 1)) in
    s ← (if pos <? is_length s then intsetMoveTail s pos (u32 (pos + 1)) else Some s);
    s ← _intsetSet s pos value;
    Some (set_length s (u32 (is_length s + 1)), true).

Definition intsetRemove (s : intset) (value : Z) : option (intset * bool) :=
  let valenc := _intsetValueEncoding value in
  if valenc <=? is_encoding s then
    '(found, pos) ← intsetSearch s value;
    if (found : bool) then
      let len := is_length s in
      s ← (if pos <? u32 (len - 1) then intsetMoveTail s (u32 (pos + 1)) pos else Some s);
      let s := intsetResize s (u32 (len - 1)) in
      Some (set_length s (u32 (len - 1)), true)
    else Some (s, false)
  else Some (s, false).

End Alloc.

Definition intsetFind (s : intset) (value : Z) : option bool :=
  let valenc := _intsetValueEncoding value in
  if valenc <=? is_encoding s then
    '(found, _) ← intsetSearch s value; Some found
  else Some false.

(** [rand] is the value the C library's generator returned. *)
Definition intsetRandom (rand : Z) (s : intset) : option Z :=
  _intsetGet s (rand mod is_length s).

(** [None]: out of bounds access; [Some None]: position out of range. *)
Definition intsetGet (s : intset) (pos : Z) : option (option Z) :=
  if pos <? is_length s then v ← _intsetGet s pos; Some (Some v) else Some None.

Definition intsetLen (s : intset) : Z := is_length s.

Definition intsetBlobLen (s : intset) : Z := 8 + u32 (is_length s * is_encoding s).

(** ** Arrays of fixed width integers *)

Inductive valid_enc : Z -> Prop :=
  | enc16 : valid_enc 2
  | enc32 : valid_enc 4
  | enc64 : valid_enc 8.

Definition in_enc (enc v : Z) : Prop := - 2 ^ (8 * enc - 1) <= v < 2 ^ (8 * enc - 1).

Definition flat (enc : Z) (l : list Z) : list Z := l ≫= le_bytes (Z.to_nat enc).

(** The set [s] holds exactly the elements of the strictly increasing [l]. *)
Record rep (s : intset) (l : list Z) : Prop := mk_rep {
  rep_enc : valid_enc (is_encoding s);
  rep_len : is_length s = zlen l;
  rep_contents : is_contents s = flat (is_encoding s) l;
  rep_sorted : StronglySorted Z.lt l;
  rep_range : Forall (in_enc (is_encoding s)) l;
  rep_small : zlen l < 2 ^ 29;
}.

Lemma valid_enc_pos enc : valid_enc enc -> 2 <= enc <= 8.
Proof. destruct 1; lia. Qed.

Lemma length_flat enc l : valid_enc enc -> zlen (flat enc l) = zlen l * enc.
Proof.
  intros He. pose proof (valid_enc_pos _ He). unfold flat.
  induction l as [|v l IH]; [done|]. cbn [mbind list_bind].
  rewrite length_app, length_le_bytes. cbn [length]. lia.
Qed.

Lemma flat_app enc l k : flat enc (l ++ k) = flat enc l ++ flat enc k.
Proof. apply bind_app. Qed.

Lemma flat_cons enc v l : flat enc (v :: l) = le_bytes (Z.to_nat enc) v ++ flat enc l.
Proof. done. Qed.

Lemma decode_enc enc v : valid_enc enc -> in_enc enc v ->
  swrap (8 * enc) (le_val (le_bytes (Z.to_nat enc) v)) = v.
Proof.
  intros He Hv. pose proof (valid_enc_pos _ He). rewrite le_val_bytes.
  replace (256 ^ Z.of_nat (Z.to_nat enc)) with (2 ^ (8 * enc)) by (by destruct He).
  rewrite swrap_mod, swrap_small; [done | lia | apply Hv | lia].
Qed.

Lemma getEncoded_at s pos enc A v B : valid_enc enc -> in_enc enc v ->
  is_contents s = A ++ le_bytes (Z.to_nat enc) v ++ B -> zlen A = pos * enc ->
  _intsetGetEncoded s pos enc = Some v.
Proof.
  intros He Hv Hc HA. rewrite <- (decode_enc enc v) by done.
  unfold _intsetGetEncoded. rewrite Hc.
  destruct He; cbn -[le_bytes le_val swrap load Z.mul];
    (rewrite load_app; [done | lia | by rewrite length_le_bytes]).
Qed.

Lemma set_at s pos A M B v : valid_enc (is_encoding s) ->
  is_contents s = A ++ M ++ B -> zlen A = pos * is_encoding s -> zlen M = is_encoding s ->
  _intsetSet s pos v =
    Some (set_contents s (A ++ le_bytes (Z.to_nat (is_encoding s)) v ++ B)).
Proof.
  intros He Hc HA HM. unfold _intsetSet. rewrite Hc.
  destruct s as [enc n c]; cbn [is_encoding is_contents] in *.
  destruct He; cbn -[le_bytes store Z.mul];
    (rewrite store_app; [done | lia | rewrite length_le_bytes; lia]).
Qed.

Lemma get_rep s l i v : rep s l -> l !! i = Some v -> _intsetGet s (Z.of_nat i) = Some v.
Proof.
  intros [He _ Hc _ Hr _] Hi. unfold _intsetGet.
  rewrite <- (take_drop_middle l i v Hi), flat_app, flat_cons in Hc.
  apply (getEncoded_at _ _ _ _ _ _ He (Forall_lookup_1 _ _ _ _ Hr Hi) Hc).
  rewrite length_flat, length_take by done.
  apply lookup_lt_Some in Hi. lia.
Qed.

(** ** Search *)

Definition insert_point (l : list Z) (v : Z) (pos : nat) : Prop :=
  (pos <= length l)%nat /\ Forall (fun x => x < v) (take pos l) /\ Forall (fun x => v < x) (drop pos l).

Lemma sorted_lookup (l : list Z) i j x y : StronglySorted Z.lt l ->
  l !! i = Some x -> l !! j = Some y -> (i < j)%nat -> x < y.
Proof.
  intros Hs. revert i j. induction Hs as [|a l Hs IH Ha]; intros i j Hi Hj Hij; [done|].
  destruct j as [|j]; [lia|]. destruct i as [|i]; simpl in *.
  - simplify_eq. rewrite Forall_lookup in Ha. eauto.
  - eapply IH; eauto. lia.
Qed.

Lemma insert_point_intro (l : list Z) v pos : (pos <= length l)%nat ->
  (forall i x, l !! i = Some x -> (i < pos)%nat -> x < v) ->
  (forall i x, l !! i = Some x -> (pos <= i)%nat -> v < x) -> insert_point l v pos.
Proof.
  intros Hp Hl Hr. split_and!; [done | |]; apply Forall_lookup; intros i x Hi.
  - apply lookup_take_Some in Hi as [Hi Hlt]. eauto.
  - rewrite lookup_drop in Hi. eapply Hr; [done | lia].
Qed.

Lemma search_loop_spec s l v : rep s l -> forall fuel min max mid cur,
  0 <= min -> min <= max + 1 -> max < zlen l -> max + 1 - min < Z.of_nat fuel ->
  (forall i x, l !! i = Some x -> Z.of_nat i < min -> x < v) ->
  (forall i x, l !! i = Some x -> max < Z.of_nat i -> v < x) ->
  (max < min -> cur <> v) ->
  exists min' mid' cur', intsetSearch_loop fuel s v min max mid cur = Some (min', mid', cur') /\
    (cur' = v /\ 0 <= mid' /\ l !! Z.to_nat mid' = Some v \/
     cur' <> v /\ 0 <= min' /\ insert_point l v (Z.to_nat min')).
Proof.
  intros Hrep. pose proof (rep_small _ _ Hrep) as Hsm.
  induction fuel as [|fuel IH]; intros min max mid cur Hmin Hmm Hmax Hf Hlt Hgt Hcur; [lia|].
  cbn [intsetSearch_loop]. destruct (max >=? min) eqn:E; zbool.
  2: { exists min, mid, cur. split; [done|]. right. split_and!; [auto | done |].
       apply insert_point_intro; [lia | |]; intros i x Hi ?; [eapply Hlt | eapply Hgt]; eauto; lia. }
  rewrite (uwrap_small _ min), (uwrap_small _ max), (uwrap_small _ (min + max)) by lia. set (m := (min + max) / 2).
  assert (min <= m <= max) as Hm by (subst m; split; [apply Z.div_le_lower_bound | apply Z.div_le_upper_bound]; lia).
  destruct (lookup_lt_is_Some_2 l (Z.to_nat m)) as [c Hc]; [lia|].
  pose proof (get_rep _ _ _ _ Hrep Hc) as Hg. rewrite Z2Nat.id in Hg by lia. rewrite Hg.
  cbn [mbind option_bind]. pose proof (rep_sorted _ _ Hrep) as Hs.
  destruct (v >? c) eqn:E1; [|destruct (v <? c) eqn:E2]; zbool.
  - apply IH; try lia.
    + intros i x Hi ?. destruct (decide (i = Z.to_nat m)) as [->|]; [simplify_eq; lia|].
      enough (x < c) by lia. eapply (sorted_lookup l i (Z.to_nat m)); eauto. lia.
    + done.
  - apply IH; try lia.
    + done.
    + intros i x Hi ?. destruct (decide (i = Z.to_nat m)) as [->|]; [simplify_eq; lia|].
      enough (c < x) by lia. eapply (sorted_lookup l (Z.to_nat m) i); eauto. lia.
  - exists min, m, c. split; [done|]. left. assert (c = v) as -> by lia. split_and!; auto; lia.
Qed.

Lemma intsetSearch_spec s l v : rep s l ->
  exists found pos, intsetSearch s v = Some (found, Z.of_nat pos) /\
    if (found : bool) then l !! pos = Some v else insert_point l v pos.
Proof.
  intros Hrep. pose proof Hrep as [He Hlen _ Hs _ Hsm]. unfold intsetSearch. rewrite Hlen.
  destruct (zlen l =? 0) eqn:E0; zbool.
  { assert (l = []) as -> by (apply length_zero_iff_nil; lia).
    exists false, 0%nat. repeat split; constructor. }
  rewrite uwrap_small, swrap_small by lia.
  destruct (lookup_lt_is_Some_2 l (length l - 1)) as [b Hb]; [lia|].
  destruct (lookup_lt_is_Some_2 l 0) as [a Ha]; [lia|].
  pose proof (get_rep _ _ _ _ Hrep Hb) as Hgb. replace (Z.of_nat (length l - 1)) with (zlen l - 1) in Hgb by lia.
  pose proof (get_rep _ _ _ _ Hrep Ha) as Hga. change (Z.of_nat 0) with 0 in Hga.
  rewrite Hgb. cbn [mbind option_bind]. destruct (v >? b) eqn:E1; zbool.
  { exists false, (length l). split; [done|]. apply insert_point_intro; [done | |].
    - intros i x Hi ?. destruct (decide (i = length l - 1)%nat) as [->|]; [simplify_eq; lia|].
      pose proof (sorted_lookup l i (length l - 1) x b Hs Hi Hb). lia.
    - intros i x Hi ?. apply lookup_lt_Some in Hi. lia. }
  rewrite Hga. cbn [mbind option_bind]. destruct (v <? a) eqn:E2; zbool.
  { exists false, 0%nat. split; [done|]. apply insert_point_intro; [lia | lia |].
    intros i x Hi ?. destruct i; [simplify_eq; lia|].
    pose proof (sorted_lookup l 0 (S i) a x Hs Ha Hi). lia. }
  destruct (search_loop_spec s l v Hrep (S (Z.to_nat (zlen l))) 0 (zlen l - 1) (-1) (-1))
    as (min' & mid' & cur' & -> & Hres); try lia.
  { intros i x Hi ?. apply lookup_lt_Some in Hi. lia. }
  cbn [mbind option_bind]. destruct Hres as [(-> & ? & ?)|(? & ? & ?)].
  - rewrite Z.eqb_refl. exists true, (Z.to_nat mid'). by rewrite Z2Nat.id.
  - zfalse (v =? cur'). exists false, (Z.to_nat min'). by rewrite Z2Nat.id.
Qed.

(** ** The abstract set operations on sorted lists *)

Fixpoint sinsert (v : Z) (l : list Z) : list Z :=
  match l with
  | [] => [v]
  | x :: l' => if v <? x then v :: l else if v =? x then l else x :: sinsert v l'
  end.

Definition sremove (v : Z) (l : list Z) : list Z := filter (fun x => x <> v) l.

Lemma sinsert_point l v pos : insert_point l v pos ->
  sinsert v l = take pos l ++ v :: drop pos l.
Proof.
  intros (Hp & Hl & Hr). revert pos Hp Hl Hr. induction l as [|x l IH]; intros pos Hp Hl Hr.
  { by destruct pos. }
  cbn [sinsert]. destruct pos as [|pos]; cbn [take drop] in *.
  - apply Forall_cons in Hr as [Hr _]. by ztrue (v <? x).
  - apply Forall_cons in Hl as [Hl Hl']. zfalse (v <? x). zfalse (v =? x).
    cbn [app]. f_equal. apply IH; [simpl in Hp; lia | done | done].
Qed.

Lemma insert_point_notin l v pos : insert_point l v pos -> v ∉ l.
Proof.
  intros (_ & Hl & Hr) Hin. rewrite <- (take_drop pos l) in Hin.
  rewrite Forall_forall in Hl, Hr. apply elem_of_app in Hin as [Hin|Hin].
  - specialize (Hl _ Hin). lia.
  - specialize (Hr _ Hin). lia.
Qed.

Lemma insert_point_sorted l v pos : StronglySorted Z.lt l -> insert_point l v pos ->
  StronglySorted Z.lt (take pos l ++ v :: drop pos l).
Proof.
  intros Hs. revert pos. induction Hs as [|x l Hs IH Hx]; intros pos (Hp & Hl & Hr).
  { destruct pos; simpl; repeat constructor. }
  destruct pos as [|pos]; cbn [take drop] in *; cbn [app].
  - constructor; [by constructor | done].
  - apply Forall_cons in Hl as [Hl Hl']. constructor.
    + apply IH. split_and!; [simpl in Hp; lia | done | done].
    + rewrite <- (take_drop pos l) in Hx. apply Forall_app in Hx as [? ?].
      apply Forall_app. split; [done | by constructor].
Qed.

Lemma sinsert_in l v : StronglySorted Z.lt l -> v ∈ l -> sinsert v l = l.
Proof.
  induction 1 as [|x l Hs IH Hx]; intros Hin; [set_solver|].
  cbn [sinsert]. rewrite Forall_forall in Hx. apply elem_of_cons in Hin as [->|Hin].
  - zfalse (x <? x). by rewrite Z.eqb_refl.
  - specialize (Hx _ Hin). zfalse (v <? x). zfalse (v =? x). f_equal. auto.
Qed.

Lemma elem_of_sinsert v l x : x ∈ sinsert v l <-> x = v \/ x ∈ l.
Proof.
  induction l as [|y l IH]; cbn [sinsert]; [set_solver|].
  destruct (v <? y) eqn:E; [set_solver|]. destruct (v =? y) eqn:E1; zbool; set_solver.
Qed.

Lemma sremove_notin v l : v ∉ l -> sremove v l = l.
Proof.
  induction l as [|x l IH]; intros Hin; [done|]. unfold sremove in *.
  rewrite filter_cons_True by set_solver. f_equal. apply IH. set_solver.
Qed.

Lemma sremove_point l v pos : StronglySorted Z.lt l -> l !! pos = Some v ->
  sremove v l = take pos l ++ drop (S pos) l.
Proof.
  intros Hs. revert pos. induction Hs as [|x l Hs IH Hx]; intros pos Hi; [done|].
  unfold sremove in *. destruct pos as [|pos]; simpl in Hi.
  - simplify_eq. rewrite filter_cons_False by (intros ?; done). cbn [take drop app].
    apply sremove_notin. rewrite Forall_forall in Hx. intros Hin. specialize (Hx _ Hin). lia.
  - rewrite Forall_lookup in Hx. rewrite filter_cons_True by (specialize (Hx _ _ Hi); lia).
    cbn [take drop app]. f_equal. exact (IH pos Hi).
Qed.

Lemma sremove_sorted l v : StronglySorted Z.lt l -> StronglySorted Z.lt (sremove v l).
Proof.
  induction 1 as [|x l Hs IH Hx]; [constructor|]. unfold sremove in *.
  destruct (decide (x <> v)); [rewrite filter_cons_True by done | by rewrite filter_cons_False by done].
  constructor; [done|]. rewrite Forall_forall in Hx |- *.
  intros y Hy%list_elem_of_filter. apply Hx, Hy.
Qed.

(** ** Encodings *)

Lemma valueEncoding_valid v : valid_enc (_intsetValueEncoding v).
Proof.
  unfold _intsetValueEncoding, INTSET_ENC_INT64, INTSET_ENC_INT32, INTSET_ENC_INT16.
  repeat case_goal; constructor.
Qed.

Lemma valueEncoding_le enc v : valid_enc enc -> in_s64 v ->
  (_intsetValueEncoding v <= enc <-> in_enc enc v).
Proof.
  intros He Hv. unfold in_s64, in_enc, LLONG_MIN, LLONG_MAX, _intsetValueEncoding,
    INTSET_ENC_INT64, INTSET_ENC_INT32, INTSET_ENC_INT16, INT32_MIN, INT32_MAX, INT16_MIN, INT16_MAX in *.
  destruct He; simpl; repeat case_goal; zbool; lia.
Qed.

Lemma in_enc_mono enc enc' v : valid_enc enc -> valid_enc enc' -> enc <= enc' ->
  in_enc enc v -> in_enc enc' v.
Proof.
  intros He He' Hle. unfold in_enc. pose proof (valid_enc_pos _ He).
  assert (2 ^ (8 * enc - 1) <= 2 ^ (8 * enc' - 1)) by (apply Z.pow_le_mono_r; lia). lia.
Qed.

(** A value that needs a wider encoding lies outside the current elements. *)
Lemma upgrade_point enc l v : valid_enc enc -> in_s64 v -> Forall (in_enc enc) l ->
  enc < _intsetValueEncoding v ->
  insert_point l v (if v <? 0 then 0%nat else length l).
Proof.
  intros He Hv Hl Hlt. assert (~ in_enc enc v) as Hn by (rewrite <- valueEncoding_le by done; lia).
  unfold in_enc in *. rewrite Forall_lookup in Hl. pose proof (valid_enc_pos _ He).
  assert (0 < 2 ^ (8 * enc - 1)) by (apply Z.pow_pos_nonneg; lia).
  destruct (v <? 0) eqn:E; zbool; apply insert_point_intro; try lia; intros i x Hi ?;
    specialize (Hl i x Hi); [lia | lia |]. apply lookup_lt_Some in Hi. lia.
Qed.

(** ** Operations *)

Section Ops.
Context (junk : nat -> Z).

Lemma resize_grow s l : rep s l -> zlen l + 1 < 2 ^ 29 -> exists rest,
  intsetResize junk s (u32 (is_length s + 1)) =
    set_contents s (flat (is_encoding s) l ++ rest) /\ zlen rest = is_encoding s.
Proof.
  intros [He Hlen Hc _ _ _] Hsm. pose proof (valid_enc_pos _ He).
  unfold intsetResize. rewrite Hlen, Hc.
  assert ((zlen l + 1) * is_encoding s < 2 ^ 32) by nia.
  rewrite (uwrap_small _ (zlen l + 1)), uwrap_small by nia.
  destruct (realloc_grow junk (flat (is_encoding s) l) ((zlen l + 1) * is_encoding s)) as (rest & -> & Hr).
  { rewrite length_flat by done. nia. }
  exists rest. split; [done|]. rewrite length_flat in Hr by done. nia.
Qed.

(** Back-to-front rewriting from [cur] to the wider [is_encoding s]. *)
Lemma upgrade_loop_spec cur prepend l post : valid_enc cur -> Forall (in_enc cur) l ->
  0 <= prepend <= 1 -> forall n s mid,
  (n <= length l)%nat -> valid_enc (is_encoding s) -> cur <= is_encoding s ->
  is_contents s = flat cur (take n l) ++ mid ++ flat (is_encoding s) (drop n l) ++ post ->
  zlen (flat cur (take n l) ++ mid) = (Z.of_nat n + prepend) * is_encoding s ->
  exists M, intsetUpgrade_loop n s cur prepend =
      Some (set_contents s (M ++ flat (is_encoding s) l ++ post)) /\
    zlen M = prepend * is_encoding s.
Proof.
  intros Hcur Hl Hpre. pose proof (valid_enc_pos _ Hcur).
  induction n as [|n IH]; intros s mid Hn He Hle Hc HX; cbn [intsetUpgrade_loop].
  { exists mid. change (flat cur (take 0 l)) with (@nil Z) in *. change (drop 0 l) with l in Hc.
    cbn [app] in *. split; [rewrite <- Hc; by destruct s | lia]. }
  destruct (lookup_lt_is_Some_2 l n) as [v Hv]; [lia|].
  rewrite (take_S_r _ _ _ Hv), flat_app, flat_cons, !length_app, length_le_bytes in HX.
  rewrite (take_S_r _ _ _ Hv), flat_app, flat_cons in Hc. cbn [flat mbind list_bind length] in HX, Hc.
  rewrite app_nil_r in Hc. rewrite <- !app_assoc in Hc.
  assert (zlen (flat cur (take n l)) = Z.of_nat n * cur) as HP by (rewrite length_flat, length_take by done; lia).
  erewrite (getEncoded_at s (Z.of_nat n) cur); [|done | by eapply Forall_lookup_1 | exact Hc | lia].
  cbn [mbind option_bind]. set (Y := le_bytes (Z.to_nat cur) v ++ mid).
  assert (zlen Y = (Z.of_nat (S n) + prepend) * is_encoding s - Z.of_nat n * cur) as HY
    by (subst Y; rewrite length_app, length_le_bytes; lia).
  set (k := Z.to_nat (zlen Y - is_encoding s)).
  assert (Z.of_nat n * cur <= (Z.of_nat n + prepend) * is_encoding s) by nia.
  assert (Z.of_nat k = zlen Y - is_encoding s) as Hk by (subst k; nia).
  rewrite (set_at s _ (flat cur (take n l) ++ take k Y) (drop k Y) (flat (is_encoding s) (drop (S n) l) ++ post)).
  - cbn [mbind option_bind]. edestruct (IH (set_contents s
      ((flat cur (take n l) ++ take k Y) ++ le_bytes (Z.to_nat (is_encoding s)) v ++
       flat (is_encoding s) (drop (S n) l) ++ post)) (take k Y)) as (M & -> & HM);
      cbn [set_contents is_encoding is_contents]; [lia | done | done | | | by exists M].
    + rewrite (drop_S _ _ _ Hv), flat_cons, <- !app_assoc. done.
    + rewrite length_app, length_take. nia.
  - done.
  - rewrite Hc, <- (app_assoc _ (take k Y)), (app_assoc (take k Y)), take_drop. subst Y. by rewrite <- app_assoc.
  - rewrite length_app, length_take. nia.
  - rewrite length_drop. nia.
Qed.

Lemma rep_insert s l v pos c : rep s l -> in_enc (is_encoding s) v -> insert_point l v pos ->
  zlen l + 1 < 2 ^ 29 -> c = flat (is_encoding s) (take pos l ++ v :: drop pos l) ->
  rep (mk_intset (is_encoding s) (u32 (is_length s + 1)) c) (sinsert v l).
Proof.
  intros [He Hlen Hc Hs Hr Hsm] Hv Hp Hb ->. rewrite (sinsert_point _ _ _ Hp).
  assert (zlen (take pos l ++ v :: drop pos l) = zlen l + 1) as Hl.
  { rewrite length_app, length_take. cbn [length]. rewrite length_drop. destruct Hp as [? _]. lia. }
  constructor; cbn [is_encoding is_length is_contents]; [done | | done | | | lia].
  - rewrite uwrap_small, Hl; lia.
  - by apply insert_point_sorted.
  - rewrite <- (take_drop pos l) in Hr. apply Forall_app in Hr as [? ?].
    apply Forall_app. split; [done | by constructor].
Qed.

Lemma rep_widen s l e : rep s l -> valid_enc e -> is_encoding s <= e ->
  rep (mk_intset e (zlen l) (flat e l)) l.
Proof.
  intros [He _ _ Hs Hr Hsm] He' Hle. constructor; try done.
  eapply Forall_impl; [exact Hr|]. intros x. by apply in_enc_mono.
Qed.

Lemma intsetAdd_upgrade s l v : rep s l -> in_s64 v -> zlen l + 1 < 2 ^ 29 ->
  is_encoding s < _intsetValueEncoding v ->
  exists s', intsetUpgradeAndAdd junk s v = Some s' /\ rep s' (sinsert v l) /\ v ∉ l /\
    is_encoding s' = _intsetValueEncoding v.
Proof.
  intros Hrep Hv Hb Hlt. pose proof Hrep as [He Hlen Hc Hs Hr Hsm].
  pose proof (upgrade_point _ _ _ He Hv Hr Hlt) as Hp.
  pose proof (valid_enc_pos _ He) as Hep. pose proof (valueEncoding_valid v) as He'.
  pose proof (valid_enc_pos _ He') as Hep'.
  set (e' := _intsetValueEncoding v) in *.
  assert (in_enc e' v) as Hve by (apply valueEncoding_le; auto; lia).
  set (k := if v <? 0 then 1 else 0).
  unfold intsetUpgradeAndAdd, intsetResize. fold e' k. cbn [is_length is_encoding is_contents set_contents].
  rewrite Hlen, Hc, (uwrap_small 8 (is_encoding s)) by lia.
  assert (u32 (zlen l + 1) = zlen l + 1) as Hu by (apply uwrap_small; lia).
  rewrite Hu, (uwrap_small 32 ((zlen l + 1) * e')) by nia.
  destruct (realloc_grow junk (flat (is_encoding s) l) ((zlen l + 1) * e')) as (rest & -> & Hrest);
    [rewrite length_flat by done; nia|]. rewrite length_flat in Hrest by done.
  rewrite Nat2Z.id.
  assert (0 <= k <= 1) as Hk by (subst k; destruct (v <? 0); lia).
  set (mid := take (Z.to_nat ((zlen l + k) * e' - zlen l * is_encoding s)) rest).
  set (post := drop (Z.to_nat ((zlen l + k) * e' - zlen l * is_encoding s)) rest).
  destruct (upgrade_loop_spec (is_encoding s) k l post He Hr Hk (length l)
    (mk_intset e' (zlen l) (flat (is_encoding s) l ++ rest)) mid) as (M & HM & HlM);
    cbn [is_encoding is_contents]; [done | done | lia | | |].
  { rewrite firstn_all, drop_all. cbn [flat mbind list_bind app]. by rewrite <- (take_drop (Z.to_nat ((zlen l + k) * e' - zlen l * is_encoding s)) rest) at 1. }
  { rewrite firstn_all, length_app, Nat2Z.inj_add, length_flat by done. subst mid. rewrite length_take. nia. }
  unfold set_contents in HM |- *. cbn [is_encoding is_length is_contents] in HM, HlM |- *.
  rewrite HM. cbn [mbind option_bind is_length].
  assert (zlen post = (1 - k) * e') as Hpost by (subst post; rewrite length_drop; nia).
  pose proof (fun c => rep_insert _ l v _ c (rep_widen s l e' Hrep He' ltac:(lia)) Hve Hp Hb) as Hfin.
  cbn [is_encoding is_length] in Hfin.
  subst k. destruct (v <? 0) eqn:Hneg; cbn [negb Z.eqb] in *.
  - rewrite (set_at _ 0 [] M (flat e' l ++ post)); cbn [is_encoding is_contents]; [|done | done | done | lia].
    cbn [mbind option_bind]. unfold set_length, set_contents. cbn [is_encoding is_length is_contents].
    eexists. split; [done|]. split; [|split; [by eapply insert_point_notin | done]].
    assert (post = []) as -> by (apply length_zero_iff_nil; lia).
    apply Hfin. cbn [take drop app]. by rewrite app_nil_r.
  - assert (M = []) as -> by (apply length_zero_iff_nil; lia).
    rewrite (set_at _ (zlen l) (flat e' l) post []); cbn [is_encoding is_contents app];
      [|done | by rewrite app_nil_r | by rewrite length_flat by done | lia].
    cbn [mbind option_bind]. unfold set_length, set_contents. cbn [is_encoding is_length is_contents].
    eexists. split; [done|]. split; [|split; [by eapply insert_point_notin | done]].
    apply Hfin. by rewrite firstn_all, drop_all, flat_app, flat_cons.
Qed.

Lemma moveTail_unfold s from to : valid_enc (is_encoding s) ->
  intsetMoveTail s from to =
    (c ← memmove (is_contents s) (to * is_encoding s) (from * is_encoding s)
           (u32 (u32 (is_length s - from) * is_encoding s)); Some (set_contents s c)).
Proof. intros He. unfold intsetMoveTail. by destruct He. Qed.

Lemma intsetAdd_rep s l v : rep s l -> in_s64 v -> zlen l + 1 < 2 ^ 29 ->
  exists s', intsetAdd junk s v = Some (s', bool_decide (v ∉ l)) /\ rep s' (sinsert v l) /\
    is_encoding s' = Z.max (is_encoding s) (_intsetValueEncoding v).
Proof.
  intros Hrep Hv Hb. pose proof Hrep as [He Hlen Hc Hs Hr Hsm].
  pose proof (valid_enc_pos _ He) as Hep. unfold intsetAdd.
  destruct (_intsetValueEncoding v >? is_encoding s) eqn:E; zbool.
  { destruct (intsetAdd_upgrade s l v Hrep Hv Hb E) as (s' & -> & ? & ? & Henc).
    exists s'. rewrite bool_decide_eq_true_2 by done. split_and!; [done | done | lia]. }
  pose proof E as Hmax. apply valueEncoding_le in E; [|done | done].
  destruct (intsetSearch_spec s l v Hrep) as (found & pos & -> & Hf). cbn [mbind option_bind].
  destruct found.
  { exists s. apply list_elem_of_lookup_2 in Hf.
    rewrite bool_decide_eq_false_2, sinsert_in by auto. split_and!; [done | done | lia]. }
  exists (mk_intset (is_encoding s) (u32 (is_length s + 1))
    (flat (is_encoding s) (take pos l ++ v :: drop pos l))).
  rewrite bool_decide_eq_true_2 by (by eapply insert_point_notin).
  split; [|split; [by eapply rep_insert | cbn [is_encoding]; lia]].
  destruct (resize_grow s l Hrep Hb) as (rest & -> & Hrest).
  pose proof Hf as [Hp _].
  cbn [is_length set_contents]. rewrite Hlen.
  assert (zlen (flat (is_encoding s) (take pos l)) = Z.of_nat pos * is_encoding s) as HP
    by (rewrite length_flat, length_take_le by (done || lia); done).
  destruct (Z.of_nat pos <? zlen l) eqn:E1; zbool.
  - rewrite moveTail_unfold by done. cbn [is_contents is_encoding is_length set_contents].
    rewrite Hlen, (uwrap_small _ (Z.of_nat pos + 1)), (uwrap_small _ (zlen l - Z.of_nat pos)) by lia.
    rewrite (uwrap_small _ ((zlen l - Z.of_nat pos) * is_encoding s)) by nia.
    rewrite <- (take_drop pos l) at 1. rewrite flat_app, <- app_assoc.
    edestruct (memmove_up (flat (is_encoding s) (take pos l)) (flat (is_encoding s) (drop pos l)) rest)
      as (M & -> & HM); [| | |]; [rewrite HP; done | rewrite length_flat, length_drop by done; nia | rewrite HP; lia |].
    cbn [mbind option_bind].
    rewrite (set_at _ _ (flat (is_encoding s) (take pos l)) M (flat (is_encoding s) (drop pos l)));
      cbn [is_encoding is_contents set_contents]; [|done | done | done | lia].
    cbn [mbind option_bind]. unfold set_length, set_contents. cbn [is_length is_encoding is_contents].
    by rewrite Hlen, flat_app, flat_cons.
  - assert (pos = length l) as -> by lia. cbn [mbind option_bind].
    rewrite (set_at _ _ (flat (is_encoding s) l) rest []); cbn [is_encoding is_contents set_contents];
      [|done | by rewrite app_nil_r | by rewrite length_flat by done | done].
    cbn [mbind option_bind]. unfold set_length, set_contents. cbn [is_length is_encoding is_contents].
    by rewrite Hlen, firstn_all, drop_all, flat_app, flat_cons.
Qed.

Lemma intsetRemove_rep s l v : rep s l -> in_s64 v ->
  exists s', intsetRemove junk s v = Some (s', bool_decide (v ∈ l)) /\ rep s' (sremove v l).
Proof.
  intros Hrep Hv. pose proof Hrep as [He Hlen Hc Hs Hr Hsm].
  pose proof (valid_enc_pos _ He) as Hep. unfold intsetRemove.
  destruct (_intsetValueEncoding v <=? is_encoding s) eqn:E; zbool.
  2: { assert (v ∉ l) as Hn.
       { intros Hin. rewrite Forall_forall in Hr. apply Hr, valueEncoding_le in Hin; [lia | done | done]. }
       exists s. rewrite bool_decide_eq_false_2 by done. by rewrite sremove_notin. }
  destruct (intsetSearch_spec s l v Hrep) as (found & pos & -> & Hf). cbn [mbind option_bind].
  destruct found.
  2: { apply insert_point_notin in Hf. exists s. rewrite bool_decide_eq_false_2 by done. by rewrite sremove_notin. }
  exists (mk_intset (is_encoding s) (u32 (is_length s - 1)) (flat (is_encoding s) (sremove v l))).
  rewrite bool_decide_eq_true_2 by (by eapply list_elem_of_lookup_2).
  pose proof (lookup_lt_Some _ _ _ Hf) as Hp. rewrite (sremove_point l v pos) by done.
  assert (zlen (take pos l ++ drop (S pos) l) = zlen l - 1) as Hl'
    by (rewrite length_app, length_take, length_drop; lia).
  assert (flat (is_encoding s) l = flat (is_encoding s) (take pos l) ++
    le_bytes (Z.to_nat (is_encoding s)) v ++ flat (is_encoding s) (drop (S pos) l)) as Hfl
    by (by rewrite <- flat_cons, <- flat_app, take_drop_middle).
  rewrite Hlen, (uwrap_small _ (zlen l - 1)) by lia. split.
  - assert (exists T, (if Z.of_nat pos <? zlen l - 1
        then intsetMoveTail s (u32 (Z.of_nat pos + 1)) (Z.of_nat pos) else Some s) =
      Some (set_contents s (flat (is_encoding s) (take pos l ++ drop (S pos) l) ++ T))) as [T ->].
    { destruct (Z.of_nat pos <? zlen l - 1) eqn:E1; zbool.
      - rewrite moveTail_unfold by done.
        rewrite Hlen, Hc, (uwrap_small _ (Z.of_nat pos + 1)) by lia.
        rewrite (uwrap_small _ (zlen l - (Z.of_nat pos + 1))) by lia.
        rewrite (uwrap_small _ ((zlen l - (Z.of_nat pos + 1)) * is_encoding s)) by nia.
        rewrite Hfl, <- (app_nil_r (flat (is_encoding s) (drop (S pos) l))).
        edestruct (memmove_down (flat (is_encoding s) (take pos l)) (le_bytes (Z.to_nat (is_encoding s)) v)
          (flat (is_encoding s) (drop (S pos) l)) []) as (T & -> & _).
        + rewrite length_flat, length_take by done. f_equal. lia.
        + rewrite length_flat, length_take, length_le_bytes by done. nia.
        + rewrite length_flat, length_drop by done. nia.
        + exists T. cbn [mbind option_bind]. by rewrite flat_app, <- app_assoc.
      - exists (le_bytes (Z.to_nat (is_encoding s)) v). rewrite (drop_ge l (S pos)), app_nil_r by lia.
        f_equal. destruct s as [e n c]; unfold set_contents; cbn in *. f_equal.
        rewrite Hc, Hfl, (drop_ge l (S pos)) by lia. cbn [flat mbind list_bind]. by rewrite app_nil_r. }
    cbn [mbind option_bind]. unfold intsetResize. cbn [is_encoding is_contents set_contents is_length].
    rewrite uwrap_small by nia. rewrite realloc_shrink; [done|].
    rewrite length_flat by done. lia.
  - constructor; cbn [is_encoding is_length is_contents]; try done; try lia.
    + rewrite <- (sremove_point l v pos) by done. by apply sremove_sorted.
    + rewrite <- (take_drop_middle l pos v Hf) in Hr. apply Forall_app in Hr as [? Hr].
      apply Forall_cons in Hr as [? ?]. by apply Forall_app.
Qed.

Lemma intsetFind_rep s l v : rep s l -> in_s64 v -> intsetFind s v = Some (bool_decide (v ∈ l)).
Proof.
  intros Hrep Hv. pose proof Hrep as [He _ _ _ Hr _]. unfold intsetFind.
  destruct (_intsetValueEncoding v <=? is_encoding s) eqn:E; zbool.
  - destruct (intsetSearch_spec s l v Hrep) as (found & pos & -> & Hf). cbn [mbind option_bind].
    f_equal. symmetry. destruct found.
    + apply bool_decide_eq_true_2. by eapply list_elem_of_lookup_2.
    + apply bool_decide_eq_false_2. by eapply insert_point_notin.
  - f_equal. symmetry. apply bool_decide_eq_false_2. intros Hin.
    rewrite Forall_forall in Hr. apply Hr, valueEncoding_le in Hin; [lia | done | done].
Qed.

End Ops.

(** ** Refinement to finite sets *)

Inductive iop := IAdd (v : Z) | IRemove (v : Z) | IFind (v : Z).

Definition iop_arg (o : iop) : Z := match o with IAdd v | IRemove v | IFind v => v end.

Definition istep (junk : nat -> Z) (s : intset) (o : iop) : option (intset * bool) :=
  match o with
  | IAdd v => intsetAdd junk s v
  | IRemove v => intsetRemove junk s v
  | IFind v => b ← intsetFind s v; Some (s, b)
  end.

Fixpoint irun (junk : nat -> Z) (s : intset) (ops : list iop) : option (intset * list bool) :=
  match ops with
  | [] => Some (s, [])
  | o :: ops =>
      '(s, b) ← istep junk s o; '(s, bs) ← irun junk s ops; Some (s, b :: bs)
  end.

(** The same operations on a mathematical set. *)
Definition set_step (X : gset Z) (o : iop) : gset Z * bool :=
  match o with
  | IAdd v => ({[v]} ∪ X, bool_decide (v ∉ X))
  | IRemove v => (X ∖ {[v]}, bool_decide (v ∈ X))
  | IFind v => (X, bool_decide (v ∈ X))
  end.

Fixpoint set_run (X : gset Z) (ops : list iop) : gset Z * list bool :=
  match ops with
  | [] => (X, [])
  | o :: ops => let '(X, b) := set_step X o in let '(X, bs) := set_run X ops in (X, b :: bs)
  end.

Lemma intsetNew_rep : rep intsetNew [].
Proof. repeat constructor. Qed.

Lemma istep_refines junk s l o : rep s l -> in_s64 (iop_arg o) -> zlen l + 1 < 2 ^ 29 ->
  exists s' l', istep junk s o = Some (s', (set_step (list_to_set l) o).2) /\ rep s' l' /\
    list_to_set l' = (set_step (list_to_set l) o).1 /\ zlen l' <= zlen l + 1.
Proof.
  intros Hrep Hv Hb. destruct o as [v|v|v]; cbn [istep set_step iop_arg fst snd] in *.
  - destruct (intsetAdd_rep junk s l v Hrep Hv Hb) as (s' & -> & Hr & _).
    exists s', (sinsert v l). split_and!; [|done | |].
    + do 2 f_equal. apply bool_decide_ext. set_solver.
    + apply set_eq. intros x. rewrite elem_of_list_to_set, elem_of_sinsert. set_solver.
    + clear. induction l as [|x l IH]; cbn [sinsert]; repeat case_goal; cbn [length] in *; lia.
  - destruct (intsetRemove_rep junk s l v Hrep Hv) as (s' & -> & Hr).
    exists s', (sremove v l). split_and!; [|done | |].
    + do 2 f_equal. apply bool_decide_ext. set_solver.
    + apply set_eq. intros x. unfold sremove. rewrite elem_of_list_to_set, list_elem_of_filter. set_solver.
    + unfold sremove. pose proof (length_filter (fun x => x <> v) l). lia.
  - rewrite (intsetFind_rep s l v Hrep Hv). exists s, l. split_and!; [|done | done | lia].
    cbn [mbind option_bind]. do 2 f_equal. apply bool_decide_ext. set_solver.
Qed.

Lemma irun_refines junk ops : forall s l, rep s l -> Forall (fun o => in_s64 (iop_arg o)) ops ->
  zlen l + zlen ops < 2 ^ 29 ->
  exists s' l', irun junk s ops = Some (s', (set_run (list_to_set l) ops).2) /\ rep s' l' /\
    list_to_set l' = (set_run (list_to_set l) ops).1.
Proof.
  induction ops as [|o ops IH]; intros s l Hrep Hall Hb; cbn [irun set_run].
  { exists s, l. by split. }
  apply Forall_cons in Hall as [Ho Hall]. cbn [length] in Hb.
  destruct (istep_refines junk s l o Hrep Ho) as (s1 & l1 & -> & Hr1 & Hs1 & Hl1); [lia|].
  cbn [mbind option_bind]. destruct (set_step (list_to_set l) o) as [X b]. cbn [fst snd] in *. subst X.
  destruct (IH s1 l1 Hr1 Hall) as (s2 & l2 & -> & Hr2 & Hs2); [lia|].
  cbn [mbind option_bind]. destruct (set_run (list_to_set l1) ops) as [Y bs].
  exists s2, l2. by split.
Qed.

(** C24: an intset built by any sequence of fewer than 2^29 insertions,
    removals and membership tests on 64-bit integers never touches memory
    outside its allocation, answers every operation as a mathematical set does,
    and ends as the strictly increasing array, in a width that fits every
    element, of exactly the members of that set. *)
Theorem intset_refines_set junk ops : Forall (fun o => in_s64 (iop_arg o)) ops ->
  zlen ops < 2 ^ 29 ->
  exists s l, irun junk intsetNew ops = Some (s, (set_run ∅ ops).2) /\ rep s l /\
    list_to_set l = (set_run ∅ ops).1.
Proof. intros Hall Hb. apply (irun_refines junk ops intsetNew []); [apply intsetNew_rep | done | done]. Qed.

Lemma intset_refines_set_witness :
  exists s l, irun (fun _ => 170) intsetNew [IAdd 5; IAdd (-70000); IAdd 5; IFind 5; IRemove 5; IFind 5] =
    Some (s, [true; true; false; true; true; false]) /\ rep s l.
Proof.
  destruct (intset_refines_set (fun _ => 170)
    [IAdd 5; IAdd (-70000); IAdd 5; IFind 5; IRemove 5; IFind 5]) as (s & l & Hr & Hrep & _).
  - repeat constructor; vm_compute; congruence.
  - vm_compute. reflexivity.
  - exists s, l. split; [|exact Hrep]. rewrite Hr. vm_compute. reflexivity.
Defined.

Lemma rep_blob s l : rep s l -> intsetBlobLen s = 8 + zlen (is_contents s).
Proof.
  intros [He Hlen Hc _ _ Hsm]. unfold intsetBlobLen. pose proof (valid_enc_pos _ He).
  rewrite Hc, Hlen, length_flat, uwrap_small by (done || nia). done.
Qed.

(** Inserting a 64-bit integer into a set of fewer than 2^29 - 1 elements
    reports whether it was absent, leaves the sorted array of the enlarged set,
    and widens the encoding exactly when the new element needs it: every
    previous element survives the in-place back-to-front rewriting. *)
Theorem intsetAdd_correct junk s l v : rep s l -> in_s64 v -> zlen l + 1 < 2 ^ 29 ->
  exists s', intsetAdd junk s v = Some (s', bool_decide (v ∉ l)) /\ rep s' (sinsert v l) /\
    is_encoding s' = Z.max (is_encoding s) (_intsetValueEncoding v) /\
    intsetBlobLen s' = 8 + zlen (is_contents s').
Proof.
  intros Hrep Hv Hb. destruct (intsetAdd_rep junk s l v Hrep Hv Hb) as (s' & -> & Hr & He).
  exists s'. split_and!; [done | done | done | by eapply rep_blob].
Qed.

Lemma intsetAdd_correct_witness :
  exists s', intsetAdd (fun _ => 0) (mk_intset 2 2 [254; 255; 7; 0]) 65536 = Some (s', true) /\
    rep s' [-2; 7; 65536].
Proof.
  destruct (intsetAdd_correct (fun _ => 0) (mk_intset 2 2 [254; 255; 7; 0]) [-2; 7] 65536)
    as (s' & Hr & Hrep & _).
  - constructor; [constructor | done | done | | | done].
    + repeat constructor.
    + repeat constructor; vm_compute; congruence.
  - vm_compute; split; congruence.
  - vm_compute; reflexivity.
  - exists s'. split; [exact Hr | exact Hrep].
Defined.

(** The read-only operations see exactly the array: [intsetGet] returns the
    element at a position and reports positions past the end, [intsetRandom]
    returns a member whatever the generator returned, and [intsetFind] decides
    membership for every 64-bit integer. *)
Theorem intset_reads s l : rep s l ->
  (forall pos, 0 <= pos -> intsetGet s pos = Some (l !! Z.to_nat pos)) /\
  (forall r, l <> [] -> exists x, intsetRandom r s = Some x /\ x ∈ l) /\
  (forall v, in_s64 v -> intsetFind s v = Some (bool_decide (v ∈ l))) /\
  intsetLen s = zlen l.
Proof.
  intros Hrep. pose proof Hrep as [_ Hlen _ _ _ _].
  assert (forall i x, l !! i = Some x -> _intsetGet s (Z.of_nat i) = Some x) as Hget by (intros; by eapply get_rep).
  split_and!.
  - intros pos Hpos. unfold intsetGet. rewrite Hlen. destruct (pos <? zlen l) eqn:E; zbool.
    + destruct (lookup_lt_is_Some_2 l (Z.to_nat pos)) as [x Hx]; [lia|].
      apply Hget in Hx as Hg. rewrite Z2Nat.id in Hg by lia. by rewrite Hg, Hx.
    + by rewrite lookup_ge_None_2 by lia.
  - intros r Hl. unfold intsetRandom. rewrite Hlen.
    assert (0 < zlen l) by (destruct l; [done | cbn [length]; lia]).
    pose proof (Z.mod_pos_bound r (zlen l)).
    destruct (lookup_lt_is_Some_2 l (Z.to_nat (r mod zlen l))) as [x Hx]; [lia|].
    apply Hget in Hx as Hg. rewrite Z2Nat.id in Hg by lia.
    exists x. split; [done | by eapply list_elem_of_lookup_2].
  - intros v Hv. by apply intsetFind_rep.
  - done.
Qed.

Lemma intset_reads_witness : intsetFind (mk_intset 2 2 [254; 255; 7; 0]) (-2) = Some true.
Proof.
  destruct (intset_reads (mk_intset 2 2 [254; 255; 7; 0]) [-2; 7]) as (_ & _ & Hf & _).
  - constructor; [constructor | done | done | | | done].
    + repeat constructor.
    + repeat constructor; vm_compute; congruence.
  - rewrite (Hf (-2)); [reflexivity | vm_compute; split; congruence].
Defined.
