(* ===== verification/Ziplist.v ===== *)
(** * Ziplists: the byte-level operations (src/ziplist.c)

    A ziplist is one allocation, the list [zl] of its bytes; a pointer into it
    is an offset.  Every read and write goes through the bounds-checked memory
    of Prelude, so [None] is an access outside the allocation or a failed
    [assert].  Multi-byte header fields are little endian (the build on which
    the [memrev*ifbe] macros of endianconv.h are empty).  Where the C code
    passes a [NULL] destination only to learn a size, the model takes the
    length of the bytes that would be written. *)
From Stdlib Require Import Lia ZArith.
From stdpp Require Import base numbers list tactics option.
From S2P Require Import Prelude Util.
#[local] Open Scope Z_scope.

Definition ZIP_END := 255.
Definition ZIP_BIGLEN := 254.
Definition ZIP_STR_MASK := 192.
Definition ZIP_STR_06B := 0.
Definition ZIP_STR_14B := 64.
Definition ZIP_STR_32B := 128.
Definition ZIP_INT_16B := 192.
Definition ZIP_INT_32B := 208.
Definition ZIP_INT_64B := 224.
Definition ZIP_INT_24B := 240.
Definition ZIP_INT_8B := 254.
Definition ZIP_INT_IMM_MASK := 15.
Definition ZIP_INT_IMM_MIN := 241.
Definition ZIP_INT_IMM_MAX := 253.
Definition ZIPLIST_HEADER_SIZE := 10.

Definition ZIP_IS_STR (enc : Z) : bool := Z.land enc ZIP_STR_MASK <? ZIP_STR_MASK.

(** ** Header fields *)

Definition ZIPLIST_BYTES (zl : list Z) : option Z := le_val <$> load zl 0 4.
Definition ZIPLIST_TAIL_OFFSET (zl : list Z) : option Z := le_val <$> load zl 4 4.
Definition ZIPLIST_LENGTH (zl : list Z) : option Z := le_val <$> load zl 8 2.
Definition set_ZIPLIST_BYTES (zl : list Z) (n : Z) : option (list Z) := store zl 0 (le_bytes 4 n).
Definition set_ZIPLIST_TAIL_OFFSET (zl : list Z) (n : Z) : option (list Z) := store zl 4 (le_bytes 4 n).
Definition set_ZIPLIST_LENGTH (zl : list Z) (n : Z) : option (list Z) := store zl 8 (le_bytes 2 n).

Definition ZIPLIST_ENTRY_HEAD (zl : list Z) : Z := ZIPLIST_HEADER_SIZE.
Definition ZIPLIST_ENTRY_TAIL (zl : list Z) : option Z := ZIPLIST_TAIL_OFFSET zl.
Definition ZIPLIST_ENTRY_END (zl : list Z) : option Z := b ← ZIPLIST_BYTES zl; Some (b - 1).

Definition ZIPLIST_INCR_LENGTH (zl : list Z) (incr : Z) : option (list Z) :=
  n ← ZIPLIST_LENGTH zl;
  if n <? UINT16_MAX then set_ZIPLIST_LENGTH zl (u16 (n + incr)) else Some zl.

(** ** Entry headers *)

Record zlentry := mk_zlentry {
  prevrawlensize : Z; prevrawlen : Z;
  lensize : Z; len : Z;
  headersize : Z;
  ze_encoding : Z;
  ze_p : Z;
}.

Definition ZIP_ENTRY_ENCODING (zl : list Z) (ptr : Z) : option Z :=
  b ← rd zl ptr;
  Some (if b <? ZIP_STR_MASK then Z.land b ZIP_STR_MASK else b).

Definition zipIntSize (encoding : Z) : Z :=
  if encoding =? ZIP_INT_8B then 1
  else if encoding =? ZIP_INT_16B then 2
  else if encoding =? ZIP_INT_24B then 3
  else if encoding =? ZIP_INT_32B then 4
  else if encoding =? ZIP_INT_64B then 8
  else 0.

(** The bytes [zipEncodeLength] stores at [p]; their number is its result. *)
Definition zipEncodeLength (encoding rawlen : Z) : list Z :=
  if ZIP_IS_STR encoding then
    if rawlen <=? 63 then [Z.lor ZIP_STR_06B rawlen]
    else if rawlen <=? 16383 then
      [Z.lor ZIP_STR_14B (Z.land (Z.shiftr rawlen 8) 63); Z.land rawlen 255]
    else
      [ZIP_STR_32B; Z.land (Z.shiftr rawlen 24) 255; Z.land (Z.shiftr rawlen 16) 255;
       Z.land (Z.shiftr rawlen 8) 255; Z.land rawlen 255]
  else [encoding].

(** (encoding, lensize, len) *)
Definition ZIP_DECODE_LENGTH (zl : list Z) (ptr : Z) : option (Z * Z * Z) :=
  encoding ← ZIP_ENTRY_ENCODING zl ptr;
  if encoding <? ZIP_STR_MASK then
    if encoding =? ZIP_STR_06B then
      b0 ← rd zl ptr; Some (encoding, 1, Z.land b0 63)
    else if encoding =? ZIP_STR_14B then
      b0 ← rd zl ptr; b1 ← rd zl (ptr + 1);
      Some (encoding, 2, Z.lor (Z.shiftl (Z.land b0 63) 8) b1)
    else if encoding =? ZIP_STR_32B then
      b1 ← rd zl (ptr + 1); b2 ← rd zl (ptr + 2); b3 ← rd zl (ptr + 3); b4 ← rd zl (ptr + 4);
      Some (encoding, 5, u32 (Z.lor (Z.lor (Z.lor (Z.shiftl b1 24) (Z.shiftl b2 16)) (Z.shiftl b3 8)) b4))
    else None
  else Some (encoding, 1, zipIntSize encoding).

(** The bytes [zipPrevEncodeLength] stores at [p]; their number is its result. *)
Definition zipPrevEncodeLength (len : Z) : list Z :=
  if len <? ZIP_BIGLEN then [len] else ZIP_BIGLEN :: le_bytes 4 len.

Definition zipPrevEncodeLengthForceLarge (len : Z) : list Z := ZIP_BIGLEN :: le_bytes 4 len.

Definition ZIP_DECODE_PREVLENSIZE (zl : list Z) (ptr : Z) : option Z :=
  b ← rd zl ptr; Some (if b <? ZIP_BIGLEN then 1 else 5).

(** (prevlensize, prevlen) *)
Definition ZIP_DECODE_PREVLEN (zl : list Z) (ptr : Z) : option (Z * Z) :=
  prevlensize ← ZIP_DECODE_PREVLENSIZE zl ptr;
  if prevlensize =? 1 then b ← rd zl ptr; Some (prevlensize, b)
  else bs ← load zl (ptr + 1) 4; Some (prevlensize, le_val bs).

Definition zipPrevLenByteDiff (zl : list Z) (p len : Z) : option Z :=
  prevlensize ← ZIP_DECODE_PREVLENSIZE zl p;
  Some (zlen (zipPrevEncodeLength len) - prevlensize).

Definition zipRawEntryLength (zl : list Z) (p : Z) : option Z :=
  prevlensize ← ZIP_DECODE_PREVLENSIZE zl p;
  '(_, lensize, len) ← ZIP_DECODE_LENGTH zl (p + prevlensize);
  Some (u32 (prevlensize + lensize + len)).

(** The smallest encoding that holds [value]. *)
Definition zipValueEncoding (value : Z) : Z :=
  if (value >=? 0) && (value <=? 12) then ZIP_INT_IMM_MIN + value
  else if (value >=? -128) && (value <=? 127) then ZIP_INT_8B
  else if (value >=? INT16_MIN) && (value <=? INT16_MAX) then ZIP_INT_16B
  else if (value >=? -8388608) && (value <=? 8388607) then ZIP_INT_24B
  else if (value >=? INT32_MIN) && (value <=? INT32_MAX) then ZIP_INT_32B
  else ZIP_INT_64B.

(** (value, encoding) *)
Definition zipTryEncoding (entry : list Z) : option (Z * Z) :=
  if (zlen entry >=? 32) || (zlen entry =? 0) then None else
  value ← Dec.string2ll entry; Some (value, zipValueEncoding value).

(** The bytes stored at [p]. *)
Definition zipSaveInteger (value encoding : Z) : option (list Z) :=
  if encoding =? ZIP_INT_8B then Some (le_bytes 1 value)
  else if encoding =? ZIP_INT_16B then Some (le_bytes 2 value)
  else if encoding =? ZIP_INT_24B then Some (drop 1 (le_bytes 4 (Z.shiftl value 8)))
  else if encoding =? ZIP_INT_32B then Some (le_bytes 4 value)
  else if encoding =? ZIP_INT_64B then Some (le_bytes 8 value)
  else if (encoding >=? ZIP_INT_IMM_MIN) && (encoding <=? ZIP_INT_IMM_MAX) then Some []
  else None.

Definition zipLoadInteger (zl : list Z) (p encoding : Z) : option Z :=
  if encoding =? ZIP_INT_8B then bs ← load zl p 1; Some (s8 (le_val bs))
  else if encoding =? ZIP_INT_16B then bs ← load zl p 2; Some (s16 (le_val bs))
  else if encoding =? ZIP_INT_32B then bs ← load zl p 4; Some (s32 (le_val bs))
  else if encoding =? ZIP_INT_24B then
    bs ← load zl p 3; Some (Z.shiftr (s32 (le_val (0 :: bs))) 8)
  else if encoding =? ZIP_INT_64B then bs ← load zl p 8; Some (s64 (le_val bs))
  else if (encoding >=? ZIP_INT_IMM_MIN) && (encoding <=? ZIP_INT_IMM_MAX) then
    Some (Z.land encoding ZIP_INT_IMM_MASK - 1)
  else None.

Definition zipEntry (zl : list Z) (p : Z) : option zlentry :=
  '(pls, pl) ← ZIP_DECODE_PREVLEN zl p;
  '(enc, ls, l) ← ZIP_DECODE_LENGTH zl (p + pls);
  Some (mk_zlentry pls pl ls l (pls + ls) enc p).

Definition ziplistNew : list Z :=
  le_bytes 4 (ZIPLIST_HEADER_SIZE + 1) ++ le_bytes 4 ZIPLIST_HEADER_SIZE ++ le_bytes 2 0 ++ [ZIP_END].

(** ** Updates *)

Section Alloc.
(** What a grown allocation holds beyond its old end. *)
Context (junk : nat -> Z).

Definition ziplistResize (zl : list Z) (len : Z) : option (list Z) :=
  zl ← set_ZIPLIST_BYTES (realloc junk zl len) len;
  wr zl (len - 1) ZIP_END.

Fixpoint ziplistCascadeUpdate_loop (fuel : nat) (zl : list Z) (p curlen : Z) : option (list Z) :=
  b ← rd zl p;
  if b =? ZIP_END then Some zl else
  match fuel with
  | O => None
  | S fuel =>
    cur ← zipEntry zl p;
    let rawlen := u32 (headersize cur + len cur) in
    let rawlensize := zlen (zipPrevEncodeLength rawlen) in
    nb ← rd zl (p + rawlen);
    if nb =? ZIP_END then Some zl else
    next ← zipEntry zl (p + rawlen);
    if prevrawlen next =? rawlen then Some zl else
    if prevrawlensize next <? rawlensize then
      let extra := rawlensize - prevrawlensize next in
      zl ← ziplistResize zl (u32 (curlen + extra));
      let np := p + rawlen in
      tail ← ZIPLIST_TAIL_OFFSET zl;
      zl ← (if negb (tail =? np) then set_ZIPLIST_TAIL_OFFSET zl (u32 (tail + extra)) else Some zl);
      zl ← memmove zl (np + rawlensize) (np + prevrawlensize next)
             (curlen - np - prevrawlensize next - 1);
      zl ← store zl np (zipPrevEncodeLength rawlen);
      ziplistCascadeUpdate_loop fuel zl (p + rawlen) (curlen + extra)
    else if prevrawlensize next >? rawlensize then
      store zl (p + rawlen) (zipPrevEncodeLengthForceLarge rawlen)
    else store zl (p + rawlen) (zipPrevEncodeLength rawlen)
  end.

(** Each round of the loop moves to the next entry, so the bytes bound them. *)
Definition __ziplistCascadeUpdate (zl : list Z) (p : Z) : option (list Z) :=
  curlen ← ZIPLIST_BYTES zl;
  ziplistCascadeUpdate_loop (length zl) zl p curlen.

(** The loop that finds the end of the deleted entries: (p, deleted). *)
Fixpoint ziplistDelete_skip (num : nat) (zl : list Z) (p deleted : Z) : option (Z * Z) :=
  b ← rd zl p;
  if b =? ZIP_END then Some (p, deleted) else
  match num with
  | O => Some (p, deleted)
  | S num => l ← zipRawEntryLength zl p; ziplistDelete_skip num zl (p + l) (deleted + 1)
  end.

Definition __ziplistDelete (zl : list Z) (p num : Z) : option (list Z) :=
  first ← zipEntry zl p;
  '(p, deleted) ← ziplistDelete_skip (Z.to_nat num) zl p 0;
  let totlen := u32 (p - ze_p first) in
  if totlen >? 0 then
    b ← rd zl p;
    '(zl, nextdiff) ←
      (if negb (b =? ZIP_END) then
         nextdiff ← zipPrevLenByteDiff zl p (prevrawlen first);
         let p := p - nextdiff in
         zl ← store zl p (zipPrevEncodeLength (prevrawlen first));
         t ← ZIPLIST_TAIL_OFFSET zl;
         zl ← set_ZIPLIST_TAIL_OFFSET zl (u32 (t - totlen));
         tail ← zipEntry zl p;
         e ← rd zl (p + u32 (headersize tail + len tail));
         zl ← (if negb (e =? ZIP_END) then
                 t ← ZIPLIST_TAIL_OFFSET zl; set_ZIPLIST_TAIL_OFFSET zl (u32 (t + nextdiff))
               else Some zl);
         bytes ← ZIPLIST_BYTES zl;
         zl ← memmove zl (ze_p first) p (bytes - p - 1);
         Some (zl, nextdiff)
       else
         zl ← set_ZIPLIST_TAIL_OFFSET zl (u32 (ze_p first - prevrawlen first));
         Some (zl, 0));
    bytes ← ZIPLIST_BYTES zl;
    zl ← ziplistResize zl (u32 (bytes - totlen + nextdiff));
    zl ← ZIPLIST_INCR_LENGTH zl (- deleted);
    if negb (nextdiff =? 0) then __ziplistCascadeUpdate zl (ze_p first) else Some zl
  else Some zl.

Definition __ziplistInsert (zl : list Z) (p : Z) (s : list Z) : option (list Z) :=
  let slen := zlen s in
  curlen ← ZIPLIST_BYTES zl;
  b ← rd zl p;
  prevlen ←
    (if negb (b =? ZIP_END) then '(_, pl) ← ZIP_DECODE_PREVLEN zl p; Some pl
     else
       ptail ← ZIPLIST_ENTRY_TAIL zl;
       t ← rd zl ptail;
       if negb (t =? ZIP_END) then zipRawEntryLength zl ptail else Some 0);
  let '(value, encoding, reqlen) :=
    match zipTryEncoding s with
    | Some (v, e) => (v, e, zipIntSize e)
    | None => (123456789, 0, slen)
    end in
  let reqlen := reqlen + zlen (zipPrevEncodeLength prevlen) + zlen (zipEncodeLength encoding slen) in
  nextdiff ← (if negb (b =? ZIP_END) then zipPrevLenByteDiff zl p reqlen else Some 0);
  zl ← ziplistResize zl (u32 (curlen + reqlen + nextdiff));
  b ← rd zl p;
  zl ← (if negb (b =? ZIP_END) then
          zl ← memmove zl (p + reqlen) (p - nextdiff) (curlen - p - 1 + nextdiff);
          zl ← store zl (p + reqlen) (zipPrevEncodeLength reqlen);
          t ← ZIPLIST_TAIL_OFFSET zl;
          zl ← set_ZIPLIST_TAIL_OFFSET zl (u32 (t + reqlen));
          tail ← zipEntry zl (p + reqlen);
          e ← rd zl (p + (reqlen + headersize tail + len tail));
          if negb (e =? ZIP_END) then
            t ← ZIPLIST_TAIL_OFFSET zl; set_ZIPLIST_TAIL_OFFSET zl (u32 (t + nextdiff))
          else Some zl
        else set_ZIPLIST_TAIL_OFFSET zl (u32 p));
  zl ← (if negb (nextdiff =? 0) then __ziplistCascadeUpdate zl (p + reqlen) else Some zl);
  let prevb := zipPrevEncodeLength prevlen in
  zl ← store zl p prevb;
  let p := p + zlen prevb in
  let lenb := zipEncodeLength encoding slen in
  zl ← store zl p lenb;
  let p := p + zlen lenb in
  zl ← (if ZIP_IS_STR encoding then store zl p s
        else bs ← zipSaveInteger value encoding; store zl p bs);
  ZIPLIST_INCR_LENGTH zl 1.

Definition ziplistInsert (zl : list Z) (p : Z) (s : list Z) : option (list Z) :=
  __ziplistInsert zl p s.

(** [where] is [ZIPLIST_HEAD] when [head], [ZIPLIST_TAIL] otherwise. *)
Definition ziplistPush (zl : list Z) (s : list Z) (head : bool) : option (list Z) :=
  p ← (if head then Some (ZIPLIST_ENTRY_HEAD zl) else ZIPLIST_ENTRY_END zl);
  __ziplistInsert zl p s.

(** The new list and the updated [*p]. *)
Definition ziplistDelete (zl : list Z) (p : Z) : option (list Z * Z) :=
  zl ← __ziplistDelete zl p 1; Some (zl, p).

(** ** Traversal *)

(** Forward and backward walks of [ziplistIndex]: the pointer reached and what
    is left of [index]. *)
Fixpoint ziplistIndex_fwd (fuel : nat) (zl : list Z) (p index : Z) : option (Z * Z) :=
  b ← rd zl p;
  if b =? ZIP_END then Some (p, index) else
  if index =? 0 then Some (p, index - 1) else
  match fuel with
  | O => None
  | S fuel => l ← zipRawEntryLength zl p; ziplistIndex_fwd fuel zl (p + l) (index - 1)
  end.

Fixpoint ziplistIndex_bwd (fuel : nat) (zl : list Z) (p prevlen index : Z) : option (Z * Z) :=
  if negb (prevlen >? 0) then Some (p, index) else
  if index =? 0 then Some (p, index - 1) else
  match fuel with
  | O => None
  | S fuel =>
      let p := p - prevlen in
      '(_, prevlen) ← ZIP_DECODE_PREVLEN zl p;
      ziplistIndex_bwd fuel zl p prevlen (index - 1)
  end.

(** [Some None] is the [NULL] result. *)
Definition ziplistIndex (zl : list Z) (index : Z) : option (option Z) :=
  '(p, index) ←
    (if index <? 0 then
       let index := - index - 1 in
       p ← ZIPLIST_ENTRY_TAIL zl;
       b ← rd zl p;
       if negb (b =? ZIP_END) then
         '(_, prevlen) ← ZIP_DECODE_PREVLEN zl p;
         ziplistIndex_bwd (length zl) zl p prevlen index
       else Some (p, index)
     else ziplistIndex_fwd (length zl) zl (ZIPLIST_ENTRY_HEAD zl) index);
  b ← rd zl p;
  Some (if (b =? ZIP_END) || (index >? 0) then None else Some p).

Definition ziplistNext (zl : list Z) (p : Z) : option (option Z) :=
  b ← rd zl p;
  if b =? ZIP_END then Some None else
  l ← zipRawEntryLength zl p;
  let p := p + l in
  b ← rd zl p;
  Some (if b =? ZIP_END then None else Some p).

Definition ziplistPrev (zl : list Z) (p : Z) : option (option Z) :=
  b ← rd zl p;
  if b =? ZIP_END then
    p ← ZIPLIST_ENTRY_TAIL zl;
    b ← rd zl p;
    Some (if b =? ZIP_END then None else Some p)
  else if p =? ZIPLIST_ENTRY_HEAD zl then Some None
  else
    '(_, prevlen) ← ZIP_DECODE_PREVLEN zl p;
    if prevlen >? 0 then Some (Some (p - prevlen)) else None.

(** What an entry holds: the string [*sstr] of [slen] bytes or the integer
    [*sval]. *)
Inductive zent := ZStr (s : list Z) | ZInt (v : Z).

(** [Some None] is the result 0: [p] is at the end. *)
Definition ziplistGet (zl : list Z) (p : Z) : option (option zent) :=
  b ← rd zl p;
  if b =? ZIP_END then Some None else
  entry ← zipEntry zl p;
  if ZIP_IS_STR (ze_encoding entry) then
    bs ← load zl (p + headersize entry) (len entry); Some (Some (ZStr bs))
  else
    v ← zipLoadInteger zl (p + headersize entry) (ze_encoding entry); Some (Some (ZInt v)).

Definition ziplistDeleteRange (zl : list Z) (index num : Z) : option (list Z) :=
  p ← ziplistIndex zl (s32 index);
  match p with None => Some zl | Some p => __ziplistDelete zl p num end.

(** [memcmp(a,b,n) == 0] *)
Definition bytes_eq (a b : list Z) : bool := bool_decide (a = b).

Definition ziplistCompare (zl : list Z) (p : Z) (sstr : list Z) : option bool :=
  b ← rd zl p;
  if b =? ZIP_END then Some false else
  entry ← zipEntry zl p;
  if ZIP_IS_STR (ze_encoding entry) then
    if len entry =? zlen sstr then
      bs ← load zl (p + headersize entry) (zlen sstr); Some (bytes_eq bs sstr)
    else Some false
  else
    match zipTryEncoding sstr with
    | Some (sval, _) =>
        zval ← zipLoadInteger zl (p + headersize entry) (ze_encoding entry);
        Some (zval =? sval)
    | None => Some false
    end.

(** The search loop carries [skipcnt] and the lazily computed [vencoding] and
    [vll]; [Some None] is the [NULL] result. *)
Fixpoint ziplistFind_loop (fuel : nat) (zl : list Z) (p : Z) (vstr : list Z)
  (skip skipcnt vencoding vll : Z) : option (option Z) :=
  b ← rd zl p;
  if b =? ZIP_END then Some None else
  match fuel with
  | O => None
  | S fuel =>
    prevlensize ← ZIP_DECODE_PREVLENSIZE zl p;
    '(encoding, lensize, len) ← ZIP_DECODE_LENGTH zl (p + prevlensize);
    let q := p + prevlensize + lensize in
    if skipcnt =? 0 then
      if ZIP_IS_STR encoding then
        eq ← (if len =? zlen vstr then bs ← load zl q (zlen vstr); Some (bytes_eq bs vstr)
              else Some false);
        if (eq : bool) then Some (Some p)
        else ziplistFind_loop fuel zl (q + len) vstr skip skip vencoding vll
      else
        let '(vll, vencoding) :=
          if vencoding =? 0 then
            match zipTryEncoding vstr with Some (v, e) => (v, e) | None => (vll, 255) end
          else (vll, vencoding) in
        if negb (vencoding =? 255) then
          ll ← zipLoadInteger zl q encoding;
          if ll =? vll then Some (Some p)
          else ziplistFind_loop fuel zl (q + len) vstr skip skip vencoding vll
        else ziplistFind_loop fuel zl (q + len) vstr skip skip vencoding vll
    else ziplistFind_loop fuel zl (q + len) vstr skip (skipcnt - 1) vencoding vll
  end.

Definition ziplistFind (zl : list Z) (p : Z) (vstr : list Z) (skip : Z) : option (option Z) :=
  ziplistFind_loop (length zl) zl p vstr skip 0 0 0.

Fixpoint ziplistLen_loop (fuel : nat) (zl : list Z) (p len : Z) : option Z :=
  b ← rd zl p;
  if b =? ZIP_END then Some len else
  match fuel with
  | O => None
  | S fuel => l ← zipRawEntryLength zl p; ziplistLen_loop fuel zl (p + l) (len + 1)
  end.

(** The length, and the list with the counter stored again when it fits. *)
Definition ziplistLen (zl : list Z) : option (Z * list Z) :=
  n ← ZIPLIST_LENGTH zl;
  if n <? UINT16_MAX then Some (n, zl)
  else
    len ← ziplistLen_loop (length zl) zl ZIPLIST_HEADER_SIZE 0;
    zl ← (if len <? UINT16_MAX then set_ZIPLIST_LENGTH zl len else Some zl);
    Some (len, zl).

Definition ziplistBlobLen (zl : list Z) : option Z := ZIPLIST_BYTES zl.

End Alloc.
