(* ===== verification/ZiplistRep.v ===== *)
(** * Ziplists: the representation and the decoding of entries

    A ziplist stores a list of entries, each the integer or the string it was
    given ([zent]), preceded by the length of the previous entry in one or in
    five bytes.  [chain] is the byte image of such a list, [zrep] relates an
    allocation to it, and the lemmas of this file show that the decoding
    macros of src/ziplist.c read back what the encoders wrote. *)
From Stdlib Require Import Lia ZArith.
From stdpp Require Import base numbers list tactics option.
From S2P Require Import Prelude Util Ziplist.
#[local] Open Scope Z_scope.

(** ** Byte images *)

(** The bytes of an integer in its smallest encoding. *)
Definition int_bytes (v : Z) : list Z := default [] (zipSaveInteger v (zipValueEncoding v)).

Definition payload (e : zent) : list Z :=
  match e with
  | ZStr s => zipEncodeLength 0 (zlen s) ++ s
  | ZInt v => zipValueEncoding v :: int_bytes v
  end.

(** An entry as stored: is its previous-length field the five-byte one? *)
Abbreviation sent := (bool * zent)%type.

Definition prevb (big : bool) (n : Z) : list Z :=
  if big then ZIP_BIGLEN :: le_bytes 4 n else [n].

Definition pls (x : sent) : Z := if x.1 then 5 else 1.
Definition raw (x : sent) : Z := pls x + zlen (payload x.2).

Definition entryb (prev : Z) (x : sent) : list Z := prevb x.1 prev ++ payload x.2.

Fixpoint chain (prev : Z) (l : list sent) : list Z :=
  match l with [] => [] | x :: l => entryb prev x ++ chain (raw x) l end.

Definition total (l : list sent) : Z := foldr (fun x n => raw x + n) 0 l.

(** Raw length of the last entry; 0 when there is none. *)
Definition lastraw (l : list sent) : Z := default 0 (raw <$> list.last l).

Definition wf_ent (e : zent) : Prop :=
  match e with ZStr s => zlen s < 2 ^ 32 | ZInt v => in_s64 v end.

Fixpoint wf_chain (prev : Z) (l : list sent) : Prop :=
  match l with
  | [] => True
  | x :: l => (0 <= prev < 2 ^ 32 /\ (x.1 = false -> prev < ZIP_BIGLEN)) /\ wf_ent x.2 /\ wf_chain (raw x) l
  end.

Definition header (bytes tail n : Z) : list Z := le_bytes 4 bytes ++ le_bytes 4 tail ++ le_bytes 2 n.

(** The counter field is the number of entries, or saturated. *)
Definition count_ok (n : Z) (l : list sent) : Prop :=
  0 <= n <= UINT16_MAX /\ (n < UINT16_MAX -> n = zlen l).

Definition zrep (zl : list Z) (l : list sent) : Prop :=
  exists n,
    zl = header (11 + total l) (10 + total l - lastraw l) n ++ chain 0 l ++ [ZIP_END] /\
    count_ok n l /\ wf_chain 0 l /\ 11 + total l < 2 ^ 32.

(** ** Sizes *)

Lemma pls_cases x : pls x = 1 \/ pls x = 5.
Proof. unfold pls. destruct (x.1); auto. Qed.

Lemma length_prevb big n : zlen (prevb big n) = if big then 5 else 1.
Proof. destruct big; [|done]. unfold prevb. cbn [length]. by rewrite length_le_bytes. Qed.

Lemma length_entryb prev x : zlen (entryb prev x) = raw x.
Proof. unfold entryb, raw, pls. rewrite length_app, Nat2Z.inj_add, length_prevb. done. Qed.

Lemma payload_pos e : 1 <= zlen (payload e).
Proof.
  destruct e as [s|v]; cbn [payload]; [|cbn [length]; lia]. rewrite length_app.
  unfold zipEncodeLength. repeat case_goal; cbn [length]; lia.
Qed.

Lemma raw_pos x : 2 <= raw x.
Proof. unfold raw. pose proof (payload_pos x.2). destruct (pls_cases x); lia. Qed.

Lemma length_chain prev l : zlen (chain prev l) = total l.
Proof.
  revert prev; induction l as [|x l IH]; intros prev; [done|]. cbn [chain].
  rewrite length_app, Nat2Z.inj_add, length_entryb, IH. done.
Qed.

Lemma total_app l k : total (l ++ k) = total l + total k.
Proof.
  unfold total. induction l as [|x l IH]; [done|]. cbn [app foldr]. lia.
Qed.

Lemma total_cons x l : total (x :: l) = raw x + total l.
Proof. done. Qed.

Lemma total_nonneg l : 0 <= total l.
Proof. rewrite <- (length_chain 0). lia. Qed.

Lemma total_length l : 2 * zlen l <= total l.
Proof.
  induction l as [|x l IH]; [done|]. rewrite total_cons. pose proof (raw_pos x). cbn [length]. lia.
Qed.

Lemma lastraw_app l x k : lastraw (l ++ x :: k) = lastraw (x :: k).
Proof.
  unfold lastraw. rewrite last_app_cons. done.
Qed.

Lemma lastraw_cons x y l : lastraw (x :: y :: l) = lastraw (y :: l).
Proof. done. Qed.

Lemma lastraw_bound l : 0 <= lastraw l <= total l.
Proof.
  induction l as [|x [|y l] IH]; [done| |].
  - unfold lastraw, total. simpl. pose proof (raw_pos x). lia.
  - rewrite lastraw_cons, total_cons. pose proof (raw_pos x). lia.
Qed.

Lemma chain_app prev l k :
  chain prev (l ++ k) = chain prev l ++ chain (default prev (raw <$> list.last l)) k.
Proof.
  revert prev; induction l as [|x l IH]; intros prev; [done|]. cbn [app chain].
  rewrite IH, app_assoc. do 2 f_equal. destruct l as [|s l]; [done|].
  change (list.last (x :: s :: l)) with (list.last (s :: l)).
  destruct (list.last (s :: l)) eqn:E; [done|]. by apply last_None in E.
Qed.

Lemma wf_chain_app prev l k :
  wf_chain prev (l ++ k) <-> wf_chain prev l /\ wf_chain (default prev (raw <$> list.last l)) k.
Proof.
  revert prev; induction l as [|x l IH]; intros prev; cbn [app wf_chain]; [tauto|].
  rewrite IH. assert (default (raw x) (raw <$> list.last l) = default prev (raw <$> list.last (x :: l))) as ->; [|tauto].
  destruct l as [|s l]; [done|]. change (list.last (x :: s :: l)) with (list.last (s :: l)).
  destruct (list.last (s :: l)) eqn:E; [done|]. by apply last_None in E.
Qed.

Lemma length_header b t n : zlen (header b t n) = 10.
Proof. unfold header. by rewrite !length_app, !length_le_bytes. Qed.

(** ** Header fields of an image *)

Lemma get_bytes b t n X : 0 <= b < 2 ^ 32 -> ZIPLIST_BYTES (header b t n ++ X) = Some b.
Proof.
  intros Hb. unfold ZIPLIST_BYTES, header. rewrite <- !app_assoc, load_head by (by rewrite ?length_le_bytes).
  cbn [fmap option_fmap option_map]. rewrite le_val_bytes, Z.mod_small; done.
Qed.

Lemma get_tail b t n X : 0 <= t < 2 ^ 32 -> ZIPLIST_TAIL_OFFSET (header b t n ++ X) = Some t.
Proof.
  intros Ht. unfold ZIPLIST_TAIL_OFFSET, header. rewrite <- !app_assoc, load_app by (by rewrite ?length_le_bytes).
  cbn [fmap option_fmap option_map]. rewrite le_val_bytes, Z.mod_small; done.
Qed.

Lemma get_length b t n X : 0 <= n <= UINT16_MAX -> ZIPLIST_LENGTH (header b t n ++ X) = Some n.
Proof.
  intros Hn. unfold UINT16_MAX in Hn. unfold ZIPLIST_LENGTH, header.
  rewrite <- !app_assoc, (app_assoc (le_bytes 4 b)), load_app by (by rewrite ?length_app, ?length_le_bytes).
  cbn [fmap option_fmap option_map]. rewrite le_val_bytes, Z.mod_small; [done|]. simpl; lia.
Qed.

Lemma set_bytes b t n X b' : set_ZIPLIST_BYTES (header b t n ++ X) b' = Some (header b' t n ++ X).
Proof.
  unfold set_ZIPLIST_BYTES, header. rewrite <- !app_assoc.
  by rewrite store_head by (by rewrite ?length_le_bytes).
Qed.

Lemma set_tail b t n X t' : set_ZIPLIST_TAIL_OFFSET (header b t n ++ X) t' = Some (header b t' n ++ X).
Proof.
  unfold set_ZIPLIST_TAIL_OFFSET, header. rewrite <- !app_assoc.
  by rewrite store_app by (by rewrite ?length_le_bytes).
Qed.

Lemma set_len b t n X n' : set_ZIPLIST_LENGTH (header b t n ++ X) n' = Some (header b t n' ++ X).
Proof.
  unfold set_ZIPLIST_LENGTH, header. rewrite <- !app_assoc, (app_assoc (le_bytes 4 b)).
  rewrite store_app by (by rewrite ?length_app, ?length_le_bytes). by rewrite <- app_assoc.
Qed.

(** ** Decoding reads back what was encoded *)

(** Decoders only look forward from their pointer. *)
Lemma entry_encoding_shift P Q k : 0 <= k ->
  ZIP_ENTRY_ENCODING (P ++ Q) (zlen P + k) = ZIP_ENTRY_ENCODING Q k.
Proof. intros. unfold ZIP_ENTRY_ENCODING. by rewrite rd_shift. Qed.

Lemma decode_length_shift P Q k : 0 <= k ->
  ZIP_DECODE_LENGTH (P ++ Q) (zlen P + k) = ZIP_DECODE_LENGTH Q k.
Proof.
  intros. unfold ZIP_DECODE_LENGTH. rewrite entry_encoding_shift, <- !Z.add_assoc, !rd_shift by lia. done.
Qed.

Lemma prevlensize_shift P Q k : 0 <= k ->
  ZIP_DECODE_PREVLENSIZE (P ++ Q) (zlen P + k) = ZIP_DECODE_PREVLENSIZE Q k.
Proof. intros. unfold ZIP_DECODE_PREVLENSIZE. by rewrite rd_shift. Qed.

(** The parts of an entry's header: encoding, size of the length field, length. *)
Definition ent_hdr (e : zent) : Z * Z * Z :=
  match e with
  | ZStr s =>
      if zlen s <=? 63 then (ZIP_STR_06B, 1, zlen s)
      else if zlen s <=? 16383 then (ZIP_STR_14B, 2, zlen s)
      else (ZIP_STR_32B, 5, zlen s)
  | ZInt v => (zipValueEncoding v, 1, zipIntSize (zipValueEncoding v))
  end.

Lemma valueEncoding_cases v : let enc := zipValueEncoding v in
  enc = ZIP_INT_8B \/ enc = ZIP_INT_16B \/ enc = ZIP_INT_24B \/ enc = ZIP_INT_32B \/
  enc = ZIP_INT_64B \/ ZIP_INT_IMM_MIN <= enc <= ZIP_INT_IMM_MAX.
Proof.
  unfold zipValueEncoding, ZIP_INT_IMM_MIN, ZIP_INT_IMM_MAX. repeat case_goal; zbool; auto 10 with lia.
Qed.

Lemma valueEncoding_range v : 192 <= zipValueEncoding v < 255.
Proof.
  destruct (valueEncoding_cases v) as [E|[E|[E|[E|[E|E]]]]];
    unfold ZIP_INT_8B, ZIP_INT_16B, ZIP_INT_24B, ZIP_INT_32B, ZIP_INT_64B, ZIP_INT_IMM_MIN, ZIP_INT_IMM_MAX in *; lia.
Qed.

Lemma not_str_int v : ZIP_IS_STR (zipValueEncoding v) = false.
Proof.
  pose proof (valueEncoding_range v). unfold ZIP_IS_STR, ZIP_STR_MASK.
  destruct (byte_top2 (zipValueEncoding v)) as [-> _]; [lia|].
  assert (3 <= zipValueEncoding v / 64) by (apply Z.div_le_lower_bound; lia).
  apply Z.ltb_ge. lia.
Qed.

Lemma length_int_bytes v : zlen (int_bytes v) = zipIntSize (zipValueEncoding v).
Proof.
  unfold int_bytes. destruct (valueEncoding_cases v) as [->|[->|[->|[->|[->|H]]]]]; try done.
  unfold zipSaveInteger, zipIntSize, ZIP_INT_8B, ZIP_INT_16B, ZIP_INT_24B, ZIP_INT_32B, ZIP_INT_64B,
    ZIP_INT_IMM_MIN, ZIP_INT_IMM_MAX in *.
  set (x := zipValueEncoding v) in *. zfalse (x =? 254). zfalse (x =? 192). zfalse (x =? 240).
  zfalse (x =? 208). zfalse (x =? 224). by ztrue ((x >=? 241) && (x <=? 253)).
Qed.

Lemma ent_hdr_size e : let '(_, ls, l) := ent_hdr e in ls + l = zlen (payload e) /\ 1 <= ls <= 5 /\ 0 <= l.
Proof.
  destruct e as [s|v]; cbn [ent_hdr payload].
  - unfold zipEncodeLength. change (ZIP_IS_STR 0) with true. cbn iota.
    repeat case_goal; rewrite length_app; cbn [length]; lia.
  - cbn [length]. rewrite Nat2Z.inj_succ, length_int_bytes.
    split; [lia|]. split; [lia|]. rewrite <- length_int_bytes. lia.
Qed.

Lemma decode_length_payload e Q : wf_ent e ->
  ZIP_DECODE_LENGTH (payload e ++ Q) 0 = Some (ent_hdr e).
Proof.
  intros Hwf. unfold ZIP_DECODE_LENGTH, ZIP_ENTRY_ENCODING, ZIP_STR_MASK, ZIP_STR_06B, ZIP_STR_14B, ZIP_STR_32B.
  destruct e as [s|v]; cbn [payload ent_hdr wf_ent] in *.
  - unfold zipEncodeLength, ZIP_STR_06B, ZIP_STR_14B, ZIP_STR_32B.
    change (ZIP_IS_STR 0) with true. cbn iota. set (n := zlen s) in *.
    destruct (n <=? 63) eqn:E1; [|destruct (n <=? 16383) eqn:E2]; zbool.
    + change (rd (([Z.lor 0 n] ++ s) ++ Q) 0) with (Some (Z.lor 0 n)). rewrite Z.lor_0_l.
      cbn [mbind option_bind]. ztrue (n <? 192).
      destruct (byte_top2 n) as [-> ->]; [lia|]. rewrite Z.div_small, Z.mod_small by lia. done.
    + assert (Z.land (Z.shiftr n 8) 63 = n / 256) as ->.
      { rewrite Z.shiftr_div_pow2 by lia. change (2 ^ 8) with 256.
        rewrite (proj2 (byte_top2 (n / 256) ltac:(split; [apply Z.div_pos; lia | apply Z.div_lt_upper_bound; lia]))).
        apply Z.mod_small. split; [apply Z.div_pos; lia | apply Z.div_lt_upper_bound; lia]. }
      rewrite land_255.
      assert (0 <= n / 256 < 64) as Hhi by (split; [apply Z.div_pos; lia | apply Z.div_lt_upper_bound; lia]).
      replace (Z.lor 64 (n / 256)) with (64 + n / 256)
        by (change 64 with (Z.shiftl 1 6); by rewrite lor_shiftl by lia).
      set (h := n / 256) in *.
      change (rd (([64 + h; n mod 256] ++ s) ++ Q) 0) with (Some (64 + h)).
      change (rd (([64 + h; n mod 256] ++ s) ++ Q) (0 + 1)) with (Some (n mod 256)).
      cbn [mbind option_bind]. ztrue (64 + h <? 192).
      destruct (byte_top2 (64 + h)) as [-> ->]; [lia|].
      replace ((64 + h) / 64) with 1 by (apply (Z.div_unique_pos _ _ _ h); lia).
      replace ((64 + h) mod 64) with h by (apply (Z.mod_unique_pos _ _ 1); lia).
      cbn -[Z.lor Z.shiftl Z.modulo].
      rewrite lor_shiftl by (try lia; apply Z.mod_pos_bound; lia).
      subst h. do 2 f_equal. change (2 ^ 8) with 256. pose proof (Z.div_mod n 256). lia.
    + rewrite !land_255, !Z.shiftr_div_pow2 by lia.
      set (b1 := n / 2 ^ 24 mod 256). set (b2 := n / 2 ^ 16 mod 256). set (b3 := n / 2 ^ 8 mod 256).
      set (b4 := n mod 256).
      change (rd (([128; b1; b2; b3; b4] ++ s) ++ Q) 0) with (Some 128).
      cbn -[Z.lor Z.shiftl Z.modulo uwrap Z.add b1 b2 b3 b4]. 
      change (rd (128 :: b1 :: b2 :: b3 :: b4 :: s ++ Q) (0 + 1)) with (Some b1).
      change (rd (128 :: b1 :: b2 :: b3 :: b4 :: s ++ Q) (0 + 2)) with (Some b2).
      change (rd (128 :: b1 :: b2 :: b3 :: b4 :: s ++ Q) (0 + 3)) with (Some b3).
      change (rd (128 :: b1 :: b2 :: b3 :: b4 :: s ++ Q) (0 + 4)) with (Some b4).
      cbn [mbind option_bind]. subst b1 b2 b3 b4. rewrite be32_val, uwrap_small by lia. done.
  - pose proof (valueEncoding_range v).
    change (rd ((zipValueEncoding v :: int_bytes v) ++ Q) 0) with (Some (zipValueEncoding v)).
    cbn [mbind option_bind]. zfalse (zipValueEncoding v <? 192). by zfalse (zipValueEncoding v <? 192).
Qed.

(** *** An entry in the middle of an allocation *)

Definition wf_head (prev : Z) (x : sent) : Prop :=
  (0 <= prev < 2 ^ 32 /\ (x.1 = false -> prev < ZIP_BIGLEN)) /\ wf_ent x.2.

Section At.
Context (A C : list Z) (prev : Z) (x : sent) (p : Z).
Context (Hp : p = zlen A) (Hwf : wf_head prev x).
#[local] Abbreviation zl := (A ++ entryb prev x ++ C).

Lemma rd_entry : exists b, rd zl p = Some b /\ b <> ZIP_END /\ (b <? ZIP_BIGLEN) = negb x.1.
Proof using Hp Hwf.
  destruct Hwf as [[Hr Hs] _]. subst p. rewrite <- (Z.add_0_r (zlen A)), rd_shift by lia.
  unfold entryb, prevb, ZIP_END, ZIP_BIGLEN in *. destruct x as [[] e]; cbn [fst negb app].
  - by exists 254.
  - exists prev. specialize (Hs eq_refl). split_and!; [done | lia | by apply Z.ltb_lt].
Qed.

Lemma prevlensize_at : ZIP_DECODE_PREVLENSIZE zl p = Some (pls x).
Proof using Hp Hwf.
  unfold ZIP_DECODE_PREVLENSIZE. destruct rd_entry as (b & -> & _ & E). cbn [mbind option_bind].
  rewrite E. unfold pls. by destruct (x.1).
Qed.

Lemma prevlen_at : ZIP_DECODE_PREVLEN zl p = Some (pls x, prev).
Proof using Hp Hwf.
  unfold ZIP_DECODE_PREVLEN. rewrite prevlensize_at. cbn [mbind option_bind].
  destruct Hwf as [[Hr Hs] _]. subst p. unfold entryb, prevb, pls.
  destruct x as [[] e]; cbn [fst snd].
  - change (5 =? 1) with false. cbn iota. rewrite load_shift by lia.
    rewrite <- app_assoc. cbn [app].
    change (?a :: ?l) with ([a] ++ l). rewrite load_app by (by rewrite ?length_le_bytes). cbn [mbind option_bind].
    rewrite le_val_bytes, Z.mod_small; done.
  - change (1 =? 1) with true. cbn iota. rewrite <- (Z.add_0_r (zlen A)), rd_shift by lia. done.
Qed.

Lemma decode_length_at : ZIP_DECODE_LENGTH zl (p + pls x) = Some (ent_hdr x.2).
Proof using Hp Hwf.
  subst p. rewrite decode_length_shift by (unfold pls; destruct (x.1); lia).
  unfold entryb. rewrite <- app_assoc.
  replace (pls x) with (zlen (prevb x.1 prev) + 0) by (rewrite length_prevb; unfold pls; destruct (x.1); lia).
  rewrite decode_length_shift by lia. apply decode_length_payload. by destruct Hwf.
Qed.

Definition hdr_entry : zlentry :=
  let '(enc, ls, l) := ent_hdr x.2 in mk_zlentry (pls x) prev ls l (pls x + ls) enc p.

Lemma zipEntry_at : zipEntry zl p = Some hdr_entry.
Proof using Hp Hwf.
  unfold zipEntry, hdr_entry. rewrite prevlen_at. cbn [mbind option_bind].
  rewrite decode_length_at. cbn [mbind option_bind]. by destruct (ent_hdr x.2) as [[enc ls] l].
Qed.

Lemma hdr_entry_raw : headersize hdr_entry + len hdr_entry = raw x.
Proof using.
  clear Hp Hwf A C. unfold hdr_entry, raw. pose proof (ent_hdr_size x.2).
  destruct (ent_hdr x.2) as [[enc ls] l]. cbn. lia.
Qed.

Lemma hdr_entry_fields :
  prevrawlensize hdr_entry = pls x /\ prevrawlen hdr_entry = prev /\ ze_p hdr_entry = p /\
  len hdr_entry = (ent_hdr x.2).2 /\ ze_encoding hdr_entry = (ent_hdr x.2).1.1 /\
  headersize hdr_entry = pls x + (ent_hdr x.2).1.2.
Proof using. unfold hdr_entry. by destruct (ent_hdr x.2) as [[enc ls] l]. Qed.

Lemma rawlen_at : raw x < 2 ^ 32 -> zipRawEntryLength zl p = Some (raw x).
Proof using Hp Hwf.
  intros Hr. unfold zipRawEntryLength. rewrite prevlensize_at. cbn [mbind option_bind].
  rewrite decode_length_at. cbn [mbind option_bind]. pose proof (ent_hdr_size x.2). pose proof (raw_pos x).
  unfold raw in *. destruct (ent_hdr x.2) as [[enc ls] l].
  rewrite uwrap_small; [f_equal|]; lia.
Qed.

Lemma byteDiff_at n : zipPrevLenByteDiff zl p n = Some (zlen (zipPrevEncodeLength n) - pls x).
Proof using Hp Hwf. unfold zipPrevLenByteDiff. by rewrite prevlensize_at. Qed.

End At.

Lemma wf_chain_head prev x l : wf_chain prev (x :: l) -> wf_head prev x /\ wf_chain (raw x) l.
Proof. cbn [wf_chain]. unfold wf_head. tauto. Qed.

Lemma length_zipPrevEncodeLength n : zlen (zipPrevEncodeLength n) = if n <? ZIP_BIGLEN then 1 else 5.
Proof. unfold zipPrevEncodeLength. destruct (n <? ZIP_BIGLEN); [done|]. cbn [length]. by rewrite length_le_bytes. Qed.

Lemma zipPrevEncodeLength_prevb n : zipPrevEncodeLength n = prevb (negb (n <? ZIP_BIGLEN)) n.
Proof. unfold zipPrevEncodeLength, prevb. by destruct (n <? ZIP_BIGLEN). Qed.

Lemma prevEncode_big n : ZIP_BIGLEN <= n -> zipPrevEncodeLength n = prevb true n.
Proof. intros H. rewrite zipPrevEncodeLength_prevb. by rewrite (proj2 (Z.ltb_ge _ _) H). Qed.

Lemma prevEncode_small n : n < ZIP_BIGLEN -> zipPrevEncodeLength n = prevb false n.
Proof. intros H. rewrite zipPrevEncodeLength_prevb. by rewrite (proj2 (Z.ltb_lt _ _) H). Qed.

(** ** Integers are stored exactly *)

Lemma load_int_bytes A C v : in_s64 v ->
  zipLoadInteger (A ++ int_bytes v ++ C) (zlen A) (zipValueEncoding v) = Some v.
Proof.
  intros Hv. unfold in_s64, LLONG_MIN, LLONG_MAX in Hv.
  assert (forall n : nat, (0 < n)%nat -> - 2 ^ (8 * Z.of_nat n - 1) <= v < 2 ^ (8 * Z.of_nat n - 1) ->
    swrap (8 * Z.of_nat n) (le_val (le_bytes n v)) = v) as Hd.
  { intros n Hn Hr. rewrite le_val_bytes.
    replace (256 ^ Z.of_nat n) with (2 ^ (8 * Z.of_nat n)) by (by rewrite Z.pow_mul_r by lia).
    rewrite swrap_mod, swrap_small; [done | lia | lia | lia]. }
  unfold int_bytes, zipSaveInteger, zipLoadInteger, zipValueEncoding, INT16_MIN, INT16_MAX, INT32_MIN, INT32_MAX,
    ZIP_INT_8B, ZIP_INT_16B, ZIP_INT_24B, ZIP_INT_32B, ZIP_INT_64B, ZIP_INT_IMM_MIN, ZIP_INT_IMM_MAX, ZIP_INT_IMM_MASK.
  destruct ((v >=? 0) && (v <=? 12)) eqn:E0.
  { zbool. set (x := 241 + v). zfalse (x =? 254). zfalse (x =? 192). zfalse (x =? 208). zfalse (x =? 240).
    zfalse (x =? 224). ztrue ((x >=? 241) && (x <=? 253)). cbn iota.
    assert (Forall (fun v => Z.land (241 + v) 15 - 1 = v) (Z.of_nat <$> seq 0 13)) as Himm by (by repeat constructor).
    rewrite Forall_forall in Himm. f_equal. subst x. apply Himm, list_elem_of_In, list_elem_of_fmap.
    exists (Z.to_nat v). split; [lia|]. apply elem_of_seq. lia. }
  destruct ((v >=? -128) && (v <=? 127)) eqn:E1.
  { zbool. cbn -[le_bytes le_val load swrap]. rewrite load_app by done. cbn -[le_bytes le_val swrap].
    f_equal. apply (Hd 1%nat); simpl; lia. }
  destruct ((v >=? -32768) && (v <=? 32767)) eqn:E2.
  { zbool. cbn -[le_bytes le_val load swrap]. rewrite load_app by done. cbn -[le_bytes le_val swrap].
    f_equal. apply (Hd 2%nat); simpl; lia. }
  destruct ((v >=? -8388608) && (v <=? 8388607)) eqn:E3.
  { zbool. cbn -[le_bytes le_val load swrap Z.shiftl Z.shiftr]. rewrite Z.shiftl_mul_pow2 by lia.
    change (2 ^ 8) with 256.
    assert (drop 1 (le_bytes 4 (v * 256)) = le_bytes 3 v) as ->.
    { cbn [le_bytes drop]. by rewrite Z.div_mul by lia. }
    rewrite load_app by done. cbn [mbind option_bind]. cbn [le_val]. rewrite le_val_bytes.
    rewrite Z.shiftr_div_pow2 by lia. f_equal. change (256 ^ Z.of_nat 3) with (2 ^ 24). change (2 ^ 8) with 256.
    rewrite Z.add_0_l, <- Zmult_mod_distr_l. change (256 * 2 ^ 24) with (2 ^ 32).
    rewrite swrap_mod, swrap_small by lia. rewrite Z.mul_comm. apply Z.div_mul. lia. }
  destruct ((v >=? -2147483648) && (v <=? 2147483647)) eqn:E4.
  { zbool. cbn -[le_bytes le_val load swrap]. rewrite load_app by done. cbn -[le_bytes le_val swrap].
    f_equal. apply (Hd 4%nat); simpl; lia. }
  cbn -[le_bytes le_val load swrap]. rewrite load_app by done. cbn -[le_bytes le_val swrap].
  f_equal. apply (Hd 8%nat); simpl; lia.
Qed.
