(* ===== verification/ZiplistUpd.v ===== *)
(** * Ziplists: correctness of the updates

    [ziplistResize], [__ziplistCascadeUpdate], [__ziplistInsert] and
    [__ziplistDelete] of src/ziplist.c on represented lists: every access stays
    inside the allocation and the result represents the updated list. *)
From Stdlib Require Import Lia ZArith.
From stdpp Require Import base numbers list tactics option.
From S2P Require Import Prelude Util Ziplist ZiplistRep.
#[local] Open Scope Z_scope.

(** Bring a concatenation to right-nested form. *)
Ltac rassoc := repeat rewrite <- app_assoc; cbn [app].

Ltac zlens := rewrite ?length_app, ?Nat2Z.inj_add, ?length_header, ?length_entryb, ?length_chain,
  ?length_prevb, ?length_le_bytes; cbn [length].

Section Upd.
Context (junk : nat -> Z).

(** ** Resizing *)

Lemma resize_gen b t n X newlen : 11 <= newlen ->
  exists J, zlen J = Z.max 0 (newlen - 10 - zlen X) /\
    ziplistResize junk (header b t n ++ X) newlen =
      Some (header newlen t n ++ take (Z.to_nat (newlen - 11)) (X ++ J) ++ [ZIP_END]).
Proof.
  intros Hn. unfold ziplistResize, realloc.
  set (J := junk <$> seq (length (header b t n ++ X)) (Z.to_nat newlen - length (header b t n ++ X))).
  assert (forall b, length (header b t n) = 10%nat) as Hh by (intros b'; pose proof (length_header b' t n); lia).
  assert (zlen J = Z.max 0 (newlen - 10 - zlen X)) as HJ
    by (subst J; rewrite length_fmap, length_seq, length_app, Hh; lia).
  exists J. split; [done|].
  rewrite take_app_ge, Hh, <- app_assoc by (rewrite Hh; lia).
  set (Y := take (Z.to_nat newlen - 10) X ++ J).
  assert (Y = take (Z.to_nat (newlen - 11) + 1) (X ++ J)) as HY.
  { subst Y. replace (Z.to_nat (newlen - 11) + 1)%nat with (Z.to_nat newlen - 10)%nat by lia.
    rewrite take_app. f_equal. rewrite take_ge; [done|]. lia. }
  rewrite set_bytes. cbn [mbind option_bind]. fold Y.
  destruct (lookup_lt_is_Some_2 (X ++ J) (Z.to_nat (newlen - 11))) as [y Hy]; [rewrite length_app; lia|].
  rewrite HY, Nat.add_1_r, (take_S_r _ _ _ Hy), app_assoc.
  rewrite wr_app; [by rewrite <- app_assoc|].
  rewrite length_app, Hh, length_take, length_app. lia.
Qed.

(** Growing by [k] bytes a block that ends in the end marker. *)
Lemma resize_grow_end b t n X k : 0 <= k ->
  exists R, zlen R = k /\ (0 < k -> exists R', R = ZIP_END :: R') /\
    ziplistResize junk (header b t n ++ X ++ [ZIP_END]) (11 + zlen X + k) =
      Some (header (11 + zlen X + k) t n ++ X ++ R ++ [ZIP_END]).
Proof.
  intros Hk. destruct (resize_gen b t n (X ++ [ZIP_END]) (11 + zlen X + k)) as (J & HJ & ->); [lia|].
  rewrite <- app_assoc, take_app_ge by lia.
  exists (take (Z.to_nat (11 + zlen X + k - 11) - length X) ([ZIP_END] ++ J)).
  rewrite length_app in HJ. cbn [length] in HJ. split; [|split].
  - rewrite length_take, length_app. cbn [length]. lia.
  - intros Hk'. destruct (Z.to_nat (11 + zlen X + k - 11) - length X)%nat as [|m] eqn:E; [lia|].
    by exists (take m J).
  - by rewrite <- app_assoc.
Qed.

(** Shrinking keeps a prefix. *)
Lemma resize_shrink b t n X Y : Y <> [] ->
  ziplistResize junk (header b t n ++ X ++ Y) (11 + zlen X) = Some (header (11 + zlen X) t n ++ X ++ [ZIP_END]).
Proof.
  intros HY. destruct (resize_gen b t n (X ++ Y) (11 + zlen X)) as (J & HJ & ->); [lia|].
  rewrite <- app_assoc. replace (Z.to_nat (11 + zlen X - 11)) with (length X) by lia.
  by rewrite take_app_length.
Qed.

(** ** The cascade *)

(** What [__ziplistCascadeUpdate] does to the entries after one of raw length
    [rk] when the first of them has [pv] in its previous-length field. *)
Fixpoint casc (rk pv : Z) (l : list sent) : list sent :=
  match l with
  | [] => []
  | x :: l' =>
      if pv =? rk then x :: l'
      else if negb x.1 && (ZIP_BIGLEN <=? rk) then (true, x.2) :: casc (raw (true, x.2)) (raw x) l'
      else x :: l'
  end.

Lemma casc_ents rk pv l : snd <$> casc rk pv l = snd <$> l.
Proof.
  revert rk pv; induction l as [|x l IH]; intros; cbn [casc]; [done|].
  repeat case_goal; try done. cbn. f_equal. apply IH.
Qed.

Lemma raw_true x : x.1 = false -> raw (true, x.2) = raw x + 4.
Proof. unfold raw, pls. destruct x as [[] e]; cbn; [done | lia]. Qed.

Lemma casc_total rk pv l : total l <= total (casc rk pv l) <= total l + 4 * zlen l.
Proof.
  revert rk pv; induction l as [|x l IH]; intros; cbn [casc]; [done|].
  destruct (pv =? rk); [cbn [length]; lia|].
  destruct (negb x.1 && (ZIP_BIGLEN <=? rk)) eqn:E; [|cbn [length]; lia].
  zbool. rewrite !total_cons, raw_true by done. specialize (IH (raw x + 4) (raw x)). cbn [length]. lia.
Qed.

Lemma length_casc rk pv l : length (casc rk pv l) = length l.
Proof.
  revert rk pv; induction l as [|x l IH]; intros; cbn [casc]; [done|].
  repeat case_goal; cbn [length]; auto.
Qed.

Lemma casc_wf rk pv l : 0 <= rk -> rk + total l + 4 * zlen l < 2 ^ 32 ->
  wf_chain pv l -> wf_chain rk (casc rk pv l).
Proof.
  revert rk pv; induction l as [|x l IH]; intros rk pv Hrk Hb Hwf; [done|].
  cbn [casc]. cbn [wf_chain] in Hwf. destruct Hwf as ((Hr & Hs) & He & Hl).
  rewrite total_cons in Hb. cbn [length] in Hb. pose proof (raw_pos x). pose proof (total_nonneg l).
  destruct (pv =? rk) eqn:E1; zbool; [subst; cbn [wf_chain]; tauto|].
  destruct (negb x.1 && (ZIP_BIGLEN <=? rk)) eqn:E2.
  - zbool. cbn [wf_chain]. split_and!; [lia | lia | done | done |].
    rewrite raw_true by done. apply IH; [lia | lia | done].
  - cbn [wf_chain]. split_and!; [lia | lia | | done | done].
    intros Hf. rewrite Hf in E2. cbn in E2. zbool. lia.
Qed.

Lemma rd_end A : rd (A ++ [ZIP_END]) (zlen A) = Some ZIP_END.
Proof. apply rd_app. Qed.

(** The byte after an entry: the end marker or the next entry. *)
Lemma rd_chain A pv l p : p = zlen A -> wf_chain pv l ->
  exists b, rd (A ++ chain pv l ++ [ZIP_END]) p = Some b /\ (b =? ZIP_END) = bool_decide (l = []).
Proof.
  intros -> Hwf. destruct l as [|x l]; cbn [chain app].
  - exists ZIP_END. by rewrite rd_app.
  - apply wf_chain_head in Hwf as [Hh _]. rassoc.
    destruct (rd_entry A (chain (raw x) l ++ [ZIP_END]) pv x (zlen A) eq_refl Hh) as (b & -> & Hb & _).
    exists b. split; [done|]. rewrite bool_decide_eq_false_2 by done. by apply Z.eqb_neq.
Qed.

(** One round that grows the next entry [x] by four bytes. *)
Lemma cascade_grow B T N X k x pv l np rk :
  pv < ZIP_BIGLEN -> 0 <= T < 2 ^ 32 - 4 -> zlen k = rk -> np = 10 + zlen X + rk -> x.1 = false ->
  B = 11 + zlen X + rk + raw x + total l -> ZIP_BIGLEN <= rk -> B + 4 < 2 ^ 32 ->
  T = B - 1 - lastraw (x :: l) ->
  (zl ← ziplistResize junk (header B T N ++ X ++ k ++ chain pv (x :: l) ++ [ZIP_END]) (u32 (B + 4));
   tail ← ZIPLIST_TAIL_OFFSET zl;
   zl ← (if negb (tail =? np) then set_ZIPLIST_TAIL_OFFSET zl (u32 (tail + 4)) else Some zl);
   zl ← memmove zl (np + 5) (np + 1) (B - np - 1 - 1);
   store zl np (zipPrevEncodeLength rk))
  = Some (header (B + 4) (B + 4 - 1 - lastraw ((true, x.2) :: l)) N ++
          X ++ k ++ entryb rk (true, x.2) ++ chain (raw x) l ++ [ZIP_END]).
Proof.
  intros Hpv HT Hk Hnp Hx HB Hrk HB4 HTl. unfold ZIP_BIGLEN in *.
  pose proof (raw_pos x). pose proof (total_nonneg l). pose proof (payload_pos x.2).
  assert (raw x = 1 + zlen (payload x.2)) as Hraw by (unfold raw, pls; by rewrite Hx).
  rewrite uwrap_small by lia.
  set (Y := X ++ k ++ chain pv (x :: l)).
  assert (zlen Y = B - 11) as HY by (subst Y; zlens; rewrite total_cons; lia).
  replace (header B T N ++ X ++ k ++ chain pv (x :: l) ++ [ZIP_END])
    with (header B T N ++ Y ++ [ZIP_END]) by (subst Y; rassoc; done).
  destruct (resize_grow_end B T N Y 4) as (R & HR & _ & HS); [lia|].
  replace (11 + zlen Y + 4) with (B + 4) in HS by lia. rewrite HS. cbn [mbind option_bind].
  rewrite get_tail by lia. cbn [mbind option_bind].
  set (T' := B + 4 - 1 - lastraw ((true, x.2) :: l)).
  assert ((if negb (T =? np) then set_ZIPLIST_TAIL_OFFSET (header (B + 4) T N ++ Y ++ R ++ [ZIP_END]) (u32 (T + 4))
    else Some (header (B + 4) T N ++ Y ++ R ++ [ZIP_END])) = Some (header (B + 4) T' N ++ Y ++ R ++ [ZIP_END])) as ->.
  { rewrite (uwrap_small _ (T + 4)), set_tail by lia. destruct l as [|y l].
    - change (lastraw [x]) with (raw x) in HTl. subst T'. change (lastraw [(true, x.2)]) with (raw (true, x.2)).
      rewrite raw_true by done. change (total []) with 0 in HB. ztrue (T =? np). do 2 f_equal. f_equal. lia.
    - rewrite lastraw_cons in HTl. subst T'. rewrite lastraw_cons.
      pose proof (lastraw_bound (y :: l)). zfalse (T =? np). do 2 f_equal. f_equal. lia. }
  cbn [mbind option_bind]. subst Y. cbn [chain]. unfold entryb at 1. rewrite Hx. cbn [prevb].
  set (P := header (B + 4) T' N ++ X ++ k). set (Z1 := payload x.2 ++ chain (raw x) l).
  replace (header (B + 4) T' N ++ (X ++ k ++ ([pv] ++ payload x.2) ++ chain (raw x) l) ++ R ++ [ZIP_END])
    with ((P ++ [pv]) ++ Z1 ++ R ++ [ZIP_END]) by (subst P Z1; rassoc; done).
  assert (zlen P = np) as HP by (subst P; zlens; lia).
  assert (zlen Z1 = B - np - 1 - 1) as HZ by (subst Z1; zlens; lia).
  destruct (memmove_up_in (P ++ [pv]) Z1 R [ZIP_END] (np + 5) (np + 1) (B - np - 1 - 1)) as (-> & HM);
    [zlens; lia | lia | zlens; lia |].
  set (M := take (length R) (Z1 ++ R)) in *.
  cbn [mbind option_bind]. rewrite <- app_assoc, (app_assoc [pv]).
  rewrite (store_app P ([pv] ++ M)); [|lia |].
  - rewrite prevEncode_big by done. subst P Z1. unfold entryb. rassoc. done.
  - rewrite prevEncode_big by done. pose proof (length_prevb true rk). rewrite length_app. cbn [length negb]. lia.
Qed.

(** The loop body once the length [rawlen] of the current entry is known. *)
Definition cascade_body (fuel : nat) (zl : list Z) (p curlen rawlen : Z) : option (list Z) :=
  let rawlensize := zlen (zipPrevEncodeLength rawlen) in
  nb ← rd zl (p + rawlen);
  if nb =? ZIP_END then Some zl else
  next ← zipEntry zl (p + rawlen);
  if prevrawlen next =? rawlen then Some zl else
  if prevrawlensize next <? rawlensize then
    let extra := rawlensize - prevrawlensize next in
    zl ← (zl ← ziplistResize junk zl (u32 (curlen + extra));
          tail ← ZIPLIST_TAIL_OFFSET zl;
          zl ← (if negb (tail =? p + rawlen) then set_ZIPLIST_TAIL_OFFSET zl (u32 (tail + extra)) else Some zl);
          zl ← memmove zl (p + rawlen + rawlensize) (p + rawlen + prevrawlensize next)
                 (curlen - (p + rawlen) - prevrawlensize next - 1);
          store zl (p + rawlen) (zipPrevEncodeLength rawlen));
    ziplistCascadeUpdate_loop junk fuel zl (p + rawlen) (curlen + extra)
  else if prevrawlensize next >? rawlensize then
    store zl (p + rawlen) (zipPrevEncodeLengthForceLarge rawlen)
  else store zl (p + rawlen) (zipPrevEncodeLength rawlen).

Lemma cascade_loop_body fuel A prev k C p curlen : p = zlen A -> wf_head prev k -> raw k < 2 ^ 32 ->
  ziplistCascadeUpdate_loop junk (S fuel) (A ++ entryb prev k ++ C) p curlen =
    cascade_body fuel (A ++ entryb prev k ++ C) p curlen (raw k).
Proof.
  intros Hp Hk Hr. cbn [ziplistCascadeUpdate_loop].
  destruct (rd_entry A C prev k p Hp Hk) as (b & Hrd & Hne & _). rewrite Hrd. cbn [mbind option_bind].
  rewrite (proj2 (Z.eqb_neq b ZIP_END) Hne).
  rewrite (zipEntry_at A C prev k p Hp Hk). cbn [mbind option_bind].
  pose proof (raw_pos k). rewrite hdr_entry_raw, uwrap_small by lia. unfold cascade_body.
  destruct (rd (A ++ entryb prev k ++ C) (p + raw k)) as [nb|]; [|done]. cbn [mbind option_bind].
  destruct (nb =? ZIP_END); [done|].
  destruct (zipEntry (A ++ entryb prev k ++ C) (p + raw k)) as [next|]; [|done]. cbn [mbind option_bind].
  destruct (prevrawlen next =? raw k); [done|].
  destruct (prevrawlensize next <? _); [|done].
  destruct (ziplistResize _ _ _) as [zl1|]; [|done]. cbn [mbind option_bind].
  destruct (ZIPLIST_TAIL_OFFSET zl1) as [t|]; [|done]. cbn [mbind option_bind].
  destruct (if negb (t =? p + raw k) then _ else _) as [zl2|]; [|done]. cbn [mbind option_bind].
  by destruct (memmove _ _ _ _) as [zl3|].
Qed.

Lemma cascade_loop_spec l : forall fuel B T N X prev k pv p,
  (length l < fuel)%nat -> wf_head prev k -> wf_chain pv l -> p = 10 + zlen X ->
  B = 11 + zlen X + raw k + total l -> T = B - 1 - lastraw (k :: l) -> B + 4 * zlen l < 2 ^ 32 ->
  let l' := casc (raw k) pv l in
  let B' := 11 + zlen X + raw k + total l' in
  ziplistCascadeUpdate_loop junk fuel (header B T N ++ X ++ entryb prev k ++ chain pv l ++ [ZIP_END]) p B =
    Some (header B' (B' - 1 - lastraw (k :: l')) N ++ X ++ entryb prev k ++ chain (raw k) l' ++ [ZIP_END]).
Proof.
  induction l as [|x l IH]; intros fuel B T N X prev k pv p Hf Hk Hwf Hp HB HT Hb l' B';
    (destruct fuel as [|fuel]; [cbn [length] in Hf; lia|]).
  - pose proof (raw_pos k). change (total []) with 0 in HB.
    rewrite (app_assoc _ X), cascade_loop_body by (zlens; done || lia). unfold cascade_body.
    destruct (rd_chain ((header B T N ++ X) ++ entryb prev k) pv [] (p + raw k)) as (e & He & Ee);
      [zlens; lia | done|].
    rewrite <- (app_assoc (header B T N ++ X)) in He. rewrite He. cbn [mbind option_bind].
    rewrite Ee, bool_decide_eq_true_2 by done. subst l' B'. cbn [casc]. rassoc. rewrite HT, HB. done.
  - cbn [length] in *. pose proof (raw_pos k). pose proof (raw_pos x). pose proof (total_nonneg l). rewrite total_cons in HB.
    rewrite (app_assoc _ X), cascade_loop_body by (zlens; done || lia). unfold cascade_body.
    destruct (rd_chain ((header B T N ++ X) ++ entryb prev k) pv (x :: l) (p + raw k)) as (e & He & Ee);
      [zlens; lia | done|].
    rewrite <- (app_assoc (header B T N ++ X)) in He. rewrite He. cbn [mbind option_bind].
    rewrite Ee, bool_decide_eq_false_2 by done.
    pose proof (wf_chain_head _ _ _ Hwf) as [Hx Hwl].
    pose proof (zipEntry_at ((header B T N ++ X) ++ entryb prev k) (chain (raw x) l ++ [ZIP_END]) pv x (p + raw k)
      ltac:(zlens; lia) Hx) as Hnext.
    rewrite <- !app_assoc in Hnext. cbn [chain]. rewrite <- !app_assoc. rewrite Hnext. cbn [mbind option_bind].
    destruct (hdr_entry_fields pv x (p + raw k)) as (-> & -> & _).
    subst l' B'. cbn [casc]. destruct (pv =? raw k) eqn:Epv; zbool.
    { subst pv. rewrite HT, HB. rewrite total_cons. cbn [chain]. rassoc. done. }
    destruct Hx as [[Hpv Hsm] Hwx].
    destruct (negb x.1 && (ZIP_BIGLEN <=? raw k)) eqn:Eg.
    + zbool. rewrite prevEncode_big, length_prevb by done.
      unfold pls. rewrite H2. change (1 <? 5) with true. cbn iota. change (5 - 1) with 4.
      pose proof (cascade_grow B T N X (entryb prev k) x pv l (p + raw k) (raw k)) as Hg.
      rewrite prevEncode_big in Hg by done. cbn [chain] in Hg. rewrite <- !app_assoc in Hg.
      pose proof (lastraw_bound (x :: l)) as Hlr. rewrite total_cons in Hlr.
      rewrite Hg; [|by apply Hsm | rewrite lastraw_cons in HT; lia | by zlens | lia | done | zlens; lia | done | lia | done].
      cbn [mbind option_bind].
      assert (wf_head (raw k) (true, x.2)) as Hk' by (split; [split; [lia | done] | done]).
      pose proof (IH fuel (B + 4) (B + 4 - 1 - lastraw ((true, x.2) :: l)) N (X ++ entryb prev k) (raw k)
        (true, x.2) (raw x) (p + raw k) ltac:(lia) Hk' Hwl) as IH'. cbn zeta in IH'.
      rewrite <- !app_assoc in IH'. rewrite IH'; [|zlens; lia | zlens; rewrite raw_true by done; lia | done | lia].
      rewrite lastraw_cons, total_cons. cbn [chain]. rassoc. zlens. do 2 f_equal. f_equal; lia.
    + assert (exists bs, (if pls x <? zlen (zipPrevEncodeLength (raw k)) then None
        else Some (if pls x >? zlen (zipPrevEncodeLength (raw k)) then zipPrevEncodeLengthForceLarge (raw k)
        else zipPrevEncodeLength (raw k))) = Some bs /\ bs = prevb x.1 (raw k)) as (bs & Hbs & ->).
      { unfold pls. destruct (Z.ltb_spec (raw k) ZIP_BIGLEN) as [Hlt|Hge].
        - rewrite prevEncode_small, length_prevb by done. destruct (x.1); eauto.
        - rewrite prevEncode_big, length_prevb by done. rewrite (proj2 (Z.leb_le _ _) Hge), andb_true_r in Eg.
          destruct (x.1); [eauto | done]. }
      destruct (pls x <? zlen (zipPrevEncodeLength (raw k))); [done|].
      assert (forall Q, store (header B T N ++ X ++ entryb prev k ++ entryb pv x ++ Q) (p + raw k) (prevb x.1 (raw k)) =
        Some (header B T N ++ X ++ entryb prev k ++ entryb (raw k) x ++ Q)) as Hst.
      { intros Q. pose proof (store_app (header B T N ++ X ++ entryb prev k) (prevb x.1 pv) (payload x.2 ++ Q)
          (prevb x.1 (raw k)) (p + raw k)) as Hs. rewrite <- !app_assoc in Hs.
        unfold entryb at 2 4. rewrite <- !app_assoc.
        apply Hs; [zlens; lia|]. apply Nat2Z.inj. by rewrite !length_prevb. }
      replace (if pls x >? zlen (zipPrevEncodeLength (raw k)) then _ else _) with
        (store (header B T N ++ X ++ entryb prev k ++ entryb pv x ++ chain (raw x) l ++ [ZIP_END]) (p + raw k) (prevb x.1 (raw k))).
      2: { destruct (pls x >? _); congruence. }
      rewrite Hst, HT, HB, total_cons. cbn [chain]. rassoc. done.
Qed.

(** ** Insertion *)

(** What an inserted string is stored as. *)
Definition ent_of (s : list Z) : zent :=
  match zipTryEncoding s with Some (v, _) => ZInt v | None => ZStr s end.

(** The entry stored after one of raw length [q]. *)
Definition new_ent (q : Z) (s : list Z) : sent := (negb (q <? ZIP_BIGLEN), ent_of s).

Lemma ent_of_parts s : exists value encoding n body,
  match zipTryEncoding s with
  | Some (v, e) => (v, e, zipIntSize e)
  | None => (123456789, 0, zlen s)
  end = (value, encoding, n) /\
  n + zlen (zipEncodeLength encoding (zlen s)) = zlen (payload (ent_of s)) /\
  (if ZIP_IS_STR encoding then Some s else zipSaveInteger value encoding) = Some body /\
  payload (ent_of s) = zipEncodeLength encoding (zlen s) ++ body.
Proof.
  unfold ent_of. destruct (zipTryEncoding s) as [[v e]|] eqn:E.
  - assert (e = zipValueEncoding v) as ->.
    { unfold zipTryEncoding in E. case_hyp E; [done|]. destruct (Dec.string2ll s); by simplify_eq/=. }
    exists v, (zipValueEncoding v), (zipIntSize (zipValueEncoding v)), (int_bytes v).
    unfold zipEncodeLength. rewrite not_str_int. cbn [payload length]. split_and!; [done | | | done].
    + rewrite <- length_int_bytes. lia.
    + unfold int_bytes. pose proof (length_int_bytes v) as Hl. unfold int_bytes in Hl.
      destruct (zipSaveInteger v (zipValueEncoding v)) eqn:Es; [done|]. exfalso.
      unfold zipSaveInteger in Es.
      destruct (valueEncoding_cases v) as [H|[H|[H|[H|[H|H]]]]]; try (rewrite H in Es; discriminate).
      unfold ZIP_INT_IMM_MIN, ZIP_INT_IMM_MAX in *.
      rewrite (proj2 (andb_true_iff _ _)) in Es by (rewrite Z.geb_leb, !Z.leb_le; lia).
      repeat case_hyp Es; discriminate.
  - exists 123456789, 0, (zlen s), s. cbn [payload]. split_and!; [done | | done | done].
    rewrite length_app. lia.
Qed.

Lemma wf_ent_of s : zlen (payload (ent_of s)) < 2 ^ 32 -> wf_ent (ent_of s).
Proof.
  unfold ent_of. destruct (zipTryEncoding s) as [[v e]|] eqn:E.
  - intros _. unfold zipTryEncoding in E. case_hyp E; [done|].
    destruct (Dec.string2ll s) as [x|] eqn:Ex; [|done]. simplify_eq/=.
    by apply dec_string2ll in Ex as [? _].
  - cbn [payload wf_ent]. rewrite length_app. lia.
Qed.

(** Opening the gap before the entry after [P], whose previous-length field of
    [pls] bytes is to take [sz] bytes. *)
Lemma insert_gap P prv W R reqlen sz nextdiff :
  nextdiff = sz - zlen prv -> zlen R = reqlen + nextdiff -> 0 <= sz <= 5 -> 10 <= zlen P -> 0 <= reqlen ->
  exists G pad, memmove (P ++ (prv ++ W) ++ R ++ [ZIP_END]) (zlen P + reqlen) (zlen P - nextdiff)
      (zlen (prv ++ W) + nextdiff) = Some (P ++ G ++ pad ++ W ++ [ZIP_END]) /\
    zlen G = reqlen /\ zlen pad = sz.
Proof.
  intros -> HR Hsz HP Hreq. set (U := P ++ prv).
  set (k := Z.to_nat (zlen U - sz)). set (U1 := take k U). set (pad := drop k U).
  assert (length U = length P + length prv)%nat as HU by (subst U; by rewrite length_app).
  assert (zlen U1 = zlen U - sz) as HU1 by (subst U1 k; rewrite length_take; lia).
  assert (zlen pad = sz) as Hpad by (subst pad k; rewrite length_drop; lia).
  assert (P ++ (prv ++ W) ++ R ++ [ZIP_END] = U1 ++ (pad ++ W) ++ R ++ [ZIP_END]) as ->.
  { rewrite !app_assoc. do 3 f_equal. fold U. subst U1 pad. by rewrite take_drop. }
  destruct (memmove_up_in U1 (pad ++ W) R [ZIP_END] (zlen P + reqlen) (zlen P - (sz - zlen prv))
    (zlen (prv ++ W) + (sz - zlen prv))) as (-> & _); [lia | rewrite !length_app; lia | lia |].
  exists (take (Z.to_nat reqlen) (prv ++ W ++ R)), pad. split; [|split; [|done]].
  - f_equal. rewrite !app_assoc. do 3 f_equal.
    transitivity (take (length U1 + length R) (U1 ++ (pad ++ W) ++ R)).
    + by rewrite take_app_add.
    + assert (U1 ++ (pad ++ W) ++ R = P ++ prv ++ W ++ R) as ->.
      { rewrite !app_assoc. do 2 f_equal. subst U1 pad U. by rewrite take_drop. }
      replace (length U1 + length R)%nat with (length P + Z.to_nat reqlen)%nat by lia.
      rewrite take_app_add. by rewrite <- !app_assoc.
  - rewrite length_take, !length_app. lia.
Qed.

(** Writing the three parts of an entry over a gap of its size. *)
Lemma insert_write P G Q q s : zlen G = raw (new_ent q s) ->
  forall value encoding n body,
  match zipTryEncoding s with
  | Some (v, e) => (v, e, zipIntSize e)
  | None => (123456789, 0, zlen s)
  end = (value, encoding, n) ->
  payload (ent_of s) = zipEncodeLength encoding (zlen s) ++ body ->
  (if ZIP_IS_STR encoding then Some s else zipSaveInteger value encoding) = Some body ->
  (zl ← store (P ++ G ++ Q) (zlen P) (zipPrevEncodeLength q);
   zl ← store zl (zlen P + zlen (zipPrevEncodeLength q)) (zipEncodeLength encoding (zlen s));
   (if ZIP_IS_STR encoding
    then store zl (zlen P + zlen (zipPrevEncodeLength q) + zlen (zipEncodeLength encoding (zlen s))) s
    else bs ← zipSaveInteger value encoding;
      store zl (zlen P + zlen (zipPrevEncodeLength q) + zlen (zipEncodeLength encoding (zlen s))) bs))
  = Some (P ++ entryb q (new_ent q s) ++ Q).
Proof.
  intros HG value encoding n body _ Hpay Hbody.
  set (pb := zipPrevEncodeLength q) in *. set (lb := zipEncodeLength encoding (zlen s)) in *.
  assert (entryb q (new_ent q s) = pb ++ lb ++ body) as He.
  { unfold entryb, new_ent. cbn [fst snd]. by rewrite Hpay, <- zipPrevEncodeLength_prevb. }
  assert (length G = length pb + length lb + length body)%nat as HGl.
  { pose proof (length_entryb q (new_ent q s)) as Hl. rewrite He, !length_app in Hl. lia. }
  rewrite <- (take_drop (length pb) G), <- (take_drop (length lb) (drop (length pb) G)).
  set (G1 := take (length pb) G). set (G2 := take (length lb) _). set (G3 := drop (length lb) _).
  assert (length G1 = length pb) by (subst G1; rewrite length_take; lia).
  assert (length G2 = length lb) by (subst G2; rewrite length_take, length_drop; lia).
  assert (length G3 = length body) by (subst G3; rewrite !length_drop; lia).
  rewrite <- !app_assoc. rewrite (store_app P G1) by done. cbn [mbind option_bind].
  rewrite (app_assoc P), (store_app (P ++ pb) G2) by (rewrite ?length_app; lia). cbn [mbind option_bind].
  transitivity (store ((P ++ pb) ++ lb ++ G3 ++ Q) (zlen P + zlen pb + zlen lb) body).
  { destruct (ZIP_IS_STR encoding); [by simplify_eq|]. rewrite Hbody. done. }
  rewrite (app_assoc _ lb), (store_app ((P ++ pb) ++ lb) G3) by (rewrite ?length_app; lia).
  rewrite He. rassoc. done.
Qed.

Lemma incr_length_spec b t n X l k incr : count_ok n l -> zlen l + incr = zlen k -> 
  exists n', ZIPLIST_INCR_LENGTH (header b t n ++ X) incr = Some (header b t n' ++ X) /\
    (incr <= 1 -> count_ok n' k).
Proof.
  intros [Hn Hc] Hk. unfold ZIPLIST_INCR_LENGTH, UINT16_MAX in *. rewrite get_length by done. cbn [mbind option_bind].
  destruct (n <? 65535) eqn:E; zbool.
  - rewrite set_len. eexists. split; [done|]. intros Hi. specialize (Hc E).
    assert (u16 (n + incr) = n + incr) as -> by (apply uwrap_small; lia).
    unfold count_ok, UINT16_MAX. lia.
  - exists n. split; [done|]. intros _. unfold count_ok, UINT16_MAX. lia.
Qed.

(** Moving the following entries [x :: l] up to open a gap of [r] bytes, with the
    previous-length field of [x] rewritten in the size [r] needs. *)
Lemma insert_shift B T n A q x l R r nextdiff p :
  let x' := (negb (r <? ZIP_BIGLEN), x.2) in
  wf_chain q (x :: l) -> p = 10 + zlen A -> nextdiff = pls x' - pls x -> 2 <= r ->
  zlen R = r + nextdiff -> B = 11 + zlen A + total (x :: l) + zlen R -> B < 2 ^ 32 -> B - nextdiff < 2 ^ 32 ->
  T = 10 + zlen A + total (x :: l) - lastraw (x :: l) ->
  exists G, zlen G = r /\
   (zl ← memmove (header B T n ++ A ++ chain q (x :: l) ++ R ++ [ZIP_END]) (p + r) (p - nextdiff)
           (B - zlen R - p - 1 + nextdiff);
    zl ← store zl (p + r) (zipPrevEncodeLength r);
    t ← ZIPLIST_TAIL_OFFSET zl;
    zl ← set_ZIPLIST_TAIL_OFFSET zl (u32 (t + r));
    tail ← zipEntry zl (p + r);
    e ← rd zl (p + (r + headersize tail + len tail));
    if negb (e =? ZIP_END) then
      t ← ZIPLIST_TAIL_OFFSET zl; set_ZIPLIST_TAIL_OFFSET zl (u32 (t + nextdiff))
    else Some zl)
   = Some (header B (B - 1 - lastraw (x' :: l)) n ++ A ++ G ++ entryb r x' ++ chain (raw x) l ++ [ZIP_END]).
Proof.
  intros x' Hwf Hp Hnd Hr HR HB HBb HT.
  pose proof (lastraw_bound (x :: l)) as HL. pose proof (wf_chain_head _ _ _ Hwf) as [[Hxp Hxe] Hl].
  pose proof (length_header B T n) as Hh. rewrite total_cons in *. pose proof (raw_pos x). pose proof (total_nonneg l).
  assert (raw x' = raw x + nextdiff) as Hraw by (unfold raw in *; cbn [snd x'] in *; lia).
  pose proof (raw_pos x').
  assert (-4 <= nextdiff <= 4) as Hnd4 by (destruct (pls_cases x), (pls_cases x'); lia).
  assert (wf_head r x') as Hx'.
  { split; [|done]. split; [lia|]. cbn [fst x']. rewrite negb_false_iff, Z.ltb_lt. done. }
  set (prv := prevb x.1 q). set (W := payload x.2 ++ chain (raw x) l).
  assert (zlen prv = pls x) as Hprv by apply length_prevb.
  assert (zlen W = raw x - pls x + total l) as HW.
  { subst W. rewrite length_app, Nat2Z.inj_add, length_chain. unfold raw. lia. }
  destruct (insert_gap (header B T n ++ A) prv W R r (pls x') nextdiff) as (G & pad & HM & HG & Hpad);
    [lia | lia | destruct (pls_cases x'); lia | rewrite length_app; lia | lia |].
  exists G. split; [done|].
  assert (header B T n ++ A ++ chain q (x :: l) ++ R ++ [ZIP_END] =
    (header B T n ++ A) ++ (prv ++ W) ++ R ++ [ZIP_END]) as ->.
  { cbn [chain]. unfold entryb. subst prv W. rassoc. done. }
  assert (zlen (header B T n ++ A) = p) as HPA by (rewrite length_app; lia).
  rewrite HPA in HM.
  replace (B - zlen R - p - 1 + nextdiff) with (zlen (prv ++ W) + nextdiff) by (rewrite length_app; lia).
  rewrite HM. cbn [mbind option_bind].
  rewrite (app_assoc _ G), store_app; [| rewrite length_app; lia |
    pose proof (length_prevb (x'.1) r); rewrite zipPrevEncodeLength_prevb; unfold pls in *; cbn [fst x'] in *; lia].
  cbn [mbind option_bind].
  assert (((header B T n ++ A) ++ G) ++ zipPrevEncodeLength r ++ W ++ [ZIP_END] =
    header B T n ++ (A ++ G) ++ entryb r x' ++ chain (raw x) l ++ [ZIP_END]) as ->.
  { rewrite zipPrevEncodeLength_prevb. unfold entryb. subst W. rassoc. done. }
  rewrite get_tail by lia. cbn [mbind option_bind]. rewrite (uwrap_small 32 (T + r)) by lia.
  rewrite set_tail. cbn [mbind option_bind]. rewrite app_assoc.
  assert (zlen (header B (T + r) n ++ A ++ G) = p + r) as HAG by (rewrite !length_app; pose proof (length_header B (T+r) n); lia).
  rewrite (zipEntry_at (header B (T + r) n ++ A ++ G) (chain (raw x) l ++ [ZIP_END]) r x' (p + r) (eq_sym HAG) Hx').
  cbn [mbind option_bind].
  pose proof (hdr_entry_raw r x' (p + r)) as Hhr.
  replace (p + (r + headersize (hdr_entry r x' (p + r)) + len (hdr_entry r x' (p + r)))) with (p + r + raw x') by lia.
  destruct (rd_chain ((header B (T + r) n ++ A ++ G) ++ entryb r x') (raw x) l (p + r + raw x')) as (b & Hb & He);
    [rewrite length_app, Nat2Z.inj_add, length_entryb; lia | done |].
  rewrite <- app_assoc in Hb. rewrite Hb. cbn [mbind option_bind]. rewrite He.
  destruct l as [|y l].
  - rewrite bool_decide_eq_true_2 by done. cbn [negb].
    assert (B - 1 - lastraw [x'] = T + r) as ->; [|rassoc; done].
    unfold lastraw, total in *. cbn in *. lia.
  - rewrite bool_decide_eq_false_2 by done. cbn [negb].
    rewrite lastraw_cons in *. rewrite <- app_assoc. rewrite get_tail by lia. cbn [mbind option_bind].
    rewrite set_tail, uwrap_small by lia. do 2 f_equal; [f_equal; lia | rassoc; done].
Qed.

(** The entries after one whose raw length has become [r]: the first one's field
    takes the size it needs, and the change runs through the rest. *)
Definition resettle (r : Z) (l : list sent) : list sent :=
  match l with
  | [] => []
  | x :: l => let x' := (negb (r <? ZIP_BIGLEN), x.2) in x' :: casc (raw x') (raw x) l
  end.

(** [reqlen + nextdiff >= 0]: otherwise the list is reallocated smaller before
    its bytes are moved. *)
Definition insert_safe (e : sent) (l : list sent) : Prop :=
  match l with [] => True | x :: _ => x.1 = true -> 4 <= raw e end.

Lemma resettle_ents r l : snd <$> resettle r l = snd <$> l.
Proof. destruct l as [|x l]; [done|]. cbn. f_equal. apply casc_ents. Qed.

Lemma resettle_length r l : length (resettle r l) = length l.
Proof. destruct l as [|x l]; [done|]. cbn [resettle length]. by rewrite length_casc. Qed.

Lemma casc_id rk l : casc rk rk l = l.
Proof. destruct l as [|x l]; [done|]. cbn [casc]. by rewrite Z.eqb_refl. Qed.

Lemma raw_resize big x : raw (big, x.2) <= raw x + 4.
Proof. unfold raw, pls. cbn [fst snd]. destruct big, (x.1); lia. Qed.

Lemma resettle_total r l : total (resettle r l) <= total l + 4 * zlen l.
Proof.
  destruct l as [|x l]; [done|]. cbn [resettle]. rewrite !total_cons. cbn [length].
  pose proof (raw_resize (negb (r <? ZIP_BIGLEN)) x) as H.
  pose proof (casc_total (raw (negb (r <? ZIP_BIGLEN), x.2)) (raw x) l). lia.
Qed.

Lemma resettle_wf r l q : wf_chain q l -> 0 <= r < 2 ^ 32 -> total l + 4 * zlen l < 2 ^ 32 ->
  wf_chain r (resettle r l).
Proof.
  destruct l as [|x l]; [done|]. intros (_ & He & Hl) Hr Hb. cbn [resettle].
  rewrite total_cons in Hb. cbn [length] in Hb. pose proof (raw_pos x). pose proof (total_nonneg l).
  cbn [wf_chain fst snd]. split; [|split; [done|]].
  - split; [lia|]. by rewrite negb_false_iff, Z.ltb_lt.
  - apply casc_wf; [apply Z.lt_le_incl, (Z.lt_le_trans _ 2), raw_pos; lia | | done].
    pose proof (raw_resize (negb (r <? ZIP_BIGLEN)) x). lia.
Qed.

(** The cascade, run when the field of [x] changed size. *)
Lemma cascade_settle n X r x l p B nd : let x' := (negb (r <? ZIP_BIGLEN), x.2) in
  let l' := resettle r (x :: l) in let B' := 11 + zlen X + total l' in
  p = 10 + zlen X -> 0 <= r < 2 ^ 32 -> wf_ent x.2 -> wf_chain (raw x) l -> raw x' = raw x + nd ->
  B = 11 + zlen X + raw x' + total l -> B + 4 * zlen l < 2 ^ 32 ->
  (if negb (nd =? 0)
   then __ziplistCascadeUpdate junk (header B (B - 1 - lastraw (x' :: l)) n ++ X ++ entryb r x' ++ chain (raw x) l ++ [ZIP_END]) p
   else Some (header B (B - 1 - lastraw (x' :: l)) n ++ X ++ entryb r x' ++ chain (raw x) l ++ [ZIP_END])) =
  Some (header B' (B' - 1 - lastraw l') n ++ X ++ chain r l' ++ [ZIP_END]).
Proof.
  intros x' l' B' Hp Hr He Hl Hraw HB Hb.
  assert (header B' (B' - 1 - lastraw l') n ++ X ++ chain r l' ++ [ZIP_END] =
    header B' (B' - 1 - lastraw (x' :: casc (raw x') (raw x) l)) n ++ X ++ entryb r x' ++
      chain (raw x') (casc (raw x') (raw x) l) ++ [ZIP_END]) as ->.
  { subst l'. cbn [resettle]. fold x'. cbn [chain]. rassoc. done. }
  assert (wf_head r x') as Hx'.
  { split; [|done]. split; [lia|]. cbn [fst x']. by rewrite negb_false_iff, Z.ltb_lt. }
  assert (B' = 11 + zlen X + raw x' + total (casc (raw x') (raw x) l)) as HB'.
  { subst B' l'. cbn [resettle]. fold x'. rewrite total_cons. lia. }
  pose proof (raw_pos x'). pose proof (total_nonneg l).
  destruct (nd =? 0) eqn:End; cbn [negb]; zbool.
  - assert (raw x' = raw x) as Hrx by lia. rewrite Hrx, casc_id in *. assert (B = B') as -> by lia. done.
  - unfold __ziplistCascadeUpdate. rewrite get_bytes by lia. cbn [mbind option_bind].
    rewrite cascade_loop_spec with (T := B - 1 - lastraw (x' :: l)); try done.
    + cbv zeta. by rewrite <- HB'.
    + rewrite !length_app. cbn [length]. pose proof (length_chain (raw x) l). pose proof (total_length l). lia.
Qed.

(** The bytes around the gap once the following entries have settled. *)
Lemma insert_settle n A q e l p B0 :
  wf_chain q l -> p = 10 + zlen A -> l <> [] -> insert_safe e l ->
  B0 = 11 + zlen A + total l -> B0 + raw e + 4 * zlen l < 2 ^ 32 ->
  let l' := resettle (raw e) l in
  let B' := 11 + zlen A + raw e + total l' in
  exists nextdiff, zipPrevLenByteDiff (header B0 (B0 - 1 - lastraw l) n ++ A ++ chain q l ++ [ZIP_END]) p (raw e) = Some nextdiff /\
  exists G, zlen G = raw e /\
  (zl ← ziplistResize junk (header B0 (B0 - 1 - lastraw l) n ++ A ++ chain q l ++ [ZIP_END]) (u32 (B0 + raw e + nextdiff));
   b ← rd zl p;
   zl ← (if negb (b =? ZIP_END) then
          zl ← memmove zl (p + raw e) (p - nextdiff) (B0 - p - 1 + nextdiff);
          zl ← store zl (p + raw e) (zipPrevEncodeLength (raw e));
          t ← ZIPLIST_TAIL_OFFSET zl;
          zl ← set_ZIPLIST_TAIL_OFFSET zl (u32 (t + raw e));
          tail ← zipEntry zl (p + raw e);
          e ← rd zl (p + (raw e + headersize tail + len tail));
          if negb (e =? ZIP_END) then
            t ← ZIPLIST_TAIL_OFFSET zl; set_ZIPLIST_TAIL_OFFSET zl (u32 (t + nextdiff))
          else Some zl
        else set_ZIPLIST_TAIL_OFFSET zl (u32 p));
   if negb (nextdiff =? 0) then __ziplistCascadeUpdate junk zl (p + raw e) else Some zl)
  = Some (header B' (B' - 1 - lastraw l') n ++ A ++ G ++ chain (raw e) l' ++ [ZIP_END]).
Proof.
  intros Hwf Hp Hne Hsafe HB Hb l' B'. destruct l as [|x l]; [done|].
  pose proof (wf_chain_head _ _ _ Hwf) as [Hx Hl]. set (x' := (negb (raw e <? ZIP_BIGLEN), x.2) : sent) in *.
  set (T := B0 - 1 - lastraw (x :: l)).
  assert (zlen (header B0 T n ++ A) = p) as HPA by (rewrite length_app; pose proof (length_header B0 T n); lia).
  set (nd := pls x' - pls x). exists nd.
  assert (zlen (zipPrevEncodeLength (raw e)) = pls x') as Hpl.
  { rewrite length_zipPrevEncodeLength. unfold pls. cbn [fst x']. by destruct (raw e <? ZIP_BIGLEN). }
  cbn [chain]. split.
  { rewrite (app_assoc (header B0 T n)), <- (app_assoc (entryb q x)).
    rewrite (byteDiff_at (header B0 T n ++ A) (chain (raw x) l ++ [ZIP_END]) q x p (eq_sym HPA) Hx). by rewrite Hpl. }
  pose proof (raw_pos e). pose proof (lastraw_bound (x :: l)). rewrite total_cons in *. pose proof (total_nonneg l).
  pose proof (raw_pos x). cbn [length] in Hb. 
  assert (raw x' = raw x + nd) as Hraw by (unfold raw; subst nd; cbn [snd x']; lia). pose proof (raw_pos x').
  assert (-4 <= nd <= 4) as Hnd4 by (subst nd; destruct (pls_cases x), (pls_cases x'); lia).
  assert (0 <= raw e + nd) as Hrn.
  { cbn [insert_safe] in Hsafe. subst nd. unfold pls in *. destruct (x.1); [specialize (Hsafe eq_refl)|]; destruct (x'.1); lia. }
  destruct (resize_grow_end B0 T n (A ++ chain q (x :: l)) (raw e + nd) Hrn) as (R & HR & _ & HRz).
  assert (zlen (A ++ chain q (x :: l)) = B0 - 11) as HAl by (rewrite length_app, Nat2Z.inj_add, length_chain, total_cons; lia).
  cbn [chain] in *. rewrite HAl in HRz. rassoc. revert HRz. rassoc. intros HRz.
  rewrite (uwrap_small 32 (B0 + raw e + nd)) by lia.
  replace (11 + (B0 - 11) + (raw e + nd)) with (B0 + raw e + nd) in HRz by lia.
  rewrite HRz. cbn [mbind option_bind]. set (B1 := B0 + raw e + nd) in *.
  assert (zlen (header B1 T n ++ A) = p) as HPA1 by (rewrite length_app; pose proof (length_header B1 T n); lia).
  destruct (rd_entry (header B1 T n ++ A) (chain (raw x) l ++ R ++ [ZIP_END]) q x p (eq_sym HPA1) Hx) as (b & Hrb & Hbe & _).
  rewrite <- app_assoc in Hrb. rewrite Hrb. cbn [mbind option_bind]. rewrite (proj2 (Z.eqb_neq _ _) Hbe). cbn [negb].
  destruct (insert_shift B1 T n A q x l R (raw e) nd p) as (G & HG & Hshift);
    [done | done | done | lia | lia | rewrite total_cons; lia | lia | lia | rewrite total_cons; lia |].
  exists G. split; [done|]. cbn [chain] in Hshift. rewrite <- !app_assoc in Hshift.
  replace (B0 - p - 1 + nd) with (B1 - zlen R - p - 1 + nd) by lia.
  rewrite Hshift. cbn [mbind option_bind]. rewrite (app_assoc A G).
  rewrite (cascade_settle n (A ++ G)) with (nd := nd); rewrite ?length_app; try done; try lia; [|by destruct Hx | fold x'; lia].
  subst l' B'. cbv zeta. rewrite Nat2Z.inj_add, HG, (Z.add_assoc 11). rassoc. done.
Qed.

(** The previous length found at the insertion point. *)
Lemma insert_prevlen n l1 l2 p B0 : p = 10 + total l1 -> wf_chain 0 (l1 ++ l2) ->
  B0 = 11 + total (l1 ++ l2) -> B0 < 2 ^ 32 ->
  let zl := header B0 (B0 - 1 - lastraw (l1 ++ l2)) n ++ chain 0 (l1 ++ l2) ++ [ZIP_END] in
  exists b, rd zl p = Some b /\ (b =? ZIP_END) = bool_decide (l2 = []) /\
  (if negb (b =? ZIP_END) then '(_, pl) ← ZIP_DECODE_PREVLEN zl p; Some pl
   else
     ptail ← ZIPLIST_ENTRY_TAIL zl;
     t ← rd zl ptail;
     if negb (t =? ZIP_END) then zipRawEntryLength zl ptail else Some 0) = Some (lastraw l1).
Proof.
  intros Hp Hwf HB Hb zl. apply wf_chain_app in Hwf as [Hw1 Hw2]. fold (lastraw l1) in Hw2.
  rewrite total_app in HB. pose proof (total_nonneg l1). pose proof (total_nonneg l2).
  set (T := B0 - 1 - lastraw (l1 ++ l2)) in *.
  assert (zl = (header B0 T n ++ chain 0 l1) ++ chain (lastraw l1) l2 ++ [ZIP_END]) as Hzl.
  { subst zl. rewrite chain_app. fold (lastraw l1). rassoc. done. }
  assert (zlen (header B0 T n ++ chain 0 l1) = p) as HPA
    by (rewrite length_app, Nat2Z.inj_add, length_chain, length_header; lia).
  destruct (rd_chain (header B0 T n ++ chain 0 l1) (lastraw l1) l2 p (eq_sym HPA) Hw2) as (b & Hrb & Hbe).
  exists b. rewrite Hzl. split; [done|]. split; [done|]. rewrite Hbe.
  destruct l2 as [|x l].
  - rewrite bool_decide_eq_true_2 by done. cbn [negb chain app]. unfold ZIPLIST_ENTRY_TAIL. rassoc.
    assert (T = B0 - 1 - lastraw l1) as HT by (subst T; by rewrite app_nil_r).
    pose proof (lastraw_bound l1). change (total []) with 0 in *.
    rewrite get_tail by lia. cbn [mbind option_bind].
    destruct l1 as [|y l1 _] using rev_ind.
    + cbn [chain app]. assert (T = zlen (header B0 T n)) as HTh by (rewrite length_header; unfold lastraw, total in *; cbn in *; lia).
      rewrite HTh at 2. by rewrite rd_app.
    + apply wf_chain_app in Hw1 as [Hw1 Hy]. fold (lastraw l1) in Hy. apply wf_chain_head in Hy as [Hy _].
      rewrite chain_app. fold (lastraw l1). cbn [chain]. rewrite app_nil_r. rassoc.
      rewrite (app_assoc (header B0 T n)). rewrite lastraw_app in HT. change (lastraw [y]) with (raw y) in HT.
      rewrite total_app in *. change (total [y]) with (raw y + 0) in *. pose proof (raw_pos y). pose proof (total_nonneg l1).
      assert (T = zlen (header B0 T n ++ chain 0 l1)) as HTh
        by (rewrite length_app, Nat2Z.inj_add, length_chain, length_header; lia).
      destruct (rd_entry (header B0 T n ++ chain 0 l1) [ZIP_END] (lastraw l1) y T HTh Hy) as (c & -> & Hc & _).
      cbn [mbind option_bind]. rewrite (proj2 (Z.eqb_neq _ _) Hc). cbn [negb].
      rewrite rawlen_at by (done || lia). rewrite lastraw_app. done.
  - rewrite bool_decide_eq_false_2 by done. cbn [negb chain]. apply wf_chain_head in Hw2 as [Hx _].
    rewrite <- (app_assoc (entryb _ _)). by rewrite prevlen_at.
Qed.

(** Writing the new entry over its gap and counting it. *)
Lemma insert_finish n l1 l2 q s p G l' value encoding rl body : let e := new_ent q s in
  let B' := 11 + total l1 + raw e + total l' in
  count_ok n (l1 ++ l2) -> length l' = length l2 -> wf_chain 0 (l1 ++ e :: l') -> B' < 2 ^ 32 ->
  p = 10 + total l1 -> q = lastraw l1 -> zlen G = raw e ->
  match zipTryEncoding s with
  | Some (v, e) => (v, e, zipIntSize e)
  | None => (123456789, 0, zlen s)
  end = (value, encoding, rl) ->
  payload (ent_of s) = zipEncodeLength encoding (zlen s) ++ body ->
  (if ZIP_IS_STR encoding then Some s else zipSaveInteger value encoding) = Some body ->
  exists zl',
   (zl ← store (header B' (B' - 1 - lastraw (e :: l')) n ++ chain 0 l1 ++ G ++ chain (raw e) l' ++ [ZIP_END]) p (zipPrevEncodeLength q);
    zl ← store zl (p + zlen (zipPrevEncodeLength q)) (zipEncodeLength encoding (zlen s));
    zl ← (if ZIP_IS_STR encoding
       then store zl (p + zlen (zipPrevEncodeLength q) + zlen (zipEncodeLength encoding (zlen s))) s
       else bs ← zipSaveInteger value encoding;
         store zl (p + zlen (zipPrevEncodeLength q) + zlen (zipEncodeLength encoding (zlen s))) bs);
    ZIPLIST_INCR_LENGTH zl 1) = Some zl' /\ zrep zl' (l1 ++ e :: l').
Proof.
  intros e B' Hn Hlen Hwf Hb Hp Hq HG Heq Hpay Hbody. set (T' := B' - 1 - lastraw (e :: l')).
  assert (zlen (header B' T' n ++ chain 0 l1) = p) as HPA
    by (rewrite length_app, Nat2Z.inj_add, length_chain, length_header; lia).
  pose proof (insert_write (header B' T' n ++ chain 0 l1) G (chain (raw e) l' ++ [ZIP_END]) q s HG
    value encoding rl body Heq Hpay Hbody) as Hw. rewrite HPA in Hw.
  destruct (incr_length_spec B' T' n (chain 0 (l1 ++ e :: l') ++ [ZIP_END]) (l1 ++ l2) (l1 ++ e :: l') 1 Hn) as (n' & Hi & Hc).
  { rewrite !length_app. cbn [length]. rewrite Hlen. lia. }
  assert (total (l1 ++ e :: l') = B' - 11) as Ht by (rewrite total_app, total_cons; lia).
  exists (header B' T' n' ++ chain 0 (l1 ++ e :: l') ++ [ZIP_END]). split.
  - rewrite <- app_assoc in Hw. apply bind_Some in Hw as (z1 & -> & Hw). cbn [mbind option_bind].
    apply bind_Some in Hw as (z2 & -> & Hw). cbn [mbind option_bind]. rewrite Hw. cbn [mbind option_bind].
    rewrite <- Hi. f_equal. rewrite chain_app. fold (lastraw l1). rewrite <- Hq. cbn [chain]. rassoc. done.
  - exists n'. rewrite Ht. split; [|split; [by apply Hc | split; [done | lia]]].
    f_equal. rewrite lastraw_app. f_equal; subst T'; lia.
Qed.

Lemma insert_spec zl l1 l2 p s : let e := new_ent (lastraw l1) s in
  zrep zl (l1 ++ l2) -> p = 10 + total l1 -> insert_safe e l2 ->
  11 + total (l1 ++ l2) + raw e + 4 * zlen l2 < 2 ^ 32 ->
  exists zl', __ziplistInsert junk zl p s = Some zl' /\ zrep zl' (l1 ++ e :: resettle (raw e) l2).
Proof.
  intros e (n & -> & Hn & Hwf & Hb0) Hp Hsafe Hb. pose proof (raw_pos e) as Hre.
  remember (11 + total (l1 ++ l2)) as B0 eqn:HB0.
  replace (10 + total (l1 ++ l2) - lastraw (l1 ++ l2)) with (B0 - 1 - lastraw (l1 ++ l2)) by lia.
  destruct (insert_prevlen n l1 l2 p B0 Hp Hwf HB0 Hb0) as (b & Hrb & Hbe & Hpl).
  pose proof (total_nonneg l1). pose proof (total_nonneg l2). rewrite total_app in HB0.
  unfold __ziplistInsert. rewrite get_bytes by lia. cbn [mbind option_bind]. rewrite Hrb. cbn [mbind option_bind].
  destruct (ent_of_parts s) as (value & encoding & rl & body & Heq & Hlen & Hbody & Hpay). rewrite Hpl.
  cbn [mbind option_bind]. rewrite Heq.
  assert (rl + zlen (zipPrevEncodeLength (lastraw l1)) + zlen (zipEncodeLength encoding (zlen s)) = raw e) as ->.
  { unfold raw, e, new_ent, pls. cbn [fst snd]. rewrite length_zipPrevEncodeLength.
    destruct (lastraw l1 <? ZIP_BIGLEN); cbn [negb]; lia. }
  apply wf_chain_app in Hwf as [Hw1 Hw2]. fold (lastraw l1) in Hw2.
  assert (wf_chain 0 (l1 ++ e :: resettle (raw e) l2)) as Hwe.
  { apply wf_chain_app. split; [done|]. fold (lastraw l1). pose proof (lastraw_bound l1). cbn [wf_chain].
    split_and!; [lia | lia | | | by apply resettle_wf with (lastraw l1); [|lia|lia]].
    - cbn [fst e new_ent]. by rewrite negb_false_iff, Z.ltb_lt.
    - apply wf_ent_of. unfold raw in Hb. destruct (pls_cases e). all: cbn [snd e new_ent] in *; lia. }
  pose proof (resettle_total (raw e) l2) as Hat.
  pose proof (insert_finish n l1 l2 (lastraw l1) s p) as Hfin. cbv zeta in Hfin. fold e in Hfin.
  rewrite chain_app. fold (lastraw l1). rassoc. destruct l2 as [|x l].
  - rewrite bool_decide_eq_true_2 in Hbe by done. rewrite Hbe. cbn [negb chain app mbind option_bind].
    rewrite app_nil_r in *. change (total []) with 0 in *. cbn [length] in Hb. rewrite (Z.add_0_r (B0 + raw e)).
    destruct (resize_grow_end B0 (B0 - 1 - lastraw l1) n (chain 0 l1) (raw e)) as (R & HR & HR0 & HRz); [lia|].
    rewrite length_chain in HRz. rewrite (uwrap_small 32 (B0 + raw e)) by lia.
    replace (11 + total l1 + raw e) with (B0 + raw e) in HRz by lia. rewrite HRz. cbn [mbind option_bind].
    assert (rd (header (B0 + raw e) (B0 - 1 - lastraw l1) n ++ chain 0 l1 ++ R ++ [ZIP_END]) p = Some ZIP_END) as ->.
    { destruct (HR0 ltac:(lia)) as (R' & ->). rewrite app_assoc. cbn [app].
      replace p with (zlen (header (B0 + raw e) (B0 - 1 - lastraw l1) n ++ chain 0 l1))
        by (rewrite length_app, Nat2Z.inj_add, length_chain, length_header; lia). apply rd_app. }
    cbn [mbind option_bind]. change (ZIP_END =? ZIP_END) with true. change (0 =? 0) with true. cbn [negb mbind option_bind].
    rewrite set_tail. cbn [mbind option_bind]. rewrite (uwrap_small 32 p) by lia.
    edestruct (Hfin R []) as (zl' & Hz & Hrep); [done | done | done | | done | done | done | exact Heq | exact Hpay | exact Hbody |].
    { change (total []) with 0. lia. }
    exists zl'. split; [|done]. rewrite <- Hz. change (total []) with 0. change (lastraw [e]) with (raw e). 
    replace (B0 + raw e) with (11 + total l1 + raw e + 0) by lia.
    replace (11 + total l1 + raw e + 0 - 1 - raw e) with p by lia. done.
  - rewrite bool_decide_eq_false_2 in Hbe by done. rewrite Hbe. cbn [negb].
    rewrite lastraw_app.
    destruct (insert_settle n (chain 0 l1) (lastraw l1) e (x :: l) p B0) as (nd & Hnd & G & HG & Hs);
      [done | rewrite length_chain; lia | done | done | rewrite length_chain; lia | lia |].
    rewrite Hnd. cbn [mbind option_bind]. cbv zeta in Hs. rewrite length_chain in Hs.
    apply bind_Some in Hs as (z1 & -> & Hs). cbn [mbind option_bind].
    apply bind_Some in Hs as (b1 & -> & Hs). cbn [mbind option_bind].
    apply bind_Some in Hs as (z2 & -> & Hs). cbn [mbind option_bind]. rewrite Hs. cbn [mbind option_bind].
    edestruct (Hfin G (resettle (raw e) (x :: l))) as (zl' & Hz & Hrep);
      [done | by rewrite resettle_length | done | lia | done | done | done | exact Heq | exact Hpay | exact Hbody |].
    exists zl'. split; [|done]. rewrite <- Hz. done.
Qed.

(** ** Deletion *)

(** [num] entries are to be deleted and [lm] are the ones there are. *)
Definition deletes (num : nat) (lm l2 : list sent) : Prop :=
  length lm = num \/ ((length lm < num)%nat /\ l2 = []).

Lemma delete_skip_spec lm : forall num A q l2 p d,
  deletes num lm l2 -> wf_chain q (lm ++ l2) -> p = zlen A -> total lm < 2 ^ 32 ->
  ziplistDelete_skip num (A ++ chain q (lm ++ l2) ++ [ZIP_END]) p d = Some (p + total lm, d + zlen lm).
Proof.
  induction lm as [|x lm IH]; intros num A q l2 p d Hd Hwf Hp Hb.
  - cbn [app length] in *. change (total []) with 0. rewrite !Z.add_0_r.
    destruct (rd_chain A q l2 p Hp Hwf) as (b & Hb' & He).
    destruct num as [|num]; cbn [ziplistDelete_skip]; rewrite Hb'; cbn [mbind option_bind]; rewrite He.
    + by destruct (bool_decide _).
    + destruct Hd as [Hd|[_ Hd]]; [done|]. by rewrite bool_decide_eq_true_2.
  - destruct num as [|num]; [destruct Hd as [Hd|[Hd _]]; cbn [length] in Hd; lia|].
    cbn [app] in *. apply wf_chain_head in Hwf as [Hx Hl]. cbn [chain]. rassoc. cbn [ziplistDelete_skip].
    destruct (rd_entry A (chain (raw x) (lm ++ l2) ++ [ZIP_END]) q x p Hp Hx) as (b & -> & Hne & _).
    cbn [mbind option_bind]. rewrite (proj2 (Z.eqb_neq _ _) Hne). rewrite total_cons in *. pose proof (total_nonneg lm). pose proof (raw_pos x).
    rewrite rawlen_at by (done || lia). cbn [mbind option_bind]. rewrite app_assoc.
    rewrite IH; [f_equal; cbn [length]; f_equal; lia | | done | | lia].
    + destruct Hd as [Hd|[Hd ?]]; [left | right]; cbn [length] in Hd; [lia | split; [lia | done]].
    + rewrite length_app, Nat2Z.inj_add, length_entryb. lia.
Qed.

(** Overwriting the previous-length field of [x], which follows the deleted
    bytes [D], with one of the size [q] needs, ending where the old one did. *)
Lemma delete_relabel P D q0 q x C p nd : let x' := (negb (q <? ZIP_BIGLEN), x.2) in
  nd = pls x' - pls x -> nd <= zlen D -> p = zlen P + zlen D ->
  exists D', zlen D' = zlen D - nd /\
  store (P ++ D ++ entryb q0 x ++ C) (p - nd) (zipPrevEncodeLength q) = Some (P ++ D' ++ entryb q x' ++ C).
Proof.
  intros x' Hnd HD Hp. set (U := D ++ prevb x.1 q0).
  assert (zlen (prevb x.1 q0) = pls x) as Hpx by apply length_prevb.
  assert (zlen (zipPrevEncodeLength q) = pls x') as Hpl.
  { rewrite zipPrevEncodeLength_prevb. apply length_prevb. }
  assert (length U = length D + length (prevb x.1 q0))%nat as HU by apply length_app.
  set (k := (length D - Z.to_nat nd + Z.to_nat (- nd))%nat). exists (take k U).
  assert (zlen (take k U) = zlen D - nd) as Hk.
  { rewrite length_take. subst k. destruct (pls_cases x), (pls_cases x'); lia. }
  split; [done|].
  assert (P ++ D ++ entryb q0 x ++ C = (P ++ take k U) ++ drop k U ++ payload x.2 ++ C) as ->.
  { unfold entryb. rewrite <- (app_assoc P), (app_assoc (take k U)), take_drop. subst U. rassoc. done. }
  rewrite store_app; [| rewrite length_app; lia |].
  - rewrite zipPrevEncodeLength_prevb. unfold entryb. rassoc. done.
  - rewrite length_drop. lia.
Qed.

(** Dropping the [totlen] bytes of the deleted entries before [x :: l]. *)
Lemma delete_shift n A D q0 q x l p B T fp totlen : let x' := (negb (q <? ZIP_BIGLEN), x.2) in
  let nd := pls x' - pls x in
  let zl := header B T n ++ A ++ D ++ entryb q0 x ++ chain (raw x) l ++ [ZIP_END] in
  wf_head q0 x -> wf_chain (raw x) l -> 0 <= q < 2 ^ 32 -> fp = 10 + zlen A -> zlen D = totlen -> p = fp + totlen ->
  Z.max 0 nd < totlen ->
  B = 11 + zlen A + totlen + raw x + total l -> T = B - 1 - lastraw (x :: l) -> B < 2 ^ 32 ->
  let B' := 11 + zlen A + raw x' + total l in
  (nextdiff ← zipPrevLenByteDiff zl p q;
   let p := p - nextdiff in
   zl ← store zl p (zipPrevEncodeLength q);
   t ← ZIPLIST_TAIL_OFFSET zl;
   zl ← set_ZIPLIST_TAIL_OFFSET zl (u32 (t - totlen));
   tail ← zipEntry zl p;
   e ← rd zl (p + u32 (headersize tail + len tail));
   zl ← (if negb (e =? ZIP_END) then
           t ← ZIPLIST_TAIL_OFFSET zl; set_ZIPLIST_TAIL_OFFSET zl (u32 (t + nextdiff))
         else Some zl);
   bytes ← ZIPLIST_BYTES zl;
   zl ← memmove zl fp p (bytes - p - 1);
   bytes ← ZIPLIST_BYTES zl;
   zl ← ziplistResize junk zl (u32 (bytes - totlen + nextdiff));
   Some (zl, nextdiff))
  = Some (header B' (B' - 1 - lastraw (x' :: l)) n ++ A ++ entryb q x' ++ chain (raw x) l ++ [ZIP_END], nd).
Proof.
  intros x' nd zl Hx Hl Hq Hfp HD Hp Hnd HB HT Hb B'.
  pose proof (raw_pos x). pose proof (raw_pos x'). pose proof (total_nonneg l).
  pose proof (lastraw_bound (x :: l)). rewrite total_cons in *.
  assert (raw x' = raw x + nd) as Hraw by (unfold raw, nd; cbn [snd x']; lia).
  assert (-4 <= nd <= 4) as Hnd4 by (subst nd; destruct (pls_cases x), (pls_cases x'); lia).
  assert (wf_head q x') as Hx'.
  { split; [|by destruct Hx]. split; [lia|]. cbn [fst x']. by rewrite negb_false_iff, Z.ltb_lt. }
  assert (forall T', zlen (header B T' n ++ A) = fp) as HPA by (intros; rewrite length_app; pose proof (length_header B T' n); lia).
  assert (zipPrevLenByteDiff zl p q = Some nd) as ->.
  { subst zl. rewrite !(app_assoc (header B T n)), (app_assoc _ D). rewrite (byteDiff_at _ _ q0 x p); [| | done].
    - subst nd. rewrite zipPrevEncodeLength_prevb. by rewrite length_prevb.
    - rewrite length_app. specialize (HPA T). lia. }
  cbn [mbind option_bind].
  destruct (delete_relabel (header B T n ++ A) D q0 q x (chain (raw x) l ++ [ZIP_END]) p nd) as (D' & HD' & Hst);
    [done | lia | specialize (HPA T); lia |].
  subst zl. rewrite <- !app_assoc in Hst. rewrite Hst. cbn [mbind option_bind]. fold x'.
  rewrite get_tail by lia. cbn [mbind option_bind]. rewrite set_tail. cbn [mbind option_bind].
  set (T1 := T - totlen). rewrite (uwrap_small 32 T1) by lia.
  assert (forall T', zlen (header B T' n ++ A ++ D') = p - nd) as HPD.
  { intros. rewrite app_assoc, length_app. specialize (HPA T'). lia. }
  rewrite (app_assoc A), (app_assoc (header B T1 n)).
  rewrite (zipEntry_at _ (chain (raw x) l ++ [ZIP_END]) q x' (p - nd) (eq_sym (HPD T1)) Hx'). cbn [mbind option_bind].
  rewrite hdr_entry_raw, (uwrap_small 32 (raw x')) by lia.
  destruct (rd_chain ((header B T1 n ++ A ++ D') ++ entryb q x') (raw x) l (p - nd + raw x')) as (b & Hrb & He);
    [rewrite length_app, Nat2Z.inj_add, length_entryb, HPD; lia | done |].
  rewrite <- (app_assoc _ (entryb q x')) in Hrb. rewrite Hrb. cbn [mbind option_bind]. rewrite He. clear Hrb He.
  set (T2 := B' - 1 - lastraw (x' :: l)). rassoc.
  assert ((if negb (bool_decide (l = [])) then
             t ← ZIPLIST_TAIL_OFFSET (header B T1 n ++ A ++ D' ++ entryb q x' ++ chain (raw x) l ++ [ZIP_END]);
             set_ZIPLIST_TAIL_OFFSET (header B T1 n ++ A ++ D' ++ entryb q x' ++ chain (raw x) l ++ [ZIP_END]) (u32 (t + nd))
           else Some (header B T1 n ++ A ++ D' ++ entryb q x' ++ chain (raw x) l ++ [ZIP_END])) =
          Some (header B T2 n ++ (A ++ D' ++ (entryb q x' ++ chain (raw x) l)) ++ [ZIP_END])) as ->.
  { subst T1 T2. destruct l as [|y l].
    - rewrite bool_decide_eq_true_2 by done. cbn [negb].
      replace (B' - 1 - lastraw [x']) with (T - totlen); [rassoc; done|].
      unfold lastraw, total in *. cbn in *. subst B'. unfold total in *. cbn in *. lia.
    - rewrite bool_decide_eq_false_2 by done. cbn [negb]. rewrite lastraw_cons in *.
      rewrite get_tail by lia. cbn [mbind option_bind]. rewrite set_tail.
      rewrite uwrap_small by lia. replace (B' - 1 - lastraw (y :: l)) with (T - totlen + nd) by lia. rassoc. done. }
  cbn [mbind option_bind]. rewrite get_bytes by lia. cbn [mbind option_bind].
  set (X := entryb q x' ++ chain (raw x) l).
  assert (zlen X = raw x' + total l) as HX by (subst X; rewrite length_app, Nat2Z.inj_add, length_entryb, length_chain; lia).
  destruct (memmove_down (header B T2 n ++ A) D' X [ZIP_END] fp (p - nd) (B - (p - nd) - 1)) as (S & HS & HSl);
    [by rewrite HPA | specialize (HPA T2); lia | lia |].
  rewrite <- !app_assoc in HS |- *. rewrite HS. cbn [mbind option_bind].
  rewrite get_bytes by lia. cbn [mbind option_bind].
  rewrite (uwrap_small 32 (B - totlen + nd)) by lia.
  assert (zlen (A ++ X) = B' - 11) as HAX by (rewrite length_app; lia).
  replace (B - totlen + nd) with (11 + zlen (A ++ X)) by lia. rewrite (app_assoc A X S), resize_shrink.
  - rewrite HAX. cbn [mbind option_bind]. replace (11 + (B' - 11)) with B' by lia. subst X. rassoc. done.
  - intros ->. cbn [length] in HSl. lia.
Qed.

(** The deleted entries are longer than what the next one's field grows by. *)
Lemma delete_room q lm x : let x' := (negb (q <? ZIP_BIGLEN), x.2) : sent in
  wf_chain q lm -> lm <> [] -> Z.max 0 (pls x' - pls x) < total lm.
Proof.
  intros x' Hwf Hne. destruct lm as [|y lm]; [done|]. apply wf_chain_head in Hwf as [[[_ Hs] _] _].
  rewrite total_cons. pose proof (total_nonneg lm). pose proof (raw_pos y). pose proof (payload_pos y.2).
  unfold raw, pls in *. cbn [fst x']. destruct (q <? ZIP_BIGLEN) eqn:E; cbn [negb]; zbool; [destruct (x.1); lia|].
  destruct (y.1); [destruct (x.1); lia|]. specialize (Hs eq_refl). lia.
Qed.

Lemma zl_delete_spec zl l1 lm l2 p num : lm <> [] -> deletes (Z.to_nat num) lm l2 ->
  zrep zl (l1 ++ lm ++ l2) -> p = 10 + total l1 -> 11 + total (l1 ++ lm ++ l2) + 4 * zlen l2 < 2 ^ 32 ->
  exists zl', __ziplistDelete junk zl p num = Some zl' /\ zrep zl' (l1 ++ resettle (lastraw l1) l2).
Proof.
  intros Hne Hd (n & -> & Hn & Hwf & Hb0) Hp Hb. set (q := lastraw l1).
  set (B := 11 + total (l1 ++ lm ++ l2)) in *. set (T := 10 + total (l1 ++ lm ++ l2) - lastraw (l1 ++ lm ++ l2)).
  apply wf_chain_app in Hwf as [Hw1 Hw]. fold (lastraw l1) in Hw. fold q in Hw.
  assert (B = 11 + total l1 + total lm + total l2) as HB by (subst B; rewrite !total_app; lia).
  pose proof (total_nonneg l1). pose proof (total_nonneg lm). pose proof (total_nonneg l2). pose proof (lastraw_bound l1).
  rewrite chain_app. fold (lastraw l1). fold q. rewrite <- app_assoc, app_assoc.
  assert (forall B T, zlen (header B T n ++ chain 0 l1) = p) as HPA
    by (intros; rewrite length_app, Nat2Z.inj_add, length_chain, length_header; lia).
  pose proof (delete_skip_spec lm (Z.to_nat num) (header B T n ++ chain 0 l1) q l2 p 0 Hd Hw (eq_sym (HPA B T)) ltac:(lia)) as Hskip.
  unfold __ziplistDelete.
  assert (exists y lm', lm = y :: lm') as (y & lm' & Hlm) by (destruct lm; [done | eauto]).
  assert (zipEntry ((header B T n ++ chain 0 l1) ++ chain q (lm ++ l2) ++ [ZIP_END]) p = Some (hdr_entry q y p)) as ->.
  { rewrite Hlm in *. cbn [app chain]. rewrite <- (app_assoc (entryb q y)). apply zipEntry_at; [done|].
    by apply wf_chain_head in Hw as [? _]. }
  cbn [mbind option_bind]. rewrite Hskip. cbn [mbind option_bind]. clear Hskip.
  pose proof (hdr_entry_fields q y p) as (_ & -> & -> & _).
  apply wf_chain_app in Hw as [Hwm Hw2]. set (q0 := default q (raw <$> list.last lm)) in *.
  pose proof (total_length lm) as Htl. assert (0 < zlen lm) by (rewrite Hlm; cbn [length]; lia). clear y lm' Hlm.
  replace (p + total lm - p) with (total lm) by lia. rewrite (uwrap_small 32 (total lm)) by lia.
  rewrite (proj2 (Z.gtb_lt (total lm) 0)) by lia.
  rewrite chain_app. fold q0. rewrite <- (app_assoc (chain q lm)).
  destruct (rd_chain ((header B T n ++ chain 0 l1) ++ chain q lm) q0 l2 (p + total lm)) as (b & Hrb & He);
    [rewrite length_app, Nat2Z.inj_add, HPA, length_chain; lia | done |].
  rewrite <- (app_assoc _ (chain q lm)) in Hrb. rewrite Hrb. cbn [mbind option_bind]. rewrite He. clear Hrb He.
  pose proof (resettle_total q l2) as Hrt.
  assert (forall n', count_ok n' (l1 ++ resettle q l2) -> let l' := resettle q l2 in let B' := 11 + total l1 + total l' in
    zrep (header B' (B' - 1 - lastraw (l1 ++ l')) n' ++ chain 0 l1 ++ chain q l' ++ [ZIP_END]) (l1 ++ l')) as Hrep.
  { intros n' Hn' l' B'. exists n'. split; [|split; [done|split]].
    - rewrite chain_app, total_app. fold (lastraw l1). fold q. rassoc. f_equal. f_equal; subst B'; lia.
    - apply wf_chain_app. split; [done|]. fold (lastraw l1). fold q. apply resettle_wf with q0; [done | lia | lia].
    - rewrite total_app. subst l'. lia. }
  cbv zeta in Hrep.
  destruct l2 as [|x l].
  - rewrite bool_decide_eq_true_2 by done. cbn [negb chain app]. rassoc. rewrite set_tail. cbn [mbind option_bind].
    rewrite get_bytes by lia. cbn [mbind option_bind]. change (total []) with 0 in *. rewrite !(uwrap_small 32) by lia.
    replace (B - total lm + 0) with (11 + zlen (chain 0 l1)) by (rewrite length_chain; lia).
    rewrite resize_shrink by (intros E%app_eq_nil; destruct E; done). cbn [mbind option_bind].
    edestruct (incr_length_spec (11 + zlen (chain 0 l1)) (p - q) n (chain 0 l1 ++ [ZIP_END]) _ l1 (- (0 + zlen lm)) Hn) as (n' & -> & Hc);
      [rewrite !length_app; cbn [length]; lia|].
    cbn [mbind option_bind]. change (0 =? 0) with true. cbn [negb]. eexists. split; [done|].
    cbn [resettle]. rewrite app_nil_r. specialize (Hrep n'). cbn [resettle chain app] in Hrep.
    rewrite !app_nil_r in Hrep. change (total []) with 0 in Hrep. rewrite length_chain.
    replace (11 + total l1) with (11 + total l1 + 0) by lia.
    replace (p - q) with (11 + total l1 + 0 - 1 - lastraw l1) by (subst q; lia). apply Hrep. apply Hc. lia.
  - rewrite bool_decide_eq_false_2 by done. cbn [negb chain]. rassoc.
    set (x' := (negb (q <? ZIP_BIGLEN), x.2) : sent). set (nd := pls x' - pls x).
    apply wf_chain_head in Hw2 as [Hx Hl]. rewrite total_cons in *. cbn [length] in *. pose proof (raw_pos x). pose proof (total_nonneg l).
    assert (raw x' = raw x + nd) as Hraw by (unfold raw, nd; cbn [snd x']; lia).
    pose proof (raw_resize (negb (q <? ZIP_BIGLEN)) x) as Hrr. fold x' in Hrr.
    pose proof (delete_room q lm x Hwm Hne) as Hroom. cbv zeta in Hroom. fold x' in Hroom.
    assert (T = B - 1 - lastraw (x :: l)) as HT.
    { subst T B. rewrite app_assoc, lastraw_app. lia. }
    pose proof (delete_shift n (chain 0 l1) (chain q lm) q0 q x l (p + total lm) B T p (total lm)) as Hs.
    cbv zeta in Hs. fold x' in Hs. fold nd in Hs. rewrite !length_chain in Hs.
    specialize (Hs Hx Hl ltac:(lia) ltac:(lia) eq_refl eq_refl Hroom ltac:(lia) HT ltac:(lia)).
    do 6 (apply bind_Some in Hs as (? & -> & Hs); cbn [mbind option_bind]).
    apply bind_Some in Hs as (? & -> & Hs); cbn [mbind option_bind].
    do 4 (apply bind_Some in Hs as (? & -> & Hs); cbn [mbind option_bind]).
    apply (inj Some), pair_equal_spec in Hs as [-> ->].
    match goal with |- context [header ?b ?t n ++ ?X] =>
      destruct (incr_length_spec b t n X _ (l1 ++ resettle q (x :: l)) (- (0 + zlen lm)) Hn) as (n' & -> & Hc) end.
    { rewrite !length_app, resettle_length, Nat2Z.inj_add. lia. }
    cbn [mbind option_bind].
    pose proof (cascade_settle n' (chain 0 l1) q x l p (11 + total l1 + raw x' + total l) nd) as Hcs.
    cbv zeta in Hcs. fold x' in Hcs. rewrite length_chain in Hcs.
    rewrite Hcs; [| lia | lia | by destruct Hx | done | done | lia | lia]. eexists. split; [done|].
    replace (lastraw (resettle q (x :: l))) with (lastraw (l1 ++ resettle q (x :: l))) by (cbn [resettle]; apply lastraw_app).
    apply Hrep, Hc. lia.
Qed.

End Upd.
