(* ===== verification/ZiplistOps.v ===== *)
(** * Ziplists: reading and the public operations

    [Ziplist.v] translates ziplist.c, [ZiplistRep.v] says which byte images hold
    a list of entries and [ZiplistUpd.v] follows the updates byte by byte.  Here
    the public functions are related to plain lists: [zholds zl es] says that
    the image [zl] holds the entries [es]. *)
From Stdlib Require Import Lia ZArith.
From stdpp Require Import base numbers list tactics option strings.
From S2P Require Import Prelude Util Ziplist ZiplistRep ZiplistUpd.

#[local] Open Scope Z_scope.

(** The string an entry stands for. *)
Definition text (e : zent) : list Z := match e with ZStr s => s | ZInt v => Dec.dec v end.

(** The address of entry [i]. *)
Definition pos (l : list sent) (i : nat) : Z := 10 + total (take i l).

(** The first entry has no predecessor, and its field is the one-byte one. *)
Definition head_small (l : list sent) : Prop := match l with [] => True | x :: _ => x.1 = false end.

Definition zholds (zl : list Z) (es : list zent) : Prop :=
  exists l, zrep zl l /\ head_small l /\ es = snd <$> l.

(** ** Splitting an image at an entry *)

Lemma zrep_split zl l1 l2 : zrep zl (l1 ++ l2) ->
  exists A, zl = A ++ chain (lastraw l1) l2 ++ [ZIP_END] /\ zlen A = 10 + total l1 /\
    wf_chain (lastraw l1) l2 /\ 11 + total l1 + total l2 < 2 ^ 32.
Proof.
  intros (n & -> & _ & Hwf & Hb). set (h := header _ _ n). exists (h ++ chain 0 l1).
  rewrite chain_app. fold (lastraw l1). apply wf_chain_app in Hwf as [_ Hw]. fold (lastraw l1) in Hw.
  rewrite total_app in Hb. split_and!; [by rewrite <- !app_assoc | | done | lia].
  rewrite length_app, Nat2Z.inj_add, length_chain. subst h. rewrite length_header. lia.
Qed.

Lemma zrep_at zl l i x : zrep zl l -> l !! i = Some x ->
  exists A, zl = A ++ entryb (lastraw (take i l)) x ++ chain (raw x) (drop (S i) l) ++ [ZIP_END] /\
    zlen A = pos l i /\ wf_head (lastraw (take i l)) x /\ wf_chain (raw x) (drop (S i) l) /\ raw x < 2 ^ 32.
Proof.
  intros Hz Hi. rewrite <- (take_drop_middle l i x Hi) in Hz.
  apply zrep_split in Hz as (A & -> & HA & Hw & Hb). apply wf_chain_head in Hw as [Hx Hl].
  exists A. cbn [chain]. rassoc. rewrite total_cons in Hb.
  pose proof (total_nonneg (take i l)). pose proof (total_nonneg (drop (S i) l)).
  split_and!; [done | done | done | done | lia].
Qed.

Lemma zrep_end zl l : zrep zl l -> exists A, zl = A ++ [ZIP_END] /\ zlen A = pos l (length l).
Proof.
  intros Hz. rewrite <- (app_nil_r l) in Hz. apply zrep_split in Hz as (A & -> & HA & _).
  exists A. split; [done|]. unfold pos. by rewrite firstn_all.
Qed.

Lemma pos_S l i x : l !! i = Some x -> pos l (S i) = pos l i + raw x.
Proof.
  intros Hi. unfold pos. rewrite (take_S_r _ _ _ Hi), total_app.
  change (total [x]) with (raw x + 0). lia.
Qed.

Lemma rd_pos zl l i : zrep zl l -> (i <= length l)%nat ->
  exists b, rd zl (pos l i) = Some b /\ (b =? ZIP_END) = bool_decide (i = length l).
Proof.
  intros Hz Hi. destruct (decide (i = length l)) as [->|Hne].
  - destruct (zrep_end _ _ Hz) as (A & -> & <-). exists ZIP_END. rewrite rd_app. by rewrite bool_decide_eq_true_2.
  - destruct (lookup_lt_is_Some_2 l i) as [x Hx]; [lia|].
    destruct (zrep_at _ _ _ _ Hz Hx) as (A & -> & <- & Hh & _).
    destruct (rd_entry A (chain (raw x) (drop (S i) l) ++ [ZIP_END]) _ x _ eq_refl Hh) as (b & -> & Hb & _).
    exists b. rewrite bool_decide_eq_false_2 by done. split; [done|]. by apply Z.eqb_neq.
Qed.

Lemma rawlen_pos zl l i x : zrep zl l -> l !! i = Some x -> zipRawEntryLength zl (pos l i) = Some (raw x).
Proof.
  intros Hz Hx. destruct (zrep_at _ _ _ _ Hz Hx) as (A & -> & <- & Hh & _ & Hr). by apply rawlen_at.
Qed.

Lemma prevlen_pos zl l i x : zrep zl l -> l !! i = Some x ->
  ZIP_DECODE_PREVLEN zl (pos l i) = Some (pls x, lastraw (take i l)).
Proof.
  intros Hz Hx. destruct (zrep_at _ _ _ _ Hz Hx) as (A & -> & <- & Hh & _ & Hr). by apply prevlen_at.
Qed.

Lemma lastraw_take l i x : l !! i = Some x -> lastraw (take (S i) l) = raw x.
Proof. intros Hi. rewrite (take_S_r _ _ _ Hi). by rewrite lastraw_app. Qed.

Lemma length_zrep zl l : zrep zl l -> (length l < length zl)%nat.
Proof.
  intros (n & -> & _). rewrite !length_app. pose proof (length_chain 0 l). pose proof (total_length l). cbn [length]. lia.
Qed.

(** ** Walks *)

Lemma index_fwd_spec zl l : zrep zl l -> forall fuel i index, (length l - i < fuel)%nat -> (i <= length l)%nat -> 0 <= index ->
  ziplistIndex_fwd fuel zl (pos l i) index =
    if index <? zlen l - Z.of_nat i then Some (pos l (i + Z.to_nat index), -1)
    else Some (pos l (length l), index - (zlen l - Z.of_nat i)).
Proof.
  intros Hz fuel. induction fuel as [|fuel IH]; intros i index Hf Hi Hidx; [lia|]. cbn [ziplistIndex_fwd].
  destruct (rd_pos zl l i Hz Hi) as (b & -> & Hb). cbn [mbind option_bind]. rewrite Hb.
  destruct (decide (i = length l)) as [->|Hne].
  - rewrite bool_decide_eq_true_2 by done. zfalse (index <? zlen l - zlen l). do 2 f_equal. lia.
  - rewrite bool_decide_eq_false_2 by done. destruct (index =? 0) eqn:E; zbool.
    + subst. ztrue (0 <? zlen l - Z.of_nat i). rewrite Nat.add_0_r. done.
    + destruct (lookup_lt_is_Some_2 l i) as [x Hx]; [lia|].
      rewrite (rawlen_pos _ _ _ _ Hz Hx). cbn [mbind option_bind]. rewrite <- (pos_S _ _ _ Hx).
      rewrite IH by lia. destruct (index <? zlen l - Z.of_nat i) eqn:E2; zbool.
      * ztrue (index - 1 <? zlen l - Z.of_nat (S i)). do 3 f_equal. lia.
      * zfalse (index - 1 <? zlen l - Z.of_nat (S i)). do 2 f_equal. lia.
Qed.

Lemma index_bwd_spec zl l : zrep zl l -> forall fuel i index, (i < fuel)%nat -> (i < length l)%nat -> 0 <= index ->
  ziplistIndex_bwd fuel zl (pos l i) (lastraw (take i l)) index =
    if index <? Z.of_nat i then Some (pos l (i - Z.to_nat index), -1)
    else Some (pos l 0, index - Z.of_nat i).
Proof.
  intros Hz fuel. induction fuel as [|fuel IH]; intros i index Hf Hi Hidx; [lia|]. cbn [ziplistIndex_bwd].
  destruct i as [|i].
  - cbn [take]. change (lastraw []) with 0. change (negb (0 >? 0)) with true. cbn iota.
    zfalse (index <? Z.of_nat 0). do 2 f_equal. lia.
  - destruct (lookup_lt_is_Some_2 l i) as [x Hx]; [lia|]. rewrite (lastraw_take _ _ _ Hx).
    pose proof (raw_pos x). rewrite (proj2 (Z.gtb_lt (raw x) 0)) by lia. cbn [negb].
    destruct (index =? 0) eqn:E; zbool.
    + subst. ztrue (0 <? Z.of_nat (S i)). done.
    + rewrite (pos_S _ _ _ Hx). replace (pos l i + raw x - raw x) with (pos l i) by lia.
      rewrite (prevlen_pos _ _ _ _ Hz Hx). cbn [mbind option_bind]. rewrite IH by lia.
      destruct (index <? Z.of_nat (S i)) eqn:E2; zbool.
      * ztrue (index - 1 <? Z.of_nat i). do 3 f_equal. lia.
      * zfalse (index - 1 <? Z.of_nat i). do 2 f_equal. lia.
Qed.

Lemma tail_pos zl l : zrep zl l -> ZIPLIST_ENTRY_TAIL zl = Some (pos l (pred (length l))).
Proof.
  intros (n & -> & _ & _ & Hb). unfold ZIPLIST_ENTRY_TAIL. pose proof (lastraw_bound l). rewrite get_tail by lia.
  f_equal. unfold pos. destruct l as [|x l _] using rev_ind; [done|].
  rewrite length_app, lastraw_app. cbn [length]. rewrite Nat.add_1_r. cbn [pred].
  rewrite take_app_length, total_app. change (total [x]) with (raw x + 0). change (lastraw [x]) with (raw x). lia.
Qed.

Lemma zl_index_spec zl l index : zrep zl l -> ziplistIndex zl index = Some (pos l <$> list_index (length l) index).
Proof.
  intros Hz. unfold ziplistIndex, list_index. pose proof (length_zrep _ _ Hz) as Hlen.
  destruct (index <? 0) eqn:E0; zbool.
  - rewrite (tail_pos _ _ Hz). cbn [mbind option_bind].
    destruct (rd_pos zl l (pred (length l)) Hz ltac:(lia)) as (b & Hrb & Hb). rewrite Hrb. cbn [mbind option_bind]. rewrite Hb.
    destruct (decide (l = [])) as [->|Hne].
    + cbn [length pred] in *. rewrite bool_decide_eq_true_2 by done. cbn [negb mbind option_bind]. rewrite Hrb. cbn [mbind option_bind].
      rewrite Hb. ztrue (Z.of_nat 0 <? - index). done.
    + assert (0 < length l)%nat by (destruct l; [done | cbn [length]; lia]).
      rewrite bool_decide_eq_false_2 by lia. cbn [negb].
      destruct (lookup_lt_is_Some_2 l (pred (length l))) as [x Hx]; [lia|].
      rewrite (prevlen_pos _ _ _ _ Hz Hx). cbn [mbind option_bind]. rewrite index_bwd_spec by (done || lia).
      destruct (zlen l <? - index) eqn:E1; zbool.
      * zfalse (- index - 1 <? Z.of_nat (pred (length l))). cbn [mbind option_bind].
        destruct (rd_pos zl l 0 Hz ltac:(lia)) as (c & -> & Hc). cbn [mbind option_bind]. rewrite Hc.
        rewrite (proj2 (Z.gtb_lt _ _)) by lia. by rewrite orb_true_r.
      * destruct (- index - 1 <? Z.of_nat (pred (length l))) eqn:E2; zbool; cbn [mbind option_bind].
        -- destruct (rd_pos zl l (pred (length l) - Z.to_nat (- index - 1)) Hz ltac:(lia)) as (c & -> & Hc).
           cbn [mbind option_bind]. rewrite Hc, bool_decide_eq_false_2 by lia. cbn. do 3 f_equal. lia.
        -- destruct (rd_pos zl l 0 Hz ltac:(lia)) as (c & -> & Hc).
           cbn [mbind option_bind]. rewrite Hc, bool_decide_eq_false_2 by lia.
           replace (- index - 1 - Z.of_nat (pred (length l))) with 0 by lia. cbn. do 3 f_equal. lia.
  - change (ZIPLIST_ENTRY_HEAD zl) with (pos l 0). rewrite index_fwd_spec by (done || lia).
    rewrite Z.sub_0_r. destruct (index <? zlen l) eqn:E1; zbool; cbn [mbind option_bind].
    + destruct (rd_pos zl l (0 + Z.to_nat index) Hz ltac:(lia)) as (c & -> & Hc). cbn [mbind option_bind].
      rewrite Hc, bool_decide_eq_false_2 by lia. done.
    + destruct (rd_pos zl l (length l) Hz ltac:(lia)) as (c & -> & Hc). cbn [mbind option_bind].
      rewrite Hc, bool_decide_eq_true_2 by lia. done.
Qed.

(** ** Reading an entry *)

(** The data bytes of an entry, after its header. *)
Definition body (e : zent) : list Z := match e with ZStr s => s | ZInt v => int_bytes v end.

Lemma payload_body e : exists h, payload e = h ++ body e /\ zlen h = (ent_hdr e).1.2 /\ zlen (body e) = (ent_hdr e).2.
Proof.
  destruct e as [s|v]; cbn [payload body ent_hdr].
  - exists (zipEncodeLength 0 (zlen s)). split; [done|]. unfold zipEncodeLength.
    change (ZIP_IS_STR 0) with true. cbn iota. by repeat case_goal.
  - exists [zipValueEncoding v]. split; [done|]. by rewrite length_int_bytes.
Qed.

Lemma ent_hdr_str e : ZIP_IS_STR (ent_hdr e).1.1 = match e with ZStr _ => true | ZInt _ => false end.
Proof.
  destruct e as [s|v]; cbn [ent_hdr]; [by repeat case_goal | apply not_str_int].
Qed.

Lemma zrep_body zl l i x : zrep zl l -> l !! i = Some x ->
  exists A C, zl = A ++ body x.2 ++ C /\ zlen A = pos l i + pls x + (ent_hdr x.2).1.2 /\
    zlen (body x.2) = (ent_hdr x.2).2 /\ wf_ent x.2.
Proof.
  intros Hz Hx. destruct (zrep_at _ _ _ _ Hz Hx) as (A & -> & HA & [_ He] & _).
  destruct (payload_body x.2) as (h & Hp & Hh & Hb). unfold entryb. rewrite Hp.
  exists (A ++ prevb x.1 (lastraw (take i l)) ++ h), (chain (raw x) (drop (S i) l) ++ [ZIP_END]).
  split_and!; [by rewrite <- !app_assoc | | done | done].
  rewrite !length_app, !Nat2Z.inj_add, length_prevb. unfold pls. lia.
Qed.

Lemma entry_pos zl l i x : zrep zl l -> l !! i = Some x ->
  zipEntry zl (pos l i) = Some (hdr_entry (lastraw (take i l)) x (pos l i)).
Proof.
  intros Hz Hx. destruct (zrep_at _ _ _ _ Hz Hx) as (A & -> & <- & Hh & _). by apply zipEntry_at.
Qed.

Lemma load_body zl l i x q : zrep zl l -> l !! i = Some x -> q = pos l i + pls x + (ent_hdr x.2).1.2 ->
  match x.2 with
  | ZStr s => load zl q (zlen s) = Some s
  | ZInt v => zipLoadInteger zl q (zipValueEncoding v) = Some v
  end.
Proof.
  intros Hz Hx ->. destruct (zrep_body _ _ _ _ Hz Hx) as (A & C & -> & <- & Hb & Hwf).
  destruct x as [big [s|v]]; cbn [snd body] in *; [by apply load_app | by apply load_int_bytes].
Qed.

Lemma get_spec zl l i : zrep zl l -> (i <= length l)%nat -> ziplistGet zl (pos l i) = Some (snd <$> l !! i).
Proof.
  intros Hz Hi. unfold ziplistGet. destruct (rd_pos zl l i Hz Hi) as (b & -> & Hb0). cbn [mbind option_bind]. rewrite Hb0.
  destruct (l !! i) as [x|] eqn:Hx.
  - pose proof (lookup_lt_Some _ _ _ Hx). rewrite bool_decide_eq_false_2 by lia.
    rewrite (entry_pos _ _ _ _ Hz Hx). cbn [mbind option_bind].
    destruct (hdr_entry_fields (lastraw (take i l)) x (pos l i)) as (_ & _ & _ & -> & -> & ->).
    pose proof (load_body _ _ _ _ (pos l i + (pls x + (ent_hdr x.2).1.2)) Hz Hx ltac:(lia)) as Hb.
    rewrite ent_hdr_str. destruct x as [big [s|v]]; cbn [snd] in *.
    + replace (ent_hdr (ZStr s)).2 with (zlen s) by (cbn [ent_hdr]; by repeat case_goal). by rewrite Hb.
    + cbn [ent_hdr fst snd] in *. by rewrite Hb.
  - apply lookup_ge_None in Hx. by rewrite bool_decide_eq_true_2 by lia.
Qed.

Lemma udec_length n v : zlen (Dec.udec n v) <= Z.of_nat (S n) /\ (n <> O -> 1 <= zlen (Dec.udec n v)).
Proof.
  revert v; induction n as [|n IH]; intros w; unfold Dec.udec; fold Dec.udec.
  - split; [|done]. destruct (w <? 10); cbn [length]; lia.
  - destruct (w <? 10); [cbn [length]; lia|]. rewrite length_app. destruct (IH (w / 10)). cbn [length]. lia.
Qed.

Lemma dec_length v : 1 <= zlen (Dec.dec v) <= 21.
Proof.
  unfold Dec.dec. destruct (v <? 0).
  - destruct (udec_length 19 (- v)). cbn [length]. lia.
  - destruct (udec_length 19 v). lia.
Qed.

(** Encoding recognises exactly the canonical decimal notation of short strings. *)
Lemma tryEncoding_dec s : match zipTryEncoding s with
  | Some (v, e) => in_s64 v /\ s = Dec.dec v /\ e = zipValueEncoding v
  | None => forall v, in_s64 v -> s <> Dec.dec v
  end.
Proof.
  unfold zipTryEncoding. destruct ((zlen s >=? 32) || (zlen s =? 0)) eqn:E.
  - intros v Hv ->. pose proof (dec_length v). zbool. lia.
  - destruct (Dec.string2ll s) as [v|] eqn:Es.
    + apply dec_string2ll in Es as [Hv ->]. done.
    + intros v Hv ->. rewrite (proj2 (dec_string2ll _ v)) in Es; done.
Qed.

Lemma text_ent_of s : text (ent_of s) = s.
Proof.
  pose proof (tryEncoding_dec s) as H. unfold ent_of. destruct (zipTryEncoding s) as [[v e]|]; [|done].
  by destruct H as (_ & -> & _).
Qed.

Lemma compare_spec zl l i s : zrep zl l -> (i <= length l)%nat ->
  ziplistCompare zl (pos l i) s = Some (bool_decide ((fun x => text x.2) <$> l !! i = Some s)).
Proof.
  intros Hz Hi. unfold ziplistCompare. destruct (rd_pos zl l i Hz Hi) as (b & -> & Hb0). cbn [mbind option_bind]. rewrite Hb0.
  destruct (l !! i) as [x|] eqn:Hx; cbn [fmap option_fmap option_map].
  - pose proof (lookup_lt_Some _ _ _ Hx). rewrite bool_decide_eq_false_2 by lia.
    rewrite (entry_pos _ _ _ _ Hz Hx). cbn [mbind option_bind].
    destruct (hdr_entry_fields (lastraw (take i l)) x (pos l i)) as (_ & _ & _ & -> & -> & ->).
    pose proof (load_body _ _ _ _ (pos l i + (pls x + (ent_hdr x.2).1.2)) Hz Hx ltac:(lia)) as Hb.
    destruct (zrep_body _ _ _ _ Hz Hx) as (_ & _ & _ & _ & _ & Hwf).
    rewrite ent_hdr_str. destruct x as [big [t|v]]; cbn [snd text] in *.
    + replace (ent_hdr (ZStr t)).2 with (zlen t) by (cbn [ent_hdr]; by repeat case_goal).
      destruct (zlen t =? zlen s) eqn:E; zbool.
      * rewrite E in Hb. rewrite Hb. cbn [mbind option_bind]. unfold bytes_eq. f_equal. apply bool_decide_ext. naive_solver.
      * rewrite bool_decide_eq_false_2; [done|]. intros [= ->]. done.
    + cbn [ent_hdr fst snd] in *. pose proof (tryEncoding_dec s) as He.
      destruct (zipTryEncoding s) as [[w e]|].
      * rewrite Hb. cbn [mbind option_bind]. destruct He as (Hw & -> & _). f_equal.
        destruct (v =? w) eqn:E; zbool; [subst; by rewrite bool_decide_eq_true_2|].
        rewrite bool_decide_eq_false_2; [done|]. intros [= Hd]. by apply dec_inj in Hd.
      * rewrite bool_decide_eq_false_2; [done|]. intros [= Hd]. by apply (He v Hwf).
  - apply lookup_ge_None in Hx. by rewrite bool_decide_eq_true_2 by lia.
Qed.

Lemma zl_next_spec zl l i : zrep zl l -> (i <= length l)%nat ->
  ziplistNext zl (pos l i) = Some (if bool_decide (S i < length l)%nat then Some (pos l (S i)) else None).
Proof.
  intros Hz Hi. unfold ziplistNext. destruct (rd_pos zl l i Hz Hi) as (b & -> & Hb0). cbn [mbind option_bind]. rewrite Hb0.
  destruct (decide (i = length l)) as [->|Hne].
  - rewrite bool_decide_eq_true_2 by done. by rewrite bool_decide_eq_false_2 by lia.
  - rewrite bool_decide_eq_false_2 by done. destruct (lookup_lt_is_Some_2 l i) as [x Hx]; [lia|].
    rewrite (rawlen_pos _ _ _ _ Hz Hx). cbn [mbind option_bind]. rewrite <- (pos_S _ _ _ Hx).
    destruct (rd_pos zl l (S i) Hz ltac:(lia)) as (c & -> & Hc0). cbn [mbind option_bind]. rewrite Hc0.
    destruct (decide (S i = length l)); [rewrite bool_decide_eq_true_2, bool_decide_eq_false_2 by lia|
      rewrite bool_decide_eq_false_2, bool_decide_eq_true_2 by lia]; done.
Qed.

Lemma prev_spec zl l i : zrep zl l -> (i <= length l)%nat ->
  ziplistPrev zl (pos l i) = Some (pos l <$> match i with O => None | S j => Some j end).
Proof.
  intros Hz Hi. unfold ziplistPrev. destruct (rd_pos zl l i Hz Hi) as (b & -> & Hb0). cbn [mbind option_bind]. rewrite Hb0.
  destruct (decide (i = length l)) as [->|Hne].
  - rewrite bool_decide_eq_true_2 by done. rewrite (tail_pos _ _ Hz). cbn [mbind option_bind].
    destruct (rd_pos zl l (pred (length l)) Hz ltac:(lia)) as (c & -> & Hc0). cbn [mbind option_bind]. rewrite Hc0.
    destruct (length l) as [|n]; cbn [pred].
    + by rewrite bool_decide_eq_true_2.
    + by rewrite bool_decide_eq_false_2 by lia.
  - rewrite bool_decide_eq_false_2 by done. destruct (lookup_lt_is_Some_2 l i) as [x Hx]; [lia|].
    rewrite (prevlen_pos _ _ _ _ Hz Hx). change (ZIPLIST_ENTRY_HEAD zl) with 10. cbn [mbind option_bind].
    destruct i as [|i]; [done|]. destruct (lookup_lt_is_Some_2 l i) as [y Hy]; [lia|].
    rewrite (lastraw_take _ _ _ Hy). pose proof (raw_pos y). rewrite (proj2 (Z.gtb_lt _ _)) by lia.
    rewrite (pos_S _ _ _ Hy). assert (10 <= pos l i) by (unfold pos; pose proof (total_nonneg (take i l)); lia).
    zfalse (pos l i + raw y =? 10). cbn. do 2 f_equal. lia.
Qed.

(** ** Searching *)

(** Entry [k] is examined by a search that stands at entry [i] with [cnt]
    entries still to be skipped. *)
Definition examined (skip i cnt k : Z) : Prop := i + cnt <= k /\ (k - i - cnt) mod (skip + 1) = 0.

Lemma examined_here skip i k : 0 <= skip -> examined skip i 0 k <-> k = i \/ examined skip (i + 1) skip k.
Proof.
  intros Hs. unfold examined. split.
  - intros [Hk Hm]. destruct (decide (k = i)); [by left|]. right.
    assert (skip + 1 <= k - i - 0) as Hge.
    { destruct (decide (skip + 1 <= k - i - 0)); [done|]. rewrite Z.mod_small in Hm by lia. lia. }
    split; [lia|]. replace (k - (i + 1) - skip) with (k - i - 0 + (-1) * (skip + 1)) by lia.
    by rewrite Z.mod_add by lia.
  - intros [->|[Hk Hm]].
    + split; [lia|]. by replace (i - i - 0) with 0 by lia.
    + split; [lia|]. replace (k - i - 0) with (k - (i + 1) - skip + 1 * (skip + 1)) by lia. by rewrite Z.mod_add by lia.
Qed.

Lemma examined_skip skip i cnt k : 0 < cnt -> examined skip i cnt k <-> examined skip (i + 1) (cnt - 1) k.
Proof.
  intros. unfold examined. replace (k - (i + 1) - (cnt - 1)) with (k - i - cnt) by lia.
  replace (i + 1 + (cnt - 1)) with (i + cnt) by lia. done.
Qed.

(** What a search from entry [i] should return. *)
Definition find_result (l : list sent) (s : list Z) (skip i cnt : Z) (r : option Z) : Prop :=
  match r with
  | Some p => exists j x, p = pos l j /\ l !! j = Some x /\ text x.2 = s /\ i <= Z.of_nat j /\ examined skip i cnt (Z.of_nat j) /\
      forall k y, i <= Z.of_nat k -> (k < j)%nat -> examined skip i cnt (Z.of_nat k) -> l !! k = Some y -> text y.2 <> s
  | None => forall k y, i <= Z.of_nat k -> examined skip i cnt (Z.of_nat k) -> l !! k = Some y -> text y.2 <> s
  end.

Lemma find_result_step l s skip i cnt cnt' r x :
  l !! i = Some x ->
  (forall k, examined skip (Z.of_nat i) cnt k <-> (k = Z.of_nat i /\ cnt = 0) \/ examined skip (Z.of_nat (S i)) cnt' k) ->
  (cnt = 0 -> text x.2 <> s) -> 0 <= cnt' ->
  find_result l s skip (Z.of_nat (S i)) cnt' r -> find_result l s skip (Z.of_nat i) cnt r.
Proof.
  intros Hx Hex Hne Hc. 
  assert (forall k y, Z.of_nat i <= Z.of_nat k -> examined skip (Z.of_nat i) cnt (Z.of_nat k) -> l !! k = Some y ->
    text y.2 = s -> Z.of_nat (S i) <= Z.of_nat k /\ examined skip (Z.of_nat (S i)) cnt' (Z.of_nat k)) as Hk.
  { intros k y Hik Hk Hy Ht. apply Hex in Hk as [[Hk Hc0]|Hk].
    - apply Nat2Z.inj in Hk as ->. rewrite Hx in Hy. injection Hy as ->. by destruct (Hne Hc0).
    - split; [|done]. destruct Hk. lia. }
  destruct r as [p|]; cbn [find_result].
  - intros (j & y & Hp & Hj & Ht & Hij & He & Hall). exists j, y. split_and!; try done; [lia | by apply Hex; right |].
    intros k z Hik Hkj Hek Hz Hst. destruct (Hk k z) as [Hk1 Hk2]; try done. by apply (Hall k z).
  - intros Hall k z Hik Hek Hz Hst. destruct (Hk k z) as [Hk1 Hk2]; try done. by apply (Hall k z).
Qed.

Definition venc_ok (s : list Z) (venc vll : Z) : Prop :=
  venc = 0 \/ (venc = 255 /\ zipTryEncoding s = None) \/ (venc <> 255 /\ venc <> 0 /\ zipTryEncoding s = Some (vll, venc)).

Lemma venc_compute s venc vll : venc_ok s venc vll ->
  exists vll' venc', (if venc =? 0 then match zipTryEncoding s with Some (v, e) => (v, e) | None => (vll, 255) end
    else (vll, venc)) = (vll', venc') /\ venc_ok s venc' vll' /\
    match zipTryEncoding s with Some (v, _) => vll' = v /\ (venc' =? 255) = false | None => (venc' =? 255) = true end.
Proof.
  unfold venc_ok. intros [->|[[-> H]|(H1 & H2 & H)]].
  - change (0 =? 0) with true. pose proof (tryEncoding_dec s) as Hd. destruct (zipTryEncoding s) as [[v e]|] eqn:E.
    + exists v, e. destruct Hd as (_ & _ & ->). pose proof (valueEncoding_range v). split; [done|].
      split; [right; right; split_and!; [lia | lia | done] | split; [done|lia]].
    + exists vll, 255. naive_solver.
  - rewrite H. change (255 =? 0) with false. exists vll, 255. naive_solver.
  - rewrite H, (proj2 (Z.eqb_neq venc 0)) by done. exists vll, venc. split; [done|]. split; [naive_solver|].
    split; [done|]. by apply Z.eqb_neq.
Qed.

Lemma find_loop_spec zl l s skip : zrep zl l -> 0 <= skip -> forall fuel i cnt venc vll,
  (length l - i < fuel)%nat -> (i <= length l)%nat -> 0 <= cnt -> venc_ok s venc vll ->
  exists r, ziplistFind_loop fuel zl (pos l i) s skip cnt venc vll = Some r /\ find_result l s skip (Z.of_nat i) cnt r.
Proof.
  intros Hz Hs fuel. induction fuel as [|fuel IH]; intros i cnt venc vll Hf Hi Hc Hv; [lia|]. cbn [ziplistFind_loop].
  destruct (rd_pos zl l i Hz Hi) as (b & -> & Hb0). cbn [mbind option_bind]. rewrite Hb0.
  destruct (l !! i) as [x|] eqn:Hx.
  2:{ apply lookup_ge_None in Hx. rewrite bool_decide_eq_true_2 by lia. eexists. split; [done|].
      intros k y Hk _ Hy. apply lookup_lt_Some in Hy. lia. }
  pose proof (lookup_lt_Some _ _ _ Hx). rewrite bool_decide_eq_false_2 by lia.
  pose proof (pos_S l i x Hx) as Hp.
  pose proof (load_body _ _ _ _ (pos l i + pls x + (ent_hdr x.2).1.2) Hz Hx eq_refl) as Hload.
  destruct (zrep_at _ _ _ _ Hz Hx) as (A & Hzl & HA & Hh & _).
  assert (ZIP_DECODE_PREVLENSIZE zl (pos l i) = Some (pls x)) as -> by (rewrite Hzl; by apply prevlensize_at).
  cbn [mbind option_bind].
  assert (ZIP_DECODE_LENGTH zl (pos l i + pls x) = Some (ent_hdr x.2)) as ->
    by (rewrite Hzl; by apply decode_length_at).
  cbn [mbind option_bind].
  pose proof (ent_hdr_size x.2) as Hsz. pose proof (ent_hdr_str x.2) as Hstr.
  assert (pos l i + pls x + (ent_hdr x.2).1.2 + (ent_hdr x.2).2 = pos l (S i)) as Hnext.
  { rewrite Hp. unfold raw. destruct (ent_hdr x.2) as [[e1 e2] e3]. cbn. lia. }
  assert (forall venc vll cnt', venc_ok s venc vll -> 0 <= cnt' -> exists r, ziplistFind_loop fuel zl (pos l (S i)) s skip cnt' venc vll = Some r /\
    find_result l s skip (Z.of_nat (S i)) cnt' r) as Hnx by (intros; apply IH; (done || lia)). clear IH.
  destruct (ent_hdr x.2) as [[enc ls] ln] eqn:Eh. cbn [fst snd] in *. rewrite Hnext, Hstr.
  destruct (cnt =? 0) eqn:Ec; zbool.
  - subst cnt. assert (forall venc vll, venc_ok s venc vll -> text x.2 <> s -> exists r, ziplistFind_loop fuel zl (pos l (S i)) s skip skip venc vll = Some r /\
      find_result l s skip (Z.of_nat i) 0 r) as Hmiss.
    { intros ve vl Hve Hne. destruct (Hnx ve vl skip Hve Hs) as (r & -> & Hr). exists r. split; [done|].
      apply (find_result_step l s skip i 0 skip r x); try done. intros k. rewrite examined_here by done.
      replace (Z.of_nat (S i)) with (Z.of_nat i + 1) by lia. tauto. }
    assert (text x.2 = s -> find_result l s skip (Z.of_nat i) 0 (Some (pos l i))) as Hhit.
    { intros Ht. exists i, x. split_and!; try done; [apply examined_here; auto | lia]. }
    destruct (x.2) as [t|v] eqn:Ex; cbn [text] in *.
    + assert (ln = zlen t) as -> by (cbn [ent_hdr] in Eh; repeat case_hyp Eh; by simplify_eq).
      destruct (zlen t =? zlen s) eqn:E; zbool; cbn [mbind option_bind].
      * rewrite <- E, Hload. cbn [mbind option_bind]. unfold bytes_eq. destruct (decide (t = s)) as [Heq|Heq].
        -- rewrite (bool_decide_eq_true_2 _ Heq). eexists. split; [done | by apply Hhit].
        -- rewrite (bool_decide_eq_false_2 _ Heq). by apply Hmiss.
      * apply Hmiss; [done | congruence].
    + destruct (venc_compute s venc vll Hv) as (vll' & venc' & -> & Hok & Ht).
      pose proof (tryEncoding_dec s) as Hd. destruct Hh as [_ Hwf]. rewrite Ex in Hwf. cbn [wf_ent] in Hwf.
      assert (enc = zipValueEncoding v) as -> by (cbn [ent_hdr] in Eh; by simplify_eq).
      destruct (zipTryEncoding s) as [[w e]|].
      * destruct Ht as [-> ->]. cbn [negb]. rewrite Hload. cbn [mbind option_bind].
        destruct Hd as (Hw & -> & _). destruct (v =? w) eqn:E; zbool.
        -- subst. eexists. split; [done | by apply Hhit].
        -- apply Hmiss; [done|]. intros Hd. by apply dec_inj in Hd.
      * rewrite Ht. cbn [negb]. apply Hmiss; [done|]. intros Hd'. by apply (Hd v Hwf).
  - destruct (Hnx venc vll (cnt - 1) Hv ltac:(lia)) as (r & -> & Hr). exists r. split; [done|].
    apply (find_result_step l s skip i cnt (cnt - 1) r x); try done; [|lia].
    intros k. rewrite examined_skip by lia. replace (Z.of_nat (S i)) with (Z.of_nat i + 1) by lia. split; [tauto|].
    intros [[_ ?]|?]; [done | tauto].
Qed.

(** ** The public operations on lists of entries *)

Lemma len_loop_spec zl l : zrep zl l -> forall fuel i len, (length l - i < fuel)%nat -> (i <= length l)%nat ->
  ziplistLen_loop fuel zl (pos l i) len = Some (len + (zlen l - Z.of_nat i)).
Proof.
  intros Hz fuel. induction fuel as [|fuel IH]; intros i len Hf Hi; [lia|]. cbn [ziplistLen_loop].
  destruct (rd_pos zl l i Hz Hi) as (b & -> & Hb0). cbn [mbind option_bind]. rewrite Hb0.
  destruct (decide (i = length l)) as [->|Hne].
  - rewrite bool_decide_eq_true_2 by done. f_equal. lia.
  - rewrite bool_decide_eq_false_2 by done. destruct (lookup_lt_is_Some_2 l i) as [x Hx]; [lia|].
    rewrite (rawlen_pos _ _ _ _ Hz Hx). cbn [mbind option_bind]. rewrite <- (pos_S _ _ _ Hx).
    rewrite IH by lia. f_equal. lia.
Qed.

Lemma len_spec zl l : zrep zl l -> exists zl', ziplistLen zl = Some (zlen l, zl') /\ zrep zl' l.
Proof.
  intros Hz. unfold ziplistLen. pose proof (length_zrep _ _ Hz). pose proof Hz as (n & Hzl & [Hn Hc] & Hwf & Hb).
  assert (ZIPLIST_LENGTH zl = Some n) as -> by (rewrite Hzl; by apply get_length). cbn [mbind option_bind].
  destruct (n <? UINT16_MAX) eqn:E; zbool.
  - exists zl. by rewrite Hc.
  - change ZIPLIST_HEADER_SIZE with (pos l 0). rewrite (len_loop_spec zl l) by (done || lia). cbn [mbind option_bind].
    replace (0 + (zlen l - Z.of_nat 0)) with (zlen l) by lia.
    destruct (zlen l <? UINT16_MAX) eqn:E2; zbool.
    + rewrite Hzl, set_len. eexists. split; [done|]. exists (zlen l). split_and!; try done. split; [|done]. lia.
    + by exists zl.
Qed.

(** A bound on the bytes a list of entries can take, whatever the sizes of its
    previous-length fields. *)
Definition weight (es : list zent) : Z := foldr (fun e n => zlen (payload e) + 9 + n) 0 es.
Definition fits (es : list zent) : Prop := 11 + weight es < 2 ^ 32.

Lemma weight_app es fs : weight (es ++ fs) = weight es + weight fs.
Proof. unfold weight. induction es as [|e es IH]; [done|]. cbn [app foldr]. lia. Qed.

Lemma total_weight (l : list sent) : total l + 4 * zlen l <= weight (snd <$> l).
Proof.
  induction l as [|x l IH]; [done|]. rewrite total_cons. cbn [fmap list_fmap weight foldr length].
  fold (weight (snd <$> l)). unfold raw, pls. destruct (x.1); lia.
Qed.

Lemma weight_nonneg es : 0 <= weight es.
Proof. unfold weight. induction es as [|e es IH]; cbn [foldr]; lia. Qed.

Lemma head_small_app l1 l2 k : head_small (l1 ++ l2) -> (l1 = [] -> head_small k) -> head_small (l1 ++ k).
Proof. destruct l1; cbn; auto. Qed.

Section Public.
Context (junk : nat -> Z).

Lemma insert_holds zl l i s : zrep zl l -> head_small l -> (i <= length l)%nat ->
  insert_safe (new_ent (lastraw (take i l)) s) (drop i l) -> fits (ent_of s :: (snd <$> l)) ->
  exists zl', ziplistInsert junk zl (pos l i) s = Some zl' /\
    zholds zl' (take i (snd <$> l) ++ ent_of s :: drop i (snd <$> l)).
Proof.
  intros Hz Hh Hi Hsafe Hfit. set (e := new_ent (lastraw (take i l)) s) in *.
  rewrite <- (take_drop i l) in Hz. unfold ziplistInsert.
  destruct (insert_spec junk zl (take i l) (drop i l) (pos l i) s Hz eq_refl Hsafe) as (zl' & -> & Hz').
  { rewrite take_drop. pose proof (total_weight l). unfold fits in Hfit. cbn [weight foldr] in Hfit.
    fold (weight (snd <$> l)) in Hfit. fold e. rewrite length_drop. unfold raw. cbn [snd e new_ent].
    destruct (pls_cases e); lia. }
  exists zl'. split; [done|]. eexists. split; [exact Hz'|]. split.
  - rewrite <- (take_drop i l) in Hh. eapply head_small_app; [exact Hh|]. intros ->. done.
  - rewrite fmap_app, fmap_cons, resettle_ents, fmap_take, fmap_drop. done.
Qed.

Lemma push_holds zl es s (head : bool) : zholds zl es -> fits (ent_of s :: es) ->
  exists zl', ziplistPush junk zl s head = Some zl' /\
    zholds zl' (if head then ent_of s :: es else es ++ [ent_of s]).
Proof.
  intros (l & Hz & Hh & ->) Hfit. unfold ziplistPush. destruct head; cbn [mbind option_bind].
  - destruct (insert_holds zl l 0 s Hz Hh ltac:(lia)) as (zl' & ? & ?); [|done | by eexists].
    destruct l as [|x l]; [done|]. cbn in *. congruence.
  - destruct (insert_holds zl l (length l) s Hz Hh ltac:(lia)) as (zl' & Hi & Hh'); [by rewrite drop_all | done |].
    assert (ZIPLIST_ENTRY_END zl = Some (pos l (length l))) as ->.
    { unfold ZIPLIST_ENTRY_END. destruct Hz as (n & -> & _ & _ & Hb). rewrite get_bytes by (pose proof (total_nonneg l); lia).
      cbn. f_equal. unfold pos. rewrite firstn_all. lia. }
    exists zl'. split; [done|]. rewrite take_ge, drop_ge in Hh' by (rewrite length_fmap; lia). done.
Qed.

Lemma delete_holds zl l i num : zrep zl l -> head_small l -> (i < length l)%nat -> 0 < num -> fits (snd <$> l) ->
  exists zl', __ziplistDelete junk zl (pos l i) num = Some zl' /\
    zholds zl' (take i (snd <$> l) ++ drop (i + Z.to_nat num) (snd <$> l)).
Proof.
  intros Hz Hh Hi Hn Hfit. set (lm := take (Z.to_nat num) (drop i l)). set (l2 := drop (i + Z.to_nat num) l).
  assert (l = take i l ++ lm ++ l2) as Hl.
  { subst lm l2. rewrite <- drop_drop, take_drop, take_drop. done. }
  assert (length lm = Z.to_nat num \/ (length lm < Z.to_nat num)%nat /\ l2 = []) as Hd.
  { subst lm l2. rewrite length_take, length_drop. destruct (decide (Z.to_nat num <= length l - i)%nat); [left; lia|].
    right. split; [lia|]. apply drop_ge. lia. }
  assert (lm <> []) as Hne.
  { subst lm. intros H%(f_equal length). rewrite length_take, length_drop in H. cbn [length] in H. lia. }
  destruct (zl_delete_spec junk zl (take i l) lm l2 (pos l i) num Hne Hd) as (zl' & -> & Hz').
  - by rewrite <- Hl.
  - done.
  - rewrite <- Hl. pose proof (total_weight l). unfold fits in Hfit. subst l2. rewrite length_drop. lia.
  - exists zl'. split; [done|]. eexists. split; [exact Hz'|]. split.
    + rewrite Hl in Hh. eapply head_small_app; [exact Hh|]. intros ->. by destruct l2.
    + rewrite fmap_app, resettle_ents, fmap_take. subst l2. by rewrite fmap_drop.
Qed.

(** The list operation a deletion of [num] entries from [index] amounts to. *)
Definition delete_range (es : list zent) (index num : Z) : list zent :=
  match list_index (length es) index with
  | Some i => take i es ++ drop (i + Z.to_nat num) es
  | None => es
  end.

Lemma deleteRange_holds zl es index num : zholds zl es -> fits es -> - 2 ^ 31 < index < 2 ^ 31 -> 0 <= num ->
  exists zl', ziplistDeleteRange junk zl index num = Some zl' /\ zholds zl' (delete_range es index num).
Proof.
  intros (l & Hz & Hh & ->) Hfit Hidx Hn. unfold ziplistDeleteRange, delete_range.
  assert (s32 index = index) as -> by (apply swrap_small; simpl; lia).
  rewrite (zl_index_spec _ _ _ Hz), length_fmap. cbn [mbind option_bind].
  destruct (list_index (length l) index) as [i|] eqn:Ei; cbn [fmap option_fmap option_map].
  2: { exists zl. split; [done|]. by exists l. }
  apply list_index_lt in Ei. destruct (decide (num = 0)) as [->|Hn0].
  - unfold __ziplistDelete. destruct (lookup_lt_is_Some_2 l i Ei) as [x Hx].
    rewrite (entry_pos _ _ _ _ Hz Hx). cbn [mbind option_bind]. change (Z.to_nat 0) with O. cbn [ziplistDelete_skip].
    destruct (rd_pos zl l i Hz ltac:(lia)) as (b & -> & _). cbn [mbind option_bind].
    assert ((if b =? ZIP_END then Some (pos l i, 0) else Some (pos l i, 0)) = Some (pos l i, 0)) as -> by (by case_goal).
    cbn [mbind option_bind]. destruct (hdr_entry_fields (lastraw (take i l)) x (pos l i)) as (_ & _ & -> & _).
    rewrite Z.sub_diag. cbn. exists zl. split; [done|]. exists l. rewrite Nat.add_0_r, take_drop. done.
  - apply delete_holds; (done || lia).
Qed.

End Public.

(** ** A ziplist is a list *)

Inductive zop :=
| ZPush (s : list Z) (head : bool)
| ZDel (index num : Z)
| ZGet (index : Z)
| ZFind (s : list Z)
| ZLen.

Inductive zres := RUnit | RVal (e : option zent) | RBool (b : bool) | RNum (n : Z).

Definition zstep (junk : nat -> Z) (zl : list Z) (o : zop) : option (list Z * zres) :=
  match o with
  | ZPush s head => zl ← ziplistPush junk zl s head; Some (zl, RUnit)
  | ZDel index num => zl ← ziplistDeleteRange junk zl index num; Some (zl, RUnit)
  | ZGet index =>
      p ← ziplistIndex zl index;
      match p with None => Some (zl, RVal None) | Some p => e ← ziplistGet zl p; Some (zl, RVal e) end
  | ZFind s =>
      r ← ziplistFind zl (ZIPLIST_ENTRY_HEAD zl) s 0; Some (zl, RBool (bool_decide (r <> None)))
  | ZLen => '(n, zl) ← ziplistLen zl; Some (zl, RNum n)
  end.

(** The same operations on a list of entries. *)
Definition lstep (es : list zent) (o : zop) : list zent * zres :=
  match o with
  | ZPush s head => (if head then ent_of s :: es else es ++ [ent_of s], RUnit)
  | ZDel index num => (delete_range es index num, RUnit)
  | ZGet index => (es, RVal (list_index (length es) index ≫= (es !!.)))
  | ZFind s => (es, RBool (bool_decide (s ∈ text <$> es)))
  | ZLen => (es, RNum (zlen es))
  end.

Fixpoint zrun (junk : nat -> Z) (zl : list Z) (os : list zop) : option (list Z * list zres) :=
  match os with
  | [] => Some (zl, [])
  | o :: os => '(zl, r) ← zstep junk zl o; '(zl, rs) ← zrun junk zl os; Some (zl, r :: rs)
  end.

Fixpoint lrun (es : list zent) (os : list zop) : list zent * list zres :=
  match os with
  | [] => (es, [])
  | o :: os => let '(es, r) := lstep es o in let '(es, rs) := lrun es os in (es, r :: rs)
  end.

(** The arguments are of their C types and the pushed strings stay below the
    4 GB the header can describe. *)
Definition op_ok (o : zop) : Prop :=
  match o with ZDel index num => - 2 ^ 31 < index < 2 ^ 31 /\ 0 <= num | _ => True end.
Definition pushed (os : list zop) : list zent :=
  os ≫= fun o => match o with ZPush s _ => [ent_of s] | _ => [] end.

Lemma zholds_New : zholds ziplistNew [].
Proof. exists []. split; [|done]. exists 0. split; [by vm_compute|]. by split_and!. Qed.

Lemma find_all zl es s : zholds zl es ->
  exists r, ziplistFind zl (ZIPLIST_ENTRY_HEAD zl) s 0 = Some r /\ bool_decide (r <> None) = bool_decide (s ∈ text <$> es).
Proof.
  intros (l & Hz & _ & ->). unfold ziplistFind. change (ZIPLIST_ENTRY_HEAD zl) with (pos l 0).
  pose proof (length_zrep _ _ Hz).
  destruct (find_loop_spec zl l s 0 Hz ltac:(lia) (length zl) 0 0 0 0) as (r & Hr & Hf); [lia | lia | lia | by left |].
  exists r. split; [done|]. apply bool_decide_ext. rewrite list_elem_of_fmap. destruct r as [p|]; cbn [find_result] in Hf.
  - destruct Hf as (j & x & _ & Hj & Ht & _). split; [|done]. intros _. exists x.2. split; [done|].
    apply list_elem_of_fmap. exists x. split; [done|]. by eapply list_elem_of_lookup_2.
  - split; [done|]. intros (e & -> & He). apply list_elem_of_fmap in He as (x & -> & Hx).
    apply list_elem_of_lookup_1 in Hx as [k Hk]. exfalso.
    apply (Hf k x); [lia | split; [lia | apply Z.mod_1_r] | done | done].
Qed.

Lemma weight_sublist es fs : es `sublist_of` fs -> weight es <= weight fs.
Proof.
  induction 1 as [|e es fs _ IH|e es fs _ IH]; [done| |]; cbn [weight foldr];
    fold (weight es) (weight fs) in *; lia.
Qed.

Lemma zstep_lstep junk zl es o : zholds zl es -> op_ok o -> fits (es ++ pushed [o]) ->
  exists zl', zstep junk zl o = Some (zl', (lstep es o).2) /\ zholds zl' (lstep es o).1 /\
    weight (lstep es o).1 <= weight (es ++ pushed [o]).
Proof.
  intros Hh Ho Hfit. destruct o as [s head|index num|index|s|]; cbn [zstep lstep fst snd op_ok] in *;
    unfold pushed in *; cbn [mbind list_bind app] in *; rewrite ?app_nil_r in *.
  - destruct (push_holds junk zl es s head Hh) as (zl' & -> & Hh').
    { unfold fits in *. rewrite weight_app in Hfit. cbn [weight foldr] in *. fold (weight es). lia. }
    exists zl'. split; [done|]. split; [done|]. destruct head; [|done]. rewrite weight_app. cbn [weight foldr]. fold (weight es). lia.
  - destruct (deleteRange_holds junk zl es index num Hh Hfit) as (zl' & -> & Hh'); [tauto | tauto |].
    exists zl'. split; [done|]. split; [done|]. apply weight_sublist. unfold delete_range.
    destruct (list_index (length es) index) as [i|]; [|done]. rewrite <- (take_drop i es) at 3.
    apply sublist_app; [done|]. rewrite <- drop_drop. apply sublist_drop.
  - exists zl. destruct Hh as (l & Hz & Hs & ->). split; [|split; [by exists l | done]].
    rewrite (zl_index_spec _ _ _ Hz), length_fmap. cbn [mbind option_bind].
    destruct (list_index (length l) index) as [i|] eqn:Ei; cbn [fmap option_fmap option_map]; [|done].
    apply list_index_lt in Ei. rewrite (get_spec _ _ _ Hz) by lia. cbn. by rewrite list_lookup_fmap.
  - destruct (find_all zl es s Hh) as (r & -> & Hr). exists zl. cbn [mbind option_bind]. by rewrite Hr.
  - destruct Hh as (l & Hz & Hs & ->). destruct (len_spec zl l Hz) as (zl' & -> & Hz'). exists zl'.
    cbn [mbind option_bind]. rewrite length_fmap. split; [done|]. split; [by exists l | done].
Qed.

Lemma zrun_lrun junk os : forall zl es, zholds zl es -> Forall op_ok os -> fits (es ++ pushed os) ->
  exists zl', zrun junk zl os = Some (zl', (lrun es os).2) /\ zholds zl' (lrun es os).1.
Proof.
  induction os as [|o os IH]; intros zl es Hh Hok Hfit; cbn [zrun lrun]; [by exists zl|].
  inversion Hok as [|? ? Ho Hos]; subst.
  assert (pushed (o :: os) = pushed [o] ++ pushed os) as Hp by (unfold pushed; cbn; by rewrite app_nil_r).
  rewrite Hp, app_assoc in Hfit. unfold fits in *. rewrite weight_app in Hfit. pose proof (weight_nonneg (pushed os)).
  destruct (zstep_lstep junk zl es o Hh Ho) as (zl1 & -> & Hh1 & Hw); [unfold fits; lia|]. cbn [mbind option_bind].
  destruct (lstep es o) as [es1 r]. cbn [fst snd] in *.
  destruct (IH zl1 es1 Hh1 Hos) as (zl2 & -> & Hh2); [rewrite weight_app; lia|]. cbn [mbind option_bind].
  destruct (lrun es1 os) as [es2 rs]. cbn [fst snd] in *. by exists zl2.
Qed.

(** C25: from an empty ziplist, any sequence of pushes at either end, range
    deletions, reads by (possibly negative) index, searches and length queries
    runs without an out of bounds access or failed assertion and returns what the
    same sequence returns on a plain list of entries, as long as the entries
    pushed could fit in the 32-bit size of the header; the cascades of
    previous-length updates never show. *)
Theorem ziplist_refines_list junk os : Forall op_ok os -> fits (pushed os) ->
  exists zl, zrun junk ziplistNew os = Some (zl, (lrun [] os).2) /\ zholds zl (lrun [] os).1.
Proof. intros Hok Hfit. apply zrun_lrun; [apply zholds_New | done | done]. Qed.

Definition demo_ops : list zop :=
  [ZPush (bytes_of "hello") false; ZPush (bytes_of "-17") true; ZPush (replicate 300 7) true; ZGet 1; ZGet (-1); ZGet 3;
   ZDel 0 1; ZFind (bytes_of "-17"); ZFind (bytes_of "17"); ZLen].

Lemma ziplist_refines_list_witness : exists zl,
  zrun (fun _ => 0) ziplistNew demo_ops = Some (zl, (lrun [] demo_ops).2) /\ zholds zl (lrun [] demo_ops).1.
Proof.
  apply (ziplist_refines_list (fun _ => 0) demo_ops); [|by vm_compute].
  repeat constructor; vm_compute; done.
Defined.


Definition demo_list : list sent := [(false, ZStr (bytes_of "abc")); (false, ZInt 1000)].
Definition demo_image : list Z := header 20 15 2 ++ chain 0 demo_list ++ [ZIP_END].

Lemma demo_rep : zrep demo_image demo_list.
Proof. exists 2. split; [by vm_compute|]. vm_compute. repeat split; (done || congruence). Qed.


(** The pointers [ziplistIndex], [ziplistNext] and [ziplistPrev] return are
    those of the indexed, following and preceding entry ([NULL] beyond the ends);
    [ziplistGet] reads the entry back and [ziplistCompare] compares its text;
    [ziplistBlobLen] is the size of the image. *)
Theorem ziplist_navigation zl l : zrep zl l ->
  (forall index, - 2 ^ 31 < index < 2 ^ 31 -> ziplistIndex zl index = Some (pos l <$> list_index (length l) index)) /\
  (forall i, (i <= length l)%nat ->
    ziplistNext zl (pos l i) = Some (if bool_decide (S i < length l)%nat then Some (pos l (S i)) else None) /\
    ziplistPrev zl (pos l i) = Some (pos l <$> match i with O => None | S j => Some j end) /\
    ziplistGet zl (pos l i) = Some (snd <$> l !! i) /\
    forall s, ziplistCompare zl (pos l i) s = Some (bool_decide ((fun x => text x.2) <$> l !! i = Some s))) /\
  ziplistBlobLen zl = Some (zlen zl).
Proof.
  intros Hz. split; [intros; by apply zl_index_spec|]. split.
  - intros i Hi. split_and!; [by apply zl_next_spec | by apply prev_spec | by apply get_spec | intros; by apply compare_spec].
  - destruct Hz as (n & -> & _ & _ & Hb). unfold ziplistBlobLen. pose proof (total_nonneg l).
    rewrite get_bytes by lia. f_equal. rewrite !length_app, !Nat2Z.inj_add, length_header, length_chain. cbn. lia.
Qed.

Lemma ziplist_navigation_witness :
  ziplistIndex demo_image (-2) = Some (Some 10) /\ ziplistGet demo_image 15 = Some (Some (ZInt 1000)).
Proof.
  destruct (ziplist_navigation demo_image demo_list demo_rep) as (Hi & Hp & _).
  split; [exact (Hi (-2) ltac:(lia)) | exact (proj1 (proj2 (proj2 (Hp 1%nat ltac:(cbn; lia)))))].
Defined.

(** [ziplistFind] from any entry, skipping [skip] entries between
    comparisons, terminates and returns the first examined entry whose text is the
    string searched for, or [NULL] when no examined entry has it. *)
Theorem ziplistFind_correct zl l i s skip : zrep zl l -> (i <= length l)%nat -> 0 <= skip < 2 ^ 31 ->
  exists r, ziplistFind zl (pos l i) s skip = Some r /\ find_result l s skip (Z.of_nat i) 0 r.
Proof.
  intros Hz Hi Hs. unfold ziplistFind. pose proof (length_zrep _ _ Hz).
  apply find_loop_spec; [done | lia | lia | done | lia | by left].
Qed.

Lemma ziplistFind_correct_witness : exists r,
  ziplistFind demo_image (pos demo_list 0) (bytes_of "1000") 0 = Some r /\
  find_result demo_list (bytes_of "1000") 0 0 0 r.
Proof. apply (ziplistFind_correct demo_image demo_list 0); [apply demo_rep | cbn; lia | lia]. Defined.

(** The image after pushing 300, 248 and 248 bytes and deleting the first entry:
    the third entry keeps a five-byte field for a length of 251. *)
Definition shrunk_image : option (list Z) :=
  fst <$> zrun (fun _ => 0) ziplistNew
    [ZPush (replicate 300 97) false; ZPush (replicate 248 98) false; ZPush (replicate 248 99) false; ZDel 0 1].

(** [insert_safe] is needed, and the public operations reach its violation:
    after two pushes behind a long entry and the deletion of that entry, inserting
    a short string before the second entry makes [nextdiff] -4 with [reqlen] 2, so
    the list is reallocated smaller before its bytes are moved and the move reads
    past the end of the allocation. *)
Theorem ziplistInsert_reads_past_end : exists zl p,
  shrunk_image = Some zl /\ ziplistIndex zl 1 = Some (Some p) /\
  ziplistInsert (fun _ => 0) zl p (bytes_of "1") = None /\
  exists zl', ziplistInsert (fun _ => 0) zl p (bytes_of "1234") = Some zl'.
Proof.
  destruct shrunk_image as [zl|] eqn:E; [|vm_compute in E; discriminate].
  exists zl, 261. split; [done|]. vm_compute in E. injection E as <-.
  split; [by vm_compute|]. split; [by vm_compute|]. eexists. by vm_compute.
Qed.
