(* ===== verification/Dict.v ===== *)
(** * Hash tables with incremental rehashing (dict.c, dict.h)

    A bucket is the list of the entries chained at it, head first, and a table
    the list of its buckets; an unallocated table is the empty list with size 0.
    The key type comes with the callbacks of its [dictType]: the hash function,
    which the class [DictType] gives with the range of C's [unsigned int], and
    key comparison, which is decidable equality.  Values and keys are held as
    they are given (a [dup] callback that copies changes nothing here, freeing is
    not modelled).  Out of bounds accesses and failed assertions are [None].

    [DictRep.v] proves that these tables are finite maps, [DictScan.v] treats the
    scan cursor. *)
From Stdlib Require Import Lia ZArith.
From stdpp Require Import base numbers list tactics option.
From S2P Require Import Prelude.

#[local] Open Scope Z_scope.

(** What the tables need of a key type: the [dictType] callbacks. *)
Class DictType (K : Type) := {
  hashFunction : K -> Z;
  hashFunction_range : forall k, 0 <= hashFunction k < 2 ^ 32;
}.

Definition DICT_HT_INITIAL_SIZE : Z := 4.
Definition dict_force_resize_ratio : Z := 5.
Definition LONG_MAX : Z := 9223372036854775807.

Section Dict.
Context {K V : Type} `{EqDecision K} `{DictType K}.
(** [dict_can_resize], which [dictEnableResize] and [dictDisableResize] set. *)
Context (dict_can_resize : bool).

Record dictht := mk_dictht { table : list (list (K * V)); size : Z; sizemask : Z; used : Z }.
Record dict := mk_dict { ht0 : dictht; ht1 : dictht; rehashidx : Z; iterators : Z }.

Definition dictIsRehashing (d : dict) : bool := negb (rehashidx d =? -1).
Definition dictSize (d : dict) : Z := used (ht0 d) + used (ht1 d).

Definition _dictReset : dictht := mk_dictht [] 0 0 0.
Definition dictCreate : dict := mk_dict _dictReset _dictReset (-1) 0.

Fixpoint dictNextPower_loop (fuel : nat) (i size : Z) : option Z :=
  if i >=? size then Some i else
  match fuel with O => None | S fuel => dictNextPower_loop fuel (uwrap 64 (i * 2)) size end.

Definition _dictNextPower (size : Z) : option Z :=
  if size >=? LONG_MAX then Some LONG_MAX else dictNextPower_loop 64 DICT_HT_INITIAL_SIZE size.

(** The new dictionary and whether the result is [DICT_OK]. *)
Definition dictExpand (d : dict) (sz : Z) : option (dict * bool) :=
  realsize ← _dictNextPower sz;
  if dictIsRehashing d || (used (ht0 d) >? sz) then Some (d, false) else
  if realsize =? size (ht0 d) then Some (d, false) else
  let n := mk_dictht (replicate (Z.to_nat realsize) []) realsize (realsize - 1) 0 in
  match table (ht0 d) with
  | [] => Some (mk_dict n (ht1 d) (rehashidx d) (iterators d), true)
  | _ => Some (mk_dict (ht0 d) n 0 (iterators d), true)
  end.

Definition dictResize (d : dict) : option (dict * bool) :=
  if negb dict_can_resize || dictIsRehashing d then Some (d, false) else
  let minimal := s32 (used (ht0 d)) in
  let minimal := if minimal <? DICT_HT_INITIAL_SIZE then DICT_HT_INITIAL_SIZE else minimal in
  dictExpand d (uwrap 64 minimal).

Definition _dictExpandIfNeeded (d : dict) : option (dict * bool) :=
  if dictIsRehashing d then Some (d, true) else
  if size (ht0 d) =? 0 then dictExpand d DICT_HT_INITIAL_SIZE else
  if (used (ht0 d) >=? size (ht0 d)) &&
     (dict_can_resize || (used (ht0 d) / size (ht0 d) >? dict_force_resize_ratio))
  then dictExpand d (uwrap 64 (used (ht0 d) * 2)) else Some (d, true).

(** ** Rehashing *)

(** The search for a non-empty bucket: the index, the empty visits left and
    whether they ran out. *)
Fixpoint dictRehash_skip (fuel : nat) (tbl : list (list (K * V))) (idx empty_visits : Z) : option (Z * Z * bool) :=
  c ← rd tbl idx;
  match c with
  | _ :: _ => Some (idx, empty_visits, false)
  | [] =>
      match fuel with
      | O => None
      | S fuel =>
          if empty_visits - 1 =? 0 then Some (idx + 1, empty_visits - 1, true)
          else dictRehash_skip fuel tbl (idx + 1) (empty_visits - 1)
      end
  end.

(** Moving the entries of a chain to the second table: its new contents. *)
Fixpoint dictRehash_move (de : list (K * V)) (h1 : dictht) : option dictht :=
  match de with
  | [] => Some h1
  | e :: nextde =>
      let h := Z.land (hashFunction e.1) (sizemask h1) in
      c ← rd (table h1) h;
      t ← wr (table h1) h (e :: c);
      dictRehash_move nextde (mk_dictht t (size h1) (sizemask h1) (used h1 + 1))
  end.

(** The dictionary, and whether the function returned from inside the loop. *)
Fixpoint dictRehash_loop (n : nat) (d : dict) (empty_visits : Z) : option (dict * bool) :=
  match n with
  | O => Some (d, false)
  | S n =>
      if used (ht0 d) =? 0 then Some (d, false) else
      if negb (size (ht0 d) >? rehashidx d) then None else
      '(idx, empty_visits, out) ← dictRehash_skip (length (table (ht0 d))) (table (ht0 d)) (rehashidx d) empty_visits;
      if (out : bool) then Some (mk_dict (ht0 d) (ht1 d) idx (iterators d), true) else
      de ← rd (table (ht0 d)) idx;
      h1 ← dictRehash_move de (ht1 d);
      t0 ← wr (table (ht0 d)) idx [];
      dictRehash_loop n
        (mk_dict (mk_dictht t0 (size (ht0 d)) (sizemask (ht0 d)) (used (ht0 d) - zlen de)) h1 (idx + 1) (iterators d))
        empty_visits
  end.

Definition dictRehash (d : dict) (n : Z) : option (dict * Z) :=
  if negb (dictIsRehashing d) then Some (d, 0) else
  '(d, out) ← dictRehash_loop (Z.to_nat n) d (n * 10);
  if (out : bool) then Some (d, 1) else
  if used (ht0 d) =? 0 then Some (mk_dict (ht1 d) _dictReset (-1) (iterators d), 0)
  else Some (d, 1).

Definition _dictRehashStep (d : dict) : option dict :=
  if iterators d =? 0 then '(d, _) ← dictRehash d 1; Some d else Some d.

(** The loop of [dictRehashMilliseconds], [late] telling after each round
    whether the time is over: the dictionary and [rehashes]. *)
Fixpoint dictRehashMilliseconds (late : list bool) (d : dict) (rehashes : Z) : option (dict * Z) :=
  '(d, r) ← dictRehash d 100;
  if r =? 0 then Some (d, rehashes) else
  match late with
  | false :: late => dictRehashMilliseconds late d (rehashes + 100)
  | _ => Some (d, rehashes + 100)
  end.

(** ** Entries *)

(** An entry pointer: second table?, bucket, place in its chain. *)
Definition eref := (bool * Z * nat)%type.

Definition ht (d : dict) (t : bool) : dictht := if t then ht1 d else ht0 d.
Definition set_ht (d : dict) (t : bool) (h : dictht) : dict :=
  if t then mk_dict (ht0 d) h (rehashidx d) (iterators d) else mk_dict h (ht1 d) (rehashidx d) (iterators d).

Fixpoint chain_find (he : list (K * V)) (key : K) : option nat :=
  match he with
  | [] => None
  | e :: next => if bool_decide (key = e.1) then Some O else S <$> chain_find next key
  end.

Definition dictGetEntry (d : dict) (r : eref) : option (K * V) :=
  let '(t, idx, p) := r in c ← rd (table (ht d t)) idx; c !! p.

Definition dictGetVal (d : dict) (r : eref) : option V := snd <$> dictGetEntry d r.

Definition dictSetVal (d : dict) (r : eref) (val : V) : option dict :=
  let '(t, idx, p) := r in
  c ← rd (table (ht d t)) idx;
  e ← c !! p;
  tb ← wr (table (ht d t)) idx (<[p := (e.1, val)]> c);
  Some (set_ht d t (mk_dictht tb (size (ht d t)) (sizemask (ht d t)) (used (ht d t)))).

(** [None] inside is the result -1. *)
Definition _dictKeyIndex (d : dict) (key : K) : option (dict * option Z) :=
  '(d, ok) ← _dictExpandIfNeeded d;
  if negb ok then Some (d, None) else
  let h := hashFunction key in
  let idx := u32 (Z.land h (sizemask (ht0 d))) in
  he ← rd (table (ht0 d)) idx;
  match chain_find he key with
  | Some _ => Some (d, None)
  | None =>
      if negb (dictIsRehashing d) then Some (d, Some (s32 idx)) else
      let idx := u32 (Z.land h (sizemask (ht1 d))) in
      he ← rd (table (ht1 d)) idx;
      match chain_find he key with
      | Some _ => Some (d, None)
      | None => Some (d, Some (s32 idx))
      end
  end.

(** [uninit] is what a new entry's value field holds. *)
Definition dictAddRaw (uninit : V) (d : dict) (key : K) : option (dict * option eref) :=
  d ← (if dictIsRehashing d then _dictRehashStep d else Some d);
  '(d, index) ← _dictKeyIndex d key;
  match index with
  | None => Some (d, None)
  | Some index =>
      if index =? -1 then Some (d, None) else
      let t := dictIsRehashing d in
      let h := ht d t in
      c ← rd (table h) index;
      tb ← wr (table h) index ((key, uninit) :: c);
      Some (set_ht d t (mk_dictht tb (size h) (sizemask h) (used h + 1)), Some (t, index, O))
  end.

(** The new dictionary and whether the result is [DICT_OK]. *)
Definition dictAdd (uninit : V) (d : dict) (key : K) (val : V) : option (dict * bool) :=
  '(d, entry) ← dictAddRaw uninit d key;
  match entry with
  | None => Some (d, false)
  | Some entry => d ← dictSetVal d entry val; Some (d, true)
  end.

(** The search in the tables from [t] on; [Some None] is [NULL]. *)
Definition dictFind_table (d : dict) (h : Z) (key : K) (t : bool) : option (option eref) :=
  let idx := u32 (Z.land h (sizemask (ht d t))) in
  he ← rd (table (ht d t)) idx;
  Some ((fun p => (t, idx, p)) <$> chain_find he key).

Definition dictFind (d : dict) (key : K) : option (dict * option eref) :=
  if size (ht0 d) =? 0 then Some (d, None) else
  d ← (if dictIsRehashing d then _dictRehashStep d else Some d);
  let h := hashFunction key in
  r ← dictFind_table d h key false;
  match r with
  | Some r => Some (d, Some r)
  | None =>
      if negb (dictIsRehashing d) then Some (d, None) else
      r ← dictFind_table d h key true; Some (d, r)
  end.

Definition dictFetchValue (d : dict) (key : K) : option (dict * option V) :=
  '(d, he) ← dictFind d key;
  match he with
  | None => Some (d, None)
  | Some he => v ← dictGetVal d he; Some (d, Some v)
  end.

(** The new dictionary and the result 1 (added) or 0 (updated). *)
Definition dictReplace (uninit : V) (d : dict) (key : K) (val : V) : option (dict * bool) :=
  '(d, ok) ← dictAdd uninit d key val;
  if (ok : bool) then Some (d, true) else
  '(d, entry) ← dictFind d key;
  entry ← entry;
  d ← dictSetVal d entry val;
  Some (d, false).

Definition dictReplaceRaw (uninit : V) (d : dict) (key : K) : option (dict * option eref) :=
  '(d, entry) ← dictFind d key;
  match entry with Some _ => Some (d, entry) | None => dictAddRaw uninit d key end.

(** Unlinking the first entry with the key from its chain. *)
Definition dictDelete_table (d : dict) (h : Z) (key : K) (t : bool) : option (option dict) :=
  let idx := u32 (Z.land h (sizemask (ht d t))) in
  he ← rd (table (ht d t)) idx;
  match chain_find he key with
  | None => Some None
  | Some p =>
      tb ← wr (table (ht d t)) idx (delete p he);
      Some (Some (set_ht d t (mk_dictht tb (size (ht d t)) (sizemask (ht d t)) (used (ht d t) - 1))))
  end.

Definition dictGenericDelete (d : dict) (key : K) : option (dict * bool) :=
  if size (ht0 d) =? 0 then Some (d, false) else
  d ← (if dictIsRehashing d then _dictRehashStep d else Some d);
  let h := hashFunction key in
  r ← dictDelete_table d h key false;
  match r with
  | Some d => Some (d, true)
  | None =>
      if negb (dictIsRehashing d) then Some (d, false) else
      r ← dictDelete_table d h key true;
      match r with Some d => Some (d, true) | None => Some (d, false) end
  end.

Definition dictDelete (d : dict) (key : K) : option (dict * bool) := dictGenericDelete d key.

(** Clearing frees every entry and the bucket array. *)
Definition _dictClear (h : dictht) : dictht := _dictReset.

Definition dictEmpty (d : dict) : dict := mk_dict (_dictClear (ht0 d)) (_dictClear (ht1 d)) (-1) 0.

End Dict.
