(* ===== verification/DictRep.v ===== *)
(** * Hash tables are finite maps

    The invariant of the tables of [Dict.v], the finite map they hold, and the
    proof that every operation keeps the first and acts on the second, whatever
    the state of an incremental rehash. *)
From Stdlib Require Import Lia ZArith.
From stdpp Require Import base numbers list tactics option gmap.
From S2P Require Import Prelude Dict.

#[local] Open Scope Z_scope.

(** ** Buckets *)

Lemma rd_Some {A} (t : list A) i x : rd t i = Some x <-> 0 <= i /\ t !! Z.to_nat i = Some x.
Proof.
  unfold rd. destruct (i <? 0) eqn:E; zbool; split; intros; [done | lia | split; [lia|done] | tauto].
Qed.

Lemma rd_lt {A} (t : list A) i : 0 <= i < zlen t -> exists x, rd t i = Some x.
Proof. intros Hi. destruct (lookup_lt_is_Some_2 t (Z.to_nat i)) as [x Hx]; [lia|]. exists x. apply rd_Some. split; [lia|done]. Qed.

(** Replacing a bucket. *)
Lemma bucket_split {A} (t : list (list A)) i c : rd t i = Some c ->
  exists a b, concat t = a ++ c ++ b /\
    forall c', exists t', wr t i c' = Some t' /\ concat t' = a ++ c' ++ b /\ length t' = length t /\
      t' = <[Z.to_nat i := c']> t.
Proof.
  intros [Hi Hc]%rd_Some. pose proof (lookup_lt_Some _ _ _ Hc). exists (concat (take (Z.to_nat i) t)), (concat (drop (S (Z.to_nat i)) t)).
  split.
  - rewrite <- (take_drop_middle t (Z.to_nat i) c Hc) at 1. rewrite concat_app. done.
  - intros c'. exists (<[Z.to_nat i := c']> t). unfold wr. rewrite (proj2 (andb_true_iff _ _)) by (rewrite Z.leb_le, Z.ltb_lt; lia).
    split; [done|]. split; [|split; [apply length_insert | done]].
    rewrite insert_take_drop by lia. rewrite concat_app. done.
Qed.

Section Rep.
Context {K V : Type} `{HC : Countable K} `{HT : DictType K}.
#[local] Abbreviation dictht := (@dictht K V).
#[local] Abbreviation dict := (@dict K V).

Definition ht_entries (h : dictht) : list (K * V) := concat (table h).
Definition entries (d : dict) : list (K * V) := ht_entries (ht0 d) ++ ht_entries (ht1 d).

(** The finite map a dictionary holds. *)
Definition dmap (d : dict) : gmap K V := list_to_map (entries d).

(** An allocated table: a power of two of buckets, each entry in the bucket its
    hash selects. *)
Definition ht_ok (h : dictht) : Prop :=
  (exists k, 2 <= k <= 30 /\ size h = 2 ^ k /\ sizemask h = 2 ^ k - 1) /\
  zlen (table h) = size h /\ used h = zlen (ht_entries h) /\
  forall i c e, table h !! i = Some c -> e ∈ c -> Z.land (hashFunction e.1) (sizemask h) = Z.of_nat i.

(** A rehash in progress: both tables are there and the buckets of the first one
    below [rehashidx] have been moved. *)
Definition rehashing_ok (d : dict) : Prop :=
  ht_ok (ht0 d) /\ ht_ok (ht1 d) /\ 0 <= rehashidx d <= size (ht0 d) /\
  forall i, Z.of_nat i < rehashidx d -> table (ht0 d) !! i = Some [].

Definition dict_ok (d : dict) : Prop :=
  NoDup (entries d).*1 /\ 0 <= iterators d /\
  ((rehashidx d = -1 /\ ht1 d = _dictReset /\ (ht0 d = _dictReset \/ ht_ok (ht0 d))) \/ rehashing_ok d).

Definition hidx (h : dictht) (key : K) : Z := Z.land (hashFunction key) (sizemask h).

Lemma hidx_range h key : ht_ok h -> 0 <= hidx h key < size h.
Proof.
  intros ((k & Hk & Hs & Hm) & _). unfold hidx. rewrite Hm, Hs.
  assert (2 ^ k - 1 = Z.ones k) as -> by (rewrite Z.ones_equiv; lia). rewrite Z.land_ones by lia.
  apply Z.mod_pos_bound. lia.
Qed.

Lemma size_range h : ht_ok h -> 4 <= size h <= 2 ^ 30.
Proof.
  intros ((k & Hk & -> & _) & _). split.
  - change 4 with (2 ^ 2). apply Z.pow_le_mono_r; lia.
  - apply Z.pow_le_mono_r; lia.
Qed.

Lemma hidx_u32 h key : ht_ok h -> u32 (hidx h key) = hidx h key.
Proof. intros Hh. pose proof (hidx_range h key Hh). pose proof (size_range h Hh). apply uwrap_small; lia. Qed.

Lemma hidx_s32 h key : ht_ok h -> s32 (hidx h key) = hidx h key.
Proof. intros Hh. pose proof (hidx_range h key Hh). pose proof (size_range h Hh). apply swrap_small; simpl; lia. Qed.

Lemma bucket_of h key : ht_ok h -> exists c, rd (table h) (hidx h key) = Some c /\
  forall e, e.1 = key -> e ∈ ht_entries h <-> e ∈ c.
Proof.
  intros Hh. pose proof (hidx_range h key Hh) as Hr. pose proof Hh as (_ & Hl & _ & Hb).
  destruct (rd_lt (table h) (hidx h key)) as [c Hc]; [lia|]. exists c. split; [done|].
  intros e He. apply rd_Some in Hc as [_ Hc]. unfold ht_entries. rewrite list_elem_of_In, in_concat. split.
  - intros (c' & Hc' & Hin). apply list_elem_of_In in Hin. apply list_elem_of_In, list_elem_of_lookup_1 in Hc' as [i Hi].
    pose proof (Hb i c' e Hi Hin) as Hbi. rewrite He in Hbi. unfold hidx in Hc. rewrite Hbi, Nat2Z.id in Hc. by simplify_eq.
  - intros Hin. exists c. rewrite <- !list_elem_of_In. split; [by eapply list_elem_of_lookup_2 | done].
Qed.

(** Replacing the bucket of [key] by one whose entries belong there. *)
Lemma set_bucket h key c c' : ht_ok h -> rd (table h) (hidx h key) = Some c ->
  (forall e, e ∈ c' -> hidx h e.1 = hidx h key) ->
  exists a b t', wr (table h) (hidx h key) c' = Some t' /\ ht_entries h = a ++ c ++ b /\
    let h' := mk_dictht t' (size h) (sizemask h) (used h + zlen c' - zlen c) in
    ht_ok h' /\ ht_entries h' = a ++ c' ++ b /\ t' = <[Z.to_nat (hidx h key) := c']> (table h).
Proof.
  intros Hh Hc Hc'. destruct (bucket_split _ _ _ Hc) as (a & b & Hab & Hset).
  destruct (Hset c') as (t' & Hwr & Ht' & Hlen & Heq). exists a, b, t'. split; [done|]. split; [done|].
  intros h'. split; [|done]. destruct Hh as (Hk & Hl & Hu & Hb). split; [done|]. subst h'. cbn [table size sizemask used] in *.
  split_and!; [lia | |].
  - unfold ht_entries in *. cbn [table]. rewrite Ht', Hu, Hab, !length_app. lia.
  - intros i ci e. rewrite Heq. rewrite list_lookup_insert. case_decide as Hi.
    + intros [= <-] He. destruct Hi as [<- Hi]. specialize (Hc' e He). unfold hidx in *. cbn [sizemask] in *.
      apply rd_Some in Hc as [Hp _]. rewrite Hc'. lia.
    + intros Hci He. by apply (Hb i ci e).
Qed.

Lemma chain_find_spec (c : list (K * V)) (key : K) : match chain_find c key with
  | Some p => exists v : V, c !! p = Some (key, v)
  | None => forall e, e ∈ c -> e.1 <> key
  end.
Proof.
  induction c as [|[k v] c IH]; cbn [chain_find]; [intros e He; by apply elem_of_nil in He|].
  cbn [fst]. case_bool_decide as E; [subst; by exists v|]. destruct (chain_find c key) as [p|]; cbn; [done|].
  intros e [->|He]%elem_of_cons; [cbn; congruence | by apply IH].
Qed.

(** ** Rehashing *)

Lemma move_spec de : forall h, ht_ok h -> exists h', dictRehash_move de h = Some h' /\ ht_ok h' /\
  ht_entries h' ≡ₚ de ++ ht_entries h /\ size h' = size h /\ used h' = used h + zlen de.
Proof.
  induction de as [|e de IH]; intros h Hh; cbn [dictRehash_move].
  - exists h. cbn. split_and!; try done. lia.
  - fold (hidx h e.1). destruct (bucket_of h e.1 Hh) as (c & Hc & Hin). rewrite Hc. cbn [mbind option_bind].
    destruct (set_bucket h e.1 c (e :: c) Hh Hc) as (a & b & t' & -> & Hab & Hok & Hent & _).
    { intros e' [->|He']%elem_of_cons; [done|]. apply rd_Some in Hc as [Hp Hc]. destruct Hh as (_ & _ & _ & Hb).
      pose proof (Hb _ c e' Hc He'). unfold hidx in *. lia. }
    cbn [mbind option_bind].
    assert (used h + zlen (e :: c) - zlen c = used h + 1) as Hu by (cbn [length]; lia). rewrite Hu in *.
    destruct (IH _ Hok) as (h' & -> & Hok' & Hent' & Hs' & Hu'). exists h'. split; [done|]. split; [done|]. cbn [size used] in *.
    split; [|split; [done | cbn [length]; lia]]. rewrite Hent', Hent, Hab. cbn. solve_Permutation.
Qed.

(** There is a bucket left to move. *)
Definition next_full (tbl : list (list (K * V))) (idx : Z) : Prop :=
  exists j c, idx <= Z.of_nat j /\ tbl !! j = Some c /\ c <> [].

Lemma skip_spec tbl : forall fuel idx ev, next_full tbl idx -> 0 <= idx -> zlen tbl - idx <= Z.of_nat fuel ->
  exists idx' ev' out, dictRehash_skip fuel tbl idx ev = Some (idx', ev', out) /\ idx <= idx' <= zlen tbl /\
    (forall i, idx <= Z.of_nat i < idx' -> tbl !! i = Some []) /\
    (if out : bool then idx < idx' else exists e c, rd tbl idx' = Some (e :: c)).
Proof.
  induction fuel as [|fuel IH]; intros idx ev (j & c & Hj & Hc & Hne) H0 Hf.
  - apply lookup_lt_Some in Hc. lia.
  - pose proof (lookup_lt_Some _ _ _ Hc). cbn [dictRehash_skip].
    destruct (rd_lt tbl idx) as [c0 Hc0]; [lia|]. rewrite Hc0. cbn [mbind option_bind].
    destruct c0 as [|e c0].
    2: { exists idx, ev, false. split_and!; [done | lia | lia | lia | eauto]. }
    pose proof Hc0 as [_ Hi0]%rd_Some.
    destruct (ev - 1 =? 0).
    { exists (idx + 1), (ev - 1), true. split_and!; [done | lia | lia | | lia].
      intros i Hi. replace i with (Z.to_nat idx) by lia. done. }
    assert (idx + 1 <= Z.of_nat j) as Hj'.
    { destruct (decide (idx = Z.of_nat j)) as [->|]; [|lia]. rewrite Nat2Z.id in Hi0. by simplify_eq. }
    destruct (IH (idx + 1) (ev - 1)) as (idx' & ev' & out & -> & Hr & Hemp & Hout); [by exists j, c | lia | lia |].
    exists idx', ev', out. split; [done|]. split; [lia|]. split.
    + intros i Hi. destruct (decide (Z.of_nat i = idx)) as [<-|]; [by rewrite Nat2Z.id in Hi0 | apply Hemp; lia].
    + destruct out; [lia | done].
Qed.

Lemma concat_nil {A} (t : list (list A)) : (forall i, (i < length t)%nat -> t !! i = Some []) -> concat t = [].
Proof.
  induction t as [|c t IH]; [done|]. intros Hall. cbn [concat]. pose proof (Hall O ltac:(cbn; lia)) as H0. simplify_eq/=.
  apply IH. intros i Hi. apply (Hall (S i)). cbn. lia.
Qed.

Lemma next_full_or (tbl : list (list (K * V))) (idx : Z) : next_full tbl idx \/
  forall i, idx <= Z.of_nat i -> (i < length tbl)%nat -> tbl !! i = Some [].
Proof.
  destruct (decide (Exists (fun c : list (K * V) => length c <> O) (drop (Z.to_nat idx) tbl))) as [He|Hn].
  - left. apply Exists_exists in He as (c & Hin & Hc). apply list_elem_of_lookup_1 in Hin as [j Hj].
    rewrite lookup_drop in Hj. exists (Z.to_nat idx + j)%nat, c. split_and!; [lia | done |]. intros ->. done.
  - right. intros i Hi Hlt. destruct (lookup_lt_is_Some_2 _ _ Hlt) as [c Hc]. rewrite Hc. f_equal.
    destruct c as [|e c]; [done|]. exfalso. apply Hn. apply Exists_exists. exists (e :: c). split; [|done].
    apply list_elem_of_lookup. exists (i - Z.to_nat idx)%nat. rewrite lookup_drop. rewrite <- Hc. f_equal. lia.
Qed.

Lemma rehashing_next d : rehashing_ok d -> used (ht0 d) <> 0 -> next_full (table (ht0 d)) (rehashidx d).
Proof.
  intros ((_ & Hl & Hu & _) & _ & Hr & Hemp) Hne.
  destruct (next_full_or (table (ht0 d)) (rehashidx d)) as [|Hno]; [done|]. exfalso. apply Hne.
  rewrite Hu. unfold ht_entries. rewrite concat_nil; [done|]. intros i Hi.
  destruct (decide (Z.of_nat i < rehashidx d)); [by apply Hemp|]. apply Hno; lia.
Qed.
Lemma rehash_bucket d de idx h1 t0 : rehashing_ok d -> rehashidx d <= idx < size (ht0 d) ->
  (forall i, rehashidx d <= Z.of_nat i < idx -> table (ht0 d) !! i = Some []) ->
  rd (table (ht0 d)) idx = Some de -> dictRehash_move de (ht1 d) = Some h1 -> wr (table (ht0 d)) idx [] = Some t0 ->
  let d' := mk_dict (mk_dictht t0 (size (ht0 d)) (sizemask (ht0 d)) (used (ht0 d) - zlen de)) h1 (idx + 1) (iterators d) in
  rehashing_ok d' /\ entries d' ≡ₚ entries d.
Proof.
  intros ((Hk & Hl & Hu & Hb) & H1 & Hr & Hemp) Hidx Hskip Hde Hmove Hwr d'.
  destruct (move_spec de (ht1 d) H1) as (h1' & Hm & Hok & Hent & _). rewrite Hm in Hmove. injection Hmove as ->.
  destruct (bucket_split _ _ _ Hde) as (a & b & Hab & Hset). destruct (Hset []) as (t' & Hwr' & Ht' & Hlen & Heq).
  rewrite Hwr' in Hwr. injection Hwr as ->. split.
  - split; [|split; [done|]].
    + subst d'. split; [done|]. unfold ht_entries in *. cbn [table size sizemask used ht0] in *. split_and!; [lia | |].
      * rewrite Ht', Hu, Hab, !length_app. cbn [length]. lia.
      * intros i c e. rewrite Heq, list_lookup_insert. case_decide as Hi.
        -- intros [= <-] He. by apply elem_of_nil in He.
        -- apply Hb.
    + subst d'. cbn [rehashidx ht0 size table]. split; [lia|]. intros i Hi. rewrite Heq, list_lookup_insert.
      case_decide as Hc; [done|]. destruct (decide (Z.of_nat i < rehashidx d)); [by apply Hemp|]. apply Hskip. lia.
  - unfold entries, ht_entries. subst d'. cbn [ht0 ht1 table]. fold (ht_entries h1). rewrite Hent.
    rewrite Ht', Hab. unfold ht_entries. cbn. solve_Permutation.
Qed.

Lemma rehash_loop_spec n : forall d ev, rehashing_ok d -> exists d' out, dictRehash_loop n d ev = Some (d', out) /\
  rehashing_ok d' /\ entries d' ≡ₚ entries d /\ iterators d' = iterators d /\ size (ht0 d') = size (ht0 d) /\
  (if out : bool then rehashidx d < rehashidx d'
   else rehashidx d + Z.of_nat n <= rehashidx d' \/ used (ht0 d') = 0).
Proof.
  induction n as [|n IH]; intros d ev Hd; cbn [dictRehash_loop].
  - exists d, false. split_and!; try done. left. lia.
  - destruct (used (ht0 d) =? 0) eqn:Eu; zbool.
    { exists d, false. split_and!; try done. by right. }
    pose proof (rehashing_next d Hd Eu) as Hnext. pose proof Hd as (Hh0 & Hh1 & Hr & Hemp). pose proof Hh0 as (_ & Hl & _).
    assert (rehashidx d < size (ht0 d)) as Hlt.
    { destruct Hnext as (j & c & Hj & Hc & _). apply lookup_lt_Some in Hc. lia. }
    rewrite (proj2 (Z.gtb_lt _ _) Hlt). cbn [negb].
    destruct (skip_spec (table (ht0 d)) (length (table (ht0 d))) (rehashidx d) ev Hnext) as (idx & ev' & out & -> & Hidx & Hsk & Hout);
      [lia | lia |]. cbn [mbind option_bind]. destruct out.
    + exists (mk_dict (ht0 d) (ht1 d) idx (iterators d)), true. split; [done|]. split.
      * split_and!; try done; cbn [rehashidx ht0]; [lia | lia |]. intros i Hi.
        destruct (decide (Z.of_nat i < rehashidx d)); [by apply Hemp | apply Hsk; lia].
      * by split_and!.
    + destruct Hout as (e & c & Hde). rewrite Hde. cbn [mbind option_bind].
      destruct (move_spec (e :: c) (ht1 d) Hh1) as (h1 & Hmv & _). rewrite Hmv. cbn [mbind option_bind].
      destruct (bucket_split _ _ _ Hde) as (a & b & _ & Hset). destruct (Hset []) as (t0 & Hwr & _). rewrite Hwr. cbn [mbind option_bind].
      assert (idx < size (ht0 d)) as Hidx2 by (apply rd_Some in Hde as [? Hx]; apply lookup_lt_Some in Hx; lia).
      destruct (rehash_bucket d (e :: c) idx h1 t0 Hd ltac:(lia) Hsk Hde Hmv Hwr) as [Hok Hperm].
      destruct (IH _ ev' Hok) as (d' & out & -> & Hok' & Hp' & Hi' & Hs' & Hprog). exists d', out. split; [done|].
      cbn [rehashidx iterators ht0 size] in *. split_and!; [done | by rewrite Hp' | done | done |].
      destruct out; [lia|]. destruct Hprog; [left; lia | by right].
Qed.

Lemma rehash_spec d n : dict_ok d -> exists d' r, dictRehash d n = Some (d', r) /\ dict_ok d' /\
  entries d' ≡ₚ entries d /\ iterators d' = iterators d /\ (ht_ok (ht0 d) -> ht_ok (ht0 d')) /\ (r = 0 <-> rehashidx d' = -1) /\
  (r <> 0 -> 0 < n -> 0 <= rehashidx d < rehashidx d' /\ rehashidx d' <= size (ht0 d') /\ size (ht0 d') = size (ht0 d)).
Proof.
  intros (Hnd & Hit & Hd). unfold dictRehash, dictIsRehashing. rewrite negb_involutive.
  destruct (rehashidx d =? -1) eqn:E; zbool.
  { exists d, 0. split_and!; try done. }
  destruct Hd as [[? _]|Hd]; [done|].
  destruct (rehash_loop_spec (Z.to_nat n) d (n * 10) Hd) as (d' & out & -> & Hok & Hp & Hi & Hs & Hprog).
  cbn [mbind option_bind]. pose proof Hok as (Hh0 & Hh1 & Hr & _). pose proof Hd as (_ & _ & Hr0 & _).
  assert (NoDup (entries d').*1) as Hnd' by (by rewrite Hp).
  destruct out; [|destruct (used (ht0 d') =? 0) eqn:Eu; zbool].
  - exists d', 1. split_and!; try done; [split_and!; [done | lia | by right] | lia | intros; split_and!; lia].
  - exists (mk_dict (ht1 d') _dictReset (-1) (iterators d')), 0. split; [done|].
    assert (ht_entries (ht0 d') = []) as He0.
    { destruct Hh0 as (_ & _ & Hu & _). apply nil_length_inv. lia. }
    assert (entries (mk_dict (ht1 d') _dictReset (-1) (iterators d')) = entries d') as He.
    { unfold entries. rewrite He0. cbn. by rewrite app_nil_r. }
    split_and!; [| by rewrite He | done | done | done | done].
    split_and!; [by rewrite He | cbn; lia |]. left. split_and!; [done | done | by right].
  - exists d', 1. split_and!; try done; [split_and!; [done | lia | by right] | lia | intros; split_and!; lia].
Qed.

Lemma step_spec d : dict_ok d ->
  exists d', (if dictIsRehashing d then _dictRehashStep d else Some d) = Some d' /\ dict_ok d' /\
    entries d' ≡ₚ entries d /\ iterators d' = iterators d /\ (ht_ok (ht0 d) -> ht_ok (ht0 d')).
Proof.
  intros Hd. unfold _dictRehashStep. destruct (dictIsRehashing d); [|by exists d].
  destruct (iterators d =? 0); [|by exists d].
  destruct (rehash_spec d 1 Hd) as (d' & r & -> & ? & ? & ? & ? & _). by exists d'.
Qed.

(** ** Lookup *)

Lemma dmap_perm d d' : NoDup (entries d).*1 -> entries d' ≡ₚ entries d -> dmap d' = dmap d.
Proof. intros Hnd Hp. unfold dmap. apply list_to_map_proper; [by rewrite Hp | done]. Qed.

Lemma dmap_lookup d k v : NoDup (entries d).*1 -> dmap d !! k = Some v <-> (k, v) ∈ entries d.
Proof. intros Hnd. unfold dmap. symmetry. by apply elem_of_list_to_map. Qed.

Lemma dmap_lookup_None d k : dmap d !! k = None <-> k ∉ (entries d).*1.
Proof. unfold dmap. symmetry. apply not_elem_of_list_to_map. Qed.

(** Where a table holds a key. *)
Lemma find_table d t key : ht_ok (ht d t) ->
  exists r, dictFind_table d (hashFunction key) key t = Some r /\
  match r with
  | Some (t', idx, p) => t' = t /\ idx = hidx (ht d t) key /\
      exists c v, rd (table (ht d t)) idx = Some c /\ c !! p = Some (key, v) /\ (key, v) ∈ ht_entries (ht d t)
  | None => key ∉ (ht_entries (ht d t)).*1
  end.
Proof.
  intros Hh. unfold dictFind_table. fold (hidx (ht d t) key). rewrite hidx_u32 by done.
  destruct (bucket_of _ key Hh) as (c & Hc & Hin). rewrite Hc. cbn [mbind option_bind].
  eexists. split; [done|]. pose proof (chain_find_spec c key) as Hf. destruct (chain_find c key) as [p|]; cbn.
  - destruct Hf as (v & Hp). split_and!; try done. exists c, v. split_and!; try done.
    apply Hin; [done|]. by eapply list_elem_of_lookup_2.
  - intros (e & -> & He)%list_elem_of_fmap. apply (Hf e); [|done]. by apply Hin.
Qed.

(** An entry pointer to the entry of [key]. *)
Definition points (d : dict) (r : eref) (key : K) (v : V) : Prop :=
  let '(t, idx, p) := r in
  idx = hidx (ht d t) key /\ ht_ok (ht d t) /\ exists c, rd (table (ht d t)) idx = Some c /\ c !! p = Some (key, v).

(** An operation left the contents alone. *)
Definition same (d d' : dict) : Prop := dict_ok d' /\ dmap d' = dmap d /\ iterators d' = iterators d.

Lemma ok_sized d : dict_ok d -> size (ht0 d) <> 0 -> ht_ok (ht0 d).
Proof. intros (_ & _ & [(_ & _ & [->|?])|(? & _)]); done. Qed.

Lemma ok_unsized d : dict_ok d -> size (ht0 d) = 0 -> ht0 d = _dictReset /\ ht1 d = _dictReset /\ rehashidx d = -1.
Proof.
  intros (_ & _ & [(? & ? & [?|Hh])|(Hh & _)]) Hs; [done | |]; pose proof (size_range _ Hh); lia.
Qed.

Lemma ok_rehashing d : dict_ok d -> dictIsRehashing d = true -> ht_ok (ht0 d) /\ ht_ok (ht1 d).
Proof.
  unfold dictIsRehashing. rewrite negb_true_iff, Z.eqb_neq. intros (_ & _ & [(? & _)|(? & ? & _)]) ?; [lia | done].
Qed.

Lemma ok_not_rehashing d : dict_ok d -> dictIsRehashing d = false -> ht1 d = _dictReset.
Proof.
  unfold dictIsRehashing. rewrite negb_false_iff, Z.eqb_eq.
  intros (_ & _ & [(_ & ? & _)|(_ & _ & ? & _)]) ?; [done | lia].
Qed.

Lemma step_same d : dict_ok d -> exists d', (if dictIsRehashing d then _dictRehashStep d else Some d) = Some d' /\
  same d d' /\ (ht_ok (ht0 d) -> ht_ok (ht0 d')).
Proof.
  intros Hd. destruct (step_spec d Hd) as (d' & -> & Hd' & Hp & Hi & Hh). exists d'. split; [done|].
  split; [|done]. split_and!; [done | by apply dmap_perm; [apply Hd|] | done].
Qed.

Lemma find_tables d key : dict_ok d -> ht_ok (ht0 d) -> exists r,
  (r ← dictFind_table d (hashFunction key) key false;
   match r with
   | Some r => Some (d, Some r)
   | None => if negb (dictIsRehashing d) then Some (d, None)
             else r ← dictFind_table d (hashFunction key) key true; Some (d, r)
   end) = Some (d, r) /\
  match r with
  | Some r => exists v, dmap d !! key = Some v /\ points d r key v
  | None => dmap d !! key = None
  end.
Proof.
  intros Hd Hh0. pose proof Hd as (Hnd & _).
  destruct (find_table d false key Hh0) as (r & -> & Hr). cbn [mbind option_bind].
  destruct r as [[[t idx] p]|].
  - destruct Hr as (-> & Hidx & c & v & Hc & Hp & Hin). eexists. split; [done|]. exists v.
    split; [|split; [done | split; [done | by exists c]]]. apply dmap_lookup; [done|]. unfold entries. set_solver.
  - destruct (dictIsRehashing d) eqn:Er; cbn [negb].
    + destruct (ok_rehashing d Hd Er) as [_ Hh1].
      destruct (find_table d true key Hh1) as (r & -> & Hr1). cbn [mbind option_bind]. exists r. split; [done|].
      destruct r as [[[t idx] p]|].
      * destruct Hr1 as (-> & Hidx & c & v & Hc & Hp & Hin). exists v.
        split; [|split; [done | split; [done | by exists c]]]. apply dmap_lookup; [done|]. unfold entries. set_solver.
      * apply dmap_lookup_None. unfold entries. rewrite fmap_app. cbn [ht] in *. set_solver.
    + exists None. split; [done|]. apply dmap_lookup_None. unfold entries. rewrite (ok_not_rehashing d Hd Er).
      cbn [ht] in *. cbn. by rewrite app_nil_r.
Qed.

Lemma find_spec d key : dict_ok d -> exists d' r, dictFind d key = Some (d', r) /\ same d d' /\
  match r with
  | Some r => exists v, dmap d !! key = Some v /\ points d' r key v
  | None => dmap d !! key = None
  end.
Proof.
  intros Hd. unfold dictFind. destruct (size (ht0 d) =? 0) eqn:Es; zbool.
  { exists d, None. split_and!; try done. apply dmap_lookup_None. unfold entries.
    destruct (ok_unsized d Hd Es) as (-> & -> & _). cbn. by intros ?%elem_of_nil. }
  destruct (step_same d Hd) as (d' & -> & Hs & Hh). cbn [mbind option_bind].
  destruct Hs as (Hd' & Hm & Hi). destruct (find_tables d' key Hd' (Hh (ok_sized d Hd Es))) as (r & -> & Hr).
  exists d', r. split; [done|]. split; [done|]. by rewrite <- Hm.
Qed.

(** ** Updating an entry *)

Lemma getEntry_points d r key v : points d r key v -> dictGetEntry d r = Some (key, v).
Proof. destruct r as [[t idx] p]. intros (_ & _ & c & Hc & Hp). unfold dictGetEntry. by rewrite Hc. Qed.

Lemma chain_update (c : list (K * V)) p key v val a b : c !! p = Some (key, v) ->
  NoDup (a ++ c ++ b).*1 ->
  list_to_map (a ++ <[p := (key, val)]> c ++ b) = <[key := val]> (list_to_map (a ++ c ++ b) : gmap K V) /\
  (a ++ <[p := (key, val)]> c ++ b).*1 = (a ++ c ++ b).*1.
Proof.
  intros Hp Hnd. assert ((a ++ <[p := (key, val)]> c ++ b).*1 = (a ++ c ++ b).*1) as Hk.
  { rewrite !fmap_app. do 2 f_equal. rewrite list_fmap_insert. apply list_insert_id.
    rewrite list_lookup_fmap, Hp. done. }
  split; [|done]. pose proof (lookup_lt_Some _ _ _ Hp) as Hlt.
  assert (c = take p c ++ (key, v) :: drop (S p) c) as Hc by (symmetry; by apply take_drop_middle).
  rewrite insert_take_drop by done. set (c1 := take p c) in *. set (c2 := drop (S p) c) in *. rewrite Hc in *. clear Hc.
  apply (map_eq (M := gmap K)). intros k.
  assert (forall w, list_to_map (a ++ (c1 ++ (key, w) :: c2) ++ b) = <[key := w]> (list_to_map (a ++ (c1 ++ c2) ++ b) : gmap K V)) as Hw.
  { intros w. rewrite <- list_to_map_cons. apply list_to_map_proper.
    - rewrite !fmap_app, !fmap_cons in *. done.
    - solve_Permutation. }
  rewrite !Hw. by rewrite insert_insert_eq.
Qed.

(** Replacing the bucket of [key] in table [t]. *)
Lemma table_update d t key c c' : dict_ok d -> ht_ok (ht d t) -> rd (table (ht d t)) (hidx (ht d t) key) = Some c ->
  (forall e, e ∈ c' -> hidx (ht d t) e.1 = hidx (ht d t) key) -> (t = false -> dictIsRehashing d = true -> c <> []) ->
  exists a b tb, wr (table (ht d t)) (hidx (ht d t) key) c' = Some tb /\ entries d = a ++ c ++ b /\
    let d' := set_ht d t (mk_dictht tb (size (ht d t)) (sizemask (ht d t)) (used (ht d t) + zlen c' - zlen c)) in
    (NoDup (a ++ c' ++ b).*1 -> dict_ok d') /\ entries d' = a ++ c' ++ b /\
    tb = <[Z.to_nat (hidx (ht d t) key) := c']> (table (ht d t)) /\ ht_ok (ht d' t).
Proof.
  intros (Hnd & Hit & Hcase) Hh Hc Hc' Hne.
  destruct (set_bucket _ key c c' Hh Hc Hc') as (a & b & tb & Hwr & Hab & Hok & Hent & Htb).
  destruct t; cbn [ht set_ht] in *.
  - exists (ht_entries (ht0 d) ++ a), b, tb. split; [done|]. unfold entries. rewrite Hab. split; [by rewrite <- app_assoc|].
    cbn [ht0 ht1 ht set_ht]. rewrite Hent. split_and!; [|by rewrite <- app_assoc | done | done]. intros Hnd'.
    split_and!; [cbn [entries]; unfold entries; cbn [ht0 ht1]; rewrite Hent; by rewrite <- app_assoc in Hnd' | done |]. right.
    destruct Hcase as [(_ & H1 & _)|(H0 & _ & Hr & Hemp)]; [rewrite H1 in Hh; pose proof (size_range _ Hh); cbn in *; lia|].
    split_and!; try done; cbn; lia.
  - exists a, (b ++ ht_entries (ht1 d)), tb. split; [done|]. unfold entries. rewrite Hab. split; [by rewrite <- !app_assoc|].
    cbn [ht0 ht1 ht set_ht]. rewrite Hent. split_and!; [|by rewrite <- !app_assoc | done | done]. intros Hnd'.
    split_and!; [unfold entries; cbn [ht0 ht1]; rewrite Hent; by rewrite <- !app_assoc | done |].
    destruct Hcase as [(Hr & H1 & _)|(H0 & H1 & Hr & Hemp)]; [left; split_and!; [done | done | by right]|right].
    split_and!; try done; cbn [rehashidx size ht0]; [lia | lia |]. intros i Hi. cbn [table]. rewrite Htb, list_lookup_insert.
    case_decide as Hd; [|by apply Hemp]. exfalso. destruct Hd as [<- Hlt].
    apply Hne; [done | unfold dictIsRehashing; apply negb_true_iff, Z.eqb_neq; lia |].
    apply rd_Some in Hc as [_ Hc]. rewrite Hemp in Hc by done. by simplify_eq.
Qed.

Lemma setVal_spec d r key v val : dict_ok d -> points d r key v ->
  exists d', dictSetVal d r val = Some d' /\ dict_ok d' /\ (dmap d !! key = Some v -> dmap d' = <[key := val]> (dmap d)) /\
    iterators d' = iterators d.
Proof.
  destruct r as [[t idx] p]. intros Hd (-> & Hh & c & Hc & Hp). unfold dictSetVal. rewrite Hc. cbn [mbind option_bind].
  rewrite Hp. cbn [mbind option_bind fst]. pose proof (lookup_lt_Some _ _ _ Hp) as Hlt.
  assert (forall e, e ∈ c -> hidx (ht d t) e.1 = hidx (ht d t) key) as Hsame.
  { intros e He. pose proof Hc as [Hpos Hci]%rd_Some. destruct Hh as (_ & _ & _ & Hb). pose proof (Hb _ c e Hci He). unfold hidx in *. lia. }
  destruct (table_update d t key c (<[p := (key, val)]> c) Hd Hh Hc) as (a & b & tb & -> & Hab & Hok & Hent & Htb & _).
  - intros e (i & He)%list_elem_of_lookup_1. rewrite list_lookup_insert in He.
    case_decide; [by simplify_eq | apply Hsame; by eapply list_elem_of_lookup_2].
  - intros _ _ ->. done.
  - cbn [mbind option_bind fst]. rewrite length_insert in *. replace (used (ht d t) + zlen c - zlen c) with (used (ht d t)) in * by lia.
    eexists. split; [done|]. pose proof Hd as (Hnd & _). rewrite Hab in Hnd.
    destruct (chain_update c p key v val a b Hp Hnd) as [Hm Hk]. split; [apply Hok; by rewrite Hk|].
    split; [|by destruct t]. intros _. unfold dmap. by rewrite Hent, Hab, Hm.
Qed.

(** ** Growing *)

Lemma nextPower_spec sz : sz <= 2 ^ 30 -> exists k, 2 <= k <= 30 /\ _dictNextPower sz = Some (2 ^ k) /\ sz <= 2 ^ k.
Proof.
  intros Hs. unfold _dictNextPower, LONG_MAX. zfalse (sz >=? 9223372036854775807).
  assert (forall fuel j, 2 <= j <= 30 -> 30 - j < Z.of_nat fuel ->
    exists k, 2 <= k <= 30 /\ dictNextPower_loop fuel (2 ^ j) sz = Some (2 ^ k) /\ sz <= 2 ^ k) as Hloop.
  { induction fuel as [|fuel IH]; intros j Hj Hf; [lia|]. cbn [dictNextPower_loop].
    destruct (2 ^ j >=? sz) eqn:E; zbool; [by exists j|].
    assert (j <> 30) by (intros ->; lia).
    assert (2 ^ j * 2 = 2 ^ (j + 1)) as -> by (rewrite Z.pow_add_r by lia; lia).
    assert (2 ^ (j + 1) <= 2 ^ 30) by (apply Z.pow_le_mono_r; lia).
    rewrite uwrap_small by lia. apply IH; lia. }
  apply (Hloop 64%nat 2); lia.
Qed.

Lemma fresh_table k : 2 <= k <= 30 ->
  let n := mk_dictht (replicate (Z.to_nat (2 ^ k)) []) (2 ^ k) (2 ^ k - 1) 0 in ht_ok n /\ ht_entries n = [].
Proof.
  intros Hk n. assert (ht_entries n = []) as Hn.
  { unfold ht_entries, n. cbn [table]. apply concat_nil. intros i Hi. rewrite length_replicate in Hi. by apply lookup_replicate. }
  split; [|done]. split; [by exists k|]. rewrite Hn. subst n. cbn [table size sizemask used].
  assert (0 < 2 ^ k) by (apply Z.pow_pos_nonneg; lia).
  split_and!; [rewrite length_replicate; lia | done |]. intros i c e Hi He.
  apply lookup_replicate in Hi as [-> _]. by apply elem_of_nil in He.
Qed.

Lemma expand_spec d sz : dict_ok d -> sz <= 2 ^ 30 -> exists d' ok, dictExpand d sz = Some (d', ok) /\ same d d' /\
  (ok = true -> ht_ok (ht0 d')) /\
  (dictIsRehashing d = false -> used (ht0 d) <= sz -> size (ht0 d) < sz -> ok = true).
Proof.
  intros Hd Hs. unfold dictExpand. destruct (nextPower_spec sz Hs) as (k & Hk & -> & Hle). cbn [mbind option_bind].
  destruct (dictIsRehashing d || (used (ht0 d) >? sz)) eqn:E1.
  { exists d, false. split_and!; try done. intros Hr Hu. rewrite Hr in E1. zbool. lia. }
  apply orb_false_iff in E1 as [Er Eu].
  destruct (2 ^ k =? size (ht0 d)) eqn:E2; zbool.
  { exists d, false. split_and!; try done. lia. }
  destruct (fresh_table k Hk) as [Hn Hne].
  pose proof Hd as (Hnd & Hit & Hcase). pose proof (ok_not_rehashing d Hd Er) as H1.
  destruct (table (ht0 d)) as [|c t] eqn:Et.
  - assert (size (ht0 d) = 0) as Hz.
    { destruct (decide (size (ht0 d) = 0)) as [|Hx]; [done|]. destruct (ok_sized d Hd Hx) as (_ & Hl & _). by rewrite Et in Hl. }
    destruct (ok_unsized d Hd Hz) as (H0 & _ & Hrh).
    eexists _, true. split; [done|]. split; [|done].
    assert (entries d = []) as Hed by (unfold entries; by rewrite H0, H1).
    assert (entries (mk_dict (mk_dictht (replicate (Z.to_nat (2 ^ k)) []) (2 ^ k) (2 ^ k - 1) 0) (ht1 d) (rehashidx d) (iterators d)) = []) as He.
    { unfold entries. cbn [ht0 ht1]. by rewrite Hne, H1. }
    split; [|split; [unfold dmap; by rewrite He, Hed | done]]. split; [rewrite He; constructor|]. split; [done|]. left.
    split_and!; [done | done | by right].
  - eexists _, true. split; [done|].
    assert (ht_ok (ht0 d)) as H0.
    { destruct Hcase as [(_ & _ & [H0|H0])|(H0 & _)]; [by rewrite H0 in Et | done | done]. }
    split; [|done]. split; [|split; [unfold dmap, entries; cbn [ht0 ht1]; by rewrite Hne, H1 | done]].
    split; [unfold entries in *; cbn [ht0 ht1]; rewrite Hne; by rewrite H1 in Hnd|]. split; [done|]. right.
    pose proof (size_range _ H0). split_and!; [done | done | cbn; lia | cbn; lia | cbn; lia].
Qed.

Lemma expandIfNeeded_spec can d : dict_ok d -> used (ht0 d) <= 2 ^ 29 ->
  exists d', _dictExpandIfNeeded can d = Some (d', true) /\ same d d' /\ ht_ok (ht0 d').
Proof.
  intros Hd Hu. unfold _dictExpandIfNeeded. destruct (dictIsRehashing d) eqn:Er.
  { exists d. split; [done|]. split; [done|]. by apply ok_rehashing. }
  destruct (size (ht0 d) =? 0) eqn:Es; zbool.
  { destruct (expand_spec d DICT_HT_INITIAL_SIZE Hd ltac:(unfold DICT_HT_INITIAL_SIZE; lia)) as (d' & ok & -> & Hs & Hok & Ht).
    destruct (ok_unsized d Hd Es) as (H0 & _). rewrite Ht in * by (done || rewrite H0; cbn; done). exists d'. auto. }
  pose proof (ok_sized d Hd Es) as H0. pose proof (size_range _ H0).
  destruct (_ && _) eqn:E; [|by exists d]. apply andb_true_iff in E as [E _]. zbool.
  rewrite (uwrap_small 64) by lia.
  destruct (expand_spec d (used (ht0 d) * 2) Hd ltac:(lia)) as (d' & ok & -> & Hs & Hok & Ht).
  rewrite Ht in * by (done || lia). exists d'. auto.
Qed.

(** ** Adding *)

Lemma chain_find_None (h : dictht) key c : ht_ok h -> rd (table h) (hidx h key) = Some c ->
  chain_find c key = None <-> key ∉ (ht_entries h).*1.
Proof.
  intros Hh Hc. destruct (bucket_of h key Hh) as (c' & Hc' & Hin). simplify_eq. pose proof (chain_find_spec c key) as Hf.
  destruct (chain_find c key) as [p|].
  - split; [done|]. intros Hk. destruct Hf as (v & Hp). exfalso. apply Hk. apply list_elem_of_fmap. exists (key, v).
    split; [done|]. apply Hin; [done|]. by eapply list_elem_of_lookup_2.
  - split; [|done]. intros _ (e & -> & He)%list_elem_of_fmap. apply (Hf e); [|done]. by apply Hin.
Qed.

Lemma keyIndex_spec can d key : dict_ok d -> used (ht0 d) <= 2 ^ 29 ->
  exists d' r, _dictKeyIndex can d key = Some (d', r) /\ same d d' /\ ht_ok (ht0 d') /\
  (dmap d !! key = None -> r = Some (hidx (ht d' (dictIsRehashing d')) key)) /\
  (is_Some (dmap d !! key) -> r = None).
Proof.
  intros Hd Hu. unfold _dictKeyIndex.
  destruct (expandIfNeeded_spec can d Hd Hu) as (d1 & -> & (Hd1 & Hm & Hi) & H0). cbn [mbind option_bind negb].
  rewrite <- Hm. fold (hidx (ht0 d1) key). rewrite hidx_u32 by done.
  destruct (bucket_of _ key H0) as (c0 & Hc0 & _). rewrite Hc0. cbn [mbind option_bind].
  pose proof (chain_find_None _ _ _ H0 Hc0) as Hf0. pose proof (dmap_lookup_None d1 key) as Hnone.
  unfold entries in Hnone. rewrite fmap_app in Hnone.
  destruct (chain_find c0 key) as [p|].
  { exists d1, None. split_and!; try done. intros Hk. exfalso. assert (key ∉ (ht_entries (ht0 d1)).*1) as Hx by set_solver. by apply Hf0 in Hx. }
  pose proof (proj1 Hf0 eq_refl) as Hn0. destruct (dictIsRehashing d1) eqn:Er; cbn [negb].
  - destruct (ok_rehashing d1 Hd1 Er) as [_ H1]. fold (hidx (ht1 d1) key). rewrite hidx_u32 by done.
    destruct (bucket_of _ key H1) as (c1 & Hc1 & _). rewrite Hc1. cbn [mbind option_bind].
    pose proof (chain_find_None _ _ _ H1 Hc1) as Hf1. destruct (chain_find c1 key) as [p|].
    + exists d1, None. split_and!; try done. intros Hk. exfalso. assert (key ∉ (ht_entries (ht1 d1)).*1) as Hx by set_solver. by apply Hf1 in Hx.
    + eexists d1, _. split; [done|]. rewrite hidx_s32, Er by done. split_and!; try done.
      intros Hk%not_eq_None_Some. exfalso. apply Hk, Hnone. set_solver.
  - eexists d1, _. split; [done|]. rewrite hidx_s32 by done. rewrite Er. split_and!; try done.
    intros Hk%not_eq_None_Some. exfalso. apply Hk, Hnone. rewrite (ok_not_rehashing d1 Hd1 Er). cbn. rewrite app_nil_r. done.
Qed.

Lemma used_entries d : dict_ok d -> dictSize d = zlen (entries d) /\ used (ht0 d) <= zlen (entries d).
Proof.
  intros (_ & _ & Hcase). unfold dictSize, entries. rewrite length_app.
  assert (used (ht0 d) = zlen (ht_entries (ht0 d)) /\ used (ht1 d) = zlen (ht_entries (ht1 d))) as [-> ->].
  { destruct Hcase as [(_ & -> & [->|(_ & _ & H0 & _)])|((_ & _ & H0 & _) & (_ & _ & H1 & _) & _)]; done. }
  lia.
Qed.

Lemma size_dmap d : dict_ok d -> zlen (entries d) = Z.of_nat (base.size (dmap d)).
Proof.
  intros (Hnd & _). rewrite <- length_map_to_list. unfold dmap. by rewrite map_to_list_to_map.
Qed.

Lemma addRaw_spec can uninit d key : dict_ok d -> zlen (entries d) <= 2 ^ 29 ->
  exists d' r, dictAddRaw can uninit d key = Some (d', r) /\ dict_ok d' /\ iterators d' = iterators d /\
  match r with
  | Some r => dmap d !! key = None /\ dmap d' = <[key := uninit]> (dmap d) /\ points d' r key uninit
  | None => is_Some (dmap d !! key) /\ dmap d' = dmap d
  end.
Proof.
  intros Hd Hb. unfold dictAddRaw.
  destruct (step_spec d Hd) as (d1 & -> & Hd1 & Hp1 & Hi1 & _). cbn [mbind option_bind].
  pose proof (dmap_perm d d1 ltac:(apply Hd) Hp1) as Hm1. pose proof (proj2 (used_entries d1 Hd1)) as Hu1. rewrite Hp1 in Hu1.
  destruct (keyIndex_spec can d1 key Hd1 ltac:(lia)) as (d2 & r & -> & (Hd2 & Hm2 & Hi2) & H02 & Hnone & Hsome).
  cbn [mbind option_bind]. rewrite <- Hm1. rewrite Hm1 in Hm2. destruct (dmap d1 !! key) as [v|] eqn:Ek.
  { rewrite Hsome by eauto. exists d2, None. split_and!; try done; [congruence | congruence]. }
  rewrite Hnone by done. clear Hnone Hsome. set (t := dictIsRehashing d2) in *.
  assert (ht_ok (ht d2 t)) as Ht.
  { subst t. destruct (dictIsRehashing d2) eqn:Er; [by apply ok_rehashing | done]. }
  pose proof (hidx_range _ key Ht). zfalse (hidx (ht d2 t) key =? -1).
  destruct (bucket_of _ key Ht) as (c & Hc & _). rewrite Hc. cbn [mbind option_bind].
  assert (forall e, e ∈ c -> hidx (ht d2 t) e.1 = hidx (ht d2 t) key) as Hsame.
  { intros e He. pose proof Hc as [Hpos Hci]%rd_Some. destruct Ht as (_ & _ & _ & Hbk). pose proof (Hbk _ c e Hci He). unfold hidx in *. lia. }
  destruct (table_update d2 t key c ((key, uninit) :: c) Hd2 Ht Hc) as (a & b & tb & -> & Hab & Hok & Hent & Htb & Ht').
  - intros e [->|He]%elem_of_cons; [done | by apply Hsame].
  - intros Ht0 Hr. subst t. congruence.
  - cbn [mbind option_bind]. replace (used (ht d2 t) + zlen ((key, uninit) :: c) - zlen c) with (used (ht d2 t) + 1) in * by (cbn [length]; lia).
    assert (NoDup (a ++ ((key, uninit) :: c) ++ b).*1) as Hnd.
    { assert (a ++ ((key, uninit) :: c) ++ b ≡ₚ (key, uninit) :: entries d2) as -> by (rewrite Hab; cbn; solve_Permutation).
      cbn. constructor; [|apply Hd2]. apply dmap_lookup_None. congruence. }
    specialize (Hok Hnd). eexists _, _. split; [done|]. split; [done|]. split; [destruct t; cbn; congruence|].
    split; [congruence|]. split.
    + unfold dmap at 1. rewrite Hent. rewrite Hm1, <- Hm2. unfold dmap. rewrite <- list_to_map_cons.
      apply list_to_map_proper; [done|]. rewrite Hab. cbn. solve_Permutation.
    + assert (forall X, sizemask (ht (set_ht d2 t X) t) = sizemask X) as Hsm by (by destruct t).
      assert (forall X, ht (set_ht d2 t X) t = X) as Hht by (by destruct t).
      split; [unfold hidx; by rewrite Hsm|]. split; [done|]. rewrite Hht. cbn [table]. exists ((key, uninit) :: c).
      split; [|done]. rewrite Htb. apply rd_Some. split; [lia|]. apply list_lookup_insert_eq.
      apply rd_Some in Hc as [_ Hc]. by eapply lookup_lt_Some.
Qed.

Lemma add_spec can uninit d key val : dict_ok d -> zlen (entries d) <= 2 ^ 29 ->
  exists d' , dictAdd can uninit d key val = Some (d', bool_decide (dmap d !! key = None)) /\ dict_ok d' /\ iterators d' = iterators d /\
  dmap d' = (if decide (dmap d !! key = None) then <[key := val]> (dmap d) else dmap d).
Proof.
  intros Hd Hb. unfold dictAdd. destruct (addRaw_spec can uninit d key Hd Hb) as (d1 & r & -> & Hd1 & Hi1 & Hr).
  cbn [mbind option_bind]. destruct r as [r|].
  - destruct Hr as (Hn & Hm & Hp). destruct (setVal_spec d1 r key uninit val Hd1 Hp) as (d2 & -> & Hd2 & Hm2 & Hi2).
    cbn [mbind option_bind]. exists d2. rewrite (bool_decide_eq_true_2 _ Hn), (decide_True _ _ Hn). split_and!; [done | done | congruence |].
    rewrite Hm2 by (rewrite Hm; apply lookup_insert_eq). rewrite Hm. apply insert_insert_eq.
  - destruct Hr as [Hs Hm]. exists d1. apply not_eq_None_Some in Hs.
    rewrite (bool_decide_eq_false_2 _ Hs), (decide_False _ _ Hs). done.
Qed.

Lemma replace_spec can uninit d key val : dict_ok d -> zlen (entries d) <= 2 ^ 29 ->
  exists d', dictReplace can uninit d key val = Some (d', bool_decide (dmap d !! key = None)) /\ dict_ok d' /\
    iterators d' = iterators d /\ dmap d' = <[key := val]> (dmap d).
Proof.
  intros Hd Hb. unfold dictReplace. destruct (add_spec can uninit d key val Hd Hb) as (d1 & -> & Hd1 & Hi1 & Hm1).
  cbn [mbind option_bind]. case_bool_decide as Hn.
  - exists d1. rewrite (decide_True _ _ Hn) in Hm1. done.
  - rewrite (decide_False _ _ Hn) in Hm1. destruct (find_spec d1 key Hd1) as (d2 & r & -> & (Hd2 & Hm2 & Hi2) & Hr).
    cbn [mbind option_bind]. destruct r as [r|]; [|congruence]. destruct Hr as (v & Hv & Hp). cbn [mbind option_bind].
    destruct (setVal_spec d2 r key v val Hd2 Hp) as (d3 & -> & Hd3 & Hm3 & Hi3). cbn [mbind option_bind].
    exists d3. split_and!; [done | done | congruence |]. rewrite Hm3 by congruence. congruence.
Qed.

Lemma fetch_spec d key : dict_ok d -> exists d', dictFetchValue d key = Some (d', dmap d !! key) /\ same d d'.
Proof.
  intros Hd. unfold dictFetchValue. destruct (find_spec d key Hd) as (d1 & r & -> & Hs & Hr). cbn [mbind option_bind].
  exists d1. destruct r as [r|]; [|by rewrite Hr]. destruct Hr as (v & Hv & Hp).
  unfold dictGetVal. rewrite (getEntry_points _ _ _ _ Hp). cbn. by rewrite Hv.
Qed.

Lemma resize_spec can d : dict_ok d -> zlen (entries d) <= 2 ^ 29 ->
  exists d' ok, dictResize can d = Some (d', ok) /\ same d d'.
Proof.
  intros Hd Hb. unfold dictResize, DICT_HT_INITIAL_SIZE. destruct (_ || _); [by exists d, false|].
  pose proof (used_entries d Hd) as [_ Hu].
  assert (0 <= used (ht0 d)) as Hu0.
  { destruct Hd as (_ & _ & [(_ & _ & [->|(_ & _ & -> & _)])|((_ & _ & -> & _) & _)]); cbn; lia. }
  rewrite (swrap_small 32) by (simpl; lia).
  destruct (used (ht0 d) <? 4) eqn:E; zbool; rewrite (uwrap_small 64) by lia.
  - destruct (expand_spec d 4 Hd ltac:(lia)) as (d' & ok & -> & Hs & _). by exists d', ok.
  - destruct (expand_spec d (used (ht0 d)) Hd ltac:(lia)) as (d' & ok & -> & Hs & _). by exists d', ok.
Qed.

(** ** Deleting *)

Lemma chain_delete (c : list (K * V)) p key v a b : c !! p = Some (key, v) -> NoDup (a ++ c ++ b).*1 ->
  (key, v) :: a ++ delete p c ++ b ≡ₚ a ++ c ++ b /\
  list_to_map (a ++ delete p c ++ b) = delete key (list_to_map (a ++ c ++ b) : gmap K V).
Proof.
  intros Hp Hnd. assert ((key, v) :: a ++ delete p c ++ b ≡ₚ a ++ c ++ b) as Hperm.
  { rewrite <- (delete_Permutation c p (key, v) Hp) || rewrite (delete_Permutation c p (key, v) Hp) at 2. cbn. solve_Permutation. }
  split; [done|].
  assert (list_to_map (a ++ c ++ b) = <[key := v]> (list_to_map (a ++ delete p c ++ b)) :> gmap K V) as ->.
  { rewrite <- list_to_map_cons. apply list_to_map_proper; [done | by symmetry]. }
  rewrite <- Hperm in Hnd. cbn in Hnd. apply NoDup_cons in Hnd as [Hk _].
  rewrite delete_insert_id; [done|]. by apply not_elem_of_list_to_map.
Qed.

Lemma delete_table d t key : dict_ok d -> ht_ok (ht d t) -> exists r,
  dictDelete_table d (hashFunction key) key t = Some r /\
  match r with
  | Some d' => dict_ok d' /\ iterators d' = iterators d /\ is_Some (dmap d !! key) /\ dmap d' = delete key (dmap d)
  | None => key ∉ (ht_entries (ht d t)).*1
  end.
Proof.
  intros Hd Hh. unfold dictDelete_table. fold (hidx (ht d t) key). rewrite hidx_u32 by done.
  destruct (bucket_of _ key Hh) as (c & Hc & Hin). rewrite Hc. cbn [mbind option_bind].
  pose proof (chain_find_spec c key) as Hf. pose proof (chain_find_None _ _ _ Hh Hc) as Hfn.
  destruct (chain_find c key) as [p|]; [|eexists; split; [done | by apply Hfn]]. clear Hfn.
  destruct Hf as (v & Hp). pose proof (lookup_lt_Some _ _ _ Hp) as Hlt.
  assert (forall e, e ∈ c -> hidx (ht d t) e.1 = hidx (ht d t) key) as Hsame.
  { intros e He. pose proof Hc as [Hpos Hci]%rd_Some. destruct Hh as (_ & _ & _ & Hbk). pose proof (Hbk _ c e Hci He). unfold hidx in *. lia. }
  destruct (table_update d t key c (delete p c) Hd Hh Hc) as (a & b & tb & -> & Hab & Hok & Hent & Htb & Ht').
  - intros e He. apply Hsame. by eapply sublist_subseteq; [apply sublist_delete|].
  - intros _ _ ->. done.
  - cbn [mbind option_bind]. rewrite length_delete in * by eauto.
    replace (used (ht d t) + Z.of_nat (length c - 1) - zlen c) with (used (ht d t) - 1) in * by lia.
    pose proof Hd as (Hnd & _). rewrite Hab in Hnd. destruct (chain_delete c p key v a b Hp Hnd) as [Hperm Hm].
    eexists. split; [done|]. split.
    { apply Hok. rewrite <- Hperm in Hnd. cbn in Hnd. by apply NoDup_cons in Hnd as [_ ?]. }
    split; [by destruct t|]. split.
    + exists v. apply dmap_lookup; [apply Hd|]. rewrite Hab. apply list_elem_of_lookup_2 in Hp. set_solver.
    + unfold dmap. by rewrite Hent, Hab.
Qed.

Lemma delete_spec d key : dict_ok d ->
  exists d', dictGenericDelete d key = Some (d', bool_decide (is_Some (dmap d !! key))) /\ dict_ok d' /\
    iterators d' = iterators d /\ dmap d' = delete key (dmap d).
Proof.
  intros Hd. unfold dictGenericDelete. destruct (size (ht0 d) =? 0) eqn:Es; zbool.
  { destruct (ok_unsized d Hd Es) as (H0 & H1 & _).
    assert (dmap d = ∅) as Hm by (unfold dmap, entries; by rewrite H0, H1).
    exists d. rewrite Hm, lookup_empty, delete_empty. by rewrite bool_decide_eq_false_2 by (by intros [? ?]). }
  destruct (step_same d Hd) as (d1 & -> & (Hd1 & Hm1 & Hi1) & Hh1). cbn [mbind option_bind].
  specialize (Hh1 (ok_sized d Hd Es)). rewrite <- Hm1, <- Hi1.
  destruct (delete_table d1 false key Hd1 Hh1) as (r & -> & Hr). cbn [mbind option_bind].
  destruct r as [d2|].
  { destruct Hr as (? & ? & Hs & ?). exists d2. by rewrite (bool_decide_eq_true_2 _ Hs). }
  pose proof (dmap_lookup_None d1 key) as Hnone. unfold entries in Hnone. rewrite fmap_app in Hnone. cbn [ht] in Hr.
  assert (key ∉ (ht_entries (ht1 d1)).*1 -> exists d', Some (d1, false) = Some (d', bool_decide (is_Some (dmap d1 !! key))) /\
    dict_ok d' /\ iterators d' = iterators d1 /\ dmap d' = delete key (dmap d1)) as Habsent.
  { intros H1. assert (dmap d1 !! key = None) as Hn by (apply Hnone; set_solver). exists d1. rewrite Hn.
    rewrite bool_decide_eq_false_2 by (by intros [? ?]). by rewrite delete_id. }
  destruct (dictIsRehashing d1) eqn:Er; cbn [negb].
  - destruct (ok_rehashing d1 Hd1 Er) as [_ H1].
    destruct (delete_table d1 true key Hd1 H1) as (r & -> & Hr1). cbn [mbind option_bind]. destruct r as [d2|].
    + destruct Hr1 as (? & ? & Hs & ?). exists d2. by rewrite (bool_decide_eq_true_2 _ Hs).
    + by apply Habsent.
  - apply Habsent. rewrite (ok_not_rehashing d1 Hd1 Er). cbn. by intros ?%elem_of_nil.
Qed.

Lemma create_ok : dict_ok dictCreate /\ dmap dictCreate = ∅.
Proof.
  split; [|done]. split; [constructor|]. split; [done|]. left. auto.
Qed.

Lemma empty_ok d : dict_ok (dictEmpty d) /\ dmap (dictEmpty d) = ∅.
Proof. exact create_ok. Qed.

End Rep.

(** ** Runs of operations *)

Section Run.
Context {K V : Type} `{HC : Countable K} `{HT : DictType K}.
#[local] Abbreviation dict := (@dict K V).

(** The operations, with the resize flag of the moment where it is read. *)
Inductive dop :=
| DAdd (can : bool) (k : K) (v : V)
| DReplace (can : bool) (k : K) (v : V)
| DDelete (k : K)
| DFetch (k : K)
| DSize
| DResize (can : bool)
| DExpand (sz : Z)
| DRehash (n : Z)
| DRehashMs (late : list bool)
| DEmpty.

Inductive dres := RDone | RBool (b : bool) | RVal (v : option V) | RNum (n : Z).

Definition dstep (uninit : V) (d : dict) (o : dop) : option (dict * dres) :=
  match o with
  | DAdd can k v => '(d, ok) ← dictAdd can uninit d k v; Some (d, RBool ok)
  | DReplace can k v => '(d, new) ← dictReplace can uninit d k v; Some (d, RBool new)
  | DDelete k => '(d, ok) ← dictDelete d k; Some (d, RBool ok)
  | DFetch k => '(d, v) ← dictFetchValue d k; Some (d, RVal v)
  | DSize => Some (d, RNum (dictSize d))
  | DResize can => '(d, _) ← dictResize can d; Some (d, RDone)
  | DExpand sz => '(d, _) ← dictExpand d sz; Some (d, RDone)
  | DRehash n => '(d, _) ← dictRehash d n; Some (d, RDone)
  | DRehashMs late => '(d, _) ← dictRehashMilliseconds late d 0; Some (d, RDone)
  | DEmpty => Some (dictEmpty d, RDone)
  end.

(** The same operations on a finite map. *)
Definition mstep (m : gmap K V) (o : dop) : gmap K V * dres :=
  match o with
  | DAdd _ k v => (if decide (m !! k = None) then <[k := v]> m else m, RBool (bool_decide (m !! k = None)))
  | DReplace _ k v => (<[k := v]> m, RBool (bool_decide (m !! k = None)))
  | DDelete k => (delete k m, RBool (bool_decide (is_Some (m !! k))))
  | DFetch k => (m, RVal (m !! k))
  | DSize => (m, RNum (Z.of_nat (base.size m)))
  | DEmpty => (∅, RDone)
  | _ => (m, RDone)
  end.

Fixpoint drun (uninit : V) (d : dict) (os : list dop) : option (dict * list dres) :=
  match os with
  | [] => Some (d, [])
  | o :: os => '(d, r) ← dstep uninit d o; '(d, rs) ← drun uninit d os; Some (d, r :: rs)
  end.

Fixpoint mrun (m : gmap K V) (os : list dop) : gmap K V * list dres :=
  match os with
  | [] => (m, [])
  | o :: os => let '(m, r) := mstep m o in let '(m, rs) := mrun m os in (m, r :: rs)
  end.

Definition op_ok (o : dop) : Prop := match o with DExpand sz => sz <= 2 ^ 30 | _ => True end.

Lemma rehashMs_spec late : forall (d : dict) n, dict_ok d ->
  exists d' r, dictRehashMilliseconds late d n = Some (d', r) /\ same d d' /\
    (late = replicate (length late) false -> rehashidx d' = -1 \/
      (0 <= rehashidx d /\ rehashidx d + zlen late < rehashidx d' /\ rehashidx d' <= size (ht0 d') /\ size (ht0 d') = size (ht0 d))).
Proof.
  induction late as [|b late IH]; intros d n Hd; cbn [dictRehashMilliseconds];
    destruct (rehash_spec d 100 Hd) as (d1 & r & -> & Hd1 & Hp & Hi & _ & Hr & Hprog); cbn [mbind option_bind];
    (assert (same d d1) as Hs by (split_and!; [done | apply dmap_perm; [apply Hd | done] | done]));
    destruct (r =? 0) eqn:E; zbool.
  - exists d1, n. split_and!; try done. left. by apply Hr.
  - exists d1, (n + 100). split_and!; try done. intros _. right. specialize (Hprog E ltac:(lia)). cbn. lia.
  - exists d1, n. split_and!; try done. left. by apply Hr.
  - specialize (Hprog E ltac:(lia)). destruct b.
    + exists d1, (n + 100). split_and!; try done.
    + destruct (IH d1 (n + 100) Hd1) as (d' & r' & -> & (Hd' & Hm' & Hi') & Hend). exists d', r'. split; [done|].
      destruct Hs as (_ & Hm & Hi0). split; [split_and!; [done | congruence | congruence]|].
      intros Hl. cbn in Hl. injection Hl as Hl. destruct (Hend Hl) as [?|Hx]; [by left | right]. cbn [length]. lia.
Qed.

Lemma dstep_mstep uninit (d : dict) o : dict_ok d -> op_ok o -> zlen (entries d) < 2 ^ 29 ->
  exists d', dstep uninit d o = Some (d', (mstep (dmap d) o).2) /\ dict_ok d' /\ dmap d' = (mstep (dmap d) o).1 /\
    zlen (entries d') <= zlen (entries d) + 1.
Proof.
  intros Hd Ho Hb.
  assert (forall d', same d d' -> dict_ok d' /\ dmap d' = dmap d /\ zlen (entries d') <= zlen (entries d) + 1) as Hsame.
  { intros d' (Hd' & Hm & _). split; [done|]. split; [done|]. rewrite !size_dmap, Hm by done. lia. }
  assert (forall k v m, Z.of_nat (base.size (<[k := v]> m)) <= Z.of_nat (base.size (m : gmap K V)) + 1) as Hins.
  { intros k v m. rewrite map_size_insert. destruct (m !! k); unfold id; lia. }
  destruct o as [can k v|can k v|k|k| |can|sz|n|late|]; cbn [dstep mstep fst snd op_ok] in *.
  - destruct (add_spec can uninit d k v Hd ltac:(lia)) as (d' & -> & Hd' & _ & Hm). cbn [mbind option_bind].
    exists d'. split_and!; try done. rewrite !size_dmap, Hm by done. pose proof (Hins k v (dmap d)). case_decide; lia.
  - destruct (replace_spec can uninit d k v Hd ltac:(lia)) as (d' & -> & Hd' & _ & Hm). cbn [mbind option_bind].
    exists d'. split_and!; try done. rewrite !size_dmap, Hm by done. apply Hins.
  - destruct (delete_spec d k Hd) as (d' & Hdel & Hd' & _ & Hm). unfold dictDelete. rewrite Hdel. cbn [mbind option_bind].
    exists d'. split_and!; try done. rewrite !size_dmap, Hm by done. rewrite map_size_delete. destruct (dmap d !! k); unfold id; lia.
  - destruct (fetch_spec d k Hd) as (d' & -> & Hs). cbn [mbind option_bind]. exists d'. destruct (Hsame d' Hs) as (? & ? & ?). done.
  - exists d. split_and!; try done; [|lia]. rewrite (proj1 (used_entries d Hd)). by rewrite size_dmap.
  - destruct (resize_spec can d Hd ltac:(lia)) as (d' & ok & -> & Hs). cbn [mbind option_bind]. exists d'.
    destruct (Hsame d' Hs) as (? & ? & ?). done.
  - destruct (expand_spec d sz Hd Ho) as (d' & ok & -> & Hs & _). cbn [mbind option_bind]. exists d'.
    destruct (Hsame d' Hs) as (? & ? & ?). done.
  - destruct (rehash_spec d n Hd) as (d' & r & -> & Hd' & Hp & Hi & _). cbn [mbind option_bind]. exists d'.
    destruct (Hsame d') as (? & ? & ?); [|done]. split_and!; [done | apply dmap_perm; [apply Hd | done] | done].
  - destruct (rehashMs_spec late d 0 Hd) as (d' & r & -> & Hs & _). cbn [mbind option_bind]. exists d'.
    destruct (Hsame d' Hs) as (? & ? & ?). done.
  - exists (dictEmpty d). destruct (empty_ok d). split_and!; try done. cbn. lia.
Qed.

Lemma drun_mrun uninit os : forall d : dict, dict_ok d -> Forall op_ok os -> zlen (entries d) + zlen os <= 2 ^ 29 ->
  exists d', drun uninit d os = Some (d', (mrun (dmap d) os).2) /\ dict_ok d' /\ dmap d' = (mrun (dmap d) os).1.
Proof.
  induction os as [|o os IH]; intros d Hd Hok Hb; cbn [drun mrun]; [by exists d|].
  apply Forall_cons_1 in Hok as [Ho Hos]. cbn [length] in Hb.
  destruct (dstep_mstep uninit d o Hd Ho ltac:(lia)) as (d1 & -> & Hd1 & Hm1 & Hl). cbn [mbind option_bind].
  destruct (IH d1 Hd1 Hos ltac:(lia)) as (d2 & -> & Hd2 & Hm2). cbn [mbind option_bind]. rewrite Hm1 in *.
  destruct (mstep (dmap d) o) as [m r]. cbn [fst snd] in *. destruct (mrun m os) as [m' rs]. by exists d2.
Qed.
End Run.

(** C27: from an empty dictionary, any sequence of additions, replacements,
    deletions, lookups, explicit resizes, expansions and rehashing steps (with the
    incremental steps each operation makes on its own, and the resize flag in any
    state) runs without a failed assertion or an access outside a bucket array and
    returns what the same sequence returns on a finite map. *)
Theorem dict_refines_map {K V : Type} `{HC : Countable K} `{HT : DictType K} (uninit : V) (os : list (@dop K V)) :
  Forall op_ok os -> zlen os <= 2 ^ 29 ->
  exists d, drun uninit dictCreate os = Some (d, (mrun ∅ os).2) /\ dict_ok d /\ dmap d = (mrun ∅ os).1.
Proof.
  intros Hok Hb. destruct (create_ok (K := K) (V := V)) as [Hc Hm]. rewrite <- Hm. apply drun_mrun; [done | done | cbn; lia].
Qed.

#[local] Instance sum_hash : DictType Z := { hashFunction := uwrap 32; hashFunction_range k := Z.mod_pos_bound k (2 ^ 32) eq_refl }.

Definition demo_ops : list (@dop Z Z) :=
  [DAdd true 1 10; DAdd true 5 50; DAdd true 9 90; DAdd true 13 7; DAdd true 17 8; DReplace true 5 51; DFetch 5; DAdd true 9 0; DDelete 1; DSize].

Lemma dict_refines_map_witness :
  exists d, drun 0 dictCreate demo_ops = Some (d, (mrun ∅ demo_ops).2) /\ dict_ok d /\ dmap d = (mrun ∅ demo_ops).1.
Proof. apply (dict_refines_map 0 demo_ops); [|vm_compute; congruence]. unfold demo_ops. repeat (apply Forall_cons_2; [exact I|]). apply Forall_nil_2. Defined.


