(* ===== verification/DictScan.v ===== *)
(** * The scan cursor (dictScan of dict.c)

    [dictScan] walks a table by a cursor whose bits are counted from the high
    end, so that a scan survives a change of the table's size between its calls.
    The bits of a cursor, reversed, are a position in [0, 2^64); the keys of one
    bucket of a table of [2^k] buckets are those whose reversed hash lies in one
    interval of length [2^(64-k)].  One call emits the interval the position is in
    and moves to its end, whatever [k] is, which is why nothing is skipped as long
    as a rehash does not start from a larger table than the cursor was made for. *)
From Stdlib Require Import Lia ZArith.
From stdpp Require Import base numbers list tactics option gmap.
From S2P Require Import Prelude Dict DictRep.

#[local] Open Scope Z_scope.

(** ** The code *)

Fixpoint rev_loop (fuel : nat) (s mask v : Z) : Z :=
  let s := Z.shiftr s 1 in
  match fuel with
  | O => v
  | S fuel =>
      if s >? 0 then
        let mask := Z.lxor mask (uwrap 64 (Z.shiftl mask s)) in
        let v := Z.lor (Z.land (Z.shiftr v s) mask)
                       (Z.land (uwrap 64 (Z.shiftl v s)) (uwrap 64 (Z.lnot mask))) in
        rev_loop fuel s mask v
      else v
  end.

Definition rev (v : Z) : Z := rev_loop 64 64 (uwrap 64 (Z.lnot 0)) v.

Section Scan.
Context {K V : Type} `{HC : Countable K} `{HT : DictType K}.
#[local] Abbreviation dictht := (@dictht K V).
#[local] Abbreviation dict := (@dict K V).

(** The expansions of the cursor in the larger table: the entries of their
    buckets, in the order [fn] sees them. *)
Fixpoint dictScan_expand (fuel : nat) (t1 : dictht) (m0 m1 v : Z) : option (list (K * V) * Z) :=
  match fuel with
  | O => None
  | S fuel =>
      de ← rd (table t1) (Z.land v m1);
      let v := Z.lor (Z.land (uwrap 64 (Z.lor v m0 + 1)) (uwrap 64 (Z.lnot m0))) (Z.land v m0) in
      if negb (Z.land v (Z.lxor m0 m1) =? 0) then
        '(es, v) ← dictScan_expand fuel t1 m0 m1 v; Some (de ++ es, v)
      else Some (de, v)
  end.

(** The entries [fn] is called with and the new cursor. *)
Definition dictScan (d : dict) (v : Z) : option (list (K * V) * Z) :=
  if dictSize d =? 0 then Some ([], 0) else
  '(es, v, m0) ←
    (if negb (dictIsRehashing d) then
       let m0 := sizemask (ht0 d) in
       de ← rd (table (ht0 d)) (Z.land v m0); Some (de, v, m0)
     else
       let '(t0, t1) := if size (ht0 d) >? size (ht1 d) then (ht1 d, ht0 d) else (ht0 d, ht1 d) in
       let m0 := sizemask t0 in
       let m1 := sizemask t1 in
       de ← rd (table t0) (Z.land v m0);
       '(es, v) ← dictScan_expand (Z.to_nat (size t1)) t1 m0 m1 v;
       Some (de ++ es, v, m0));
  let v := Z.lor v (uwrap 64 (Z.lnot m0)) in
  let v := rev v in
  let v := uwrap 64 (v + 1) in
  let v := rev v in
  Some (es, v).

End Scan.

(** ** Bit reversal *)

Definition rev_step (s m v : Z) : Z :=
  Z.lor (Z.land (Z.shiftr v s) m) (Z.land (uwrap 64 (Z.shiftl v s)) (uwrap 64 (Z.lnot m))).

(** Shifts and masks, the last applied first. *)
Definition rev_steps : list (Z * Z) :=
  [(1, 0x5555555555555555); (2, 0x3333333333333333); (4, 0x0f0f0f0f0f0f0f0f);
   (8, 0x00ff00ff00ff00ff); (16, 0x0000ffff0000ffff); (32, 0x00000000ffffffff)].

Lemma rev_unfold v : rev v = foldr (fun sm v => rev_step sm.1 sm.2 v) v rev_steps.
Proof. reflexivity. Qed.

(** The bit of the argument that bit [i] of the result comes from. *)
Fixpoint bit_source (l : list (Z * Z)) (i : Z) : option Z :=
  if (0 <=? i) && (i <? 64) then
    match l with
    | [] => Some i
    | (s, m) :: l => bit_source l (if Z.testbit m i then i + s else i - s)
    end
  else None.

Lemma testbit_uwrap64 a i : 0 <= i < 64 -> Z.testbit (uwrap 64 a) i = Z.testbit a i.
Proof. intros. unfold uwrap. rewrite Z.mod_pow2_bits_low by lia. done. Qed.

Lemma bit_source_spec l : forall i j v, bit_source l i = Some j -> Forall (fun sm => 0 < sm.1) l ->
  Z.testbit (foldr (fun sm v => rev_step sm.1 sm.2 v) v l) i = Z.testbit v j.
Proof.
  induction l as [|[s m] l IH]; intros i j v Hs Hpos; cbn [bit_source] in Hs;
    (destruct ((0 <=? i) && (i <? 64)) eqn:Ei; [|done]); apply andb_true_iff in Ei as [E1 E2]; zbool.
  - by simplify_eq.
  - apply Forall_cons_1 in Hpos as [Hs0 Hpos]. cbn [fst snd foldr] in *. unfold rev_step.
    rewrite Z.lor_spec, !Z.land_spec, !testbit_uwrap64, Z.shiftr_spec, Z.shiftl_spec, Z.lnot_spec by lia.
    destruct (Z.testbit m i); cbn [negb].
    + rewrite andb_true_r, andb_false_r, orb_false_r. by apply IH.
    + rewrite andb_true_r, andb_false_r. cbn. by apply IH.
Qed.

Lemma rev_testbit v i : 0 <= i < 64 -> Z.testbit (rev v) i = Z.testbit v (63 - i).
Proof.
  intros Hi. rewrite rev_unfold. apply bit_source_spec; [|by repeat constructor].
  assert (forallb (fun n => bool_decide (bit_source rev_steps (Z.of_nat n) = Some (63 - Z.of_nat n))) (seq 0 64) = true) as Hall by by vm_compute.
  rewrite forallb_forall in Hall. specialize (Hall (Z.to_nat i)).
  rewrite in_seq in Hall. specialize (Hall ltac:(lia)). apply bool_decide_eq_true in Hall.
  by rewrite Z2Nat.id in Hall by lia.
Qed.

Lemma land_range a n : 0 <= n -> 0 <= Z.land a (Z.ones n) < 2 ^ n.
Proof. intros. rewrite Z.land_ones by done. apply Z.mod_pos_bound. lia. Qed.

Lemma rev_range v : 0 <= rev v < 2 ^ 64.
Proof.
  rewrite rev_unfold. cbn [rev_steps foldr fst snd]. set (w := rev_step 2 _ _). unfold rev_step.
  assert (forall a m, 0 <= m < 2 ^ 64 -> 0 <= Z.land a m < 2 ^ 64) as Hl.
  { intros a m Hm. assert (m = Z.land m (Z.ones 64)) as ->. { rewrite Z.land_ones, Z.mod_small by lia. done. }
    rewrite Z.land_assoc. apply land_range. lia. }
  assert (forall a b, 0 <= a < 2 ^ 64 -> 0 <= b < 2 ^ 64 -> 0 <= Z.lor a b < 2 ^ 64) as Hor.
  { intros a b Ha Hb. assert (Z.lor a b = Z.land (Z.lor a b) (Z.ones 64)) as ->; [|apply land_range; lia].
    rewrite Z.land_lor_distr_l, !Z.land_ones, !Z.mod_small by lia. done. }
  apply Hor; apply Hl; [lia | vm_compute; split; congruence].
Qed.

Lemma bits_inj64 a b : 0 <= a < 2 ^ 64 -> 0 <= b < 2 ^ 64 -> (forall i, 0 <= i < 64 -> Z.testbit a i = Z.testbit b i) -> a = b.
Proof.
  intros Ha Hb H. apply Z.bits_inj'. intros i Hi. destruct (decide (i < 64)); [apply H; lia|].
  rewrite <- (Z.mod_small a (2 ^ 64)), <- (Z.mod_small b (2 ^ 64)) by lia. rewrite !Z.mod_pow2_bits_high by lia. done.
Qed.

Lemma rev_rev v : 0 <= v < 2 ^ 64 -> rev (rev v) = v.
Proof.
  intros Hv. apply bits_inj64; [apply rev_range | done |]. intros i Hi.
  rewrite !rev_testbit by lia. f_equal. lia.
Qed.

(** The low [k] bits, reversed, are the high ones. *)
Lemma rev_low a b k : 0 <= k <= 64 -> a mod 2 ^ k = b mod 2 ^ k <-> rev a / 2 ^ (64 - k) = rev b / 2 ^ (64 - k).
Proof.
  intros Hk. rewrite <- !Z.shiftr_div_pow2 by lia. split; intros Heq; apply Z.bits_inj'; intros i Hi.
  - rewrite !Z.shiftr_spec by lia. destruct (decide (i < k)).
    + rewrite !rev_testbit by lia. replace (63 - (i + (64 - k))) with (k - 1 - i) by lia.
      rewrite <- (Z.mod_pow2_bits_low a k), <- (Z.mod_pow2_bits_low b k) by lia. by rewrite Heq.
    + pose proof (rev_range a). pose proof (rev_range b).
      rewrite <- (Z.mod_small (rev a) (2 ^ 64)), <- (Z.mod_small (rev b) (2 ^ 64)) by lia.
      rewrite !Z.mod_pow2_bits_high by lia. done.
  - destruct (decide (i < k)); [|by rewrite !Z.mod_pow2_bits_high by lia].
    rewrite !Z.mod_pow2_bits_low by lia. apply (f_equal (fun z => Z.testbit z (k - 1 - i))) in Heq.
    rewrite !Z.shiftr_spec, !rev_testbit in Heq by lia.
    by replace (63 - (k - 1 - i + (64 - k))) with i in Heq by lia.
Qed.

(** ** One step of the cursor *)

(** What the end of [dictScan] does to a cursor. *)
Definition next_cursor (k v : Z) : Z :=
  rev (uwrap 64 (rev (Z.lor v (uwrap 64 (Z.lnot (2 ^ k - 1)))) + 1)).

Lemma testbit_split q r n i : 0 <= n -> 0 <= r < 2 ^ n -> 0 <= i ->
  Z.testbit (q * 2 ^ n + r) i = if i <? n then Z.testbit r i else Z.testbit q (i - n).
Proof.
  intros Hn Hr Hi. destruct (i <? n) eqn:E; zbool.
  - rewrite <- (Z.mod_pow2_bits_low _ n) by lia. rewrite Z.add_comm, Z.mod_add, Z.mod_small by lia. done.
  - replace i with (i - n + n) at 1 by lia. rewrite <- Z.div_pow2_bits by lia.
    rewrite Z.div_add_l, Z.div_small by lia. by rewrite Z.add_0_r.
Qed.

Lemma rev_fill k v : 0 <= k <= 64 ->
  rev (Z.lor v (uwrap 64 (Z.lnot (2 ^ k - 1)))) = rev v / 2 ^ (64 - k) * 2 ^ (64 - k) + (2 ^ (64 - k) - 1).
Proof.
  intros Hk. set (n := 64 - k). set (q := rev v / 2 ^ n). pose proof (rev_range v) as Hv.
  assert (0 <= q < 2 ^ k) as Hq.
  { subst q. split; [apply Z.div_pos; lia|]. apply Z.div_lt_upper_bound; [lia|].
    rewrite <- Z.pow_add_r by lia. replace (n + k) with 64 by lia. lia. }
  assert (0 < 2 ^ n) by (apply Z.pow_pos_nonneg; lia).
  apply bits_inj64; [apply rev_range | |].
  - assert (2 ^ 64 = 2 ^ k * 2 ^ n) as -> by (rewrite <- Z.pow_add_r by lia; f_equal; lia). nia.
  - intros i Hi. rewrite rev_testbit by lia. rewrite Z.lor_spec, testbit_uwrap64, Z.lnot_spec by lia.
    replace (2 ^ k - 1) with (Z.ones k) by (rewrite Z.ones_equiv; lia).
    rewrite (testbit_split q) by lia. rewrite Z.testbit_ones_nonneg by lia. destruct (i <? n) eqn:E; zbool.
    + zfalse (63 - i <? k). cbn [negb]. rewrite orb_true_r.
      replace (2 ^ n - 1) with (Z.ones n) by (rewrite Z.ones_equiv; lia). symmetry. apply Z.ones_spec_low. lia.
    + ztrue (63 - i <? k). cbn [negb]. rewrite orb_false_r. subst q. rewrite Z.div_pow2_bits by lia.
      replace (i - n + n) with i by lia. by rewrite rev_testbit by lia.
Qed.

(** The position of the next cursor is the end of the interval the position of
    the present one is in, or the cursor is 0 when that is the end of the range. *)
Lemma next_cursor_spec k v : 0 <= k <= 64 ->
  let e := (rev v / 2 ^ (64 - k) + 1) * 2 ^ (64 - k) in
  (e < 2 ^ 64 /\ rev (next_cursor k v) = e) \/ (e = 2 ^ 64 /\ next_cursor k v = 0).
Proof.
  intros Hk e. unfold next_cursor. rewrite rev_fill by done.
  replace (rev v / 2 ^ (64 - k) * 2 ^ (64 - k) + (2 ^ (64 - k) - 1) + 1) with e by lia.
  pose proof (rev_range v) as Hv. assert (0 < 2 ^ (64 - k)) by (apply Z.pow_pos_nonneg; lia).
  assert (2 ^ 64 = 2 ^ k * 2 ^ (64 - k)) as H64 by (rewrite <- Z.pow_add_r by lia; f_equal; lia).
  assert (0 <= rev v / 2 ^ (64 - k)) by (apply Z.div_pos; lia).
  assert (rev v / 2 ^ (64 - k) < 2 ^ k) by (apply Z.div_lt_upper_bound; [lia | rewrite Z.mul_comm; lia]).
  assert (0 <= e <= 2 ^ 64) as He by (subst e; nia).
  destruct (decide (e = 2 ^ 64)) as [E|E]; [right | left]; (split; [lia|]).
  - rewrite E. by vm_compute.
  - rewrite uwrap_small by lia. apply rev_rev. lia.
Qed.

Lemma next_cursor_low k v w : 0 <= k <= 64 -> v mod 2 ^ k = w mod 2 ^ k -> next_cursor k v = next_cursor k w.
Proof.
  intros Hk Heq. unfold next_cursor. rewrite !rev_fill by done. by rewrite (proj1 (rev_low v w k Hk) Heq).
Qed.

(** A hash at or after the position of the cursor is in the bucket of the cursor
    or at or after the position of the next one. *)
Lemma visit_or_later k v h : 0 <= k <= 64 -> rev v <= rev h ->
  h mod 2 ^ k = v mod 2 ^ k \/ (next_cursor k v <> 0 /\ rev (next_cursor k v) <= rev h).
Proof.
  intros Hk Hle. pose proof (next_cursor_spec k v Hk) as Hn. cbv zeta in Hn.
  set (D := 2 ^ (64 - k)) in *. assert (0 < D) by (apply Z.pow_pos_nonneg; lia).
  set (e := (rev v / D + 1) * D) in *. pose proof (rev_range h). pose proof (rev_range v).
  assert (rev v / D * D <= rev v < e) as Hv.
  { subst e. pose proof (Z.div_mod (rev v) D ltac:(lia)). pose proof (Z.mod_pos_bound (rev v) D ltac:(lia)). lia. }
  assert (e = rev v / D * D + D) as Hed by (subst e; rewrite Z.mul_add_distr_r, Z.mul_1_l; reflexivity).
  destruct (decide (rev h < e)) as [Hlt|Hge].
  - left. apply rev_low; [done|]. fold D. symmetry. apply Z.div_unique with (r := rev h - rev v / D * D); lia.
  - right. destruct Hn as [[He Hn]|[He Hn]]; [|lia]. split; [|lia]. intros Hz. rewrite Hz in Hn.
    change (rev 0) with 0 in Hn. assert (0 <= rev v / D) by (apply Z.div_pos; lia). nia.
Qed.

(** ** Bits of the expansion loop *)

Lemma lor_mask v k : 0 <= k -> 0 <= v -> Z.lor v (2 ^ k - 1) = v / 2 ^ k * 2 ^ k + (2 ^ k - 1).
Proof.
  intros Hk Hv. assert (0 < 2 ^ k) by (apply Z.pow_pos_nonneg; lia). apply Z.bits_inj'. intros i Hi.
  rewrite testbit_split by lia. rewrite Z.lor_spec. replace (2 ^ k - 1) with (Z.ones k) by (rewrite Z.ones_equiv; lia).
  rewrite Z.testbit_ones_nonneg by lia. destruct (i <? k) eqn:E; zbool; [by rewrite orb_true_r|].
  rewrite orb_false_r, Z.div_pow2_bits by lia. f_equal. lia.
Qed.

Lemma land_unmask x k : 0 <= k <= 64 -> 0 <= x < 2 ^ 64 ->
  Z.land x (uwrap 64 (Z.lnot (2 ^ k - 1))) = x / 2 ^ k * 2 ^ k.
Proof.
  intros Hk Hx. assert (0 < 2 ^ k) by (apply Z.pow_pos_nonneg; lia).
  assert (0 <= x / 2 ^ k * 2 ^ k <= x) as Hq.
  { split; [apply Z.mul_nonneg_nonneg; [apply Z.div_pos; lia | lia]|]. rewrite Z.mul_comm. apply Z.mul_div_le. lia. }
  apply bits_inj64; [| lia |].
  - assert (uwrap 64 (Z.lnot (2 ^ k - 1)) = Z.land (uwrap 64 (Z.lnot (2 ^ k - 1))) (Z.ones 64)) as ->.
    { rewrite Z.land_ones by lia. unfold uwrap. by rewrite Z.mod_mod by lia. }
    rewrite Z.land_assoc. apply land_range. lia.
  - intros i Hi. rewrite Z.land_spec, testbit_uwrap64, Z.lnot_spec by lia.
    replace (2 ^ k - 1) with (Z.ones k) by (rewrite Z.ones_equiv; lia). rewrite Z.testbit_ones_nonneg by lia.
    rewrite <- (Z.add_0_r (_ * 2 ^ k)), testbit_split by lia. destruct (i <? k) eqn:E; zbool.
    + by rewrite andb_false_r, Z.testbit_0_l.
    + rewrite andb_true_r, Z.div_pow2_bits by lia. f_equal. lia.
Qed.

Lemma lor_low a b k : 0 <= k -> 0 <= b < 2 ^ k -> Z.lor (a * 2 ^ k) b = a * 2 ^ k + b.
Proof.
  intros Hk Hb. apply Z.bits_inj'. intros i Hi. rewrite Z.lor_spec, testbit_split by lia.
  rewrite <- (Z.add_0_r (a * 2 ^ k)), testbit_split by lia. destruct (i <? k) eqn:E; zbool; [by rewrite Z.testbit_0_l|].
  rewrite <- (Z.mod_small b (2 ^ k)) at 1 by lia. rewrite Z.mod_pow2_bits_high by lia. by rewrite orb_false_r.
Qed.

Lemma land_mask_diff v k0 k1 : 0 <= k0 <= k1 ->
  Z.land v (Z.lxor (2 ^ k0 - 1) (2 ^ k1 - 1)) = (v / 2 ^ k0) mod 2 ^ (k1 - k0) * 2 ^ k0.
Proof.
  intros Hk. assert (0 < 2 ^ (k1 - k0)) by (apply Z.pow_pos_nonneg; lia). assert (0 < 2 ^ k0) by (apply Z.pow_pos_nonneg; lia).
  apply Z.bits_inj'. intros i Hi. rewrite Z.land_spec, Z.lxor_spec.
  replace (2 ^ k0 - 1) with (Z.ones k0) by (rewrite Z.ones_equiv; lia).
  replace (2 ^ k1 - 1) with (Z.ones k1) by (rewrite Z.ones_equiv; lia).
  rewrite !Z.testbit_ones_nonneg by lia.
  rewrite <- (Z.add_0_r (_ * 2 ^ k0)), testbit_split by lia. destruct (i <? k0) eqn:E; zbool.
  - ztrue (i <? k1). cbn. by rewrite andb_false_r, Z.testbit_0_l.
  - destruct (i <? k1) eqn:E1; zbool; cbn.
    + rewrite andb_true_r, Z.mod_pow2_bits_low, Z.div_pow2_bits by lia. f_equal. lia.
    + by rewrite andb_false_r, Z.mod_pow2_bits_high by lia.
Qed.

Lemma land_mask v k : 0 <= k -> Z.land v (2 ^ k - 1) = v mod 2 ^ k.
Proof. intros. replace (2 ^ k - 1) with (Z.ones k) by (rewrite Z.ones_equiv; lia). by rewrite Z.land_ones. Qed.

(** The cursor between two expansions. *)
Lemma expand_step v k : 0 <= k <= 64 -> 0 <= v < 2 ^ 64 ->
  Z.lor (Z.land (uwrap 64 (Z.lor v (2 ^ k - 1) + 1)) (uwrap 64 (Z.lnot (2 ^ k - 1)))) (Z.land v (2 ^ k - 1)) =
    uwrap 64 ((v / 2 ^ k + 1) * 2 ^ k) + v mod 2 ^ k.
Proof.
  intros Hk Hv. assert (0 < 2 ^ k) by (apply Z.pow_pos_nonneg; lia).
  rewrite lor_mask, land_mask by lia.
  replace (v / 2 ^ k * 2 ^ k + (2 ^ k - 1) + 1) with ((v / 2 ^ k + 1) * 2 ^ k) by lia.
  set (x := uwrap 64 _). assert (0 <= x < 2 ^ 64) as Hx by (unfold x, uwrap; apply Z.mod_pos_bound; lia).
  rewrite land_unmask by lia. rewrite lor_low by (try lia; apply Z.mod_pos_bound; lia). f_equal.
  assert (x mod 2 ^ k = 0) as Hm.
  { unfold x, uwrap. replace (2 ^ 64) with (2 ^ k * 2 ^ (64 - k)) by (rewrite <- Z.pow_add_r by lia; f_equal; lia).
    rewrite Z.mod_mod_divide by (by exists (2 ^ (64 - k)); rewrite Z.mul_comm). apply Z.mod_mul. lia. }
  pose proof (Z.div_mod x (2 ^ k) ltac:(lia)). lia.
Qed.

Lemma mod_pow_split h k0 k1 : 0 <= k0 <= k1 ->
  h mod 2 ^ k1 = h mod 2 ^ k0 + 2 ^ k0 * ((h / 2 ^ k0) mod 2 ^ (k1 - k0)).
Proof.
  intros Hk. replace (2 ^ k1) with (2 ^ k0 * 2 ^ (k1 - k0)) by (rewrite <- Z.pow_add_r by lia; f_equal; lia).
  apply Z.rem_mul_r; [|apply Z.pow_pos_nonneg; lia]. assert (0 < 2 ^ k0) by (apply Z.pow_pos_nonneg; lia). lia.
Qed.

Lemma succ_mod q D : 0 < D ->
  (q + 1) mod D = if (q mod D =? D - 1) then 0 else q mod D + 1.
Proof.
  intros HD. pose proof (Z.mod_pos_bound q D HD). pose proof (Z.div_mod q D ltac:(lia)).
  destruct (q mod D =? D - 1) eqn:E; zbool.
  - symmetry. apply Z.mod_unique with (q := q / D + 1); lia.
  - symmetry. apply Z.mod_unique with (q := q / D); lia.
Qed.

(** The next cursor of the expansion loop: the same low bits, and the next value
    of the bits between the masks. *)
Lemma expand_cursor v k0 k1 : 0 <= k0 <= k1 -> k1 <= 64 -> 0 <= v < 2 ^ 64 ->
  let v1 := uwrap 64 ((v / 2 ^ k0 + 1) * 2 ^ k0) + v mod 2 ^ k0 in
  0 <= v1 < 2 ^ 64 /\ v1 mod 2 ^ k0 = v mod 2 ^ k0 /\
  (v1 / 2 ^ k0) mod 2 ^ (k1 - k0) = (v / 2 ^ k0 + 1) mod 2 ^ (k1 - k0).
Proof.
  intros Hk Hk1 Hv v1. assert (0 < 2 ^ k0) by (apply Z.pow_pos_nonneg; lia).
  assert (0 < 2 ^ (k1 - k0)) by (apply Z.pow_pos_nonneg; lia). assert (0 < 2 ^ (64 - k0)) by (apply Z.pow_pos_nonneg; lia).
  pose proof (Z.mod_pos_bound v (2 ^ k0) ltac:(lia)) as Hb. set (b := v mod 2 ^ k0) in *.
  assert (uwrap 64 ((v / 2 ^ k0 + 1) * 2 ^ k0) = ((v / 2 ^ k0 + 1) mod 2 ^ (64 - k0)) * 2 ^ k0) as Hx.
  { unfold uwrap. replace (2 ^ 64) with (2 ^ (64 - k0) * 2 ^ k0) by (rewrite <- Z.pow_add_r by lia; f_equal; lia).
    rewrite Z.mul_mod_distr_r by lia. done. }
  subst v1. rewrite Hx. set (y := (v / 2 ^ k0 + 1) mod 2 ^ (64 - k0)).
  assert (0 <= y < 2 ^ (64 - k0)) as Hy by (subst y; apply Z.mod_pos_bound; lia).
  assert (2 ^ 64 = 2 ^ (64 - k0) * 2 ^ k0) as H64 by (rewrite <- Z.pow_add_r by lia; f_equal; lia).
  split; [nia|]. split.
  - rewrite Z.add_comm, Z.mod_add, Z.mod_small by lia. done.
  - rewrite Z.div_add_l, (Z.div_small b), Z.add_0_r by lia. subst y.
    apply Z.mod_mod_divide. exists (2 ^ (64 - k1)). rewrite <- Z.pow_add_r by lia. f_equal. lia.
Qed.

#[local] Opaque rev.

Section Complete.
Context {K V : Type} `{HC : Countable K} `{HT : DictType K}.
#[local] Abbreviation dictht := (@dictht K V).
#[local] Abbreviation dict := (@dict K V).

Lemma expand_emits (t1 : dictht) k0 k1 : ht_ok t1 -> size t1 = 2 ^ k1 -> 0 <= k0 <= k1 -> k1 <= 30 ->
  forall fuel v, 0 <= v < 2 ^ 64 -> 2 ^ (k1 - k0) - (v / 2 ^ k0) mod 2 ^ (k1 - k0) <= Z.of_nat fuel ->
  exists es v', dictScan_expand fuel t1 (2 ^ k0 - 1) (2 ^ k1 - 1) v = Some (es, v') /\ 0 <= v' < 2 ^ 64 /\
    v' mod 2 ^ k0 = v mod 2 ^ k0 /\
    forall h c e, h mod 2 ^ k0 = v mod 2 ^ k0 -> (v / 2 ^ k0) mod 2 ^ (k1 - k0) <= (h / 2 ^ k0) mod 2 ^ (k1 - k0) ->
      rd (table t1) (h mod 2 ^ k1) = Some c -> e ∈ c -> e ∈ es.
Proof.
  intros Ht Hsz Hk Hk1. set (D := 2 ^ (k1 - k0)). assert (0 < D) as HD by (apply Z.pow_pos_nonneg; lia).
  assert (0 < 2 ^ k0) by (apply Z.pow_pos_nonneg; lia). assert (0 < 2 ^ k1) by (apply Z.pow_pos_nonneg; lia).
  induction fuel as [|fuel IH]; intros v Hv Hf.
  { pose proof (Z.mod_pos_bound (v / 2 ^ k0) D HD). lia. }
  cbn [dictScan_expand]. rewrite (land_mask v k1) by lia. pose proof Ht as (_ & Hl & _).
  destruct (rd_lt (table t1) (v mod 2 ^ k1)) as [de Hde]; [pose proof (Z.mod_pos_bound v (2 ^ k1) ltac:(lia)); lia|].
  rewrite Hde. cbn [mbind option_bind]. rewrite expand_step by lia. 
  destruct (expand_cursor v k0 k1 Hk ltac:(lia) Hv) as (Hv1 & Hb & Hq). fold D in Hq.
  set (v1 := uwrap 64 ((v / 2 ^ k0 + 1) * 2 ^ k0) + v mod 2 ^ k0) in *.
  rewrite land_mask_diff by lia. fold D. rewrite Hq. rewrite succ_mod in * by lia. set (q := (v / 2 ^ k0) mod D) in *.
  pose proof (Z.mod_pos_bound (v / 2 ^ k0) D HD) as Hqr. fold q in Hqr.
  assert (forall h c e, h mod 2 ^ k0 = v mod 2 ^ k0 -> (h / 2 ^ k0) mod D = q ->
    rd (table t1) (h mod 2 ^ k1) = Some c -> e ∈ c -> e ∈ de) as Hhere.
  { intros h c e Hh Hhq Hc He. rewrite (mod_pow_split h k0 k1), Hh in Hc by lia. fold D in Hc. rewrite Hhq in Hc. subst q.
    pose proof (mod_pow_split v k0 k1 ltac:(lia)) as Hvs. fold D in Hvs. rewrite <- Hvs in Hc. by simplify_eq. }
  destruct (q =? D - 1) eqn:E; zbool.
  - change (negb (0 * 2 ^ k0 =? 0)) with false. cbn iota. exists de, v1. split_and!; try done; try lia.
    intros h c e Hh Hhq. apply Hhere; [done|]. pose proof (Z.mod_pos_bound (h / 2 ^ k0) D HD). lia.
  - assert (((q + 1) * 2 ^ k0 =? 0) = false) as -> by (apply Z.eqb_neq; nia). cbn [negb].
    destruct (IH v1 Hv1) as (es & v' & Hes & Hv' & Hb' & Hem); [rewrite Hq; lia|].
    rewrite Hes. cbn [mbind option_bind]. exists (de ++ es), v'. split; [done|]. split; [done|]. split; [congruence|].
    intros h c e Hh Hhq Hc He. apply elem_of_app. destruct (decide ((h / 2 ^ k0) mod D = q)) as [Heq|Hne].
    + left. by apply (Hhere h c).
    + right. apply (Hem h c e); [congruence | rewrite Hq; lia | done | done].
Qed.
Lemma expand_sub (t1 : dictht) m0 m1 : forall fuel v es v', dictScan_expand fuel t1 m0 m1 v = Some (es, v') ->
  forall e, e ∈ es -> e ∈ ht_entries t1.
Proof.
  assert (forall i c e, rd (table t1) i = Some c -> e ∈ c -> e ∈ ht_entries t1) as Hb.
  { intros i c e Hc He. destruct (bucket_split _ _ _ Hc) as (a & b & Hab & _). unfold ht_entries. rewrite Hab. set_solver. }
  induction fuel as [|fuel IH]; intros v es v' H e He; cbn [dictScan_expand] in H; [done|].
  apply bind_Some in H as (de & Hde & H). case_hyp H.
  - apply bind_Some in H as ([es1 w] & Hes & H). simplify_eq.
    apply elem_of_app in He as [He|He]; [by eapply Hb | by eapply IH].
  - simplify_eq. by eapply Hb.
Qed.

(** The cursor has no bits between the masks of the two tables. *)
Definition aligned (d : dict) (v : Z) : Prop :=
  dictIsRehashing d = true -> Z.land v (Z.lxor (sizemask (ht0 d)) (sizemask (ht1 d))) = 0.

(** The number of buckets of the smaller table. *)
Definition min_size (d : dict) : Z :=
  if dictIsRehashing d then Z.min (size (ht0 d)) (size (ht1 d)) else size (ht0 d).

Lemma in_bucket (h : dictht) k key c : ht_ok h -> size h = 2 ^ k -> 0 <= k -> sizemask h = 2 ^ k - 1 ->
  key ∈ (ht_entries h).*1 -> rd (table h) (hashFunction key mod 2 ^ k) = Some c -> exists e, e.1 = key /\ e ∈ c.
Proof.
  intros Hh Hs Hk Hm Hkey Hc. destruct (bucket_of h key Hh) as (c' & Hc' & Hin). unfold hidx in Hc'.
  rewrite Hm, land_mask in Hc' by lia. simplify_eq. apply list_elem_of_fmap in Hkey as (e & -> & He).
  exists e. split; [done|]. by apply Hin.
Qed.

Lemma scan_spec d v : dict_ok d -> dictSize d <> 0 -> 0 <= v < 2 ^ 64 ->
  exists k es, 2 <= k <= 30 /\ min_size d = 2 ^ k /\ dictScan d v = Some (es, next_cursor k v) /\
    (forall e, e ∈ es -> e ∈ entries d) /\
    (aligned d v -> forall key, key ∈ (entries d).*1 -> hashFunction key mod 2 ^ k = v mod 2 ^ k -> key ∈ es.*1).
Proof.
  intros Hd Hs Hv. unfold dictScan, min_size, aligned. rewrite (proj2 (Z.eqb_neq _ _) Hs).
  assert (forall (h : dictht) k, ht_ok h -> size h = 2 ^ k -> 2 <= k -> exists de, rd (table h) (v mod 2 ^ k) = Some de) as Hrd.
  { intros h k (_ & Hl & _) Hsz Hk. apply rd_lt. pose proof (Z.mod_pos_bound v (2 ^ k) ltac:(lia)). lia. }
  assert (forall (h : dictht) i c e, rd (table h) i = Some c -> e ∈ c -> e ∈ ht_entries h) as Hsub.
  { intros h i c e Hc He. destruct (bucket_split _ _ _ Hc) as (a & b & Hab & _). unfold ht_entries. rewrite Hab. set_solver. }
  destruct (dictIsRehashing d) eqn:Er; cbn [negb].
  - destruct (ok_rehashing d Hd Er) as [H0 H1].
    assert (exists t0 t1 k0 k1, (if size (ht0 d) >? size (ht1 d) then (ht1 d, ht0 d) else (ht0 d, ht1 d)) = (t0, t1) /\
      ht_ok t0 /\ ht_ok t1 /\ size t0 = 2 ^ k0 /\ size t1 = 2 ^ k1 /\ sizemask t0 = 2 ^ k0 - 1 /\ sizemask t1 = 2 ^ k1 - 1 /\
      2 <= k0 <= k1 /\ k1 <= 30 /\ Z.min (size (ht0 d)) (size (ht1 d)) = 2 ^ k0 /\
      Z.lxor (sizemask (ht0 d)) (sizemask (ht1 d)) = Z.lxor (2 ^ k0 - 1) (2 ^ k1 - 1) /\
      (forall e, e ∈ entries d <-> e ∈ ht_entries t0 \/ e ∈ ht_entries t1))
      as (t0 & t1 & k0 & k1 & -> & Ht0 & Ht1 & Hs0 & Hs1 & Hm0 & Hm1 & Hk & Hk1 & Hmin & Hx & Hent).
    { pose proof H0 as ((ka & Hka & Hsa & Hma) & _). pose proof H1 as ((kb & Hkb & Hsb & Hmb) & _). unfold entries.
      destruct (size (ht0 d) >? size (ht1 d)) eqn:E; zbool; rewrite Hsa, Hsb in E.
      - exists (ht1 d), (ht0 d), kb, ka. assert (kb < ka) by (apply (Z.pow_lt_mono_r_iff 2); lia).
        split_and!; try done; try lia; [by rewrite Hma, Hmb, Z.lxor_comm | set_solver].
      - exists (ht0 d), (ht1 d), ka, kb. assert (ka <= kb) by (apply (Z.pow_le_mono_r_iff 2); lia).
        split_and!; try done; try lia; [by rewrite Hma, Hmb | set_solver]. }
    rewrite Hm0, Hm1, Hx, land_mask by lia. destruct (Hrd t0 k0 Ht0 Hs0 ltac:(lia)) as [de Hde]. rewrite Hde. cbn [mbind option_bind].
    assert (0 < 2 ^ (k1 - k0)) by (apply Z.pow_pos_nonneg; lia).
    destruct (expand_emits t1 k0 k1 Ht1 Hs1 ltac:(lia) Hk1 (Z.to_nat (size t1)) v Hv) as (es & v' & Hes & Hv' & Hlow & Hem).
    { pose proof (Z.mod_pos_bound (v / 2 ^ k0) (2 ^ (k1 - k0)) ltac:(lia)).
      assert (2 ^ (k1 - k0) <= 2 ^ k1) by (apply Z.pow_le_mono_r; lia). lia. }
    rewrite Hes. cbn [mbind option_bind]. exists k0, (de ++ es). split; [lia|]. split; [done|].
    split; [rewrite <- (next_cursor_low k0 v' v) by (done || lia); reflexivity|]. split.
    + intros e [He|He]%elem_of_app; apply Hent; [left; by eapply Hsub | right; by eapply expand_sub].
    + intros Hal key Hkey Hh. specialize (Hal eq_refl). rewrite land_mask_diff in Hal by lia.
      assert ((v / 2 ^ k0) mod 2 ^ (k1 - k0) = 0) as Hz by (assert (0 < 2 ^ k0) by (apply Z.pow_pos_nonneg; lia); nia).
      rewrite fmap_app, elem_of_app. apply list_elem_of_fmap in Hkey as (e0 & He0 & Hin). apply Hent in Hin as [Hin|Hin].
      * left. rewrite <- Hh in Hde. destruct (in_bucket t0 k0 key de Ht0 Hs0 ltac:(lia) Hm0) as (e & <- & He); [|done|].
        -- apply list_elem_of_fmap. by exists e0.
        -- apply list_elem_of_fmap. by exists e.
      * right. pose proof Ht1 as (_ & Hl1 & _).
        destruct (rd_lt (table t1) (hashFunction key mod 2 ^ k1)) as [c Hc];
          [pose proof (Z.mod_pos_bound (hashFunction key) (2 ^ k1) ltac:(lia)); lia|].
        destruct (in_bucket t1 k1 key c Ht1 Hs1 ltac:(lia) Hm1) as (e & <- & He); [|done|].
        -- apply list_elem_of_fmap. by exists e0.
        -- apply list_elem_of_fmap. exists e. split; [done|]. apply (Hem (hashFunction e.1) c e); try done.
           rewrite Hz. apply Z.mod_pos_bound. lia.
  - assert (ht_ok (ht0 d)) as H0.
    { pose proof (ok_not_rehashing d Hd Er) as H1. destruct Hd as (_ & _ & [(_ & _ & [H0|H0])|(H0 & _)]); [|done|done].
      unfold dictSize in Hs. rewrite H0, H1 in Hs. done. }
    pose proof H0 as ((k & Hk & Hsz & Hm) & _). rewrite Hm, land_mask by lia.
    destruct (Hrd (ht0 d) k H0 Hsz ltac:(lia)) as [de Hde]. rewrite Hde. cbn [mbind option_bind].
    exists k, de. split_and!; try done; try lia.
    + intros e He. unfold entries. apply elem_of_app. left. by eapply Hsub.
    + intros _ key Hkey Hh. unfold entries in Hkey. rewrite (ok_not_rehashing d Hd Er) in Hkey. cbn in Hkey. rewrite app_nil_r in Hkey.
      rewrite <- Hh in Hde. destruct (in_bucket (ht0 d) k key de H0 Hsz ltac:(lia) Hm Hkey Hde) as (e & <- & He).
      apply list_elem_of_fmap. by exists e.
Qed.

(** ** Whole scans *)

(** A scan over the states [ds] the dictionary is in at its calls. *)
Fixpoint scan_all (ds : list dict) (v : Z) : option (list (K * V) * Z) :=
  match ds with
  | [] => Some ([], v)
  | d :: ds => '(es, v) ← dictScan d v; '(es', v) ← scan_all ds v; Some (es ++ es', v)
  end.

(** At every call made during a rehash the cursor is one the smaller table gives. *)
Fixpoint aligned_run (ds : list dict) (v : Z) : Prop :=
  match ds with
  | [] => True
  | d :: ds => aligned d v /\ match dictScan d v with Some (_, v) => aligned_run ds v | None => True end
  end.

Lemma dictSize_key (d : dict) key : dict_ok d -> key ∈ (entries d).*1 -> dictSize d <> 0.
Proof.
  intros Hd Hk. destruct (used_entries d Hd) as [-> _]. intros Hz. assert (entries d = []) as He by (apply nil_length_inv; lia).
  rewrite He in Hk. by apply elem_of_nil in Hk.
Qed.

Lemma scan_run_complete key ds : forall v, 0 <= v < 2 ^ 64 -> Forall (fun d => dict_ok d /\ key ∈ (entries d).*1) ds ->
  aligned_run ds v -> rev v <= rev (hashFunction key) ->
  exists es v', scan_all ds v = Some (es, v') /\ 0 <= v' < 2 ^ 64 /\ (v' = 0 -> key ∈ es.*1 \/ (ds = [] /\ v = 0)).
Proof.
  induction ds as [|d ds IH]; intros v Hv Hall Hal Hle; cbn [scan_all].
  { exists [], v. split_and!; try done; [lia | lia | auto]. }
  apply Forall_cons_1 in Hall as [[Hd Hk] Hall]. cbn [aligned_run] in Hal. destruct Hal as [Ha Hal].
  destruct (scan_spec d v Hd (dictSize_key d key Hd Hk) Hv) as (k & es & Hkr & _ & Hscan & _ & Hem).
  rewrite Hscan in *. cbn [mbind option_bind].
  assert (0 <= next_cursor k v < 2 ^ 64) as Hnv by apply rev_range.
  destruct (visit_or_later k v (hashFunction key)) as [Hvis|[Hnz Hlater]]; [lia | done | |].
  - (* visited here: whatever follows *)
    assert (exists es' v', scan_all ds (next_cursor k v) = Some (es', v') /\ 0 <= v' < 2 ^ 64) as (es' & v' & -> & Hv').
    { clear - Hall Hnv HC. revert Hnv. generalize (next_cursor k v). induction Hall as [|d ds [Hd Hk] _ IH]; intros w Hw; cbn [scan_all]; [by exists [], w|].
      destruct (scan_spec d w Hd (dictSize_key d key Hd Hk) Hw) as (k' & es & _ & _ & -> & _). cbn [mbind option_bind].
      destruct (IH (next_cursor k' w)) as (es' & v' & -> & ?); [apply rev_range|]. cbn. by exists (es ++ es'), v'. }
    cbn [mbind option_bind]. exists (es ++ es'), v'. split_and!; try done; try lia. intros _. left.
    rewrite fmap_app, elem_of_app. left. by apply Hem.
  - destruct (IH (next_cursor k v) Hnv Hall Hal Hlater) as (es' & v' & -> & Hv' & Hin). cbn [mbind option_bind].
    exists (es ++ es'), v'. split_and!; try done; try lia. intros Hz. left. rewrite fmap_app, elem_of_app. right.
    destruct (Hin Hz) as [|[_ ?]]; done.
Qed.

End Complete.

(** ** Scans of tables that do not shrink *)

Lemma next_cursor_lt k v : 0 <= k <= 64 -> 0 <= next_cursor k v < 2 ^ k.
Proof.
  intros Hk. pose proof (rev_range (uwrap 64 (rev (Z.lor v (uwrap 64 (Z.lnot (2 ^ k - 1)))) + 1))) as Hr.
  fold (next_cursor k v) in Hr. split; [lia|].
  destruct (next_cursor_spec k v Hk) as [[He Hn]|[_ ->]]; [|apply Z.pow_pos_nonneg; lia].
  set (w := next_cursor k v) in *.
  assert (w = w mod 2 ^ k) as ->; [|apply Z.mod_pos_bound, Z.pow_pos_nonneg; lia].
  assert (0 < 2 ^ (64 - k)) by (apply Z.pow_pos_nonneg; lia). assert (0 < 2 ^ k) by (apply Z.pow_pos_nonneg; lia).
  assert (2 ^ k <= 2 ^ 64) by (apply Z.pow_le_mono_r; lia). pose proof (Z.mod_pos_bound w (2 ^ k) ltac:(lia)).
  apply bits_inj64; [lia | lia |]. intros i Hi. destruct (decide (i < k)); [by rewrite Z.mod_pow2_bits_low by lia|].
  rewrite Z.mod_pow2_bits_high by lia. replace i with (63 - (63 - i)) by lia. rewrite <- rev_testbit by lia. rewrite Hn.
  rewrite <- (Z.add_0_r (_ * 2 ^ (64 - k))), testbit_split by lia. ztrue (63 - i <? 64 - k). apply Z.testbit_0_l.
Qed.

Section Grow.
Context {K V : Type} `{HC : Countable K} `{HT : DictType K}.
#[local] Abbreviation dict := (@dict K V).

(** At every call made during a rehash the smaller table has at least [m]
    buckets, [m] being those of the smaller table at the call before. *)
Fixpoint nonshrinking (m : Z) (ds : list dict) : Prop :=
  match ds with
  | [] => True
  | d :: ds => (dictIsRehashing d = true -> m <= min_size d) /\ nonshrinking (min_size d) ds
  end.

Lemma aligned_small (d : dict) v : dict_ok d -> 0 <= v < min_size d -> aligned d v.
Proof.
  intros Hd Hv Hr. unfold min_size in Hv. rewrite Hr in Hv. destruct (ok_rehashing d Hd Hr) as [H0 H1].
  destruct H0 as ((ka & Hka & Hsa & Hma) & _). destruct H1 as ((kb & Hkb & Hsb & Hmb) & _).
  rewrite Hma, Hmb. destruct (decide (ka <= kb)).
  - rewrite land_mask_diff by lia. rewrite Z.div_small by lia. by rewrite Z.mod_0_l by (apply Z.pow_nonzero; lia).
  - rewrite Z.lxor_comm, land_mask_diff by lia. rewrite Z.div_small by lia. by rewrite Z.mod_0_l by (apply Z.pow_nonzero; lia).
Qed.

Lemma nonshrinking_aligned key ds : forall m v, Forall (fun d : dict => dict_ok d /\ key ∈ (entries d).*1) ds ->
  0 <= v < m -> m <= 2 ^ 64 -> nonshrinking m ds -> aligned_run ds v.
Proof.
  induction ds as [|d ds IH]; intros m v Hall Hv Hm Hns; cbn [aligned_run nonshrinking] in *; [done|].
  apply Forall_cons_1 in Hall as [[Hd Hk] Hall]. destruct Hns as [Hmin Hns].
  split; [destruct (dictIsRehashing d) eqn:Er; [apply aligned_small; [done | specialize (Hmin eq_refl); lia] | by intros ?; rewrite Er in *]|].
  destruct (scan_spec d v Hd (dictSize_key d key Hd Hk) ltac:(lia)) as (k & es & Hkr & Hmk & -> & _).
  rewrite Hmk in Hns. apply (IH (2 ^ k)); [done | apply next_cursor_lt; lia | apply Z.pow_le_mono_r; lia | done].
Qed.
End Grow.

Lemma nonshrinking_replicate {K V : Type} `{HC : Countable K} `{HT : DictType K} (d : @dict K V) n : forall m,
  dictIsRehashing d = false -> nonshrinking m (replicate n d).
Proof.
  induction n as [|n IH]; intros m Hr; cbn [replicate nonshrinking]; [done|]. split; [congruence | by apply IH].
Qed.

Lemma next_cursor_at k j : 0 <= k <= 64 -> 0 <= j < 2 ^ k ->
  next_cursor k (rev (j * 2 ^ (64 - k))) = if j + 1 =? 2 ^ k then 0 else rev ((j + 1) * 2 ^ (64 - k)).
Proof.
  intros Hk Hj. assert (0 < 2 ^ (64 - k)) by (apply Z.pow_pos_nonneg; lia).
  assert (2 ^ 64 = 2 ^ k * 2 ^ (64 - k)) as H64 by (rewrite <- Z.pow_add_r by lia; f_equal; lia).
  destruct (next_cursor_spec k (rev (j * 2 ^ (64 - k))) Hk) as [[He Hn]|[He Hn]];
    rewrite rev_rev, Z.div_mul in * by nia; destruct (j + 1 =? 2 ^ k) eqn:E; zbool; try nia; try done.
  - rewrite <- Hn, rev_rev; [done|]. pose proof (next_cursor_lt k (rev (j * 2 ^ (64 - k))) Hk).
    assert (2 ^ k <= 2 ^ 64) by (apply Z.pow_le_mono_r; lia). lia.
Qed.

Lemma scan_replicate {K V : Type} `{HC : Countable K} `{HT : DictType K} (d : @dict K V) k :
  dict_ok d -> dictSize d <> 0 -> min_size d = 2 ^ k -> 2 <= k <= 30 -> forall n j, (0 <= j < 2 ^ k) -> j + Z.of_nat n <= 2 ^ k ->
  exists es, scan_all (replicate n d) (rev (j * 2 ^ (64 - k))) =
    Some (es, if j + Z.of_nat n =? 2 ^ k then 0 else rev ((j + Z.of_nat n) * 2 ^ (64 - k))) /\
    forall e, e ∈ es -> e ∈ entries d.
Proof.
  intros Hd Hs Hm Hk n. induction n as [|n IH]; intros j Hj Hn; cbn [replicate scan_all].
  - rewrite Z.add_0_r. zfalse (j =? 2 ^ k). exists []. split; [done|]. by intros e ?%elem_of_nil.
  - destruct (scan_spec d (rev (j * 2 ^ (64 - k))) Hd Hs (rev_range _)) as (k' & es & Hk' & Hm' & -> & Hsub & _).
    assert (k' = k) as -> by (rewrite Hm in Hm'; apply (Z.pow_inj_r 2); lia).
    cbn [mbind option_bind]. rewrite next_cursor_at by lia. destruct (j + 1 =? 2 ^ k) eqn:E; zbool.
    + assert (n = O) as -> by lia. cbn [replicate scan_all mbind option_bind]. ztrue (j + Z.of_nat 1 =? 2 ^ k).
      exists (es ++ []). rewrite app_nil_r. done.
    + destruct (IH (j + 1)) as (es' & -> & Hsub'); [lia | lia |]. cbn [mbind option_bind]. exists (es ++ es').
      replace (j + 1 + Z.of_nat n) with (j + Z.of_nat (S n)) by lia. split; [done|]. intros e [?|?]%elem_of_app; auto.
Qed.

(** A scan of a dictionary that does not change and is not being rehashed
    ends: after one call per bucket the cursor is 0 again, and the entries handed
    out are exactly those of the dictionary. *)
Theorem dictScan_terminates {K V : Type} `{HC : Countable K} `{HT : DictType K} (d : @dict K V) :
  dict_ok d -> dictIsRehashing d = false -> dictSize d <> 0 ->
  exists es, scan_all (replicate (Z.to_nat (size (ht0 d))) d) 0 = Some (es, 0) /\
    (forall e, e ∈ es -> e ∈ entries d) /\ (forall key, is_Some (dmap d !! key) -> key ∈ es.*1).
Proof.
  intros Hd Hr Hs. destruct (scan_spec d 0 Hd Hs ltac:(lia)) as (k & _ & Hk & Hm & _).
  assert (0 < 2 ^ k) by (apply Z.pow_pos_nonneg; lia).
  destruct (scan_replicate d k Hd Hs Hm Hk (Z.to_nat (2 ^ k)) 0 ltac:(lia) ltac:(lia)) as (es & Hscan & Hsub).
  unfold min_size in Hm. rewrite Hr in Hm. rewrite Z.mul_0_l in Hscan. change (rev 0) with 0 in Hscan.
  rewrite Z.add_0_l, Z2Nat.id, Z.eqb_refl in Hscan by lia. rewrite Hm. exists es. split; [done|]. split; [done|].
  intros key Hkey. apply not_eq_None_Some in Hkey. rewrite dmap_lookup_None in Hkey.
  assert (key ∈ (entries d).*1) as Hin by (by destruct (decide (key ∈ (entries d).*1))).
  destruct (scan_run_complete key (replicate (Z.to_nat (2 ^ k)) d) 0 ltac:(lia)) as (es' & v & Hscan' & _ & Hend).
  - by apply Forall_replicate.
  - eapply nonshrinking_aligned with (m := 1) (key := key); [by apply Forall_replicate | lia | lia |].
    by apply nonshrinking_replicate.
  - change (rev 0) with 0. apply rev_range.
  - rewrite Hscan in Hscan'. injection Hscan' as <- <-. destruct (Hend eq_refl) as [|[Hnil _]]; [done|].
    destruct (Z.to_nat (2 ^ k)) eqn:E; [lia | done].
Qed.

(** C29: [dictScan], called from cursor 0 until it returns 0, hands out every key
    that is in the dictionary at all its calls, whatever was added, deleted or
    rehashed between them, as long as no call made during a rehash finds a table
    smaller than the smaller one of the call before. *)
Theorem dictScan_complete {K V : Type} `{HC : Countable K} `{HT : DictType K} (ds : list (@dict K V)) (key : K) :
  ds <> [] -> Forall (fun d => dict_ok d /\ is_Some (dmap d !! key)) ds -> nonshrinking 1 ds ->
  exists es v, scan_all ds 0 = Some (es, v) /\ (v = 0 -> key ∈ es.*1).
Proof.
  intros Hne Hall Hns.
  assert (Forall (fun d : dict => dict_ok d /\ key ∈ (entries d).*1) ds) as Hall'.
  { eapply Forall_impl; [exact Hall|]. intros d [Hd Hk]. split; [done|].
    apply not_eq_None_Some in Hk. rewrite dmap_lookup_None in Hk. by destruct (decide (key ∈ (entries d).*1)). }
  destruct (scan_run_complete key ds 0 ltac:(lia) Hall') as (es & v & -> & _ & Hin).
  - by eapply nonshrinking_aligned with (m := 1); [exact Hall' | lia | lia |].
  - change (rev 0) with 0. apply rev_range.
  - exists es, v. split; [done|]. intros Hz. by destruct (Hin Hz) as [|[? _]].
Qed.

(** ** Concrete dictionaries *)

(** Integers with the hash function that keeps their low 32 bits. *)
#[local] Instance low_bits : DictType Z := { hashFunction := uwrap 32; hashFunction_range k := Z.mod_pos_bound k (2 ^ 32) eq_refl }.

Fixpoint add_all (d : @dict Z Z) (ks : list Z) : option (@dict Z Z) :=
  match ks with [] => Some d | k :: ks => '(d, _) ← dictAdd true 0 d k k; add_all d ks end.

Fixpoint delete_all (d : @dict Z Z) (ks : list Z) : option (@dict Z Z) :=
  match ks with [] => Some d | k :: ks => '(d, _) ← dictDelete d k; delete_all d ks end.

(** Five keys are added to a table of four buckets: the table is being rehashed. *)
Definition growing : option (@dict Z Z) := add_all dictCreate [3; 7; 11; 15; 19].

Lemma add_all_ok ks : forall d d' : dict, dict_ok d -> zlen (entries d) + zlen ks <= 2 ^ 29 -> add_all d ks = Some d' ->
  dict_ok d' /\ (forall k, is_Some (dmap d !! k) \/ k ∈ ks -> is_Some (dmap d' !! k)).
Proof.
  induction ks as [|k ks IH]; intros d d' Hd Hb H; cbn [add_all] in H.
  { simplify_eq. split; [done|]. intros k [?|?%elem_of_nil]; done. }
  cbn [length] in Hb. destruct (add_spec true 0 d k k Hd ltac:(lia)) as (d1 & Hadd & Hd1 & _ & Hm).
  rewrite Hadd in H. cbn [mbind option_bind] in H.
  assert (forall j, is_Some (dmap d !! j) \/ j = k -> is_Some (dmap d1 !! j)) as Hj.
  { intros j Hj. rewrite Hm. case_decide as Hn.
    - destruct (decide (j = k)) as [->|]; [rewrite lookup_insert_eq; by eauto | rewrite lookup_insert_ne by done; naive_solver].
    - destruct Hj as [?| ->]; [done|]. by apply not_eq_None_Some. }
  assert (zlen (entries d1) <= zlen (entries d) + 1) as Hlen.
  { rewrite !size_dmap, Hm by done. case_decide as Hn; [|lia]. rewrite map_size_insert_None by done. lia. }
  destruct (IH d1 d' Hd1 ltac:(lia) H) as [Hd' Hk]. split; [done|]. intros j Hj'. apply Hk.
  destruct Hj' as [Hj'|[Hj'|Hj']%elem_of_cons]; [left; apply Hj; by left | left; apply Hj; by right | by right].
Qed.

Lemma dictScan_complete_witness :
  match add_all dictCreate [3; 7], growing with
  | Some d, Some d' => exists es v, scan_all [d; d'; d'; d'] 0 = Some (es, v) /\ (v = 0 -> 7 ∈ es.*1)
  | _, _ => False
  end.
Proof.
  pose proof (fun d => add_all_ok [3; 7] dictCreate d (proj1 create_ok) ltac:(done)) as Hd.
  pose proof (fun d => add_all_ok [3; 7; 11; 15; 19] dictCreate d (proj1 create_ok) ltac:(done)) as Hd'. fold growing in Hd'.
  destruct (add_all dictCreate [3; 7]) as [d|] eqn:Ed; [|vm_compute in Ed; discriminate].
  destruct growing as [d'|] eqn:Ed'; [|vm_compute in Ed'; discriminate].
  specialize (Hd d eq_refl) as [Hd Hk]. specialize (Hd' d' eq_refl) as [Hd' Hk'].
  apply (dictScan_complete [d; d'; d'; d'] 7); [done | |].
  - assert (is_Some (dmap d !! 7)) by (apply Hk; right; right; left).
    assert (is_Some (dmap d' !! 7)) by (apply Hk'; right; right; left). do 4 (apply Forall_cons_2; [split; assumption|]). apply Forall_nil_2.
  - vm_compute in Ed, Ed'. injection Ed as <-. injection Ed' as <-. vm_compute. repeat split; congruence.
Defined.

Lemma dictScan_terminates_witness :
  match add_all dictCreate [3; 7] with
  | Some d => exists es, scan_all (replicate (Z.to_nat (size (ht0 d))) d) 0 = Some (es, 0) /\
      (forall e, e ∈ es -> e ∈ entries d) /\ (forall key, is_Some (dmap d !! key) -> key ∈ es.*1)
  | None => False
  end.
Proof.
  pose proof (fun d => add_all_ok [3; 7] dictCreate d (proj1 create_ok) ltac:(done)) as Hd.
  destruct (add_all dictCreate [3; 7]) as [d|] eqn:Ed; [|vm_compute in Ed; discriminate].
  specialize (Hd d eq_refl) as [Hd _]. apply (dictScan_terminates d Hd);
    vm_compute in Ed; injection Ed as <-; [reflexivity | discriminate].
Defined.

Lemma delete_all_ok ks : forall d d' : dict, dict_ok d -> delete_all d ks = Some d' -> dict_ok d'.
Proof.
  induction ks as [|k ks IH]; intros d d' Hd H; cbn [delete_all] in H; [by simplify_eq|].
  destruct (delete_spec d k Hd) as (d1 & Hdel & Hd1 & _). unfold dictDelete in H. rewrite Hdel in H. by eapply IH.
Qed.

(** A table of sixteen buckets with the keys 4 and 20 and nothing else, before and
    after [dictResize] starts to move it to one of four buckets. *)
Definition before_shrink : option dict :=
  d ← add_all dictCreate [0; 1; 2; 3; 4; 5; 6; 7; 20];
  '(d, _) ← dictRehash d 100;
  delete_all d [0; 1; 2; 3; 5; 6; 7].
Definition shrinking : option dict :=
  d ← before_shrink; '(d, _) ← dictResize true d; Some d.

(** The guarantee stated above [dictScan] in the source fails when the table
    starts to shrink during a scan: the key 4 is in the dictionary all along, the
    scan begins before [dictResize] and comes back to 0, and the key is never
    handed out (the expansions are counted from the low end, so the ones below the
    cursor's are skipped). *)
Theorem dictScan_skips_when_shrinking : exists d d' : dict,
  before_shrink = Some d /\ shrinking = Some d' /\ dict_ok d /\ dict_ok d' /\
  dmap d !! 4 = Some 4 /\ dmap d' !! 4 = Some 4 /\
  exists es, scan_all [d; d'; d'; d'; d'] 0 = Some (es, 0) /\ 4 ∉ es.*1.
Proof.
  assert (forall d, before_shrink = Some d -> dict_ok d /\ zlen (entries d) = 2) as Hb.
  { unfold before_shrink. intros d H. apply bind_Some in H as (d1 & H1 & H). apply bind_Some in H as ([d2 r] & H2 & H3).
    destruct (add_all_ok [0; 1; 2; 3; 4; 5; 6; 7; 20] dictCreate d1 (proj1 create_ok) ltac:(vm_compute; congruence) H1) as [Hd1 _].
    destruct (rehash_spec d1 100 Hd1) as (d2' & r' & H2' & Hd2 & _). rewrite H2 in H2'. injection H2' as <- <-.
    split; [exact (delete_all_ok _ _ _ Hd2 H3)|]. clear Hd1 Hd2. vm_compute in H1. injection H1 as <-. vm_compute in H2. injection H2 as <- <-.
    vm_compute in H3. by injection H3 as <-. }
  assert (forall d', shrinking = Some d' -> dict_ok d') as Hs.
  { unfold shrinking. intros d' H. apply bind_Some in H as (d & H1 & H). apply bind_Some in H as ([d2 ok] & H2 & H3).
    destruct (Hb d H1) as [Hd He]. destruct (resize_spec true d Hd ltac:(lia)) as (d2' & ok' & H2' & Hd2 & _).
    rewrite H2 in H2'. injection H2' as <- <-. injection H3 as <-. assumption. }
  destruct before_shrink as [d|] eqn:Ed; [|vm_compute in Ed; discriminate].
  destruct shrinking as [d'|] eqn:Ed'; [|vm_compute in Ed'; discriminate].
  exists d, d'. destruct (Hb d eq_refl) as [Hd _]. specialize (Hs d' eq_refl). do 2 (split; [done|]). do 2 (split; [assumption|]).
  clear Hb Hd Hs. vm_compute in Ed, Ed'. injection Ed as <-. injection Ed' as <-.
  split; [by vm_compute|]. split; [by vm_compute|]. exists []. split; [by vm_compute|]. by intros ?%elem_of_nil.
Qed.
