(* ===== verification/DictIter.v ===== *)
(** * Hash functions and iterators of dict.c

    The hash functions, which give instances of the [DictType] interface, and the
    iterators.  An iterator's [entry] and [nextEntry] pointers are the chains that
    start at them ([[]] is [NULL]): a copy, so what is said of them is for a
    dictionary that is not changed while they are in use. *)
From Stdlib Require Import Lia ZArith.
From stdpp Require Import base numbers list tactics option gmap strings.
From S2P Require Import Prelude Util Dict DictRep.

#[local] Open Scope Z_scope.

(** ** Hash functions *)

Definition dictIntHashFunction (key : Z) : Z :=
  let key := u32 (key + u32 (Z.lnot (u32 (Z.shiftl key 15)))) in
  let key := u32 (Z.lxor key (Z.shiftr key 10)) in
  let key := u32 (key + u32 (Z.shiftl key 3)) in
  let key := u32 (Z.lxor key (Z.shiftr key 6)) in
  let key := u32 (key + u32 (Z.lnot (u32 (Z.shiftl key 11)))) in
  u32 (Z.lxor key (Z.shiftr key 16)).

Definition murmur_m : Z := 0x5bd1e995.

(** The loop over four bytes at a time: the hash and the bytes left. *)
Fixpoint dictGenHash_loop (h : Z) (data : list Z) : Z * list Z :=
  match data with
  | b0 :: b1 :: b2 :: b3 :: data =>
      let k := le_val [b0; b1; b2; b3] in
      let k := u32 (k * murmur_m) in
      let k := Z.lxor k (Z.shiftr k 24) in
      let k := u32 (k * murmur_m) in
      dictGenHash_loop (Z.lxor (u32 (h * murmur_m)) k) data
  | _ => (h, data)
  end.

Definition dictGenHashFunction (dict_hash_function_seed : Z) (key : list Z) : Z :=
  let h := Z.lxor dict_hash_function_seed (u32 (zlen key)) in
  let '(h, data) := dictGenHash_loop h key in
  let h :=
    match data with
    | [b0; b1; b2] =>
        u32 (Z.lxor (Z.lxor (Z.lxor h (Z.shiftl b2 16)) (Z.shiftl b1 8)) b0 * murmur_m)
    | [b0; b1] => u32 (Z.lxor (Z.lxor h (Z.shiftl b1 8)) b0 * murmur_m)
    | [b0] => u32 (Z.lxor h b0 * murmur_m)
    | _ => h
    end in
  let h := Z.lxor h (Z.shiftr h 13) in
  let h := u32 (h * murmur_m) in
  u32 (Z.lxor h (Z.shiftr h 15)).

(** [tolower] of the C locale. *)
Definition tolower (c : Z) : Z := if (65 <=? c) && (c <=? 90) then c + 32 else c.

Definition dictGenCaseHashFunction (dict_hash_function_seed : Z) (buf : list Z) : Z :=
  foldl (fun hash c => u32 (u32 (u32 (Z.shiftl hash 5) + hash) + tolower c)) (u32 dict_hash_function_seed) buf.

Lemma u32_range z : 0 <= u32 z < 2 ^ 32.
Proof. apply Z.mod_pos_bound. lia. Qed.

Lemma dictGenCaseHash_range seed buf : 0 <= dictGenCaseHashFunction seed buf < 2 ^ 32.
Proof.
  unfold dictGenCaseHashFunction. pose proof (u32_range seed) as Hs. revert Hs. generalize (u32 seed). clear seed.
  induction buf as [|c buf IH]; intros h Hh; cbn [foldl]; [done|]. apply IH, u32_range.
Qed.

(** The instances: integer keys, byte strings under a seed. *)
#[export] Instance int_DictType : DictType Z :=
  { hashFunction := dictIntHashFunction; hashFunction_range k := u32_range _ }.

Definition sds_DictType (seed : Z) : DictType (list Z) :=
  {| hashFunction := dictGenHashFunction seed;
     hashFunction_range := fun k => ltac:(unfold dictGenHashFunction; destruct (dictGenHash_loop _ _); apply u32_range) |}.

(** ** Iterators *)

Section Iter.
Context {K V : Type} `{HC : Countable K} `{HT : DictType K}.
#[local] Abbreviation dict := (@dict K V).

Record dictIterator := mk_iter {
  it_index : Z; it_table : bool; it_safe : bool;
  it_entry : list (K * V); it_nextEntry : list (K * V); it_fingerprint : Z }.

(** [table0] and [table1] are the addresses of the bucket arrays. *)
Definition dictFingerprint (table0 table1 : Z) (d : dict) : Z :=
  foldl (fun hash n =>
    let hash := u64 (hash + n) in
    let hash := u64 (u64 (Z.lnot hash) + u64 (Z.shiftl hash 21)) in
    let hash := u64 (Z.lxor hash (Z.shiftr (s64 hash) 24)) in
    let hash := u64 (hash + u64 (Z.shiftl hash 3) + u64 (Z.shiftl hash 8)) in
    let hash := u64 (Z.lxor hash (Z.shiftr (s64 hash) 14)) in
    let hash := u64 (hash + u64 (Z.shiftl hash 2) + u64 (Z.shiftl hash 4)) in
    let hash := u64 (Z.lxor hash (Z.shiftr (s64 hash) 28)) in
    u64 (hash + u64 (Z.shiftl hash 31)))
  0 [table0; size (ht0 d); used (ht0 d); table1; size (ht1 d); used (ht1 d)].

Definition dictGetIterator : dictIterator := mk_iter (-1) false false [] [] 0.
Definition dictGetSafeIterator : dictIterator := mk_iter (-1) false true [] [] 0.

Definition set_iterators (d : dict) (n : Z) : dict := mk_dict (ht0 d) (ht1 d) (rehashidx d) n.

(** [finger] stands for the fingerprint, which depends on addresses. *)
Context (finger : dict -> Z).

(** The dictionary, the iterator and the entry returned. *)
Fixpoint dictNext (fuel : nat) (d : dict) (it : dictIterator) : option (dict * dictIterator * option (K * V)) :=
  match fuel with
  | O => None
  | S fuel =>
      let ret d index table entry safe fp :=
        match entry with
        | e :: nextEntry => Some (d, mk_iter index table safe entry nextEntry fp, Some e)
        | [] => dictNext fuel d (mk_iter index table safe [] (it_nextEntry it) fp)
        end in
      match it_entry it with
      | _ :: _ => ret d (it_index it) (it_table it) (it_nextEntry it) (it_safe it) (it_fingerprint it)
      | [] =>
          let h := ht d (it_table it) in
          let first := (it_index it =? -1) && negb (it_table it) in
          let d := if first && it_safe it then set_iterators d (iterators d + 1) else d in
          let fp := if first && negb (it_safe it) then finger d else it_fingerprint it in
          let index := it_index it + 1 in
          if index >=? size h then
            if dictIsRehashing d && negb (it_table it) then
              e ← rd (table (ht1 d)) 0; ret d 0 true e (it_safe it) fp
            else Some (d, mk_iter index (it_table it) (it_safe it) [] (it_nextEntry it) fp, None)
          else e ← rd (table h) index; ret d index (it_table it) e (it_safe it) fp
      end
  end.

(** [None] is the failed assertion on the fingerprint. *)
Definition dictReleaseIterator (d : dict) (it : dictIterator) : option dict :=
  if negb ((it_index it =? -1) && negb (it_table it)) then
    if it_safe it then Some (set_iterators d (iterators d - 1))
    else if it_fingerprint it =? finger d then Some d else None
  else Some d.

(** A loop over the whole dictionary: the entries in the order met. *)
Fixpoint dictIterate (fuel : nat) (d : dict) (it : dictIterator) : option (dict * dictIterator * list (K * V)) :=
  match fuel with
  | O => None
  | S fuel' =>
      '(d, it, e) ← dictNext fuel d it;
      match e with
      | None => Some (d, it, [])
      | Some e => '(d, it, es) ← dictIterate fuel' d it; Some (d, it, e :: es)
      end
  end.

(** ** Iteration meets every entry once *)

(** The entries still to come. *)
Definition rest (d : dict) (it : dictIterator) : list (K * V) :=
  (match it_entry it with [] => [] | _ => it_nextEntry it end) ++
  concat (drop (Z.to_nat (it_index it + 1)) (table (ht d (it_table it)))) ++
  (if dictIsRehashing d && negb (it_table it) then ht_entries (ht1 d) else []).

Definition fresh (it : dictIterator) : bool := (it_index it =? -1) && negb (it_table it).

Definition iter_ok (d : dict) (it : dictIterator) : Prop :=
  (it_index it = -1 \/ 0 <= it_index it < size (ht d (it_table it))) /\ (it_table it = true -> dictIsRehashing d = true /\ 0 <= it_index it) /\
  (it_entry it <> [] -> 0 <= it_index it).

(** Bucket visits left, at most. *)
Definition visits (d : dict) (it : dictIterator) : Z :=
  size (ht d (it_table it)) - it_index it + (if dictIsRehashing d && negb (it_table it) then size (ht1 d) else 0) +
  (match it_entry it with [] => 0 | _ => 1 end).

(** What the first call does to the dictionary and to the fingerprint. *)
Definition opened (d : dict) (it : dictIterator) : dict :=
  if fresh it && it_safe it then set_iterators d (iterators d + 1) else d.
Definition opened_fp (d : dict) (it : dictIterator) : Z :=
  if fresh it && negb (it_safe it) then finger d else it_fingerprint it.

Lemma concat_drop_rd {A} (t : list (list A)) i c : rd t i = Some c ->
  concat (drop (Z.to_nat i) t) = c ++ concat (drop (Z.to_nat (i + 1)) t).
Proof.
  intros [Hi Hc]%rd_Some. replace (Z.to_nat (i + 1)) with (S (Z.to_nat i)) by lia.
  by rewrite (drop_S _ _ _ Hc).
Qed.

Lemma dict_sizes (d : dict) : dict_ok d -> zlen (table (ht0 d)) = size (ht0 d) /\ zlen (table (ht1 d)) = size (ht1 d) /\
  (dictIsRehashing d = true -> 4 <= size (ht1 d)).
Proof.
  intros Hd. destruct (dictIsRehashing d) eqn:Er.
  - destruct (ok_rehashing d Hd Er) as [H0 H1]. pose proof (size_range _ H1).
    destruct H0 as (_ & ? & _), H1 as (_ & ? & _). split_and!; [done | done | lia].
  - rewrite (ok_not_rehashing d Hd Er). destruct Hd as (_ & _ & [(_ & _ & [->|(_ & ? & _)])|((_ & ? & _) & _)]); done.
Qed.

Lemma iter_next_spec fuel : forall (d : dict) it, dict_ok d -> iter_ok d it -> visits d it < Z.of_nat fuel ->
  exists it', dictNext fuel d it = Some (opened d it, it', head (rest d it)) /\ fresh it' = false /\
    it_safe it' = it_safe it /\ it_fingerprint it' = opened_fp d it /\
    (rest d it <> [] -> iter_ok d it' /\ rest d it' = tail (rest d it) /\ visits d it' <= visits d it).
Proof.
  induction fuel as [|fuel IH]; intros d it Hd Hit Hf.
  { exfalso. destruct Hit as (Hi & _). unfold visits in Hf. pose proof (dict_sizes d Hd) as (H0 & H1 & _).
    assert (0 <= size (ht d (it_table it))) by (destruct (it_table it); cbn [ht]; lia). destruct (dictIsRehashing d && negb (it_table it)), (it_entry it); lia. }
  pose proof (dict_sizes d Hd) as (Hl0 & Hl1 & Hs1). destruct Hit as (Hi & Ht & He).
  assert (zlen (table (ht d (it_table it))) = size (ht d (it_table it))) as Hl by (by destruct (it_table it)).
  destruct it as [index tb safe entry nextEntry fp]. cbn [it_index it_table it_safe it_entry it_nextEntry it_fingerprint] in *.
  (* one visited bucket: [c] is the chain the cursor now stands at *)
  assert (forall d0 index' tb' c fp', dict_ok d0 -> ht0 d0 = ht0 d -> ht1 d0 = ht1 d -> rehashidx d0 = rehashidx d ->
    fresh (mk_iter index' tb' safe [] nextEntry fp') = false ->
    0 <= index' < size (ht d tb') -> (tb' = true -> dictIsRehashing d = true) ->
    visits d (mk_iter index' tb' safe [] nextEntry fp') < Z.of_nat fuel ->
    exists it', (match c with
       | e :: nextEntry0 => Some (d0, mk_iter index' tb' safe c nextEntry0 fp', Some e)
       | [] => dictNext fuel d0 (mk_iter index' tb' safe [] nextEntry fp')
       end) = Some (d0, it', head (c ++ rest d (mk_iter index' tb' safe [] nextEntry fp'))) /\ fresh it' = false /\
      it_safe it' = safe /\ it_fingerprint it' = fp' /\
      (c ++ rest d (mk_iter index' tb' safe [] nextEntry fp') <> [] -> iter_ok d it' /\
         rest d it' = tail (c ++ rest d (mk_iter index' tb' safe [] nextEntry fp')) /\
         visits d it' <= visits d (mk_iter index' tb' safe [] nextEntry fp') + 1)) as Hvisit.
  { intros d0 index' tb' c fp' Hd0 H0 H1 Hr Hfr Hix Htb Hv. 
    assert (forall it0, rest d0 it0 = rest d it0 /\ visits d0 it0 = visits d it0 /\ (iter_ok d0 it0 <-> iter_ok d it0)) as Hsame.
    { intros it0. unfold rest, visits, iter_ok, dictIsRehashing. rewrite Hr, H1.
      assert (ht d0 (it_table it0) = ht d (it_table it0)) as -> by (by destruct (it_table it0)). done. }
    destruct c as [|e c].
    - destruct (IH d0 (mk_iter index' tb' safe [] nextEntry fp') Hd0) as (it' & Hn & Hf' & Hsf & Hfp & Hrest).
      + apply Hsame. split; [cbn; lia|]. split; [intros; split; [by apply Htb | cbn; lia] | done].
      + by rewrite (proj1 (proj2 (Hsame _))).
      + unfold opened, opened_fp in *. rewrite Hfr in *. cbn [andb] in *. rewrite (proj1 (Hsame _)) in *.
        exists it'. split; [done|]. split_and!; try done. intros Hne. destruct (Hrest Hne) as (Hok & Hr' & Hv').
        rewrite (proj1 (Hsame _)), !(proj1 (proj2 (Hsame _))) in *. apply Hsame in Hok. cbn [app]. split_and!; try done. lia.
    - eexists. split; [done|]. split; [done|]. split; [done|]. split; [done|]. intros _. split; [|split; [done|]].
      + split; [cbn; lia|]. split; [intros; split; [by apply Htb | cbn; lia] | cbn; lia].
      + unfold visits. cbn. lia. }
  cbn [dictNext it_index it_table it_safe it_entry it_nextEntry it_fingerprint].
  destruct entry as [|e0 entry].
  - change (((index =? -1) && negb tb)) with (fresh (mk_iter index tb safe [] nextEntry fp)).
    set (it := mk_iter index tb safe [] nextEntry fp) in *.
    change (if fresh it && safe then set_iterators d (iterators d + 1) else d) with (opened d it).
    change (ht d tb) with (ht d (it_table it)). 
    assert (ht0 (opened d it) = ht0 d /\ ht1 (opened d it) = ht1 d /\ rehashidx (opened d it) = rehashidx d /\ dict_ok (opened d it))
      as (Ho0 & Ho1 & Hor & Hok).
    { unfold opened. destruct (_ && _); [|done]. split_and!; try done. destruct Hd as (? & ? & ?). split_and!; try done. cbn. lia. }
    assert ((if fresh it && negb safe then finger (opened d it) else fp) = opened_fp d it) as ->.
    { unfold opened, opened_fp. cbn [it_safe it_fingerprint it]. destruct (fresh it), safe; done. }
    assert (dictIsRehashing (opened d it) = dictIsRehashing d) as -> by (unfold dictIsRehashing; by rewrite Hor).
    unfold visits in Hf. cbn [it_index it_table it_entry it] in Hf |- *.
    destruct (index + 1 >=? size (ht d tb)) eqn:Eend; zbool.
    + assert (0 <= size (ht d tb)) as Hsz by lia. assert (index + 1 = size (ht d tb)) as Hix by lia.
      assert (concat (drop (Z.to_nat (index + 1)) (table (ht d tb))) = []) as Hnil by (rewrite drop_ge by lia; done).
      destruct (dictIsRehashing d && negb tb) eqn:Er.
      * apply andb_true_iff in Er as [Er Etb]. specialize (Hs1 Er). rewrite Ho1.
        destruct (rd_lt (table (ht1 d)) 0) as [c Hc]; [lia|]. rewrite Hc. cbn [mbind option_bind].
        assert (rest d it = c ++ rest d (mk_iter 0 true safe [] nextEntry (opened_fp d it))) as ->.
        { unfold rest at 1. cbn [it_index it_table it_entry it]. rewrite Hnil, Er, Etb. cbn [andb app].
          unfold rest. cbn [it_index it_table it_entry negb ht]. rewrite andb_false_r, app_nil_r.
          pose proof (concat_drop_rd _ _ _ Hc) as Hcd. change (Z.to_nat 0) with O in Hcd. rewrite drop_0 in Hcd. exact Hcd. }
        destruct (Hvisit (opened d it) 0 true c (opened_fp d it) Hok Ho0 Ho1 Hor eq_refl) as (it' & Hn & Hfr & Hsf & Hfp & Hrest);
          [cbn; lia | done | unfold visits; cbn [it_index it_table it_entry ht]; rewrite andb_false_r; lia |].
        exists it'. split; [destruct c; exact Hn|]. split_and!; try done. intros Hne. destruct (Hrest Hne) as (? & ? & Hv).
        split_and!; try done. unfold visits in *. cbn [it_index it_table it_entry it ht] in *. rewrite andb_false_r in Hv. rewrite Er, Etb in *. cbn [andb] in *. lia.
      * assert (rest d it = []) as ->.
        { unfold rest. cbn [it_index it_table it_entry it]. by rewrite Hnil, Er. }
        eexists. split; [done|]. split_and!; try done. unfold fresh. cbn. apply andb_false_iff. left. apply Z.eqb_neq. lia.
    + destruct (rd_lt (table (ht d tb)) (index + 1)) as [c Hc]; [lia|]. rewrite Hc. cbn [mbind option_bind].
      assert (rest d it = c ++ rest d (mk_iter (index + 1) tb safe [] nextEntry (opened_fp d it))) as ->.
      { unfold rest. cbn [it_index it_table it_entry it app]. rewrite (concat_drop_rd _ _ _ Hc). by rewrite <- app_assoc. }
      destruct (Hvisit (opened d it) (index + 1) tb c (opened_fp d it) Hok Ho0 Ho1 Hor) as (it' & Hn & Hfr & Hsf & Hfp & Hrest);
        [unfold fresh; cbn; apply andb_false_iff; left; apply Z.eqb_neq; lia | lia | intros; by apply Ht |
         unfold visits; cbn [it_index it_table it_entry]; lia |].
      exists it'. split; [destruct c; exact Hn|]. split_and!; try done. intros Hne. destruct (Hrest Hne) as (? & ? & Hv).
      split_and!; try done. unfold visits in *. cbn [it_index it_table it_entry it] in *. lia.
  - specialize (He ltac:(done)). set (it := mk_iter index tb safe (e0 :: entry) nextEntry fp) in *.
    assert (fresh it = false) as Hfr0 by (unfold fresh; cbn; apply andb_false_iff; left; apply Z.eqb_neq; lia).
    assert (opened d it = d /\ opened_fp d it = fp) as [-> ->] by (unfold opened, opened_fp; by rewrite Hfr0).
    assert (rest d it = nextEntry ++ rest d (mk_iter index tb safe [] nextEntry fp)) as -> by done.
    destruct (Hvisit d index tb nextEntry fp Hd eq_refl eq_refl eq_refl) as (it' & Hn & Hfr & Hsf & Hfp & Hrest);
      [exact Hfr0 | lia | intros; by apply Ht | unfold visits in *; cbn [it_index it_table it_entry it] in *; lia |].
    exists it'. split; [destruct nextEntry; exact Hn|]. split_and!; try done. intros Hne. destruct (Hrest Hne) as (? & ? & Hv).
    split_and!; try done. unfold visits in *. cbn [it_index it_table it_entry it] in *. lia.
Qed.

Lemma opened_same (d : dict) it it0 : dict_ok d ->
  dict_ok (opened d it) /\ rest (opened d it) it0 = rest d it0 /\ visits (opened d it) it0 = visits d it0 /\
  (iter_ok (opened d it) it0 <-> iter_ok d it0).
Proof.
  intros Hd. unfold opened. destruct (_ && _); [|done]. split.
  - destruct Hd as (? & ? & ?). split_and!; [done | cbn; lia | done].
  - unfold rest, visits, iter_ok, dictIsRehashing. by destruct (it_table it0).
Qed.

Lemma iterate_spec fuel : forall (d : dict) it, dict_ok d -> (rest d it <> [] -> iter_ok d it) -> iter_ok d it ->
  visits d it + zlen (rest d it) < Z.of_nat fuel ->
  exists it', dictIterate fuel d it = Some (opened d it, it', rest d it) /\ fresh it' = false /\
    it_safe it' = it_safe it /\ it_fingerprint it' = opened_fp d it.
Proof.
  induction fuel as [|fuel IH]; intros d it Hd _ Hit Hf.
  { exfalso. destruct (iter_next_spec 1 d it Hd Hit) as (it' & Hn & _); [lia|].
    destruct Hit as (Hi & _). unfold visits in Hf. pose proof (dict_sizes d Hd) as (H0 & H1 & _).
    assert (0 <= size (ht d (it_table it))) by (destruct (it_table it); cbn [ht]; lia).
    destruct (dictIsRehashing d && negb (it_table it)), (it_entry it); lia. }
  cbn [dictIterate]. destruct (iter_next_spec (S fuel) d it Hd Hit ltac:(lia)) as (it' & -> & Hfr & Hsf & Hfp & Hrest).
  cbn [mbind option_bind]. destruct (rest d it) as [|e es] eqn:Er; cbn [head]; [by exists it'|].
  destruct (Hrest ltac:(done)) as (Hok & Hr & Hv). cbn [tail] in Hr.
  destruct (opened_same d it it' Hd) as (Hd1 & Hr1 & Hv1 & Hok1).
  cbn [length] in Hf.
  destruct (IH (opened d it) it' Hd1) as (it2 & -> & Hfr2 & Hsf2 & Hfp2).
  - intros _. by apply Hok1.
  - by apply Hok1.
  - rewrite Hv1, Hr1, Hr. lia.
  - cbn [mbind option_bind]. exists it2. rewrite Hr1, Hr.
    assert (opened (opened d it) it' = opened d it) as -> by (unfold opened at 1; by rewrite Hfr).
    split; [done|]. split; [done|]. split; [congruence|]. rewrite Hfp2. unfold opened_fp at 1. by rewrite Hfr.
Qed.

End Iter.



(** The case-insensitive hash gives the same bucket index to strings that are
    equal up to the case of their letters, and every hash function of dict.c stays
    in the range of [unsigned int], as the tables require of their key type. *)
Theorem dict_hashes seed k s t : tolower <$> s = tolower <$> t ->
  dictGenCaseHashFunction seed s = dictGenCaseHashFunction seed t /\
  0 <= dictGenCaseHashFunction seed s < 2 ^ 32 /\ 0 <= dictIntHashFunction k < 2 ^ 32 /\
  0 <= dictGenHashFunction seed s < 2 ^ 32.
Proof.
  intros Heq. split_and!; try apply dictGenCaseHash_range; try apply u32_range.
  - unfold dictGenCaseHashFunction. revert t Heq. generalize (u32 seed). clear seed.
    induction s as [|c s IH]; intros h [|c' t] Heq; try done. cbn [fmap list_fmap] in Heq. injection Heq as Hc Heq.
    cbn [foldl]. rewrite Hc. by apply IH.
  - exact (proj1 (@hashFunction_range _ (sds_DictType seed) s)).
  - exact (proj2 (@hashFunction_range _ (sds_DictType seed) s)).
Qed.

Lemma dict_hashes_witness :
  dictGenCaseHashFunction 5381 (bytes_of "Get") = dictGenCaseHashFunction 5381 (bytes_of "gET") /\
  0 <= dictGenCaseHashFunction 5381 (bytes_of "Get") < 2 ^ 32 /\ 0 <= dictIntHashFunction 7 < 2 ^ 32 /\
  0 <= dictGenHashFunction 5381 (bytes_of "Get") < 2 ^ 32.
Proof. apply (dict_hashes 5381 7 (bytes_of "Get") (bytes_of "gET")). reflexivity. Defined.
