(* ===== verification/DictRandom.v ===== *)
(** * Random elements of a hash table (dictGetRandomKey of dict.c)

    The numbers [random()] returns are an input: the list [rs], consumed from its
    head, [None] when it runs out.  A number that falls on an empty bucket is
    thrown away and another one is drawn, so the function is not total; the
    theorem says which inputs end it and what it can return. *)
From Stdlib Require Import Lia ZArith.
From stdpp Require Import base numbers list tactics option gmap fin_maps.
From S2P Require Import Prelude Dict DictRep DictIter.

#[local] Open Scope Z_scope.

Section Random.
Context {K V : Type} `{EqDecision K} `{DictType K}.
#[local] Abbreviation dict := (@dict K V).

(** The bucket number [r] of the generator selects. *)
Definition random_bucket (d : dict) (r : Z) : option (list (K * V)) :=
  if dictIsRehashing d then
    let h := u32 (u64 (rehashidx d + Z.rem r (u64 (size (ht0 d) + size (ht1 d) - rehashidx d)))) in
    if h >=? size (ht0 d) then rd (table (ht1 d)) (h - size (ht0 d)) else rd (table (ht0 d)) h
  else rd (table (ht0 d)) (u32 (Z.land r (sizemask (ht0 d)))).

(** The [do ... while(he == NULL)] loops: the chain and the numbers left. *)
Fixpoint random_chain (d : dict) (rs : list Z) : option (list (K * V) * list Z) :=
  match rs with
  | [] => None
  | r :: rs =>
      he ← random_bucket d r;
      match he with [] => random_chain d rs | _ => Some (he, rs) end
  end.

(** The dictionary, the numbers left and the entry, [None] inside for [NULL]. *)
Definition dictGetRandomKey (d : dict) (rs : list Z) : option (dict * list Z * option (K * V)) :=
  if dictSize d =? 0 then Some (d, rs, None) else
  d ← (if dictIsRehashing d then _dictRehashStep d else Some d);
  '(he, rs) ← random_chain d rs;
  match rs with
  | [] => None
  | r :: rs =>
      let listlen := zlen he in
      let listele := Z.rem r listlen in
      e ← rd he listele;
      Some (d, rs, Some e)
  end.

End Random.

Section Facts.
Context {K V : Type} `{HC : Countable K} `{HT : DictType K}.
Implicit Types (d : @dict K V).

(** [random()] returns a non negative [long]. *)
Definition random_ok (r : Z) : Prop := 0 <= r < 2 ^ 31.

Lemma mem_bucket (h : @dictht K V) i he e : rd (table h) i = Some he -> e ∈ he -> e ∈ ht_entries h.
Proof.
  intros [_ Hhe]%rd_Some He. apply list_elem_of_lookup_2 in Hhe.
  unfold ht_entries. apply list_elem_of_In, in_concat. exists he. by split; apply list_elem_of_In.
Qed.

(** The bucket an index of [random_bucket] names, once the arithmetic is done. *)
Definition nth_bucket d (h : Z) : option (list (K * V)) :=
  if h >=? size (ht0 d) then rd (table (ht1 d)) (h - size (ht0 d)) else rd (table (ht0 d)) h.

(** The first index the generator may select, and the number of them. *)
Definition random_base d : Z := if dictIsRehashing d then rehashidx d else 0.
Definition random_span d : Z := size (ht0 d) + size (ht1 d) - random_base d.

Lemma random_shape d r : dict_ok d -> dictSize d <> 0 -> random_ok r ->
  random_bucket d r = nth_bucket d (random_base d + r mod random_span d) /\ 0 < random_span d <= 2 ^ 31 /\
  0 <= random_base d <= size (ht0 d).
Proof.
  intros Hd Hne Hr. unfold random_bucket, nth_bucket, random_span, random_base, random_ok in *.
  destruct (dictIsRehashing d) eqn:Er.
  - destruct (ok_rehashing d Hd Er) as [H0 H1].
    pose proof (size_range _ H0) as S0. pose proof (size_range _ H1) as S1.
    assert (0 <= rehashidx d <= size (ht0 d)) as Hix.
    { destruct Hd as (_ & _ & [(Hx & _)|Hx]); [unfold dictIsRehashing in Er; by rewrite Hx in Er | apply Hx]. }
    rewrite (uwrap_small 64 (size _ + _ - _)) by lia. rewrite Z.rem_mod_nonneg by lia.
    pose proof (Z.mod_pos_bound r (size (ht0 d) + size (ht1 d) - rehashidx d)).
    rewrite (uwrap_small 64) by lia. rewrite (uwrap_small 32) by lia. split; [done | lia].
  - rewrite (ok_not_rehashing d Hd Er). cbn [size _dictReset].
    destruct (decide (size (ht0 d) = 0)) as [Hs|Hs].
    { destruct (ok_unsized d Hd Hs) as (E0 & E1 & _). exfalso. apply Hne. unfold dictSize. by rewrite E0, E1. }
    pose proof (ok_sized d Hd Hs) as H0. pose proof (size_range _ H0) as S0.
    destruct H0 as ((k & Hk & Hsz & ->) & _).
    assert (2 ^ k - 1 = Z.ones k) as -> by (rewrite Z.ones_equiv; lia). rewrite Z.land_ones by lia. rewrite <- Hsz.
    rewrite !Z.add_0_r, Z.sub_0_r, Z.add_0_l. pose proof (Z.mod_pos_bound r (size (ht0 d))) as Hm.
    rewrite uwrap_small by lia. assert (r mod size (ht0 d) >=? size (ht0 d) = false) as -> by lia. split; [done | lia].
Qed.

(** Every number selects a chain of the dictionary, and every chain that is not
    empty is selected by some number. *)
Lemma random_bucket_spec d r : dict_ok d -> dictSize d <> 0 -> random_ok r ->
  exists he, random_bucket d r = Some he /\ forall e, e ∈ he -> e ∈ entries d.
Proof.
  intros Hd Hne Hr. destruct (random_shape d r Hd Hne Hr) as (-> & Hsp & Hb).
  destruct (dict_sizes d Hd) as (L0 & L1 & _). unfold nth_bucket, entries.
  pose proof (Z.mod_pos_bound r (random_span d) ltac:(lia)) as Hm. unfold random_span in *. set (h := random_base d + _) in *.
  destruct (h >=? size (ht0 d)) eqn:Eh; zbool.
  - destruct (rd_lt (table (ht1 d)) (h - size (ht0 d))) as [he Hhe]; [lia|]. exists he. split; [done|].
    intros e He. apply elem_of_app. right. by eapply mem_bucket.
  - destruct (rd_lt (table (ht0 d)) h) as [he Hhe]; [lia|]. exists he. split; [done|].
    intros e He. apply elem_of_app. left. by eapply mem_bucket.
Qed.

(** A chain is no longer than the dictionary. *)
Lemma random_bucket_sub d r he : dict_ok d -> dictSize d <> 0 -> random_ok r -> random_bucket d r = Some he ->
  zlen he <= zlen (entries d).
Proof.
  intros Hd Hne Hr Hb. destruct (random_shape d r Hd Hne Hr) as (Hs & _). rewrite Hs in Hb. unfold nth_bucket in Hb.
  unfold entries, ht_entries. rewrite length_app.
  destruct (_ >=? _); destruct (bucket_split _ _ _ Hb) as (a & b & -> & _); rewrite !length_app; lia.
Qed.

Lemma entry_bucket d e : dict_ok d -> dictSize d <> 0 -> e ∈ entries d ->
  exists r he, random_ok r /\ random_bucket d r = Some he /\ e ∈ he.
Proof.
  intros Hd Hne He. destruct (dict_sizes d Hd) as (L0 & L1 & _).
  assert (exists h he, random_base d <= h < random_base d + random_span d /\ nth_bucket d h = Some he /\ e ∈ he) as (h & he & Hh & Hb & Hin).
  { destruct (random_shape d 0 Hd Hne ltac:(done)) as (_ & Hsp & Hbs). unfold random_span in *.
    assert (forall t : @dictht K V, e ∈ ht_entries t -> exists i he, table t !! i = Some he /\ e ∈ he) as Hmem.
    { intros t Ht. unfold ht_entries in Ht. apply list_elem_of_In, in_concat in Ht as (he & Hi & Hx).
      apply list_elem_of_In, list_elem_of_lookup_1 in Hi as [i Hi]. exists i, he. split; [done | by apply list_elem_of_In]. }
    unfold entries in He. apply elem_of_app in He as [He|He]; destruct (Hmem _ He) as (i & he & Hi & Hx);
      pose proof (lookup_lt_Some _ _ _ Hi) as Hlt.
    - exists (Z.of_nat i), he. split_and!; [ | lia | | done].
      + unfold random_base. destruct (dictIsRehashing d) eqn:Er; [|lia].
        destruct Hd as (_ & _ & [(E & _)|(_ & _ & _ & Hz)]); [unfold dictIsRehashing in Er; by rewrite E in Er|].
        destruct (decide (Z.of_nat i < rehashidx d)) as [Hl|]; [|lia]. rewrite (Hz i Hl) in Hi. simplify_eq. by apply not_elem_of_nil in Hx.
      + unfold nth_bucket. assert (Z.of_nat i >=? size (ht0 d) = false) as -> by lia. apply rd_Some. rewrite Nat2Z.id. split; [lia | done].
    - exists (size (ht0 d) + Z.of_nat i), he. split_and!; [lia | lia | | done].
      unfold nth_bucket. assert (size (ht0 d) + Z.of_nat i >=? size (ht0 d) = true) as -> by lia. apply rd_Some.
      replace (Z.to_nat _) with i by lia. split; [lia | done]. }
  exists (h - random_base d), he. 
  destruct (random_shape d (h - random_base d) Hd Hne) as (Hs & Hsp & Hbs);
    [destruct (random_shape d 0 Hd Hne ltac:(done)) as (_ & Hsp & Hbs); unfold random_ok; lia|].
  split; [unfold random_ok; lia|]. split; [|done]. rewrite Hs, Z.mod_small by lia. by replace (_ + _) with h by lia.
Qed.

Lemma random_chain_spec d rs : dict_ok d -> dictSize d <> 0 -> Forall random_ok rs ->
  match random_chain d rs with
  | Some (he, rest) => he <> [] /\ (forall e, e ∈ he -> e ∈ entries d) /\ exists pre r, rs = pre ++ r :: rest /\ Forall (fun r => random_bucket d r = Some []) pre
  | None => Forall (fun r => random_bucket d r = Some []) rs
  end.
Proof.
  intros Hd Hne. induction 1 as [|r rs Hr _ IH]; cbn [random_chain]; [done|].
  destruct (random_bucket_spec d r Hd Hne Hr) as (he & Hb & Hin). rewrite Hb. cbn [mbind option_bind].
  destruct he as [|e he].
  - destruct (random_chain d rs) as [[he rest]|]; [|by constructor].
    destruct IH as (H1 & H2 & pre & r' & -> & H4). split_and!; [done..|]. exists (r :: pre), r'. split; [done | by constructor].
  - split_and!; [done..|]. by exists [], r.
Qed.

Lemma dictSize_entries d : dict_ok d -> dictSize d = 0 <-> entries d = [].
Proof. intros Hd. rewrite (proj1 (used_entries d Hd)). destruct (entries d); cbn; split; try done; lia. Qed.

End Facts.

(** C36: on an empty dictionary dictGetRandomKey returns NULL at once; on another one
    what it returns is an entry of the dictionary and the dictionary stays the
    same map; it runs out of numbers only if every number before the last fell on
    an empty bucket; and every entry can be returned: two numbers make it come. *)
Theorem dict_random_key {K V : Type} `{HC : Countable K} `{HT : DictType K} (d : @dict K V) : dict_ok d ->
  zlen (entries d) < 2 ^ 31 ->
  (forall rs, Forall random_ok rs -> match dictGetRandomKey d rs with
   | Some (d', _, None) => dmap d = ∅ /\ d' = d
   | Some (d', _, Some e) => dmap d !! e.1 = Some e.2 /\ same d d'
   | None => exists d', same d d' /\ Forall (fun r => random_bucket d' r = Some []) (removelast rs)
   end) /\
  (forall k v, dmap d !! k = Some v -> exists d' r1 r2, random_ok r1 /\ random_ok r2 /\
     dictGetRandomKey d [r1; r2] = Some (d', [], Some (k, v))).
Proof.
  intros Hd Hlen. unfold dictGetRandomKey. destruct (step_same d Hd) as (d1 & -> & Hsame & _). cbn [mbind option_bind].
  destruct Hsame as (Hd1 & Hm & Hi). pose proof (size_dmap d Hd) as Hz. pose proof (size_dmap d1 Hd1) as Hz1.
  assert (zlen (entries d1) = zlen (entries d)) as Hlen1 by (rewrite Hz, Hz1; by rewrite Hm).
  destruct (dictSize d =? 0) eqn:E0; zbool.
  { apply (dictSize_entries d Hd) in E0. assert (dmap d = ∅) as Hnil by (unfold dmap; by rewrite E0). split.
    - intros rs _. done.
    - intros k v Hk. rewrite Hnil in Hk. by rewrite lookup_empty in Hk. }
  assert (dictSize d1 <> 0) as E1 by (rewrite (proj1 (used_entries d1 Hd1)), Hlen1, <- (proj1 (used_entries d Hd)); done).
  assert (forall (he : list (K * V)) r, he <> [] -> random_ok r -> 0 <= Z.rem r (zlen he) < zlen he) as Hrem.
  { intros he r Hne Hr. apply Z.rem_bound_pos; [apply Hr|]. destruct he; [done | cbn; lia]. }
  split.
  - intros rs Hrs. pose proof (random_chain_spec d1 rs Hd1 E1 Hrs) as Hc.
    destruct (random_chain d1 rs) as [[he rest]|]; cbn [mbind option_bind].
    + destruct Hc as (Hne & Hin & pre & r & -> & Hpre). apply Forall_app in Hrs as [_ [_ Hrest]%Forall_cons].
      destruct rest as [|r' rest].
      * exists d1. split; [done|]. by rewrite removelast_last.
      * apply Forall_cons in Hrest as [Hr' _]. destruct (rd_lt he (Z.rem r' (zlen he)) (Hrem _ _ Hne Hr')) as [e He].
        rewrite He. cbn [mbind option_bind]. split; [|done]. rewrite <- Hm. apply dmap_lookup; [apply Hd1|]. destruct e. cbn [fst snd].
        apply Hin. apply rd_Some in He as [_ He]. by eapply list_elem_of_lookup_2.
    + exists d1. split; [done|]. apply Forall_forall. intros r Hr. rewrite Forall_forall in Hc. apply Hc.
      destruct (decide (rs = [])) as [->|Hn]; [done|]. rewrite (app_removelast_last 0 Hn). apply elem_of_app. by left.
  - intros k v Hk. rewrite <- Hm in Hk. apply dmap_lookup in Hk; [|apply Hd1].
    destruct (entry_bucket d1 (k, v) Hd1 E1 Hk) as (r & he & Hr & Hb & Hin).
    assert (he <> []) as Hne by (by destruct he; [apply not_elem_of_nil in Hin|]).
    assert (zlen he < 2 ^ 31) as Hhe.
    { pose proof (random_bucket_sub d1 r he Hd1 E1 Hr Hb) as Hsub. lia. }
    apply list_elem_of_lookup_1 in Hin as [p Hp]. pose proof (lookup_lt_Some _ _ _ Hp) as Hlt.
    exists d1, r, (Z.of_nat p). split; [done|]. split; [unfold random_ok; lia|].
    cbn [random_chain]. rewrite Hb. cbn [mbind option_bind]. destruct he as [|e0 he]; [done|]. cbn [mbind option_bind].
    rewrite Z.rem_mod_nonneg, Z.mod_small by lia. assert (rd (e0 :: he) (Z.of_nat p) = Some (k, v)) as ->; [|done].
    apply rd_Some. rewrite Nat2Z.id. split; [lia | done].
Qed.

#[local] Instance demo_hash : DictType Z := { hashFunction := uwrap 32; hashFunction_range k := Z.mod_pos_bound k (2 ^ 32) eq_refl }.

Lemma dict_random_key_witness : exists d d' r1 r2, drun 0 dictCreate [DAdd true 1 10; DAdd true 5 50] = Some (d, [RBool true; RBool true]) /\
  random_ok r1 /\ random_ok r2 /\ dictGetRandomKey d [r1; r2] = Some (d', [], Some (5, 50)).
Proof.
  destruct (drun_mrun 0 [DAdd true 1 10; DAdd true 5 50] dictCreate (proj1 create_ok)) as (d & Hd & Hok & Hm).
  { repeat (apply Forall_cons_2; [exact I|]). apply Forall_nil_2. }
  { vm_compute. congruence. }
  exists d. rewrite (proj2 create_ok) in *. pose proof (size_dmap d Hok) as Hs. rewrite Hm in Hs.
  destruct (proj2 (dict_random_key d Hok ltac:(rewrite Hs; vm_compute; reflexivity)) 5 50) as (d' & r1 & r2 & H1 & H2 & H3).
  { rewrite Hm. vm_compute. reflexivity. }
  exists d', r1, r2. split; [exact Hd | split; [exact H1 | split; [exact H2 | exact H3]]].
Defined.
