(* ===== verification/Adlist.v ===== *)
(** * Doubly linked lists (adlist.c, adlist.h)

    Nodes live in a heap, so that a node reached through the list, an iterator or
    a pointer the caller kept is one and the same.  A heap is a finite map from
    addresses to nodes, [None] is the [NULL] pointer, and following a pointer to a
    freed or absent node makes an operation [None].  [zmalloc] gives an address not
    in use.  The representation predicate [dll] says that a heap holds a list of
    nodes; every operation is shown to keep it, to do what it should to the list of
    nodes, and to leave the rest of the heap alone. *)
From Stdlib Require Import Lia ZArith.
From stdpp Require Import base numbers list tactics option gmap fin_maps fin_sets.
From S2P Require Import Prelude.

#[local] Open Scope Z_scope.

Definition ptr := positive.

Section Adlist.
Context {V : Type}.

Record listNode := mk_node { prev : option ptr; next : option ptr; value : V }.
Record alist := mk_list { head : option ptr; tail : option ptr; len : Z }.
Record listIter := mk_iter { it_next : option ptr; from_head : bool }.

#[local] Abbreviation heap := (gmap ptr listNode).

(** Writes through a node pointer. *)
Definition set_prev (h : heap) (p : ptr) (x : option ptr) : option heap :=
  n ← h !! p; Some (<[p := mk_node x (next n) (value n)]> h).
Definition set_next (h : heap) (p : ptr) (x : option ptr) : option heap :=
  n ← h !! p; Some (<[p := mk_node (prev n) x (value n)]> h).

Definition listCreate : alist := mk_list None None 0.

(** [zmalloc]: an unused address. *)
Definition alloc (h : heap) : ptr := fresh (dom h : gset ptr).

Definition listAddNodeHead (h : heap) (l : alist) (v : V) : option (heap * alist) :=
  let node := alloc h in
  if len l =? 0 then
    Some (<[node := mk_node None None v]> h, mk_list (Some node) (Some node) (uwrap 64 (len l + 1)))
  else
    let h := <[node := mk_node None (head l) v]> h in
    hd ← head l;
    h ← set_prev h hd (Some node);
    Some (h, mk_list (Some node) (tail l) (uwrap 64 (len l + 1))).

Definition listAddNodeTail (h : heap) (l : alist) (v : V) : option (heap * alist) :=
  let node := alloc h in
  if len l =? 0 then
    Some (<[node := mk_node None None v]> h, mk_list (Some node) (Some node) (uwrap 64 (len l + 1)))
  else
    let h := <[node := mk_node (tail l) None v]> h in
    tl ← tail l;
    h ← set_next h tl (Some node);
    Some (h, mk_list (head l) (Some node) (uwrap 64 (len l + 1))).

Definition listInsertNode (h : heap) (l : alist) (old_node : ptr) (v : V) (after : bool) : option (heap * alist) :=
  let node := alloc h in
  old ← h !! old_node;
  let '(n, l) :=
    if after then
      (mk_node (Some old_node) (next old) v,
       if bool_decide (tail l = Some old_node) then mk_list (head l) (Some node) (len l) else l)
    else
      (mk_node (prev old) (Some old_node) v,
       if bool_decide (head l = Some old_node) then mk_list (Some node) (tail l) (len l) else l) in
  let h := <[node := n]> h in
  h ← (match prev n with Some p => set_next h p (Some node) | None => Some h end);
  h ← (match next n with Some p => set_prev h p (Some node) | None => Some h end);
  Some (h, mk_list (head l) (tail l) (uwrap 64 (len l + 1))).

Definition listDelNode (h : heap) (l : alist) (node : ptr) : option (heap * alist) :=
  n ← h !! node;
  '(h, l) ← (match prev n with
             | Some p => h ← set_next h p (next n); Some (h, l)
             | None => Some (h, mk_list (next n) (tail l) (len l))
             end);
  n ← h !! node;
  '(h, l) ← (match next n with
             | Some p => h ← set_prev h p (prev n); Some (h, l)
             | None => Some (h, mk_list (head l) (prev n) (len l))
             end);
  Some (base.delete node h, mk_list (head l) (tail l) (uwrap 64 (len l - 1))).

Definition listGetIterator (l : alist) (start_head : bool) : listIter :=
  mk_iter (if start_head then head l else tail l) start_head.
Definition listRewind (l : alist) : listIter := mk_iter (head l) true.
Definition listRewindTail (l : alist) : listIter := mk_iter (tail l) false.

(** The node returned and the iterator. *)
Definition listNext (h : heap) (iter : listIter) : option (option ptr * listIter) :=
  match it_next iter with
  | None => Some (None, iter)
  | Some current =>
      n ← h !! current;
      Some (Some current, mk_iter (if from_head iter then next n else prev n) (from_head iter))
  end.

(** The loop of [listDup]; [dup] is the method, if set.  [Some None] is the
    [NULL] result, the copy's nodes released. *)
Fixpoint listDup_loop (fuel : nat) (dup : option (V -> option V)) (h : heap) (iter : listIter) (copy : alist)
  : option (heap * option alist) :=
  match fuel with
  | O => None
  | S fuel =>
      '(node, iter) ← listNext h iter;
      match node with
      | None => Some (h, Some copy)
      | Some node =>
          n ← h !! node;
          match (match dup with Some dup => dup (value n) | None => Some (value n) end) with
          | None => Some (h, None)
          | Some v => '(h, copy) ← listAddNodeTail h copy v; listDup_loop fuel dup h iter copy
          end
      end
  end.

Definition listDup (dup : option (V -> option V)) (h : heap) (orig : alist) : option (heap * option alist) :=
  listDup_loop (S (Z.to_nat (len orig))) dup h (listGetIterator orig true) listCreate.

(** [matches] is the [match] method with its key, or pointer comparison. *)
Fixpoint listSearchKey_loop (fuel : nat) (matches : V -> bool) (h : heap) (iter : listIter) : option (option ptr) :=
  match fuel with
  | O => None
  | S fuel =>
      '(node, iter) ← listNext h iter;
      match node with
      | None => Some None
      | Some node => n ← h !! node; if matches (value n) then Some (Some node) else listSearchKey_loop fuel matches h iter
      end
  end.

Definition listSearchKey (matches : V -> bool) (h : heap) (l : alist) : option (option ptr) :=
  listSearchKey_loop (S (Z.to_nat (len l))) matches h (listGetIterator l true).

(** [while(index-- && n) n = n->next] or [n->prev] *)
Fixpoint listIndex_walk (index : nat) (forward : bool) (h : heap) (n : option ptr) : option (option ptr) :=
  match index, n with
  | S index, Some p => x ← h !! p; listIndex_walk index forward h (if forward then next x else prev x)
  | _, _ => Some n
  end.

Definition listIndex (h : heap) (l : alist) (index : Z) : option (option ptr) :=
  if index <? 0 then listIndex_walk (Z.to_nat (- index - 1)) false h (tail l)
  else listIndex_walk (Z.to_nat index) true h (head l).

Definition listRotate (h : heap) (l : alist) : option (heap * alist) :=
  if len l <=? 1 then Some (h, l) else
  tl ← tail l;
  t ← h !! tl;
  newtail ← prev t;
  h ← set_next h newtail None;
  hd ← head l;
  h ← set_prev h hd (Some tl);
  h ← set_prev h tl None;
  h ← set_next h tl (head l);
  Some (h, mk_list (Some tl) (Some newtail) (len l)).

(** The nodes are freed, [len] of them from [head] on. *)
Fixpoint listRelease_loop (len : nat) (h : heap) (current : option ptr) : option heap :=
  match len with
  | O => Some h
  | S len => p ← current; n ← h !! p; listRelease_loop len (base.delete p h) (next n)
  end.

Definition listRelease (h : heap) (l : alist) : option heap := listRelease_loop (Z.to_nat (len l)) h (head l).

(** ** Representation *)

Definition first (ns : list (ptr * V)) (nxt : option ptr) : option ptr :=
  match ns with (p, _) :: _ => Some p | [] => nxt end.
Definition final (prv : option ptr) (ns : list (ptr * V)) : option ptr :=
  match list.last ns with Some (p, _) => Some p | None => prv end.

(** The nodes [ns] are linked in the heap, between [prv] and [nxt]. *)
Fixpoint seg (h : heap) (prv : option ptr) (ns : list (ptr * V)) (nxt : option ptr) : Prop :=
  match ns with
  | [] => True
  | (p, v) :: ns => h !! p = Some (mk_node prv (first ns nxt) v) /\ seg h (Some p) ns nxt
  end.

Definition dll (h : heap) (l : alist) (ns : list (ptr * V)) : Prop :=
  seg h None ns None /\ NoDup ns.*1 /\ head l = first ns None /\ tail l = final None ns /\
  len l = zlen ns /\ zlen ns < 2 ^ 63.

(** [h'] agrees with [h] on the nodes of [h] that are not in [ps]. *)
Definition frame (ps : list ptr) (h h' : heap) : Prop :=
  forall q, q ∉ ps -> is_Some (h !! q) -> h' !! q = h !! q.

Lemma final_app prv a p v b : final prv (a ++ (p, v) :: b) = final (Some p) b.
Proof.
  unfold final. rewrite last_app_cons. destruct b as [|x b] using rev_ind; [done|].
  change ((p, v) :: b ++ [x]) with (((p, v) :: b) ++ [x]). by rewrite !last_snoc.
Qed.

Lemma final_cons prv p v (b : list (ptr * V)) : final prv ((p, v) :: b) = final (Some p) b.
Proof. exact (final_app prv [] p v b). Qed.

Lemma seg_app h prv a b nxt : seg h prv (a ++ b) nxt <-> seg h prv a (first b nxt) /\ seg h (final prv a) b nxt.
Proof.
  revert prv; induction a as [|[p v] a IH]; intros prv; cbn [app seg]; [tauto|]. rewrite IH.
  assert (first (a ++ b) nxt = first a (first b nxt)) as -> by (by destruct a as [|[? ?] ?]).
  assert (final prv ((p, v) :: a) = final (Some p) a) as -> by apply (final_app prv [] p v a). tauto.
Qed.

Lemma seg_frame h h' ns prv nxt : (forall q, q ∈ ns.*1 -> h' !! q = h !! q) -> seg h prv ns nxt -> seg h' prv ns nxt.
Proof.
  revert prv; induction ns as [|[p v] ns IH]; intros prv Hq; cbn [seg]; [done|].
  intros [Hp Hs]. split; [rewrite Hq; [done | cbn; set_solver]|]. apply IH; [|done]. intros q ?. apply Hq. cbn. set_solver.
Qed.

Lemma seg_insert h ns prv nxt p n : p ∉ ns.*1 -> seg h prv ns nxt -> seg (<[p := n]> h) prv ns nxt.
Proof. intros Hp. apply seg_frame. intros q Hq. apply lookup_insert_ne. congruence. Qed.

Lemma seg_delete h ns prv nxt p : p ∉ ns.*1 -> seg h prv ns nxt -> seg (base.delete p h) prv ns nxt.
Proof. intros Hp. apply seg_frame. intros q Hq. apply lookup_delete_ne. congruence. Qed.

Lemma seg_dom h prv ns nxt p : seg h prv ns nxt -> p ∈ ns.*1 -> is_Some (h !! p).
Proof.
  revert prv; induction ns as [|[q v] ns IH]; intros prv; cbn [seg]; [intros _ ?%elem_of_nil; done|].
  intros [Hq Hs] [->|Hp]%elem_of_cons; [eauto | by eapply IH].
Qed.

Lemma alloc_fresh (h : heap) : h !! alloc h = None.
Proof. apply (not_elem_of_dom (D := gset ptr)). unfold alloc. apply is_fresh. Qed.

Lemma alloc_not_in h prv ns nxt : seg h prv ns nxt -> alloc h ∉ ns.*1.
Proof. intros Hs Hin. destruct (seg_dom _ _ _ _ _ Hs Hin). by rewrite alloc_fresh in *. Qed.

(** ** Linking *)

Definition link_next (h : heap) (o : option ptr) (x : option ptr) : option heap :=
  match o with Some p => set_next h p x | None => Some h end.
Definition link_prev (h : heap) (o : option ptr) (x : option ptr) : option heap :=
  match o with Some p => set_prev h p x | None => Some h end.

(** [h'] differs from [h] in nodes of [ps] only, and has the same addresses. *)
Definition touches (ps : list ptr) (h h' : heap) : Prop :=
  (forall q, q ∉ ps -> h' !! q = h !! q) /\ (forall q, is_Some (h' !! q) <-> is_Some (h !! q)).

Lemma touches_insert p n n' (h : heap) ps : p ∈ ps -> h !! p = Some n -> touches ps h (<[p := n']> h).
Proof.
  intros Hp Hn. split.
  - intros q Hq. apply lookup_insert_ne. congruence.
  - intros q. destruct (decide (q = p)) as [->|]; [rewrite lookup_insert_eq, Hn | by rewrite lookup_insert_ne]. split; eauto.
Qed.

Lemma link_next_spec h a nxt x : seg h None a nxt -> NoDup a.*1 ->
  exists h', link_next h (final None a) x = Some h' /\ seg h' None a x /\ touches a.*1 h h'.
Proof.
  intros Hs Hnd. destruct a as [|[p v] a _] using rev_ind; [exists h; split; [done|]; split; [done | by split]|].
  rewrite (final_app None a p v []). unfold final. cbn [list.last link_next]. unfold set_next.
  apply seg_app in Hs as [Ha Hp]. cbn [seg first] in Hp. destruct Hp as [Hp _]. rewrite Hp. cbn [mbind option_bind].
  rewrite fmap_app in Hnd. apply NoDup_app in Hnd as (_ & Hnd & _).
  eexists. split; [done|]. split.
  - apply seg_app. cbn [seg first fst] in *. split; [|split; [by rewrite lookup_insert_eq | done]].
    apply seg_insert; [|done]. intros Hin. apply (Hnd p Hin). cbn. set_solver.
  - eapply touches_insert; [|done]. rewrite fmap_app. cbn. set_solver.
Qed.

Lemma link_prev_spec h prv b x : seg h prv b None -> NoDup b.*1 ->
  exists h', link_prev h (first b None) x = Some h' /\ seg h' x b None /\ touches b.*1 h h'.
Proof.
  intros Hs Hnd. destruct b as [|[p v] b]; [exists h; split; [done|]; split; [done | by split]|].
  cbn [first link_prev seg] in *. unfold set_prev. destruct Hs as [Hp Hb]. rewrite Hp. cbn [mbind option_bind].
  cbn in Hnd. apply NoDup_cons in Hnd as [Hnp Hnd]. eexists. split; [done|]. split.
  - split; [by rewrite lookup_insert_eq | by apply seg_insert].
  - eapply touches_insert; [|done]. cbn. set_solver.
Qed.

Lemma seg_touches ps h h' ns prv nxt : touches ps h h' -> (forall q, q ∈ ns.*1 -> q ∉ ps) -> seg h prv ns nxt -> seg h' prv ns nxt.
Proof. intros [Ht _] Hd. apply seg_frame. intros q Hq. by apply Ht, Hd. Qed.

Lemma touches_trans ps qs h h1 h2 : touches ps h h1 -> touches qs h1 h2 -> touches (ps ++ qs) h h2.
Proof.
  intros [H1 D1] [H2 D2]. split; intros q; [|by rewrite D2, D1]. rewrite elem_of_app. intros Hq.
  rewrite H2, H1 by tauto. done.
Qed.

Lemma NoDup_split (a b : list (ptr * V)) : NoDup (a ++ b).*1 -> NoDup a.*1 /\ NoDup b.*1 /\
  (forall q, q ∈ a.*1 -> q ∉ b.*1) /\ (forall q, q ∈ b.*1 -> q ∉ a.*1).
Proof.
  rewrite fmap_app. intros (Ha & Hd & Hb)%NoDup_app. split_and!; try done. intros q H1 H2. by apply (Hd q).
Qed.

(** A new node between [a] and [b]. *)
Lemma insert_between h a b node v : seg h None (a ++ b) None -> NoDup (a ++ b).*1 -> h !! node = None ->
  exists h1 h', link_next (<[node := mk_node (final None a) (first b None) v]> h) (final None a) (Some node) = Some h1 /\
    link_prev h1 (first b None) (Some node) = Some h' /\ seg h' None (a ++ (node, v) :: b) None /\
    NoDup (a ++ (node, v) :: b).*1 /\ frame (a ++ b).*1 h h'.
Proof.
  intros Hs Hnd Hn. pose proof Hs as [Ha Hb]%seg_app.
  assert (node ∉ (a ++ b).*1) as Hnin by (intros Hin; destruct (seg_dom _ _ _ _ _ Hs Hin); congruence).
  destruct (NoDup_split a b Hnd) as (Hna & Hnb & Hab & Hba). rewrite fmap_app, not_elem_of_app in Hnin. destruct Hnin as [Hia Hib].
  set (n := mk_node (final None a) (first b None) v). set (h0 := <[node := n]> h).
  destruct (link_next_spec h0 a (first b None) (Some node)) as (h1 & H1 & Ha1 & Ht1); [by apply seg_insert | done |].
  destruct (link_prev_spec h1 (final None a) b (Some node)) as (h' & H2 & Hb1 & Ht2);
    [by apply (seg_touches _ _ _ _ _ _ Ht1); [|apply seg_insert] | done |].
  exists h1, h'. split; [done|]. split; [done|]. split; [|split].
  - apply seg_app. cbn [seg first]. split; [|split; [|done]].
    + by apply (seg_touches _ _ _ _ _ _ Ht2).
    + rewrite (proj1 Ht2) by done. rewrite (proj1 Ht1) by done. apply lookup_insert_eq.
  - rewrite fmap_app, fmap_cons. cbn [fst]. rewrite fmap_app in Hnd. apply NoDup_app in Hnd as (_ & Hd & _).
    apply NoDup_app. split; [done|]. split; [|by apply NoDup_cons].
    intros q Hq [->|Hin]%elem_of_cons; [done | by apply (Hd q)].
  - intros q Hq [x Hx]. rewrite fmap_app, not_elem_of_app in Hq. destruct Hq as [Hqa Hqb].
    rewrite (proj1 Ht2), (proj1 Ht1) by done. apply lookup_insert_ne. congruence.
Qed.

(** ** Operations on the list of nodes *)

Lemma dll_len0 h l ns : dll h l ns -> (len l =? 0) = bool_decide (ns = []).
Proof.
  intros (_ & _ & _ & _ & -> & _). destruct ns; [done|]. rewrite bool_decide_eq_false_2 by done. apply Z.eqb_neq. cbn [length]. lia.
Qed.

Lemma create_spec h : dll h listCreate [].
Proof. repeat split; constructor. Qed.

Lemma final_None_nil (a : list (ptr * V)) : final None a = None -> a = [].
Proof. unfold final. destruct a as [|[p v] a _] using rev_ind; [done|]. by rewrite last_snoc. Qed.

Lemma addHead_spec h l ns v : dll h l ns -> zlen ns + 1 < 2 ^ 63 ->
  exists h' l', listAddNodeHead h l v = Some (h', l') /\ dll h' l' ((alloc h, v) :: ns) /\ frame ns.*1 h h'.
Proof.
  intros Hd Hb. unfold listAddNodeHead. rewrite (dll_len0 _ _ _ Hd). destruct Hd as (Hs & Hnd & Hh & Ht & Hl & _).
  pose proof (alloc_fresh h) as Hf. destruct (insert_between h [] ns (alloc h) v Hs Hnd Hf) as (h1 & h' & H1 & H2 & Hs' & Hnd' & Hfr).
  cbn [final list.last link_next app] in *. change (final None []) with (@None ptr) in *. cbn [link_next] in H1. injection H1 as <-.
  rewrite Hl, uwrap_small by lia. destruct ns as [|[p w] ns]; cbn [first link_prev] in *.
  - injection H2 as <-. rewrite bool_decide_eq_true_2 by done. eexists _, _. split; [done|]. split; [|done].
    split_and!; try done; cbn [length] in *; lia.
  - rewrite bool_decide_eq_false_2 by done. rewrite Hh. cbn [mbind option_bind]. rewrite H2. cbn [mbind option_bind].
    eexists _, _. split; [done|]. split; [|done]. split_and!; try done; cbn [length len] in *; try lia.
Qed.

Lemma first_app (a b : list (ptr * V)) nxt : first (a ++ b) nxt = first a (first b nxt).
Proof. by destruct a as [|[? ?] ?]. Qed.

Lemma addTail_spec h l ns v : dll h l ns -> zlen ns + 1 < 2 ^ 63 ->
  exists h' l', listAddNodeTail h l v = Some (h', l') /\ dll h' l' (ns ++ [(alloc h, v)]) /\ frame ns.*1 h h'.
Proof.
  intros Hd Hb. unfold listAddNodeTail. rewrite (dll_len0 _ _ _ Hd). destruct Hd as (Hs & Hnd & Hh & Ht & Hl & _).
  pose proof (alloc_fresh h) as Hf. rewrite <- (app_nil_r ns) in Hs, Hnd.
  destruct (insert_between h ns [] (alloc h) v Hs Hnd Hf) as (h1 & h' & H1 & H2 & Hs' & Hnd' & Hfr).
  cbn [first link_prev] in *. injection H2 as <-. rewrite app_nil_r in *.
  rewrite Hl, uwrap_small by lia. destruct ns as [|[p w] ns _] using rev_ind.
  - injection H1 as <-. rewrite bool_decide_eq_true_2 by done. eexists _, _. split; [done|]. split; [|done].
    split_and!; try done; cbn [length] in *; lia.
  - rewrite bool_decide_eq_false_2 by (by destruct ns). rewrite Ht. rewrite (final_app None ns p w []) in *.
    change (final (Some p) []) with (Some p) in *. cbn [mbind option_bind link_next] in *. rewrite H1. cbn [mbind option_bind].
    eexists _, _. split; [done|]. split; [|done]. split_and!; try done; cbn [length len head tail] in *.
    + by rewrite Hh, !first_app.
    + by rewrite (final_app None _ (alloc h) v []).
    + rewrite !length_app in *. cbn [length] in *. lia.
    + rewrite !length_app in *. cbn [length] in *. lia.
Qed.

Lemma final_eq (a b : list (ptr * V)) p v : NoDup (a ++ (p, v) :: b).*1 ->
  bool_decide (final None (a ++ (p, v) :: b) = Some p) = bool_decide (b = []).
Proof.
  intros Hnd. apply bool_decide_ext. rewrite final_app. destruct b as [|[q w] b _] using rev_ind; [done|].
  rewrite (final_app (Some p) b q w []). split; [|by destruct b]. intros [= ->]. exfalso.
  rewrite fmap_app, fmap_cons, fmap_app in Hnd. apply NoDup_app in Hnd as (_ & _ & Hnd).
  apply NoDup_cons in Hnd as [Hnd _]. apply Hnd. cbn. set_solver.
Qed.

Lemma first_eq (a b : list (ptr * V)) p v : NoDup (a ++ (p, v) :: b).*1 ->
  bool_decide (first (a ++ (p, v) :: b) None = Some p) = bool_decide (a = []).
Proof.
  intros Hnd. apply bool_decide_ext. rewrite first_app. destruct a as [|[q w] a]; cbn [first]; [done|].
  split; [|done]. intros [= ->]. exfalso. cbn in Hnd. apply NoDup_cons in Hnd as [Hnd _]. apply Hnd.
  rewrite fmap_app. cbn. set_solver.
Qed.

Lemma seg_at h prv a b p v nxt : seg h prv (a ++ (p, v) :: b) nxt -> h !! p = Some (mk_node (final prv a) (first b nxt) v).
Proof. intros [_ [Hp _]]%seg_app. done. Qed.

Lemma insertNode_spec h l a p v b w (after : bool) : dll h l (a ++ (p, v) :: b) -> zlen (a ++ (p, v) :: b) + 1 < 2 ^ 63 ->
  exists h' l', listInsertNode h l p w after = Some (h', l') /\
    dll h' l' (if after then a ++ (p, v) :: (alloc h, w) :: b else a ++ (alloc h, w) :: (p, v) :: b) /\
    frame (a ++ (p, v) :: b).*1 h h'.
Proof.
  intros (Hs & Hnd & Hh & Ht & Hl & _) Hb. unfold listInsertNode. rewrite (seg_at _ _ _ _ _ _ _ Hs). cbn [mbind option_bind prev next].
  pose proof (alloc_fresh h) as Hf.
  assert (bool_decide (tail l = Some p) = bool_decide (b = [])) as -> by (rewrite Ht; by apply final_eq).
  assert (bool_decide (head l = Some p) = bool_decide (a = [])) as -> by (rewrite Hh; by apply first_eq).
  destruct after.
  - assert (a ++ (p, v) :: b = (a ++ [(p, v)]) ++ b) as Heq by (by rewrite <- app_assoc).
    rewrite Heq in Hs, Hnd. destruct (insert_between h (a ++ [(p, v)]) b (alloc h) w Hs Hnd Hf) as (h1 & h' & H1 & H2 & Hs' & Hnd' & Hfr).
    rewrite (final_app None a p v []) in H1. change (final (Some p) []) with (Some p) in H1. cbn [link_next] in H1.
    cbn [prev next]. rewrite H1. cbn [mbind option_bind]. unfold link_prev in H2. rewrite H2. cbn [mbind option_bind].
    assert (len (if bool_decide (b = []) then mk_list (head l) (Some (alloc h)) (len l) else l) = len l) as -> by (by destruct (bool_decide _)).
    assert (uwrap 64 (len l + 1) = len l + 1) as -> by (apply uwrap_small; lia). eexists _, _. split; [done|]. rewrite Heq. split; [|done].
    assert (a ++ (p, v) :: (alloc h, w) :: b = (a ++ [(p, v)]) ++ (alloc h, w) :: b) as -> by (by rewrite <- app_assoc).
    split_and!; try done; cbn [head tail len].
    + assert (head (if bool_decide (b = []) then mk_list (head l) (Some (alloc h)) (len l) else l) = head l) as -> by (by destruct (bool_decide _)).
      rewrite Hh, !first_app. destruct a as [|[? ?] ?]; done.
    + destruct b as [|x b]; cbn; [by rewrite (final_app None _ (alloc h) w [])|]. 
      rewrite Ht. rewrite !final_app. destruct x as [q u]. by rewrite !final_cons.
    + rewrite !length_app in *. cbn [length] in *. lia.
    + rewrite !length_app in *. cbn [length] in *. lia.
  - destruct (insert_between h a ((p, v) :: b) (alloc h) w Hs Hnd Hf) as (h1 & h' & H1 & H2 & Hs' & Hnd' & Hfr).
    cbn [first link_prev prev next] in *. unfold link_next in H1. rewrite H1. cbn [mbind option_bind]. rewrite H2. cbn [mbind option_bind].
    assert (len (if bool_decide (a = []) then mk_list (Some (alloc h)) (tail l) (len l) else l) = len l) as -> by (by destruct (bool_decide _)).
    assert (uwrap 64 (len l + 1) = len l + 1) as -> by (apply uwrap_small; lia). eexists _, _. split; [done|]. split; [|done]. split_and!; try done; cbn [head tail len].
    + destruct a as [|[q u] a]; cbn; [done|]. by rewrite Hh.
    + assert (tail (if bool_decide (a = []) then mk_list (Some (alloc h)) (tail l) (len l) else l) = tail l) as -> by (by destruct (bool_decide _)).
      rewrite Ht, !final_app. by rewrite !final_cons.
    + rewrite !length_app in *. cbn [length] in *. lia.
    + rewrite !length_app in *. cbn [length] in *. lia.
Qed.

Lemma delNode_spec h l a p v b : dll h l (a ++ (p, v) :: b) ->
  exists h' l', listDelNode h l p = Some (h', l') /\ dll h' l' (a ++ b) /\ frame (a ++ (p, v) :: b).*1 h h' /\ h' !! p = None.
Proof.
  intros (Hs & Hnd & Hh & Ht & Hl & Hb). unfold listDelNode. pose proof (seg_at _ _ _ _ _ _ _ Hs) as Hp. rewrite Hp.
  cbn [mbind option_bind prev next]. apply seg_app in Hs as [Ha Hs]. cbn [seg] in Hs. destruct Hs as [_ Hsb].
  destruct (NoDup_split _ _ Hnd) as (Hna & Hnpb & Hd1 & Hd2). cbn in Hnpb. apply NoDup_cons in Hnpb as [Hpb Hnb].
  assert (p ∉ a.*1) as Hpa by (apply Hd2; cbn; set_solver).
  destruct (link_next_spec h a (first ((p, v) :: b) None) (first b None) Ha Hna) as (h1 & H1 & Ha1 & Ht1).
  assert ((match final None a with
           | Some p0 => h0 ← set_next h p0 (first b None); Some (h0, l)
           | None => Some (h, mk_list (first b None) (tail l) (len l))
           end) = Some (h1, match final None a with Some _ => l | None => mk_list (first b None) (tail l) (len l) end)) as ->.
  { unfold link_next in H1. destruct (final None a); [by rewrite H1 | by simplify_eq]. }
  cbn [mbind option_bind]. rewrite (proj1 Ht1 p Hpa), Hp. cbn [mbind option_bind prev next].
  destruct (link_prev_spec h1 (Some p) b (final None a)) as (h2 & H2 & Hb2 & Ht2).
  { apply (seg_touches _ _ _ _ _ _ Ht1); [|done]. intros q Hq. apply Hd2. cbn. set_solver. }
  { done. }
  set (l1 := match final None a with Some _ => l | None => _ end).
  assert ((match first b None with
           | Some p0 => h0 ← set_prev h1 p0 (final None a); Some (h0, l1)
           | None => Some (h1, mk_list (head l1) (final None a) (len l1))
           end) = Some (h2, match first b None with Some _ => l1 | None => mk_list (head l1) (final None a) (len l1) end)) as ->.
  { unfold link_prev in H2. destruct (first b None); [by rewrite H2 | by simplify_eq]. }
  cbn [mbind option_bind]. eexists _, _. split; [done|].
  assert (len (match first b None with Some _ => l1 | None => mk_list (head l1) (final None a) (len l1) end) = len l) as ->.
  { subst l1. by destruct (first b None), (final None a). }
  assert (uwrap 64 (len l - 1) = len l - 1) as -> by (apply uwrap_small; rewrite !length_app in *; cbn [length] in *; lia). split; [|split].
  - split_and!; cbn [head tail len].
    + apply seg_app. split; apply seg_delete; try done. apply (seg_touches _ _ _ _ _ _ Ht2); [|done].
      intros q Hq. pose proof (Hd1 q Hq) as Hx. cbn in Hx. set_solver.
    + rewrite fmap_app. apply NoDup_app. split; [done|]. split; [|done]. intros q Hq. pose proof (Hd1 q Hq) as Hx. cbn in Hx. set_solver.
    + assert (head (match first b None with Some _ => l1 | None => mk_list (head l1) (final None a) (len l1) end) = head l1) as ->
        by (by destruct (first b None)).
      subst l1. destruct (final None a) eqn:Ea; cbn [head].
      * rewrite Hh, !first_app. by destruct a as [|[? ?] ?].
      * by apply final_None_nil in Ea as ->.
    + subst l1. destruct b as [|[q u] b]; cbn [first].
      * cbn [tail]. by rewrite app_nil_r.
      * assert (tail (match final None a with Some _ => l | None => mk_list (Some q) (tail l) (len l) end) = tail l) as -> by (by destruct (final None a)).
        rewrite Ht, !final_app. by rewrite !final_cons.
    + rewrite !length_app in *. cbn [length] in *. lia.
    + rewrite !length_app in *. cbn [length] in *. lia.
  - intros q Hq Hqs. rewrite fmap_app, fmap_cons, not_elem_of_app, not_elem_of_cons in Hq. destruct Hq as (Hqa & Hqp & Hqb).
    rewrite lookup_delete_ne by done. by rewrite (proj1 Ht2), (proj1 Ht1).
  - apply lookup_delete_eq.
Qed.

Lemma rotate_spec h l ns : dll h l ns ->
  exists h' l', listRotate h l = Some (h', l') /\
    dll h' l' (match list.last ns with Some x => x :: removelast ns | None => [] end) /\ frame ns.*1 h h'.
Proof.
  intros Hd. unfold listRotate. pose proof Hd as (Hs & Hnd & Hh & Ht & Hl & Hb).
  destruct (len l <=? 1) eqn:E; zbool.
  { exists h, l. split; [done|]. split; [|done]. destruct ns as [|x [|y ns]]; [done | done | cbn [length] in *; lia]. }
  destruct ns as [|[p v] a _] using rev_ind; [cbn in *; lia|]. rewrite last_snoc, removelast_last.
  destruct a as [|[q w] a _] using rev_ind; [cbn in *; lia|]. clear Hd.
  apply seg_app in Hs as [Ha Hp]. cbn [seg first] in *. destruct Hp as [Hp _]. rewrite (final_app None a q w []) in Hp.
  rewrite Ht, (final_app None _ p v []). unfold final at 1. cbn [list.last mbind option_bind]. rewrite Hp. cbn [mbind option_bind prev].
  change (final (Some q) []) with (Some q). cbn [mbind option_bind].
  destruct (NoDup_split _ _ Hnd) as (Hna & _ & Hd1 & _).
  assert (p ∉ (a ++ [(q, w)]).*1) as Hpa by (intros Hin; apply (Hd1 p Hin); cbn; set_solver).
  destruct (link_next_spec h (a ++ [(q, w)]) (Some p) None Ha Hna) as (h1 & H1 & Ha1 & Ht1).
  rewrite (final_app None a q w []) in H1. cbn [final list.last link_next] in H1. change (final (Some q) []) with (Some q) in H1. cbn [link_next] in H1.
  rewrite H1. cbn [mbind option_bind].
  destruct (link_prev_spec h1 None (a ++ [(q, w)]) (Some p) Ha1 Hna) as (h2 & H2 & Ha2 & Ht2).
  assert (head l = first (a ++ [(q, w)]) None) as Hh' by (rewrite Hh, !first_app; by destruct a as [|[? ?] ?]).
  assert (exists hd, head l = Some hd) as [hd Hhd] by (rewrite Hh'; destruct a as [|[? ?] ?]; cbn; eauto).
  rewrite <- Hh', Hhd in H2. cbn [link_prev] in H2. rewrite Hhd. cbn [mbind option_bind]. rewrite H2. cbn [mbind option_bind].
  unfold set_prev, set_next. rewrite (proj1 Ht2), (proj1 Ht1), Hp by done. cbn [mbind option_bind next value].
  rewrite lookup_insert_eq. cbn [mbind option_bind prev next value]. rewrite insert_insert_eq.
  eexists _, _. split; [done|]. split.
  - split_and!; cbn [seg first head tail len].
    + split; [rewrite lookup_insert_eq; by rewrite <- Hhd, Hh'|]. by apply seg_insert.
    + cbn. constructor; [done | done].
    + done.
    + by rewrite final_cons, (final_app (Some p) a q w []).
    + rewrite Hl, !length_app. cbn [length]. rewrite length_app. cbn [length]. lia.
    + rewrite !length_app in Hb. cbn [length] in *. rewrite length_app. cbn [length]. lia.
  - intros r Hr _. rewrite fmap_app, not_elem_of_app in Hr. destruct Hr as [Hr Hrp].
    rewrite lookup_insert_ne by (intros ->; apply Hrp; cbn; set_solver). by rewrite (proj1 Ht2), (proj1 Ht1).
Qed.

(** ** Walks *)

Lemma walk_fwd h ns : forall i prv, seg h prv ns None -> listIndex_walk i true h (first ns None) = Some (fst <$> ns !! i).
Proof.
  induction ns as [|[p v] ns IH]; intros i prv Hs; [by destruct i|]. destruct i as [|i]; [done|].
  cbn [seg first listIndex_walk] in *. destruct Hs as [-> Hs]. cbn [mbind option_bind next]. by apply (IH i (Some p)).
Qed.

Lemma walk_bwd h ns : forall i nxt, seg h None ns nxt -> listIndex_walk i false h (final None ns) = Some (fst <$> reverse ns !! i).
Proof.
  induction ns as [|[p v] ns IH] using rev_ind; intros i nxt Hs; [by destruct i|].
  rewrite reverse_snoc, (final_app None ns p v []). change (final (Some p) []) with (Some p).
  destruct i as [|i]; [done|]. apply seg_app in Hs as [Ha Hp]. cbn [seg first listIndex_walk] in *. destruct Hp as [-> _].
  cbn [mbind option_bind prev lookup list_lookup]. by eapply IH.
Qed.

Lemma al_index_spec h l ns index : dll h l ns -> - 2 ^ 63 < index < 2 ^ 63 ->
  listIndex h l index = Some (fst <$> (list_index (length ns) index ≫= (ns !!.))).
Proof.
  intros (Hs & Hnd & Hh & Ht & Hl & Hb) Hi. unfold listIndex, list_index. destruct (index <? 0) eqn:E; zbool.
  - rewrite Ht, (walk_bwd h ns _ None Hs). do 2 f_equal. destruct (zlen ns <? - index) eqn:E2; zbool.
    + apply lookup_ge_None. rewrite length_reverse. lia.
    + cbn [mbind option_bind]. rewrite reverse_lookup by lia. f_equal. lia.
  - rewrite Hh, (walk_fwd h ns _ None Hs). do 2 f_equal. destruct (index <? zlen ns) eqn:E2; zbool; [done|].
    apply lookup_ge_None. lia.
Qed.

Lemma next_at h prv p v b : seg h prv ((p, v) :: b) None ->
  listNext h (mk_iter (Some p) true) = Some (Some p, mk_iter (first b None) true).
Proof. intros [Hp _]. unfold listNext. cbn [it_next from_head]. by rewrite Hp. Qed.

(** The first node whose value matches. *)
Definition search (f : V -> bool) (ns : list (ptr * V)) : option ptr :=
  fst <$> list.head (List.filter (fun x => f x.2) ns).

Lemma al_search_loop_spec f h : forall b prv fuel, seg h prv b None -> (length b < fuel)%nat ->
  listSearchKey_loop fuel f h (mk_iter (first b None) true) = Some (search f b).
Proof.
  induction b as [|[p v] b IH]; intros prv fuel Hs Hf; (destruct fuel as [|fuel]; [cbn in Hf; lia|]); [done|].
  cbn [listSearchKey_loop first]. rewrite (next_at h prv p v b Hs). cbn [mbind option_bind].
  destruct Hs as [-> Hs]. cbn [mbind option_bind value]. unfold search. cbn [List.filter snd].
  destruct (f v); [done|]. apply (IH (Some p)); [done | cbn in Hf; lia].
Qed.

Lemma al_search_spec f h l ns : dll h l ns -> listSearchKey f h l = Some (search f ns).
Proof.
  intros (Hs & _ & Hh & _ & Hl & _). unfold listSearchKey, listGetIterator. rewrite Hh, Hl, Nat2Z.id.
  apply (al_search_loop_spec f h ns None); [done | lia].
Qed.

Lemma release_loop_spec ns : forall h prv, seg h prv ns None -> NoDup ns.*1 ->
  exists h', listRelease_loop (length ns) h (first ns None) = Some h' /\
    (forall q, q ∈ ns.*1 -> h' !! q = None) /\ (forall q, q ∉ ns.*1 -> h' !! q = h !! q).
Proof.
  induction ns as [|[p v] ns IH]; intros h prv Hs Hnd; cbn [length listRelease_loop first].
  - exists h. split; [done|]. split; [by intros q ?%elem_of_nil | done].
  - cbn [seg] in Hs. destruct Hs as [Hp Hs]. cbn in Hnd. apply NoDup_cons in Hnd as [Hnp Hnd]. cbn [mbind option_bind].
    rewrite Hp. cbn [mbind option_bind next].
    destruct (IH (base.delete p h) (Some p)) as (h' & -> & Hin & Hout); [by apply seg_delete | done |].
    exists h'. split; [done|]. split; intros q Hq.
    + cbn in Hq. apply elem_of_cons in Hq as [->|Hq]; [|by apply Hin]. rewrite Hout by done. apply lookup_delete_eq.
    + cbn in Hq. apply not_elem_of_cons in Hq as [Hqp Hq]. rewrite Hout by done. by apply lookup_delete_ne.
Qed.

(** ** Copying *)

(** The values the copy gets: [None] when [dup] fails on one of them. *)
Definition dup_values (dup : option (V -> option V)) (vs : list V) : option (list V) :=
  mapM (fun v => match dup with Some dup => dup v | None => Some v end) vs.

Lemma dup_loop_spec dup (h0 : heap) (orig : list ptr) : forall b prv fuel h copy cs,
  seg h prv b None -> (length b < fuel)%nat -> dll h copy cs -> (forall q, q ∈ b.*1 -> q ∉ cs.*1) ->
  zlen cs + zlen b < 2 ^ 63 -> (forall q, q ∈ orig -> q ∉ cs.*1 /\ h !! q = h0 !! q /\ is_Some (h !! q)) ->
  exists h' r, listDup_loop fuel dup h (mk_iter (first b None) true) copy = Some (h', r) /\
    (forall q, q ∈ orig -> h' !! q = h0 !! q) /\
    match r with
    | Some copy' => exists cs', dll h' copy' cs' /\ (forall q, q ∈ orig -> q ∉ cs'.*1) /\
        exists vs, dup_values dup b.*2 = Some vs /\ cs'.*2 = cs.*2 ++ vs
    | None => dup_values dup b.*2 = None
    end.
Proof.
  induction b as [|[p v] b IH]; intros prv fuel h copy cs Hs Hf Hd Hdis Hb Ho; (destruct fuel as [|fuel]; [cbn in Hf; lia|]).
  - cbn [listDup_loop first]. cbn. exists h, (Some copy). split; [done|]. split; [intros q Hq; by apply Ho|].
    exists cs. split; [done|]. split; [intros q Hq; by apply Ho|]. exists []. by rewrite app_nil_r.
  - cbn [listDup_loop first]. rewrite (next_at h prv p v b Hs). cbn [mbind option_bind].
    cbn [seg] in Hs. destruct Hs as [Hp Hs]. rewrite Hp. cbn [mbind option_bind value length] in *.
    unfold dup_values in *. cbn [fmap list_fmap snd mapM].
    destruct (match dup with Some dup => dup v | None => Some v end) as [v'|]; cbn [mbind option_bind].
    2:{ exists h, None. split; [done|]. split; [intros q Hq; by apply Ho | done]. }
    destruct (addTail_spec h copy cs v' Hd ltac:(lia)) as (h1 & copy1 & -> & Hd1 & Hfr). cbn [mbind option_bind].
    assert (forall q, q ∈ b.*1 -> q ∉ cs.*1 /\ is_Some (h !! q)) as Hq.
    { intros q Hq. split; [apply Hdis; cbn; set_solver | by eapply seg_dom]. }
    assert (forall q, is_Some (h !! q) -> q <> alloc h) as Hna by (intros q [x Hx] ->; by rewrite alloc_fresh in Hx).
    destruct (IH (Some p) fuel h1 copy1 (cs ++ [(alloc h, v')])) as (h' & r & Hloop & Horig & Hr); [ | lia | done | | | |].
    + apply (seg_frame h); [|done]. intros q Hin. destruct (Hq q Hin). by apply Hfr.
    + intros q Hin. destruct (Hq q Hin) as [Hnc Hsome]. rewrite fmap_app. pose proof (Hna q Hsome). cbn. set_solver.
    + rewrite length_app. cbn [length]. lia.
    + intros q Hin. destruct (Ho q Hin) as (Hnc & Heq & Hsome). pose proof (Hna q Hsome). rewrite fmap_app. cbn.
      rewrite (Hfr q Hnc Hsome). split; [set_solver | done].
    + exists h', r. split; [done|]. split; [done|]. destruct r as [copy'|].
      * destruct Hr as (cs' & Hd' & Hdis' & vs & Hvs & Hcs). exists cs'. split; [done|]. split; [done|].
        rewrite Hvs. cbn. exists (v' :: vs). split; [done|]. rewrite Hcs, fmap_app, <- app_assoc. done.
      * by rewrite Hr.
Qed.

(** ** Removing nodes while iterating *)

(** A loop that deletes the nodes whose value satisfies [f] as it meets them. *)
Fixpoint purge (fuel : nat) (f : V -> bool) (h : heap) (l : alist) (iter : listIter) : option (heap * alist) :=
  match fuel with
  | O => None
  | S fuel =>
      '(node, iter) ← listNext h iter;
      match node with
      | None => Some (h, l)
      | Some node =>
          n ← h !! node;
          '(h, l) ← (if f (value n) then listDelNode h l node else Some (h, l));
          purge fuel f h l iter
      end
  end.

Lemma purge_spec f b : forall fuel h l a, dll h l (a ++ b) -> (length b < fuel)%nat ->
  exists h' l', purge fuel f h l (mk_iter (first b None) true) = Some (h', l') /\
    dll h' l' (a ++ List.filter (fun x => negb (f x.2)) b).
Proof.
  induction b as [|[p v] b IH]; intros fuel h l a Hd Hf; (destruct fuel as [|fuel]; [cbn in Hf; lia|]).
  - exists h, l. split; [done|]. done.
  - cbn [purge first]. pose proof Hd as (Hs & _). apply seg_app in Hs as [_ Hs]. rewrite (next_at h _ p v b Hs).
    cbn [mbind option_bind]. cbn [seg] in Hs. destruct Hs as [Hp _]. rewrite Hp. cbn [mbind option_bind value List.filter snd] in *.
    cbn [length] in Hf. destruct (f v); cbn [negb].
    + destruct (delNode_spec h l a p v b Hd) as (h1 & l1 & -> & Hd1 & _). cbn [mbind option_bind]. apply IH; [done | lia].
    + cbn [mbind option_bind]. assert (a ++ (p, v) :: b = (a ++ [(p, v)]) ++ b) as Heq by (by rewrite <- app_assoc).
      rewrite Heq in Hd. destruct (IH fuel h l (a ++ [(p, v)]) Hd ltac:(lia)) as (h' & l' & -> & Hd').
      exists h', l'. split; [done|]. by rewrite <- app_assoc in Hd'.
Qed.

End Adlist.



#[global] Arguments listNode : clear implicits.

(** ** Runs *)

Section Run.
Context {V : Type} `{EqDecision V}.
#[local] Abbreviation heap := (gmap ptr (listNode V)).

(** Operations at the node [listIndex] gives (nothing when it gives [NULL]). *)
Inductive lop :=
| LHead (v : V) | LTail (v : V) | LInsert (index : Z) (v : V) (after : bool) | LDel (index : Z)
| LRotate | LGet (index : Z) | LFind (v : V) | LLen.

Inductive lres := RUnit | RVal (v : option V) | RBool (b : bool) | RNum (n : Z).

Definition lstep (h : heap) (l : alist) (o : lop) : option (heap * alist * lres) :=
  match o with
  | LHead v => '(h, l) ← listAddNodeHead h l v; Some (h, l, RUnit)
  | LTail v => '(h, l) ← listAddNodeTail h l v; Some (h, l, RUnit)
  | LInsert index v after =>
      p ← listIndex h l index;
      match p with
      | None => Some (h, l, RUnit)
      | Some p => '(h, l) ← listInsertNode h l p v after; Some (h, l, RUnit)
      end
  | LDel index =>
      p ← listIndex h l index;
      match p with None => Some (h, l, RUnit) | Some p => '(h, l) ← listDelNode h l p; Some (h, l, RUnit) end
  | LRotate => '(h, l) ← listRotate h l; Some (h, l, RUnit)
  | LGet index =>
      p ← listIndex h l index;
      match p with None => Some (h, l, RVal None) | Some p => n ← h !! p; Some (h, l, RVal (Some (value n))) end
  | LFind v => p ← listSearchKey (fun w => bool_decide (w = v)) h l; Some (h, l, RBool (bool_decide (is_Some p)))
  | LLen => Some (h, l, RNum (len l))
  end.

(** The same operations on a plain list. *)
Definition vstep (vs : list V) (o : lop) : list V * lres :=
  match o with
  | LHead v => (v :: vs, RUnit)
  | LTail v => (vs ++ [v], RUnit)
  | LInsert index v after =>
      match list_index (length vs) index with
      | None => (vs, RUnit)
      | Some i => let i := if after then S i else i in (take i vs ++ v :: drop i vs, RUnit)
      end
  | LDel index => match list_index (length vs) index with None => (vs, RUnit) | Some i => (delete i vs, RUnit) end
  | LRotate => (match list.last vs with Some v => v :: removelast vs | None => [] end, RUnit)
  | LGet index => (vs, RVal (list_index (length vs) index ≫= (vs !!.)))
  | LFind v => (vs, RBool (bool_decide (v ∈ vs)))
  | LLen => (vs, RNum (zlen vs))
  end.

Fixpoint lrun (h : heap) (l : alist) (os : list lop) : option (heap * alist * list lres) :=
  match os with
  | [] => Some (h, l, [])
  | o :: os => '(h, l, r) ← lstep h l o; '(h, l, rs) ← lrun h l os; Some (h, l, r :: rs)
  end.

Fixpoint vrun (vs : list V) (os : list lop) : list V * list lres :=
  match os with
  | [] => (vs, [])
  | o :: os => let '(vs, r) := vstep vs o in let '(vs, rs) := vrun vs os in (vs, r :: rs)
  end.

(** An index is a [long]. *)
Definition op_ok (o : lop) : Prop :=
  match o with LInsert i _ _ | LDel i | LGet i => - 2 ^ 63 < i < 2 ^ 63 | _ => True end.

Lemma index_cases h l (ns : list (ptr * V)) index : dll h l ns -> - 2 ^ 63 < index < 2 ^ 63 ->
  match list_index (length ns) index with
  | None => listIndex h l index = Some None
  | Some i => exists a p v b, ns = a ++ (p, v) :: b /\ length a = i /\ listIndex h l index = Some (Some p) /\ h !! p <> None
  end.
Proof.
  intros Hd Hi. rewrite (al_index_spec h l ns index Hd Hi). destruct (list_index (length ns) index) as [i|] eqn:Ei; [|done].
  apply list_index_lt in Ei. destruct (lookup_lt_is_Some_2 ns i Ei) as [[p v] Hp]. cbn [mbind option_bind]. rewrite Hp.
  exists (take i ns), p, v, (drop (S i) ns). rewrite take_drop_middle by done. split_and!; [done | rewrite length_take; lia | done |].
  destruct Hd as (Hs & _). rewrite <- (take_drop_middle ns i (p, v) Hp) in Hs. by rewrite (seg_at _ _ _ _ _ _ _ Hs).
Qed.

Lemma lstep_vstep h l ns o : dll h l ns -> op_ok o -> zlen ns + 1 < 2 ^ 63 ->
  exists h' l' ns', lstep h l o = Some (h', l', (vstep ns.*2 o).2) /\ dll h' l' ns' /\ ns'.*2 = (vstep ns.*2 o).1 /\
    zlen ns' <= zlen ns + 1.
Proof.
  intros Hd Ho Hb. destruct o as [v|v|index v after|index| |index|v|]; cbn [lstep vstep fst snd op_ok] in *.
  - destruct (addHead_spec h l ns v Hd Hb) as (h' & l' & -> & Hd' & _). eexists _, _, _. split; [done|]. split; [done|]. split; [done|]. cbn; lia.
  - destruct (addTail_spec h l ns v Hd Hb) as (h' & l' & -> & Hd' & _). eexists _, _, _. split; [done|]. split; [done|].
    rewrite fmap_app, length_app. split; [done|]. cbn; lia.
  - pose proof (index_cases h l ns index Hd Ho) as Hi. rewrite length_fmap. destruct (list_index (length ns) index) as [i|].
    + destruct Hi as (a & p & w & b & -> & <- & -> & _). cbn [mbind option_bind].
      destruct (insertNode_spec h l a p w b v after Hd Hb) as (h' & l' & -> & Hd' & _). cbn [mbind option_bind].
      eexists _, _, _. split; [done|]. split; [exact Hd'|]. destruct after; rewrite !fmap_app, !fmap_cons, !length_app; cbn [fst snd length].
      * split; [|lia]. replace (S (length a)) with (length (a.*2 ++ [w])) by (rewrite length_app, length_fmap; cbn; lia).
        assert (a.*2 ++ w :: b.*2 = (a.*2 ++ [w]) ++ b.*2) as -> by (by rewrite <- app_assoc). rewrite take_app_length, drop_app_length. by rewrite <- app_assoc.
      * split; [|lia]. rewrite <- (length_fmap snd a). by rewrite take_app_length, drop_app_length.
    + rewrite Hi. cbn. exists h, l, ns. split_and!; try done. lia.
  - pose proof (index_cases h l ns index Hd Ho) as Hi. rewrite length_fmap. destruct (list_index (length ns) index) as [i|].
    + destruct Hi as (a & p & w & b & -> & <- & -> & _). cbn [mbind option_bind].
      destruct (delNode_spec h l a p w b Hd) as (h' & l' & -> & Hd' & _). cbn [mbind option_bind].
      eexists _, _, _. split; [done|]. split; [exact Hd'|]. rewrite !fmap_app, !fmap_cons, !length_app. cbn [length snd]. split; [|lia].
      rewrite delete_take_drop. rewrite <- (length_fmap snd a). rewrite take_app_length.
      replace (S (length a.*2)) with (length a.*2 + 1)%nat by lia. by rewrite drop_app_add.
    + rewrite Hi. cbn. exists h, l, ns. split_and!; try done. lia.
  - destruct (rotate_spec h l ns Hd) as (h' & l' & -> & Hd' & _). cbn [mbind option_bind]. eexists _, _, _. split; [done|]. split; [done|].
    destruct ns as [|[p v] ns _] using rev_ind; [cbn; split; [done | lia]|]. rewrite fmap_app. cbn [fmap list_fmap].
    rewrite !last_snoc, !removelast_last. rewrite length_app. cbn [length fmap list_fmap fst snd]. split; [done | lia].
  - pose proof (index_cases h l ns index Hd Ho) as Hi. rewrite length_fmap. destruct (list_index (length ns) index) as [i|].
    + destruct Hi as (a & p & w & b & -> & <- & -> & _). cbn [mbind option_bind].
      pose proof Hd as (Hs & _). rewrite (seg_at _ _ _ _ _ _ _ Hs). cbn [mbind option_bind value]. eexists _, _, _. split; [|split; [exact Hd | split; [done | lia]]].
      do 3 f_equal. rewrite fmap_app, fmap_cons. rewrite <- (length_fmap snd a). by rewrite list_lookup_middle.
    + rewrite Hi. cbn. exists h, l, ns. split_and!; try done. lia.
  - rewrite (al_search_spec _ h l ns Hd). cbn [mbind option_bind]. exists h, l, ns. split; [|split; [done | split; [done | lia]]].
    do 3 f_equal. apply bool_decide_ext. clear. unfold search. induction ns as [|[p w] ns IH]; cbn [List.filter fmap list_fmap snd].
    + split; [by intros [? ?] | by intros ?%elem_of_nil].
    + case_bool_decide as E; [subst; cbn; split; [intros; by left | eauto]|]. rewrite IH. rewrite elem_of_cons. naive_solver.
  - exists h, l, ns. pose proof Hd as (_ & _ & _ & _ & -> & _). rewrite length_fmap. split_and!; try done. lia.
Qed.

Lemma lrun_vrun os : forall h l ns, dll h l ns -> Forall op_ok os -> zlen ns + zlen os < 2 ^ 63 ->
  exists h' l' ns', lrun h l os = Some (h', l', (vrun ns.*2 os).2) /\ dll h' l' ns' /\ ns'.*2 = (vrun ns.*2 os).1.
Proof.
  induction os as [|o os IH]; intros h l ns Hd Hok Hb; cbn [lrun vrun]; [by exists h, l, ns|].
  apply Forall_cons_1 in Hok as [Ho Hos]. cbn [length] in Hb.
  destruct (lstep_vstep h l ns o Hd Ho ltac:(lia)) as (h1 & l1 & ns1 & -> & Hd1 & Hv1 & Hl1). cbn [mbind option_bind].
  destruct (IH h1 l1 ns1 Hd1 Hos ltac:(lia)) as (h2 & l2 & ns2 & -> & Hd2 & Hv2). cbn [mbind option_bind].
  rewrite Hv1 in *. destruct (vstep ns.*2 o) as [vs r]. cbn [fst snd] in *. destruct (vrun vs os) as [vs' rs]. by exists h2, l2, ns2.
Qed.
End Run.

(** C31: from an empty list in any heap, a sequence of insertions at the ends or next
    to a node found by index, deletions of nodes found by index, rotations, reads,
    searches and length queries follows only valid pointers and returns what it
    returns on a plain list, with both directions of the links, the ends and the
    length consistent afterwards. *)
Theorem adlist_refines_list {V : Type} `{EqDecision V} (h : gmap ptr (listNode V)) (os : list (@lop V)) :
  Forall op_ok os -> zlen os < 2 ^ 63 ->
  exists h' l ns, lrun h listCreate os = Some (h', l, (vrun [] os).2) /\ dll h' l ns /\ ns.*2 = (vrun [] os).1.
Proof. intros Hok Hb. apply (lrun_vrun os h listCreate []); [apply create_spec | done | cbn; lia]. Qed.

Definition demo_ops : list (@lop Z) :=
  [LHead 2; LTail 3; LInsert (-1) 9 true; LInsert 0 1 false; LRotate; LFind 3; LDel 1; LGet (-1); LLen].

Lemma adlist_refines_list_witness :
  exists h' l ns, lrun ∅ listCreate demo_ops = Some (h', l, (vrun [] demo_ops).2) /\ dll h' l ns /\ ns.*2 = (vrun [] demo_ops).1.
Proof.
  apply (adlist_refines_list ∅ demo_ops); [|vm_compute; congruence].
  unfold demo_ops. repeat (apply Forall_cons_2; [cbn; lia|]). apply Forall_nil_2.
Defined.

(** [listDup] returns a list of new nodes holding the duplicated values, or
    [NULL] exactly when duplicating a value fails; the original nodes are not
    touched, and releasing the original then frees all of its nodes and leaves the
    copy a well-formed list. *)
Theorem listDup_correct {V : Type} dup (h : gmap ptr (listNode V)) l ns : dll h l ns ->
  exists h' r, listDup dup h l = Some (h', r) /\ dll h' l ns /\
    match r with
    | None => dup_values dup ns.*2 = None
    | Some copy => exists cs, dll h' copy cs /\ dup_values dup ns.*2 = Some cs.*2 /\
        exists h2, listRelease h' l = Some h2 /\ dll h2 copy cs /\ (forall q, q ∈ ns.*1 -> h2 !! q = None)
    end.
Proof.
  intros Hd. pose proof Hd as (Hs & Hnd & Hh & Ht & Hl & Hb). unfold listDup, listGetIterator. rewrite Hh, Hl, Nat2Z.id.
  destruct (dup_loop_spec dup h ns.*1 ns None (S (length ns)) h listCreate []) as (h' & r & -> & Horig & Hr);
    [done | lia | apply create_spec | by intros q _ ?%elem_of_nil | cbn; lia | |].
  { intros q Hq. split; [by intros ?%elem_of_nil|]. split; [done | by eapply seg_dom]. }
  assert (seg h' None ns None) as Hs' by (by apply (seg_frame h)).
  exists h', r. split; [done|]. split; [split_and!; done|]. destruct r as [copy|]; [|done].
  destruct Hr as (cs & Hdc & Hdis & vs & Hvs & Hcs). exists cs. split; [done|]. split; [by rewrite Hcs|].
  destruct (release_loop_spec ns h' None Hs' Hnd) as (h2 & Hrel & Hin & Hout).
  exists h2. unfold listRelease. rewrite Hl, Nat2Z.id, Hh. split; [done|]. split; [|done].
  destruct Hdc as (Hsc & Hrest). split; [|done]. apply (seg_frame h'); [|done]. intros q Hq. apply Hout. intros Hqn. by apply (Hdis q).
Qed.

(** The nodes 1, 2, 3 holding 10, 20, 30. *)
Definition demo_heap : gmap ptr (listNode Z) :=
  <[1%positive := mk_node None (Some 2%positive) 10]>
  (<[2%positive := mk_node (Some 1%positive) (Some 3%positive) 20]>
  (<[3%positive := mk_node (Some 2%positive) None 30]> ∅)).
Definition demo_nodes : list (ptr * Z) := [(1%positive, 10); (2%positive, 20); (3%positive, 30)].
Definition demo_list : alist := mk_list (Some 1%positive) (Some 3%positive) 3.

Lemma demo_dll : dll demo_heap demo_list demo_nodes.
Proof.
  unfold dll. split; [vm_compute; by repeat split|]. split; [|by repeat split].
  apply (bool_decide_eq_true_1 (NoDup demo_nodes.*1)). by vm_compute.
Qed.

Lemma listDup_correct_witness :
  exists h' r, listDup (Some (fun v => Some (v + 1))) demo_heap demo_list = Some (h', r) /\ dll h' demo_list demo_nodes /\
    match r with
    | None => dup_values (Some (fun v => Some (v + 1))) demo_nodes.*2 = None
    | Some copy => exists cs, dll h' copy cs /\ dup_values (Some (fun v => Some (v + 1))) demo_nodes.*2 = Some cs.*2 /\
        exists h2, listRelease h' demo_list = Some h2 /\ dll h2 copy cs /\ (forall q, q ∈ demo_nodes.*1 -> h2 !! q = None)
    end.
Proof. exact (listDup_correct (Some (fun v => Some (v + 1))) demo_heap demo_list demo_nodes demo_dll). Defined.

(** It is valid to delete the node [listNext] has just returned: a loop that
    deletes every node whose value satisfies a predicate as it meets it follows only
    live pointers, meets every node, and leaves the list of the others. *)
Theorem iterate_and_delete {V : Type} (f : V -> bool) (h : gmap ptr (listNode V)) l ns : dll h l ns ->
  exists h' l', purge (S (Z.to_nat (len l))) f h l (listRewind l) = Some (h', l') /\
    dll h' l' (List.filter (fun x => negb (f x.2)) ns).
Proof.
  intros Hd. pose proof Hd as (_ & _ & Hh & _ & Hl & _). unfold listRewind. rewrite Hh, Hl, Nat2Z.id.
  apply (purge_spec f ns _ h l []); [done | lia].
Qed.

Lemma iterate_and_delete_witness :
  exists h' l', purge (S (Z.to_nat (len demo_list))) (fun v => v =? 20) demo_heap demo_list (listRewind demo_list) = Some (h', l') /\
    dll h' l' (List.filter (fun x => negb (x.2 =? 20)) demo_nodes).
Proof. exact (iterate_and_delete (fun v => v =? 20) demo_heap demo_list demo_nodes demo_dll). Defined.
