(* ===== verification/Object.v ===== *)
(** * String objects (object.c)

    Redis objects live in a heap with their reference counts; a string object
    holds an sds string of its own ([RAW]), one in the same allocation
    ([EMBSTR]) or a [long] ([INT]).  The shared small integers are objects of the
    heap that [shared_integers] points to.  [sds_len] bounds what an sds string can
    hold.  The objects of other types are opaque here: freeing one is an argument. *)
From Stdlib Require Import Lia ZArith.
From stdpp Require Import base numbers list tactics option gmap fin_maps fin_sets strings.
From S2P Require Import Prelude Util Adlist.

#[local] Open Scope Z_scope.

Definition REDIS_SHARED_INTEGERS : Z := 10000.
Definition REDIS_ENCODING_EMBSTR_SIZE_LIMIT : Z := 39.

Inductive otype := REDIS_STRING | REDIS_LIST | REDIS_SET | REDIS_ZSET | REDIS_HASH.
Inductive oencoding := RAW | EMBSTR | INT | OtherEncoding.
(** What [ptr] holds: an sds string and its free space, a [long], or something else. *)
Inductive payload := Sds (s : list Z) (avail : Z) | Long (v : Z) | Opaque.

Record robj := mk_robj { type : otype; encoding : oencoding; optr : payload; refcount : Z }.
#[local] Abbreviation oheap := (gmap ptr robj).

#[global] Instance otype_eq : EqDecision otype.
Proof. solve_decision. Defined.
#[global] Instance oencoding_eq : EqDecision oencoding.
Proof. solve_decision. Defined.

Definition sdsEncodedObject (o : robj) : bool := match encoding o with RAW | EMBSTR => true | _ => false end.

Definition maxmemory_lru (policy : Z) : bool := (policy =? 0) || (policy =? 3).

(** The settings of the server that object.c reads. *)
Record oserver := mk_oserver { maxmemory : Z; maxmemory_policy : Z }.

Section Object.
Context (shared_integers : Z -> ptr) (server : oserver) (free_opaque : ptr -> robj -> oheap -> option oheap).

Definition oalloc (h : oheap) (o : robj) : oheap * ptr :=
  let p := fresh (dom h : gset ptr) in (<[p := o]> h, p).

(** ** Creation *)

Definition createObject (h : oheap) (t : otype) (p : payload) : oheap * ptr := oalloc h (mk_robj t RAW p 1).
Definition createRawStringObject (h : oheap) (s : list Z) : oheap * ptr := createObject h REDIS_STRING (Sds s 0).
Definition createEmbeddedStringObject (h : oheap) (s : list Z) : oheap * ptr := oalloc h (mk_robj REDIS_STRING EMBSTR (Sds s 0) 1).
Definition createStringObject (h : oheap) (s : list Z) : oheap * ptr :=
  if zlen s <=? REDIS_ENCODING_EMBSTR_SIZE_LIMIT then createEmbeddedStringObject h s else createRawStringObject h s.

(** ** Reference counts *)

Definition incrRefCount (h : oheap) (p : ptr) : option oheap :=
  o ← h !! p; Some (<[p := mk_robj (type o) (encoding o) (optr o) (refcount o + 1)]> h).

(** A [redisPanic] has no value. *)
Definition decrRefCount (h : oheap) (p : ptr) : option oheap :=
  o ← h !! p;
  if refcount o <=? 0 then None
  else if refcount o =? 1 then
    h ← (match type o with REDIS_STRING => Some h | _ => free_opaque p o h end);
    Some (base.delete p h)
  else Some (<[p := mk_robj (type o) (encoding o) (optr o) (refcount o - 1)]> h).


(** With [long] as wide as [long long] no integer needs an sds string. *)
Definition createStringObjectFromLongLong (h : oheap) (value : Z) : option (oheap * ptr) :=
  if (0 <=? value) && (value <? REDIS_SHARED_INTEGERS) then
    h ← incrRefCount h (shared_integers value); Some (h, shared_integers value)
  else Some (oalloc h (mk_robj REDIS_STRING INT (Long value) 1)).

Definition dupStringObject (h : oheap) (p : ptr) : option (oheap * ptr) :=
  o ← h !! p;
  if decide (type o = REDIS_STRING) then
    match encoding o, optr o with
    | RAW, Sds s _ => Some (createRawStringObject h s)
    | EMBSTR, Sds s _ => Some (createEmbeddedStringObject h s)
    | INT, q => Some (oalloc h (mk_robj REDIS_STRING INT q 1))
    | _, _ => None
    end
  else None.

(** ** Encoding *)

Definition isObjectRepresentableAsLongLong (h : oheap) (p : ptr) : option (option Z) :=
  o ← h !! p;
  if decide (type o = REDIS_STRING) then
    match encoding o, optr o with
    | INT, Long v => Some (Some v)
    | INT, _ => None
    | _, Sds s _ => Some (Dec.string2ll s)
    | _, _ => None
    end
  else None.

Definition shares_integers : bool := (maxmemory server =? 0) || negb (maxmemory_lru (maxmemory_policy server)).

Definition tryObjectEncoding (h : oheap) (p : ptr) : option (oheap * ptr) :=
  o ← h !! p;
  if decide (type o = REDIS_STRING) then
    if negb (sdsEncodedObject o) then Some (h, p)
    else if refcount o >? 1 then Some (h, p)
    else match optr o with
    | Sds s avail =>
        match (if zlen s <=? 21 then Dec.string2l 64 s else None) with
        | Some value =>
            if shares_integers && (0 <=? value) && (value <? REDIS_SHARED_INTEGERS) then
              h ← decrRefCount h p;
              h ← incrRefCount h (shared_integers value);
              Some (h, shared_integers value)
            else Some (<[p := mk_robj (type o) INT (Long value) (refcount o)]> h, p)
        | None =>
            if zlen s <=? REDIS_ENCODING_EMBSTR_SIZE_LIMIT then
              if decide (encoding o = EMBSTR) then Some (h, p) else
              let '(h, emb) := createEmbeddedStringObject h s in
              h ← decrRefCount h p; Some (h, emb)
            else if bool_decide (encoding o = RAW) && (avail >? zlen s / 10) then
              Some (<[p := mk_robj (type o) (encoding o) (Sds s 0) (refcount o)]> h, p)
            else Some (h, p)
        end
    | _ => None
    end
  else None.

(** [ll2string] of a [long] into a buffer of [n] bytes whose contents are [buf]. *)
Definition long_text (buf : list Z) (v : Z) : option (list Z) :=
  '(dst, n) ← Dec.ll2string buf (zlen buf) v; Some (take (Z.to_nat n) dst).

Context (buf32 : list Z) (buf128 : list Z).

Definition getDecodedObject (h : oheap) (p : ptr) : option (oheap * ptr) :=
  o ← h !! p;
  if sdsEncodedObject o then h ← incrRefCount h p; Some (h, p)
  else if decide (type o = REDIS_STRING /\ encoding o = INT) then
    match optr o with
    | Long v => s ← long_text buf32 v; Some (createStringObject h s)
    | _ => None
    end
  else None.

(** ** Comparison *)

(** The text of a string object, on the stack for an integer. *)
Definition object_text (buf : list Z) (o : robj) : option (list Z) :=
  match optr o with
  | Sds s _ => if sdsEncodedObject o then Some s else None
  | Long v => if sdsEncodedObject o then None else long_text buf v
  | Opaque => None
  end.

Definition REDIS_COMPARE_BINARY : Z := 1.
Definition REDIS_COMPARE_COLL : Z := 2.

Fixpoint memcmp (a b : list Z) : Z :=
  match a, b with
  | x :: a, y :: b => if x =? y then memcmp a b else x - y
  | _, _ => 0
  end.

(** [memcmp] over the shorter length, then the difference of the lengths as an
    [int]. *)
Definition compare_text (astr bstr : list Z) : Z :=
  let minlen := Nat.min (length astr) (length bstr) in
  let cmp := memcmp (take minlen astr) (take minlen bstr) in
  if cmp =? 0 then s32 (zlen astr - zlen bstr) else cmp.

Definition compareStringObjectsWithFlags (strcoll : list Z -> list Z -> Z) (h : oheap) (a b : ptr) (flags : Z) : option Z :=
  oa ← h !! a;
  ob ← h !! b;
  if decide (type oa = REDIS_STRING /\ type ob = REDIS_STRING) then
    if bool_decide (a = b) then Some 0 else
    astr ← object_text buf128 oa;
    bstr ← object_text buf128 ob;
    Some (if negb (Z.land flags REDIS_COMPARE_COLL =? 0) then strcoll astr bstr else compare_text astr bstr)
  else None.

Definition compareStringObjects (strcoll : list Z -> list Z -> Z) (h : oheap) (a b : ptr) : option Z :=
  compareStringObjectsWithFlags strcoll h a b REDIS_COMPARE_BINARY.

Definition equalStringObjects (strcoll : list Z -> list Z -> Z) (h : oheap) (a b : ptr) : option bool :=
  oa ← h !! a;
  ob ← h !! b;
  match encoding oa, optr oa, encoding ob, optr ob with
  | INT, Long x, INT, Long y => Some (x =? y)
  | _, _, _, _ => c ← compareStringObjects strcoll h a b; Some (c =? 0)
  end.

Definition stringObjectLen (h : oheap) (p : ptr) : option Z :=
  o ← h !! p;
  if decide (type o = REDIS_STRING) then s ← object_text buf32 o; Some (zlen s) else None.

End Object.

(** ** Integers in string objects *)

Definition isspace (c : Z) : bool := ((9 <=? c) && (c <=? 13)) || (c =? 32).

(** [strtoll(s,&eptr,10)] of the C library on the bytes before the terminating
    NUL: skip white space, a sign, digits; no digits convert nothing.  The result is
    clamped to [long long], [ERANGE] telling so, and [eptr] is the rest. *)
Fixpoint span_digits (s : list Z) : list Z * list Z :=
  match s with
  | c :: s' => if is_digit c then let '(d, r) := span_digits s' in (c :: d, r) else ([], s)
  | [] => ([], [])
  end.

Fixpoint skip_space (s : list Z) : list Z :=
  match s with c :: s' => if isspace c then skip_space s' else s | [] => [] end.

Definition strtoll (s : list Z) : Z * list Z * bool :=
  let s1 := skip_space s in
  let '(neg, s2) := match s1 with c :: s' => if c =? 45 then (true, s') else if c =? 43 then (false, s') else (false, s1) | [] => (false, s1) end in
  let '(ds, rest) := span_digits s2 in
  match ds with
  | [] => (0, s, false)
  | _ => let v := if neg : bool then - Dec.horner 0 ds else Dec.horner 0 ds in
         if v <? LLONG_MIN then (LLONG_MIN, rest, true)
         else if v >? LLONG_MAX then (LLONG_MAX, rest, true)
         else (v, rest, false)
  end.

(** The bytes a C string function sees: those before the first NUL. *)
Fixpoint c_str (s : list Z) : list Z :=
  match s with c :: s => if c =? 0 then [] else c :: c_str s | [] => [] end.

(** [Some None] is [REDIS_ERR].  A [NULL] object is an absent key. *)
Definition getLongLongFromObject (h : gmap ptr robj) (o : option ptr) : option (option Z) :=
  match o with
  | None => Some (Some 0)
  | Some p =>
      o ← h !! p;
      if decide (type o = REDIS_STRING) then
        match optr o with
        | Sds s _ =>
            if sdsEncodedObject o then
              let '(value, eptr, erange) := strtoll (c_str s) in
              Some (if isspace (match s with c :: _ => c | [] => 0 end) || negb (match eptr with [] => true | _ => false end) || erange
                    then None else Some value)
            else None
        | Long v => if decide (encoding o = INT) then Some (Some v) else None
        | Opaque => None
        end
      else None
  end.

(** The replies the two wrappers send. *)
Inductive int_reply := IntValue (v : Z) | NotAnInteger | OutOfRange | CustomError.

Definition getLongLongFromObjectOrReply (h : gmap ptr robj) (o : option ptr) (msg : bool) : option int_reply :=
  r ← getLongLongFromObject h o;
  Some (match r with Some v => IntValue v | None => if msg then CustomError else NotAnInteger end).

(** [long] has [w] bits. *)
Definition getLongFromObjectOrReply (w : Z) (h : gmap ptr robj) (o : option ptr) (msg : bool) : option int_reply :=
  r ← getLongLongFromObjectOrReply h o msg;
  Some (match r with
        | IntValue value =>
            if (value <? - 2 ^ (w - 1)) || (value >? 2 ^ (w - 1) - 1) then (if msg then CustomError else OutOfRange) else IntValue value
        | e => e
        end).

(** ** Comparison of texts *)

Lemma memcmp_eq a : forall b, length a = length b -> (memcmp a b = 0 <-> a = b).
Proof.
  induction a as [|x a IH]; intros [|y b] Hl; try done. cbn. injection Hl as Hl. destruct (x =? y) eqn:E; zbool.
  - rewrite IH by done. subst. split; [by intros ->|by intros [= ->]].
  - split; [lia|congruence].
Qed.

(** Lexicographic comparison; a proper prefix is smaller. *)
Fixpoint lex (a b : list Z) : Z :=
  match a, b with
  | [], [] => 0
  | [], _ :: _ => -1
  | _ :: _, [] => 1
  | x :: a, y :: b => if x =? y then lex a b else x - y
  end.

Lemma lex_eq a : forall b, lex a b = 0 <-> a = b.
Proof.
  induction a as [|x a IH]; intros [|y b]; cbn; try (split; (done || lia)). destruct (x =? y) eqn:E; zbool.
  - rewrite IH. subst. split; [by intros ->|by intros [= ->]].
  - split; [lia|congruence].
Qed.

Lemma lex_sym a : forall b, lex a b < 0 <-> 0 < lex b a.
Proof. induction a as [|x a IH]; intros [|y b]; cbn; try lia. rewrite (Z.eqb_sym y x). destruct (x =? y) eqn:E; zbool; [apply IH|lia]. Qed.

Lemma lex_trans a : forall b c, lex a b < 0 -> lex b c < 0 -> lex a c < 0.
Proof.
  induction a as [|x a IH]; intros [|y b] [|w c]; cbn; try lia.
  destruct (x =? y) eqn:E1, (y =? w) eqn:E2, (x =? w) eqn:E3; zbool; try lia. apply IH.
Qed.

(** [compare_text] has the sign of the lexicographic comparison. *)
Lemma compare_lex a b : zlen a <= 2 ^ 29 -> zlen b <= 2 ^ 29 ->
  (compare_text a b < 0 <-> lex a b < 0) /\ (compare_text a b = 0 <-> lex a b = 0).
Proof.
  unfold compare_text. intros Ha Hb. rewrite swrap_small by (cbn; lia). revert b Ha Hb.
  induction a as [|x a IH]; intros [|y b] Ha Hb; cbn [length Nat.min take memcmp lex] in *; try (cbn; lia).
  destruct (x =? y) eqn:E; zbool.
  - specialize (IH b ltac:(lia) ltac:(lia)). destruct (memcmp _ _ =? 0); zbool; [lia|done].
  - zfalse (x - y =? 0). lia.
Qed.

Lemma compare_text_eq a b : zlen a <= 2 ^ 29 -> zlen b <= 2 ^ 29 -> (compare_text a b =? 0) = bool_decide (a = b).
Proof.
  intros Ha Hb. apply Bool.eq_true_iff_eq. rewrite Z.eqb_eq, bool_decide_eq_true, (proj2 (compare_lex a b Ha Hb)). apply lex_eq.
Qed.


(** ** String objects and the strings they denote *)

Definition denotes (o : robj) (s : list Z) : Prop :=
  type o = REDIS_STRING /\
  ((sdsEncodedObject o = true /\ exists avail, optr o = Sds s avail) \/
   (encoding o = INT /\ exists v, optr o = Long v /\ in_s64 v /\ s = Dec.dec v)).

Lemma obj_dec_length v : in_s64 v -> 1 <= zlen (Dec.dec v) <= 20.
Proof.
  intros Hv. unfold Dec.dec, in_s64, LLONG_MIN, LLONG_MAX in *.
  assert (forall n, 0 <= n < 10 ^ 19 -> 1 <= zlen (Dec.udec 19 n) <= 19) as Hu.
  { intros n Hn. destruct (Dec.length_udec 19 n) as (H1 & H2 & H3); [lia|]. split; [done|].
    destruct H2 as [->|H2]; [done|]. assert (10 ^ (zlen (Dec.udec 19 n) - 1) < 10 ^ 19) as Hlt by lia.
    apply Z.pow_lt_mono_r_iff in Hlt; lia. }
  destruct (v <? 0) eqn:E; zbool; [cbn [length]; specialize (Hu (- v)); lia|specialize (Hu v); lia].
Qed.

Lemma string2l_64 s : Dec.string2l 64 s = Dec.string2ll s.
Proof.
  unfold Dec.string2l. destruct (Dec.string2ll s) as [x|] eqn:E; [|done]. cbn [mbind option_bind].
  apply dec_string2ll in E as [Hx _]. unfold in_s64, LLONG_MIN, LLONG_MAX in Hx.
  zfalse ((x <? - 2 ^ (64 - 1)) || (x >? 2 ^ (64 - 1) - 1)). by rewrite swrap_small by (cbn; lia).
Qed.

Lemma try_long s : (if zlen s <=? 21 then Dec.string2l 64 s else None) = Dec.string2ll s.
Proof.
  rewrite string2l_64. destruct (zlen s <=? 21) eqn:E; [done|]. zbool. destruct (Dec.string2ll s) as [v|] eqn:Ev; [|done].
  apply dec_string2ll in Ev as [Hv ->]. pose proof (obj_dec_length v Hv). lia.
Qed.

Lemma long_text_spec buf v : in_s64 v -> 21 <= zlen buf -> long_text buf v = Some (Dec.dec v).
Proof.
  intros Hv Hb. unfold long_text. pose proof (obj_dec_length v Hv). rewrite Dec.ll2string_dec by (done || lia). ztrue (zlen (Dec.dec v) <? zlen buf).
  cbn [mbind option_bind]. rewrite Nat2Z.id. by rewrite take_app_length.
Qed.

Lemma object_text_spec buf o s : denotes o s -> 21 <= zlen buf -> object_text buf o = Some s.
Proof.
  intros [_ [[He [av Hp]]|[He (v & Hp & Hv & ->)]]] Hb; unfold object_text; rewrite Hp.
  - by rewrite He.
  - unfold sdsEncodedObject. rewrite He. by apply long_text_spec.
Qed.

Section Theorems.
Context (shared_integers : Z -> ptr) (server : oserver) (free_opaque : ptr -> robj -> gmap ptr robj -> option (gmap ptr robj)).
#[local] Abbreviation oheap := (gmap ptr robj).
Implicit Types (h : oheap) (p q : ptr).

(** The shared integers are there, referenced at least once. *)
Definition shared_ok h : Prop := (forall v w, 0 <= v < REDIS_SHARED_INTEGERS -> 0 <= w < REDIS_SHARED_INTEGERS -> shared_integers v = shared_integers w -> v = w) /\
  forall v, 0 <= v < REDIS_SHARED_INTEGERS -> exists rc, 0 < rc /\ h !! shared_integers v = Some (mk_robj REDIS_STRING INT (Long v) rc).

Definition is_shared p : Prop := exists v, 0 <= v < REDIS_SHARED_INTEGERS /\ p = shared_integers v.

Lemma shared_ok_frame h h' : shared_ok h -> (forall p, is_shared p -> h' !! p = h !! p) -> shared_ok h'.
Proof.
  intros [Hinj Hs] Hf. split; [done|]. intros v Hv. destruct (Hs v Hv) as (rc & ? & ?). exists rc. split; [done|].
  rewrite Hf; [done|]. by exists v.
Qed.

Lemma incr_spec h p o : h !! p = Some o -> incrRefCount h p = Some (<[p := mk_robj (type o) (encoding o) (optr o) (refcount o + 1)]> h).
Proof. intros Hp. unfold incrRefCount. by rewrite Hp. Qed.

Lemma decr_last h p o : h !! p = Some o -> type o = REDIS_STRING -> refcount o = 1 -> decrRefCount free_opaque h p = Some (base.delete p h).
Proof. intros Hp Ht Hr. unfold decrRefCount. rewrite Hp. cbn [mbind option_bind]. by rewrite Hr, Ht. Qed.

(** What encoding an object that only the caller references does. *)
Lemma encode_owned h p o s : h !! p = Some o -> denotes o s -> refcount o = 1 -> shared_ok h -> ~ is_shared p -> exists h' q o',
  tryObjectEncoding shared_integers server free_opaque h p = Some (h', q) /\ h' !! q = Some o' /\ denotes o' s /\ shared_ok h' /\
  (encoding o' = INT <-> exists v, in_s64 v /\ s = Dec.dec v) /\
  (q <> p -> h' !! p = None) /\ (forall r, r <> p -> r <> q -> h' !! r = h !! r) /\
  (is_shared q -> exists oq, h !! q = Some oq /\ refcount o' = refcount oq + 1) /\ (~ is_shared q -> refcount o' = 1).
Proof.
  intros Hp Hd Hr Hs Hns. pose proof Hd as [Ht Hden]. unfold tryObjectEncoding. rewrite Hp. cbn [mbind option_bind]. rewrite decide_True by done.
  assert (forall q, is_shared q -> q <> p) as Hsp by (intros q Hq ->; done).
  destruct Hden as [[He [av Hav]]|[He (v & Hv & Hin & ->)]].
  2: { unfold sdsEncodedObject. rewrite He. cbn [negb]. exists h, p, o. split; [done|]. split; [done|]. split; [done|]. split; [done|].
       split; [split; [intros _; by exists v|done]|]. split_and!; done. }
  rewrite He. cbn [negb]. zfalse (refcount o >? 1). rewrite Hav, try_long.
  destruct (Dec.string2ll s) as [v|] eqn:Ev.
  - apply dec_string2ll in Ev as [Hin Hs']. destruct (shares_integers server && (0 <=? v) && (v <? REDIS_SHARED_INTEGERS)) eqn:Esh.
    + apply andb_prop in Esh as [[_ H0]%andb_prop H1]. zbool. rewrite (decr_last h p o) by done. cbn [mbind option_bind].
      destruct (proj2 Hs v ltac:(lia)) as (rc & Hrc & Hsv). assert (is_shared (shared_integers v)) as Hish by (by exists v).
      rewrite (incr_spec _ (shared_integers v) (mk_robj REDIS_STRING INT (Long v) rc)) by (rewrite lookup_delete_ne by (by apply not_eq_sym, Hsp); done).
      cbn [mbind option_bind type encoding optr refcount]. eexists _, _, _. split; [done|]. rewrite lookup_insert_eq. split; [done|].
      split; [split; [done|right]; split; [done|by exists v]|]. split; [|split; [|split; [|split; [|split]]]].
      * destruct Hs as [Hinj Hs]. split; [done|]. intros w Hw. destruct (decide (w = v)) as [->|Hne].
        { exists (rc + 1). split; [lia|]. apply lookup_insert_eq. }
        destruct (Hs w Hw) as (rcw & ? & Hw'). exists rcw. split; [done|]. rewrite lookup_insert_ne by (intros Hq; apply Hne, Hinj; [lia|lia|done]).
        rewrite lookup_delete_ne; [done|]. apply not_eq_sym, Hsp. by exists w.
      * split; [intros _; by exists v|done].
      * intros _. rewrite lookup_insert_ne by (by apply Hsp). apply lookup_delete_eq.
      * intros r Hrp Hrq. by rewrite lookup_insert_ne, lookup_delete_ne.
      * intros _. eexists. split; [exact Hsv|]. done.
      * done.
    + eexists _, p, _. split; [done|]. rewrite lookup_insert_eq. split; [done|].
      split; [split; [done|right]; split; [done|by exists v]|]. split; [|split; [|split; [|split; [|split]]]]; try done.
      * apply (shared_ok_frame h); [done|]. intros q Hq. apply lookup_insert_ne. by apply not_eq_sym, Hsp.
      * split; [intros _; by exists v|done].
      * intros r Hrp _. by apply lookup_insert_ne.
  - assert (forall e, e <> INT -> (e = INT <-> exists v, in_s64 v /\ s = Dec.dec v)) as Hnum.
    { intros e Hne. split; [done|]. intros (v & Hv). apply dec_string2ll in Hv. congruence. }
    assert (encoding o <> INT) as Hei by (unfold sdsEncodedObject in He; by destruct (encoding o)).
    destruct (zlen s <=? REDIS_ENCODING_EMBSTR_SIZE_LIMIT) eqn:El.
    + destruct (decide (encoding o = EMBSTR)) as [Hemb|Hemb].
      { exists h, p, o. split; [done|]. split; [done|]. split; [done|]. split; [done|]. split; [by apply Hnum|]. split_and!; done. }
      cbn [createEmbeddedStringObject oalloc]. set (q := fresh (dom h : gset ptr)).
      assert (h !! q = None) as Hq by (apply not_elem_of_dom, is_fresh). assert (q <> p) as Hqp by congruence.
      rewrite (decr_last _ p o) by (done || by rewrite lookup_insert_ne). cbn [mbind option_bind].
      assert (~ is_shared q) as Hqs.
      { intros (v & Hv & Hqv). destruct (proj2 Hs v Hv) as (rc & _ & Hsv). congruence. }
      eexists _, q, _. split; [done|]. rewrite lookup_delete_ne, lookup_insert_eq by done. split; [done|].
      split; [split; [done|left; split; [done|by exists 0]]|]. split; [|split; [|split; [|split; [|split]]]]; try done.
      * apply (shared_ok_frame h); [done|]. intros r Hr'. rewrite lookup_delete_ne by (by apply not_eq_sym, Hsp).
        apply lookup_insert_ne. congruence.
      * by apply Hnum.
      * intros _. apply lookup_delete_eq.
      * intros r Hrp Hrq. by rewrite lookup_delete_ne, lookup_insert_ne.
    + destruct (bool_decide (encoding o = RAW) && (av >? zlen s / 10)).
      * eexists _, p, _. split; [done|]. rewrite lookup_insert_eq. split; [done|].
        split; [split; [done|left; split; [done|by exists 0]]|]. split; [|split; [|split; [|split; [|split]]]]; try done.
        -- apply (shared_ok_frame h); [done|]. intros q Hq. apply lookup_insert_ne. by apply not_eq_sym, Hsp.
        -- by apply Hnum.
        -- intros r Hrp _. by apply lookup_insert_ne.
      * exists h, p, o. split; [done|]. split; [done|]. split; [done|]. split; [done|]. split; [by apply Hnum|]. split_and!; done.
Qed.

Lemma decoded_spec (buf32 : list Z) h p o s : h !! p = Some o -> denotes o s -> 21 <= zlen buf32 ->
  exists h' q o', getDecodedObject buf32 h p = Some (h', q) /\ h' !! q = Some o' /\ denotes o' s /\ sdsEncodedObject o' = true /\
    (forall r, r <> q -> h' !! r = h !! r) /\ (if sdsEncodedObject o then q = p /\ refcount o' = refcount o + 1 else h !! q = None /\ refcount o' = 1).
Proof.
  intros Hp Hd Hb. pose proof Hd as [Ht Hden]. unfold getDecodedObject. rewrite Hp. cbn [mbind option_bind].
  destruct Hden as [[He [av Hav]]|[He (v & Hv & Hin & ->)]].
  - rewrite He, (incr_spec h p o Hp). cbn [mbind option_bind]. eexists _, p, _. split; [done|]. rewrite lookup_insert_eq. split; [done|].
    split; [split; [done|left; split; [done|by exists av]]|]. split_and!; try done. intros r Hr. by apply lookup_insert_ne.
  - assert (sdsEncodedObject o = false) as -> by (unfold sdsEncodedObject; by rewrite He).
    rewrite decide_True by done. rewrite Hv, long_text_spec by done. cbn [mbind option_bind].
    unfold createStringObject. pose proof (obj_dec_length v Hin). unfold REDIS_ENCODING_EMBSTR_SIZE_LIMIT. ztrue (zlen (Dec.dec v) <=? 39).
    unfold createEmbeddedStringObject, oalloc. set (q := fresh (dom h : gset ptr)).
    assert (h !! q = None) as Hq by (apply not_elem_of_dom, is_fresh).
    eexists _, q, _. split; [done|]. rewrite lookup_insert_eq. split; [done|].
    split; [split; [done|left; split; [done|by exists 0]]|]. split_and!; try done. intros r Hr. by apply lookup_insert_ne.
Qed.

Lemma obj_compare_spec strcoll (buf128 : list Z) h a b oa ob s t : h !! a = Some oa -> h !! b = Some ob -> denotes oa s -> denotes ob t ->
  21 <= zlen buf128 -> zlen s <= 2 ^ 29 -> zlen t <= 2 ^ 29 ->
  exists c, compareStringObjects buf128 strcoll h a b = Some c /\ (c < 0 <-> lex s t < 0) /\ (c = 0 <-> s = t).
Proof.
  intros Ha Hb Hs Ht Hbuf Hls Hlt. unfold compareStringObjects, compareStringObjectsWithFlags. rewrite Ha, Hb. cbn [mbind option_bind].
  rewrite decide_True by (split; [apply Hs|apply Ht]). case_bool_decide as Hab.
  - exists 0. split; [done|]. subst b. rewrite Ha in Hb. injection Hb as <-.
    pose proof (object_text_spec buf128 oa s Hs Hbuf) as E1. pose proof (object_text_spec buf128 oa t Ht Hbuf) as E2.
    assert (s = t) as -> by congruence. pose proof (proj2 (lex_eq t t) eq_refl). split; [lia|done].
  - rewrite (object_text_spec buf128 oa s), (object_text_spec buf128 ob t) by done. cbn [mbind option_bind].
    change (Z.land REDIS_COMPARE_BINARY REDIS_COMPARE_COLL =? 0) with true. cbn [negb]. exists (compare_text s t). split; [done|].
    destruct (compare_lex s t Hls Hlt) as [H1 H2]. split; [done|]. rewrite H2. apply lex_eq.
Qed.

Lemma equal_spec strcoll (buf128 : list Z) h a b oa ob s t : h !! a = Some oa -> h !! b = Some ob -> denotes oa s -> denotes ob t ->
  21 <= zlen buf128 -> zlen s <= 2 ^ 29 -> zlen t <= 2 ^ 29 ->
  equalStringObjects buf128 strcoll h a b = Some (bool_decide (s = t)).
Proof.
  intros Ha Hb Hs Ht Hbuf Hls Hlt.
  destruct (obj_compare_spec strcoll buf128 h a b oa ob s t) as (c & Hc & _ & Hc0); try done.
  assert ((c' ← compareStringObjects buf128 strcoll h a b; Some (c' =? 0)) = Some (bool_decide (s = t))) as Hcmp.
  { rewrite Hc. cbn [mbind option_bind]. f_equal. apply Bool.eq_true_iff_eq. by rewrite Z.eqb_eq, bool_decide_eq_true. }
  unfold equalStringObjects. rewrite Ha, Hb. cbn [mbind option_bind] in *.
  destruct Hs as [_ [[He [av Hav]]|[He (x & Hx & Hinx & ->)]]].
  { rewrite Hav. unfold sdsEncodedObject in He. by destruct (encoding oa). }
  rewrite He, Hx. destruct Ht as [_ [[He' [av Hav]]|[He' (y & Hy & Hiny & ->)]]].
  { rewrite Hav. unfold sdsEncodedObject in He'. by destruct (encoding ob). }
  rewrite He', Hy. f_equal. apply Bool.eq_true_iff_eq. rewrite Z.eqb_eq, bool_decide_eq_true. split; [by intros ->|by apply dec_inj].
Qed.

(** C32: [tryObjectEncoding] of a string object that only its caller references
    returns an object denoting the same string, in the integer encoding exactly
    when the string is the canonical decimal of a [long]; the caller's reference
    moves to the result (a shared integer gets one more, any other object has one),
    the original is freed when it is not the result, and no other object changes.
    Decoding the result gives an sds-encoded object of the same string. *)
Theorem object_encoding_roundtrip (buf32 : list Z) h p o s : h !! p = Some o -> denotes o s -> refcount o = 1 -> shared_ok h -> ~ is_shared p ->
  zlen buf32 = 32 -> exists h' q o',
  tryObjectEncoding shared_integers server free_opaque h p = Some (h', q) /\ h' !! q = Some o' /\ denotes o' s /\ shared_ok h' /\
  (encoding o' = INT <-> exists v, in_s64 v /\ s = Dec.dec v) /\
  (q <> p -> h' !! p = None) /\ (forall r, r <> p -> r <> q -> h' !! r = h !! r) /\
  (is_shared q -> exists oq, h !! q = Some oq /\ refcount o' = refcount oq + 1) /\ (~ is_shared q -> refcount o' = 1) /\
  exists h'' d od, getDecodedObject buf32 h' q = Some (h'', d) /\ h'' !! d = Some od /\ denotes od s /\ sdsEncodedObject od = true.
Proof.
  intros Hp Hd Hr Hs Hns Hb. destruct (encode_owned h p o s Hp Hd Hr Hs Hns) as (h' & q & o' & H1 & H2 & H3 & H4 & H5 & H6 & H7 & H8 & H9).
  exists h', q, o'. split; [done|]. split; [done|]. split; [done|]. split; [done|]. split; [done|]. split; [done|]. split; [done|].
  split; [done|]. split; [done|]. destruct (decoded_spec buf32 h' q o' s H2 H3) as (h'' & d & od & ? & ? & ? & ? & _); [lia|].
  by exists h'', d, od.
Qed.

(** The readers of string objects see the strings, whatever the encodings:
    [compareStringObjects] has the sign of the lexicographic comparison,
    [equalStringObjects] decides equality, [stringObjectLen] is the length,
    [isObjectRepresentableAsLongLong] the integer the string is the canonical
    decimal of, and [dupStringObject] a fresh object of the same string and
    encoding. *)
Theorem string_objects_read strcoll (buf32 buf128 : list Z) h a b oa ob s t : h !! a = Some oa -> h !! b = Some ob -> denotes oa s -> denotes ob t ->
  zlen buf32 = 32 -> zlen buf128 = 128 -> zlen s <= 2 ^ 29 -> zlen t <= 2 ^ 29 ->
  (exists c, compareStringObjects buf128 strcoll h a b = Some c /\ (c < 0 <-> lex s t < 0) /\ (c = 0 <-> s = t)) /\
  equalStringObjects buf128 strcoll h a b = Some (bool_decide (s = t)) /\
  stringObjectLen buf32 h a = Some (zlen s) /\ isObjectRepresentableAsLongLong h a = Some (Dec.string2ll s) /\
  exists h' q o', dupStringObject h a = Some (h', q) /\ h !! q = None /\ h' = <[q := o']> h /\ denotes o' s /\ encoding o' = encoding oa /\ refcount o' = 1.
Proof.
  intros Ha Hb Hs Ht H32 H128 Hls Hlt. split; [eapply obj_compare_spec; (done || lia)|]. split; [eapply equal_spec; (done || lia)|].
  split; [|split].
  - unfold stringObjectLen. rewrite Ha. cbn [mbind option_bind]. rewrite decide_True by apply Hs. rewrite (object_text_spec buf32 oa s) by (done || lia). done.
  - unfold isObjectRepresentableAsLongLong. rewrite Ha. cbn [mbind option_bind]. rewrite decide_True by apply Hs.
    destruct Hs as [_ [[He [av Hav]]|[He (x & Hx & Hinx & ->)]]].
    + rewrite Hav. unfold sdsEncodedObject in He. by destruct (encoding oa).
    + rewrite He, Hx. f_equal. symmetry. by apply dec_string2ll.
  - unfold dupStringObject. rewrite Ha. cbn [mbind option_bind]. rewrite decide_True by apply Hs.
    assert (forall q, q = fresh (dom h : gset ptr) -> h !! q = None) as Hfr by (intros q ->; apply not_elem_of_dom, is_fresh).
    destruct Hs as [_ [[He [av Hav]]|[He (x & Hx & Hinx & ->)]]].
    + rewrite Hav. unfold sdsEncodedObject in He. destruct (encoding oa) eqn:Ee; [| |done|done].
      * unfold createRawStringObject, createObject, oalloc. eexists _, _, _. split; [done|]. split; [by apply Hfr|]. split; [done|].
        split; [|done]. split; [done|left]. split; [done|by exists 0].
      * unfold createEmbeddedStringObject, oalloc. eexists _, _, _. split; [done|]. split; [by apply Hfr|]. split; [done|].
        split; [|done]. split; [done|left]. split; [done|by exists 0].
    + rewrite He, Hx. unfold oalloc. eexists _, _, _. split; [done|]. split; [by apply Hfr|]. split; [done|].
      split; [|done]. split; [done|right]. split; [done|by exists x].
Qed.

End Theorems.

Definition demo_shared (v : Z) : ptr := Z.to_pos (v + 10).
Definition demo_objects : gmap ptr robj :=
  <[1%positive := mk_robj REDIS_STRING RAW (Sds (bytes_of "-9223372036854775808") 0) 1]>
  (<[2%positive := mk_robj REDIS_STRING INT (Long 42) 1]>
  (list_to_map ((fun v => (demo_shared (Z.of_nat v), mk_robj REDIS_STRING INT (Long (Z.of_nat v)) 1)) <$> seq 0 (Z.to_nat REDIS_SHARED_INTEGERS)))).

Lemma demo_objects_shared : shared_ok demo_shared demo_objects.
Proof.
  split.
  - intros v w Hv Hw. unfold demo_shared. lia.
  - intros v Hv. exists 1. split; [done|]. unfold demo_objects. rewrite !lookup_insert_ne by (unfold demo_shared; lia).
    apply elem_of_list_to_map_1.
    + rewrite <- list_fmap_compose. apply NoDup_fmap_2_strong; [|apply NoDup_seq]. intros x y _ _. cbn. unfold demo_shared. lia.
    + apply list_elem_of_fmap. exists (Z.to_nat v). rewrite Z2Nat.id by lia. split; [done|]. apply elem_of_seq. unfold REDIS_SHARED_INTEGERS in *. lia.
Qed.

Lemma object_encoding_roundtrip_witness : exists h' q o', tryObjectEncoding demo_shared (mk_oserver 0 5) (fun _ _ h => Some h) demo_objects 1%positive = Some (h', q) /\
  h' !! q = Some o' /\ denotes o' (bytes_of "-9223372036854775808") /\ shared_ok demo_shared h' /\
  (encoding o' = INT <-> exists v, in_s64 v /\ bytes_of "-9223372036854775808" = Dec.dec v) /\
  (q <> 1%positive -> h' !! 1%positive = None) /\ (forall r, r <> 1%positive -> r <> q -> h' !! r = demo_objects !! r) /\
  (is_shared demo_shared q -> exists oq, demo_objects !! q = Some oq /\ refcount o' = refcount oq + 1) /\ (~ is_shared demo_shared q -> refcount o' = 1) /\
  exists h'' d od, getDecodedObject (replicate 32 0) h' q = Some (h'', d) /\ h'' !! d = Some od /\ denotes od (bytes_of "-9223372036854775808") /\ sdsEncodedObject od = true.
Proof.
  apply (object_encoding_roundtrip demo_shared (mk_oserver 0 5) (fun _ _ h => Some h) (replicate 32 0) demo_objects 1%positive (mk_robj REDIS_STRING RAW (Sds (bytes_of "-9223372036854775808") 0) 1)).
  - apply lookup_insert_eq.
  - split; [reflexivity|left]. split; [reflexivity|]. exists 0. reflexivity.
  - reflexivity.
  - exact demo_objects_shared.
  - intros (v & Hv & Hq). unfold demo_shared in Hq. lia.
  - reflexivity.
Defined.

Lemma string_objects_read_witness :
  (exists c, compareStringObjects (replicate 128 0) (fun _ _ => 0) demo_objects 1%positive 2%positive = Some c /\ (c < 0 <-> lex (bytes_of "-9223372036854775808") (Dec.dec 42) < 0) /\ (c = 0 <-> bytes_of "-9223372036854775808" = Dec.dec 42)) /\
  equalStringObjects (replicate 128 0) (fun _ _ => 0) demo_objects 1%positive 2%positive = Some (bool_decide (bytes_of "-9223372036854775808" = Dec.dec 42)) /\
  stringObjectLen (replicate 32 0) demo_objects 1%positive = Some (zlen (bytes_of "-9223372036854775808")) /\
  isObjectRepresentableAsLongLong demo_objects 1%positive = Some (Dec.string2ll (bytes_of "-9223372036854775808")) /\
  exists h' q o', dupStringObject demo_objects 1%positive = Some (h', q) /\ demo_objects !! q = None /\ h' = <[q := o']> demo_objects /\
    denotes o' (bytes_of "-9223372036854775808") /\ encoding o' = RAW /\ refcount o' = 1.
Proof.
  refine (string_objects_read (fun _ _ => 0) (replicate 32 0) (replicate 128 0) demo_objects 1%positive 2%positive
    (mk_robj REDIS_STRING RAW (Sds (bytes_of "-9223372036854775808") 0) 1) (mk_robj REDIS_STRING INT (Long 42) 1) _ _ _ _ _ _ _ _ _ _).
  - apply lookup_insert_eq.
  - unfold demo_objects. rewrite lookup_insert_ne by discriminate. apply lookup_insert_eq.
  - split; [reflexivity|left]. split; [reflexivity|]. exists 0. reflexivity.
  - split; [reflexivity|right]. split; [reflexivity|]. exists 42. split; [reflexivity|]. split; [split; vm_compute; discriminate|reflexivity].
  - reflexivity.
  - reflexivity.
  - vm_compute. discriminate.
  - vm_compute. discriminate.
Defined.

(** ** What is read as an integer *)

(** An optional sign and digits, the value of which fits a [long long]. *)
Definition numeral (t : list Z) (v : Z) : Prop :=
  exists (sign ds : list Z), t = sign ++ ds /\ (sign = [] \/ sign = [43] \/ sign = [45]) /\ ds <> [] /\ Dec.digits_ok ds /\
    v = (if decide (sign = [45]) then - Dec.horner 0 ds else Dec.horner 0 ds) /\ in_s64 v.

Lemma span_digits_spec s : Dec.digits_ok (span_digits s).1 /\ s = (span_digits s).1 ++ (span_digits s).2 /\
  (forall c r, (span_digits s).2 = c :: r -> is_digit c = false).
Proof.
  induction s as [|c s (IH1 & IH2 & IH3)]; cbn; [done|]. destruct (is_digit c) eqn:E.
  - destruct (span_digits s) as [d r]. cbn in *. split; [by constructor|]. split; [by rewrite IH2 at 1|done].
  - cbn. split; [constructor|]. split; [done|]. by intros c' r [= <- _].
Qed.

Lemma span_digits_all ds : Dec.digits_ok ds -> span_digits ds = (ds, []).
Proof. induction 1 as [|c ds Hc Hds IH]; [done|]. cbn. by rewrite Hc, IH. Qed.

Lemma horner_nonneg ds : Dec.digits_ok ds -> 0 <= Dec.horner 0 ds.
Proof. intros Hd. by apply Dec.horner_mono. Qed.

(** The number of a signed run of digits, with the range check of [strtoll]. *)
Lemma strtoll_sign t neg s2 : isspace (match t with c :: _ => c | [] => 0 end) = false ->
  (match t with c :: s' => if c =? 45 then (true, s') else if c =? 43 then (false, s') else (false, t) | [] => (false, t) end) = (neg, s2) ->
  let '(v, rest, erange) := strtoll t in
  (match span_digits s2 with
   | ([], _) => v = 0 /\ rest = t /\ erange = false
   | (ds, r) => rest = r /\ let w := if neg then - Dec.horner 0 ds else Dec.horner 0 ds in
                (erange = false <-> in_s64 w) /\ (erange = false -> v = w)
   end).
Proof.
  intros Hsp Hsign. assert (skip_space t = t) as Hsk by (destruct t; cbn in *; [done|]; by rewrite Hsp).
  unfold strtoll. rewrite Hsk, Hsign. destruct (span_digits s2) as [[|d ds] r]; [done|].
  set (w := if neg then - Dec.horner 0 (d :: ds) else Dec.horner 0 (d :: ds)). cbv zeta. unfold in_s64.
  destruct (w <? LLONG_MIN) eqn:E1; zbool; [split; [done|]; split; [split; [done|lia]|done]|].
  destruct (w >? LLONG_MAX) eqn:E2; zbool; [split; [done|]; split; [split; [done|lia]|done]|].
  split; [done|]. split; [split; [lia|done]|done].
Qed.

Definition accepted (s : list Z) (v : Z) : Prop := (c_str s = [] /\ v = 0) \/ numeral (c_str s) v.

Definition sign_of (t : list Z) : bool * list Z :=
  match t with c :: s' => if c =? 45 then (true, s') else if c =? 43 then (false, s') else (false, t) | [] => (false, t) end.

Lemma numeral_sign t v : numeral t v -> span_digits (sign_of t).2 = ((sign_of t).2, []) /\ (sign_of t).2 <> [] /\
  v = (if (sign_of t).1 then - Dec.horner 0 (sign_of t).2 else Dec.horner 0 (sign_of t).2) /\ in_s64 v /\
  isspace (match t with c :: _ => c | [] => 0 end) = false.
Proof.
  intros (sign & ds & -> & [->|[->| ->]] & Hne & Hd & Hv & Hin); cbn [app sign_of fst snd] in *; try (by split_and!; [apply span_digits_all| | | |]).
  destruct ds as [|c ds]; [done|]. pose proof (Forall_inv Hd) as Hc. apply Dec.is_digit_spec in Hc. cbn [sign_of].
  zfalse (c =? 45). zfalse (c =? 43). cbn [fst snd]. split; [by apply span_digits_all|]. split; [done|]. split; [done|]. split; [done|].
  unfold isspace. zfalse (c =? 32). zfalse (c <=? 13). by rewrite andb_false_r.
Qed.

Lemma sign_numeral t v : (sign_of t).2 <> [] -> Dec.digits_ok (sign_of t).2 ->
  v = (if (sign_of t).1 then - Dec.horner 0 (sign_of t).2 else Dec.horner 0 (sign_of t).2) -> in_s64 v -> numeral t v.
Proof.
  intros Hne Hd Hv Hin. destruct t as [|c t]; cbn [sign_of] in *; [done|]. destruct (c =? 45) eqn:E1; zbool; [|destruct (c =? 43) eqn:E2; zbool]; cbn [fst snd] in *.
  - exists [45], t. subst c. split_and!; auto.
  - exists [43], t. subst c. split_and!; auto.
  - exists [], (c :: t). split_and!; auto.
Qed.

Definition read_long (s : list Z) : option Z :=
  let '(value, eptr, erange) := strtoll (c_str s) in
  if isspace (match s with c :: _ => c | [] => 0 end) || negb (match eptr with [] => true | _ => false end) || erange then None else Some value.

Lemma read_long_spec s v : read_long s = Some v <-> accepted s v.
Proof.
  unfold read_long, accepted. assert (isspace (match s with c :: _ => c | [] => 0 end) = isspace (match c_str s with c :: _ => c | [] => 0 end)) as ->.
  { destruct s as [|c s]; [done|]. cbn [c_str]. by destruct (c =? 0) eqn:E; zbool; [subst|]. }
  set (t := c_str s). destruct (isspace (match t with c :: _ => c | [] => 0 end)) eqn:Esp; cbn [orb].
  { destruct (strtoll t) as [[value eptr] erange]. split; [done|]. intros [[Ht _]|Hn].
    - rewrite Ht in Esp. done.
    - apply numeral_sign in Hn as (_ & _ & _ & _ & Hn). congruence. }
  pose proof (strtoll_sign t (sign_of t).1 (sign_of t).2 Esp (surjective_pairing (sign_of t))) as Hst.
  destruct (strtoll t) as [[value eptr] erange]. pose proof (span_digits_spec (sign_of t).2) as (Hd & Happ & _).
  destruct (span_digits (sign_of t).2) as [[|d ds] r] eqn:Esd; cbn [fst snd] in *.
  - destruct Hst as (-> & -> & ->). destruct t as [|c t'] eqn:Et; cbn [negb orb].
    + split; [intros [= <-]; by left|]. intros [[_ ->]|Hn]; [done|]. by apply numeral_sign in Hn as (_ & ? & _).
    + split; [done|]. intros [[? _]|Hn]; [done|]. apply numeral_sign in Hn as (Hsp & Hne & _). rewrite Esd in Hsp. injection Hsp as Hsp. by destruct (Hne (eq_sym Hsp)).
  - destruct Hst as (-> & Her & Hval). set (w := if (sign_of t).1 then - Dec.horner 0 (d :: ds) else Dec.horner 0 (d :: ds)) in *.
    destruct r as [|c r]; cbn [negb orb].
    + rewrite app_nil_r in Happ. assert (forall x, numeral t x <-> x = w /\ in_s64 x) as Hnum.
      { intros x. split.
        - intros Hn. apply numeral_sign in Hn as (_ & _ & Hx & Hin & _). by rewrite Happ in Hx.
        - intros [Hx Hin]. apply sign_numeral; rewrite ?Happ; done. }
      rewrite Hnum. destruct erange.
      * split; [done|]. intros [[Ht _]|[-> Hin]]; [rewrite Ht in Happ; done|]. by apply Her in Hin.
      * rewrite (Hval eq_refl). split; [intros [= <-]; right; split; [done|by apply Her]|]. intros [[Ht _]|[-> _]]; [rewrite Ht in Happ; done|done].
    + split; [done|]. intros [[Ht _]|Hn]; [rewrite Ht in Happ; done|]. apply numeral_sign in Hn as (Hsp & _). rewrite Esd in Hsp. done.
Qed.

Lemma c_str_nonzero s : Forall (fun c => c <> 0) s -> c_str s = s.
Proof. induction 1 as [|c s Hc Hs IH]; [done|]. cbn. zfalse (c =? 0). by rewrite IH. Qed.

Lemma digits_nonzero ds : Dec.digits_ok ds -> Forall (fun c => c <> 0) ds.
Proof. intros Hd. eapply Forall_impl; [exact Hd|]. intros c Hc. cbn beta in *. apply Dec.is_digit_spec in Hc. lia. Qed.

Lemma dec_accepted v : in_s64 v -> accepted (Dec.dec v) v.
Proof.
  intros Hv. pose proof Hv as Hv'. unfold in_s64, LLONG_MIN, LLONG_MAX in Hv'. unfold Dec.dec. right. destruct (v <? 0) eqn:E; zbool.
  - destruct (Dec.udec_horner 19 (- v)) as (Hh & Hd & d & ds & Hu & _); [lia|]. rewrite c_str_nonzero by (constructor; [done|by apply digits_nonzero]).
    exists [45], (Dec.udec 19 (- v)). rewrite Hh. split; [done|]. split; [auto|]. split; [by rewrite Hu|]. split; [done|]. split; [rewrite decide_True by done; lia|done].
  - destruct (Dec.udec_horner 19 v) as (Hh & Hd & d & ds & Hu & _); [lia|]. rewrite c_str_nonzero by (by apply digits_nonzero).
    exists [], (Dec.udec 19 v). rewrite Hh. split; [done|]. split; [auto|]. split; [by rewrite Hu|]. done.
Qed.

(** [getLongLongFromObject] of an sds-encoded object accepts exactly the strings
    whose bytes before the first NUL are none at all, read as 0, or an optional sign
    and digits whose value fits a [long long]; so canonical decimals read back, an
    absent key reads as 0, an integer-encoded object as its integer, and
    [getLongFromObjectOrReply] tells the values beyond a [long] apart.  What
    [createStringObjectFromLongLong] makes of an integer reads as it. *)
Theorem getLongLong_accepts (h : gmap ptr robj) p o s avail : h !! p = Some o -> type o = REDIS_STRING ->
  sdsEncodedObject o = true -> optr o = Sds s avail ->
  (exists r, getLongLongFromObject h (Some p) = Some r /\ (forall v, r = Some v <-> accepted s v) /\
    (forall v, in_s64 v -> s = Dec.dec v -> r = Some v) /\
    forall w msg, 0 < w -> getLongFromObjectOrReply w h (Some p) msg =
      Some (match r with
            | Some v => if bool_decide (- 2 ^ (w - 1) <= v < 2 ^ (w - 1)) then IntValue v else if msg then CustomError else OutOfRange
            | None => if msg then CustomError else NotAnInteger end)) /\
  getLongLongFromObject h None = Some (Some 0) /\
  (forall q v rc, h !! q = Some (mk_robj REDIS_STRING INT (Long v) rc) -> getLongLongFromObject h (Some q) = Some (Some v)) /\
  forall shared v, shared_ok shared h -> in_s64 v ->
    exists h' q, createStringObjectFromLongLong shared h v = Some (h', q) /\ getLongLongFromObject h' (Some q) = Some (Some v).
Proof.
  intros Hp Ht He Hs. split; [|split; [done|split]].
  - assert (getLongLongFromObject h (Some p) = Some (read_long s)) as Hr.
    { unfold getLongLongFromObject. rewrite Hp. cbn [mbind option_bind]. rewrite decide_True by done. rewrite Hs, He. unfold read_long.
      by destruct (strtoll (c_str s)) as [[value eptr] erange]. }
    exists (read_long s). split; [done|]. split; [apply read_long_spec|]. split; [intros v Hv ->; by apply read_long_spec, dec_accepted|].
    intros w msg Hw. unfold getLongFromObjectOrReply, getLongLongFromObjectOrReply. rewrite Hr. cbn [mbind option_bind].
    destruct (read_long s) as [v|]; [|by destruct msg]. case_bool_decide as Hb.
    + zfalse ((v <? - 2 ^ (w - 1)) || (v >? 2 ^ (w - 1) - 1)). done.
    + ztrue ((v <? - 2 ^ (w - 1)) || (v >? 2 ^ (w - 1) - 1)). done.
  - intros q v rc Hq. unfold getLongLongFromObject. rewrite Hq. done.
  - intros shared v [_ Hsh] Hv. unfold createStringObjectFromLongLong, getLongLongFromObject.
    destruct ((0 <=? v) && (v <? REDIS_SHARED_INTEGERS)) eqn:E.
    + apply andb_prop in E as [E1 E2]. zbool. destruct (Hsh v ltac:(lia)) as (rc & _ & Hq).
      rewrite (incr_spec _ _ _ Hq). cbn [mbind option_bind]. eexists _, _. split; [done|]. by rewrite lookup_insert_eq.
    + unfold oalloc. eexists _, _. split; [done|]. by rewrite lookup_insert_eq.
Qed.

(** An empty string and a string that goes on after a NUL are both read as integers. *)
Definition odd_objects : gmap ptr robj :=
  <[1%positive := mk_robj REDIS_STRING EMBSTR (Sds [] 0) 1]> (<[2%positive := mk_robj REDIS_STRING EMBSTR (Sds [43; 48; 55; 0; 120] 0) 1]> ∅).

Lemma getLongLong_accepts_witness :
  (exists r, getLongLongFromObject odd_objects (Some 2%positive) = Some r /\ (forall v, r = Some v <-> accepted [43; 48; 55; 0; 120] v) /\
    (forall v, in_s64 v -> [43; 48; 55; 0; 120] = Dec.dec v -> r = Some v) /\
    forall w msg, 0 < w -> getLongFromObjectOrReply w odd_objects (Some 2%positive) msg =
      Some (match r with
            | Some v => if bool_decide (- 2 ^ (w - 1) <= v < 2 ^ (w - 1)) then IntValue v else if msg then CustomError else OutOfRange
            | None => if msg then CustomError else NotAnInteger end)) /\
  getLongLongFromObject odd_objects None = Some (Some 0) /\
  (forall q v rc, odd_objects !! q = Some (mk_robj REDIS_STRING INT (Long v) rc) -> getLongLongFromObject odd_objects (Some q) = Some (Some v)) /\
  forall shared v, shared_ok shared odd_objects -> in_s64 v ->
    exists h' q, createStringObjectFromLongLong shared odd_objects v = Some (h', q) /\ getLongLongFromObject h' (Some q) = Some (Some v).
Proof. apply (getLongLong_accepts odd_objects 2%positive (mk_robj REDIS_STRING EMBSTR (Sds [43; 48; 55; 0; 120] 0) 1) _ 0); reflexivity. Defined.

Example reads_empty_as_zero : getLongLongFromObject odd_objects (Some 1%positive) = Some (Some 0).
Proof. reflexivity. Qed.
Example reads_before_nul : getLongLongFromObject odd_objects (Some 2%positive) = Some (Some 7).
Proof. reflexivity. Qed.
