(* ===== verification/Skiplist.v ===== *)
(** * Skip lists of sorted sets (the zsl functions of t_zset.c)

    Nodes live in a heap, as those of [Adlist.v]; a node has the array of its
    levels, each with a forward pointer and a span.  Scores are C doubles that are
    not NaN: what the code relies on of their comparison is the class [Score].
    Members are string objects; [Member] abstracts their comparison and [Bytes]
    implements it by that of [Object.v].  Random levels are an argument.

    [SkiplistRep.v] proves the structure a sorted list with correct spans. *)
From Stdlib Require Import Lia ZArith SpecFloat.
From stdpp Require Import base numbers list tactics option gmap fin_maps fin_sets.
From S2P Require Import Prelude Adlist Object Dict.

#[local] Open Scope Z_scope.

(** ** Scores and members *)

(** Comparison of doubles: [<] and [==] on numbers that are not NaN. *)
Class Score (Sc : Type) := {
  slt : Sc -> Sc -> bool;
  seqb : Sc -> Sc -> bool;
  szero : Sc;
  seqb_refl : forall a, seqb a a = true;
  seqb_sym : forall a b, seqb a b = true -> seqb b a = true;
  seqb_trans : forall a b c, seqb a b = true -> seqb b c = true -> seqb a c = true;
  slt_trans : forall a b c, slt a b = true -> slt b c = true -> slt a c = true;
  slt_seqb : forall a b c, slt a b = true -> seqb b c = true -> slt a c = true;
  seqb_slt : forall a b c, seqb a b = true -> slt b c = true -> slt a c = true;
  slt_total : forall a b, slt a b = true \/ seqb a b = true \/ slt b a = true;
  slt_not_seqb : forall a b, slt a b = true -> seqb a b = false;
  slt_asym : forall a b, slt a b = true -> slt b a = false;
}.

Definition sle `{Score Sc} (a b : Sc) : bool := slt a b || seqb a b.

(** Comparison of string objects: the sign of [cmp a b] orders them. *)
Class Member (Ob : Type) := {
  cmp : Ob -> Ob -> Z;
  cmp_eq : forall a b, cmp a b = 0 <-> a = b;
  cmp_sym : forall a b, cmp a b < 0 <-> 0 < cmp b a;
  cmp_trans : forall a b c, cmp a b < 0 -> cmp b c < 0 -> cmp a c < 0;
}.

(** ** Scores are doubles

    The doubles that are not NaN, with the comparison of IEEE 754. *)
Module Double.

Definition number (f : spec_float) : bool := match f with S754_nan => false | _ => true end.
Definition double := { f : spec_float | number f = true }.

(** The place of a number on the line: its class, exponent and mantissa. *)
Definition place (f : spec_float) : Z * Z * Z :=
  match f with
  | S754_infinity true => (-2, 0, 0)
  | S754_finite true m e => (-1, - e, Z.neg m)
  | S754_zero _ | S754_nan => (0, 0, 0)
  | S754_finite false m e => (1, e, Z.pos m)
  | S754_infinity false => (2, 0, 0)
  end.
Definition place_lt (x y : Z * Z * Z) : Prop :=
  let '(a, b, c) := x in let '(a', b', c') := y in a < a' \/ (a = a' /\ (b < b' \/ (b = b' /\ c < c'))).

Lemma compare_place f g : number f = true -> number g = true ->
  (SFltb f g = true <-> place_lt (place f) (place g)) /\ (SFeqb f g = true <-> place f = place g).
Proof.
  intros Hf Hg. unfold SFltb, SFeqb.
  destruct f as [s1|[]| |[] m1 e1]; try done; destruct g as [s2|[]| |[] m2 e2]; try done; cbn; try (split; split; (done || lia || congruence)).
  all: destruct (Z.compare_spec e1 e2) as [->|H|H]; try (split; split; (done || lia || (intros Hq; injection Hq; lia))).
  - change (Pos.compare_cont Eq m1 m2) with (Pos.compare m1 m2). destruct (Pos.compare_spec m1 m2); cbn; subst; split; split; (done || lia || congruence || (intros Hq; injection Hq; lia)).
  - change (Pos.compare_cont Eq m1 m2) with (Pos.compare m1 m2). destruct (Pos.compare_spec m1 m2); cbn; subst; split; split; (done || lia || congruence || (intros Hq; injection Hq; lia)).
Qed.

Lemma dlt (a b : double) : SFltb (`a) (`b) = true <-> place_lt (place (`a)) (place (`b)).
Proof. apply compare_place; [apply (proj2_sig a)|apply (proj2_sig b)]. Qed.

Lemma deq (a b : double) : SFeqb (`a) (`b) = true <->
  (place (`a)).1.1 = (place (`b)).1.1 /\ (place (`a)).1.2 = (place (`b)).1.2 /\ (place (`a)).2 = (place (`b)).2.
Proof.
  rewrite (proj2 (compare_place (`a) (`b) (proj2_sig a) (proj2_sig b))). destruct (place (`a)) as [[]], (place (`b)) as [[]].
  cbn. split; [by intros [= -> -> ->]|]. by intros (-> & -> & ->).
Qed.

Ltac by_place :=
  intros; repeat match goal with H : _ = true |- _ => revert H end;
  rewrite <- ?Bool.not_true_iff_false, ?dlt, ?deq;
  repeat match goal with |- context [place (`?a)] => destruct (place (`a)) as [[??]?] end;
  cbn; lia.

#[global, refine] Instance double_score : Score double := {
  slt a b := SFltb (`a) (`b);
  seqb a b := SFeqb (`a) (`b);
  szero := exist _ (S754_zero false) eq_refl;
}.
Proof. all: by_place. Defined.

End Double.

(** ** Members are strings *)
Module Bytes.

(** Strings Redis can hold: at most 512 MB. *)
Definition str := { s : list Z | bool_decide (zlen s <= 2 ^ 29) }.

Lemma str_bound (s : str) : zlen (`s) <= 2 ^ 29.
Proof. apply (bool_decide_unpack _ (proj2_sig s)). Qed.

#[global, refine] Instance str_member : Member str := { cmp a b := compare_text (`a) (`b) }.
Proof.
  - intros a b. rewrite (proj2 (compare_lex _ _ (str_bound a) (str_bound b))), lex_eq. split; [|by intros ->].
    apply (sig_eq_pi _ a b).
  - intros a b. pose proof (compare_lex _ _ (str_bound a) (str_bound b)). pose proof (compare_lex _ _ (str_bound b) (str_bound a)).
    pose proof (lex_sym (`a) (`b)). lia.
  - intros a b c. rewrite !(proj1 (compare_lex _ _ (str_bound _) (str_bound _))). apply lex_trans.
Defined.

End Bytes.

Definition ZSKIPLIST_MAXLEVEL : nat := 32.

Section Skiplist.
Context {Sc Ob : Type} `{HS : Score Sc} `{HO : Member Ob}.

Record zskiplistLevel := mk_level { forward : option ptr; span : Z }.
Record zskiplistNode := mk_znode { obj : option Ob; score : Sc; backward : option ptr; level : list zskiplistLevel }.
Record zskiplist := mk_zsl { header : ptr; ztail : option ptr; zlength : Z; zlevel : nat }.

#[local] Abbreviation zheap := (gmap ptr zskiplistNode).

(** [x->level[i]] *)
Definition lv (h : zheap) (x : ptr) (i : nat) : option zskiplistLevel := n ← h !! x; level n !! i.
Definition set_lv (h : zheap) (x : ptr) (i : nat) (l : zskiplistLevel) : option zheap :=
  n ← h !! x;
  _ ← level n !! i;
  Some (<[x := mk_znode (obj n) (score n) (backward n) (<[i := l]> (level n))]> h).
Definition set_backward (h : zheap) (x : ptr) (b : option ptr) : option zheap :=
  n ← h !! x; Some (<[x := mk_znode (obj n) (score n) b (level n)]> h).

Definition zalloc (h : zheap) : ptr := fresh (dom h : gset ptr).

(** [junk] and [jback] are what the uninitialised fields hold. *)
Definition zslCreateNode (junk : zskiplistLevel) (jback : option ptr) (lvl : nat) (sc : Sc) (o : option Ob) : zskiplistNode :=
  mk_znode o sc jback (replicate lvl junk).

Definition zslCreate (h : zheap) : zheap * zskiplist :=
  let p := zalloc h in
  (<[p := mk_znode None szero None (replicate ZSKIPLIST_MAXLEVEL (mk_level None 0))]> h, mk_zsl p None 0 1).

Fixpoint zslFree_loop (fuel : nat) (h : zheap) (node : option ptr) : option zheap :=
  match node with
  | None => Some h
  | Some p =>
      match fuel with
      | O => None
      | S fuel => l ← lv h p 0; zslFree_loop fuel (base.delete p h) (forward l)
      end
  end.

Definition zslFree (h : zheap) (z : zskiplist) : option zheap :=
  l ← lv h (header z) 0;
  zslFree_loop (S (Z.to_nat (zlength z))) (base.delete (header z) h) (forward l).

(** One [random()] value per round; [ZSKIPLIST_P * 0xFFFF] is 16383.75. *)
Fixpoint zslRandomLevel_loop (rs : list Z) (level : nat) : nat :=
  match rs with
  | r :: rs => if Z.land r 0xFFFF <=? 16383 then zslRandomLevel_loop rs (level + 1) else level
  | [] => level
  end.
Definition zslRandomLevel (rs : list Z) : nat :=
  let level := zslRandomLevel_loop rs 1 in
  if (level <? ZSKIPLIST_MAXLEVEL)%nat then level else ZSKIPLIST_MAXLEVEL.

(** ** Searching *)

(** The inner loop of a search at level [i]: go forward while [go] holds of the
    rank so far, the span to cross and the next node.  The rank has [w] bits. *)
Fixpoint zsl_walk (w : Z) (fuel : nat) (h : zheap) (i : nat) (go : Z -> Z -> zskiplistNode -> bool) (x : ptr) (rank : Z)
  : option (ptr * Z) :=
  l ← lv h x i;
  match forward l with
  | None => Some (x, rank)
  | Some q =>
      n ← h !! q;
      if go rank (span l) n then
        match fuel with
        | O => None
        | S fuel => zsl_walk w fuel h i go q (uwrap w (rank + span l))
        end
      else Some (x, rank)
  end.

(** The levels below [i], from the highest down: [update] and [rank], by level. *)
Fixpoint zsl_descend (w : Z) (fuel : nat) (h : zheap) (i : nat) (go : Z -> Z -> zskiplistNode -> bool) (x : ptr) (rank : Z)
  : option (list (ptr * Z)) :=
  match i with
  | O => Some []
  | S i =>
      '(x, rank) ← zsl_walk w fuel h i go x rank;
      us ← zsl_descend w fuel h i go x rank;
      Some (us ++ [(x, rank)])
  end.

Definition zsl_search (w : Z) (h : zheap) (z : zskiplist) (go : Z -> Z -> zskiplistNode -> bool) : option (list (ptr * Z)) :=
  zsl_descend w (Z.to_nat (zlength z)) h (zlevel z) go (header z) 0.

(** The node precedes (score, obj). *)
Definition precedes (sc : Sc) (o : Ob) (n : zskiplistNode) : bool :=
  slt (score n) sc || (seqb (score n) sc && match obj n with Some o' => cmp o' o <? 0 | None => false end).

(** ** Insertion *)

(** [for (; i < n; i++)] over the entries [update[i]], [rank[i]] from level [i] on. *)
Fixpoint for_levels (body : ptr * Z -> nat -> zheap -> option zheap) (us : list (ptr * Z)) (i : nat) (h : zheap) : option zheap :=
  match us with
  | [] => Some h
  | u :: us => h ← body u i h; for_levels body us (S i) h
  end.

(** [update[i]->level[i].span = zsl->length] for the new levels. *)
Definition zslInsert_newlevel (len : Z) (u : ptr * Z) (i : nat) (h : zheap) : option zheap :=
  l ← lv h (fst u) i; set_lv h (fst u) i (mk_level (forward l) (u32 len)).

(** Linking [x] at level [i] after [update[i]]. *)
Definition zslInsert_link (x : ptr) (rank0 : Z) (u : ptr * Z) (i : nat) (h : zheap) : option zheap :=
  l ← lv h (fst u) i;
  h ← set_lv h x i (mk_level (forward l) (u32 (span l - (rank0 - snd u))));
  set_lv h (fst u) i (mk_level (Some x) (u32 (rank0 - snd u + 1))).

(** [update[i]->level[i].span++] for the untouched levels. *)
Definition zslInsert_span (u : ptr * Z) (i : nat) (h : zheap) : option zheap :=
  l ← lv h (fst u) i; set_lv h (fst u) i (mk_level (forward l) (u32 (span l + 1))).

Definition zslInsert (junk : zskiplistLevel) (jback : option ptr) (rs : list Z) (h : zheap) (z : zskiplist) (sc : Sc) (o : Ob)
  : option (zheap * zskiplist * ptr) :=
  us ← zsl_search 32 h z (fun _ _ n => precedes sc o n);
  let lvl := zslRandomLevel rs in
  '(h, us, zlv) ←
    (if (zlevel z <? lvl)%nat then
       let news := replicate (lvl - zlevel z) (header z, 0) in
       h ← for_levels (zslInsert_newlevel (zlength z)) news (zlevel z) h;
       Some (h, us ++ news, lvl)
     else Some (h, us, zlevel z));
  let x := zalloc h in
  let h := <[x := zslCreateNode junk jback lvl sc (Some o)]> h in
  '(u0, rank0) ← us !! O;
  h ← for_levels (zslInsert_link x rank0) (take lvl us) 0 h;
  h ← for_levels zslInsert_span (drop lvl us) lvl h;
  h ← set_backward h x (if bool_decide (u0 = header z) then None else Some u0);
  l ← lv h x 0;
  '(h, t) ← (match forward l with
             | Some q => h ← set_backward h q (Some x); Some (h, ztail z)
             | None => Some (h, Some x)
             end);
  Some (h, mk_zsl (header z) t (uwrap 64 (zlength z + 1)) zlv, x).

(** ** Deletion *)

Definition zslDeleteNode_level (x : ptr) (u : ptr * Z) (i : nat) (h : zheap) : option zheap :=
  l ← lv h (fst u) i;
  if bool_decide (forward l = Some x) then
    lx ← lv h x i; set_lv h (fst u) i (mk_level (forward lx) (u32 (span l + (span lx - 1))))
  else set_lv h (fst u) i (mk_level (forward l) (u32 (span l - 1))).

(** [while (level > 1 && header->level[level-1].forward == NULL) level--] *)
Fixpoint zslDeleteNode_shrink (lvl : nat) (h : zheap) (hd : ptr) : option nat :=
  match lvl with
  | S ((S _) as l1) =>
      l ← lv h hd l1;
      match forward l with None => zslDeleteNode_shrink l1 h hd | Some _ => Some lvl end
  | _ => Some lvl
  end.

Definition zslDeleteNode (h : zheap) (z : zskiplist) (x : ptr) (us : list (ptr * Z)) : option (zheap * zskiplist) :=
  h ← for_levels (zslDeleteNode_level x) (take (zlevel z) us) 0 h;
  n ← h !! x;
  l ← level n !! O;
  '(h, t) ← (match forward l with
             | Some q => h ← set_backward h q (backward n); Some (h, ztail z)
             | None => Some (h, backward n)
             end);
  lvl ← zslDeleteNode_shrink (zlevel z) h (header z);
  Some (h, mk_zsl (header z) t (uwrap 64 (zlength z - 1)) lvl).

Definition zslFreeNode (h : zheap) (x : ptr) : zheap := base.delete x h.

Definition zslDelete (h : zheap) (z : zskiplist) (sc : Sc) (o : Ob) : option (zheap * zskiplist * bool) :=
  us ← zsl_search 32 h z (fun _ _ n => precedes sc o n);
  '(u0, _) ← us !! O;
  l ← lv h u0 0;
  match forward l with
  | None => Some (h, z, false)
  | Some x =>
      n ← h !! x;
      if seqb sc (score n) && (match obj n with Some o' => cmp o' o =? 0 | None => false end) then
        '(h, z) ← zslDeleteNode h z x us;
        Some (zslFreeNode h x, z, true)
      else Some (h, z, false)
  end.

(** ** Ranges of scores *)

Record zrangespec := mk_range { rmin : Sc; rmax : Sc; rminex : bool; rmaxex : bool }.

Definition zslValueGteMin (value : Sc) (spec : zrangespec) : bool :=
  if rminex spec then slt (rmin spec) value else sle (rmin spec) value.
Definition zslValueLteMax (value : Sc) (spec : zrangespec) : bool :=
  if rmaxex spec then slt value (rmax spec) else sle value (rmax spec).

Definition zslIsInRange (h : zheap) (z : zskiplist) (range : zrangespec) : option bool :=
  if slt (rmax range) (rmin range) || (seqb (rmin range) (rmax range) && (rminex range || rmaxex range)) then Some false else
  match ztail z with
  | None => Some false
  | Some x =>
      n ← h !! x;
      if negb (zslValueGteMin (score n) range) then Some false else
      l ← lv h (header z) 0;
      match forward l with
      | None => Some false
      | Some x => n ← h !! x; Some (zslValueLteMax (score n) range)
      end
  end.

(** [Some None] is [NULL]. *)
Definition zslFirstInRange (h : zheap) (z : zskiplist) (range : zrangespec) : option (option ptr) :=
  inr ← zslIsInRange h z range;
  if negb inr then Some None else
  us ← zsl_search 64 h z (fun _ _ n => negb (zslValueGteMin (score n) range));
  '(x, _) ← us !! O;
  l ← lv h x 0;
  x ← forward l;
  n ← h !! x;
  Some (if zslValueLteMax (score n) range then Some x else None).

Definition zslLastInRange (h : zheap) (z : zskiplist) (range : zrangespec) : option (option ptr) :=
  inr ← zslIsInRange h z range;
  if negb inr then Some None else
  us ← zsl_search 64 h z (fun _ _ n => zslValueLteMax (score n) range);
  '(x, _) ← us !! O;
  n ← h !! x;
  Some (if zslValueGteMin (score n) range then Some x else None).

(** ** Ranges of members *)

(** A bound: a string or one of [shared.minstring] and [shared.maxstring]. *)
Inductive lexbound := MinString | MaxString | Str (o : Ob).
Record zlexrangespec := mk_lexrange { lmin : lexbound; lmax : lexbound; lminex : bool; lmaxex : bool }.

Definition compareStringObjectsForLexRange (a b : lexbound) : Z :=
  match a, b with
  | MinString, MinString | MaxString, MaxString => 0
  | MinString, _ | _, MaxString => -1
  | MaxString, _ | _, MinString => 1
  | Str a, Str b => cmp a b
  end.

Definition zslLexValueGteMin (value : Ob) (spec : zlexrangespec) : bool :=
  let c := compareStringObjectsForLexRange (Str value) (lmin spec) in
  if lminex spec then c >? 0 else c >=? 0.
Definition zslLexValueLteMax (value : Ob) (spec : zlexrangespec) : bool :=
  let c := compareStringObjectsForLexRange (Str value) (lmax spec) in
  if lmaxex spec then c <? 0 else c <=? 0.

(** What the objects [shared.minstring] and [shared.maxstring] hold. *)
Context (minstring maxstring : Ob).

Definition lex_value (b : lexbound) : Ob :=
  match b with MinString => minstring | MaxString => maxstring | Str o => o end.

Definition zslIsInLexRange (h : zheap) (z : zskiplist) (range : zlexrangespec) : option bool :=
  if (compareStringObjectsForLexRange (lmin range) (lmax range) >? 1) ||
     ((cmp (lex_value (lmin range)) (lex_value (lmax range)) =? 0) && (lminex range || lmaxex range)) then Some false else
  match ztail z with
  | None => Some false
  | Some x =>
      n ← h !! x;
      o ← obj n;
      if negb (zslLexValueGteMin o range) then Some false else
      l ← lv h (header z) 0;
      match forward l with
      | None => Some false
      | Some x => n ← h !! x; o ← obj n; Some (zslLexValueLteMax o range)
      end
  end.

Definition zslFirstInLexRange (h : zheap) (z : zskiplist) (range : zlexrangespec) : option (option ptr) :=
  inr ← zslIsInLexRange h z range;
  if negb inr then Some None else
  us ← zsl_search 64 h z (fun _ _ n => match obj n with Some o => negb (zslLexValueGteMin o range) | None => false end);
  '(x, _) ← us !! O;
  l ← lv h x 0;
  x ← forward l;
  n ← h !! x;
  o ← obj n;
  Some (if zslLexValueLteMax o range then Some x else None).

Definition zslLastInLexRange (h : zheap) (z : zskiplist) (range : zlexrangespec) : option (option ptr) :=
  inr ← zslIsInLexRange h z range;
  if negb inr then Some None else
  us ← zsl_search 64 h z (fun _ _ n => match obj n with Some o => zslLexValueLteMax o range | None => false end);
  '(x, _) ← us !! O;
  n ← h !! x;
  o ← obj n;
  Some (if zslLexValueGteMin o range then Some x else None).

(** ** Deleting ranges *)

Context `{EqDecision Ob} `{HD : DictType Ob}.
#[local] Abbreviation zdict := (@dict Ob Sc).

(** The loop that deletes nodes from [x] on while [inside] holds of the number
    traversed and the node; each leaves the dictionary too. *)
Fixpoint zslDeleteRange_loop (fuel : nat) (h : zheap) (z : zskiplist) (d : zdict) (us : list (ptr * Z)) (x : option ptr)
  (inside : Z -> zskiplistNode -> bool) (traversed removed : Z) : option (zheap * zskiplist * zdict * Z) :=
  match x with
  | None => Some (h, z, d, removed)
  | Some x =>
      n ← h !! x;
      if inside traversed n then
        match fuel with
        | O => None
        | S fuel =>
            l ← level n !! O;
            let next := forward l in
            '(h, z) ← zslDeleteNode h z x us;
            o ← obj n;
            '(d, _) ← dictDelete d o;
            zslDeleteRange_loop fuel (zslFreeNode h x) z d us next inside (uwrap 64 (traversed + 1)) (uwrap 64 (removed + 1))
        end
      else Some (h, z, d, removed)
  end.

Definition zslDeleteRangeByScore (h : zheap) (z : zskiplist) (range : zrangespec) (d : zdict) : option (zheap * zskiplist * zdict * Z) :=
  us ← zsl_search 64 h z (fun _ _ n =>
    if rminex range then sle (score n) (rmin range) else slt (score n) (rmin range));
  '(x, _) ← us !! O;
  l ← lv h x 0;
  zslDeleteRange_loop (Z.to_nat (zlength z)) h z d us (forward l)
    (fun _ n => if rmaxex range then slt (score n) (rmax range) else sle (score n) (rmax range)) 0 0.

Definition zslDeleteRangeByLex (h : zheap) (z : zskiplist) (range : zlexrangespec) (d : zdict) : option (zheap * zskiplist * zdict * Z) :=
  us ← zsl_search 64 h z (fun _ _ n =>
    match obj n with Some o => negb (zslLexValueGteMin o range) | None => false end);
  '(x, _) ← us !! O;
  l ← lv h x 0;
  zslDeleteRange_loop (Z.to_nat (zlength z)) h z d us (forward l)
    (fun _ n => match obj n with Some o => zslLexValueLteMax o range | None => false end) 0 0.

Definition zslDeleteRangeByRank (h : zheap) (z : zskiplist) (start end_ : Z) (d : zdict) : option (zheap * zskiplist * zdict * Z) :=
  us ← zsl_search 64 h z (fun traversed span _ => uwrap 64 (traversed + span) <? start);
  '(x, traversed) ← us !! O;
  l ← lv h x 0;
  zslDeleteRange_loop (Z.to_nat (zlength z)) h z d us (forward l)
    (fun traversed _ => traversed <=? end_) (uwrap 64 (traversed + 1)) 0.

(** ** Ranks *)

Fixpoint zslGetRank_loop (i : nat) (fuel : nat) (h : zheap) (sc : Sc) (o : Ob) (x : ptr) (rank : Z) : option Z :=
  match i with
  | O => Some 0
  | S i =>
      '(x, rank) ← zsl_walk 64 fuel h i
        (fun _ _ n => slt (score n) sc || (seqb (score n) sc && match obj n with Some o' => cmp o' o <=? 0 | None => false end)) x rank;
      n ← h !! x;
      if (match obj n with Some o' => cmp o' o =? 0 | None => false end) then Some rank
      else zslGetRank_loop i fuel h sc o x rank
  end.

Definition zslGetRank (h : zheap) (z : zskiplist) (sc : Sc) (o : Ob) : option Z :=
  zslGetRank_loop (zlevel z) (Z.to_nat (zlength z)) h sc o (header z) 0.

Fixpoint zslGetElementByRank_loop (i : nat) (fuel : nat) (h : zheap) (rank : Z) (x : ptr) (traversed : Z) : option (option ptr) :=
  match i with
  | O => Some None
  | S i =>
      '(x, traversed) ← zsl_walk 64 fuel h i (fun traversed span _ => uwrap 64 (traversed + span) <=? rank) x traversed;
      if traversed =? rank then Some (Some x) else zslGetElementByRank_loop i fuel h rank x traversed
  end.

Definition zslGetElementByRank (h : zheap) (z : zskiplist) (rank : Z) : option (option ptr) :=
  zslGetElementByRank_loop (zlevel z) (Z.to_nat (zlength z)) h rank (header z) 0.

End Skiplist.
