(* ===== verification/SkiplistRep.v ===== *)
(** * The representation invariant of skip lists

    [zinv h z l]: the skip list [z] in the heap [h] holds the entries [l] in
    order.  At every level [i] the link leaving an entry of height more than [i]
    (or the header) is [nxt i] of the entries after it: the first entry of
    height more than [i] and the distance to it, or the distance to the end.  *)
From Stdlib Require Import Lia ZArith.
From stdpp Require Import base numbers list tactics option gmap fin_maps fin_sets.
From S2P Require Import Prelude Adlist Dict DictRep Skiplist.

#[local] Open Scope Z_scope.

Record entry {Sc Ob : Type} := mk_entry { e_ptr : ptr; e_height : nat; e_score : Sc; e_obj : Ob }.
#[global] Arguments entry : clear implicits.
#[global] Arguments mk_entry {Sc Ob} _ _ _ _.

Section Rep.
Context {Sc Ob : Type} `{HS : Score Sc} `{HO : Member Ob}.
#[local] Abbreviation zheap := (gmap ptr (@zskiplistNode Sc Ob)).
#[local] Abbreviation ent := (entry Sc Ob).
Implicit Types (h : zheap) (z : zskiplist) (l a b : list ent) (e : ent).

(** ** Positions and links *)

(** The node a prefix of the list ends in, and its height. *)
Definition cur (hd : ptr) a : ptr := match list.last a with None => hd | Some e => e_ptr e end.
Definition hgt (zl : nat) a : nat := match list.last a with None => zl | Some e => e_height e end.
Definition low (i : nat) (e : ent) : Prop := (e_height e <= i)%nat.

Fixpoint nxt (i : nat) b : zskiplistLevel :=
  match b with
  | [] => mk_level None 0
  | e :: b => if (i <? e_height e)%nat then mk_level (Some (e_ptr e)) 1
              else mk_level (forward (nxt i b)) (span (nxt i b) + 1)
  end.

(** The longest prefix ending in an entry of height more than [i]. *)
Fixpoint upto (i : nat) a : list ent :=
  match a with
  | [] => []
  | e :: a => match upto i a with
              | [] => if (i <? e_height e)%nat then [e] else []
              | r => e :: r
              end
  end.

Definition back a : option ptr := e_ptr <$> list.last a.

(** All but the contents of the levels: object, score, backward, number of levels. *)
Definition meta h (q : ptr) : option (option Ob * Sc * option ptr * nat) :=
  (fun n => (obj n, score n, backward n, length (level n))) <$> h !! q.

(** The nodes and links of a list headed by [hd] with [zl] levels. *)
Record zlinks h (hd : ptr) (zl : nat) l : Prop := {
  zi_nodup : NoDup (hd :: (e_ptr <$> l));
  zi_level : (1 <= zl <= ZSKIPLIST_MAXLEVEL)%nat;
  zi_header : exists sc bk, meta h hd = Some (None, sc, bk, ZSKIPLIST_MAXLEVEL);
  zi_high : forall i, (zl <= i < ZSKIPLIST_MAXLEVEL)%nat -> exists sp, lv h hd i = Some (mk_level None sp);
  zi_node : forall a e b, l = a ++ e :: b -> meta h (e_ptr e) = Some (Some (e_obj e), e_score e, back a, e_height e);
  zi_height : Forall (fun e => 1 <= e_height e <= zl)%nat l;
  zi_link : forall a b i, l = a ++ b -> (i < hgt zl a)%nat -> lv h (cur hd a) i = Some (nxt i b);
  zi_bound : zlen l < 2 ^ 31;
}.

Record zinv h z l : Prop := {
  zi_links : zlinks h (header z) (zlevel z) l;
  zi_tail : ztail z = back l;
  zi_length : zlength z = zlen l;
  zi_top : (1 < zlevel z)%nat -> exists e, e ∈ l /\ e_height e = zlevel z;
}.

(** ** Facts about links *)

Lemma last_snoc_eq {A} (x : list A) y : list.last (x ++ [y]) = Some y.
Proof. by rewrite last_snoc. Qed.

Lemma cur_nil hd : cur hd [] = hd. Proof. done. Qed.
Lemma cur_snoc hd a e : cur hd (a ++ [e]) = e_ptr e.
Proof. unfold cur. by rewrite last_snoc_eq. Qed.
Lemma hgt_snoc zl a e : hgt zl (a ++ [e]) = e_height e.
Proof. unfold hgt. by rewrite last_snoc_eq. Qed.
Lemma back_snoc a e : back (a ++ [e]) = Some (e_ptr e).
Proof. unfold back. by rewrite last_snoc_eq. Qed.

Lemma nxt_span i b : 0 <= span (nxt i b) <= zlen b.
Proof. induction b as [|e b IH]; cbn [nxt length]; [simpl; lia|]. case_goal; cbn [span]; lia. Qed.

Lemma nxt_low i a b : Forall (low i) a -> nxt i (a ++ b) = mk_level (forward (nxt i b)) (span (nxt i b) + zlen a).
Proof.
  induction 1 as [|e a He Ha IH]; cbn [app nxt length].
  - rewrite Z.add_0_r. by destruct (nxt i b).
  - unfold low in He. destruct (Nat.ltb_spec i (e_height e)); [lia|]. rewrite IH. cbn [forward span]. f_equal. lia.
Qed.

Lemma nxt_hit i a e b : Forall (low i) a -> (i < e_height e)%nat -> nxt i (a ++ e :: b) = mk_level (Some (e_ptr e)) (zlen a + 1).
Proof.
  intros Ha He. rewrite nxt_low by done. cbn [nxt]. destruct (Nat.ltb_spec i (e_height e)); [|lia].
  cbn [forward span]. f_equal. lia.
Qed.

Lemma nxt_end i b : Forall (low i) b -> nxt i b = mk_level None (zlen b).
Proof. intros Hb. rewrite <- (app_nil_r b), nxt_low by done. cbn. by rewrite app_nil_r. Qed.

(** Either everything ahead is lower or there is a first entry that is not. *)
Lemma low_split i b : Forall (low i) b \/ exists b1 e b2, b = b1 ++ e :: b2 /\ Forall (low i) b1 /\ (i < e_height e)%nat.
Proof.
  induction b as [|e b [IH|(b1 & e' & b2 & -> & H1 & H2)]]; [by left| |].
  - destruct (decide (i < e_height e)%nat).
    + right. by exists [], e, b.
    + left. constructor; [unfold low; lia|done].
  - destruct (decide (i < e_height e)%nat).
    + right. by exists [], e, (b1 ++ e' :: b2).
    + right. exists (e :: b1), e', b2. split; [done|]. split; [|done]. constructor; [unfold low; lia|done].
Qed.

Lemma upto_spec i a : exists r, a = upto i a ++ r /\ Forall (low i) r /\ (forall e, list.last (upto i a) = Some e -> (i < e_height e)%nat).
Proof.
  induction a as [|e a (r & Ha & Hr & Hl)]; [by exists []|]. cbn [upto].
  destruct (upto i a) as [|e' u] eqn:Eu.
  - destruct (Nat.ltb_spec i (e_height e)).
    + exists a. split; [done|]. rewrite Ha. split; [done|]. intros ? [= <-]. done.
    + exists (e :: a). split; [done|]. split; [|done]. constructor; [unfold low; lia|]. by rewrite Ha.
  - exists r. split; [by rewrite Ha at 1|]. split; [done|]. intros e0. rewrite last_cons_cons. apply Hl.
Qed.

Lemma upto_hgt i zl a : (i < zl)%nat -> (i < hgt zl (upto i a))%nat.
Proof.
  intros Hi. unfold hgt. destruct (upto_spec i a) as (r & _ & _ & Hl).
  destruct (list.last (upto i a)) as [e|]; [by apply Hl|done].
Qed.

(** [upto i a] is the only cut of [a] after a high entry with nothing high behind. *)
Lemma upto_unique i zl a1 a2 : Forall (low i) a2 -> (i < hgt zl a1)%nat -> upto i (a1 ++ a2) = a1.
Proof.
  intros Ha2. induction a1 as [|e a1 IH] using rev_ind; intros Hh.
  - cbn [app]. clear Hh. induction Ha2 as [|e a He Ha IH]; [done|]. cbn [upto]. rewrite IH. unfold low in He.
    by destruct (Nat.ltb_spec i (e_height e)); [lia|].
  - rewrite hgt_snoc in Hh. clear IH. induction a1 as [|e' a1 IH]; cbn [app upto].
    + assert (upto i a2 = []) as ->.
      { clear Hh. induction Ha2 as [|e0 a He Ha IH]; [done|]. cbn [upto]. rewrite IH. unfold low in He.
        by destruct (Nat.ltb_spec i (e_height e0)); [lia|]. }
      by destruct (Nat.ltb_spec i (e_height e)); [|lia].
    + rewrite IH. by destruct a1.
Qed.

Lemma upto_all_low i a : Forall (low i) a -> upto i a = [].
Proof. intros Ha. induction Ha as [|e a He Ha IH]; [done|]. cbn [upto]. rewrite IH. unfold low in He.
  by destruct (Nat.ltb_spec i (e_height e)); [lia|]. Qed.

(** ** Pointers name positions *)

Lemma cur_in hd a : a <> [] -> cur hd a ∈ e_ptr <$> a.
Proof.
  destruct a as [|e a _] using rev_ind; [done|]. intros _. rewrite cur_snoc, fmap_app. apply elem_of_app. right. by apply list_elem_of_singleton.
Qed.

Lemma cur_inj hd l a1 b1 a2 b2 : NoDup (hd :: (e_ptr <$> l)) -> l = a1 ++ b1 -> l = a2 ++ b2 ->
  cur hd a1 = cur hd a2 -> a1 = a2.
Proof.
  intros Hn H1 H2. assert (forall a b, l = a ++ b -> (hd :: (e_ptr <$> l)) !! length a = Some (cur hd a)) as Hpos.
  { intros a b ->. destruct a as [|e a _] using rev_ind; [done|]. rewrite cur_snoc, length_app. cbn [length].
    rewrite Nat.add_1_r, <- lookup_tail. cbn [list.tail]. rewrite list_lookup_fmap, <- app_assoc. cbn [app].
    by rewrite list_lookup_middle. }
  intros Hc. pose proof (Hpos _ _ H1) as P1. pose proof (Hpos _ _ H2) as P2. rewrite <- Hc in P2.
  pose proof (NoDup_lookup _ _ _ _ Hn P1 P2) as Hl. rewrite H1 in H2. by apply app_inj_1 in H2 as [? _].
Qed.

(** ** Searching *)

(** The test [go] holds of exactly the entries of [l] that are in its prefix [a]. *)
Definition selects (go : Z -> Z -> zskiplistNode -> bool) l a : Prop :=
  forall r1 r2 e q n, l = (r1 ++ r2) ++ e :: q -> obj n = Some (e_obj e) -> score n = e_score e ->
  go (zlen r1) (zlen r2 + 1) n = bool_decide (length (r1 ++ r2) < length a)%nat.

Definition update_at (hd : ptr) a (i : nat) : ptr * Z := (cur hd (upto i a), zlen (upto i a)).

Lemma meta_lookup h q o sc bk k : meta h q = Some (o, sc, bk, k) ->
  exists n, h !! q = Some n /\ obj n = o /\ score n = sc /\ backward n = bk /\ length (level n) = k.
Proof. unfold meta. intros (n & ? & Hn)%fmap_Some. exists n. by injection Hn as -> -> -> ->. Qed.

Lemma node_at h hd zl l a e b : zlinks h hd zl l -> l = a ++ e :: b ->
  exists n, h !! e_ptr e = Some n /\ obj n = Some (e_obj e) /\ score n = e_score e /\ backward n = back a /\ length (level n) = e_height e.
Proof. intros Hz Hl. by eapply meta_lookup, (zi_node _ _ _ _ Hz). Qed.

Lemma walk_spec w h hd zl l a b i go : zlinks h hd zl l -> l = a ++ b -> selects go l a -> 32 <= w -> forall fuel r1 r2,
  a = r1 ++ r2 -> (i < hgt zl r1)%nat -> (length r2 <= fuel)%nat ->
  zsl_walk w fuel h i go (cur hd r1) (zlen r1) = Some (update_at hd a i).
Proof.
  intros Hz Hl Hgo Hw. induction fuel as [|fuel IH]; intros r1 r2 Ha Hi Hf.
  all: assert (l = r1 ++ r2 ++ b) as Hl' by (rewrite Hl, Ha; by rewrite app_assoc).
  all: cbn [zsl_walk]; rewrite (zi_link _ _ _ _ Hz r1 (r2 ++ b) i Hl' Hi); cbn [mbind option_bind].
  all: destruct (low_split i r2) as [Hlow|(c1 & e & c2 & -> & Hlow & He)].
  all: try (cbn [length] in Hf; rewrite ?length_app in Hf; cbn [length] in Hf; lia).
  1,2: assert (upto i a = r1) as Hu by (rewrite Ha; by apply (upto_unique _ zl));
    unfold update_at; rewrite Hu;
    destruct (low_split i b) as [Hb|(c1 & e & c2 & -> & Hb & He)];
    [ rewrite (nxt_end i (r2 ++ b)) by (by apply Forall_app); reflexivity |].
  1,2: rewrite app_assoc, nxt_hit by (done || by apply Forall_app); cbn [forward span];
    destruct (node_at h hd zl l (a ++ c1) e c2 Hz) as (n & -> & Ho & Hs & _); [by rewrite Hl, <- app_assoc|]; cbn [mbind option_bind];
    rewrite (Hgo r1 (r2 ++ c1) e c2 n); [| rewrite Hl', <- !app_assoc; done | done | done];
    rewrite bool_decide_eq_false_2; [done|]; rewrite Ha, !length_app; lia.
  rewrite <- app_assoc. cbn [app]. rewrite nxt_hit by done. cbn [forward span].
  destruct (node_at h hd zl l (r1 ++ c1) e (c2 ++ b) Hz) as (n & -> & Ho & Hs & _); [by rewrite Hl', <- !app_assoc|]. cbn [mbind option_bind].
  rewrite (Hgo r1 c1 e (c2 ++ b) n); [| rewrite Hl', <- !app_assoc; done | done | done].
  rewrite bool_decide_eq_true_2 by (rewrite Ha, !length_app; cbn [length]; lia).
  assert (cur hd (r1 ++ c1 ++ [e]) = e_ptr e) as Hc by (by rewrite app_assoc, cur_snoc).
  pose proof (zi_bound _ _ _ _ Hz) as Hbd. rewrite Hl', !length_app in Hbd. cbn [length] in Hbd.
  assert (2 ^ 32 <= 2 ^ w) by (apply Z.pow_le_mono_r; lia).
  rewrite uwrap_small by lia.
  specialize (IH (r1 ++ c1 ++ [e]) c2). rewrite Hc, !length_app in IH. cbn [length] in IH.
  rewrite <- IH; [f_equal; lia | by rewrite Ha, <- !app_assoc | by rewrite app_assoc, hgt_snoc |].
  rewrite length_app in Hf. cbn [length] in Hf. lia.
Qed.

Lemma descend_spec w h hd zl l a b go fuel : (length a <= fuel)%nat -> zlinks h hd zl l -> l = a ++ b -> selects go l a -> 32 <= w -> forall i r1 r2,
  a = r1 ++ r2 -> (i <= hgt zl r1)%nat -> (i <= zl)%nat ->
  zsl_descend w fuel h i go (cur hd r1) (zlen r1) = Some (update_at hd a <$> seq 0 i).
Proof.
  intros Hf Hz Hl Hgo Hw. induction i as [|i IH]; intros r1 r2 Ha Hi Hzl; [done|].
  cbn [zsl_descend]. rewrite (walk_spec w h hd zl l a b i go Hz Hl Hgo Hw _ r1 r2) by
    (done || lia || (rewrite Ha, length_app in Hf; lia)).
  cbn [mbind option_bind]. unfold update_at at 1. destruct (upto_spec i a) as (r & Hr & _ & _).
  assert (i < hgt zl (upto i a))%nat as Hh by (apply upto_hgt; lia).
  rewrite (IH (upto i a) r) by (done || lia || auto). cbn [mbind option_bind].
  rewrite seq_S, fmap_app. done.
Qed.

(** A search returns the last node before the end of [a] at every level. *)
Lemma zsl_search_spec w h z l a b go : zinv h z l -> l = a ++ b -> selects go l a -> 32 <= w ->
  zsl_search w h z go = Some (update_at (header z) a <$> seq 0 (zlevel z)).
Proof.
  intros Hz Hl Hgo Hw. unfold zsl_search. destruct Hz as [Hz _ Hlen _].
  apply (descend_spec w h (header z) (zlevel z) l a b) with (r1 := []) (r2 := a); auto.
  rewrite Hlen, Hl, length_app. lia.
Qed.

(** ** Writing levels *)

Lemma lv_meta h q m : meta h q = Some m -> exists n, h !! q = Some n /\ m = (obj n, score n, backward n, length (level n)).
Proof. unfold meta. intros H. apply fmap_Some in H as (n & ? & ?). eauto. Qed.

(** [h'] differs from [h] at level [i] only, where the links are [f]. *)
Definition writes h i (f : ptr -> option zskiplistLevel) h' : Prop :=
  (forall q, meta h' q = meta h q) /\ (forall q, lv h' q i = f q) /\ (forall q j, j <> i -> lv h' q j = lv h q j).

Definition fset (f : ptr -> option zskiplistLevel) (p : ptr) (v : zskiplistLevel) : ptr -> option zskiplistLevel :=
  fun q => if bool_decide (q = p) then Some v else f q.

Lemma set_lv_spec h p i (w v : zskiplistLevel) : lv h p i = Some w -> exists h', set_lv h p i v = Some h' /\ writes h i (fset (fun q => lv h q i) p v) h'.
Proof.
  unfold set_lv, lv. destruct (h !! p) as [n|] eqn:En; cbn [mbind option_bind]; [|done]. intros Hl. rewrite Hl. cbn [mbind option_bind].
  eexists. split; [done|]. unfold writes, fset, meta, lv. repeat split; intros q; intros.
  - destruct (decide (q = p)) as [->|].
    + rewrite lookup_insert_eq, En. cbn. by rewrite length_insert.
    + by rewrite lookup_insert_ne.
  - case_bool_decide as Hq; [subst q|].
    + rewrite lookup_insert_eq. cbn [mbind option_bind level]. apply list_lookup_insert_eq. by eapply lookup_lt_Some.
    + by rewrite lookup_insert_ne.
  - destruct (decide (q = p)) as [->|].
    + rewrite lookup_insert_eq, En. cbn [mbind option_bind level]. by apply list_lookup_insert_ne.
    + by rewrite lookup_insert_ne.
Qed.

(** A loop over the levels changes each by what its body does there. *)
Lemma for_levels_spec (body : ptr * Z -> nat -> zheap -> option zheap)
  (pre : ptr * Z -> (ptr -> option zskiplistLevel) -> Prop) (post : ptr * Z -> (ptr -> option zskiplistLevel) -> ptr -> option zskiplistLevel) :
  (forall u i h f, (forall q, lv h q i = f q) -> pre u f -> exists h', body u i h = Some h' /\ writes h i (post u f) h') ->
  forall us i h (F : nat -> ptr -> option zskiplistLevel), (forall j q, lv h q j = F j q) ->
  (forall k u, us !! k = Some u -> pre u (F (i + k)%nat)) ->
  exists h', for_levels body us i h = Some h' /\ (forall q, meta h' q = meta h q) /\
    (forall k u q, us !! k = Some u -> lv h' q (i + k) = post u (F (i + k)%nat) q) /\
    (forall j q, (j < i \/ i + length us <= j)%nat -> lv h' q j = F j q).
Proof.
  intros Hbody. induction us as [|u us IH]; intros i h F HF Hpre.
  { exists h. repeat split; [|by intros]. intros k u q Hk. by rewrite lookup_nil in Hk. }
  cbn [for_levels]. destruct (Hbody u i h (F i)) as (h1 & -> & Hm & Hi & Hne); [by intros| |].
  { specialize (Hpre O u eq_refl). by rewrite Nat.add_0_r in Hpre. }
  cbn [mbind option_bind].
  destruct (IH (S i) h1 (fun j q => if (j =? i)%nat then post u (F i) q else F j q)) as (h2 & -> & Hm2 & Hin & Hout).
  { intros j q. destruct (Nat.eqb_spec j i) as [->|]; [done|]. rewrite Hne by done. apply HF. }
  { intros k v Hk. specialize (Hpre (S k) v Hk). destruct (Nat.eqb_spec (S i + k) i); [lia|].
    by replace (S i + k)%nat with (i + S k)%nat by lia. }
  exists h2. split; [done|]. split; [intros; by rewrite Hm2|]. split.
  - intros [|k] v q Hk.
    + injection Hk as <-. rewrite Nat.add_0_r. rewrite Hout by lia. by rewrite Nat.eqb_refl.
    + replace (i + S k)%nat with (S i + k)%nat by lia. rewrite (Hin k v q Hk).
      destruct (Nat.eqb_spec (S i + k) i); [lia|done].
  - intros j q Hj. cbn [length] in Hj. rewrite Hout by lia. destruct (Nat.eqb_spec j i); [lia|done].
Qed.

(** ** Insertion *)

Lemma hgt_le zl a : Forall (fun e => 1 <= e_height e <= zl)%nat a -> (hgt zl a <= zl)%nat.
Proof.
  intros Ha. destruct a as [|e a _] using rev_ind; [done|]. rewrite hgt_snoc.
  apply Forall_app in Ha as [_ Ha]. apply Forall_inv in Ha. lia.
Qed.

Lemma upto_0 zl a : Forall (fun e => 1 <= e_height e <= zl)%nat a -> upto 0 a = a.
Proof.
  intros Ha. destruct (upto_spec 0 a) as (r & Hr & Hlow & _). destruct r as [|e r]; [by rewrite app_nil_r in Hr|].
  rewrite Hr in Ha. apply Forall_app in Ha as [_ Ha]. apply Forall_inv in Ha, Hlow. unfold low in Hlow. cbn beta in Ha. lia.
Qed.

Lemma heights_low zl i a : (zl <= i)%nat -> Forall (fun e => 1 <= e_height e <= zl)%nat a -> Forall (low i) a.
Proof. intros Hi Ha. eapply Forall_impl; [done|]. intros e He. cbn beta in He. unfold low. lia. Qed.

Lemma node_ext h h' q : meta h' q = meta h q -> (forall j, lv h' q j = lv h q j) -> h' !! q = h !! q.
Proof.
  unfold meta, lv. intros Hm Hl. destruct (h !! q) as [[o1 s1 b1 l1]|], (h' !! q) as [[o2 s2 b2 l2]|]; try done.
  cbn in Hm. injection Hm as -> -> -> Hlen. do 2 f_equal. apply list_eq. intros i. apply (Hl i).
Qed.

Definition newlevel_post (len : Z) (u : ptr * Z) (f : ptr -> option zskiplistLevel) : ptr -> option zskiplistLevel :=
  fset f (fst u) (mk_level (w ← f (fst u); forward w) (u32 len)).

Lemma newlevel_body len u i h f : (forall q, lv h q i = f q) -> is_Some (f (fst u)) ->
  exists h', zslInsert_newlevel len u i h = Some h' /\ writes h i (newlevel_post len u f) h'.
Proof.
  intros Hf [w Hw]. unfold zslInsert_newlevel, newlevel_post. rewrite Hw, Hf, Hw. cbn [mbind option_bind]. rewrite <- Hf in Hw.
  destruct (set_lv_spec h (fst u) i w (mk_level (forward w) (u32 len)) Hw) as (h1 & -> & H1m & H1i & H1o).
  exists h1. split; [done|]. split; [done|]. split; [|done]. intros q. rewrite H1i. unfold fset. by rewrite Hf.
Qed.

(** The levels opened by a new top height. *)
Lemma newlevels_spec h hd zl zl' l : zlinks h hd zl l -> (zl <= zl' <= ZSKIPLIST_MAXLEVEL)%nat ->
  exists h1, for_levels (zslInsert_newlevel (zlen l)) (replicate (zl' - zl) (hd, 0)) zl h = Some h1 /\
    zlinks h1 hd zl' l /\ (forall q, q <> hd -> h1 !! q = h !! q).
Proof.
  intros Hz Hzl. pose proof (zi_bound _ _ _ _ Hz) as Hbd. pose proof (zi_level _ _ _ _ Hz) as Hlv.
  destruct (for_levels_spec (zslInsert_newlevel (zlen l)) (fun u f => is_Some (f (fst u))) (newlevel_post (zlen l))
    (fun u i h f => newlevel_body (zlen l) u i h f) (replicate (zl' - zl) (hd, 0)) zl h (fun j q => lv h q j))
    as (h1 & -> & Hm & Hin & Hout); [done| |].
  { intros k u Hk. apply lookup_replicate in Hk as [-> Hk].
    destruct (zi_high _ _ _ _ Hz (zl + k)%nat) as [sp Hsp]; [lia|]. cbn [fst]. rewrite Hsp. eauto. }
  rewrite length_replicate in Hout.
  assert (forall q j, q <> hd -> lv h1 q j = lv h q j) as Hne.
  { intros q j Hq. destruct (decide (zl <= j < zl')%nat).
    - replace j with (zl + (j - zl))%nat by lia. rewrite (Hin (j - zl)%nat (hd, 0)) by (apply lookup_replicate; split; [done|lia]).
      unfold newlevel_post, fset. by rewrite bool_decide_eq_false_2.
    - apply Hout. lia. }
  exists h1. split; [done|]. split; [|intros q Hq; apply node_ext; auto].
  destruct Hz as [Hnd _ Hhd Hhigh Hnode Hh Hlink _]. constructor; try done; try lia.
  - by setoid_rewrite Hm.
  - intros i Hi. rewrite Hout by lia. apply Hhigh. lia.
  - intros a e b Hl. by rewrite Hm, (Hnode a e b).
  - eapply Forall_impl; [exact Hh|]. intros e He. cbn beta in *. lia.
  - intros a b i -> Hi. destruct a as [|e a _] using rev_ind.
    + rewrite cur_nil. cbn [app] in *. destruct (decide (i < zl)%nat).
      { rewrite Hout by lia. by apply (Hlink []). }
      cbn in Hi. replace i with (zl + (i - zl))%nat at 1 by lia.
      rewrite (Hin (i - zl)%nat (hd, 0)) by (apply lookup_replicate; split; [done|lia]).
      unfold newlevel_post, fset. cbn [fst]. rewrite bool_decide_eq_true_2 by done.
      destruct (Hhigh (zl + (i - zl))%nat) as [sp ->]; [lia|]. cbn [mbind option_bind forward].
      rewrite nxt_end by (eapply heights_low; [|done]; lia). by rewrite uwrap_small by lia.
    + rewrite hgt_snoc in Hi. rewrite cur_snoc, Hne.
      * rewrite <- (cur_snoc hd a e). apply Hlink; [done|]. by rewrite hgt_snoc.
      * intros Heq. apply NoDup_cons in Hnd as [Hnd _]. apply Hnd. rewrite <- Heq, !fmap_app. set_solver.
Qed.

Lemma app_eq_insert {A} (c d a b : list A) x : c ++ d = a ++ x :: b ->
  (exists r, a = c ++ r /\ d = r ++ x :: b) \/ (exists r, c = a ++ x :: r /\ b = r ++ d).
Proof.
  revert a. induction c as [|y c IH]; intros a H; cbn [app] in H.
  - left. by exists a.
  - destruct a as [|y' a]; cbn [app] in H; injection H as -> H.
    + right. exists c. by subst b.
    + destruct (IH a H) as [(r & -> & ->)|(r & -> & ->)]; [left|right]; by exists r.
Qed.

Definition link_post (x : ptr) (rank0 : Z) (u : ptr * Z) (f : ptr -> option zskiplistLevel) (q : ptr) : option zskiplistLevel :=
  if bool_decide (q = fst u) then Some (mk_level (Some x) (u32 (rank0 - snd u + 1)))
  else if bool_decide (q = x) then (fun w => mk_level (forward w) (u32 (span w - (rank0 - snd u)))) <$> f (fst u)
  else f q.

Definition span_post (u : ptr * Z) (f : ptr -> option zskiplistLevel) (q : ptr) : option zskiplistLevel :=
  if bool_decide (q = fst u) then (fun w => mk_level (forward w) (u32 (span w + 1))) <$> f q else f q.

Lemma link_body x rank0 u i h f : (forall q, lv h q i = f q) -> fst u <> x /\ is_Some (f (fst u)) /\ is_Some (f x) ->
  exists h', zslInsert_link x rank0 u i h = Some h' /\ writes h i (link_post x rank0 u f) h'.
Proof.
  intros Hf (Hne & [w Hw] & [v Hv]). unfold zslInsert_link. rewrite Hf, Hw. cbn [mbind option_bind].
  rewrite <- Hf in Hv. destruct (set_lv_spec h x i v (mk_level (forward w) (u32 (span w - (rank0 - snd u)))) Hv) as (h1 & -> & H1m & H1i & H1o).
  cbn [mbind option_bind].
  assert (lv h1 (fst u) i = Some w) as Hw1 by (rewrite H1i; unfold fset; rewrite bool_decide_eq_false_2 by done; by rewrite Hf).
  destruct (set_lv_spec h1 (fst u) i w (mk_level (Some x) (u32 (rank0 - snd u + 1))) Hw1) as (h2 & -> & H2m & H2i & H2o).
  exists h2. split; [done|]. split; [intros; by rewrite H2m, H1m|]. split; [|intros; by rewrite H2o, H1o].
  intros q. rewrite H2i. unfold fset, link_post. case_bool_decide; [done|]. rewrite H1i. unfold fset.
  rewrite Hw. case_bool_decide; [done|]. by rewrite Hf.
Qed.

Lemma span_body u i h f : (forall q, lv h q i = f q) -> is_Some (f (fst u)) ->
  exists h', zslInsert_span u i h = Some h' /\ writes h i (span_post u f) h'.
Proof.
  intros Hf [w Hw]. unfold zslInsert_span. rewrite Hf, Hw. cbn [mbind option_bind]. rewrite <- Hf in Hw.
  destruct (set_lv_spec h (fst u) i w (mk_level (forward w) (u32 (span w + 1))) Hw) as (h1 & -> & H1m & H1i & H1o).
  exists h1. split; [done|]. split; [done|]. split; [|done]. intros q. rewrite H1i. unfold fset, span_post.
  case_bool_decide; [subst; by rewrite <- Hf, Hw|by rewrite Hf].
Qed.

Lemma cur_alive h hd zl l a b : zlinks h hd zl l -> l = a ++ b -> is_Some (h !! cur hd a).
Proof.
  intros Hz ->. destruct a as [|e a _] using rev_ind.
  - rewrite cur_nil. destruct (zi_header _ _ _ _ Hz) as (sc & bk & Hm). apply meta_lookup in Hm as (n & -> & _). eauto.
  - rewrite cur_snoc. destruct (node_at _ _ _ _ a e b Hz) as (n & -> & _); [by rewrite <- app_assoc|]. eauto.
Qed.

Lemma lv_insert_ne h x n q j : q <> x -> lv (<[x:=n]> h) q j = lv h q j.
Proof. intros. unfold lv. by rewrite lookup_insert_ne. Qed.

Lemma update_link h hd zl a b j : zlinks h hd zl (a ++ b) -> (j < zl)%nat ->
  lv h (fst (update_at hd a j)) j = Some (mk_level (forward (nxt j b)) (span (nxt j b) + (zlen a - zlen (upto j a)))).
Proof.
  intros Hz Hj. destruct (upto_spec j a) as (r & Hr & Hlow & _). cbn [update_at fst].
  rewrite (zi_link _ _ _ _ Hz (upto j a) (r ++ b) j) by (by rewrite app_assoc, <- Hr || by apply upto_hgt).
  rewrite nxt_low by done. do 2 f_equal.
  assert (zlen a = zlen (upto j a) + zlen r) by (rewrite Hr at 1; rewrite length_app; lia). lia.
Qed.

Section splice.
Context (h : zheap) (hd : ptr) (zl : nat) (a b : list ent) (x : ptr) (lvl : nat) (nx : @zskiplistNode Sc Ob).
Context (Hz : zlinks h hd zl (a ++ b)) (Hx : h !! x = None) (Hlvl : (1 <= lvl <= zl)%nat) (Hnx : length (level nx) = lvl).
Context (Hbound : zlen (a ++ b) + 1 < 2 ^ 31).

Lemma splice_fresh c d : a ++ b = c ++ d -> cur hd c <> x.
Proof. intros Hcd Hq. destruct (cur_alive _ _ _ _ _ _ Hz Hcd) as [n Hn]. rewrite Hq, Hx in Hn. done. Qed.

Lemma splice_cut j : exists r, a ++ b = upto j a ++ (r ++ b) /\ a = upto j a ++ r /\ Forall (low j) r.
Proof. destruct (upto_spec j a) as (r & Hr & Hlow & _). exists r. by rewrite app_assoc, <- Hr. Qed.

Lemma splice_loops : exists h', 
  (h ← for_levels (zslInsert_link x (zlen a)) (update_at hd a <$> seq 0 lvl) 0 (<[x:=nx]> h);
   for_levels zslInsert_span (update_at hd a <$> seq lvl (zl - lvl)) lvl h) = Some h' /\
  (forall q, meta h' q = meta (<[x:=nx]> h) q) /\
  (forall q j, lv h' q j = if (j <? lvl)%nat then link_post x (zlen a) (update_at hd a j) (fun q => lv (<[x:=nx]> h) q j) q
     else if (j <? zl)%nat then span_post (update_at hd a j) (fun q => lv (<[x:=nx]> h) q j) q else lv (<[x:=nx]> h) q j).
Proof.
  assert (forall j, (j < zl)%nat -> fst (update_at hd a j) <> x /\ is_Some (lv (<[x:=nx]> h) (fst (update_at hd a j)) j)) as Hup.
  { intros j Hj. destruct (splice_cut j) as (r & Hr & _). assert (fst (update_at hd a j) <> x) as Hne by (by eapply splice_fresh).
    split; [done|]. rewrite lv_insert_ne by done. rewrite (update_link h hd zl a b) by done. eauto. }
  destruct (for_levels_spec _ _ _ (link_body x (zlen a)) (update_at hd a <$> seq 0 lvl) 0 (<[x:=nx]> h) (fun j q => lv (<[x:=nx]> h) q j))
    as (h1 & -> & Hm1 & Hin1 & Hout1); [done| |].
  { intros k u Hk. rewrite list_lookup_fmap in Hk. apply fmap_Some in Hk as (j & Hj & ->). apply lookup_seq in Hj as [-> Hj].
    cbn [Nat.add]. destruct (Hup k) as [? ?]; [lia|]. split; [done|]. split; [done|]. unfold lv. rewrite lookup_insert_eq.
    cbn [mbind option_bind]. apply lookup_lt_is_Some. lia. }
  cbn [mbind option_bind].
  rewrite length_fmap, length_seq in Hout1.
  destruct (for_levels_spec _ _ _ span_body (update_at hd a <$> seq lvl (zl - lvl)) lvl h1 (fun j q => lv h1 q j))
    as (h2 & -> & Hm2 & Hin2 & Hout2); [done| |].
  { intros k u Hk. rewrite list_lookup_fmap in Hk. apply fmap_Some in Hk as (j & Hj & ->). apply lookup_seq in Hj as [-> Hj].
    rewrite Hout1 by lia. apply Hup. lia. }
  rewrite length_fmap, length_seq in Hout2.
  exists h2. split; [done|]. split; [intros; by rewrite Hm2|]. intros q j.
  assert (forall n m k, (n <= k < n + m)%nat -> (update_at hd a <$> seq n m) !! (k - n)%nat = Some (update_at hd a k)) as Hlk.
  { intros n m k ?. rewrite list_lookup_fmap, lookup_seq_lt by lia. cbn. do 2 f_equal. lia. }
  destruct (Nat.ltb_spec j lvl).
  { rewrite Hout2 by lia. specialize (Hin1 (j - 0)%nat _ q (Hlk O lvl j ltac:(lia))). rewrite Nat.sub_0_r in Hin1. exact Hin1. }
  destruct (Nat.ltb_spec j zl).
  - specialize (Hin2 (j - lvl)%nat _ q (Hlk lvl (zl - lvl)%nat j ltac:(lia))).
    replace (lvl + (j - lvl))%nat with j in Hin2 by lia. rewrite Hin2. unfold span_post.
    rewrite !Hout1 by lia. done.
  - rewrite Hout2, Hout1 by lia. done.
Qed.

(** The links of the list with the new entry. *)
Lemma splice_links h' e c d i :
  (forall q j, lv h' q j = if (j <? lvl)%nat then link_post x (zlen a) (update_at hd a j) (fun q => lv (<[x:=nx]> h) q j) q
     else if (j <? zl)%nat then span_post (update_at hd a j) (fun q => lv (<[x:=nx]> h) q j) q else lv (<[x:=nx]> h) q j) ->
  e_ptr e = x -> e_height e = lvl -> a ++ e :: b = c ++ d -> (i < hgt zl c)%nat -> lv h' (cur hd c) i = Some (nxt i d).
Proof.
  intros Hlv He Hh Hcd Hi. pose proof (zi_nodup _ _ _ _ Hz) as Hnd. pose proof (zi_height _ _ _ _ Hz) as Hhs.
  rewrite length_app in Hbound. pose proof (nxt_span i b) as Hsp.
  destruct (splice_cut i) as (s & Hs & Has & Hlow).
  assert (zlen a = zlen (upto i a) + zlen s) as Hzl by (rewrite Has at 1; rewrite length_app; lia).
  assert (fst (update_at hd a i) <> x) as Hux by (by eapply splice_fresh).
  pose proof (update_link h hd zl a b i Hz) as Hul.
  rewrite Hlv. destruct (app_eq_insert _ _ _ _ _ (eq_sym Hcd)) as [(r & Ha & ->)|(r & -> & Hb)].
  - (* the link leaves an old entry before the new one *)
    assert (i < zl)%nat as Hizl.
    { apply (Nat.lt_le_trans _ _ _ Hi), hgt_le. rewrite Ha, <- app_assoc in Hhs. by apply Forall_app in Hhs as [? _]. }
    specialize (Hul Hizl). assert (cur hd c <> x) as Hcx by (apply (splice_fresh c (r ++ b)); by rewrite Ha, app_assoc).
    destruct (Nat.ltb_spec i zl) as [_|]; [|lia].
    destruct (low_split i r) as [Hr|(r1 & e' & r2 & -> & Hr1 & He')].
    + assert (upto i a = c) as Hu by (rewrite Ha; by apply (upto_unique _ zl)).
      assert (s = r) as -> by (rewrite Hu, Ha in Has; by apply app_inv_head in Has).
      unfold link_post, span_post. cbn [update_at fst] in *. rewrite Hu in *. rewrite (bool_decide_eq_true_2 (cur hd c = cur hd c)) by done.
      destruct (Nat.ltb_spec i lvl).
      * rewrite nxt_hit by (done || lia). cbn [update_at snd]. rewrite He, uwrap_small by (rewrite ?Hu; lia). do 2 f_equal. rewrite Hu. lia.
      * rewrite lv_insert_ne, Hul by done. cbn [fmap option_fmap option_map]. rewrite nxt_low by done. cbn [nxt forward span].
        destruct (Nat.ltb_spec i (e_height e)); [lia|]. cbn [forward span]. rewrite uwrap_small by lia. do 2 f_equal. lia.
    + assert (cur hd c <> cur hd (upto i a)) as Hne.
      { intros Hq. eapply (cur_inj hd (a ++ b) c ((r1 ++ e' :: r2) ++ b) (upto i a) (s ++ b)) in Hq; [| done | by rewrite app_assoc, <- Ha | done].
        rewrite <- Hq in Has. rewrite Ha in Has. apply app_inv_head in Has. subst s. apply Forall_app in Hlow as [_ Hlow].
        apply Forall_inv in Hlow. unfold low in Hlow. lia. }
      assert (lv h (cur hd c) i = Some (nxt i ((r1 ++ e' :: r2) ++ b))) as Hold.
      { apply (zi_link _ _ _ _ Hz); [by rewrite app_assoc, <- Ha|done]. }
      rewrite <- !app_assoc in *. cbn [app] in *. rewrite nxt_hit in * by done.
      unfold link_post, span_post. cbn [update_at fst]. rewrite !(bool_decide_eq_false_2 (cur hd c = _)) by done.
      rewrite lv_insert_ne by done. by destruct (i <? lvl)%nat.
  - destruct r as [|e' r].
    + (* the link leaves the new entry *)
      rewrite hgt_snoc in Hi. rewrite cur_snoc, He. cbn [app] in Hb. subst d. specialize (Hul ltac:(lia)).
      destruct (Nat.ltb_spec i lvl); [|lia]. unfold link_post. rewrite bool_decide_eq_false_2 by done.
      rewrite bool_decide_eq_true_2 by done. rewrite lv_insert_ne, Hul by done. cbn [fmap option_fmap option_map forward span update_at snd].
      rewrite uwrap_small by lia. f_equal. destruct (nxt i b) as [fw sp]. cbn [forward span]. f_equal. lia.
    + (* the link leaves an old entry after the new one *)
      assert (a ++ b = (a ++ e' :: r) ++ d) as Hold by (by rewrite Hb, <- app_assoc).
      assert (cur hd (a ++ e :: e' :: r) = cur hd (a ++ e' :: r) /\ hgt zl (a ++ e :: e' :: r) = hgt zl (a ++ e' :: r)) as [Hc Hg].
      { unfold cur, hgt. rewrite !last_app, last_cons_cons. by destruct (list.last (e' :: r)) eqn:E; [|apply last_None in E]. }
      rewrite Hg in Hi. rewrite Hc. assert (cur hd (a ++ e' :: r) <> x) as Hcx by (by eapply splice_fresh).
      assert (cur hd (a ++ e' :: r) <> cur hd (upto i a)) as Hne.
      { intros Hq. eapply (cur_inj hd (a ++ b)) in Hq; [| done | exact Hold | exact Hs].
        apply (f_equal length) in Has. rewrite <- Hq, !length_app in Has. cbn [length] in Has. lia. }
      unfold link_post, span_post. cbn [update_at fst]. rewrite !(bool_decide_eq_false_2 (cur hd (a ++ e' :: r) = _)) by done.
      rewrite lv_insert_ne by done. rewrite (zi_link _ _ _ _ Hz _ d i Hold Hi). by destruct (i <? lvl)%nat, (i <? zl)%nat.
Qed.

End splice.

Definition meta_back (bk : option ptr) (m : option Ob * Sc * option ptr * nat) := let '(o, sc, _, k) := m in (o, sc, bk, k).

Lemma set_backward_spec h p bk m : meta h p = Some m -> exists h', set_backward h p bk = Some h' /\
  (forall q j, lv h' q j = lv h q j) /\ (forall q, meta h' q = if bool_decide (q = p) then Some (meta_back bk m) else meta h q).
Proof.
  intros Hm. unfold set_backward. apply lv_meta in Hm as (n & Hn & ->). rewrite Hn. cbn [mbind option_bind].
  eexists. split; [done|]. unfold lv, meta. split; intros q; intros.
  - destruct (decide (q = p)) as [->|]; [by rewrite lookup_insert_eq, Hn|by rewrite lookup_insert_ne].
  - case_bool_decide; [subst; by rewrite lookup_insert_eq|by rewrite lookup_insert_ne].
Qed.

Lemma nxt_0 b : Forall (fun e => 1 <= e_height e)%nat b -> forward (nxt 0 b) = e_ptr <$> hd_error b.
Proof.
  intros Hb. destruct b as [|e b]; [done|]. apply Forall_inv in Hb. cbn [nxt]. by destruct (Nat.ltb_spec 0 (e_height e)); [|lia].
Qed.

(** Setting the backward pointer of the first entry of [b], or the tail. *)
Lemma relink_back {A} h b (k : option ptr) (w t : A) : Forall (fun e => 1 <= e_height e)%nat b ->
  (forall e b', b = e :: b' -> is_Some (meta h (e_ptr e))) ->
  exists h', (match forward (nxt 0 b) with Some q => h ← set_backward h q k; Some (h, t) | None => Some (h, w) end)
    = Some (h', match b with [] => w | _ => t end) /\ (forall q j, lv h' q j = lv h q j) /\
  (forall q, meta h' q = if bool_decide (Some q = e_ptr <$> hd_error b) then meta_back k <$> meta h q else meta h q).
Proof.
  intros Hb Hm. rewrite nxt_0 by done. destruct b as [|e b]; cbn [hd_error fmap option_fmap option_map].
  { exists h. repeat split. }
  destruct (Hm e b eq_refl) as [m Hme]. destruct (set_backward_spec h (e_ptr e) k m Hme) as (h' & -> & Hl & Hm').
  cbn [mbind option_bind]. exists h'. split; [done|]. split; [done|]. intros q. rewrite Hm'. case_bool_decide as Hq.
  - subst q. rewrite bool_decide_eq_true_2 by done. by rewrite Hme.
  - by rewrite bool_decide_eq_false_2 by congruence.
Qed.

Lemma cons_app_middle {A} (e : A) (a b : list A) : a ++ e :: b = (a ++ [e]) ++ b.
Proof. by rewrite <- app_assoc. Qed.

(** Links and nodes of the list with [e] spliced in, from those without. *)
Lemma spliced h h' hd zl a b e : zlinks h hd zl (a ++ b) -> h !! e_ptr e = None -> (1 <= e_height e <= zl)%nat ->
  zlen (a ++ b) + 1 < 2 ^ 31 ->
  (forall c d i, a ++ e :: b = c ++ d -> (i < hgt zl c)%nat -> lv h' (cur hd c) i = Some (nxt i d)) ->
  (forall i, (zl <= i)%nat -> lv h' hd i = lv h hd i) ->
  (forall q, meta h' q = if bool_decide (q = e_ptr e) then Some (Some (e_obj e), e_score e, back a, e_height e)
     else if bool_decide (Some q = e_ptr <$> hd_error b) then meta_back (Some (e_ptr e)) <$> meta h q else meta h q) ->
  zlinks h' hd zl (a ++ e :: b).
Proof.
  intros Hz Hx Hh Hbd Hlink Hhigh Hmeta. pose proof (zi_nodup _ _ _ _ Hz) as Hnd.
  assert (forall c d, a ++ b = c ++ d -> cur hd c <> e_ptr e) as Hfr.
  { intros c d Hcd Hq. destruct (cur_alive _ _ _ _ _ _ Hz Hcd) as [n Hn]. rewrite Hq, Hx in Hn. done. }
  assert (forall q, q ∈ e_ptr <$> a ++ b -> q <> e_ptr e) as Hfresh.
  { intros q Hq. apply list_elem_of_fmap in Hq as (e' & -> & He'). apply list_elem_of_split in He' as (c & d & Hcd).
    rewrite <- (cur_snoc hd c e'). apply (Hfr _ d). by rewrite <- app_assoc. }
  constructor.
  - rewrite cons_app_middle, !fmap_app. rewrite fmap_app in Hnd. apply NoDup_cons in Hnd as [Hhd Hnd].
    apply NoDup_cons. split.
    + specialize (Hfr [] (a ++ b) eq_refl). rewrite cur_nil in Hfr. cbn. set_solver.
    + rewrite <- app_assoc. cbn [fmap list_fmap app]. rewrite <- Permutation_middle. apply NoDup_cons. split; [|done].
      rewrite <- fmap_app. intros Hin. by eapply Hfresh.
  - apply (zi_level _ _ _ _ Hz).
  - destruct (zi_header _ _ _ _ Hz) as (sc & bk & Hm). exists sc, bk. rewrite Hmeta.
    specialize (Hfr [] (a ++ b) eq_refl). rewrite cur_nil in Hfr. rewrite bool_decide_eq_false_2 by done.
    rewrite bool_decide_eq_false_2; [done|]. intros Hq. apply NoDup_cons in Hnd as [Hnd _]. apply Hnd.
    destruct b as [|e' b]; [done|]. cbn in Hq. injection Hq as ->. rewrite fmap_app. set_solver.
  - intros i Hi. rewrite Hhigh by lia. by apply (zi_high _ _ _ _ Hz).
  - intros c e' d Hcd. rewrite Hmeta. symmetry in Hcd. apply app_eq_insert in Hcd as [(r & -> & Hd)|(r & -> & ->)].
    + destruct r as [|e0 r]; cbn [app] in Hd; injection Hd as -> Hd.
      * rewrite bool_decide_eq_true_2 by done. by rewrite app_nil_r.
      * assert (e_ptr e0 <> e_ptr e) as Hne.
        { apply Hfresh. rewrite <- app_assoc, fmap_app. set_solver. }
        rewrite bool_decide_eq_false_2 by done. rewrite bool_decide_eq_false_2.
        -- apply (zi_node _ _ _ _ Hz c e0 (r ++ b)). by rewrite <- app_assoc.
        -- intros Hq. destruct b as [|e1 b]; [done|]. cbn in Hq. injection Hq as Hq. apply NoDup_cons in Hnd as [_ Hnd].
           rewrite fmap_app, fmap_app in Hnd. cbn in Hnd. rewrite Hq in Hnd. apply NoDup_app in Hnd as (_ & Hnd & _).
           apply (Hnd (e_ptr e1)); set_solver.
    + rewrite bool_decide_eq_false_2 by (apply Hfresh; rewrite fmap_app; set_solver).
      destruct r as [|e0 r]; cbn [app].
      * rewrite bool_decide_eq_true_2 by done. rewrite (zi_node _ _ _ _ Hz a e' d) by done. cbn. by rewrite back_snoc.
      * rewrite bool_decide_eq_false_2.
        -- rewrite (zi_node _ _ _ _ Hz (a ++ e0 :: r) e' d) by (by rewrite <- app_assoc). unfold back.
           rewrite !last_app, last_cons_cons. by destruct (list.last (e0 :: r)) eqn:E; [|apply last_None in E].
        -- cbn. intros [= Hq]. apply NoDup_cons in Hnd as [_ Hnd]. rewrite fmap_app in Hnd. apply NoDup_app in Hnd as (_ & _ & Hnd).
           cbn in Hnd. apply NoDup_cons in Hnd as [Hnd _]. apply Hnd. rewrite fmap_app, <- Hq. set_solver.
  - pose proof (zi_height _ _ _ _ Hz) as Hhs. apply Forall_app in Hhs as [? ?]. apply Forall_app. split; [done|]. by constructor.
  - intros. by apply Hlink.
  - rewrite length_app in *. cbn [length]. lia.
Qed.

(** Opening levels when the new height asks for them. *)
Lemma insert_levels h hd zl lvl a b : zlinks h hd zl (a ++ b) -> (1 <= lvl <= ZSKIPLIST_MAXLEVEL)%nat ->
  exists h1, (if (zl <? lvl)%nat then
      h ← for_levels (zslInsert_newlevel (zlen (a ++ b))) (replicate (lvl - zl) (hd, 0)) zl h;
      Some (h, (update_at hd a <$> seq 0 zl) ++ replicate (lvl - zl) (hd, 0), lvl)
    else Some (h, update_at hd a <$> seq 0 zl, zl)) = Some (h1, update_at hd a <$> seq 0 (Nat.max zl lvl), Nat.max zl lvl) /\
    zlinks h1 hd (Nat.max zl lvl) (a ++ b) /\ (forall q, q <> hd -> h1 !! q = h !! q).
Proof.
  intros Hz Hl. destruct (Nat.ltb_spec zl lvl).
  - rewrite Nat.max_r by lia. destruct (newlevels_spec h hd zl lvl (a ++ b) Hz) as (h1 & -> & ? & ?); [lia|].
    cbn [mbind option_bind]. exists h1. split; [|done]. do 3 f_equal.
    replace lvl with (zl + (lvl - zl))%nat at 2 by lia. rewrite seq_app, fmap_app. f_equal. cbn [Nat.add].
    apply replicate_as_Forall. split; [by rewrite length_fmap, length_seq|].
    apply Forall_fmap, Forall_seq. intros j Hj. unfold update_at. cbn. rewrite upto_all_low; [done|].
    apply (heights_low zl); [lia|]. pose proof (zi_height _ _ _ _ Hz) as Hh. by apply Forall_app in Hh as [? _].
  - rewrite Nat.max_l by lia. by exists h.
Qed.

(** [h'] differs from [h] at the nodes of the list and at [x] only. *)
Definition frame h h' (hd : ptr) l (x : ptr) : Prop :=
  forall q, q <> hd -> q ∉ e_ptr <$> l -> q <> x -> h' !! q = h !! q.

Lemma update_in hd a b j : fst (update_at hd a j) = hd \/ fst (update_at hd a j) ∈ e_ptr <$> (a ++ b).
Proof.
  cbn. destruct (upto j a) as [|e u] eqn:E; [by left|right]. destruct (upto_spec j a) as (r & -> & _).
  rewrite !fmap_app. apply elem_of_app. left. apply elem_of_app. left. rewrite E. by apply cur_in.
Qed.

Lemma back_cur hd a b : NoDup (hd :: (e_ptr <$> a ++ b)) ->
  (if bool_decide (cur hd a = hd) then None else Some (cur hd a)) = back a.
Proof.
  intros Hnd. destruct a as [|e a _] using rev_ind; [by rewrite bool_decide_eq_true_2|].
  rewrite cur_snoc, back_snoc, bool_decide_eq_false_2; [done|]. intros <-. apply NoDup_cons in Hnd as [Hnd _].
  apply Hnd. rewrite !fmap_app. set_solver.
Qed.

Lemma zslRandomLevel_range rs : (1 <= zslRandomLevel rs <= ZSKIPLIST_MAXLEVEL)%nat.
Proof.
  unfold zslRandomLevel. assert (forall n, n <= zslRandomLevel_loop rs n)%nat as Hl.
  { induction rs as [|r rs IH]; intros n; cbn; [lia|]. case_goal; [|lia]. specialize (IH (n + 1)%nat). lia. }
  specialize (Hl 1%nat). unfold ZSKIPLIST_MAXLEVEL in *. case_goal; [apply Nat.ltb_lt in E|]; lia.
Qed.

Lemma zslInsert_spec junk jb rs h z a b sc o : zinv h z (a ++ b) -> selects (fun _ _ n => precedes sc o n) (a ++ b) a ->
  zlen (a ++ b) + 1 < 2 ^ 31 ->
  exists h' z' x, zslInsert junk jb rs h z sc o = Some (h', z', x) /\ h !! x = None /\
    zinv h' z' (a ++ mk_entry x (zslRandomLevel rs) sc o :: b) /\ header z' = header z /\ frame h h' (header z) (a ++ b) x.
Proof.
  intros Hzi Hsel Hbd. pose proof Hzi as [Hz Htail Hlen Htop]. unfold zslInsert.
  pose proof (zslRandomLevel_range rs) as Hlvl. set (lvl := zslRandomLevel rs) in *.
  rewrite (zsl_search_spec 32 h z (a ++ b) a b _ Hzi eq_refl Hsel) by lia. cbn [mbind option_bind]. rewrite Hlen.
  destruct (insert_levels h (header z) (zlevel z) lvl a b Hz Hlvl) as (h1 & -> & Hz1 & Hf1). cbn [mbind option_bind].
  set (zl := Nat.max (zlevel z) lvl) in *. set (x := zalloc h1). set (e := mk_entry x lvl sc o).
  set (nx := zslCreateNode junk jb lvl sc (Some o)).
  assert (h1 !! x = None) as Hx by (apply not_elem_of_dom, is_fresh).
  assert (forall q, is_Some (h1 !! q) -> q <> x) as Hal by (intros q [? Hq] ->; congruence).
  assert (1 <= lvl <= zl)%nat as Hlz by lia.
  assert (upto 0 a = a) as Hu0.
  { apply (upto_0 zl). pose proof (zi_height _ _ _ _ Hz1) as Hh. by apply Forall_app in Hh as [? _]. }
  replace ((update_at (header z) a <$> seq 0 zl) !! 0%nat) with (Some (cur (header z) a, zlen a)) by
    (destruct zl; [lia|]; cbn; unfold update_at; by rewrite Hu0). cbn [mbind option_bind].
  rewrite <- fmap_take, <- fmap_drop, take_seq, drop_seq, Nat.min_l, Nat.add_0_l by lia.
  destruct (splice_loops h1 (header z) zl a b x lvl nx Hz1 Hx Hlz (length_replicate _ _)) as (h2 & Hloops & Hm2 & Hl2).
  fold x. fold nx. destruct (for_levels (zslInsert_link x (zlen a)) _ _ _) as [h1'|]; cbn [mbind option_bind] in Hloops |- *; [|done].
  rewrite Hloops. cbn [mbind option_bind].
  rewrite (back_cur (header z) a b) by apply Hz.
  destruct (set_backward_spec h2 x (back a) (Some o, sc, jb, lvl)) as (h3 & -> & Hl3 & Hm3).
  { rewrite Hm2. unfold meta. rewrite lookup_insert_eq. cbn. by rewrite length_replicate. }
  cbn [mbind option_bind].
  pose proof (splice_links h1 (header z) zl a b x lvl nx Hz1 Hx Hlz (length_replicate _ _) Hbd h2 e) as Hlinks.
  assert (lv h3 x 0 = Some (nxt 0 b)) as ->.
  { rewrite Hl3. specialize (Hlinks (a ++ [e]) b O Hl2 eq_refl eq_refl). rewrite cur_snoc, hgt_snoc, <- cons_app_middle in Hlinks.
    apply Hlinks; [done|]. cbn. lia. }
  cbn [mbind option_bind].
  pose proof (zi_height _ _ _ _ Hz1) as Hhb. apply Forall_app in Hhb as [Hha Hhb].
  assert (forall e0 b', b = e0 :: b' -> is_Some (meta h3 (e_ptr e0)) /\ e_ptr e0 <> x) as Hhead.
  { intros e0 b' ->. destruct (node_at _ _ _ _ a e0 b' Hz1 eq_refl) as (n & Hn & _).
    assert (e_ptr e0 <> x) by (apply Hal; eauto). split; [|done]. rewrite Hm3, bool_decide_eq_false_2 by done.
    rewrite Hm2. unfold meta. rewrite lookup_insert_ne, Hn by done. eauto. }
  destruct (relink_back h3 b (Some x) (Some x) (ztail z)) as (h4 & -> & Hl4 & Hm4).
  { eapply Forall_impl; [exact Hhb|]. intros ? Hq. apply Hq. }
  { intros. by eapply Hhead. }
  cbn [mbind option_bind].
  assert (zlinks h4 (header z) zl (a ++ e :: b)) as Hz4.
  { apply (spliced h1); try done.
    - intros c d i Hcd Hi. rewrite Hl4, Hl3. by apply (Hlinks c d i Hl2).
    - intros i Hi. rewrite Hl4, Hl3, Hl2. destruct (Nat.ltb_spec i lvl); [lia|]. destruct (Nat.ltb_spec i zl); [lia|].
      apply lv_insert_ne, Hal. rewrite <- (cur_nil (header z)). by eapply cur_alive.
    - intros q. rewrite Hm4. destruct (decide (q = x)) as [->|Hq].
      + rewrite (bool_decide_eq_true_2 (x = e_ptr e)) by done. rewrite bool_decide_eq_false_2.
        * rewrite Hm3, bool_decide_eq_true_2 by done. done.
        * destruct b as [|e0 b']; [done|]. cbn. intros [= Hq]. by apply (Hhead e0 b').
      + rewrite (bool_decide_eq_false_2 (q = e_ptr e)) by done.
        assert (meta h3 q = meta h1 q) as ->; [|done]. rewrite Hm3, bool_decide_eq_false_2, Hm2 by done.
        unfold meta. by rewrite lookup_insert_ne. }
  assert (x <> header z) as Hxh by (apply not_eq_sym, Hal; rewrite <- (cur_nil (header z)); by eapply cur_alive).
  eexists h4, _, x. split; [done|]. split; [by rewrite <- Hf1|]. split; [constructor; cbn [header zlevel ztail zlength]|split; [done|]].
  - done.
  - unfold back in *. destruct b as [|e0 b']; [by rewrite last_snoc_eq|]. rewrite Htail, !last_app, last_cons_cons.
    by destruct (list.last (e0 :: b')) eqn:E; [|apply last_None in E].
  - rewrite !length_app in *. cbn [length]. rewrite uwrap_small by lia. lia.
  - intros Hzl. destruct (decide (zlevel z < lvl)%nat).
    + exists e. split; [set_solver|]. cbn. lia.
    + destruct Htop as (e0 & He0 & ?); [lia|]. exists e0. split; [set_solver|]. lia.
  - intros q Hq Hql Hqx. rewrite <- Hf1 by done. apply node_ext.
    + rewrite Hm4, bool_decide_eq_false_2, Hm3, bool_decide_eq_false_2, Hm2 by
        first [done | destruct b; [done|]; cbn; intros [= ->]; apply Hql; rewrite fmap_app; set_solver].
      unfold meta. by rewrite lookup_insert_ne.
    + intros j. rewrite Hl4, Hl3, Hl2. destruct (update_in (header z) a b j) as [Hu|Hu];
        unfold link_post, span_post; rewrite !(bool_decide_eq_false_2 (q = _)) by (congruence || intros ->; done);
        rewrite lv_insert_ne by done; by destruct (j <? lvl)%nat, (j <? zl)%nat.
Qed.

(** ** Deletion *)

Definition del_post (x : ptr) (u : ptr * Z) (f : ptr -> option zskiplistLevel) (q : ptr) : option zskiplistLevel :=
  if bool_decide (q = fst u) then
    w ← f (fst u);
    if bool_decide (forward w = Some x) then (fun lx => mk_level (forward lx) (u32 (span w + (span lx - 1)))) <$> f x
    else Some (mk_level (forward w) (u32 (span w - 1)))
  else f q.

Lemma del_body x u i h f : (forall q, lv h q i = f q) ->
  (exists w, f (fst u) = Some w /\ (forward w = Some x -> is_Some (f x))) ->
  exists h', zslDeleteNode_level x u i h = Some h' /\ writes h i (del_post x u f) h'.
Proof.
  intros Hf (w & Hw & Hfx). unfold zslDeleteNode_level.
  assert (lv h (fst u) i = Some w) as Hlw by (by rewrite Hf). rewrite Hlw. cbn [mbind option_bind].
  assert (forall v, del_post x u f (fst u) = Some v -> exists h', set_lv h (fst u) i v = Some h' /\ writes h i (del_post x u f) h') as Hset.
  { intros v Hv. destruct (set_lv_spec h (fst u) i w v Hlw) as (h1 & -> & H1m & H1i & H1o). exists h1. split; [done|].
    split; [done|]. split; [|done]. intros q. rewrite H1i. unfold fset. case_bool_decide as Hq; [by subst|].
    unfold del_post. by rewrite bool_decide_eq_false_2, Hf. }
  unfold del_post in Hset at 1. rewrite bool_decide_eq_true_2, Hw in Hset by done. cbn [mbind option_bind] in Hset.
  case_bool_decide as Hfw.
  - destruct (Hfx Hfw) as [lx Hlx]. rewrite Hf, Hlx. cbn [mbind option_bind]. apply Hset. by rewrite Hlx.
  - by apply Hset.
Qed.

Lemma app_eq_split {A} (a b c d : list A) : a ++ b = c ++ d ->
  (exists r, a = c ++ r /\ d = r ++ b) \/ (exists (e : A) (r : list A), c = a ++ e :: r /\ b = e :: r ++ d).
Proof.
  revert a. induction c as [|y c IH]; intros a H; cbn [app] in H.
  - left. by exists a.
  - destruct a as [|y' a]; cbn [app] in H.
    + right. subst b. by exists y, c.
    + injection H as -> H. destruct (IH a H) as [(r & -> & ->)|(e & r & -> & ->)]; [left|right]; eauto.
Qed.

Lemma nxt_forward i b p : forward (nxt i b) = Some p -> p ∈ e_ptr <$> b.
Proof.
  induction b as [|e b IH]; cbn [nxt]; [done|]. case_goal; cbn [forward]; [intros [= <-]|intros ?%IH]; cbn; set_solver.
Qed.

Section unlink.
Context (h : zheap) (hd : ptr) (zl : nat) (a b : list ent) (e : ent).
Context (Hz : zlinks h hd zl (a ++ e :: b)).

Lemma unlink_ptrs : e_ptr e <> hd /\ e_ptr e ∉ e_ptr <$> (a ++ b).
Proof.
  pose proof (zi_nodup _ _ _ _ Hz) as Hnd. rewrite fmap_app in Hnd. cbn [fmap list_fmap] in Hnd.
  apply NoDup_cons in Hnd as [H1 Hnd]. rewrite <- Permutation_middle in Hnd. apply NoDup_cons in Hnd as [H2 _].
  rewrite fmap_app. split; [|done]. intros Hq. apply H1. rewrite Hq. set_solver.
Qed.

Lemma unlink_loop us : (forall j, (j < zl)%nat -> exists r, us !! j = Some (cur hd (upto j a), r)) ->
  exists h', for_levels (zslDeleteNode_level (e_ptr e)) (take zl us) 0 h = Some h' /\ (forall q, meta h' q = meta h q) /\
    (forall q j, lv h' q j = if (j <? zl)%nat then del_post (e_ptr e) (update_at hd a j) (fun q => lv h q j) q else lv h q j).
Proof.
  intros Hus. assert (zl <= length us)%nat as Hlen.
  { destruct zl as [|n]; [lia|]. destruct (Hus n) as [r Hr]; [lia|]. apply lookup_lt_Some in Hr. lia. }
  destruct (for_levels_spec _ _ _ (del_body (e_ptr e)) (take zl us) 0 h (fun j q => lv h q j))
    as (h1 & -> & Hm & Hin & Hout); [done| |].
  { intros k u Hk. apply lookup_take_Some in Hk as [Hk Hkz]. destruct (Hus k Hkz) as [r Hr]. rewrite Hr in Hk. injection Hk as <-.
    pose proof (update_link h hd zl a (e :: b) k Hz Hkz) as Hu. cbn [Nat.add fst update_at] in *. rewrite Hu.
    eexists. split; [done|]. cbn [forward nxt].
    case_goal; [|intros Hq; exfalso].
    - intros _. rewrite <- (cur_snoc hd a e). rewrite (zi_link _ _ _ _ Hz (a ++ [e]) b k); [eauto|by rewrite <- app_assoc|].
      rewrite hgt_snoc. by apply Nat.ltb_lt.
    - apply nxt_forward in Hq. apply unlink_ptrs. rewrite fmap_app. set_solver. }
  rewrite length_take, Nat.min_l in Hout by lia. exists h1. split; [done|]. split; [done|]. intros q j.
  destruct (Nat.ltb_spec j zl); [|apply Hout; lia]. destruct (Hus j) as [r Hr]; [done|].
  exact (Hin j _ q (proj2 (lookup_take_Some _ _ _ _) (conj Hr H))).
Qed.

(** The links of the list without the entry. *)
Lemma unlink_links h' c d i :
  (forall q j, lv h' q j = if (j <? zl)%nat then del_post (e_ptr e) (update_at hd a j) (fun q => lv h q j) q else lv h q j) ->
  a ++ b = c ++ d -> (i < hgt zl c)%nat -> lv h' (cur hd c) i = Some (nxt i d).
Proof.
  intros Hlv Hcd Hi. pose proof (zi_nodup _ _ _ _ Hz) as Hnd. pose proof (zi_height _ _ _ _ Hz) as Hhs.
  pose proof (zi_bound _ _ _ _ Hz) as Hbd. rewrite length_app in Hbd. cbn [length] in Hbd.
  pose proof (nxt_span i b) as Hsp. destruct (upto_spec i a) as (s & Has & Hlow & _).
  assert (zlen a = zlen (upto i a) + zlen s) as Hzl by (rewrite Has at 1; rewrite length_app; lia).
  rewrite Hlv. destruct (app_eq_split _ _ _ _ Hcd) as [(r & Ha & ->)|(e' & r & -> & ->)].
  - assert (i < zl)%nat as Hizl.
    { apply (Nat.lt_le_trans _ _ _ Hi), hgt_le. rewrite Ha, <- app_assoc in Hhs. by apply Forall_app in Hhs as [? _]. }
    destruct (Nat.ltb_spec i zl) as [_|]; [|lia].
    assert (lv h (cur hd c) i = Some (nxt i (r ++ e :: b))) as Hold.
    { apply (zi_link _ _ _ _ Hz); [by rewrite app_assoc, <- Ha|done]. }
    destruct (low_split i r) as [Hr|(r1 & e' & r2 & -> & Hr1 & He')].
    + assert (upto i a = c) as Hu by (rewrite Ha; by apply (upto_unique _ zl)).
      assert (s = r) as -> by (rewrite Hu, Ha in Has; by apply app_inv_head in Has).
      unfold del_post. cbn [update_at fst]. rewrite Hu. rewrite bool_decide_eq_true_2, Hold by done. cbn [mbind option_bind].
      destruct (low_split i [e]) as [He|([|] & e' & ? & [= <- ?] & _ & He)]; [| |destruct l; done].
      * apply Forall_inv in He. rewrite cons_app_middle, nxt_low by (apply Forall_app; by split; [|constructor]). cbn [forward span].
        rewrite bool_decide_eq_false_2.
        -- rewrite nxt_low by done. rewrite length_app. cbn [length]. rewrite uwrap_small by lia. do 2 f_equal. lia.
        -- intros Hq. apply nxt_forward in Hq. apply unlink_ptrs. rewrite fmap_app. set_solver.
      * rewrite nxt_hit by done. cbn [forward span]. rewrite bool_decide_eq_true_2 by done.
        rewrite <- (cur_snoc hd a e), (zi_link _ _ _ _ Hz (a ++ [e]) b i) by (by rewrite <- app_assoc || by rewrite hgt_snoc).
        cbn [fmap option_fmap option_map]. rewrite nxt_low by done. rewrite uwrap_small by lia. do 2 f_equal. lia.
    + assert (cur hd c <> cur hd (upto i a)) as Hne.
      { intros Hq. eapply (cur_inj hd (a ++ e :: b) c ((r1 ++ e' :: r2) ++ e :: b) (upto i a) (s ++ e :: b)) in Hq;
          [| done | by rewrite app_assoc, <- Ha | by rewrite app_assoc, <- Has].
        rewrite <- Hq, Ha in Has. apply app_inv_head in Has. subst s. apply Forall_app in Hlow as [_ Hlow].
        apply Forall_inv in Hlow. unfold low in Hlow. lia. }
      unfold del_post. cbn [update_at fst]. rewrite bool_decide_eq_false_2, Hold by done.
      rewrite <- !app_assoc. cbn [app]. by rewrite !nxt_hit.
  - assert (cur hd (a ++ e :: e' :: r) = cur hd (a ++ e' :: r) /\ hgt zl (a ++ e :: e' :: r) = hgt zl (a ++ e' :: r)) as [Hc Hg].
    { unfold cur, hgt. rewrite !last_app, last_cons_cons. by destruct (list.last (e' :: r)) eqn:E; [|apply last_None in E]. }
    rewrite <- Hg in Hi. rewrite <- Hc.
    assert (a ++ e :: e' :: r ++ d = (a ++ e :: e' :: r) ++ d) as Hold by (by rewrite <- app_assoc).
    assert (cur hd (a ++ e :: e' :: r) <> cur hd (upto i a)) as Hne.
    { intros Hq. eapply (cur_inj hd (a ++ e :: e' :: r ++ d) _ _ (upto i a) (s ++ e :: e' :: r ++ d)) in Hq;
        [| done | exact Hold | by rewrite app_assoc, <- Has].
      apply (f_equal length) in Has. rewrite <- Hq, !length_app in Has. cbn [length] in Has. lia. }
    unfold del_post. cbn [update_at fst]. rewrite bool_decide_eq_false_2 by done.
    rewrite (zi_link _ _ _ _ Hz _ d i Hold Hi). by destruct (i <? zl)%nat.
Qed.

End unlink.

(** Links and nodes without the entry, from those with it. *)
Lemma unspliced h h' hd zl a b e : zlinks h hd zl (a ++ e :: b) ->
  (forall c d i, a ++ b = c ++ d -> (i < hgt zl c)%nat -> lv h' (cur hd c) i = Some (nxt i d)) ->
  (forall i, (zl <= i)%nat -> lv h' hd i = lv h hd i) ->
  (forall q, meta h' q = if bool_decide (Some q = e_ptr <$> hd_error b) then meta_back (back a) <$> meta h q else meta h q) ->
  zlinks h' hd zl (a ++ b).
Proof.
  intros Hz Hlink Hhigh Hmeta. pose proof (zi_nodup _ _ _ _ Hz) as Hnd. destruct (unlink_ptrs _ _ _ _ _ _ Hz) as [Hhd Hin].
  constructor.
  - rewrite fmap_app in *. cbn [fmap list_fmap] in Hnd. apply NoDup_cons in Hnd as [H1 Hnd]. rewrite <- Permutation_middle in Hnd.
    apply NoDup_cons in Hnd as [_ Hnd]. apply NoDup_cons. split; [set_solver|done].
  - apply (zi_level _ _ _ _ Hz).
  - destruct (zi_header _ _ _ _ Hz) as (sc & bk & Hm). exists sc, bk. rewrite Hmeta, bool_decide_eq_false_2; [done|].
    intros Hq. apply NoDup_cons in Hnd as [Hnd _]. apply Hnd. rewrite fmap_app. destruct b; [done|]. cbn in *. injection Hq as ->. set_solver.
  - intros i Hi. rewrite Hhigh by lia. by apply (zi_high _ _ _ _ Hz).
  - intros c e' d Hcd. rewrite Hmeta. apply NoDup_cons in Hnd as [_ Hnd]. rewrite fmap_app in Hnd. cbn [fmap list_fmap] in Hnd.
    apply NoDup_app in Hnd as (_ & Hdis & Hnd). apply NoDup_cons in Hnd as [_ Hnd].
    destruct (app_eq_split _ _ _ _ Hcd) as [([|e0 r] & -> & Hd)|(e0 & r & -> & ->)]; cbn [app] in *.
    + subst b. rewrite bool_decide_eq_true_2 by done. rewrite (zi_node _ _ _ _ Hz ((c ++ []) ++ [e]) e' d) by (by rewrite <- !app_assoc).
      cbn. by rewrite app_nil_r.
    + injection Hd as -> ->. rewrite bool_decide_eq_false_2.
      * apply (zi_node _ _ _ _ Hz c e0 (r ++ e :: b)). by rewrite <- app_assoc.
      * intros Hq. destruct b as [|e1 b]; [done|]. cbn in Hq. injection Hq as Hq. apply (Hdis (e_ptr e0)).
        -- rewrite fmap_app. set_solver.
        -- rewrite Hq. set_solver.
    + rewrite bool_decide_eq_false_2.
      * rewrite (zi_node _ _ _ _ Hz (a ++ e :: e0 :: r) e' d) by (by rewrite <- app_assoc). unfold back.
        rewrite !last_app, last_cons_cons. by destruct (list.last (e0 :: r)) eqn:E; [|apply last_None in E].
      * cbn. intros [= Hq]. cbn in Hnd. apply NoDup_cons in Hnd as [Hnd _]. apply Hnd. rewrite fmap_app, <- Hq. set_solver.
  - pose proof (zi_height _ _ _ _ Hz) as Hhs. apply Forall_app in Hhs as [? Hhs]. apply Forall_cons_1 in Hhs as [_ ?]. by apply Forall_app.
  - done.
  - pose proof (zi_bound _ _ _ _ Hz) as Hbd. rewrite length_app in *. cbn [length] in *. lia.
Qed.

Lemma header_none h hd zl l i w : zlinks h hd zl l -> (i < zl)%nat -> lv h hd i = Some w ->
  (forward w = None <-> Forall (low i) l).
Proof.
  intros Hz Hi Hw. rewrite <- (cur_nil hd), (zi_link _ _ _ _ Hz [] l i) in Hw by done. injection Hw as <-.
  destruct (low_split i l) as [Hl|(b1 & e & b2 & -> & H1 & H2)].
  - by rewrite nxt_end.
  - rewrite nxt_hit by done. split; [done|]. intros Hl. apply Forall_app in Hl as [_ Hl]. apply Forall_inv in Hl. unfold low in Hl. lia.
Qed.

(** The levels left when nothing reaches the top ones. *)
Lemma shrink_spec h hd zl l : zlinks h hd zl l -> forall n, (1 <= n <= zl)%nat -> Forall (fun e => 1 <= e_height e <= n)%nat l ->
  exists zl', zslDeleteNode_shrink n h hd = Some zl' /\ (1 <= zl' <= n)%nat /\
    Forall (fun e => 1 <= e_height e <= zl')%nat l /\ ((1 < zl')%nat -> exists e, e ∈ l /\ e_height e = zl').
Proof.
  intros Hz. induction n as [|n IH]; intros Hn Hl; [lia|]. cbn [zslDeleteNode_shrink]. destruct n as [|n].
  { exists 1%nat. repeat split; auto; lia. }
  destruct (lv h hd (S n)) as [w|] eqn:Hw; cbn [mbind option_bind].
  2: { rewrite <- (cur_nil hd), (zi_link _ _ _ _ Hz [] l) in Hw; [done|done|]. cbn. lia. }
  destruct (forward w) eqn:Hf.
  - exists (S (S n)). repeat split; auto; try lia. intros _. pose proof (header_none h hd zl l (S n) w Hz ltac:(lia) Hw) as Hn'.
    destruct (low_split (S n) l) as [Hlow|(b1 & e & b2 & -> & _ & He)]; [apply Hn' in Hlow; congruence|].
    exists e. split; [set_solver|]. apply Forall_app in Hl as [_ Hl]. apply Forall_inv in Hl. cbn beta in Hl. lia.
  - apply (header_none h hd zl l (S n) w Hz) in Hf; [|lia|done].
    destruct IH as (zl' & -> & ? & ? & ?); [lia| |].
    + apply Forall_forall. intros e He. rewrite Forall_forall in Hf, Hl. specialize (Hf e He). specialize (Hl e He). unfold low in Hf.
      cbn beta in *. lia.
    + exists zl'. repeat split; auto; lia.
Qed.

Lemma zlinks_level h hd zl zl' l : zlinks h hd zl l -> (1 <= zl' <= zl)%nat -> Forall (fun e => 1 <= e_height e <= zl')%nat l ->
  zlinks h hd zl' l.
Proof.
  intros Hz Hl Hh. destruct Hz as [H1 H2 H3 H4 H5 H6 H7 H8]. constructor; try done; try lia.
  - intros i Hi. destruct (decide (zl <= i)%nat); [apply H4; lia|]. exists (zlen l).
    rewrite <- (cur_nil hd), (H7 [] l i) by (done || cbn; lia). by rewrite nxt_end by (eapply heights_low; [|done]; lia).
  - intros c d i Hcd Hi. apply H7; [done|]. apply (Nat.lt_le_trans _ _ _ Hi). destruct c as [|e c _] using rev_ind; [cbn; lia|].
    rewrite !hgt_snoc. done.
Qed.

(** [us] still names, at the levels of [z], the nodes before [a]'s end. *)
Definition updates_ok z (us : list (ptr * Z)) a : Prop :=
  forall j, (j < zlevel z)%nat -> exists r, us !! j = Some (cur (header z) (upto j a), r).

Lemma search_updates z a : updates_ok z (update_at (header z) a <$> seq 0 (zlevel z)) a.
Proof. intros j Hj. exists (zlen (upto j a)). by rewrite list_lookup_fmap, lookup_seq_lt by done. Qed.

Lemma deleteNode_spec h z a e b us : zinv h z (a ++ e :: b) -> updates_ok z us a ->
  exists h' z', zslDeleteNode h z (e_ptr e) us = Some (h', z') /\ zinv h' z' (a ++ b) /\ header z' = header z /\
    updates_ok z' us a /\ (forall q, q <> header z -> q ∉ e_ptr <$> (a ++ b) -> q <> e_ptr e -> h' !! q = h !! q).
Proof.
  intros [Hz Htail Hlen Htop] Hus. unfold zslDeleteNode.
  destruct (unlink_loop h (header z) (zlevel z) a b e Hz us Hus) as (h1 & -> & Hm1 & Hl1). cbn [mbind option_bind].
  destruct (unlink_ptrs _ _ _ _ _ _ Hz) as [Hxh Hxl].
  pose proof (zi_height _ _ _ _ Hz) as Hhs. apply Forall_app in Hhs as [Hha Hhb]. apply Forall_cons_1 in Hhb as [Hhe Hhb].
  destruct (meta_lookup h1 (e_ptr e) _ _ _ _ (eq_trans (Hm1 _) (zi_node _ _ _ _ Hz a e b eq_refl))) as (n & Hn & _ & _ & Hbk & Hlv).
  rewrite Hn. cbn [mbind option_bind].
  assert (lv h1 (e_ptr e) 0 = Some (nxt 0 b)) as Hn0.
  { rewrite Hl1. destruct (update_in (header z) a b 0) as [Hu|Hu]; unfold del_post;
      rewrite (bool_decide_eq_false_2 (e_ptr e = _)) by (congruence || intros Hq; by rewrite Hq in Hxl);
      rewrite <- (cur_snoc (header z) a e), (zi_link _ _ _ _ Hz (a ++ [e]) b 0) by first [by rewrite <- app_assoc | rewrite hgt_snoc; lia];
      by destruct (0 <? zlevel z)%nat. }
  unfold lv in Hn0. rewrite Hn in Hn0. cbn [mbind option_bind] in Hn0. rewrite Hn0. cbn [mbind option_bind]. rewrite Hbk.
  destruct (relink_back h1 b (back a) (back a) (ztail z)) as (h2 & -> & Hl2 & Hm2).
  { eapply Forall_impl; [exact Hhb|]. intros ? Hq. apply Hq. }
  { intros e0 b' ->. rewrite Hm1, (zi_node _ _ _ _ Hz (a ++ [e]) e0 b') by (by rewrite <- app_assoc). eauto. }
  cbn [mbind option_bind].
  assert (zlinks h2 (header z) (zlevel z) (a ++ b)) as Hz2.
  { apply (unspliced h h2 _ _ _ _ e Hz).
    - intros c d i Hcd Hi. rewrite Hl2. by apply (unlink_links h _ _ a b e Hz h1).
    - intros i Hi. rewrite Hl2, Hl1. by destruct (Nat.ltb_spec i (zlevel z)); [lia|].
    - intros q. rewrite Hm2. by rewrite Hm1. }
  destruct (shrink_spec h2 (header z) (zlevel z) (a ++ b) Hz2 (zlevel z)) as (zl' & -> & Hzl' & Hh' & Htop').
  { pose proof (zi_level _ _ _ _ Hz). lia. }
  { by apply Forall_app. }
  cbn [mbind option_bind]. eexists _, _. split; [done|].
  split; [constructor; cbn [header zlevel ztail zlength]|split; [done|split]].
  - by apply (zlinks_level _ _ (zlevel z)).
  - unfold back in *. destruct b as [|e0 b']; [by rewrite app_nil_r|]. rewrite Htail, !last_app, last_cons_cons.
    by destruct (list.last (e0 :: b')) eqn:E; [|apply last_None in E].
  - pose proof (zi_bound _ _ _ _ Hz). rewrite !length_app in *. cbn [length] in *. rewrite uwrap_small by lia. lia.
  - done.
  - intros j Hj. cbn [zlevel header] in *. apply Hus. lia.
  - intros q Hq Hql Hqx. apply node_ext.
    + rewrite Hm2, bool_decide_eq_false_2, Hm1 by first [done | destruct b; [done|]; cbn; intros [= ->]; apply Hql; rewrite fmap_app; set_solver].
      done.
    + intros j. rewrite Hl2, Hl1. destruct (update_in (header z) a b j) as [Hu|Hu]; unfold del_post;
        rewrite (bool_decide_eq_false_2 (q = _)) by (congruence || intros ->; done); by destruct (j <? zlevel z)%nat.
Qed.

(** Nodes that are not in the list can be freed. *)
Lemma zinv_frame h h' z l : zinv h z l -> (forall q, q ∈ header z :: (e_ptr <$> l) -> h' !! q = h !! q) -> zinv h' z l.
Proof.
  intros [Hz Ht Hl Htop] Hq. constructor; try done.
  assert (forall q, q ∈ header z :: (e_ptr <$> l) -> meta h' q = meta h q) as Hm by (intros; unfold meta; by rewrite Hq).
  assert (forall q i, q ∈ header z :: (e_ptr <$> l) -> lv h' q i = lv h q i) as Hlv by (intros; unfold lv; by rewrite Hq).
  destruct Hz as [H1 H2 H3 H4 H5 H6 H7 H8]. constructor; try done.
  - rewrite Hm by set_solver. done.
  - intros i Hi. rewrite Hlv by set_solver. by apply H4.
  - intros a e b ->. rewrite Hm; [by apply (H5 a e b)|]. rewrite fmap_app. set_solver.
  - intros a b i -> Hi. rewrite Hlv; [by apply H7|]. destruct a as [|e a _] using rev_ind; [cbn; set_solver|].
    rewrite cur_snoc, !fmap_app. set_solver.
Qed.

End Rep.
