(* ===== verification/SkiplistOps.v ===== *)
(** * Operations on skip lists against sorted lists

    Insertion, deletion, ranks and ranges of the skip lists of t_zset.c, proved
    against plain lists sorted by score and member. *)
From Stdlib Require Import Lia ZArith Sorted SpecFloat.
From stdpp Require Import base numbers list sorting tactics option gmap fin_maps fin_sets.
From S2P Require Import Prelude Adlist Dict DictRep Skiplist SkiplistRep.

#[local] Open Scope Z_scope.

(** ** Scores as an order *)
Section Order.
Context {Sc Ob : Type} `{HS : Score Sc} `{HO : Member Ob}.
Implicit Types (x y : Sc * Ob).

Lemma slt_irrefl a : slt a a = false.
Proof. destruct (slt a a) eqn:E; [|done]. apply slt_not_seqb in E. by rewrite seqb_refl in E. Qed.

Lemma slt_sle a b : slt a b = negb (sle b a).
Proof.
  unfold sle. destruct (slt_total a b) as [H|[H|H]].
  - rewrite H, (slt_asym _ _ H). cbn. destruct (seqb b a) eqn:E; [|done]. apply seqb_sym in E.
    apply slt_not_seqb in H. congruence.
  - rewrite (seqb_sym _ _ H), orb_true_r. destruct (slt a b) eqn:E; [|done]. by rewrite (slt_not_seqb _ _ E) in H.
  - rewrite H. by rewrite (slt_asym _ _ H).
Qed.

(** The order of a sorted set: by score, then by member. *)
Definition kless x y : bool := slt x.1 y.1 || (seqb x.1 y.1 && (cmp x.2 y.2 <? 0)).
Definition keq x y : bool := seqb x.1 y.1 && (cmp x.2 y.2 =? 0).

Lemma kless_trans x y z : kless x y = true -> kless y z = true -> kless x z = true.
Proof.
  unfold kless. rewrite !orb_true_iff, !andb_true_iff, !Z.ltb_lt. intros [H1|[H1 H1']] [H2|[H2 H2']].
  - left. by eapply slt_trans.
  - left. by eapply slt_seqb.
  - left. by eapply seqb_slt.
  - right. split; [by eapply seqb_trans|by eapply cmp_trans].
Qed.

Lemma kless_total x y : kless x y = true \/ keq x y = true \/ kless y x = true.
Proof.
  unfold kless, keq. rewrite !orb_true_iff, !andb_true_iff, !Z.ltb_lt, Z.eqb_eq.
  destruct (slt_total x.1 y.1) as [?|[Hs|?]]; [auto| |auto].
  destruct (Z.lt_trichotomy (cmp x.2 y.2) 0) as [?|[?|Hc]]; [auto|auto|].
  right. right. right. split; [by apply seqb_sym|]. by apply cmp_sym in Hc.
Qed.

Lemma kless_not x y : kless x y = true -> keq x y = false /\ kless y x = false.
Proof.
  unfold kless, keq. rewrite orb_true_iff, andb_true_iff, Z.ltb_lt. intros [H|[H1 H2]].
  - pose proof (slt_not_seqb _ _ H) as Hn. rewrite Hn. split; [done|]. rewrite (slt_asym _ _ H).
    destruct (seqb y.1 x.1) eqn:E; [|done]. apply seqb_sym in E. congruence.
  - rewrite H1. zfalse (cmp x.2 y.2 =? 0). split; [done|]. apply orb_false_iff. split.
    + destruct (slt y.1 x.1) eqn:E; [|done]. apply slt_not_seqb in E. apply seqb_sym in H1. congruence.
    + apply andb_false_iff. right. apply cmp_sym in H2. apply Z.ltb_ge. lia.
Qed.

Lemma keq_left x y z : keq x y = true -> kless y z = true -> kless x z = true.
Proof.
  unfold keq, kless. rewrite !orb_true_iff, !andb_true_iff, Z.eqb_eq, !Z.ltb_lt, cmp_eq. intros [H1 ->] [H2|[H2 H3]].
  - left. by eapply seqb_slt.
  - right. split; [by eapply seqb_trans|done].
Qed.
Lemma keq_right x y z : kless x y = true -> keq y z = true -> kless x z = true.
Proof.
  unfold keq, kless. rewrite !orb_true_iff, !andb_true_iff, Z.eqb_eq, !Z.ltb_lt, cmp_eq. intros [H2|[H2 H3]] [H1 <-].
  - left. by eapply slt_seqb.
  - right. split; [by eapply seqb_trans|done].
Qed.
Lemma keq_sym x y : keq x y = true -> keq y x = true.
Proof. unfold keq. rewrite !andb_true_iff, !Z.eqb_eq, !cmp_eq. intros [? ->]. split; [by apply seqb_sym|done]. Qed.

(** [x] is not after [y]. *)
Definition kle x y : Prop := kless y x = false.

Lemma kle_trans x y z : kle x y -> kle y z -> kle x z.
Proof.
  unfold kle. intros H1 H2. destruct (kless z x) eqn:E; [|done].
  destruct (kless_total x y) as [H|[H|H]]; [| |congruence].
  - by rewrite (kless_trans _ _ _ E H) in H2.
  - by rewrite (keq_right _ _ _ E H) in H2.
Qed.

End Order.

(** ** Cutting a sorted list *)
Section Cut.
Context {A : Type} (p : A -> bool).

Fixpoint taken (l : list A) : list A := match l with x :: l => if p x then x :: taken l else [] | [] => [] end.
Fixpoint dropped (l : list A) : list A := match l with x :: l' => if p x then dropped l' else l | [] => [] end.

Lemma taken_dropped l : l = taken l ++ dropped l.
Proof. induction l as [|x l IH]; cbn; [done|]. destruct (p x); cbn; [by rewrite <- IH|done]. Qed.

Lemma taken_all l : Forall (fun x => p x = true) (taken l).
Proof. induction l as [|x l IH]; cbn; [done|]. destruct (p x) eqn:E; [|done]. by constructor. Qed.

(** [p] holds of a prefix. *)
Definition downward (l : list A) : Prop := forall a x b y c, l = a ++ x :: b ++ y :: c -> p y = true -> p x = true.

Lemma downward_cons x l : downward (x :: l) -> downward l.
Proof. intros Hd a u b v c Hl. apply (Hd (x :: a) u b v c). by rewrite Hl. Qed.

Lemma dropped_none l : downward l -> Forall (fun x => p x = false) (dropped l).
Proof.
  induction l as [|x l IH]; intros Hd; cbn; [done|]. destruct (p x) eqn:E; [by apply IH, (downward_cons x)|].
  constructor; [done|]. apply Forall_forall. intros y Hy. apply list_elem_of_split in Hy as (b & c & ->).
  destruct (p y) eqn:Ey; [|done]. rewrite (Hd [] x b y c eq_refl Ey) in E. done.
Qed.

Lemma cut_unique l a b : l = a ++ b -> Forall (fun x => p x = true) a -> Forall (fun x => p x = false) b -> a = taken l /\ b = dropped l.
Proof.
  intros ->. intros Ha Hb. induction Ha as [|x a Hx Ha IH]; cbn.
  - destruct Hb as [|x b Hx Hb]; cbn; [done|]. by rewrite Hx.
  - rewrite Hx. destruct IH as [<- <-]. done.
Qed.

Lemma filter_cut l : downward l -> List.filter p l = taken l /\ List.filter (fun x => negb (p x)) l = dropped l.
Proof.
  induction l as [|x l IH]; intros Hd; [done|]. pose proof (dropped_none _ Hd) as Hn. cbn in *. destruct (p x) eqn:E.
  - cbn. destruct IH as [-> ->]; [by apply (downward_cons x)|]. done.
  - cbn. apply Forall_cons_1 in Hn as [_ Hn]. clear IH Hd. induction Hn as [|y l Hy Hn IHn]; [done|]. cbn. rewrite Hy. cbn.
    destruct IHn as [-> [= ->]]. done.
Qed.
End Cut.

(** ** Insertion and deletion *)
Section Update.
Context {Sc Ob : Type} `{HS : Score Sc} `{HO : Member Ob}.
#[local] Abbreviation zheap := (gmap ptr (@zskiplistNode Sc Ob)).
#[local] Abbreviation ent := (entry Sc Ob).
Implicit Types (h : zheap) (z : zskiplist) (l a b : list ent) (e : ent).

Definition ekey e : Sc * Ob := (e_score e, e_obj e).
Definition sorted (ks : list (Sc * Ob)) : Prop := StronglySorted kle ks.

Lemma selects_taken (go : Z -> Z -> zskiplistNode -> bool) (p : ent -> bool) l : downward p l ->
  (forall e n, e ∈ l -> obj n = Some (e_obj e) -> score n = e_score e -> forall r s, go r s n = p e) ->
  selects go l (taken p l).
Proof.
  intros Hd Hgo r1 r2 e q n Hl Ho Hs. rewrite (Hgo e) by (done || (rewrite Hl; set_solver)).
  pose proof (taken_dropped p l) as Htd. pose proof (taken_all p l) as Ht. pose proof (dropped_none p l Hd) as Hn.
  assert (l !! length (r1 ++ r2) = Some e) as He by (by rewrite Hl, list_lookup_middle). rewrite Htd in He.
  case_bool_decide as Hlt.
  - rewrite lookup_app_l in He by done. by eapply Forall_lookup_1 in Ht.
  - rewrite lookup_app_r in He by lia. by eapply Forall_lookup_1 in Hn.
Qed.

Lemma sorted_split (ks : list (Sc * Ob)) (x y : Sc * Ob) (a b c : list (Sc * Ob)) : sorted ks -> ks = a ++ x :: b ++ y :: c -> kle x y.
Proof.
  intros Hs ->. apply StronglySorted_app_1_r in Hs. apply StronglySorted_inv in Hs as [_ Hs].
  rewrite Forall_forall in Hs. apply Hs. set_solver.
Qed.

(** A test that follows the order holds of a prefix. *)
Lemma sorted_downward (p : Sc * Ob -> bool) l : sorted (ekey <$> l) ->
  (forall x y, kle x y -> p y = true -> p x = true) -> downward (fun e => p (ekey e)) l.
Proof.
  intros Hs Hp a x b y c -> Hy. eapply Hp, Hy. eapply (sorted_split _ _ _ (ekey <$> a) (ekey <$> b) (ekey <$> c) Hs).
  by rewrite fmap_app, fmap_cons, fmap_app, fmap_cons.
Qed.

Lemma kless_downward (k x y : Sc * Ob) : kle x y -> kless y k = true -> kless x k = true.
Proof.
  unfold kle. intros H1 H2. destruct (kless_total x y) as [H|[H|H]]; [by eapply kless_trans|by eapply keq_left|congruence].
Qed.

Lemma precedes_key sc o n e : obj n = Some (e_obj e) -> score n = e_score e -> precedes sc o n = kless (ekey e) (sc, o).
Proof. intros Ho Hs. unfold precedes, kless. by rewrite Ho, Hs. Qed.

(** The list operations. *)
Definition kins (k : Sc * Ob) (ks : list (Sc * Ob)) : list (Sc * Ob) :=
  taken (fun x => kless x k) ks ++ k :: dropped (fun x => kless x k) ks.
Definition kdel (k : Sc * Ob) (ks : list (Sc * Ob)) : list (Sc * Ob) :=
  taken (fun x => kless x k) ks ++
  match dropped (fun x => kless x k) ks with x :: r => if keq k x then r else x :: r | [] => [] end.
Definition kmem (k : Sc * Ob) (ks : list (Sc * Ob)) : bool := existsb (keq k) ks.

Lemma taken_fmap (p : Sc * Ob -> bool) l : ekey <$> taken (fun e => p (ekey e)) l = taken p (ekey <$> l).
Proof. induction l as [|e l IH]; cbn; [done|]. destruct (p (ekey e)); [|done]. cbn. f_equal. apply IH. Qed.
Lemma dropped_fmap (p : Sc * Ob -> bool) l : ekey <$> dropped (fun e => p (ekey e)) l = dropped p (ekey <$> l).
Proof. induction l as [|e l IH]; cbn; [done|]. destruct (p (ekey e)); [apply IH|done]. Qed.

Lemma sorted_kins k ks : sorted ks -> sorted (kins k ks).
Proof.
  intros Hs. unfold kins. assert (downward (fun x => kless x k) ks) as Hd.
  { intros a x b y c Hl Hy. eapply kless_downward, Hy. by eapply sorted_split. }
  pose proof (taken_all (fun x => kless x k) ks) as Ht. pose proof (dropped_none _ _ Hd) as Hn.
  rewrite (taken_dropped (fun x => kless x k) ks) in Hs. apply StronglySorted_app in Hs as (Hc & Hs1 & Hs2).
  apply StronglySorted_app. split; [|split; [done|]].
  - intros x y Hx Hy. rewrite Forall_forall in Ht. specialize (Ht x Hx). cbn beta in Ht. apply elem_of_cons in Hy as [->|Hy].
    + by apply kless_not in Ht as [_ ?].
    + by apply Hc.
  - apply SSorted_cons; [done|]. eapply Forall_impl; [exact Hn|]. by intros x Hx.
Qed.

Lemma sublist_sorted ks ks' : sublist ks' ks -> sorted ks -> sorted ks'.
Proof.
  unfold sorted. induction 1 as [|x l1 l2 Hs IH|x l1 l2 Hs IH]; intros Hk; [done| |].
  - apply StronglySorted_inv in Hk as [H1 H2]. apply SSorted_cons; [auto|]. rewrite Forall_forall in *. intros y Hy. apply H2.
    by eapply elem_of_sublist.
  - apply StronglySorted_inv in Hk as [H1 _]. auto.
Qed.

Lemma kdel_sublist k ks : sublist (kdel k ks) ks.
Proof.
  unfold kdel. rewrite (taken_dropped (fun x => kless x k) ks) at 3. apply sublist_app; [done|].
  destruct (dropped _ ks) as [|x r]; [done|]. destruct (keq k x); [by apply sublist_cons|done].
Qed.

Lemma cmp0_sym (a b : Ob) : (cmp a b =? 0) = (cmp b a =? 0).
Proof. apply Bool.eq_true_iff_eq. rewrite !Z.eqb_eq, !cmp_eq. by split. Qed.

Lemma updates_head h z l a b : zinv h z l -> l = a ++ b ->
  (update_at (header z) a <$> seq 0 (zlevel z)) !! 0%nat = Some (cur (header z) a, zlen a).
Proof.
  intros [Hz _ _ _] ->. pose proof (zi_level _ _ _ _ Hz). pose proof (zi_height _ _ _ _ Hz) as Hh. apply Forall_app in Hh as [Hh _].
  rewrite list_lookup_fmap, lookup_seq_lt by lia. cbn. unfold update_at. by rewrite (upto_0 (zlevel z)).
Qed.

Lemma link0 h z l a b : zinv h z l -> l = a ++ b ->
  lv h (cur (header z) a) 0 = Some (mk_level (e_ptr <$> hd_error b) (span (nxt 0 b))).
Proof.
  intros [Hz _ _ _] Hl. pose proof (zi_level _ _ _ _ Hz). pose proof (zi_height _ _ _ _ Hz) as Hh. rewrite Hl in Hh.
  apply Forall_app in Hh as [Ha Hb].
  rewrite (zi_link _ _ _ _ Hz a b 0 Hl).
  - rewrite <- nxt_0; [by destruct (nxt 0 b)|]. eapply Forall_impl; [exact Hb|]. intros ? Hq. apply Hq.
  - destruct a as [|e a _] using rev_ind; [cbn; lia|]. rewrite hgt_snoc. apply Forall_app in Ha as [_ Ha].
    apply Forall_inv in Ha. cbn beta in Ha. lia.
Qed.

(** In a sorted list an entry can only be at the head of the entries not before it. *)
Lemma kmem_sorted k (ks : list (Sc * Ob)) : sorted ks ->
  kmem k ks = match dropped (fun x => kless x k) ks with x :: _ => keq k x | [] => false end.
Proof.
  intros Hs. assert (forall x, kless x k = true -> keq k x = false) as Hne.
  { intros x Hx. apply kless_not in Hx as [Hx _]. destruct (keq k x) eqn:E; [|done]. apply keq_sym in E. congruence. }
  unfold kmem. induction ks as [|x ks IH]; [done|]. apply StronglySorted_inv in Hs as [Hs Hx]. cbn [existsb dropped].
  destruct (kless x k) eqn:Ex; [by rewrite (Hne x Ex), (IH Hs)|]. destruct (keq k x) eqn:Ek; [done|]. cbn [orb].
  assert (kless k x = true) as Hkx by (destruct (kless_total k x) as [?|[?|?]]; congruence).
  apply Bool.not_true_iff_false. intros Hq. apply existsb_exists in Hq as (y & Hy & Hky). apply list_elem_of_In in Hy.
  rewrite Forall_forall in Hx. specialize (Hx y Hy). unfold kle in Hx. apply keq_sym in Hky.
  by rewrite (keq_left y k x Hky Hkx) in Hx.
Qed.

Lemma insert_sorted junk jb rs h z l sc o : zinv h z l -> sorted (ekey <$> l) -> zlen l + 1 < 2 ^ 31 ->
  exists h' z' x l', zslInsert junk jb rs h z sc o = Some (h', z', x) /\ h !! x = None /\ zinv h' z' l' /\
    ekey <$> l' = kins (sc, o) (ekey <$> l) /\ header z' = header z /\ e_ptr <$> l' ≡ₚ x :: (e_ptr <$> l) /\
    frame h h' (header z) l x.
Proof.
  intros Hz Hs Hb. set (p := fun e => kless (ekey e) (sc, o)).
  assert (downward p l) as Hd by (apply (sorted_downward (fun k => kless k (sc, o))); [done|]; intros; by eapply kless_downward).
  assert (selects (fun _ _ n => precedes sc o n) l (taken p l)) as Hsel.
  { apply selects_taken; [done|]. intros e n _ Ho Hsc _ _. by apply precedes_key. }
  pose proof (taken_dropped p l) as Htd. rewrite Htd in Hz, Hb, Hsel at 1.
  destruct (zslInsert_spec junk jb rs h z _ _ sc o Hz Hsel Hb) as (h' & z' & x & -> & Hx & Hz' & Hh & Hf).
  exists h', z', x, (taken p l ++ mk_entry x (zslRandomLevel rs) sc o :: dropped p l). split; [done|]. split; [done|]. split; [done|].
  split; [|split; [done|split]].
  - rewrite fmap_app, fmap_cons. unfold kins. by rewrite <- taken_fmap, <- dropped_fmap.
  - rewrite Htd at 3. by rewrite !fmap_app, fmap_cons, <- Permutation_middle.
  - by rewrite <- Htd in Hf.
Qed.

Lemma delete_sorted h z l sc o : zinv h z l -> sorted (ekey <$> l) ->
  exists h' z' l', zslDelete h z sc o = Some (h', z', kmem (sc, o) (ekey <$> l)) /\ zinv h' z' l' /\
    ekey <$> l' = kdel (sc, o) (ekey <$> l) /\ header z' = header z /\
    (forall q, q ∉ header z :: (e_ptr <$> l) -> h' !! q = h !! q) /\
    sublist (e_ptr <$> l') (e_ptr <$> l) /\ (forall q, q ∈ e_ptr <$> l -> q ∉ e_ptr <$> l' -> h' !! q = None).
Proof.
  intros Hz Hs. set (p := fun e => kless (ekey e) (sc, o)).
  assert (downward p l) as Hd by (apply (sorted_downward (fun k => kless k (sc, o))); [done|]; intros; by eapply kless_downward).
  assert (selects (fun _ _ n => precedes sc o n) l (taken p l)) as Hsel.
  { apply selects_taken; [done|]. intros e n _ Ho Hsc _ _. by apply precedes_key. }
  pose proof (taken_dropped p l) as Htd. unfold zslDelete.
  rewrite (zsl_search_spec 32 h z l _ _ _ Hz Htd Hsel) by lia. cbn [mbind option_bind].
  rewrite (updates_head h z l (taken p l) (dropped p l) Hz Htd). cbn [mbind option_bind].
  rewrite (link0 h z l (taken p l) (dropped p l) Hz Htd). cbn [mbind option_bind forward].
  assert (kdel (sc, o) (ekey <$> l) = (ekey <$> taken p l) ++ match dropped p l with e :: r => if keq (sc, o) (ekey e) then ekey <$> r else ekey <$> (e :: r) | [] => [] end) as ->.
  { unfold kdel. rewrite <- (taken_fmap (fun k => kless k (sc, o))), <- (dropped_fmap (fun k => kless k (sc, o))).
    subst p. by destruct (dropped _ l). }
  rewrite (kmem_sorted (sc, o) (ekey <$> l)) by done. rewrite <- (dropped_fmap (fun k => kless k (sc, o))). fold p.
  destruct (dropped p l) as [|e b] eqn:Eb; cbn [hd_error fmap option_fmap option_map list_fmap].
  { exists h, z, l. split; [done|]. split; [done|]. rewrite app_nil_r in *. split; [by rewrite <- Htd|].
    split_and!; try done. }
  destruct (node_at _ _ _ _ (taken p l) e b (zi_links _ _ _ Hz) Htd) as (n & Hn & Ho & Hsc & _). rewrite Hn. cbn [mbind option_bind].
  rewrite Ho, Hsc. replace (seqb sc (e_score e) && (cmp (e_obj e) o =? 0)) with (keq (sc, o) (ekey e)) by
    (unfold keq; cbn; by rewrite cmp0_sym).
  destruct (keq (sc, o) (ekey e)) eqn:Ek.
  - rewrite Htd in Hz. destruct (deleteNode_spec h z (taken p l) e b _ Hz (search_updates z _)) as (h' & z' & -> & Hz' & Hh & _ & Hf).
    cbn [mbind option_bind]. destruct (unlink_ptrs _ _ _ _ _ _ (zi_links _ _ _ Hz)) as [Hxh Hxl].
    exists (zslFreeNode h' (e_ptr e)), z', (taken p l ++ b). split; [done|]. split.
    { apply (zinv_frame h'); [done|]. intros q Hq. apply lookup_delete_ne. intros Hqe. rewrite <- Hqe, Hh in Hq. set_solver. }
    split; [by rewrite fmap_app|]. split; [done|]. split; [|split].
    + intros q Hq. unfold zslFreeNode. rewrite Htd, fmap_app in Hq. cbn in Hq. rewrite lookup_delete_ne by set_solver.
      apply Hf; rewrite ?fmap_app; set_solver.
    + rewrite Htd at 2. rewrite !fmap_app. cbn. apply sublist_app; [done|]. by apply sublist_cons.
    + intros q Hq Hq'. rewrite Htd, fmap_app in Hq. rewrite fmap_app in Hq'. cbn in Hq. assert (q = e_ptr e) as -> by set_solver.
      apply lookup_delete_eq.
  - exists h, z, l. split; [done|]. split; [done|]. split; [by rewrite Htd at 1; rewrite fmap_app|]. split_and!; try done.
Qed.

(** ** Creation and release *)

(** The skip list's nodes are its own: the rest of the heap is as in [h0]. *)
Definition owns h0 h z l : Prop :=
  forall q, (q ∈ header z :: (e_ptr <$> l) -> h0 !! q = None) /\ (q ∉ header z :: (e_ptr <$> l) -> h !! q = h0 !! q).

Lemma zslCreate_spec h : zinv (zslCreate h).1 (zslCreate h).2 [] /\ owns h (zslCreate h).1 (zslCreate h).2 [].
Proof.
  unfold zslCreate. set (hd := zalloc h). assert (h !! hd = None) as Hhd by (apply not_elem_of_dom, is_fresh).
  cbn [fst snd]. split; [constructor; try done; [constructor|]|].
  - apply NoDup_singleton.
  - cbn. unfold ZSKIPLIST_MAXLEVEL. lia.
  - exists szero, None. cbn [header]. unfold meta. by rewrite lookup_insert_eq.
  - intros i Hi. exists 0. unfold lv. cbn [header]. rewrite lookup_insert_eq. cbn [mbind option_bind level]. apply lookup_replicate.
    unfold ZSKIPLIST_MAXLEVEL in *. split; [done|lia].
  - intros a e b Hl. by destruct a.
  - done.
  - intros a b i Hl Hi. destruct a; [|done]. destruct b; [|done]. unfold lv, cur. cbn in *. rewrite lookup_insert_eq.
    cbn. destruct i; [done|lia].
  - cbn. lia.
  - intros Hz. cbn in Hz. lia.
  - intros q. cbn. rewrite list_elem_of_singleton. split; [intros ->; done|intros; by apply lookup_insert_ne].
Qed.

Lemma free_loop_spec : forall b fuel h (bk : option ptr), NoDup (e_ptr <$> b) -> (length b < fuel)%nat ->
  Forall (fun e => 1 <= e_height e)%nat b ->
  (forall c e d, b = c ++ e :: d -> lv h (e_ptr e) 0 = Some (nxt 0 d)) ->
  exists h', zslFree_loop fuel h (e_ptr <$> hd_error b) = Some h' /\
    forall q, h' !! q = if bool_decide (q ∈ e_ptr <$> b) then None else h !! q.
Proof.
  induction b as [|e b IH]; intros fuel h bk Hnd Hf Hh Hl.
  { exists h. split; [by destruct fuel|]. intros q. by rewrite bool_decide_eq_false_2 by (cbn; set_solver). }
  destruct fuel as [|fuel]; [lia|]. cbn [zslFree_loop hd_error fmap option_fmap option_map].
  rewrite (Hl [] e b eq_refl). cbn [mbind option_bind]. apply Forall_cons_1 in Hh as [_ Hh]. rewrite nxt_0 by done.
  cbn [fmap list_fmap] in Hnd. apply NoDup_cons in Hnd as [Hin Hnd].
  destruct (IH fuel (base.delete (e_ptr e) h) None Hnd) as (h' & -> & Hh'); [cbn in Hf; lia|done| |].
  - intros c e' d ->. unfold lv. rewrite lookup_delete_ne.
    + apply (Hl (e :: c) e' d). done.
    + intros Hq. apply Hin. rewrite Hq, fmap_app. set_solver.
  - exists h'. split; [done|]. intros q. rewrite Hh'. destruct (decide (q = e_ptr e)) as [->|Hne].
    + rewrite bool_decide_eq_false_2 by done. rewrite bool_decide_eq_true_2 by (cbn; set_solver). apply lookup_delete_eq.
    + rewrite lookup_delete_ne by done. erewrite bool_decide_ext; [done|]. cbn. set_solver.
Qed.

Lemma zslFree_spec h0 h z l : zinv h z l -> owns h0 h z l -> zslFree h z = Some h0.
Proof.
  intros Hz Ho. unfold zslFree. pose proof (link0 h z l [] l Hz eq_refl) as Hl0. rewrite cur_nil in Hl0. rewrite Hl0.
  cbn [mbind option_bind forward]. destruct Hz as [Hz _ Hlen _]. pose proof (zi_nodup _ _ _ _ Hz) as Hnd.
  apply NoDup_cons in Hnd as [Hhd Hnd]. pose proof (zi_height _ _ _ _ Hz) as Hh.
  destruct (free_loop_spec l (S (Z.to_nat (zlength z))) (base.delete (header z) h) None Hnd) as (h' & -> & Hh').
  - rewrite Hlen. lia.
  - eapply Forall_impl; [exact Hh|]. intros ? Hq. apply Hq.
  - intros c e d ->. unfold lv. rewrite lookup_delete_ne by (intros Hq; apply Hhd; rewrite Hq, fmap_app; set_solver).
    rewrite <- (cur_snoc (header z) c e). apply (zi_link _ _ _ _ Hz (c ++ [e])); [by rewrite <- app_assoc|].
    rewrite hgt_snoc. apply Forall_app in Hh as [_ Hh]. apply Forall_inv in Hh. cbn beta in Hh. lia.
  - f_equal. apply map_eq. intros q. rewrite Hh'. destruct (Ho q) as [Hin Hout]. case_bool_decide as Hq.
    + symmetry. apply Hin. set_solver.
    + destruct (decide (q = header z)) as [->|].
      * rewrite lookup_delete_eq. symmetry. apply Hin. set_solver.
      * rewrite lookup_delete_ne by done. apply Hout. set_solver.
Qed.

(** ** Programs *)

(** An insertion comes with the values [random()] will give and the contents of
    the fresh node. *)
Inductive zop := ZInsert (junk : zskiplistLevel) (jback : option ptr) (rs : list Z) (sc : Sc) (o : Ob) | ZDelete (sc : Sc) (o : Ob).

Fixpoint zrun h z (os : list zop) : option (zheap * zskiplist * list bool) :=
  match os with
  | [] => Some (h, z, [])
  | ZInsert junk jb rs sc o :: os =>
      '(h, z, _) ← zslInsert junk jb rs h z sc o; '(h, z, r) ← zrun h z os; Some (h, z, true :: r)
  | ZDelete sc o :: os =>
      '(h, z, b) ← zslDelete h z sc o; '(h, z, r) ← zrun h z os; Some (h, z, b :: r)
  end.

Fixpoint krun (ks : list (Sc * Ob)) (os : list zop) : list (Sc * Ob) * list bool :=
  match os with
  | [] => (ks, [])
  | ZInsert _ _ _ sc o :: os => let '(ks, r) := krun (kins (sc, o) ks) os in (ks, true :: r)
  | ZDelete sc o :: os => let '(ks', r) := krun (kdel (sc, o) ks) os in (ks', kmem (sc, o) ks :: r)
  end.

Lemma zrun_krun h0 os : forall h z l, zinv h z l -> sorted (ekey <$> l) -> owns h0 h z l -> zlen l + zlen os < 2 ^ 31 ->
  exists h' z' l', zrun h z os = Some (h', z', (krun (ekey <$> l) os).2) /\ zinv h' z' l' /\
    ekey <$> l' = (krun (ekey <$> l) os).1 /\ sorted (ekey <$> l') /\ owns h0 h' z' l'.
Proof.
  induction os as [|[junk jb rs sc o|sc o] os IH]; intros h z l Hz Hs Ho Hb; cbn [zrun krun]; [by exists h, z, l| |].
  - cbn [length] in Hb.
    destruct (insert_sorted junk jb rs h z l sc o Hz Hs ltac:(lia)) as (h1 & z1 & x & l1 & -> & Hx & Hz1 & Hk & Hh & Hp & Hf).
    cbn [mbind option_bind]. destruct (IH h1 z1 l1 Hz1) as (h2 & z2 & l2 & -> & Hz2 & Hk2 & Hs2 & Ho2).
    + rewrite Hk. by apply sorted_kins.
    + intros q. rewrite Hh. destruct (Ho q) as [Hin Hout].
      assert (forall q, q ∈ e_ptr <$> l1 <-> q = x \/ q ∈ e_ptr <$> l) as Hp' by (intros; rewrite Hp; set_solver).
      rewrite !elem_of_cons, Hp'. split.
      * intros [->|[->|Hq]]; [apply Hin; set_solver| |apply Hin; set_solver].
        destruct (decide (x ∈ header z :: (e_ptr <$> l))); [auto|]. by rewrite <- (proj2 (Ho x)).
      * intros Hq. rewrite <- Hout by set_solver. apply Hf; set_solver.
    + apply Permutation_length in Hp. rewrite length_fmap in Hp. cbn in Hp. rewrite length_fmap in Hp. lia.
    + cbn [mbind option_bind]. exists h2, z2, l2. rewrite Hk in *. by destruct (krun (kins (sc, o) (ekey <$> l)) os).
  - cbn [length] in Hb.
    destruct (delete_sorted h z l sc o Hz Hs) as (h1 & z1 & l1 & -> & Hz1 & Hk & Hh & Hf & Hsub & Hdel).
    cbn [mbind option_bind]. destruct (IH h1 z1 l1 Hz1) as (h2 & z2 & l2 & -> & Hz2 & Hk2 & Hs2 & Ho2).
    + rewrite Hk. eapply sublist_sorted, Hs. apply kdel_sublist.
    + intros q. rewrite Hh. destruct (Ho q) as [Hin Hout]. rewrite !elem_of_cons in *. split.
      * intros [->|Hq]; [apply Hin; by left|]. apply Hin. right. by eapply elem_of_sublist.
      * intros Hq. destruct (decide (q ∈ e_ptr <$> l)).
        -- rewrite Hdel by set_solver. symmetry. apply Hin. set_solver.
        -- rewrite <- Hout by set_solver. apply Hf. set_solver.
    + apply sublist_length in Hsub. rewrite !length_fmap in Hsub. lia.
    + cbn [mbind option_bind]. exists h2, z2, l2. rewrite Hk in *. by destruct (krun (kdel (sc, o) (ekey <$> l)) os).
Qed.

End Update.

(** C33: from an empty skip list, any sequence of insertions (with any random
    levels) and deletions follows only valid pointers, returns what the same
    sequence returns on a list sorted by score and member, and leaves a well-formed
    skip list of exactly that list: at every level the links and spans agree with
    it.  Freeing it then gives back every node and leaves the rest of the heap as
    it was before the creation. *)
Theorem skiplist_refines_sorted_list {Sc Ob : Type} `{HS : Score Sc} `{HO : Member Ob} (h0 : gmap ptr (@zskiplistNode Sc Ob)) (os : list zop) :
  zlen os < 2 ^ 31 ->
  exists h z l, zrun (zslCreate h0).1 (zslCreate h0).2 os = Some (h, z, (krun [] os).2) /\
    zinv h z l /\ ekey <$> l = (krun [] os).1 /\ sorted (ekey <$> l) /\ zslFree h z = Some h0.
Proof.
  intros Hb. destruct (zslCreate_spec h0) as [Hz Ho].
  destruct (zrun_krun h0 os _ _ [] Hz) as (h & z & l & Hrun & Hz' & Hk & Hs & Ho'); [by constructor|done|cbn; lia|].
  exists h, z, l. split_and!; try done. by eapply zslFree_spec.
Qed.

Definition num (m : positive) (e : Z) : Double.double := exist _ (S754_finite false m e) eq_refl.
Definition word (s : list Z) (H : Is_true (bool_decide (zlen s <= 2 ^ 29))) : Bytes.str := exist _ s H.
Definition demo_zops : list (@zop Double.double Bytes.str) :=
  let junk := mk_level None 7 in
  [ZInsert junk None [0; 65535] (num 3 1) (word [98; 97] I); ZInsert junk None [65535] (num 1 0) (word [122] I);
   ZInsert junk None [0; 0; 0; 16384] (num 3 1) (word [98] I); ZDelete (num 1 0) (word [122] I); ZDelete (num 1 0) (word [97] I)].

Definition empty_heap : gmap ptr (@zskiplistNode Double.double Bytes.str) := ∅.

Lemma skiplist_refines_sorted_list_witness : zlen demo_zops < 2 ^ 31 /\
  exists h z l, zrun (zslCreate empty_heap).1 (zslCreate empty_heap).2 demo_zops = Some (h, z, (krun [] demo_zops).2) /\
    zinv h z l /\ ekey <$> l = (krun [] demo_zops).1 /\ sorted (ekey <$> l) /\ zslFree h z = Some empty_heap.
Proof. split; [reflexivity|]. apply (skiplist_refines_sorted_list empty_heap demo_zops). reflexivity. Defined.

(** ** Ranks *)
Section Ranks.
Context {Sc Ob : Type} `{HS : Score Sc} `{HO : Member Ob}.
#[local] Abbreviation zheap := (gmap ptr (@zskiplistNode Sc Ob)).
#[local] Abbreviation ent := (entry Sc Ob).
Implicit Types (h : zheap) (z : zskiplist) (l a b : list ent) (e : ent).

(** Walking at level [i] on from a cut at a higher level. *)
Lemma walk_from h z l a b i go : zinv h z l -> l = a ++ b -> selects go l a -> forall r1 r2, a = r1 ++ r2 ->
  (i < hgt (zlevel z) r1)%nat ->
  zsl_walk 64 (Z.to_nat (zlength z)) h i go (cur (header z) r1) (zlen r1) = Some (update_at (header z) a i).
Proof.
  intros [Hz _ Hlen _] Hl Hgo r1 r2 Ha Hi. apply (walk_spec 64 h (header z) (zlevel z) l a b i go Hz Hl Hgo ltac:(lia) _ r1 r2 Ha Hi).
  rewrite Hlen, Hl, Ha, !length_app. lia.
Qed.

Lemma byrank_loop h z l a b rank : zinv h z l -> l = a ++ b -> 0 <= rank -> zlen a <= rank -> (zlen a < rank -> b = []) ->
  forall i r1 r2, a = r1 ++ r2 -> (i <= hgt (zlevel z) r1)%nat -> (i <= zlevel z)%nat ->
  zslGetElementByRank_loop i (Z.to_nat (zlength z)) h rank (cur (header z) r1) (zlen r1) =
  Some (if (0 <? i)%nat && (zlen a =? rank) then Some (cur (header z) a) else None).
Proof.
  intros Hz Hl Hr Har Hb. pose proof (zi_bound _ _ _ _ (zi_links _ _ _ Hz)) as Hbd. rewrite Hl, length_app in Hbd.
  assert (selects (fun traversed sp _ => uwrap 64 (traversed + sp) <=? rank) l a) as Hgo.
  { intros r1 r2 e q n Hl' _ _. rewrite Hl in Hl'. assert (zlen (a ++ b) = zlen ((r1 ++ r2) ++ e :: q)) as Hll by (by rewrite Hl').
    rewrite !length_app in *. cbn [length] in Hll. rewrite uwrap_small by lia. case_bool_decide.
    - apply Z.leb_le. lia.
    - apply Z.leb_gt. destruct (decide (zlen a < rank)) as [Hlt|]; [|lia]. specialize (Hb Hlt). subst b. cbn in Hll. lia. }
  induction i as [|i IH]; intros r1 r2 Ha Hi Hiz; [done|]. cbn [zslGetElementByRank_loop].
  rewrite (walk_from h z l a b i _ Hz Hl Hgo r1 r2 Ha) by lia. cbn [mbind option_bind]. unfold update_at.
  destruct (upto_spec i a) as (r & Hr' & _ & _). assert (zlen a = zlen (upto i a) + zlen r) as Hlr by (rewrite Hr' at 1; rewrite length_app; lia).
  cbn [Nat.ltb Nat.leb andb]. destruct (zlen (upto i a) =? rank) eqn:E; zbool.
  - assert (r = []) as -> by (destruct r; [done|]; cbn in Hlr; lia). rewrite app_nil_r in Hr'. rewrite <- Hr'.
    by ztrue (zlen a =? rank).
  - rewrite (IH (upto i a) r) by (done || (pose proof (upto_hgt i (zlevel z) a); lia) || lia).
    destruct i as [|i]; [|done]. cbn. pose proof (zi_height _ _ _ _ (zi_links _ _ _ Hz)) as Hh. rewrite Hl in Hh.
    apply Forall_app in Hh as [Hh _]. rewrite (upto_0 _ _ Hh) in E. by zfalse (zlen a =? rank).
Qed.

Lemma byrank_spec h z l rank : zinv h z l -> 0 <= rank ->
  zslGetElementByRank h z rank = Some (if rank =? 0 then Some (header z) else e_ptr <$> l !! Z.to_nat (rank - 1)).
Proof.
  intros Hz Hr. unfold zslGetElementByRank. pose proof (zi_level _ _ _ _ (zi_links _ _ _ Hz)) as Hlv.
  set (n := Z.to_nat rank). pose proof (take_drop n l) as Htd. symmetry in Htd.
  pose proof (byrank_loop h z l (take n l) (drop n l) rank Hz Htd Hr) as Hloop. rewrite length_take in Hloop.
  specialize (Hloop ltac:(lia)). specialize (Hloop ltac:(intros; apply drop_ge; lia) (zlevel z) [] (take n l) eq_refl).
  rewrite cur_nil in Hloop. change (zlen []) with 0 in Hloop. rewrite Hloop by (cbn; lia). destruct (zlevel z) eqn:Ez; [lia|].
  cbn [Nat.ltb Nat.leb andb]. f_equal. destruct (rank =? 0) eqn:E0; zbool.
  - subst. by ztrue (Z.of_nat (n `min` length l) =? 0).
  - destruct (l !! Z.to_nat (rank - 1)) as [e|] eqn:He; cbn [fmap option_fmap option_map].
    + pose proof (lookup_lt_Some _ _ _ He). ztrue (Z.of_nat (n `min` length l) =? rank). subst n.
      replace (Z.to_nat rank) with (S (Z.to_nat (rank - 1))) by lia. rewrite (take_S_r _ _ e) by done. by rewrite cur_snoc.
    + apply lookup_ge_None in He. by zfalse (Z.of_nat (n `min` length l) =? rank).
Qed.
Lemma obj_at h z l a b : zinv h z l -> l = a ++ b ->
  exists n, h !! cur (header z) a = Some n /\ obj n = e_obj <$> list.last a.
Proof.
  intros [Hz _ _ _] Hl. destruct a as [|e a _] using rev_ind.
  - destruct (zi_header _ _ _ _ Hz) as (sc & bk & Hm). apply meta_lookup in Hm as (n & ? & ? & _). by exists n.
  - rewrite cur_snoc, last_snoc. destruct (node_at _ _ _ _ a e b Hz) as (n & ? & ? & _); [by rewrite <- app_assoc in Hl|]. by exists n.
Qed.

Lemma getrank_loop h z l a b sc o (found : bool) : zinv h z l -> l = a ++ b ->
  selects (fun _ _ n => slt (score n) sc || (seqb (score n) sc && match obj n with Some o' => cmp o' o <=? 0 | None => false end)) l a ->
  (forall a1 e a2, a = a1 ++ e :: a2 -> (cmp (e_obj e) o =? 0) = bool_decide (a2 = []) && found) ->
  forall i r1 r2, a = r1 ++ r2 -> (i <= hgt (zlevel z) r1)%nat -> (i <= zlevel z)%nat ->
  zslGetRank_loop i (Z.to_nat (zlength z)) h sc o (cur (header z) r1) (zlen r1) = Some (if (0 <? i)%nat && found then zlen a else 0).
Proof.
  intros Hz Hl Hgo Hf. induction i as [|i IH]; intros r1 r2 Ha Hi Hiz; [done|]. cbn [zslGetRank_loop].
  rewrite (walk_from h z l a b i _ Hz Hl Hgo r1 r2 Ha) by lia. cbn [mbind option_bind]. unfold update_at.
  destruct (upto_spec i a) as (r & Hr' & _ & _).
  destruct (obj_at h z l (upto i a) (r ++ b) Hz) as (n & -> & Ho); [by rewrite app_assoc, <- Hr'|]. cbn [mbind option_bind]. rewrite Ho.
  cbn [Nat.ltb Nat.leb andb].
  assert (zslGetRank_loop i (Z.to_nat (zlength z)) h sc o (cur (header z) (upto i a)) (zlen (upto i a)) = Some (if (0 <? i)%nat && found then zlen a else 0)) as ->.
  { apply (IH (upto i a) r Hr'); [|lia]. pose proof (upto_hgt i (zlevel z) a). lia. }
  assert (i = O -> r = []) as H0.
  { intros ->. pose proof (zi_height _ _ _ _ (zi_links _ _ _ Hz)) as Hh. rewrite Hl in Hh. apply Forall_app in Hh as [Hh _].
    rewrite (upto_0 _ _ Hh) in Hr'. rewrite <- (app_nil_r a) in Hr' at 1. by apply app_inv_head in Hr'. }
  destruct (upto i a) as [|e u _] eqn:Eu using rev_ind; cbn [list.last fmap option_fmap option_map].
  - destruct i as [|i]; [|done]. rewrite (H0 eq_refl) in Hr'. cbn in Hr'. rewrite Hr'. by destruct found.
  - rewrite last_snoc. cbn [fmap option_fmap option_map]. rewrite (Hf u e r) by (by rewrite <- app_assoc in Hr'). case_bool_decide as Hr; cbn [andb].
    + subst r. rewrite app_nil_r in Hr'. rewrite <- Hr'. destruct found; [done|]. by rewrite andb_false_r.
    + destruct i as [|i]; [by rewrite (H0 eq_refl) in Hr|done].
Qed.

Lemma cmp_not_less k (e : ent) n : obj n = Some (e_obj e) -> score n = e_score e ->
  slt (score n) k.1 || (seqb (score n) k.1 && match obj n with Some o' => cmp o' k.2 <=? 0 | None => false end) = negb (kless k (ekey e)).
Proof.
  intros -> ->. unfold kless. cbn [ekey fst snd]. destruct (slt_total k.1 (e_score e)) as [H|[H|H]].
  - rewrite H. rewrite (slt_asym _ _ H). destruct (seqb (e_score e) k.1) eqn:E; [|done]. apply seqb_sym in E. apply slt_not_seqb in H. congruence.
  - assert (slt k.1 (e_score e) = false) as -> by (destruct (slt k.1 (e_score e)) eqn:E; [apply slt_not_seqb in E; congruence|done]).
    assert (slt (e_score e) k.1 = false) as -> by (destruct (slt (e_score e) k.1) eqn:E; [apply slt_not_seqb in E; apply seqb_sym in H; congruence|done]).
    rewrite H, (seqb_sym _ _ H). cbn. pose proof (cmp_sym k.2 (e_obj e)). pose proof (cmp_sym (e_obj e) k.2).
    destruct (cmp k.2 (e_obj e) <? 0) eqn:E1, (cmp (e_obj e) k.2 <=? 0) eqn:E2; zbool; lia || done.
  - rewrite H, (slt_asym _ _ H). destruct (seqb k.1 (e_score e)) eqn:E; [|done]. apply seqb_sym in E. apply slt_not_seqb in H. congruence.
Qed.

Lemma notafter_downward (k x y : Sc * Ob) : kle x y -> negb (kless k y) = true -> negb (kless k x) = true.
Proof. rewrite !negb_true_iff. apply kle_trans. Qed.

Lemma getrank_selects k l : sorted (ekey <$> l) ->
  selects (fun _ _ n => slt (score n) k.1 || (seqb (score n) k.1 && match obj n with Some o' => cmp o' k.2 <=? 0 | None => false end)) l
    (taken (fun e => negb (kless k (ekey e))) l).
Proof.
  intros Hs. apply selects_taken.
  - apply (sorted_downward (fun x => negb (kless k x))); [done|]. apply notafter_downward.
  - intros e n _ Ho Hsc _ _. by apply cmp_not_less.
Qed.

Lemma getrank_loop_start h z l a b sc o (found : bool) : zinv h z l -> l = a ++ b ->
  selects (fun _ _ n => slt (score n) sc || (seqb (score n) sc && match obj n with Some o' => cmp o' o <=? 0 | None => false end)) l a ->
  (forall a1 e a2, a = a1 ++ e :: a2 -> (cmp (e_obj e) o =? 0) = bool_decide (a2 = []) && found) ->
  zslGetRank h z sc o = Some (if found then zlen a else 0).
Proof.
  intros Hz Hl Hgo Hf. pose proof (zi_level _ _ _ _ (zi_links _ _ _ Hz)) as Hlv.
  pose proof (getrank_loop h z l a b sc o found Hz Hl Hgo Hf (zlevel z) [] a eq_refl) as Hloop. rewrite cur_nil in Hloop.
  change (zlen []) with 0 in Hloop. unfold zslGetRank. rewrite Hloop by (cbn; lia). by destruct (zlevel z); [lia|].
Qed.

Lemma getrank_present h z l i e : zinv h z l -> sorted (ekey <$> l) -> NoDup (e_obj <$> l) -> l !! i = Some e ->
  zslGetRank h z (e_score e) (e_obj e) = Some (Z.of_nat i + 1).
Proof.
  intros Hz Hs Hnd Hi. pose proof (take_drop_middle l i e Hi) as Hl. symmetry in Hl.
  set (k := ekey e). pose proof (getrank_selects k l Hs) as Hsel.
  destruct (cut_unique (fun e => negb (kless k (ekey e))) l (take i l ++ [e]) (drop (S i) l)) as [Ha Hb].
  { by rewrite <- app_assoc. }
  { apply Forall_app. split; [|apply Forall_singleton].
    - apply Forall_forall. intros x Hx. apply negb_true_iff. apply list_elem_of_split in Hx as (u & v & Huv).
      change (kle (ekey x) (ekey e)). eapply (sorted_split _ _ _ (ekey <$> u) (ekey <$> v) (ekey <$> drop (S i) l) Hs).
      rewrite Hl at 1. rewrite Huv, !fmap_app, !fmap_cons, <- app_assoc. done.
    - apply negb_true_iff. destruct (kless k (ekey e)) eqn:E; [|done]. destruct (kless_not _ _ E). subst k. congruence. }
  { apply Forall_forall. intros y Hy. apply negb_false_iff. apply list_elem_of_split in Hy as (u & v & Huv).
    assert (kle (ekey e) (ekey y)) as Hle.
    { eapply (sorted_split _ _ _ (ekey <$> take i l) (ekey <$> u) (ekey <$> v) Hs). rewrite Hl at 1. by rewrite Huv, !fmap_app, !fmap_cons, !fmap_app, !fmap_cons. }
    destruct (kless_total k (ekey y)) as [?|[Hk|Hk]]; [done| |by unfold kle in Hle; subst k; congruence]. exfalso.
    unfold keq in Hk. apply andb_prop in Hk as [_ Hk]. apply Z.eqb_eq, cmp_eq in Hk. cbn in Hk.
    rewrite Hl, Huv, fmap_app, fmap_cons, fmap_app, fmap_cons in Hnd. apply NoDup_app in Hnd as (_ & _ & Hnd).
    apply NoDup_cons in Hnd as [Hnd _]. apply Hnd. rewrite Hk. set_solver. }
  rewrite <- Ha in Hsel. assert (l = (take i l ++ [e]) ++ drop (S i) l) as Hl' by (by rewrite <- app_assoc).
  rewrite (getrank_loop_start h z l _ _ (e_score e) (e_obj e) true Hz Hl' Hsel).
  - rewrite length_app, length_take. pose proof (lookup_lt_Some _ _ _ Hi). cbn [length]. f_equal. lia.
  - intros a1 e' a2 Heq. rewrite andb_true_r. destruct a2 as [|x a2 _] using rev_ind.
    + apply app_inj_tail in Heq as [_ ->]. rewrite bool_decide_eq_true_2 by done. apply Z.eqb_eq. by apply cmp_eq.
    + rewrite bool_decide_eq_false_2 by (by destruct a2). apply Z.eqb_neq. rewrite cmp_eq. intros Hq.
      change (e' :: a2 ++ [x]) with ((e' :: a2) ++ [x]) in Heq. rewrite app_assoc in Heq.
      apply app_inj_tail in Heq as [Heq <-]. rewrite Hl, Heq, !fmap_app, !fmap_cons in Hnd. apply NoDup_app in Hnd as (_ & Hnd & _).
      apply (Hnd (e_obj e')); set_solver.
Qed.

Lemma getrank_absent h z l sc o : zinv h z l -> sorted (ekey <$> l) -> o ∉ e_obj <$> l -> zslGetRank h z sc o = Some 0.
Proof.
  intros Hz Hs Ho. pose proof (taken_dropped (fun e => negb (kless (sc, o) (ekey e))) l) as Hl.
  rewrite (getrank_loop_start h z l _ _ sc o false Hz Hl); [done|exact (getrank_selects (sc, o) l Hs)|].
  intros a1 e a2 Ha. rewrite andb_false_r. apply Z.eqb_neq. rewrite cmp_eq. intros <-. apply Ho. rewrite Hl, Ha, !fmap_app, fmap_cons. set_solver.
Qed.

End Ranks.

(** C34: ranks.  The entry at index [i] of the sorted list has rank [i+1], and
    [zslGetElementByRank] finds it from that rank; a member that is not in the skip
    list has rank 0; a rank past the end finds nothing, and rank 0 the header. *)
Theorem skiplist_ranks {Sc Ob : Type} `{HS : Score Sc} `{HO : Member Ob} (h : gmap ptr (@zskiplistNode Sc Ob)) z l :
  zinv h z l -> sorted (ekey <$> l) -> NoDup (e_obj <$> l) ->
  (forall i e, l !! i = Some e -> zslGetRank h z (e_score e) (e_obj e) = Some (Z.of_nat i + 1) /\
     zslGetElementByRank h z (Z.of_nat i + 1) = Some (Some (e_ptr e))) /\
  (forall sc o, o ∉ e_obj <$> l -> zslGetRank h z sc o = Some 0) /\
  (forall rank, zlen l < rank -> zslGetElementByRank h z rank = Some None) /\
  zslGetElementByRank h z 0 = Some (Some (header z)).
Proof.
  intros Hz Hs Hnd. split; [|split; [|split]].
  - intros i e Hi. split; [by eapply getrank_present|]. rewrite (byrank_spec h z l) by (done || lia). zfalse (Z.of_nat i + 1 =? 0).
    replace (Z.to_nat (Z.of_nat i + 1 - 1)) with i by lia. by rewrite Hi.
  - intros sc o Ho. by eapply getrank_absent.
  - intros rank Hr. rewrite (byrank_spec h z l) by (done || lia). zfalse (rank =? 0). by rewrite lookup_ge_None_2 by lia.
  - by rewrite (byrank_spec h z l).
Qed.

Definition demo_keys : list (Double.double * Bytes.str) := [(num 3 1, word [98] I); (num 3 1, word [98; 97] I)].

Lemma demo_skiplist : exists (h : gmap ptr (@zskiplistNode Double.double Bytes.str)) z l,
  zinv h z l /\ sorted (ekey <$> l) /\ ekey <$> l = demo_keys /\ NoDup (e_obj <$> l).
Proof.
  destruct (zslCreate_spec empty_heap) as [Hz Ho]. revert Hz Ho.
  generalize (zslCreate empty_heap).1, (zslCreate empty_heap).2. intros h0 z0 Hz Ho.
  destruct (zrun_krun empty_heap demo_zops h0 z0 [] Hz) as (h & z & l & _ & Hz' & Hk & Hs & _); [constructor|exact Ho|vm_compute; reflexivity|].
  exists h, z, l. split; [exact Hz'|]. split; [exact Hs|].
  assert (ekey <$> l = demo_keys) as Hl by exact (eq_trans Hk (eq_refl demo_keys)). split; [exact Hl|]. clear Hk.
  replace (e_obj <$> l) with (snd <$> (ekey <$> l)) by (rewrite <- list_fmap_compose; done). rewrite Hl. cbn.
  apply NoDup_cons. split; [|apply NoDup_singleton]. rewrite list_elem_of_singleton. intros Hq.
  apply (f_equal (fun s : Bytes.str => length (`s))) in Hq. discriminate.
Qed.

Lemma skiplist_ranks_witness : exists (h : gmap ptr (@zskiplistNode Double.double Bytes.str)) z l, ekey <$> l = demo_keys /\
  (forall i e, l !! i = Some e -> zslGetRank h z (e_score e) (e_obj e) = Some (Z.of_nat i + 1) /\
     zslGetElementByRank h z (Z.of_nat i + 1) = Some (Some (e_ptr e))) /\
  (forall sc o, o ∉ e_obj <$> l -> zslGetRank h z sc o = Some 0) /\
  (forall rank, zlen l < rank -> zslGetElementByRank h z rank = Some None) /\
  zslGetElementByRank h z 0 = Some (Some (header z)).
Proof.
  destruct demo_skiplist as (h & z & l & Hz & Hs & Hk & Hnd). exists h, z, l. split; [exact Hk|].
  exact (skiplist_ranks h z l Hz Hs Hnd).
Defined.

(** ** Ranges *)
Section Ranges.
Context {Sc Ob : Type} `{HS : Score Sc} `{HO : Member Ob}.
#[local] Abbreviation zheap := (gmap ptr (@zskiplistNode Sc Ob)).
#[local] Abbreviation ent := (entry Sc Ob).
Implicit Types (h : zheap) (z : zskiplist) (l a b : list ent) (e : ent) (r : @zrangespec Sc).

Definition in_range r (sc : Sc) : bool := zslValueGteMin sc r && zslValueLteMax sc r.

Lemma kle_score (x y : Sc * Ob) : kle x y -> slt y.1 x.1 = false.
Proof. unfold kle, kless. intros [H _]%orb_false_iff. done. Qed.

Lemma sle_trans_lt (x y w : Sc) : slt y x = false -> slt y w = true -> slt x w = true.
Proof.
  intros H1 H2. destruct (slt_total x y) as [H|[H|H]]; [by eapply slt_trans|by eapply seqb_slt|congruence].
Qed.
Lemma lt_sle_trans (x y w : Sc) : slt y x = false -> slt w x = true -> slt w y = true.
Proof.
  intros H1 H2. destruct (slt_total x y) as [H|[H|H]]; [by eapply slt_trans|by eapply slt_seqb|congruence].
Qed.
Lemma sle_slt (x y : Sc) : sle x y = negb (slt y x).
Proof. rewrite slt_sle. by rewrite negb_involutive. Qed.

(** The upper bound holds downwards, the lower bound upwards. *)
Lemma lte_down r (x y : Sc) : slt y x = false -> zslValueLteMax y r = true -> zslValueLteMax x r = true.
Proof.
  unfold zslValueLteMax. destruct (rmaxex r); intros H1 H2.
  - by eapply sle_trans_lt.
  - rewrite sle_slt in *. apply negb_true_iff. apply negb_true_iff in H2. destruct (slt (rmax r) x) eqn:E; [|done].
    by rewrite (lt_sle_trans x y _ H1 E) in H2.
Qed.
Lemma gte_up r (x y : Sc) : slt y x = false -> zslValueGteMin x r = true -> zslValueGteMin y r = true.
Proof.
  unfold zslValueGteMin. destruct (rminex r); intros H1 H2.
  - by eapply lt_sle_trans.
  - rewrite sle_slt in *. apply negb_true_iff. apply negb_true_iff in H2. destruct (slt y (rmin r)) eqn:E; [|done].
    by rewrite (sle_trans_lt x y _ H1 E) in H2.
Qed.

(** A range tested as always empty holds no score. *)
Lemma empty_range r (x : Sc) : slt (rmax r) (rmin r) || (seqb (rmin r) (rmax r) && (rminex r || rmaxex r)) = true -> in_range r x = false.
Proof.
  intros H. apply andb_false_iff. destruct (zslValueGteMin x r) eqn:E1; [right|by left]. apply Bool.not_true_iff_false. intros E2.
  unfold zslValueGteMin, zslValueLteMax in *.
  assert (slt x (rmin r) = false /\ slt (rmax r) x = false) as [H1 H2].
  { split.
    - destruct (rminex r); [by apply slt_asym|]. rewrite sle_slt in E1. by apply negb_true_iff.
    - destruct (rmaxex r); [by apply slt_asym|]. rewrite sle_slt in E2. by apply negb_true_iff. }
  apply orb_true_iff in H as [H|[H Hex]%andb_prop].
  - by rewrite (lt_sle_trans _ _ _ H1 H) in H2.
  - apply orb_true_iff in Hex as [Hex|Hex]; rewrite Hex in *.
    + pose proof (seqb_slt _ _ _ (seqb_sym _ _ H) E1) as Hc. congruence.
    + pose proof (slt_seqb _ _ _ E2 (seqb_sym _ _ H)) as Hc. congruence.
Qed.

Lemma range_downward (p : Sc -> bool) l : sorted (ekey <$> l) -> (forall x y, slt y x = false -> p y = true -> p x = true) ->
  downward (fun e => p (e_score e)) l.
Proof. intros Hs Hp. apply (sorted_downward (fun k => p k.1)); [done|]. intros x y Hxy. by apply Hp, kle_score. Qed.

Lemma isInRange_spec h z l r : zinv h z l -> sorted (ekey <$> l) -> exists ok, zslIsInRange h z r = Some ok /\
  (ok = false -> Forall (fun e => in_range r (e_score e) = false) l) /\
  (ok = true -> exists e1 l1 l2 e2, l = e1 :: l1 /\ l = l2 ++ [e2] /\ zslValueLteMax (e_score e1) r = true /\ zslValueGteMin (e_score e2) r = true).
Proof.
  intros Hz Hs. unfold zslIsInRange. destruct (_ || _) eqn:Ee.
  { exists false. split; [done|]. split; [|done]. intros _. apply Forall_forall. intros e _. by apply empty_range. }
  rewrite (zi_tail _ _ _ Hz). destruct l as [|e2 l2 _] using rev_ind.
  { exists false. split; [done|]. by split. }
  rewrite back_snoc. destruct (node_at _ _ _ _ l2 e2 [] (zi_links _ _ _ Hz) eq_refl) as (n2 & -> & _ & Hs2 & _).
  cbn [mbind option_bind]. rewrite Hs2.
  assert (forall e, e ∈ l2 ++ [e2] -> slt (e_score e2) (e_score e) = false) as Hlast.
  { intros e He. apply elem_of_app in He as [He|He%list_elem_of_singleton]; [|subst; apply slt_irrefl].
    apply list_elem_of_split in He as (u & v & ->). apply (kle_score (ekey e) (ekey e2)).
    eapply (sorted_split _ _ _ (ekey <$> u) (ekey <$> v) [] Hs). rewrite <- app_assoc. by rewrite !fmap_app. }
  destruct (zslValueGteMin (e_score e2) r) eqn:E2; cbn [negb].
  2: { exists false. split; [done|]. split; [|done]. intros _. apply Forall_forall. intros e He. apply andb_false_iff. left.
       apply Bool.not_true_iff_false. intros Hg. by rewrite (gte_up r _ _ (Hlast e He) Hg) in E2. }
  pose proof (link0 h z (l2 ++ [e2]) [] (l2 ++ [e2]) Hz eq_refl) as Hl0. rewrite cur_nil in Hl0. rewrite Hl0.
  cbn [mbind option_bind forward].
  destruct (l2 ++ [e2]) as [|e1 l1] eqn:El; [by destruct l2|]. cbn [hd_error fmap option_fmap option_map].
  destruct (node_at _ _ _ _ [] e1 l1 (zi_links _ _ _ Hz) eq_refl) as (n1 & -> & _ & Hs1 & _). cbn [mbind option_bind]. rewrite Hs1.
  exists (zslValueLteMax (e_score e1) r). split; [done|]. split.
  - intros E1. apply Forall_forall. intros e He. apply andb_false_iff. right. apply Bool.not_true_iff_false. intros Hg.
    apply elem_of_cons in He as [->|He]; [congruence|]. apply list_elem_of_split in He as (u & v & ->).
    assert (slt (e_score e) (e_score e1) = false) as Hle.
    { apply (kle_score (ekey e1) (ekey e)). eapply (sorted_split _ _ _ [] (ekey <$> u) (ekey <$> v) Hs).
      by rewrite fmap_cons, fmap_app, fmap_cons. }
    by rewrite (lte_down r _ _ Hle Hg) in E1.
  - intros E1. by exists e1, l1, l2, e2.
Qed.

Lemma find_app (p : ent -> bool) a b : Forall (fun e => p e = false) a -> List.find p (a ++ b) = List.find p b.
Proof. induction 1 as [|e a He Ha IH]; cbn; [done|]. by rewrite He. Qed.

Lemma find_none (p : ent -> bool) l : Forall (fun e => p e = false) l -> List.find p l = None.
Proof. intros Hl. rewrite <- (app_nil_r l). by rewrite find_app. Qed.

Lemma search_score h z l r (p : Sc -> bool) : zinv h z l -> sorted (ekey <$> l) ->
  (forall x y, slt y x = false -> p y = true -> p x = true) ->
  let q e := p (e_score e) in
  zsl_search 64 h z (fun _ _ n => p (score n)) = Some (update_at (header z) (taken q l) <$> seq 0 (zlevel z)) /\
  Forall (fun e => q e = true) (taken q l) /\ Forall (fun e => q e = false) (dropped q l) /\ l = taken q l ++ dropped q l.
Proof.
  intros Hz Hs Hp q. assert (downward q l) as Hd by (by apply range_downward).
  split; [|split; [apply taken_all|split; [by apply dropped_none|apply taken_dropped]]].
  eapply zsl_search_spec; [exact Hz | apply taken_dropped | | lia]. apply selects_taken; [done|]. intros e n _ _ Hsc _ _. by rewrite Hsc.
Qed.

Lemma firstInRange_spec h z l r : zinv h z l -> sorted (ekey <$> l) ->
  zslFirstInRange h z r = Some (e_ptr <$> List.find (fun e => in_range r (e_score e)) l).
Proof.
  intros Hz Hs. unfold zslFirstInRange. destruct (isInRange_spec h z l r Hz Hs) as (ok & -> & Hno & Hyes). cbn [mbind option_bind].
  destruct ok; cbn [negb]; [|by rewrite find_none by auto]. destruct (Hyes eq_refl) as (_ & _ & l2 & e2 & _ & Hl2 & _ & Hg2).
  destruct (search_score h z l r (fun x => negb (zslValueGteMin x r)) Hz Hs) as (-> & Ht & Hn & Htd).
  { intros x y Hxy. rewrite !negb_true_iff. intros Hy. apply Bool.not_true_iff_false. intros Hx. by rewrite (gte_up r x y Hxy Hx) in Hy. }
  set (a := taken _ l) in *. set (b := dropped _ l) in *. cbn [mbind option_bind].
  rewrite (updates_head h z l a b Hz Htd). cbn [mbind option_bind]. rewrite (link0 h z l a b Hz Htd). cbn [mbind option_bind forward].
  assert (find (fun e => in_range r (e_score e)) l = find (fun e => in_range r (e_score e)) b) as ->.
  { rewrite Htd at 1. apply find_app. eapply Forall_impl; [exact Ht|]. intros e He. cbn beta in He. apply negb_true_iff in He.
    unfold in_range. by rewrite He. }
  destruct b as [|e b].
  { rewrite app_nil_r in Htd. rewrite <- Htd, Hl2 in Ht. apply Forall_app in Ht as [_ Ht]. apply Forall_inv in Ht. cbn beta in Ht. by rewrite Hg2 in Ht. }
  cbn [hd_error fmap option_fmap option_map mbind option_bind].
  destruct (node_at _ _ _ _ a e b (zi_links _ _ _ Hz) Htd) as (n & -> & _ & Hsc & _). cbn [mbind option_bind]. rewrite Hsc.
  apply Forall_cons_1 in Hn as [He Hn]. apply negb_false_iff in He. cbn [List.find]. unfold in_range at 1. rewrite He. cbn [andb].
  destruct (zslValueLteMax (e_score e) r) eqn:El; [done|]. rewrite find_none; [done|]. apply Forall_forall. intros x Hx.
  apply andb_false_iff. right. apply Bool.not_true_iff_false. intros Hxl. apply list_elem_of_split in Hx as (u & v & Huv).
  rewrite (lte_down r (e_score e) (e_score x)) in El; [done| |done]. apply (kle_score (ekey e) (ekey x)).
  eapply (sorted_split _ _ _ (ekey <$> a) (ekey <$> u) (ekey <$> v) Hs). by rewrite Htd, Huv, fmap_app, fmap_cons, fmap_app, fmap_cons.
Qed.

Lemma lastInRange_spec h z l r : zinv h z l -> sorted (ekey <$> l) ->
  zslLastInRange h z r = Some (e_ptr <$> List.find (fun e => in_range r (e_score e)) (rev l)).
Proof.
  intros Hz Hs. unfold zslLastInRange. destruct (isInRange_spec h z l r Hz Hs) as (ok & -> & Hno & Hyes). cbn [mbind option_bind].
  destruct ok; cbn [negb]; [|rewrite find_none; [done|by apply Forall_rev, Hno]].
  destruct (Hyes eq_refl) as (e1 & l1 & _ & _ & Hl1 & _ & Hg1 & _).
  destruct (search_score h z l r (fun x => zslValueLteMax x r) Hz Hs) as (-> & Ht & Hn & Htd); [apply lte_down|].
  set (a := taken _ l) in *. set (b := dropped _ l) in *. cbn [mbind option_bind].
  rewrite (updates_head h z l a b Hz Htd). cbn [mbind option_bind].
  assert (find (fun e => in_range r (e_score e)) (rev l) = find (fun e => in_range r (e_score e)) (rev a)) as ->.
  { rewrite Htd at 1. rewrite rev_app_distr. apply find_app. apply Forall_rev. eapply Forall_impl; [exact Hn|]. intros e He.
    unfold in_range. by rewrite He, andb_false_r. }
  destruct a as [|e a _] using rev_ind.
  { cbn [app] in Htd. rewrite <- Htd, Hl1 in Hn. apply Forall_inv in Hn. congruence. }
  rewrite cur_snoc, rev_unit. destruct (node_at _ _ _ _ a e b (zi_links _ _ _ Hz)) as (n & -> & _ & Hsc & _); [by rewrite Htd, <- app_assoc|].
  cbn [mbind option_bind List.find]. rewrite Hsc. apply Forall_app in Ht as [Ht He]. apply Forall_inv in He. unfold in_range at 1. rewrite He, andb_true_r.
  destruct (zslValueGteMin (e_score e) r) eqn:El; [done|]. rewrite find_none; [done|]. apply Forall_rev, Forall_forall. intros x Hx.
  apply andb_false_iff. left. apply Bool.not_true_iff_false. intros Hxl. apply list_elem_of_split in Hx as (u & v & Huv).
  rewrite (gte_up r (e_score x) (e_score e)) in El; [done| |done]. apply (kle_score (ekey x) (ekey e)).
  eapply (sorted_split _ _ _ (ekey <$> u) (ekey <$> v) (ekey <$> b) Hs). rewrite Htd, Huv, <- !app_assoc. by rewrite !fmap_app.
Qed.

End Ranges.

(** Ranges of scores.  [zslFirstInRange] and [zslLastInRange] return the first
    and the last node whose score is in the range, or [NULL] when there is none;
    [zslIsInRange] may only answer no when there is none. *)
Theorem skiplist_score_ranges {Sc Ob : Type} `{HS : Score Sc} `{HO : Member Ob} (h : gmap ptr (@zskiplistNode Sc Ob)) z l r :
  zinv h z l -> sorted (ekey <$> l) ->
  zslFirstInRange h z r = Some (e_ptr <$> List.find (fun e => in_range r (e_score e)) l) /\
  zslLastInRange h z r = Some (e_ptr <$> List.find (fun e => in_range r (e_score e)) (rev l)) /\
  exists ok, zslIsInRange h z r = Some ok /\ (ok = false -> Forall (fun e => in_range r (e_score e) = false) l).
Proof.
  intros Hz Hs. split; [by apply firstInRange_spec|split; [by apply lastInRange_spec|]].
  destruct (isInRange_spec h z l r Hz Hs) as (ok & ? & ? & _). by exists ok.
Qed.

Lemma skiplist_score_ranges_witness : exists (h : gmap ptr (@zskiplistNode Double.double Bytes.str)) z l, ekey <$> l = demo_keys /\
  let r := mk_range (num 1 0) (num 3 1) true false in
  zslFirstInRange h z r = Some (e_ptr <$> List.find (fun e => in_range r (e_score e)) l) /\
  zslLastInRange h z r = Some (e_ptr <$> List.find (fun e => in_range r (e_score e)) (rev l)) /\
  exists ok, zslIsInRange h z r = Some ok /\ (ok = false -> Forall (fun e => in_range r (e_score e) = false) l).
Proof.
  destruct demo_skiplist as (h & z & l & Hz & Hs & Hk & Hnd). exists h, z, l. split; [exact Hk|].
  exact (skiplist_score_ranges h z l (mk_range (num 1 0) (num 3 1) true false) Hz Hs).
Defined.

(** ** Deleting ranges *)
Section DeleteRanges.
Context {Sc Ob : Type} `{HS : Score Sc} `{HO : Member Ob} `{HC : Countable Ob} `{HT : DictType Ob}.
#[local] Abbreviation zheap := (gmap ptr (@zskiplistNode Sc Ob)).
#[local] Abbreviation ent := (entry Sc Ob).
#[local] Abbreviation zdict := (@dict Ob Sc).
Implicit Types (h : zheap) (z : zskiplist) (d : zdict) (l a b m : list ent) (e : ent).

Definition drop_keys (os : list Ob) (g : gmap Ob Sc) : gmap Ob Sc := foldr base.delete g os.

Lemma drop_keys_delete os o g : drop_keys os (base.delete o g) = base.delete o (drop_keys os g).
Proof. induction os as [|o' os IH]; cbn; [done|]. unfold drop_keys in IH. rewrite IH. apply delete_delete. Qed.

Lemma deleteRange_loop_spec (inside : Z -> zskiplistNode -> bool) a b : forall m fuel h z d us x t rem,
  zinv h z (a ++ m ++ b) -> updates_ok z us a -> dict_ok d -> (length m <= fuel)%nat -> x = e_ptr <$> hd_error (m ++ b) ->
  0 <= t -> t + zlen m + 1 < 2 ^ 64 -> 0 <= rem -> rem + zlen m < 2 ^ 64 ->
  (forall m1 e m2 n, m = m1 ++ e :: m2 -> obj n = Some (e_obj e) -> score n = e_score e -> inside (t + zlen m1) n = true) ->
  (forall e b' n, b = e :: b' -> obj n = Some (e_obj e) -> score n = e_score e -> inside (t + zlen m) n = false) ->
  exists h' z' d', zslDeleteRange_loop fuel h z d us x inside t rem = Some (h', z', d', rem + zlen m) /\
    zinv h' z' (a ++ b) /\ header z' = header z /\ dict_ok d' /\ dmap d' = drop_keys (e_obj <$> m) (dmap d) /\
    (forall q, q ∉ header z :: (e_ptr <$> a ++ b) -> h' !! q = if bool_decide (q ∈ e_ptr <$> m) then None else h !! q).
Proof.
  induction m as [|e m IH]; intros fuel h z d us x t rem Hz Hus Hd Hf -> Ht Htb Hr Hrb Hin Hout.
  - exists h, z, d. cbn [app length fmap list_fmap drop_keys foldr] in *. rewrite Z.add_0_r in *. split; [|split_and!; try done].
    destruct b as [|e b]; [by destruct fuel|]. cbn [hd_error fmap option_fmap option_map].
    destruct (node_at _ _ _ _ a e b (zi_links _ _ _ Hz) eq_refl) as (n & Hn & Ho & Hs & _).
    destruct fuel; cbn [zslDeleteRange_loop]; rewrite Hn; cbn [mbind option_bind]; by rewrite (Hout e b n eq_refl Ho Hs).
  - destruct fuel as [|fuel]; [cbn in Hf; lia|]. cbn [app hd_error fmap option_fmap option_map zslDeleteRange_loop] in *.
    destruct (node_at _ _ _ _ a e (m ++ b) (zi_links _ _ _ Hz) eq_refl) as (n & Hn & Ho & Hs & _). rewrite Hn. cbn [mbind option_bind].
    pose proof (Hin [] e m n eq_refl Ho Hs) as Hin0. rewrite Z.add_0_r in Hin0. rewrite Hin0.
    assert (level n !! 0%nat = Some (mk_level (e_ptr <$> hd_error (m ++ b)) (span (nxt 0 (m ++ b))))) as ->.
    { pose proof (link0 h z _ (a ++ [e]) (m ++ b) Hz ltac:(by rewrite <- app_assoc)) as Hl0. rewrite cur_snoc in Hl0. unfold lv in Hl0.
      by rewrite Hn in Hl0. }
    cbn [mbind option_bind forward].
    destruct (deleteNode_spec h z a e (m ++ b) us Hz Hus) as (h1 & z1 & -> & Hz1 & Hh1 & Hus1 & Hf1). cbn [mbind option_bind].
    rewrite Ho. cbn [mbind option_bind]. unfold dictDelete.
    destruct (delete_spec d (e_obj e) Hd) as (d1 & -> & Hd1 & _ & Hm1). cbn [mbind option_bind]. cbn [length] in *.
    destruct (unlink_ptrs _ _ _ _ _ _ (zi_links _ _ _ Hz)) as [Hxh Hxl].
    rewrite !uwrap_small by lia.
    destruct (IH fuel (zslFreeNode h1 (e_ptr e)) z1 d1 us (e_ptr <$> hd_error (m ++ b)) (t + 1) (rem + 1)) as (h2 & z2 & d2 & -> & Hz2 & Hh2 & Hd2 & Hm2 & Hf2); try done; try lia.
    + apply (zinv_frame h1); [done|]. intros q Hq. apply lookup_delete_ne. intros <-. rewrite Hh1 in Hq. set_solver.
    + intros m1 e' m2 n' -> Ho' Hs'. replace (t + 1 + zlen m1) with (t + zlen (e :: m1)) by (cbn [length]; lia). by eapply Hin.
    + intros e' b' n' -> Ho' Hs'. replace (t + 1 + zlen m) with (t + Z.of_nat (S (length m))) by lia. by eapply Hout.
    + exists h2, z2, d2. split; [f_equal; f_equal; lia|]. split; [done|]. split; [congruence|]. split; [done|]. split.
      * rewrite Hm2, Hm1. cbn. apply drop_keys_delete.
      * intros q Hq. rewrite Hf2 by (by rewrite Hh1). cbn [fmap list_fmap]. destruct (decide (q = e_ptr e)) as [->|Hne].
        { rewrite (bool_decide_eq_true_2 (_ ∈ e_ptr e :: _)) by set_solver. case_bool_decide; [done|]. apply lookup_delete_eq. }
        destruct (decide (q ∈ e_ptr <$> m)).
        { rewrite !bool_decide_eq_true_2 by set_solver. done. }
        rewrite !bool_decide_eq_false_2 by set_solver. unfold zslFreeNode. rewrite lookup_delete_ne by done.
        rewrite !fmap_app in *. apply Hf1; rewrite ?fmap_app; set_solver.
Qed.

(** The effect of a range deletion on a list of which [m] is the range. *)
Definition range_deleted h z d l m (res : option (zheap * zskiplist * zdict * Z)) : Prop :=
  exists a b h' z' d', l = a ++ m ++ b /\ res = Some (h', z', d', zlen m) /\ zinv h' z' (a ++ b) /\ header z' = header z /\ dict_ok d' /\
    dmap d' = drop_keys (e_obj <$> m) (dmap d) /\
    forall q, q ∉ header z :: (e_ptr <$> a ++ b) -> h' !! q = if bool_decide (q ∈ e_ptr <$> m) then None else h !! q.

Lemma length_bound h z l : zinv h z l -> zlength z = zlen l /\ zlen l < 2 ^ 31.
Proof. intros Hz. split; [apply Hz|apply (zi_bound _ _ _ _ (zi_links _ _ _ Hz))]. Qed.

(** Deletion of what follows [a] and satisfies [q], which holds of a prefix. *)
Lemma delete_tail (go inside : Z -> Z -> zskiplistNode -> bool) h z d l (p q : ent -> bool) : zinv h z l -> dict_ok d ->
  downward p l -> downward q l ->
  (forall e n, e ∈ l -> obj n = Some (e_obj e) -> score n = e_score e -> forall r s, go r s n = p e) ->
  (forall e n, e ∈ l -> obj n = Some (e_obj e) -> score n = e_score e -> forall r s, inside r s n = q e) ->
  range_deleted h z d l (taken q (dropped p l))
    (us ← zsl_search 64 h z go; '(x, _) ← us !! 0%nat; w ← lv h x 0;
     zslDeleteRange_loop (Z.to_nat (zlength z)) h z d us (forward w) (fun t n => inside t 0 n) 0 0).
Proof.
  intros Hz Hd Hp Hq Hgo Hin. destruct (length_bound h z l Hz) as [Hlen Hbd].
  pose proof (taken_dropped p l) as Hl. pose proof (taken_dropped q (dropped p l)) as Hl2.
  rewrite (zsl_search_spec 64 h z l _ _ _ Hz Hl (selects_taken _ _ _ Hp Hgo)) by lia. cbn [mbind option_bind].
  rewrite (updates_head h z l _ _ Hz Hl). cbn [mbind option_bind]. rewrite (link0 h z l _ _ Hz Hl). cbn [mbind option_bind forward].
  set (a := taken p l) in *. set (m := taken q (dropped p l)) in *. set (b := dropped q (dropped p l)) in *.
  rewrite Hl2 in Hl. assert (zlen l = zlen a + zlen m + zlen b) as Hsum by (rewrite Hl, !length_app; lia).
  pose proof Hz as Hz'. rewrite Hl in Hz'. rewrite Hl2.
  destruct (deleteRange_loop_spec (fun t n => inside t 0 n) a b m (Z.to_nat (zlength z)) h z d (update_at (header z) a <$> seq 0 (zlevel z)) (e_ptr <$> hd_error (m ++ b)) 0 0)
    as (h' & z' & d' & -> & ? & ? & ? & ? & ?); try done; try lia.
  - apply search_updates.
  - intros m1 e m2 n Hm Ho Hs. rewrite (Hin e) by (done || (rewrite Hl, Hm; set_solver)).
    pose proof (taken_all q (dropped p l)) as Ht. fold m in Ht. rewrite Hm in Ht. apply Forall_app in Ht as [_ Ht]. by apply Forall_inv in Ht.
  - intros e b' n Hb Ho Hs. rewrite (Hin e) by (done || (rewrite Hl, Hb; set_solver)).
    assert (downward q (dropped p l)) as Hqd.
    { intros c x u y v Hc. apply (Hq (a ++ c) x u y v). rewrite <- app_assoc. rewrite <- Hc. apply taken_dropped. }
    pose proof (dropped_none q _ Hqd) as Hn. fold b in Hn. rewrite Hb in Hn. by apply Forall_inv in Hn.
  - exists a, b, h', z', d'. split_and!; done.
Qed.

Lemma filter_range (p q : ent -> bool) l : downward p l -> downward q l ->
  taken q (dropped p l) = List.filter (fun e => negb (p e) && q e) l.
Proof.
  intros Hp Hq. assert (downward q (dropped p l)) as Hqd.
  { intros c x u y v Hc. apply (Hq (taken p l ++ c) x u y v). rewrite <- app_assoc. rewrite <- Hc. apply taken_dropped. }
  rewrite <- (proj1 (filter_cut q _ Hqd)), <- (proj2 (filter_cut p l Hp)). clear Hp Hq Hqd.
  induction l as [|e l IH]; [done|]. cbn. destruct (p e); cbn; [done|]. destruct (q e); by rewrite IH.
Qed.

Lemma deleteByScore_spec h z d l r : zinv h z l -> sorted (ekey <$> l) -> dict_ok d ->
  range_deleted h z d l (List.filter (fun e => in_range r (e_score e)) l) (zslDeleteRangeByScore h z r d).
Proof.
  intros Hz Hs Hd. set (p e := negb (zslValueGteMin (e_score e) r)). set (q e := zslValueLteMax (e_score e) r).
  assert (downward p l) as Hp.
  { apply (range_downward (fun x => negb (zslValueGteMin x r))); [done|]. intros x y Hxy. rewrite !negb_true_iff. intros Hy.
    apply Bool.not_true_iff_false. intros Hx. by rewrite (gte_up r x y Hxy Hx) in Hy. }
  assert (downward q l) as Hq by (apply (range_downward (fun x => zslValueLteMax x r)); [done|]; apply lte_down).
  replace (List.filter (fun e => in_range r (e_score e)) l) with (taken q (dropped p l)).
  2: { rewrite (filter_range p q l Hp Hq). apply List.filter_ext. intros e. unfold p, q, in_range. by rewrite negb_involutive. }
  apply (delete_tail (fun _ _ n => if rminex r then sle (score n) (rmin r) else slt (score n) (rmin r))
    (fun _ _ n => zslValueLteMax (score n) r) h z d l p q); try done.
  - intros e n _ _ -> _ _. unfold p, zslValueGteMin. destruct (rminex r); [by rewrite sle_slt|]. by rewrite slt_sle.
  - intros e n _ _ -> _ _. done.
Qed.

(** ** Ranges of members *)
Implicit Types (w : @zlexrangespec Ob).
Definition in_lexrange w (o : Ob) : bool := zslLexValueGteMin o w && zslLexValueLteMax o w.

Lemma lex_gte_up w (x y : Ob) : ~ cmp y x < 0 -> zslLexValueGteMin x w = true -> zslLexValueGteMin y w = true.
Proof.
  unfold zslLexValueGteMin. intros Hxy. destruct (lmin w) as [| |m]; cbn; [by destruct (lminex w)|by destruct (lminex w)|].
  pose proof (cmp_sym x y). pose proof (cmp_sym y x). pose proof (cmp_sym y m). pose proof (cmp_sym m y). pose proof (cmp_sym x m). pose proof (cmp_sym m x).
  pose proof (cmp_trans m x y) as Ht1. pose proof (cmp_trans y m x) as Ht2. pose proof (cmp_eq x y) as He1. pose proof (cmp_eq x m) as He2.
  destruct (lminex w); intros Hc; rewrite ?Z.gtb_lt, ?Z.geb_le in *.
  - destruct (decide (cmp x y = 0)) as [E%He1|]; [by subst|lia].
  - destruct (decide (cmp x y = 0)) as [E%He1|]; [by subst|]. destruct (decide (cmp x m = 0)) as [E%He2|]; [subst; lia|lia].
Qed.

Lemma lex_lte_down w (x y : Ob) : ~ cmp y x < 0 -> zslLexValueLteMax y w = true -> zslLexValueLteMax x w = true.
Proof.
  unfold zslLexValueLteMax. intros Hxy. destruct (lmax w) as [| |m]; cbn; [by destruct (lmaxex w)|by destruct (lmaxex w)|].
  pose proof (cmp_sym x y). pose proof (cmp_sym y x). pose proof (cmp_sym y m). pose proof (cmp_sym m y). pose proof (cmp_sym x m). pose proof (cmp_sym m x).
  pose proof (cmp_trans x y m) as Ht1. pose proof (cmp_trans y m x) as Ht2. pose proof (cmp_trans m x y) as Ht3. pose proof (cmp_eq x y) as He1. pose proof (cmp_eq y m) as He2.
  destruct (lmaxex w); intros Hc; rewrite ?Z.ltb_lt, ?Z.leb_le in *.
  - destruct (decide (cmp x y = 0)) as [E%He1|]; [by subst|lia].
  - destruct (decide (cmp x y = 0)) as [E%He1|]; [by subst|]. destruct (decide (cmp y m = 0)) as [E%He2|]; [subst; lia|lia].
Qed.

(** With a single score the list is sorted by member. *)
Lemma lex_downward (p : Ob -> bool) l : sorted (ekey <$> l) -> (forall e1 e2, e1 ∈ l -> e2 ∈ l -> seqb (e_score e1) (e_score e2) = true) ->
  (forall x y, ~ cmp y x < 0 -> p y = true -> p x = true) -> downward (fun e => p (e_obj e)) l.
Proof.
  intros Hs Hsame Hp c x u y v Hl Hy. eapply Hp, Hy.
  assert (kle (ekey x) (ekey y)) as Hle.
  { eapply (sorted_split _ _ _ (ekey <$> c) (ekey <$> u) (ekey <$> v) Hs). by rewrite Hl, fmap_app, fmap_cons, fmap_app, fmap_cons. }
  unfold kle, kless in Hle. apply orb_false_iff in Hle as [_ Hle]. cbn in Hle. rewrite (Hsame y x) in Hle by (rewrite Hl; set_solver). cbn in Hle. zbool. lia.
Qed.

Lemma deleteByLex_spec h z d l w : zinv h z l -> sorted (ekey <$> l) -> dict_ok d ->
  (forall e1 e2, e1 ∈ l -> e2 ∈ l -> seqb (e_score e1) (e_score e2) = true) ->
  range_deleted h z d l (List.filter (fun e => in_lexrange w (e_obj e)) l) (zslDeleteRangeByLex h z w d).
Proof.
  intros Hz Hs Hd Hsame. set (p e := negb (zslLexValueGteMin (e_obj e) w)). set (q e := zslLexValueLteMax (e_obj e) w).
  assert (downward p l) as Hp.
  { apply (lex_downward (fun x => negb (zslLexValueGteMin x w))); [done|done|]. intros x y Hxy. rewrite !negb_true_iff. intros Hy.
    apply Bool.not_true_iff_false. intros Hx. by rewrite (lex_gte_up w x y Hxy Hx) in Hy. }
  assert (downward q l) as Hq by (apply (lex_downward (fun x => zslLexValueLteMax x w)); [done|done|]; apply lex_lte_down).
  replace (List.filter (fun e => in_lexrange w (e_obj e)) l) with (taken q (dropped p l)).
  2: { rewrite (filter_range p q l Hp Hq). apply List.filter_ext. intros e. unfold p, q, in_lexrange. by rewrite negb_involutive. }
  apply (delete_tail (fun _ _ n => match obj n with Some o => negb (zslLexValueGteMin o w) | None => false end)
    (fun _ _ n => match obj n with Some o => zslLexValueLteMax o w | None => false end) h z d l p q); try done.
  - intros e n _ -> _ _ _. done.
  - intros e n _ -> _ _ _. done.
Qed.

(** ** Ranges of ranks *)
Lemma deleteByRank_spec h z d l start end_ : zinv h z l -> dict_ok d -> 0 <= start < 2 ^ 32 -> 0 <= end_ < 2 ^ 32 ->
  range_deleted h z d l (take (Z.to_nat (end_ - (Z.max 1 start - 1))) (drop (Z.to_nat (start - 1)) l)) (zslDeleteRangeByRank h z start end_ d).
Proof.
  intros Hz Hd Hst Hen. destruct (length_bound h z l Hz) as [Hlen Hbd].
  set (n := Z.to_nat (start - 1)). set (a := take n l). set (k := Z.to_nat (end_ - (Z.max 1 start - 1))).
  set (m := take k (drop n l)). set (b := drop k (drop n l)).
  assert (l = a ++ m ++ b) as Hl by (unfold a, m, b; by rewrite !take_drop). assert (drop n l = m ++ b) as Hmb by (unfold m, b; by rewrite take_drop).
  assert (length a = n `min` length l)%nat as Hla by apply length_take.
  assert (zlen l = zlen a + zlen (m ++ b)) as Hsum by (rewrite Hl at 1; rewrite length_app; lia).
  assert (selects (fun traversed span _ => uwrap 64 (traversed + span) <? start) l a) as Hgo.
  { intros r1 r2 e q nd Hl' _ _. assert (zlen l = zlen ((r1 ++ r2) ++ e :: q)) as Hll by (by rewrite Hl' at 1).
    rewrite !length_app in *. cbn [length] in Hll. rewrite uwrap_small by lia. case_bool_decide; [apply Z.ltb_lt|apply Z.ltb_ge]; lia. }
  unfold zslDeleteRangeByRank. assert (l = a ++ (m ++ b)) as Hl' by done.
  rewrite (zsl_search_spec 64 h z l a (m ++ b) _ Hz Hl' Hgo) by lia. cbn [mbind option_bind].
  rewrite (updates_head h z l a _ Hz Hl'). cbn [mbind option_bind]. rewrite (link0 h z l a _ Hz Hl'). cbn [mbind option_bind forward].
  assert (length m = k `min` (length (m ++ b)))%nat as Hlm by (unfold m at 1; rewrite length_take, Hmb; done).
  assert (zlen (m ++ b) = zlen m + zlen b) as Hmb' by (rewrite length_app; lia).
  rewrite uwrap_small by lia. pose proof Hz as Hz'. rewrite Hl in Hz'.
  destruct (deleteRange_loop_spec (fun t _ => t <=? end_) a b m (Z.to_nat (zlength z)) h z d (update_at (header z) a <$> seq 0 (zlevel z))
    (e_ptr <$> hd_error (m ++ b)) (zlen a + 1) 0) as (h' & z' & d' & -> & ? & ? & ? & ? & ?); try done; try lia.
  - apply search_updates.
  - intros m1 e m2 nd Hm _ _. apply (f_equal length) in Hm. rewrite length_app in Hm. cbn [length] in Hm. apply Z.leb_le. lia.
  - intros e b' nd Hb _ _. apply (f_equal length) in Hb. cbn [length] in Hb. apply Z.leb_gt. lia.
  - exists a, b, h', z', d'. split_and!; done.
Qed.
End DeleteRanges.

(** C35: deleting ranges.  Deleting by score, by member (when all scores are equal)
    or by 1-based rank removes from the skip list exactly the entries of the range,
    frees their nodes and no other, removes their members from the dictionary and
    returns how many there were. *)
Theorem skiplist_delete_ranges {Sc Ob : Type} `{HS : Score Sc} `{HO : Member Ob} `{HC : Countable Ob} `{HT : DictType Ob}
  (h : gmap ptr (@zskiplistNode Sc Ob)) z l (d : @dict Ob Sc) : zinv h z l -> sorted (ekey <$> l) -> dict_ok d ->
  (forall r, range_deleted h z d l (List.filter (fun e => in_range r (e_score e)) l) (zslDeleteRangeByScore h z r d)) /\
  (forall w, (forall e1 e2, e1 ∈ l -> e2 ∈ l -> seqb (e_score e1) (e_score e2) = true) ->
     range_deleted h z d l (List.filter (fun e => in_lexrange w (e_obj e)) l) (zslDeleteRangeByLex h z w d)) /\
  (forall start end_, 0 <= start < 2 ^ 32 -> 0 <= end_ < 2 ^ 32 ->
     range_deleted h z d l (take (Z.to_nat (end_ - (Z.max 1 start - 1))) (drop (Z.to_nat (start - 1)) l)) (zslDeleteRangeByRank h z start end_ d)).
Proof.
  intros Hz Hs Hd. split; [|split].
  - intros r. by apply deleteByScore_spec.
  - intros w Hsame. by apply deleteByLex_spec.
  - intros start end_ H1 H2. by apply deleteByRank_spec.
Qed.

#[local] Instance word_hash : DictType Bytes.str :=
  { hashFunction s := uwrap 32 (zlen (`s)); hashFunction_range s := uwrap_bound 32 (zlen (`s)) ltac:(lia) }.

Lemma skiplist_delete_ranges_witness : exists (h : gmap ptr (@zskiplistNode Double.double Bytes.str)) z l, ekey <$> l = demo_keys /\
  range_deleted h z dictCreate l (take (Z.to_nat (1 - (Z.max 1 1 - 1))) (drop (Z.to_nat (1 - 1)) l)) (zslDeleteRangeByRank h z 1 1 dictCreate).
Proof.
  destruct demo_skiplist as (h & z & l & Hz & Hs & Hk & Hnd). exists h, z, l. split; [exact Hk|].
  apply (skiplist_delete_ranges h z l dictCreate Hz Hs (proj1 create_ok)); lia.
Defined.

(** ** Ranges of members, looked up *)
Section LexRanges.
Context {Sc Ob : Type} `{HS : Score Sc} `{HO : Member Ob}.
Context (minstring maxstring : Ob).
#[local] Abbreviation zheap := (gmap ptr (@zskiplistNode Sc Ob)).
#[local] Abbreviation ent := (entry Sc Ob).
Implicit Types (h : zheap) (z : zskiplist) (l a b : list ent) (e : ent) (w : @zlexrangespec Ob).

(** The shared objects stand for bounds, not for the strings they hold. *)
Definition unshared w : Prop := lex_value minstring maxstring (lmin w) = lex_value minstring maxstring (lmax w) -> lmin w = lmax w.

Lemma lex_gte_min w (x : Ob) : zslLexValueGteMin x w = true -> 0 <= compareStringObjectsForLexRange (Str x) (lmin w).
Proof. unfold zslLexValueGteMin. destruct (lminex w); intros H; zbool; rewrite ?Z.gtb_lt, ?Z.geb_le in H; lia. Qed.

Lemma empty_lexrange w (x : Ob) : unshared w ->
  (compareStringObjectsForLexRange (lmin w) (lmax w) >? 1) ||
    ((cmp (lex_value minstring maxstring (lmin w)) (lex_value minstring maxstring (lmax w)) =? 0) && (lminex w || lmaxex w)) = true ->
  in_lexrange w x = false.
Proof.
  intros Hu H. apply Bool.not_true_iff_false. intros [H1 H2]%andb_prop. unfold zslLexValueGteMin, zslLexValueLteMax in *.
  apply orb_true_iff in H as [H|[H Hex]%andb_prop].
  - apply Z.gtb_lt in H. destruct (lmin w) as [| |m], (lmax w) as [| |M]; cbn in *; try lia.
    pose proof (cmp_sym M m). pose proof (cmp_trans x M m) as Ht. pose proof (cmp_sym x m). pose proof (cmp_sym m x). pose proof (cmp_eq x M).
    assert (0 <= cmp x m) by (destruct (lminex w); zbool; rewrite ?Z.gtb_lt, ?Z.geb_le in H1; lia).
    assert (cmp x M <= 0) by (destruct (lmaxex w); zbool; lia).
    destruct (decide (cmp x M = 0)) as [E|]; [apply cmp_eq in E; subst; lia|lia].
  - apply Z.eqb_eq, cmp_eq, Hu in H. rewrite <- H in H2. apply orb_true_iff in Hex.
    assert (~ (0 < compareStringObjectsForLexRange (Str x) (lmin w) /\ compareStringObjectsForLexRange (Str x) (lmin w) < 0)) by lia.
    destruct (lminex w), (lmaxex w); rewrite ?Z.gtb_lt, ?Z.geb_le in H1; zbool; try lia; by destruct Hex.
Qed.

(** ** The first and last of a range cut by monotone bounds *)
Section Bounds.
Context (gte lte : ent -> bool) (l : list ent).
Context (Hgte : downward (fun e => negb (gte e)) l) (Hlte : downward lte l).

Lemma last_not_gte l2 e2 : l = l2 ++ [e2] -> gte e2 = false -> Forall (fun e => gte e && lte e = false) l.
Proof.
  intros Hl He. apply Forall_forall. intros e Hin. apply andb_false_iff. left. rewrite Hl in Hin.
  apply elem_of_app in Hin as [Hin|Hin%list_elem_of_singleton]; [|by subst]. apply list_elem_of_split in Hin as (u & v & Huv).
  apply negb_true_iff. apply (Hgte u e v e2 []); [by rewrite Hl, Huv, <- app_assoc|]. by rewrite He.
Qed.

Lemma head_not_lte e1 l1 : l = e1 :: l1 -> lte e1 = false -> Forall (fun e => gte e && lte e = false) l.
Proof.
  intros Hl He. apply Forall_forall. intros e Hin. apply andb_false_iff. right. rewrite Hl in Hin.
  apply elem_of_cons in Hin as [->|Hin]; [done|]. apply list_elem_of_split in Hin as (u & v & Huv).
  apply Bool.not_true_iff_false. intros Hq. rewrite (Hlte [] e1 u e v) in He; [done|by rewrite Hl, Huv|done].
Qed.

Lemma find_first l2 e2 : l = l2 ++ [e2] -> gte e2 = true -> exists e b, dropped (fun e => negb (gte e)) l = e :: b /\
  List.find (fun e => gte e && lte e) l = if lte e then Some e else None.
Proof.
  intros Hl He. pose proof (taken_dropped (fun e => negb (gte e)) l) as Htd. pose proof (taken_all (fun e => negb (gte e)) l) as Ht.
  pose proof (dropped_none _ l Hgte) as Hn. destruct (dropped _ l) as [|e b] eqn:Eb.
  { rewrite app_nil_r in Htd. rewrite <- Htd, Hl in Ht. apply Forall_app in Ht as [_ Ht]. apply Forall_inv in Ht. cbn beta in Ht. by rewrite He in Ht. }
  exists e, b. split; [done|]. rewrite Htd at 1. rewrite find_app.
  - cbn [List.find]. apply Forall_cons_1 in Hn as [Hg _]. apply negb_false_iff in Hg. rewrite Hg. cbn [andb]. destruct (lte e) eqn:El; [done|].
    apply find_none, Forall_forall. intros x Hx. apply andb_false_iff. right. apply list_elem_of_split in Hx as (u & v & Huv).
    apply Bool.not_true_iff_false. intros Hq. rewrite (Hlte (taken (fun e => negb (gte e)) l) e u x v) in El; [done|by rewrite Htd at 1; rewrite Huv|done].
  - eapply Forall_impl; [exact Ht|]. intros x Hx. cbn beta in Hx. apply negb_true_iff in Hx. by rewrite Hx.
Qed.

Lemma find_last e1 l1 : l = e1 :: l1 -> lte e1 = true -> exists a e, taken lte l = a ++ [e] /\
  List.find (fun e => gte e && lte e) (rev l) = if gte e then Some e else None.
Proof.
  intros Hl He. pose proof (taken_dropped lte l) as Htd. pose proof (taken_all lte l) as Ht.
  pose proof (dropped_none _ l Hlte) as Hn. destruct (taken lte l) as [|e a _] eqn:Ea using rev_ind.
  { cbn [app] in Htd. rewrite <- Htd, Hl in Hn. apply Forall_inv in Hn. congruence. }
  exists a, e. split; [done|]. rewrite Htd at 1. rewrite rev_app_distr, find_app.
  - rewrite rev_unit. cbn [List.find]. apply Forall_app in Ht as [Ht Hle]. apply Forall_inv in Hle. rewrite Hle, andb_true_r.
    destruct (gte e) eqn:El; [done|]. apply find_none, Forall_rev, Forall_forall. intros x Hx. apply andb_false_iff. left.
    apply list_elem_of_split in Hx as (u & v & Huv). apply negb_true_iff. apply (Hgte u x v e (dropped lte l)); [|by rewrite El].
    rewrite Htd at 1. by rewrite Huv, <- !app_assoc.
  - apply Forall_rev. eapply Forall_impl; [exact Hn|]. intros x Hx. by rewrite Hx, andb_false_r.
Qed.
End Bounds.

Section Same.
Context (h : zheap) (z : zskiplist) (l : list ent) (w : @zlexrangespec Ob).
Context (Hz : zinv h z l) (Hs : sorted (ekey <$> l)).
Context (Hsame : forall e1 e2, e1 ∈ l -> e2 ∈ l -> seqb (e_score e1) (e_score e2) = true) (Hu : unshared w).

Lemma lex_bounds : downward (fun e => negb (zslLexValueGteMin (e_obj e) w)) l /\ downward (fun e => zslLexValueLteMax (e_obj e) w) l.
Proof.
  split.
  - apply (lex_downward (fun x => negb (zslLexValueGteMin x w))); [done|done|]. intros x y Hxy. rewrite !negb_true_iff. intros Hy.
    apply Bool.not_true_iff_false. intros Hx. by rewrite (lex_gte_up w x y Hxy Hx) in Hy.
  - apply (lex_downward (fun x => zslLexValueLteMax x w)); [done|done|]. apply lex_lte_down.
Qed.

Lemma isInLexRange_spec : exists ok, zslIsInLexRange minstring maxstring h z w = Some ok /\
  (ok = false -> Forall (fun e => in_lexrange w (e_obj e) = false) l) /\
  (ok = true -> exists e1 l1 l2 e2, l = e1 :: l1 /\ l = l2 ++ [e2] /\ zslLexValueLteMax (e_obj e1) w = true /\ zslLexValueGteMin (e_obj e2) w = true).
Proof.
  unfold zslIsInLexRange. destruct (_ || _) eqn:Ee.
  { exists false. split; [done|]. split; [|done]. intros _. apply Forall_forall. intros e _. by apply empty_lexrange. }
  rewrite (zi_tail _ _ _ Hz). pose proof (link0 h z l [] l Hz eq_refl) as Hl0. rewrite cur_nil in Hl0. rewrite Hl0.
  assert (l = [] \/ exists l2 e2 e1 l1, l = l2 ++ [e2] /\ l = e1 :: l1) as [Hl|(l2 & e2 & e1 & l1 & Hl2 & Hl1)].
  { clear. destruct l as [|e1 l1]; [by left|right]. destruct (exists_last (l := e1 :: l1)) as (l2 & e2 & ->); [done|].
    destruct l2 as [|e l2]; eauto 10. }
  { exists false. split; [by rewrite Hl|]. split; [by rewrite Hl|done]. }
  assert (back l = Some (e_ptr e2)) as -> by (by rewrite Hl2, back_snoc).
  assert (hd_error l = Some e1) as -> by (by rewrite Hl1).
  destruct (node_at _ _ _ _ l2 e2 [] (zi_links _ _ _ Hz) Hl2) as (n2 & -> & Ho2 & _ & _).
  destruct (node_at _ _ _ _ [] e1 l1 (zi_links _ _ _ Hz) Hl1) as (n1 & Hn1 & Ho1 & _ & _).
  cbn [mbind option_bind forward fmap option_fmap option_map]. rewrite Ho2. cbn [mbind option_bind].
  destruct (zslLexValueGteMin (e_obj e2) w) eqn:E2; cbn [negb].
  2: { exists false. split; [done|]. split; [|done]. intros _.
       by apply (last_not_gte (fun e => zslLexValueGteMin (e_obj e) w) (fun e => zslLexValueLteMax (e_obj e) w) l (proj1 lex_bounds) (proj2 lex_bounds) l2 e2). }
  rewrite Hn1. cbn [mbind option_bind]. rewrite Ho1. cbn [mbind option_bind].
  exists (zslLexValueLteMax (e_obj e1) w). split; [done|]. split.
  - intros E1. by apply (head_not_lte (fun e => zslLexValueGteMin (e_obj e) w) (fun e => zslLexValueLteMax (e_obj e) w) l (proj2 lex_bounds) e1 l1).
  - intros E1. by exists e1, l1, l2, e2.
Qed.

Lemma search_lex (p : Ob -> bool) : downward (fun e => p (e_obj e)) l ->
  zsl_search 64 h z (fun _ _ n => match obj n with Some o => p o | None => false end) =
    Some (update_at (header z) (taken (fun e => p (e_obj e)) l) <$> seq 0 (zlevel z)).
Proof.
  intros Hd. eapply zsl_search_spec; [exact Hz | apply taken_dropped | | lia]. apply selects_taken; [done|].
  intros e n _ Ho _ _ _. by rewrite Ho.
Qed.

Lemma firstInLexRange_spec :
  zslFirstInLexRange minstring maxstring h z w = Some (e_ptr <$> List.find (fun e => in_lexrange w (e_obj e)) l).
Proof.
  unfold zslFirstInLexRange. destruct isInLexRange_spec as (ok & -> & Hno & Hyes). cbn [mbind option_bind].
  destruct ok; cbn [negb]; [|by rewrite find_none by auto]. destruct (Hyes eq_refl) as (_ & _ & l2 & e2 & _ & Hl2 & _ & Hg2).
  destruct lex_bounds as [Hp Hq]. rewrite (search_lex (fun o => negb (zslLexValueGteMin o w)) Hp). cbn [mbind option_bind].
  destruct (find_first (fun e => zslLexValueGteMin (e_obj e) w) _ l Hp Hq l2 e2 Hl2 Hg2) as (e & b & Eb & Hfind).
  pose proof (taken_dropped (fun e => negb (zslLexValueGteMin (e_obj e) w)) l) as Htd. rewrite Eb in Htd.
  rewrite (updates_head h z l _ _ Hz Htd). cbn [mbind option_bind]. rewrite (link0 h z l _ _ Hz Htd).
  cbn [mbind option_bind forward hd_error fmap option_fmap option_map].
  destruct (node_at _ _ _ _ _ e b (zi_links _ _ _ Hz) Htd) as (n & -> & Ho & _ & _). cbn [mbind option_bind]. rewrite Ho. cbn [mbind option_bind].
  unfold in_lexrange. rewrite Hfind. by destruct (zslLexValueLteMax (e_obj e) w).
Qed.

Lemma lastInLexRange_spec :
  zslLastInLexRange minstring maxstring h z w = Some (e_ptr <$> List.find (fun e => in_lexrange w (e_obj e)) (rev l)).
Proof.
  unfold zslLastInLexRange. destruct isInLexRange_spec as (ok & -> & Hno & Hyes). cbn [mbind option_bind].
  destruct ok; cbn [negb]; [|rewrite find_none; [done|by apply Forall_rev, Hno]].
  destruct (Hyes eq_refl) as (e1 & l1 & _ & _ & Hl1 & _ & Hg1 & _).
  destruct lex_bounds as [Hp Hq]. rewrite (search_lex (fun o => zslLexValueLteMax o w) Hq). cbn [mbind option_bind].
  destruct (find_last (fun e => zslLexValueGteMin (e_obj e) w) _ l Hp Hq e1 l1 Hl1 Hg1) as (a & e & Ea & Hfind).
  pose proof (taken_dropped (fun e => zslLexValueLteMax (e_obj e) w) l) as Htd. rewrite Ea in *.
  rewrite (updates_head h z l _ _ Hz Htd). cbn [mbind option_bind]. rewrite cur_snoc.
  destruct (node_at _ _ _ _ a e (dropped (fun e => zslLexValueLteMax (e_obj e) w) l) (zi_links _ _ _ Hz)) as (n & -> & Ho & _ & _);
    [by rewrite Htd at 1; rewrite <- app_assoc|].
  cbn [mbind option_bind]. rewrite Ho. cbn [mbind option_bind].
  unfold in_lexrange. rewrite Hfind. by destruct (zslLexValueGteMin (e_obj e) w).
Qed.
End Same.
End LexRanges.

(** Ranges of members.  When all scores are equal, [zslFirstInLexRange] and
    [zslLastInLexRange] return the first and the last node whose member is in the
    range, or [NULL] when there is none, for every range whose bounds are not the
    shared minimum or maximum against a string spelt like them. *)
Theorem skiplist_lex_ranges {Sc Ob : Type} `{HS : Score Sc} `{HO : Member Ob} (minstring maxstring : Ob)
  (h : gmap ptr (@zskiplistNode Sc Ob)) z l (w : @zlexrangespec Ob) : zinv h z l -> sorted (ekey <$> l) ->
  (forall e1 e2, e1 ∈ l -> e2 ∈ l -> seqb (e_score e1) (e_score e2) = true) -> unshared minstring maxstring w ->
  zslFirstInLexRange minstring maxstring h z w = Some (e_ptr <$> List.find (fun e => in_lexrange w (e_obj e)) l) /\
  zslLastInLexRange minstring maxstring h z w = Some (e_ptr <$> List.find (fun e => in_lexrange w (e_obj e)) (rev l)).
Proof. intros Hz Hs Hsame Hu. split; [by apply firstInLexRange_spec|by apply lastInLexRange_spec]. Qed.

(** The strings the shared objects hold. *)
Definition minstring : Bytes.str := word [109; 105; 110; 115; 116; 114; 105; 110; 103] I.
Definition maxstring : Bytes.str := word [109; 97; 120; 115; 116; 114; 105; 110; 103] I.

Lemma skiplist_lex_ranges_witness : exists (h : gmap ptr (@zskiplistNode Double.double Bytes.str)) z l, ekey <$> l = demo_keys /\
  let w := mk_lexrange (Str (word [98] I)) MaxString true false in
  zslFirstInLexRange minstring maxstring h z w = Some (e_ptr <$> List.find (fun e => in_lexrange w (e_obj e)) l) /\
  zslLastInLexRange minstring maxstring h z w = Some (e_ptr <$> List.find (fun e => in_lexrange w (e_obj e)) (rev l)).
Proof.
  destruct demo_skiplist as (h & z & l & Hz & Hs & Hk & Hnd). exists h, z, l. split; [exact Hk|].
  apply (skiplist_lex_ranges minstring maxstring h z l _ Hz Hs).
  - intros e1 e2 H1 H2. assert (forall e, e ∈ l -> e_score e = num 3 1) as Hsc.
    { intros e He. apply (list_elem_of_fmap_2 ekey) in He. rewrite Hk in He. unfold demo_keys in He.
      apply elem_of_cons in He as [He|He]; [exact (f_equal fst He)|]. apply list_elem_of_singleton in He. exact (f_equal fst He). }
    rewrite (Hsc e1 H1), (Hsc e2 H2). reflexivity.
  - intros Hq. apply (f_equal (fun s : Bytes.str => length (`s))) in Hq. discriminate.
Defined.

(** A range of members from the shared minimum to the excluded string
    "minstring" finds nothing, whatever is in range: [zslIsInLexRange] compares the
    string the shared object holds with the other bound and takes the range for an
    empty one. *)
Theorem lex_range_minstring_skipped : exists (h : gmap ptr (@zskiplistNode Double.double Bytes.str)) z l,
  let w := mk_lexrange MinString (Str minstring) false true in
  zinv h z l /\ sorted (ekey <$> l) /\ ekey <$> l = [(num 1 0, word [97] I)] /\
  (forall e, e ∈ l -> in_lexrange w (e_obj e) = true) /\
  zslFirstInLexRange minstring maxstring h z w = Some None /\ zslLastInLexRange minstring maxstring h z w = Some None.
Proof.
  destruct (zslCreate_spec empty_heap) as [Hz Ho]. revert Hz Ho.
  generalize (zslCreate empty_heap).1, (zslCreate empty_heap).2. intros h0 z0 Hz Ho.
  destruct (zrun_krun empty_heap [ZInsert (mk_level None 0) None [] (num 1 0) (word [97] I)] h0 z0 [] Hz)
    as (h & z & l & _ & Hz' & Hk & Hs & _); [constructor|exact Ho|vm_compute; reflexivity|].
  exists h, z, l. split; [exact Hz'|]. split; [exact Hs|]. split; [exact (eq_trans Hk eq_refl)|]. split; [|split; reflexivity].
  intros e He. apply (list_elem_of_fmap_2 ekey) in He. assert (ekey <$> l = [(num 1 0, word [97] I)]) as Hl by exact (eq_trans Hk eq_refl).
  rewrite Hl in He. apply list_elem_of_singleton in He. replace (e_obj e) with (word [97] I) by exact (eq_sym (f_equal snd He)). reflexivity.
Qed.
