(* ===== verification/SetType.v ===== *)
(** * Sets (t_set.c, the type level API)

    A set is an intset while all its elements are integers and there are few of
    them, and a hash table with the elements as keys from then on.  The tables are
    those of [Dict.v], keyed by the text of the elements: the hash and comparison
    callbacks of [setDictType] only look at the text of an object, whatever its
    encoding ([dictEncObjHash], [dictEncObjKeyCompare]).  Each definition
    returns the set object as the function leaves it, next to its result; [None]
    is a failed assertion or an access out of bounds.

    The theorems relate both encodings to a finite set of texts. *)
From Stdlib Require Import Lia ZArith String Sorting.Sorted.
From stdpp Require Import base numbers list tactics option gmap fin_maps fin_sets sets.
From S2P Require Import Prelude Util Intset Dict DictRep DictIter DictRandom.

#[local] Open Scope Z_scope.

Definition REDIS_HT_MINFILL : Z := 10.

(** The text of an object, and so what is hashed, whatever the encoding. *)
Definition setDictType (dict_hash_function_seed : Z) : DictType (list Z) := sds_DictType dict_hash_function_seed.

(** The encoding of a set object with its payload. *)
Inductive setobj := INTSET (iset : intset) | HT (d : @dict (list Z) unit).

(** What an iterator yields: an integer, or an object with its text. *)
Inductive setele := EleInt (v : Z) | EleObj (s : list Z).
Definition ele_text (e : setele) : list Z := match e with EleInt v => Dec.dec v | EleObj s => s end.

(** [isObjectRepresentableAsLongLong], on the text of the object. *)
Definition representable (value : list Z) : option Z := Dec.string2ll value.

Definition dictSlots {K V} (d : @dict K V) : Z := size (ht0 d) + size (ht1 d).

Definition htNeedsResize {K V} (d : @dict K V) : bool :=
  let size := dictSlots d in
  let used := dictSize d in
  negb (size =? 0) && negb (used =? 0) && (size >? DICT_HT_INITIAL_SIZE) && (used * 100 / size <? REDIS_HT_MINFILL).

Section SetType.
Context `{DT : DictType (list Z)} (dict_can_resize : bool) (finger : @dict (list Z) unit -> Z).
(** [server.set_max_intset_entries], and the bytes beyond the old end of a grown allocation. *)
Context (set_max_intset_entries : Z) (junk : nat -> Z).

Definition createIntsetObject : setobj := INTSET intsetNew.
Definition createSetObject : setobj := HT dictCreate.

Definition setTypeCreate (value : list Z) : setobj :=
  match representable value with Some _ => createIntsetObject | None => createSetObject end.

Definition setTypeSize (subject : setobj) : Z :=
  match subject with HT d => dictSize d | INTSET iset => intsetLen iset end.

(** ** Iterators *)

Inductive setTypeIterator := IterHT (di : @dictIterator (list Z) unit) | IterIntset (ii : Z).

Definition setTypeInitIterator (subject : setobj) : setTypeIterator :=
  match subject with HT _ => IterHT dictGetIterator | INTSET _ => IterIntset 0 end.

(** More bucket visits than one call can make. *)
Definition next_fuel (d : @dict (list Z) unit) : nat := length (table (ht0 d)) + length (table (ht1 d)) + 4.

(** The [None] inside is the result -1. *)
Definition setTypeNext (subject : setobj) (si : setTypeIterator) : option (setobj * setTypeIterator * option setele) :=
  match si, subject with
  | IterHT di, HT d =>
      '(d, di, de) ← dictNext finger (next_fuel d) d di;
      Some (HT d, IterHT di, option_map (fun e => EleObj e.1) de)
  | IterIntset ii, INTSET iset =>
      v ← intsetGet iset ii;
      Some (subject, IterIntset (ii + 1), option_map EleInt v)
  | _, _ => None
  end.

(** The object returned is its text. *)
Definition setTypeNextObject (subject : setobj) (si : setTypeIterator) : option (setobj * setTypeIterator * option (list Z)) :=
  '(subject, si, e) ← setTypeNext subject si; Some (subject, si, option_map ele_text e).

Definition setTypeReleaseIterator (subject : setobj) (si : setTypeIterator) : option setobj :=
  match si, subject with
  | IterHT di, HT d => d ← dictReleaseIterator finger d di; Some (HT d)
  | IterHT _, INTSET _ => None
  | IterIntset _, _ => Some subject
  end.

(** ** Conversion *)

(** [while (setTypeNext(si,NULL,&intele) != -1) ...]: each integer becomes a key. *)
Fixpoint setTypeConvert_loop (fuel : nat) (setobj : setobj) (si : setTypeIterator) (d : @dict (list Z) unit) :
    option (@dict (list Z) unit) :=
  match fuel with
  | O => None
  | S fuel =>
      '(setobj, si, e) ← setTypeNext setobj si;
      match e with
      | None => Some d
      | Some e =>
          '(d, ok) ← dictAdd dict_can_resize tt d (ele_text e) tt;
          if (ok : bool) then setTypeConvert_loop fuel setobj si d else None
      end
  end.

(** [setTypeConvert(setobj,REDIS_ENCODING_HT)] *)
Definition setTypeConvert (setobj : setobj) : option SetType.setobj :=
  match setobj with
  | HT _ => None
  | INTSET iset =>
      '(d, _) ← dictExpand dictCreate (intsetLen iset);
      let si := setTypeInitIterator setobj in
      d ← setTypeConvert_loop (S (Z.to_nat (intsetLen iset))) setobj si d;
      Some (HT d)
  end.

(** ** Elements *)

Definition setTypeAdd (subject : setobj) (value : list Z) : option (setobj * bool) :=
  match subject with
  | HT d => '(d, ok) ← dictAdd dict_can_resize tt d value tt; Some (HT d, ok)
  | INTSET iset =>
      match representable value with
      | Some llval =>
          '(iset, success) ← intsetAdd junk iset llval;
          if (success : bool) then
            if intsetLen iset >? set_max_intset_entries then s ← setTypeConvert (INTSET iset); Some (s, true)
            else Some (INTSET iset, true)
          else Some (INTSET iset, false)
      | None =>
          s ← setTypeConvert subject;
          match s with
          | HT d =>
              '(d, ok) ← dictAdd dict_can_resize tt d value tt;
              if (ok : bool) then Some (HT d, true) else None
          | INTSET _ => None
          end
      end
  end.

Definition setTypeRemove (setobj : setobj) (value : list Z) : option (SetType.setobj * bool) :=
  match setobj with
  | HT d =>
      '(d, ok) ← dictDelete d value;
      if (ok : bool) then
        '(d, _) ← (if htNeedsResize d then dictResize dict_can_resize d else Some (d, false));
        Some (HT d, true)
      else Some (HT d, false)
  | INTSET iset =>
      match representable value with
      | Some llval => '(iset, success) ← intsetRemove junk iset llval; Some (INTSET iset, success)
      | None => Some (setobj, false)
      end
  end.

Definition setTypeIsMember (subject : setobj) (value : list Z) : option (setobj * bool) :=
  match subject with
  | HT d => '(d, de) ← dictFind d value; Some (HT d, bool_decide (is_Some de))
  | INTSET iset =>
      match representable value with
      | Some llval => r ← intsetFind iset llval; Some (subject, r)
      | None => Some (subject, false)
      end
  end.

(** [rs] are the numbers [random()] and [rand()] return. *)
Definition setTypeRandomElement (setobj : setobj) (rs : list Z) : option (SetType.setobj * list Z * setele) :=
  match setobj with
  | HT d =>
      '(d, rs, de) ← dictGetRandomKey d rs;
      de ← de;
      Some (HT d, rs, EleObj de.1)
  | INTSET iset =>
      match rs with
      | [] => None
      | r :: rs => v ← intsetRandom r iset; Some (setobj, rs, EleInt v)
      end
  end.

End SetType.

(** ** What a set holds *)

Section Rep.
Context `{DT : DictType (list Z)}.
#[local] Abbreviation dict := (@dict (list Z) unit).

(** The elements of a set object in the order an iterator meets them. *)
Inductive set_elems : setobj -> list setele -> Prop :=
  | elems_intset iset l : rep iset l -> set_elems (INTSET iset) (EleInt <$> l)
  | elems_ht d : dict_ok d -> set_elems (HT d) ((fun e => EleObj e.1) <$> entries d).

Definition set_rep (s : setobj) (X : gset (list Z)) : Prop :=
  exists es, set_elems s es /\ X = list_to_set (ele_text <$> es).

Lemma rep_s64 iset l : rep iset l -> Forall in_s64 l.
Proof.
  intros [He _ _ _ Hr _]. eapply Forall_impl; [exact Hr|]. intros v Hv. unfold in_enc, in_s64, LLONG_MIN, LLONG_MAX in *. destruct He; simpl in *; lia.
Qed.

Lemma representable_spec value v : representable value = Some v <-> in_s64 v /\ value = Dec.dec v.
Proof. apply dec_string2ll. Qed.

Lemma intset_elem (l : list Z) value : Forall in_s64 l ->
  value ∈ Dec.dec <$> l <-> exists v, representable value = Some v /\ v ∈ l.
Proof.
  intros Hl. rewrite Forall_forall in Hl. rewrite list_elem_of_fmap. split.
  - intros (v & -> & Hv). exists v. split; [|done]. apply representable_spec. auto.
  - intros (v & [_ ->]%representable_spec & Hv). eauto.
Qed.

Lemma text_int (l : list Z) : ele_text <$> (EleInt <$> l) = Dec.dec <$> l.
Proof. by rewrite <- list_fmap_compose. Qed.
Lemma text_obj (es : list (list Z * unit)) : ele_text <$> ((fun e => EleObj e.1) <$> es) = es.*1.
Proof. by rewrite <- list_fmap_compose. Qed.

Lemma rep_int iset l : rep iset l -> set_rep (INTSET iset) (list_to_set (Dec.dec <$> l)).
Proof. intros Hr. eexists. split; [by constructor|]. by rewrite text_int. Qed.

Lemma rep_ht d : dict_ok d -> set_rep (HT d) (dom (dmap d)).
Proof.
  intros Hd. eexists. split; [by constructor|]. rewrite text_obj. apply set_eq. intros k.
  rewrite elem_of_list_to_set, elem_of_dom, <- not_eq_None_Some, dmap_lookup_None. destruct (decide (k ∈ (entries d).*1)); naive_solver.
Qed.

Lemma set_rep_inv s X : set_rep s X -> match s with
  | INTSET iset => exists l, rep iset l /\ Forall in_s64 l /\ X = list_to_set (Dec.dec <$> l)
  | HT d => dict_ok d /\ X = dom (dmap d)
  end.
Proof.
  intros (es & He & ->). destruct He as [iset l Hr|d Hd].
  - exists l. rewrite text_int. split_and!; [done | by eapply rep_s64 | done].
  - split; [done|]. destruct (rep_ht d Hd) as (es & He & Heq). inversion He; subst. done.
Qed.

Lemma elems_nodup s es : set_elems s es -> NoDup (ele_text <$> es).
Proof.
  intros [iset l Hr|d Hd].
  - rewrite text_int. pose proof (rep_s64 _ _ Hr) as Hl. apply rep_sorted in Hr.
    induction Hr as [|v l Hs IH Hv]; cbn; [constructor|]. apply Forall_cons in Hl as [Hv64 Hl]. constructor; [|auto].
    rewrite list_elem_of_fmap. intros (x & Hx & Hin). rewrite Forall_forall in Hl, Hv.
    apply dec_inj in Hx; [|done|auto]. specialize (Hv x Hin). lia.
  - rewrite text_obj. apply Hd.
Qed.

Lemma rep_elems_size s es : set_elems s es -> setTypeSize s = zlen es.
Proof.
  intros [iset l Hr|d Hd]; cbn [setTypeSize]; rewrite length_fmap; [apply Hr | apply (used_entries d Hd)].
Qed.

Lemma rep_size s X : set_rep s X -> setTypeSize s = Z.of_nat (base.size X).
Proof.
  intros (es & He & ->). rewrite (rep_elems_size _ _ He), size_list_to_set by (by eapply elems_nodup). by rewrite length_fmap.
Qed.

Lemma size_ints iset l : rep iset l -> zlen l = Z.of_nat (base.size (list_to_set (Dec.dec <$> l) : gset (list Z))).
Proof. intros Hr. rewrite <- (rep_size _ _ (rep_int _ _ Hr)). symmetry. apply Hr. Qed.

Lemma size_ht (d : dict) : dict_ok d -> zlen (entries d) = Z.of_nat (base.size (dom (dmap d) : gset (list Z))).
Proof. intros Hd. by rewrite size_dom, (size_dmap d Hd). Qed.

(** ** Iterators *)

Context (finger : dict -> Z).

(** The elements still to come. *)
Inductive iter_at (s : setobj) : setTypeIterator -> list setele -> Prop :=
  | at_intset iset l i : s = INTSET iset -> rep iset l -> 0 <= i -> iter_at s (IterIntset i) (EleInt <$> drop (Z.to_nat i) l)
  | at_ht d di : s = HT d -> dict_ok d -> iter_ok d di -> it_safe di = false ->
      (fresh di = true \/ it_fingerprint di = finger d) -> iter_at s (IterHT di) ((fun e => EleObj e.1) <$> rest d di).

Lemma init_iter s es : set_elems s es -> iter_at s (setTypeInitIterator s) es.
Proof.
  intros [iset l Hr|d Hd]; cbn [setTypeInitIterator].
  - by apply (at_intset _ iset l 0).
  - assert (entries d = rest d dictGetIterator) as ->.
    { unfold rest, entries, ht_entries. cbn [it_entry it_index it_table dictGetIterator app negb ht]. f_equal.
      destruct (dictIsRehashing d) eqn:Er; [done|]. by rewrite (ok_not_rehashing d Hd Er). }
    apply (at_ht _ d); [done..| | done | by left]. split; [by left | by split].
Qed.

Lemma next_spec s si es : iter_at s si es -> exists si', setTypeNext finger s si = Some (s, si', head es) /\
  match es with [] => setTypeReleaseIterator finger s si' = Some s | _ => iter_at s si' (tail es) end.
Proof.
  intros [iset l i -> Hr Hi|d di -> Hd Hok Hsf Hfp]; cbn [setTypeNext].
  - unfold intsetGet. rewrite (rep_len _ _ Hr). destruct (i <? zlen l) eqn:E; zbool.
    + destruct (lookup_lt_is_Some_2 l (Z.to_nat i)) as [v Hv]; [lia|]. pose proof (get_rep _ _ _ _ Hr Hv) as Hg.
      rewrite Z2Nat.id in Hg by lia. rewrite Hg. cbn [mbind option_bind option_map]. rewrite (drop_S _ _ _ Hv). cbn.
      eexists. split; [done|]. replace (S (Z.to_nat i)) with (Z.to_nat (i + 1)) by lia. by apply (at_intset _ iset); [done..|lia].
    + rewrite drop_ge by lia. cbn. eexists. by split.
  - destruct (iter_next_spec finger (next_fuel d) d di Hd Hok) as (di' & -> & Hfr' & Hsf' & Hfp' & Hrest).
    { destruct (dict_sizes d Hd) as (L0 & L1 & _). unfold visits, next_fuel. destruct Hok as (Hi & Ht & He).
      destruct (it_table di), (dictIsRehashing d), (it_entry di); cbn [andb negb ht] in *; lia. }
    cbn [mbind option_bind].
    assert (opened d di = d) as -> by (unfold opened; by rewrite Hsf, andb_false_r).
    assert (it_fingerprint di' = finger d) as Hfp1.
    { rewrite Hfp'. unfold opened_fp. rewrite Hsf. destruct (fresh di), Hfp; done. }
    destruct (rest d di) as [|e es1]; cbn [fmap list_fmap head tail option_map]; eexists; (split; [done|]).
    + cbn [setTypeReleaseIterator]. unfold dictReleaseIterator. fold (fresh di'). by rewrite Hfr', Hsf', Hsf, Hfp1, Z.eqb_refl.
    + destruct (Hrest ltac:(done)) as (Hok' & Hr' & _). cbn [tail] in Hr'. rewrite <- Hr'.
      apply (at_ht _ d); try done; [congruence | by right].
Qed.
End Rep.

(** ** Operations *)

Section Ops.
Context `{DT : DictType (list Z)} (dict_can_resize : bool) (finger : @dict (list Z) unit -> Z).
Context (set_max_intset_entries : Z) (junk : nat -> Z).
#[local] Abbreviation dict := (@dict (list Z) unit).
#[local] Abbreviation setTypeAdd := (setTypeAdd dict_can_resize finger set_max_intset_entries junk).
#[local] Abbreviation setTypeRemove := (setTypeRemove dict_can_resize junk).
Implicit Types (X : gset (list Z)).

Lemma create_rep value : set_rep (setTypeCreate value) ∅.
Proof. unfold setTypeCreate. destruct (representable value); [exact (rep_int _ _ intsetNew_rep) | exact (rep_ht _ (proj1 create_ok))]. Qed.

(** Adding a key to a table. *)
Lemma ht_add (d : dict) value : dict_ok d -> Z.of_nat (base.size (dom (dmap d) : gset (list Z))) <= 2 ^ 29 ->
  exists d', dictAdd dict_can_resize tt d value tt = Some (d', bool_decide (value ∉ (dom (dmap d) : gset (list Z)))) /\ dict_ok d' /\
    dom (dmap d') = {[value]} ∪ dom (dmap d).
Proof.
  intros Hd Hb. destruct (add_spec dict_can_resize tt d value tt Hd ltac:(rewrite size_ht; done)) as (d' & -> & Hd' & _ & Hm).
  exists d'. split; [|split; [done|]].
  - do 2 f_equal. apply bool_decide_ext. by rewrite not_elem_of_dom.
  - rewrite Hm. case_decide as E; [by rewrite dom_insert_L|]. apply not_eq_None_Some, elem_of_dom in E. set_solver.
Qed.

Lemma convert_loop fuel : forall s si es (d : dict), iter_at finger s si es -> dict_ok d -> NoDup (ele_text <$> es) ->
  (forall e, e ∈ ele_text <$> es -> e ∉ (dom (dmap d) : gset (list Z))) ->
  Z.of_nat (base.size (dom (dmap d) : gset (list Z))) + zlen es <= 2 ^ 29 -> (length es < fuel)%nat ->
  exists d', setTypeConvert_loop dict_can_resize finger fuel s si d = Some d' /\ dict_ok d' /\
    dom (dmap d') = list_to_set (ele_text <$> es) ∪ dom (dmap d).
Proof.
  induction fuel as [|fuel IH]; intros s si es d Hit Hd Hnd Hnew Hb Hf; [lia|]. cbn [setTypeConvert_loop].
  destruct (next_spec finger s si es Hit) as (si' & -> & Hrest). cbn [mbind option_bind].
  destruct es as [|e es]; cbn [head]. { exists d. split; [done|]. split; [done|]. set_solver. }
  destruct (ht_add d (ele_text e) Hd ltac:(cbn [length] in Hb; lia)) as (d1 & -> & Hd1 & Hm1). cbn [mbind option_bind].
  cbn [fmap list_fmap] in Hnd, Hnew. apply NoDup_cons in Hnd as [Hne Hnd].
  assert (ele_text e ∉ (dom (dmap d) : gset (list Z))) as He by (apply Hnew; set_solver).
  rewrite (bool_decide_eq_true_2 _ He).
  destruct (IH s si' es d1) as (d2 & -> & Hd2 & Hm2); [done | done | done | | | cbn in Hf; lia |].
  - intros x Hx. rewrite Hm1. specialize (Hnew x). set_solver.
  - rewrite Hm1, size_union by set_solver. rewrite size_singleton. cbn [length] in Hb. lia.
  - exists d2. split; [done|]. split; [done|]. rewrite Hm2, Hm1. cbn. set_solver.
Qed.

Lemma convert_spec iset l : rep iset l -> exists d, setTypeConvert dict_can_resize finger (INTSET iset) = Some (HT d) /\
  dict_ok d /\ dom (dmap d) = (list_to_set (Dec.dec <$> l) : gset (list Z)).
Proof.
  intros Hr. unfold setTypeConvert. pose proof (rep_len _ _ Hr) as Hl. pose proof (rep_small _ _ Hr) as Hsm. unfold intsetLen.
  destruct (expand_spec (K := list Z) (V := unit) dictCreate (is_length iset) (proj1 create_ok) ltac:(lia)) as (d & ok & -> & (Hd & Hm & _) & _).
  cbn [mbind option_bind]. rewrite (proj2 create_ok) in Hm.
  pose proof (elems_intset iset l Hr) as He.
  destruct (convert_loop (S (Z.to_nat (is_length iset))) (INTSET iset) _ _ d (init_iter finger _ _ He) Hd (elems_nodup _ _ He))
    as (d' & -> & Hd' & Hm').
  - intros e _. rewrite Hm. set_solver.
  - rewrite Hm, dom_empty_L, size_empty, length_fmap. lia.
  - rewrite length_fmap. lia.
  - exists d'. split; [done|]. split; [done|]. rewrite Hm', Hm, text_int. set_solver.
Qed.

Lemma list_to_set_sinsert v l : list_to_set (Dec.dec <$> sinsert v l) = {[Dec.dec v]} ∪ (list_to_set (Dec.dec <$> l) : gset (list Z)).
Proof.
  apply set_eq. intros x. rewrite elem_of_union, !elem_of_list_to_set, !list_elem_of_fmap, elem_of_singleton.
  setoid_rewrite elem_of_sinsert. naive_solver.
Qed.

Lemma set_add s X value : set_rep s X -> Z.of_nat (base.size X) + 1 < 2 ^ 29 ->
  exists s', setTypeAdd s value = Some (s', bool_decide (value ∉ X)) /\ set_rep s' ({[value]} ∪ X).
Proof.
  intros Hs Hb. unfold SetType.setTypeAdd. apply set_rep_inv in Hs. destruct s as [iset|d].
  - destruct Hs as (l & Hr & H64 & ->). rewrite <- (size_ints iset l Hr) in Hb.
    destruct (representable value) as [v|] eqn:Ev.
    + pose proof Ev as [Hv ->]%representable_spec.
      destruct (intsetAdd_rep junk iset l v Hr Hv Hb) as (iset' & -> & Hr' & _). cbn [mbind option_bind].
      assert (v ∈ l <-> Dec.dec v ∈ (list_to_set (Dec.dec <$> l) : gset (list Z))) as Hin.
      { rewrite elem_of_list_to_set, (intset_elem l _ H64), Ev. naive_solver. }
      rewrite (bool_decide_ext (v ∉ l) (Dec.dec v ∉ (list_to_set (Dec.dec <$> l) : gset (list Z)))) by (by rewrite Hin).
      rewrite <- list_to_set_sinsert. case_bool_decide as E.
      * destruct (intsetLen iset' >? set_max_intset_entries).
        -- destruct (convert_spec iset' _ Hr') as (d & -> & Hd & <-). eexists. split; [done | by apply rep_ht].
        -- eexists. split; [done | by apply rep_int].
      * eexists. split; [done | by apply rep_int].
    + destruct (convert_spec iset l Hr) as (d & -> & Hd & Hm). cbn [mbind option_bind].
      destruct (ht_add d value Hd ltac:(rewrite Hm, <- (size_ints iset l Hr); lia)) as (d' & -> & Hd' & Hm'). cbn [mbind option_bind].
      rewrite Hm in *. assert (value ∉ (list_to_set (Dec.dec <$> l) : gset (list Z))) as Hn.
      { rewrite elem_of_list_to_set, (intset_elem l _ H64), Ev. naive_solver. }
      rewrite (bool_decide_eq_true_2 _ Hn). eexists. split; [done|]. rewrite <- Hm'. by apply rep_ht.
  - destruct Hs as [Hd ->]. destruct (ht_add d value Hd ltac:(lia)) as (d' & -> & Hd' & Hm'). cbn [mbind option_bind].
    eexists. split; [done|]. rewrite <- Hm'. by apply rep_ht.
Qed.

Lemma list_to_set_sremove v l : Forall in_s64 l -> in_s64 v ->
  list_to_set (Dec.dec <$> sremove v l) = (list_to_set (Dec.dec <$> l) : gset (list Z)) ∖ {[Dec.dec v]}.
Proof.
  intros Hl Hv. rewrite Forall_forall in Hl. apply set_eq. intros x. unfold sremove.
  rewrite elem_of_difference, !elem_of_list_to_set, !list_elem_of_fmap, elem_of_singleton. setoid_rewrite list_elem_of_filter. split.
  - intros (y & -> & Hy & Hin). split; [eauto|]. intros Heq. apply dec_inj in Heq; auto.
  - intros [(y & -> & Hin) Hy]. exists y. split_and!; try done. by intros ->.
Qed.

Lemma set_remove s X value : set_rep s X -> Z.of_nat (base.size X) < 2 ^ 29 ->
  exists s', setTypeRemove s value = Some (s', bool_decide (value ∈ X)) /\ set_rep s' (X ∖ {[value]}).
Proof.
  intros Hs Hb. unfold SetType.setTypeRemove. pose proof Hs as Hinv. apply set_rep_inv in Hinv. destruct s as [iset|d].
  - destruct Hinv as (l & Hr & H64 & ->). destruct (representable value) as [v|] eqn:Ev.
    + pose proof Ev as [Hv ->]%representable_spec.
      destruct (intsetRemove_rep junk iset l v Hr Hv) as (iset' & -> & Hr'). cbn [mbind option_bind].
      rewrite (bool_decide_ext (v ∈ l) (Dec.dec v ∈ (list_to_set (Dec.dec <$> l) : gset (list Z)))).
      2: { rewrite elem_of_list_to_set, (intset_elem l _ H64), Ev. naive_solver. }
      rewrite <- (list_to_set_sremove v l H64 Hv). eexists. split; [done | by apply rep_int].
    + assert (value ∉ (list_to_set (Dec.dec <$> l) : gset (list Z))) as Hn.
      { rewrite elem_of_list_to_set, (intset_elem l _ H64), Ev. naive_solver. }
      rewrite (bool_decide_eq_false_2 _ Hn). eexists. split; [done|]. by rewrite difference_disjoint_L by set_solver.
  - destruct Hinv as [Hd ->]. unfold dictDelete. destruct (delete_spec d value Hd) as (d1 & -> & Hd1 & _ & Hm1). cbn [mbind option_bind].
    rewrite (bool_decide_ext (is_Some (dmap d !! value)) (value ∈ (dom (dmap d) : gset (list Z)))) by (by rewrite elem_of_dom).
    rewrite <- dom_delete_L, <- Hm1. case_bool_decide as E; [|eexists; split; [done | by apply rep_ht]].
    assert (exists d2 b, (if htNeedsResize d1 then dictResize dict_can_resize d1 else Some (d1, false)) = Some (d2, b) /\ same d1 d2)
      as (d2 & b & -> & Hd2 & Hm2 & _).
    { destruct (htNeedsResize d1); [|by exists d1, false]. apply resize_spec; [done|].
      rewrite (size_ht d1 Hd1), Hm1, dom_delete_L. pose proof (subseteq_size (dom (dmap d) ∖ {[value]}) (dom (dmap d)) ltac:(set_solver)). lia. }
    cbn [mbind option_bind]. eexists. split; [done|]. rewrite <- Hm2. by apply rep_ht.
Qed.

Lemma set_member s X value : set_rep s X -> exists s', setTypeIsMember s value = Some (s', bool_decide (value ∈ X)) /\ set_rep s' X.
Proof.
  intros Hs. unfold setTypeIsMember. pose proof Hs as Hinv. apply set_rep_inv in Hinv. destruct s as [iset|d].
  - destruct Hinv as (l & Hr & H64 & ->). destruct (representable value) as [v|] eqn:Ev.
    + pose proof Ev as [Hv ->]%representable_spec. rewrite (intsetFind_rep iset l v Hr Hv). cbn [mbind option_bind].
      eexists. split; [|done]. do 2 f_equal. apply bool_decide_ext. rewrite elem_of_list_to_set, (intset_elem l _ H64), Ev. naive_solver.
    + eexists. split; [|done]. do 2 f_equal. symmetry. apply bool_decide_eq_false. rewrite elem_of_list_to_set, (intset_elem l _ H64), Ev. naive_solver.
  - destruct Hinv as [Hd ->]. destruct (find_spec d value Hd) as (d1 & r & -> & (Hd1 & Hm1 & _) & Hr). cbn [mbind option_bind].
    eexists. split; [|rewrite <- Hm1; by apply rep_ht]. do 2 f_equal. apply bool_decide_ext. rewrite elem_of_dom.
    destruct r as [r|]; [|rewrite Hr; split; intros []; done]. destruct Hr as (v & -> & _). split; eauto.
Qed.

End Ops.

Section Random.
Context `{DT : DictType (list Z)} (finger : @dict (list Z) unit -> Z).

(** What comes out is an element, and the set object holds the same set; any
    element can come. *)
Lemma set_random s X rs s' rest e : set_rep s X -> X <> ∅ -> Forall random_ok rs -> zlen (elements X) < 2 ^ 31 ->
  setTypeRandomElement s rs = Some (s', rest, e) -> ele_text e ∈ X /\ set_rep s' X /\
    match s, e with INTSET _, EleInt _ => s' = s | HT _, EleObj _ => True | _, _ => False end.
Proof.
  intros Hs Hne Hrs Hlen. pose proof Hs as Hinv. apply set_rep_inv in Hinv. unfold setTypeRandomElement. destruct s as [iset|d].
  - destruct Hinv as (l & Hr & H64 & ->). destruct rs as [|r rs]; [done|]. unfold intsetRandom. rewrite (rep_len _ _ Hr).
    apply Forall_cons in Hrs as [[Hr0 _] _]. assert (zlen l <> 0) as Hl by (destruct l; [by destruct Hne | cbn; lia]).
    pose proof (Z.mod_pos_bound r (zlen l) ltac:(lia)) as Hm.
    destruct (lookup_lt_is_Some_2 l (Z.to_nat (r mod zlen l))) as [v Hv]; [lia|].
    pose proof (get_rep _ _ _ _ Hr Hv) as Hg. rewrite Z2Nat.id in Hg by lia. rewrite Hg. cbn [mbind option_bind].
    intros [= <- <- <-]. split; [|done]. cbn [ele_text]. rewrite elem_of_list_to_set, list_elem_of_fmap.
    exists v. split; [done|]. by eapply list_elem_of_lookup_2.
  - destruct Hinv as [Hd ->]. unfold dictGetRandomKey. destruct (dictSize d =? 0) eqn:E0; zbool; [done|].
    destruct (step_same d Hd) as (d1 & -> & (Hd1 & Hm1 & _) & _). cbn [mbind option_bind].
    assert (dictSize d1 <> 0) as E1.
    { pose proof (rep_size _ _ (rep_ht d Hd)) as H0. pose proof (rep_size _ _ (rep_ht d1 Hd1)) as H1. cbn [setTypeSize] in *.
      rewrite Hm1 in H1. congruence. }
    pose proof (random_chain_spec d1 rs Hd1 E1 Hrs) as Hc. destruct (random_chain d1 rs) as [[he rest']|]; [|done].
    cbn [mbind option_bind]. destruct Hc as (Hhe & Hin & pre & r & Hsplit & _). rewrite Hsplit in Hrs. apply Forall_app in Hrs as [_ Hrs].
    destruct rest' as [|r' rest']; [done|]. rewrite !Forall_cons in Hrs.
    destruct (rd he (Z.rem r' (zlen he))) as [e'|] eqn:Er; [|done]. cbn [mbind option_bind]. intros [= <- <- <-].
    split; [|split; [rewrite <- Hm1; by apply rep_ht | done]]. cbn [ele_text]. rewrite <- Hm1, elem_of_dom.
    exists e'.2. apply dmap_lookup; [apply Hd1|]. apply rd_Some in Er as [_ Er]. destruct e'. cbn. apply Hin. by eapply list_elem_of_lookup_2.
Qed.

End Random.

(** ** Runs of operations *)

Inductive sop := SAdd (value : list Z) | SRemove (value : list Z) | SIsMember (value : list Z) | SSize.

Section Run.
Context `{DT : DictType (list Z)} (dict_can_resize : bool) (finger : @dict (list Z) unit -> Z).
Context (set_max_intset_entries : Z) (junk : nat -> Z).

Definition sop_step (s : setobj) (o : sop) : option (setobj * Z) :=
  match o with
  | SAdd v => '(s, b) ← setTypeAdd dict_can_resize finger set_max_intset_entries junk s v; Some (s, Dec.b2z b)
  | SRemove v => '(s, b) ← setTypeRemove dict_can_resize junk s v; Some (s, Dec.b2z b)
  | SIsMember v => '(s, b) ← setTypeIsMember s v; Some (s, Dec.b2z b)
  | SSize => Some (s, setTypeSize s)
  end.

(** The same operation on a finite set of texts. *)
Definition sop_model (X : gset (list Z)) (o : sop) : gset (list Z) * Z :=
  match o with
  | SAdd v => ({[v]} ∪ X, Dec.b2z (bool_decide (v ∉ X)))
  | SRemove v => (X ∖ {[v]}, Dec.b2z (bool_decide (v ∈ X)))
  | SIsMember v => (X, Dec.b2z (bool_decide (v ∈ X)))
  | SSize => (X, Z.of_nat (base.size X))
  end.

Fixpoint sop_run (s : setobj) (os : list sop) : option (setobj * list Z) :=
  match os with
  | [] => Some (s, [])
  | o :: os => '(s, r) ← sop_step s o; '(s, rs) ← sop_run s os; Some (s, r :: rs)
  end.

Fixpoint sop_run_model (X : gset (list Z)) (os : list sop) : gset (list Z) * list Z :=
  match os with
  | [] => (X, [])
  | o :: os => let '(X, r) := sop_model X o in let '(X, rs) := sop_run_model X os in (X, r :: rs)
  end.

(** A loop [while((ele = setTypeNextObject(si)) != NULL)] and the release: the
    objects met. *)
Fixpoint set_objects (fuel : nat) (s : setobj) (si : setTypeIterator) : option (setobj * list (list Z)) :=
  match fuel with
  | O => None
  | S fuel =>
      '(s, si, ele) ← setTypeNextObject finger s si;
      match ele with
      | None => s ← setTypeReleaseIterator finger s si; Some (s, [])
      | Some ele => '(s, eles) ← set_objects fuel s si; Some (s, ele :: eles)
      end
  end.

Lemma set_objects_spec s : forall es si fuel, iter_at finger s si es -> (length es < fuel)%nat ->
  set_objects fuel s si = Some (s, ele_text <$> es).
Proof.
  induction es as [|e es IH]; intros si [|fuel] Hit Hf; cbn [length] in Hf; try lia; cbn [set_objects]; unfold setTypeNextObject;
    destruct (next_spec finger s si _ Hit) as (si' & -> & Hrest); cbn [mbind option_bind head option_map].
  - by rewrite Hrest.
  - by rewrite (IH si' fuel Hrest) by lia.
Qed.

Lemma sop_step_model s X o : set_rep s X -> Z.of_nat (base.size X) + 1 < 2 ^ 29 ->
  exists s', sop_step s o = Some (s', (sop_model X o).2) /\ set_rep s' (sop_model X o).1 /\
    Z.of_nat (base.size (sop_model X o).1) <= Z.of_nat (base.size X) + 1.
Proof.
  intros Hs Hb. destruct o as [v|v|v|]; cbn [sop_step sop_model fst snd].
  - destruct (set_add dict_can_resize finger set_max_intset_entries junk s X v Hs Hb) as (s' & -> & Hs'). cbn. exists s'. split_and!; try done.
    pose proof (size_union_alt {[v]} X) as Hu. rewrite Hu, size_singleton. pose proof (subseteq_size (X ∖ {[v]}) X ltac:(set_solver)). lia.
  - destruct (set_remove dict_can_resize junk s X v Hs ltac:(lia)) as (s' & -> & Hs'). cbn. exists s'. split_and!; try done.
    pose proof (subseteq_size (X ∖ {[v]}) X ltac:(set_solver)). lia.
  - destruct (set_member s X v Hs) as (s' & -> & Hs'). cbn. exists s'. split_and!; try done. lia.
  - exists s. rewrite (rep_size s X Hs). split_and!; try done. lia.
Qed.

Lemma sop_run_spec os : forall s X, set_rep s X -> Z.of_nat (base.size X) + zlen os < 2 ^ 29 ->
  exists s', sop_run s os = Some (s', (sop_run_model X os).2) /\ set_rep s' (sop_run_model X os).1.
Proof.
  induction os as [|o os IH]; intros s X Hs Hb; cbn [sop_run sop_run_model]; [by exists s|]. cbn [length] in Hb.
  destruct (sop_step_model s X o Hs ltac:(lia)) as (s1 & -> & Hs1 & Hl). cbn [mbind option_bind].
  destruct (sop_model X o) as [X1 r]. cbn [fst snd] in *.
  destruct (IH s1 X1 Hs1 ltac:(lia)) as (s2 & -> & Hs2). cbn [mbind option_bind].
  destruct (sop_run_model X1 os) as [X2 rs]. by exists s2.
Qed.

End Run.

(** C37: a set made by setTypeCreate behaves as a finite set of texts under every
    sequence of setTypeAdd, setTypeRemove, setTypeIsMember and setTypeSize,
    through the upgrade of the integer array, its conversion to a hash table (for
    a value that is not an integer or for too many elements) and the rehashing
    and shrinking of the table: no assertion fails and every result is the one
    the finite set gives.  Iterating over the outcome then meets each element
    exactly once and leaves the set as it was. *)
Theorem setType_refines_set `{DT : DictType (list Z)} (dict_can_resize : bool) (finger : @dict (list Z) unit -> Z)
    (set_max_intset_entries : Z) (junk : nat -> Z) (value : list Z) (os : list sop) : zlen os < 2 ^ 29 ->
  exists s, sop_run dict_can_resize finger set_max_intset_entries junk (setTypeCreate value) os = Some (s, (sop_run_model ∅ os).2) /\
    setTypeSize s = Z.of_nat (base.size (sop_run_model ∅ os).1) /\
    exists eles, set_objects finger (S (Z.to_nat (setTypeSize s))) s (setTypeInitIterator s) = Some (s, eles) /\ NoDup eles /\
      forall x, x ∈ eles <-> x ∈ (sop_run_model ∅ os).1.
Proof.
  intros Hb. destruct (sop_run_spec dict_can_resize finger set_max_intset_entries junk os _ ∅ (create_rep value)) as (s & Hrun & Hs);
    [rewrite size_empty; lia|].
  exists s. split; [done|]. split; [by apply rep_size|]. destruct Hs as (es & He & ->). exists (ele_text <$> es). split_and!.
  - apply set_objects_spec; [by apply init_iter|]. rewrite (rep_elems_size s es He). lia.
  - by eapply elems_nodup.
  - intros x. by rewrite elem_of_list_to_set.
Qed.

Definition demo_set_ops : list sop :=
  [SAdd (bytes_of "12"); SAdd (bytes_of "-7"); SAdd (bytes_of "12"); SSize; SAdd (bytes_of "70000"); SAdd (bytes_of "007");
   SIsMember (bytes_of "-7"); SRemove (bytes_of "7"); SRemove (bytes_of "70000"); SSize].

Lemma setType_refines_set_witness :
  exists s, @sop_run (setDictType 5381) true (fun _ => 0) 512 (fun _ => 0) (setTypeCreate (bytes_of "12")) demo_set_ops = Some (s, [1; 1; 0; 2; 1; 1; 1; 0; 1; 3]) /\
    setTypeSize s = 3.
Proof.
  destruct (@setType_refines_set (setDictType 5381) true (fun _ => 0) 512 (fun _ => 0) (bytes_of "12") demo_set_ops eq_refl) as (s & H1 & H2 & _).
  exists s. split; [exact (eq_trans H1 eq_refl) | exact (eq_trans H2 eq_refl)].
Defined.
