(* ===== verification/Glob.v ===== *)
(** * Glob patterns (stringmatchlen of util.c)

    The pattern and the string are blocks of memory ([pm], [sm]: the characters
    and the terminator that follows them), pointers are positions in them and a
    read outside is [None].  The lengths are signed, as in the code, and may go
    below zero.  Characters are bytes, compared as [char] is: signed. *)
From Stdlib Require Import Lia ZArith String.
From stdpp Require Import base numbers list tactics option.
From S2P Require Import Prelude Util DictIter.

#[local] Open Scope Z_scope.

Section Match.
Context (pm sm : list Z) (nocase : bool).

(** [while (pattern[1] == '*') { pattern++; patternLen--; }] *)
Fixpoint skip_stars (fuel : nat) (p patternLen : Z) : option (Z * Z) :=
  c ← rd pm (p + 1);
  if c =? 42 then match fuel with O => None | S fuel => skip_stars fuel (p + 1) (patternLen - 1) end
  else Some (p, patternLen).

(** The stars left in the pattern are skipped once the string is over. *)
Fixpoint trailing_stars (fuel : nat) (p patternLen : Z) : option Z :=
  c ← rd pm p;
  if c =? 42 then match fuel with O => None | S fuel => trailing_stars fuel (p + 1) (patternLen - 1) end
  else Some patternLen.

Definition char_eq (a b : Z) : bool := if nocase then tolower a =? tolower b else a =? b.

(** Does the character [c] lie in the range written [start]-[end]? *)
Definition in_range (start end_ c : Z) : bool :=
  let '(start, end_) := if s8 start >? s8 end_ then (end_, start) else (start, end_) in
  let f x := if nocase then tolower (s8 x) else s8 x in
  (f c >=? f start) && (f c <=? f end_).

(** The [while(1)] over a character class, for the string position [s]: the
    pattern position and length at its end, and [match]. *)
Fixpoint match_class (fuel : nat) (p patternLen s : Z) (match_ : bool) : option (Z * Z * bool) :=
  match fuel with
  | O => None
  | S fuel =>
      p0 ← rd pm p;
      if p0 =? 92 then
        p1 ← rd pm (p + 1);
        c ← rd sm s;
        match_class fuel (p + 2) (patternLen - 2) s (match_ || (p1 =? c))
      else if p0 =? 93 then Some (p, patternLen, match_)
      else if patternLen =? 0 then Some (p - 1, patternLen + 1, match_)
      else
        p1 ← rd pm (p + 1);
        if (p1 =? 45) && (patternLen >=? 3) then
          p2 ← rd pm (p + 2);
          c ← rd sm s;
          match_class fuel (p + 3) (patternLen - 3) s (match_ || in_range p0 p2 c)
        else
          c ← rd sm s;
          match_class fuel (p + 1) (patternLen - 1) s (match_ || char_eq p0 c)
  end.

(** The end of a round of the main loop, [p] and [s] past the characters dealt
    with: it goes on with [loop] unless the string is over. *)
Definition next_round (fuel : nat) (loop : Z -> Z -> Z -> Z -> option bool) (p patternLen s stringLen : Z) : option bool :=
  if stringLen =? 0 then
    patternLen ← trailing_stars fuel p patternLen; Some ((patternLen =? 0) && (stringLen =? 0))
  else loop p patternLen s stringLen.

Fixpoint stringmatchlen_loop (fuel : nat) (p patternLen s stringLen : Z) : option bool :=
  match fuel with
  | O => None
  | S fuel =>
      if patternLen =? 0 then Some ((patternLen =? 0) && (stringLen =? 0)) else
      p0 ← rd pm p;
      if p0 =? 42 then
        '(p, patternLen) ← skip_stars fuel p patternLen;
        if patternLen =? 1 then Some true else
        (fix star (n : nat) (s stringLen : Z) : option bool :=
          if stringLen =? 0 then Some false else
          match n with
          | O => None
          | S n =>
              r ← stringmatchlen_loop fuel (p + 1) (patternLen - 1) s stringLen;
              if (r : bool) then Some true else star n (s + 1) (stringLen - 1)
          end) fuel s stringLen
      else if p0 =? 63 then
        if stringLen =? 0 then Some false else next_round fuel (stringmatchlen_loop fuel) (p + 1) (patternLen - 1) (s + 1) (stringLen - 1)
      else if p0 =? 91 then
        p1 ← rd pm (p + 1);
        let not := p1 =? 94 in
        let '(p, patternLen) := if not then (p + 2, patternLen - 2) else (p + 1, patternLen - 1) in
        '(p, patternLen, match_) ← match_class fuel p patternLen s false;
        if negb (xorb not match_) then Some false else next_round fuel (stringmatchlen_loop fuel) (p + 1) (patternLen - 1) (s + 1) (stringLen - 1)
      else
        let '(p, patternLen) := if (p0 =? 92) && (patternLen >=? 2) then (p + 1, patternLen - 1) else (p, patternLen) in
        p0 ← rd pm p;
        s0 ← rd sm s;
        if negb (char_eq p0 s0) then Some false else next_round fuel (stringmatchlen_loop fuel) (p + 1) (patternLen - 1) (s + 1) (stringLen - 1)
  end.

End Match.

(** [stringmatchlen] on two strings held with their terminators. *)
Definition match_fuel (pattern string : list Z) : nat := 2 * length pattern + length string + 8.
Definition stringmatchlen (pattern string : list Z) (nocase : bool) : option bool :=
  stringmatchlen_loop (pattern ++ [0]) (string ++ [0]) nocase (match_fuel pattern string) 0 (zlen pattern) 0 (zlen string).


(** ** The reference: what a pattern without classes matches *)

Fixpoint some_suffix (f : list Z -> bool) (s : list Z) : bool :=
  f s || match s with [] => false | _ :: s => some_suffix f s end.

Definition first_is (nocase : bool) (c : Z) (f : list Z -> bool) (s : list Z) : bool :=
  match s with x :: s => char_eq nocase c x && f s | [] => false end.

Fixpoint glob (nocase : bool) (pat s : list Z) : bool :=
  match pat with
  | [] => bool_decide (s = [])
  | c :: rest =>
      if c =? 42 then some_suffix (glob nocase rest) s
      else if c =? 63 then match s with _ :: s => glob nocase rest s | [] => false end
      else if c =? 92 then
        match rest with
        | c' :: rest => first_is nocase c' (glob nocase rest) s
        | [] => first_is nocase c (glob nocase rest) s
        end
      else first_is nocase c (glob nocase rest) s
  end.

(** Characters that are not special to the theorem: no class, no NUL. *)
Definition plain (pat : list Z) : Prop := Forall (fun c => c <> 0 /\ c <> 91) pat.

Section Correct.
Context (nocase : bool).
#[local] Abbreviation glob := (glob nocase).

Lemma some_suffix_nil pat : (forall c rest, pat = c :: rest -> c <> 42) -> pat <> [] -> glob pat [] = false.
Proof.
  intros H Hne. destruct pat as [|c rest]; [done|]. specialize (H c rest eq_refl). cbn [Glob.glob].
  zfalse (c =? 42). destruct (c =? 63); [done|]. destruct (c =? 92); [by destruct rest | done].
Qed.

Lemma some_suffix_idem f s : some_suffix (some_suffix f) s = some_suffix f s.
Proof.
  induction s as [|x s IH]; cbn [some_suffix]; [by rewrite !orb_false_r|]. rewrite IH. by destruct (f _), (some_suffix f s).
Qed.

Lemma some_suffix_ext f g s : (forall t, f t = g t) -> some_suffix f s = some_suffix g s.
Proof. intros H. induction s as [|x s IH]; cbn [some_suffix]; by rewrite H, ?IH. Qed.

Lemma glob_star pat s : glob (42 :: pat) s = some_suffix (glob pat) s.
Proof. done. Qed.

Lemma glob_stars k pat s : glob (42 :: replicate k 42 ++ pat) s = glob (42 :: pat) s.
Proof.
  revert s. induction k as [|k IH]; intros s; [done|]. cbn [replicate app]. rewrite (glob_star (42 :: _)), (some_suffix_ext _ _ s IH).
  rewrite glob_star. setoid_rewrite (some_suffix_ext _ _ s (glob_star pat)). apply some_suffix_idem.
Qed.

(** Leading stars. *)
Lemma split_stars pat : exists k pat', pat = replicate k 42 ++ pat' /\ forall c rest, pat' = c :: rest -> c <> 42.
Proof.
  induction pat as [|c pat (k & pat' & -> & H)]; [by exists O, []|]. destruct (decide (c = 42)) as [->|Hc]; [by exists (S k), pat'|].
  exists O, (c :: replicate k 42 ++ pat'). split; [done|]. intros c' rest [= <- _]. done.
Qed.

Lemma glob_all_stars k : glob (replicate k 42) [] = true.
Proof. induction k as [|k IH]; cbn; [done|]. by rewrite IH. Qed.

Lemma some_suffix_true f s : f [] = true -> some_suffix f s = true.
Proof. intros H. induction s as [|x s IH]; cbn [some_suffix]; [by rewrite H | by rewrite IH, orb_true_r]. Qed.

Section At.
Context (pm sm : list Z).

Lemma rd_head P c Q : pm = P ++ c :: Q -> rd pm (zlen P) = Some c.
Proof. intros ->. apply rd_app. Qed.

Lemma rd_next P c d Q : pm = P ++ c :: d :: Q -> rd pm (zlen P + 1) = Some d.
Proof.
  intros ->. change (P ++ c :: d :: Q) with (P ++ [c] ++ d :: Q). rewrite app_assoc. apply rd_app_at. rewrite length_app. cbn. lia.
Qed.

Lemma skip_stars_spec k : forall P pat fuel, pm = P ++ 42 :: replicate k 42 ++ pat ++ [0] -> (forall c rest, pat = c :: rest -> c <> 42) ->
  (k < fuel)%nat -> forall n, skip_stars pm fuel (zlen P) n = Some (zlen P + Z.of_nat k, n - Z.of_nat k).
Proof.
  induction k as [|k IH]; intros P pat [|fuel] Hpm Hpat Hf n; try lia; cbn [skip_stars].
  - assert (exists d, rd pm (zlen P + 1) = Some d /\ d <> 42) as (d & -> & Hd).
    { destruct pat as [|c pat]; [exists 0 | exists c]; (split; [eapply rd_next; exact Hpm|]); [done | by eapply Hpat]. }
    cbn [mbind option_bind]. zfalse (d =? 42). do 2 f_equal; lia.
  - rewrite (rd_next P 42 42 (replicate k 42 ++ pat ++ [0]) Hpm). cbn [mbind option_bind]. change (42 =? 42) with true. cbn iota.
    replace (zlen P + 1) with (zlen (P ++ [42])) by (rewrite length_app; cbn; lia).
    rewrite (IH (P ++ [42]) pat fuel); [|by rewrite Hpm, <- app_assoc | done | lia]. rewrite length_app. cbn. do 2 f_equal; lia.
Qed.

Lemma trailing_stars_spec pat : forall P fuel, pm = P ++ pat ++ [0] -> plain pat -> (length pat < fuel)%nat ->
  (n ← trailing_stars pm fuel (zlen P) (zlen pat); Some ((n =? 0) && (0 =? 0))) = Some (glob pat []).
Proof.
  induction pat as [|c pat IH]; intros P [|fuel] Hpm Hp Hf; try (cbn in Hf; lia); cbn [trailing_stars].
  - rewrite (rd_head P 0 []) by done. done.
  - rewrite (rd_head P c (pat ++ [0])) by done. cbn [mbind option_bind]. apply Forall_inv_tail in Hp.
    destruct (c =? 42) eqn:E; zbool.
    + subst c. replace (zlen P + 1) with (zlen (P ++ [42])) by (rewrite length_app; cbn; lia).
      replace (zlen (42 :: pat) - 1) with (zlen pat) by (cbn [length]; lia).
      rewrite (IH (P ++ [42]) fuel); [|by rewrite Hpm, <- app_assoc | done | cbn in Hf; lia].
      cbn [Glob.glob]. change (42 =? 42) with true. cbn iota. cbn [some_suffix]. by rewrite orb_false_r.
    + rewrite some_suffix_nil; [|by intros ? ? [= <- _] | done]. cbn. done.
Qed.


End At.

Section Loop.
Context (pm sm : list Z).

Lemma char_eq_nul c : c <> 0 -> char_eq nocase c 0 = false.
Proof.
  intros Hc. unfold char_eq, tolower. destruct nocase; [|apply Z.eqb_neq; lia].
  destruct ((65 <=? c) && (c <=? 90)) eqn:E; cbn; apply Z.eqb_neq; zbool; lia.
Qed.

(** The loop over the suffixes of the string that a star runs. *)
Lemma star_spec fuel P pat (Hstar : forall c rest, pat = c :: rest -> c <> 42) (Hne : pat <> []) :
  (forall S s, sm = S ++ s ++ [0] -> (2 * length pat + length s + 2 < fuel)%nat ->
    stringmatchlen_loop pm sm nocase fuel P (zlen pat) (zlen S) (zlen s) = Some (glob pat s)) ->
  forall n s S, sm = S ++ s ++ [0] -> (2 * length pat + length s + 2 < fuel)%nat -> (length s < n)%nat ->
  (fix star (n : nat) (s stringLen : Z) : option bool :=
    if stringLen =? 0 then Some false else
    match n with
    | O => None
    | S n =>
        r ← stringmatchlen_loop pm sm nocase fuel P (zlen pat) s stringLen;
        if (r : bool) then Some true else star n (s + 1) (stringLen - 1)
    end) n (zlen S) (zlen s) = Some (some_suffix (glob pat) s).
Proof.
  intros Hloop. induction n as [|n IH]; intros s S Hsm Hf Hn; [lia|]. destruct s as [|x s].
  { cbn [some_suffix]. by rewrite some_suffix_nil. }
  assert (zlen (x :: s) =? 0 = false) as -> by (apply Z.eqb_neq; cbn [length]; lia).
  rewrite Hloop by done. cbn [mbind option_bind some_suffix]. destruct (glob pat (x :: s)); [done|]. cbn [orb].
  replace (zlen S + 1) with (zlen (S ++ [x])) by (rewrite length_app; cbn; lia).
  replace (zlen (x :: s) - 1) with (zlen s) by (cbn [length]; lia).
  apply IH; [by rewrite Hsm, <- app_assoc | cbn in Hf; lia | cbn in Hn; lia].
Qed.

(** One position of the pattern that consumes a character. *)
Lemma loop_spec : forall fuel P pat S s, pm = P ++ pat ++ [0] -> sm = S ++ s ++ [0] -> plain pat ->
  (2 * length pat + length s + 2 < fuel)%nat ->
  stringmatchlen_loop pm sm nocase fuel (zlen P) (zlen pat) (zlen S) (zlen s) = Some (glob pat s).
Proof.
  induction fuel as [|fuel IH]; intros P pat S s Hpm Hsm Hp Hf; [lia|]. cbn [stringmatchlen_loop].
  destruct pat as [|c pat].
  { change (zlen [] =? 0) with true. cbn iota. do 2 f_equal. cbn. by destruct s. }
  assert (zlen (c :: pat) =? 0 = false) as -> by (apply Z.eqb_neq; cbn [length]; lia).
  set (next := next_round pm fuel (stringmatchlen_loop pm sm nocase fuel)).
  (* what [next] does after one character of the string was consumed *)
  assert (forall P' pat' x s', pm = P' ++ pat' ++ [0] -> s = x :: s' -> plain pat' -> (length pat' <= length pat)%nat ->
    next (zlen P') (zlen pat') (zlen S + 1) (zlen s - 1) = Some (glob pat' s')) as Hnext.
  { intros P' pat' x s' Hpm' -> Hp' Hl. subst next. unfold next_round. cbn [length] in Hf |- *.
    replace (Z.of_nat (Datatypes.S (length s')) - 1) with (zlen s') by lia. destruct (zlen s' =? 0) eqn:E; zbool.
    - assert (s' = []) as -> by (destruct s'; [done | cbn in E; lia]).
      pose proof (trailing_stars_spec pm pat' P' fuel Hpm' Hp' ltac:(cbn in Hf; lia)) as Ht. exact Ht.
    - replace (zlen S + 1) with (zlen (S ++ [x])) by (rewrite length_app; cbn; lia).
      apply IH; [done | by rewrite Hsm, <- app_assoc | done | lia]. }
  rewrite (rd_head pm P c (pat ++ [0])) by done. cbn [mbind option_bind].
  destruct (Forall_inv Hp) as [Hc0 Hc91]. pose proof (Forall_inv_tail Hp) as Hp1.
  destruct (c =? 42) eqn:E42; zbool.
  { subst c. destruct (split_stars pat) as (k & pat' & -> & Hstar). rewrite glob_stars.
    rewrite length_cons, length_app, length_replicate in *. 
    rewrite (skip_stars_spec pm k P pat' fuel); [|rewrite Hpm; cbn; by rewrite <- app_assoc | done | lia]. cbn [mbind option_bind].
    replace (Z.of_nat (Datatypes.S (k + length pat')) - Z.of_nat k) with (zlen pat' + 1) by lia.
    destruct (zlen pat' + 1 =? 1) eqn:E1; zbool.
    - assert (pat' = []) as -> by (destruct pat'; [done | cbn in E1; lia]). rewrite glob_star, some_suffix_true by done. done.
    - replace (zlen pat' + 1 - 1) with (zlen pat') by lia. rewrite glob_star.
      apply star_spec; [done | by intros -> | | done | lia | lia].
      intros S' s' Hsm' Hf'. replace (zlen P + Z.of_nat k + 1) with (zlen (P ++ 42 :: replicate k 42)) by (rewrite length_app; cbn; rewrite length_replicate; lia).
      apply IH; [by rewrite Hpm; cbn; rewrite <- !app_assoc | done | | lia].
      apply Forall_app in Hp1. apply Hp1. }
  (* literals, escaped or not *)
  assert (forall P' a pat', pm = P' ++ a :: pat' ++ [0] -> a <> 0 -> plain pat' -> (length pat' <= length pat)%nat ->
    (p0 ← rd pm (zlen P'); s0 ← rd sm (zlen S); if negb (char_eq nocase p0 s0) then Some false
     else next (zlen P' + 1) (zlen (a :: pat') - 1) (zlen S + 1) (zlen s - 1)) = Some (first_is nocase a (glob pat') s)) as Hlit.
  { intros P' a pat' Hpm' Ha Hp' Hl. rewrite (rd_head pm P' a (pat' ++ [0])) by done. cbn [mbind option_bind].
    destruct s as [|x s'].
    - rewrite (rd_head sm S 0 []) by done. cbn [mbind option_bind]. by rewrite char_eq_nul.
    - rewrite (rd_head sm S x (s' ++ [0])) by done. cbn [mbind option_bind first_is]. destruct (char_eq nocase a x); [|done]. cbn [negb andb].
      replace (zlen P' + 1) with (zlen (P' ++ [a])) by (rewrite length_app; cbn; lia).
      replace (zlen (a :: pat') - 1) with (zlen pat') by (cbn [length]; lia).
      apply (Hnext (P' ++ [a]) pat' x s'); [by rewrite Hpm', <- app_assoc | done..]. }
  cbn [Glob.glob]. zfalse (c =? 42). destruct (c =? 63) eqn:E63; zbool.
  { destruct s as [|x s']; [done|]. assert (zlen (x :: s') =? 0 = false) as -> by (apply Z.eqb_neq; cbn [length]; lia).
    replace (zlen P + 1) with (zlen (P ++ [c])) by (rewrite length_app; cbn; lia).
    replace (zlen (c :: pat) - 1) with (zlen pat) by (cbn [length]; lia).
    apply (Hnext (P ++ [c]) pat x s'); [by rewrite Hpm, <- app_assoc | done..]. }
  zfalse (c =? 91). destruct (c =? 92) eqn:E92; zbool; cbn [andb].
  - subst c. destruct pat as [|c' pat].
    + change (zlen [92] >=? 2) with false. cbn iota. by apply Hlit.
    + assert (zlen (92 :: c' :: pat) >=? 2 = true) as -> by (apply Z.geb_le; cbn [length]; lia).
      replace (zlen P + 1) with (zlen (P ++ [92])) by (rewrite length_app; cbn; lia).
      replace (zlen (92 :: c' :: pat) - 1) with (zlen (c' :: pat)) by (cbn [length]; lia).
      destruct (Forall_inv Hp1) as [Hc' _]. pose proof (Forall_inv_tail Hp1) as Hp2.
      apply Hlit; [by rewrite Hpm, <- app_assoc | done | done | cbn; lia].
  - by apply Hlit.
Qed.

End Loop.
End Correct.

(** C38: on a pattern without character classes and NULs stringmatchlen reads only
    inside its arguments, ends, and answers as the reference matcher does: a star
    matches any text, a question mark any character, a backslash takes the next
    character literally, letters match up to case on demand.  With a class
    this fails: a class cut off after a backslash makes the function read past the
    end of the pattern whatever the string, and a negated class met at the end
    of the string makes it read past the end of the string. *)
Theorem stringmatchlen_correct (nocase : bool) (pattern string : list Z) : plain pattern ->
  stringmatchlen pattern string nocase = Some (glob nocase pattern string) /\
  (forall fuel, stringmatchlen_loop (bytes_of "[\" ++ [0]) (string ++ [0]) nocase fuel 0 2 0 (zlen string) = None) /\
  (forall fuel, stringmatchlen_loop (bytes_of "[^a]b" ++ [0]) (bytes_of "" ++ [0]) nocase fuel 0 5 0 0 = None).
Proof.
  intros Hp. split; [|split].
  - unfold stringmatchlen, match_fuel. apply (loop_spec nocase (pattern ++ [0]) (string ++ [0]) _ [] pattern [] string); [done..|lia].
  - intros fuel. do 4 (destruct fuel as [|fuel]; [by destruct string | ]). destruct string as [|x [|y string]]; done.
  - intros fuel. do 8 (destruct fuel as [|fuel]; [by destruct nocase|]). by destruct nocase.
Qed.

Lemma stringmatchlen_correct_witness :
  stringmatchlen (bytes_of "news.*\?") (bytes_of "NEWS.it.b?") true = Some true /\
  stringmatchlen_loop (bytes_of "[\" ++ [0]) (bytes_of "a" ++ [0]) false 20 0 2 0 1 = None.
Proof.
  assert (plain (bytes_of "news.*\?")) as Hp by (unfold plain; apply (Forall_cons_2 _ _ _); vm_compute; repeat constructor; congruence).
  split.
  - exact (eq_trans (proj1 (stringmatchlen_correct true (bytes_of "news.*\?") (bytes_of "NEWS.it.b?") Hp)) eq_refl).
  - exact (proj1 (proj2 (stringmatchlen_correct false (bytes_of "news.*\?") (bytes_of "a") Hp)) 20%nat).
Defined.
