(* ===== verification/Server.v ===== *)
(** * The state the commands share (redis.h) and its monad

    One record holds what the modelled commands read and write of
    [struct redisServer], one the databases and one the clients.  Keys, channels,
    patterns and arguments are the texts of the string objects; the dictionaries
    of these structures are finite maps (which [DictRep.v] proves them to be) and the
    lists of clients lists.  A client is known by its identifier where the
    code keeps a pointer to it.

    An operation takes the server to the new server and a result, [None] when an
    assertion fails; [wp] is its total correctness triple. *)
From Stdlib Require Import Lia ZArith String.
From stdpp Require Import base numbers list tactics option gmap fin_maps fin_sets sets.
From S2P Require Import Prelude Util Dict DictIter Object SetType.

#[local] Open Scope Z_scope.

Abbreviation key := (list Z).
Abbreviation cid := positive.

(** ** Data *)

(** A value of the key space; other types than sets are opaque here. *)
Inductive obj := OSet (s : setobj) | OOther (t : otype) (contents : Z).
Definition obj_type (o : obj) : otype := match o with OSet _ => REDIS_SET | OOther t _ => t end.

Inductive reply :=
  | MultiBulkLen (n : Z) | Deferred | Bulk (s : list Z) | Integer (n : Z) | NullBulk | NullMultiBulk | Ok | Queued
  | ErrWrongType | ErrNoKey | ErrSameObject | ErrOutOfRange | ErrSyntax | ErrExecAbort | ErrText (msg : string).

(** The commands of the table [redisCommandTable] that are modelled. *)
Inductive command :=
  | SADD | SREM | SMOVE | SISMEMBER | SCARD | SINTER | SINTERSTORE | SUNION | SUNIONSTORE | SDIFF | SDIFFSTORE
  | DEL | EXISTS | RENAME | RENAMENX | MOVE | EXPIRE | EXPIREAT | PEXPIRE | PEXPIREAT | TTL | PTTL | PERSIST
  | FLUSHDB | FLUSHALL | SUBSCRIBE | UNSUBSCRIBE | PSUBSCRIBE | PUNSUBSCRIBE | PUBLISH
  | MULTI | EXEC | DISCARD | WATCH | UNWATCH.

Record redisDb := mk_db {
  db_dict : gmap key obj; db_expires : gmap key Z; watched_keys : gmap key (list cid);
  blocking_keys : gmap key (list cid); db_ready_keys : gset key }.

Record redisClient := mk_client {
  flags : Z; c_db : Z; argv : list (list Z); c_watched : list (key * Z); mstate : list (command * list (list Z));
  c_channels : gset key; c_patterns : list key; c_reply : list reply }.

(** Flags of a client and classes of events. *)
Definition REDIS_MULTI : Z := 3.
Definition REDIS_DIRTY_CAS : Z := 5.
Definition REDIS_DIRTY_EXEC : Z := 12.
Definition REDIS_PUBSUB : Z := 18.

Definition has_flag (f bit : Z) : bool := Z.testbit f bit.
Definition set_flag (f bit : Z) : Z := Z.lor f (Z.shiftl 1 bit).
Definition clear_flag (f bit : Z) : Z := Z.ldiff f (Z.shiftl 1 bit).

(** What stays fixed while commands run. *)
Record config := mk_config {
  loading : bool; masterhost : bool; lua_time_start : option Z; cluster_enabled : bool; notify_keyspace_events : Z }.

(** [ticks] counts the readings of the clock; [propagated] logs what was fed to
    the AOF and the slaves: database and argument vector. *)
Record server := mk_server {
  cfg : config; dbs : list redisDb; clients : gmap cid redisClient;
  pubsub_channels : gmap key (list cid); pubsub_patterns : list (cid * key);
  ready_keys : list (Z * key); slots_to_keys : gset (Z * key);
  dirty : Z; stat_expiredkeys : Z; stat_keyspace_hits : Z; stat_keyspace_misses : Z;
  ticks : nat; propagated : list (Z * list (list Z)) }.

(** What the model takes as given: the hash function and the resizing policy of
    the tables, addresses, uninitialised memory, the limit of [redis.conf], the
    readings of the clock and the C library's [qsort], which permutes. *)
Class Env := {
  env_hash :: DictType (list Z);
  env_can_resize : bool;
  env_finger : @dict (list Z) unit -> Z;
  env_max_intset : Z;
  env_junk : nat -> Z;
  env_clock : nat -> Z;
  env_qsort : forall {A}, (A -> A -> Z) -> list A -> list A;
  env_qsort_perm : forall {A} (cmp : A -> A -> Z) l, env_qsort cmp l ≡ₚ l;
}.

(** [listDelNode(list,listSearchKey(list,x))]: [None] when [x] is not in the list. *)
Fixpoint list_remove {A} `{EqDecision A} (x : A) (l : list A) : option (list A) :=
  match l with
  | [] => None
  | y :: l => if decide (x = y) then Some l else l' ← list_remove x l; Some (y :: l')
  end.

Lemma list_remove_spec {A} `{EqDecision A} (x : A) l : NoDup l -> match list_remove x l with
  | Some l' => x ∈ l /\ NoDup l' /\ forall y, y ∈ l' <-> y ∈ l /\ y <> x
  | None => x ∉ l
  end.
Proof.
  induction l as [|y l IH]; intros Hnd; cbn [list_remove]; [apply not_elem_of_nil|].
  apply NoDup_cons in Hnd as [Hy Hnd]. destruct (decide (x = y)) as [->|Hne].
  - split; [by left|]. split; [done|]. intros z. rewrite elem_of_cons. split; [|naive_solver]. intros Hz. split; [by right|]. by intros ->.
  - specialize (IH Hnd). destruct (list_remove x l) as [l'|]; cbn; [|by intros [?|?]%elem_of_cons].
    destruct IH as (Hx & Hnd' & Hin). split; [by right|]. split; [constructor; [rewrite Hin; naive_solver | done]|].
    intros z. rewrite !elem_of_cons, Hin. naive_solver.
Qed.

(** ** The monad *)

Definition M (A : Type) : Type := server -> option (server * A).
#[global] Instance M_ret : MRet M := fun A a s => Some (s, a).
#[global] Instance M_bind : MBind M := fun A B f m s => match m s with Some (s, a) => f a s | None => None end.

Definition get : M server := fun s => Some (s, s).
Definition put (s' : server) : M unit := fun _ => Some (s', tt).
Definition fail {A} : M A := fun _ => None.
Definition lift {A} (o : option A) : M A := match o with Some a => mret a | None => fail end.
(** [redisAssert]. *)
Definition assert_ (b : bool) : M unit := if b then mret tt else fail.

(** A loop over a list: [for (j = ...)]. *)
Fixpoint for_each {A} (body : A -> M unit) (l : list A) : M unit :=
  match l with [] => mret tt | a :: l => body a;; for_each body l end.
Fixpoint for_sum {A} (body : A -> M Z) (l : list A) : M Z :=
  match l with [] => mret 0 | a :: l => n ← body a; m ← for_sum body l; mret (n + m) end.

(** ** Field updates *)

Definition upd_dbs (f : list redisDb -> list redisDb) (s : server) : server :=
  mk_server (cfg s) (f (dbs s)) (clients s) (pubsub_channels s) (pubsub_patterns s) (ready_keys s) (slots_to_keys s)
    (dirty s) (stat_expiredkeys s) (stat_keyspace_hits s) (stat_keyspace_misses s) (ticks s) (propagated s).
Definition upd_clients (f : gmap cid redisClient -> gmap cid redisClient) (s : server) : server :=
  mk_server (cfg s) (dbs s) (f (clients s)) (pubsub_channels s) (pubsub_patterns s) (ready_keys s) (slots_to_keys s)
    (dirty s) (stat_expiredkeys s) (stat_keyspace_hits s) (stat_keyspace_misses s) (ticks s) (propagated s).
Definition upd_channels (f : gmap key (list cid) -> gmap key (list cid)) (s : server) : server :=
  mk_server (cfg s) (dbs s) (clients s) (f (pubsub_channels s)) (pubsub_patterns s) (ready_keys s) (slots_to_keys s)
    (dirty s) (stat_expiredkeys s) (stat_keyspace_hits s) (stat_keyspace_misses s) (ticks s) (propagated s).
Definition upd_patterns (f : list (cid * key) -> list (cid * key)) (s : server) : server :=
  mk_server (cfg s) (dbs s) (clients s) (pubsub_channels s) (f (pubsub_patterns s)) (ready_keys s) (slots_to_keys s)
    (dirty s) (stat_expiredkeys s) (stat_keyspace_hits s) (stat_keyspace_misses s) (ticks s) (propagated s).
Definition upd_ready (f : list (Z * key) -> list (Z * key)) (s : server) : server :=
  mk_server (cfg s) (dbs s) (clients s) (pubsub_channels s) (pubsub_patterns s) (f (ready_keys s)) (slots_to_keys s)
    (dirty s) (stat_expiredkeys s) (stat_keyspace_hits s) (stat_keyspace_misses s) (ticks s) (propagated s).
Definition upd_slots (f : gset (Z * key) -> gset (Z * key)) (s : server) : server :=
  mk_server (cfg s) (dbs s) (clients s) (pubsub_channels s) (pubsub_patterns s) (ready_keys s) (f (slots_to_keys s))
    (dirty s) (stat_expiredkeys s) (stat_keyspace_hits s) (stat_keyspace_misses s) (ticks s) (propagated s).
Definition upd_dirty (f : Z -> Z) (s : server) : server :=
  mk_server (cfg s) (dbs s) (clients s) (pubsub_channels s) (pubsub_patterns s) (ready_keys s) (slots_to_keys s)
    (f (dirty s)) (stat_expiredkeys s) (stat_keyspace_hits s) (stat_keyspace_misses s) (ticks s) (propagated s).
Definition upd_stats (expired hits misses : Z) (s : server) : server :=
  mk_server (cfg s) (dbs s) (clients s) (pubsub_channels s) (pubsub_patterns s) (ready_keys s) (slots_to_keys s)
    (dirty s) (stat_expiredkeys s + expired) (stat_keyspace_hits s + hits) (stat_keyspace_misses s + misses) (ticks s) (propagated s).
Definition upd_ticks (f : nat -> nat) (s : server) : server :=
  mk_server (cfg s) (dbs s) (clients s) (pubsub_channels s) (pubsub_patterns s) (ready_keys s) (slots_to_keys s)
    (dirty s) (stat_expiredkeys s) (stat_keyspace_hits s) (stat_keyspace_misses s) (f (ticks s)) (propagated s).
Definition upd_propagated (f : list (Z * list (list Z)) -> list (Z * list (list Z))) (s : server) : server :=
  mk_server (cfg s) (dbs s) (clients s) (pubsub_channels s) (pubsub_patterns s) (ready_keys s) (slots_to_keys s)
    (dirty s) (stat_expiredkeys s) (stat_keyspace_hits s) (stat_keyspace_misses s) (ticks s) (f (propagated s)).

Definition modify (f : server -> server) : M unit := fun s => Some (f s, tt).

(** ** Clients and databases *)

Definition get_client (c : cid) : M redisClient := s ← get; lift (clients s !! c).
Definition mod_client (c : cid) (f : redisClient -> redisClient) : M unit :=
  cl ← get_client c; modify (upd_clients (fun m => <[c := f cl]> m)).

Definition get_db (id : Z) : M redisDb := s ← get; lift (rd (dbs s) id).
Definition mod_db (id : Z) (f : redisDb -> redisDb) : M unit :=
  s ← get; db ← lift (rd (dbs s) id); l ← lift (wr (dbs s) id (f db)); modify (upd_dbs (fun _ => l)).

Definition with_flags (f : Z -> Z) (c : redisClient) : redisClient :=
  mk_client (f (flags c)) (c_db c) (argv c) (c_watched c) (mstate c) (c_channels c) (c_patterns c) (c_reply c).
Definition with_argv (l : list (list Z)) (c : redisClient) : redisClient :=
  mk_client (flags c) (c_db c) l (c_watched c) (mstate c) (c_channels c) (c_patterns c) (c_reply c).
Definition with_watched (l : list (key * Z)) (c : redisClient) : redisClient :=
  mk_client (flags c) (c_db c) (argv c) l (mstate c) (c_channels c) (c_patterns c) (c_reply c).
Definition with_mstate (l : list (command * list (list Z))) (c : redisClient) : redisClient :=
  mk_client (flags c) (c_db c) (argv c) (c_watched c) l (c_channels c) (c_patterns c) (c_reply c).
Definition with_channels (X : gset key) (c : redisClient) : redisClient :=
  mk_client (flags c) (c_db c) (argv c) (c_watched c) (mstate c) X (c_patterns c) (c_reply c).
Definition with_patterns (l : list key) (c : redisClient) : redisClient :=
  mk_client (flags c) (c_db c) (argv c) (c_watched c) (mstate c) (c_channels c) l (c_reply c).
Definition with_reply (l : list reply) (c : redisClient) : redisClient :=
  mk_client (flags c) (c_db c) (argv c) (c_watched c) (mstate c) (c_channels c) (c_patterns c) l.

(** The reply list of a client grows at its end; whether and when it is written
    to the socket is the business of networking.c. *)
Definition addReplies (c : cid) (rs : list reply) : M unit := mod_client c (fun cl => with_reply (c_reply cl ++ rs) cl).
Definition addReply (c : cid) (r : reply) : M unit := addReplies c [r].

(** [c->argv[j]] *)
Definition arg (c : cid) (j : nat) : M (list Z) := cl ← get_client c; lift (argv cl !! j).

(** ** Total correctness *)

Definition wp {A} (m : M A) (s : server) (Q : server -> A -> Prop) : Prop :=
  match m s with Some (s', a) => Q s' a | None => False end.

Section Wp.
Implicit Types (s : server).

Lemma wp_ret {A} (a : A) s (Q : server -> A -> Prop) : Q s a -> wp (mret a) s Q.
Proof. done. Qed.

Lemma wp_bind {A B} (m : M B) (f : B -> M A) s (Q : server -> A -> Prop) : wp m s (fun s' b => wp (f b) s' Q) -> wp (m ≫= f) s Q.
Proof. unfold wp, mbind, M_bind. by destruct (m s) as [[s' b]|]. Qed.

Lemma wp_mono {A} (m : M A) s (Q Q' : server -> A -> Prop) : wp m s Q -> (forall s' a, Q s' a -> Q' s' a) -> wp m s Q'.
Proof. unfold wp. destruct (m s) as [[s' a]|]; auto. Qed.

Lemma wp_lift {A} (o : option A) a s (Q : server -> A -> Prop) : o = Some a -> Q s a -> wp (lift o) s Q.
Proof. by intros ->. Qed.

Lemma wp_get s (Q : server -> server -> Prop) : Q s s -> wp get s Q.
Proof. done. Qed.

Lemma wp_modify f s (Q : server -> unit -> Prop) : Q (f s) tt -> wp (modify f) s Q.
Proof. done. Qed.

Lemma wp_assert (b : bool) s (Q : server -> unit -> Prop) : b = true -> Q s tt -> wp (assert_ b) s Q.
Proof. by intros ->. Qed.

Lemma wp_get_client c cl s (Q : server -> redisClient -> Prop) : clients s !! c = Some cl -> Q s cl -> wp (get_client c) s Q.
Proof. intros H HQ. unfold get_client. apply wp_bind, wp_get. by apply (wp_lift _ cl). Qed.

Lemma wp_mod_client c cl f s (Q : server -> unit -> Prop) : clients s !! c = Some cl ->
  Q (upd_clients (fun m => <[c := f cl]> m) s) tt -> wp (mod_client c f) s Q.
Proof. intros H HQ. unfold mod_client. apply wp_bind. by apply (wp_get_client c cl). Qed.

Lemma wp_get_db id db s (Q : server -> redisDb -> Prop) : rd (dbs s) id = Some db -> Q s db -> wp (get_db id) s Q.
Proof. intros H HQ. unfold get_db. apply wp_bind, wp_get. by apply (wp_lift _ db). Qed.

Lemma wp_mod_db id db f s (Q : server -> unit -> Prop) : rd (dbs s) id = Some db ->
  Q (upd_dbs (fun l => <[Z.to_nat id := f db]> l) s) tt -> wp (mod_db id f) s Q.
Proof.
  intros H HQ. unfold mod_db. apply wp_bind, wp_get, wp_bind, (wp_lift _ db); [done|].
  apply wp_bind, (wp_lift _ (<[Z.to_nat id := f db]> (dbs s))).
  - unfold rd, wr in *. destruct (id <? 0) eqn:E; [done|]. apply lookup_lt_Some in H.
    assert ((0 <=? id) && (id <? zlen (dbs s)) = true) as ->; [lia | done].
  - apply wp_modify. exact HQ.
Qed.

Lemma wp_for_each {B} (body : B -> M unit) (I : list B -> server -> Prop) l s (Q : server -> unit -> Prop) :
  I [] s -> (forall pre b post s, l = pre ++ b :: post -> I pre s -> wp (body b) s (fun s' _ => I (pre ++ [b]) s')) ->
  (forall s, I l s -> Q s tt) -> wp (for_each body l) s Q.
Proof.
  intros H0 Hstep HQ. assert (forall post pre s, l = pre ++ post -> I pre s -> wp (for_each body post) s Q) as H; [|by apply (H l [])].
  induction post as [|b post IH]; intros pre s1 Hl Hpre; cbn [for_each].
  - apply wp_ret, HQ. by rewrite Hl, app_nil_r.
  - apply wp_bind. eapply wp_mono; [by apply (Hstep pre b post)|]. intros s' [] H'. apply (IH (pre ++ [b])); [|done].
    by rewrite <- app_assoc.
Qed.

End Wp.

Lemma has_set_flag f a b : 0 <= a -> 0 <= b -> has_flag (set_flag f a) b = has_flag f b || (a =? b).
Proof.
  intros Ha Hb. unfold has_flag, set_flag. rewrite Z.lor_spec, Z.shiftl_spec by done. f_equal.
  destruct (Z.eqb_spec a b) as [->|Hn]; [by rewrite Z.sub_diag|].
  destruct (decide (b < a)); [by rewrite Z.testbit_neg_r by lia|]. replace 1 with (2 ^ 0) by done. apply Z.pow2_bits_false. lia.
Qed.

Lemma has_clear_flag f a b : 0 <= a -> 0 <= b -> has_flag (clear_flag f a) b = has_flag f b && negb (a =? b).
Proof.
  intros Ha Hb. unfold has_flag, clear_flag. rewrite Z.ldiff_spec, Z.shiftl_spec by done. f_equal. f_equal.
  destruct (Z.eqb_spec a b) as [->|Hn]; [by rewrite Z.sub_diag|].
  destruct (decide (b < a)); [by rewrite Z.testbit_neg_r by lia|]. replace 1 with (2 ^ 0) by done. apply Z.pow2_bits_false. lia.
Qed.
