(* ===== verification/Pubsub.v ===== *)
(** * Publish/subscribe and key space notifications (pubsub.c, notify.c)

    Both directions of the subscription relation are stored: each client has the
    set of its channels and the list of its patterns, the server has the list of
    clients of every channel and the list of all (client, pattern) pairs.  The
    theorems say that the two directions always agree and who gets a message. *)
From Stdlib Require Import Lia ZArith String.
From stdpp Require Import base numbers list tactics option gmap fin_maps fin_sets sets.
From S2P Require Import Prelude Util DictIter Object Glob SetType Server.

#[local] Open Scope Z_scope.

Definition clientSubscriptionsCount (c : redisClient) : Z := Z.of_nat (base.size (c_channels c)) + zlen (c_patterns c).

Section Pubsub.
#[local] Abbreviation mbulkhdr := MultiBulkLen.

Definition pubsubSubscribeChannel (c : cid) (channel : key) : M bool :=
  cl ← get_client c;
  retval ← (if decide (channel ∈ c_channels cl) then mret false else
    mod_client c (fun cl => with_channels ({[channel]} ∪ c_channels cl) cl);;
    s ← get;
    (match pubsub_channels s !! channel with
     | None => modify (upd_channels (<[channel := [c]]>))
     | Some clients => modify (upd_channels (<[channel := clients ++ [c]]>))
     end);;
    mret true);
  (cl ← get_client c; addReplies c [mbulkhdr 3; Bulk (bytes_of "subscribe"); Bulk channel; Integer (clientSubscriptionsCount cl)]);;
  mret retval.

Definition pubsubUnsubscribeChannel (c : cid) (channel : key) (notify : bool) : M bool :=
  cl ← get_client c;
  retval ← (if decide (channel ∈ c_channels cl) then
    mod_client c (fun cl => with_channels (c_channels cl ∖ {[channel]}) cl);;
    s ← get;
    clients ← lift (pubsub_channels s !! channel);
    clients ← lift (list_remove c clients);
    (if zlen clients =? 0 then modify (upd_channels (base.delete channel))
     else modify (upd_channels (<[channel := clients]>)));;
    mret true
  else mret false);
  (if notify then
    cl ← get_client c;
    addReplies c [mbulkhdr 3; Bulk (bytes_of "unsubscribe"); Bulk channel; Integer (clientSubscriptionsCount cl)]
  else mret tt);;
  mret retval.

Definition pubsubSubscribePattern (c : cid) (pattern : key) : M bool :=
  cl ← get_client c;
  retval ← (if decide (pattern ∈ c_patterns cl) then mret false else
    mod_client c (fun cl => with_patterns (c_patterns cl ++ [pattern]) cl);;
    modify (upd_patterns (fun l => l ++ [(c, pattern)]));;
    mret true);
  (cl ← get_client c; addReplies c [mbulkhdr 3; Bulk (bytes_of "psubscribe"); Bulk pattern; Integer (clientSubscriptionsCount cl)]);;
  mret retval.

Definition pubsubUnsubscribePattern (c : cid) (pattern : key) (notify : bool) : M bool :=
  cl ← get_client c;
  retval ← (match list_remove pattern (c_patterns cl) with
    | Some patterns =>
        mod_client c (with_patterns patterns);;
        s ← get;
        l ← lift (list_remove (c, pattern) (pubsub_patterns s));
        modify (upd_patterns (fun _ => l));;
        mret true
    | None => mret false
    end);
  (if notify then
    cl ← get_client c;
    addReplies c [mbulkhdr 3; Bulk (bytes_of "punsubscribe"); Bulk pattern; Integer (clientSubscriptionsCount cl)]
  else mret tt);;
  mret retval.

Definition count (r : bool) : Z := if r then 1 else 0.

(** The safe iterator meets the channels the client had at the start. *)
Definition pubsubUnsubscribeAllChannels (c : cid) (notify : bool) : M Z :=
  cl ← get_client c;
  n ← for_sum (fun channel => r ← pubsubUnsubscribeChannel c channel notify; mret (count r)) (elements (c_channels cl));
  (if notify && (n =? 0) then
    cl ← get_client c;
    addReplies c [mbulkhdr 3; Bulk (bytes_of "unsubscribe"); NullBulk; Integer (clientSubscriptionsCount cl)]
  else mret tt);;
  mret n.

Definition pubsubUnsubscribeAllPatterns (c : cid) (notify : bool) : M Z :=
  cl ← get_client c;
  n ← for_sum (fun pattern => r ← pubsubUnsubscribePattern c pattern notify; mret (count r)) (c_patterns cl);
  (if notify && (n =? 0) then
    cl ← get_client c;
    addReplies c [mbulkhdr 3; Bulk (bytes_of "punsubscribe"); NullBulk; Integer (clientSubscriptionsCount cl)]
  else mret tt);;
  mret n.

Definition message_replies (channel message : list Z) : list reply :=
  [mbulkhdr 3; Bulk (bytes_of "message"); Bulk channel; Bulk message].
Definition pmessage_replies (pattern channel message : list Z) : list reply :=
  [mbulkhdr 4; Bulk (bytes_of "pmessage"); Bulk pattern; Bulk channel; Bulk message].

Definition pubsubPublishMessage (channel message : list Z) : M Z :=
  s ← get;
  n ← (match pubsub_channels s !! channel with
    | Some list => for_sum (fun c => addReplies c (message_replies channel message);; mret 1) list
    | None => mret 0
    end);
  m ← for_sum (fun pat =>
    b ← lift (stringmatchlen pat.2 channel false);
    if (b : bool) then addReplies pat.1 (pmessage_replies pat.2 channel message);; mret 1 else mret 0) (pubsub_patterns s);
  mret (n + m).

(** ** Commands *)

Definition args_from (c : cid) (j : nat) : M (list (list Z)) := cl ← get_client c; mret (drop j (argv cl)).

Definition subscribeCommand (c : cid) : M unit :=
  l ← args_from c 1;
  for_each (fun channel => _ ← pubsubSubscribeChannel c channel; mret tt) l;;
  mod_client c (with_flags (fun f => set_flag f REDIS_PUBSUB)).

Definition clear_if_unsubscribed (c : cid) : M unit :=
  cl ← get_client c;
  if clientSubscriptionsCount cl =? 0 then mod_client c (with_flags (fun f => clear_flag f REDIS_PUBSUB)) else mret tt.

Definition unsubscribeCommand (c : cid) : M unit :=
  cl ← get_client c;
  (if zlen (argv cl) =? 1 then _ ← pubsubUnsubscribeAllChannels c true; mret tt
   else for_each (fun channel => _ ← pubsubUnsubscribeChannel c channel true; mret tt) (drop 1 (argv cl)));;
  clear_if_unsubscribed c.

Definition psubscribeCommand (c : cid) : M unit :=
  l ← args_from c 1;
  for_each (fun pattern => _ ← pubsubSubscribePattern c pattern; mret tt) l;;
  mod_client c (with_flags (fun f => set_flag f REDIS_PUBSUB)).

Definition punsubscribeCommand (c : cid) : M unit :=
  cl ← get_client c;
  (if zlen (argv cl) =? 1 then _ ← pubsubUnsubscribeAllPatterns c true; mret tt
   else for_each (fun pattern => _ ← pubsubUnsubscribePattern c pattern true; mret tt) (drop 1 (argv cl)));;
  clear_if_unsubscribed c.

(** [strcasecmp(a,b) == 0], on the C strings the texts hold. *)
Definition strcaseeq (a b : list Z) : bool := bool_decide ((tolower <$> c_str a) = (tolower <$> c_str b)).

(** PUBSUB CHANNELS, NUMSUB and NUMPAT. *)
Definition pubsubCommand (c : cid) : M unit :=
  cl ← get_client c;
  s ← get;
  sub ← arg c 1;
  let argc := zlen (argv cl) in
  if strcaseeq sub (bytes_of "channels") && ((argc =? 2) || (argc =? 3)) then
    pat ← (if argc =? 2 then mret None else p ← arg c 2; mret (Some p));
    l ← lift (mapM (fun channel =>
      match pat with
      | None => Some (Some channel)
      | Some pat => option_map (fun b : bool => if b then Some channel else None) (stringmatchlen pat channel false)
      end) (map_to_list (pubsub_channels s)).*1);
    let l := omap id l in
    addReplies c (mbulkhdr (zlen l) :: (Bulk <$> l))
  else if strcaseeq sub (bytes_of "numsub") && (argc >=? 2) then
    addReply c (mbulkhdr ((argc - 2) * 2));;
    for_each (fun channel =>
      addReplies c [Bulk channel; Integer (match pubsub_channels s !! channel with Some l => zlen l | None => 0 end)])
      (drop 2 (argv cl))
  else if strcaseeq sub (bytes_of "numpat") && (argc =? 2) then
    addReply c (Integer (zlen (pubsub_patterns s)))
  else addReply c (ErrText "Unknown PUBSUB subcommand or wrong number of arguments").

(** ** Key space notifications *)

Definition REDIS_NOTIFY_KEYSPACE : Z := 1.
Definition REDIS_NOTIFY_KEYEVENT : Z := 2.
Definition REDIS_NOTIFY_GENERIC : Z := 4.
Definition REDIS_NOTIFY_SET : Z := 32.
Definition REDIS_NOTIFY_EXPIRED : Z := 256.

Definition notifyKeyspaceEvent (type : Z) (event : list Z) (k : key) (dbid : Z) : M unit :=
  s ← get;
  let flags := notify_keyspace_events (cfg s) in
  if Z.land flags type =? 0 then mret tt else
  (if negb (Z.land flags REDIS_NOTIFY_KEYSPACE =? 0) then
    _ ← pubsubPublishMessage (bytes_of "__keyspace@" ++ Dec.dec dbid ++ bytes_of "__:" ++ k) event; mret tt
   else mret tt);;
  (if negb (Z.land flags REDIS_NOTIFY_KEYEVENT =? 0) then
    _ ← pubsubPublishMessage (bytes_of "__keyevent@" ++ Dec.dec dbid ++ bytes_of "__:" ++ event) k; mret tt
   else mret tt).

End Pubsub.

(** ** The subscription relation *)

(** What publish/subscribe sees of the server. *)
Definition pview (s : server) : gmap key (list cid) * list (cid * key) * gmap cid (gset key * list key) :=
  (pubsub_channels s, pubsub_patterns s, (fun cl => (c_channels cl, c_patterns cl)) <$> clients s).

(** The server and its clients agree on the subscriptions: to channels [subs],
    to patterns [psubs]. *)
Record pubsub_rep (s : server) (subs psubs : gset (cid * key)) : Prop := {
  pr_channels : forall c cl, clients s !! c = Some cl -> forall ch, ch ∈ c_channels cl <-> (c, ch) ∈ subs;
  pr_patterns : forall c cl, clients s !! c = Some cl -> NoDup (c_patterns cl) /\ forall p, p ∈ c_patterns cl <-> (c, p) ∈ psubs;
  pr_live : forall c x, (c, x) ∈ subs ∪ psubs -> is_Some (clients s !! c);
  pr_lists : forall ch, match pubsub_channels s !! ch with
    | Some l => l <> [] /\ NoDup l /\ forall c, c ∈ l <-> (c, ch) ∈ subs
    | None => forall c, (c, ch) ∉ subs
    end;
  pr_all : NoDup (pubsub_patterns s) /\ forall c p, (c, p) ∈ pubsub_patterns s <-> (c, p) ∈ psubs;
}.

Lemma pview_live s s' c : pview s' = pview s -> is_Some (clients s !! c) -> is_Some (clients s' !! c).
Proof.
  intros H [cl Hcl]. apply (f_equal snd) in H. apply (f_equal (lookup c)) in H. cbn in H. rewrite !lookup_fmap, Hcl in H.
  destruct (clients s' !! c); by eauto.
Qed.

Lemma pubsub_rep_view s s' subs psubs : pview s' = pview s -> pubsub_rep s subs psubs -> pubsub_rep s' subs psubs.
Proof.
  intros Hv [H1 H2 H3 H4 H5]. pose proof Hv as Hv'. unfold pview in Hv'. injection Hv' as Hc Hp Hcl.
  assert (forall c cl', clients s' !! c = Some cl' -> exists cl, clients s !! c = Some cl /\ c_channels cl' = c_channels cl /\
    c_patterns cl' = c_patterns cl) as Hback.
  { intros c cl' H. apply (f_equal (lookup c)) in Hcl. rewrite !lookup_fmap, H in Hcl. destruct (clients s !! c) as [cl|]; [|done].
    injection Hcl as ? ?. eauto. }
  constructor.
  - intros c cl' H. destruct (Hback c cl' H) as (cl & Hs & -> & _). by apply H1.
  - intros c cl' H. destruct (Hback c cl' H) as (cl & Hs & _ & ->). by apply H2.
  - intros c x Hx. eapply pview_live; [exact Hv|]. by eapply H3.
  - intros ch. rewrite Hc. apply H4.
  - rewrite Hp. apply H5.
Qed.

Lemma pview_client s c cl cl' : clients s !! c = Some cl -> c_channels cl' = c_channels cl -> c_patterns cl' = c_patterns cl ->
  pview (upd_clients (fun m => <[c := cl']> m) s) = pview s.
Proof.
  intros H H1 H2. unfold pview. cbn. f_equal. rewrite fmap_insert, H1, H2. apply insert_id. by rewrite lookup_fmap, H.
Qed.

(** Steps that leave the subscriptions alone. *)
Lemma wp_reply c cl rs s (Q : server -> unit -> Prop) : clients s !! c = Some cl ->
  (forall s', pview s' = pview s -> s' = upd_clients (fun m => <[c := with_reply (c_reply cl ++ rs) cl]> m) s -> Q s' tt) ->
  wp (addReplies c rs) s Q.
Proof. intros H HQ. apply (wp_mod_client c cl); [done|]. apply HQ; [by apply (pview_client s c cl) | done]. Qed.

(** The reply an operation on subscriptions ends with. *)
Lemma wp_notify c f s (Q : server -> unit -> Prop) : is_Some (clients s !! c) -> (forall s', pview s' = pview s -> Q s' tt) ->
  wp (cl ← get_client c; addReplies c (f cl)) s Q.
Proof.
  intros [cl H] HQ. apply wp_bind, (wp_get_client c cl); [done|]. apply (wp_reply c cl); [done|]. intros s' Hv _. by apply HQ.
Qed.

Lemma pview_dom s s' : pview s' = pview s -> dom (clients s') = dom (clients s).
Proof. intros H. apply (f_equal snd), (f_equal dom) in H. cbn in H. by rewrite !dom_fmap_L in H. Qed.

(** *** The four changes of the relation *)

Section Change.
Context (s : server) (subs psubs : gset (cid * key)) (Hr : pubsub_rep s subs psubs) (c : cid) (cl : redisClient).
Context (Hcl : clients s !! c = Some cl).

Lemma rep_subscribe ch : ch ∉ c_channels cl ->
  pubsub_rep (upd_channels (<[ch := default [] (pubsub_channels s !! ch) ++ [c]]>)
    (upd_clients (fun m => <[c := with_channels ({[ch]} ∪ c_channels cl) cl]> m) s)) ({[(c, ch)]} ∪ subs) psubs.
Proof.
  intros Hch. destruct Hr as [H1 H2 H3 H4 H5]. pose proof (H1 c cl Hcl ch) as Hnew. constructor; cbn.
  - intros c' cl' H ch'. apply lookup_insert_Some in H as [[<- <-]|[Hne H]]; cbn.
    + rewrite elem_of_union, elem_of_singleton, (H1 c cl Hcl). set_solver.
    + rewrite (H1 c' cl' H). set_solver.
  - intros c' cl' H. apply lookup_insert_Some in H as [[<- <-]|[Hne H]]; cbn; eauto.
  - intros c' x Hx. rewrite lookup_insert_is_Some. destruct (decide (c = c')) as [|Hne]; [by left|]. right. split; [done|]. apply (H3 c' x). set_solver.
  - intros ch'. destruct (decide (ch = ch')) as [<-|Hne].
    + rewrite lookup_insert_eq. specialize (H4 ch). destruct (pubsub_channels s !! ch) as [l|]; cbn.
      * destruct H4 as (Hl & Hnd & Hin). split; [by destruct l|]. split; [|set_solver].
        apply NoDup_app. split; [done|]. split; [|apply NoDup_singleton]. set_solver.
      * split; [done|]. split; [apply NoDup_singleton | set_solver].
    + rewrite lookup_insert_ne by done. specialize (H4 ch'). destruct (pubsub_channels s !! ch') as [l|]; set_solver.
  - done.
Qed.

Lemma rep_unsubscribe ch : ch ∈ c_channels cl -> exists l l', pubsub_channels s !! ch = Some l /\ list_remove c l = Some l' /\
  pubsub_rep (upd_channels (if zlen l' =? 0 then base.delete ch else <[ch := l']>)
    (upd_clients (fun m => <[c := with_channels (c_channels cl ∖ {[ch]}) cl]> m) s)) (subs ∖ {[(c, ch)]}) psubs.
Proof.
  intros Hch. destruct Hr as [H1 H2 H3 H4 H5]. pose proof (H1 c cl Hcl ch) as Hold. pose proof (H4 ch) as Hl.
  destruct (pubsub_channels s !! ch) as [l|] eqn:El; [|set_solver]. destruct Hl as (Hne & Hnd & Hin).
  pose proof (list_remove_spec c l Hnd) as Hrm. destruct (list_remove c l) as [l'|] eqn:Erm; [|set_solver].
  destruct Hrm as (Hc & Hnd' & Hin'). exists l, l'. split; [done|]. split; [done|]. constructor; cbn.
  - intros c' cl' H ch'. apply lookup_insert_Some in H as [[<- <-]|[Hn H]]; cbn.
    + rewrite elem_of_difference, elem_of_singleton, (H1 c cl Hcl). set_solver.
    + rewrite (H1 c' cl' H). set_solver.
  - intros c' cl' H. apply lookup_insert_Some in H as [[<- <-]|[Hn H]]; cbn; eauto.
  - intros c' x Hx. rewrite lookup_insert_is_Some. destruct (decide (c = c')) as [|Hn]; [by left|]. right. split; [done|]. apply (H3 c' x). set_solver.
  - intros ch'. destruct (decide (ch = ch')) as [<-|Hn].
    + destruct (zlen l' =? 0) eqn:E; zbool.
      * rewrite lookup_delete_eq. assert (l' = []) as -> by (destruct l'; [done | cbn in E; lia]). clear - Hin Hin'. set_solver.
      * rewrite lookup_insert_eq. split; [by destruct l'|]. split; [done|]. intros x. rewrite Hin', Hin. set_solver.
    + assert ((if zlen l' =? 0 then base.delete ch else <[ch:=l']>) (pubsub_channels s) !! ch' = pubsub_channels s !! ch') as ->
        by (destruct (zlen l' =? 0); [by rewrite lookup_delete_ne | by rewrite lookup_insert_ne]).
      specialize (H4 ch'). destruct (pubsub_channels s !! ch') as [l1|]; set_solver.
  - done.
Qed.

Lemma rep_psubscribe p : p ∉ c_patterns cl ->
  pubsub_rep (upd_patterns (fun l => l ++ [(c, p)])
    (upd_clients (fun m => <[c := with_patterns (c_patterns cl ++ [p]) cl]> m) s)) subs ({[(c, p)]} ∪ psubs).
Proof.
  intros Hp. destruct Hr as [H1 H2 H3 H4 [H5 H6]]. destruct (H2 c cl Hcl) as [Hnd Hin]. constructor; cbn.
  - intros c' cl' H. apply lookup_insert_Some in H as [[<- <-]|[Hn H]]; cbn; eauto.
  - intros c' cl' H. apply lookup_insert_Some in H as [[<- <-]|[Hn H]]; cbn.
    + split; [apply NoDup_app; split; [done | split; [set_solver | apply NoDup_singleton]]|]. intros q. rewrite elem_of_app, Hin. set_solver.
    + split; [by eapply H2|]. intros q. rewrite (proj2 (H2 c' cl' H)). set_solver.
  - intros c' x Hx. rewrite lookup_insert_is_Some. destruct (decide (c = c')) as [|Hn]; [by left|]. right. split; [done|]. apply (H3 c' x). set_solver.
  - done.
  - split.
    + apply NoDup_app. split; [done|]. split; [|apply NoDup_singleton]. intros x Hx ->%list_elem_of_singleton. apply H6 in Hx. by apply Hp, Hin.
    + intros c' q. rewrite elem_of_app, H6, list_elem_of_singleton. set_solver.
Qed.

Lemma rep_punsubscribe p pats : list_remove p (c_patterns cl) = Some pats -> exists l, list_remove (c, p) (pubsub_patterns s) = Some l /\
  pubsub_rep (upd_patterns (fun _ => l) (upd_clients (fun m => <[c := with_patterns pats cl]> m) s)) subs (psubs ∖ {[(c, p)]}) /\ (c, p) ∈ psubs.
Proof.
  intros Hp. destruct Hr as [H1 H2 H3 H4 [H5 H6]]. destruct (H2 c cl Hcl) as [Hnd Hin].
  pose proof (list_remove_spec p _ Hnd) as Hrm. rewrite Hp in Hrm. destruct Hrm as (Hpin & Hnd' & Hin').
  pose proof (list_remove_spec (c, p) _ H5) as Hrm. destruct (list_remove (c, p) (pubsub_patterns s)) as [l|].
  2: { destruct Hrm. by apply H6, Hin. }
  destruct Hrm as (Hcp & Hndl & Hinl). exists l. split; [done|]. split; [|by apply H6]. constructor; cbn.
  - intros c' cl' H. apply lookup_insert_Some in H as [[<- <-]|[Hn H]]; cbn; eauto.
  - intros c' cl' H. apply lookup_insert_Some in H as [[<- <-]|[Hn H]]; cbn.
    + split; [done|]. intros q. rewrite Hin', Hin. set_solver.
    + split; [by eapply H2|]. intros q. rewrite (proj2 (H2 c' cl' H)). set_solver.
  - intros c' x Hx. rewrite lookup_insert_is_Some. destruct (decide (c = c')) as [|Hn]; [by left|]. right. split; [done|]. apply (H3 c' x). set_solver.
  - done.
  - split; [done|]. intros c' q. rewrite Hinl, H6. set_solver.
Qed.
End Change.

(** *** The operations change the relation as they should *)

Definition live (c : cid) (s : server) : Prop := c ∈ dom (clients s).

Lemma live_client c s : live c s -> exists cl, clients s !! c = Some cl.
Proof. intros H. by apply elem_of_dom in H. Qed.

(** After [m] the relation is [subs] and [psubs], the result satisfies [P] and
    the clients are the same. *)
Definition leads {A} (m : M A) (s : server) (subs psubs : gset (cid * key)) (P : A -> Prop) : Prop :=
  wp m s (fun s' a => pubsub_rep s' subs psubs /\ dom (clients s') = dom (clients s) /\ P a).

Lemma leads_bind {A B} (m : M B) (f : B -> M A) s subs psubs subs' psubs' P P' : leads m s subs psubs P' ->
  (forall s' b, pubsub_rep s' subs psubs -> dom (clients s') = dom (clients s) -> P' b -> leads (f b) s' subs' psubs' P) ->
  leads (m ≫= f) s subs' psubs' P.
Proof.
  intros Hm Hf. apply wp_bind. eapply wp_mono; [exact Hm|]. intros s' b (Hr & Hd & HP). cbn beta.
  eapply wp_mono; [by apply Hf|]. cbn beta. intros s2 a (? & Hd2 & ?). by rewrite Hd2.
Qed.

Lemma leads_ret {A} (a : A) s subs psubs (P : A -> Prop) : pubsub_rep s subs psubs -> P a -> leads (mret a) s subs psubs P.
Proof. intros. apply wp_ret. auto. Qed.

(** A last reply and the result. *)
Lemma leads_notify (b : bool) c f s subs psubs : pubsub_rep s subs psubs -> live c s ->
  leads (if b then cl ← get_client c; addReplies c (f cl) else mret tt) s subs psubs (fun _ => True).
Proof.
  intros Hr Hl. apply live_client in Hl. destruct b; [|by apply leads_ret]. unfold leads. apply wp_notify; [done|].
  intros s' Hv. split; [by eapply pubsub_rep_view|]. split; [by apply pview_dom | done].
Qed.

Lemma dom_insert_client s c cl cl' : clients s !! c = Some cl ->
  dom (clients (upd_clients (fun m => <[c := cl']> m) s)) = dom (clients s).
Proof. intros H. cbn. rewrite dom_insert_L. apply (elem_of_dom_2 (D := gset cid)) in H. set_solver. Qed.

Lemma subscribe_channel_leads c ch s subs psubs : pubsub_rep s subs psubs -> live c s ->
  leads (pubsubSubscribeChannel c ch) s ({[(c, ch)]} ∪ subs) psubs (fun r => r = bool_decide ((c, ch) ∉ subs)).
Proof.
  intros Hr Hl. destruct (live_client c s Hl) as [cl Hcl]. pose proof (pr_channels _ _ _ Hr c cl Hcl ch) as Hin.
  unfold pubsubSubscribeChannel. apply wp_bind, (wp_get_client c cl); [done|].
  eapply (leads_bind _ _ _ ({[(c, ch)]} ∪ subs) psubs _ _ _ (fun r => r = bool_decide ((c, ch) ∉ subs))).
  - destruct (decide (ch ∈ c_channels cl)) as [Hc|Hc].
    + apply leads_ret; [|by rewrite bool_decide_eq_false_2 by set_solver]. by assert ({[(c, ch)]} ∪ subs = subs) as -> by set_solver.
    + pose proof (rep_subscribe s subs psubs Hr c cl Hcl ch Hc) as Hr'. pose proof (dom_insert_client s c cl (with_channels ({[ch]} ∪ c_channels cl) cl) Hcl) as Hd.
      unfold leads. apply wp_bind, (wp_mod_client c cl); [done|]. apply wp_bind, wp_get. apply wp_bind. cbn [pubsub_channels upd_clients].
      assert (true = bool_decide ((c, ch) ∉ subs)) by (rewrite bool_decide_eq_true_2 by set_solver; done).
      destruct (pubsub_channels s !! ch) as [l|]; apply wp_modify, wp_ret; (split; [exact Hr' | split; [exact Hd | done]]).
  - intros s' r Hr' Hd' ->. eapply leads_bind; [apply (leads_notify true); [done | by unfold live; rewrite Hd']|].
    intros. by apply leads_ret.
Qed.

Lemma unsubscribe_channel_leads c ch notify s subs psubs : pubsub_rep s subs psubs -> live c s ->
  leads (pubsubUnsubscribeChannel c ch notify) s (subs ∖ {[(c, ch)]}) psubs (fun r => r = bool_decide ((c, ch) ∈ subs)).
Proof.
  intros Hr Hl. destruct (live_client c s Hl) as [cl Hcl]. pose proof (pr_channels _ _ _ Hr c cl Hcl ch) as Hin.
  unfold pubsubUnsubscribeChannel. apply wp_bind, (wp_get_client c cl); [done|].
  eapply (leads_bind _ _ _ (subs ∖ {[(c, ch)]}) psubs _ _ _ (fun r => r = bool_decide ((c, ch) ∈ subs))).
  - destruct (decide (ch ∈ c_channels cl)) as [Hc|Hc].
    + destruct (rep_unsubscribe s subs psubs Hr c cl Hcl ch Hc) as (l & l' & El & Erm & Hr').
      pose proof (dom_insert_client s c cl (with_channels (c_channels cl ∖ {[ch]}) cl) Hcl) as Hd.
      unfold leads. apply wp_bind, (wp_mod_client c cl); [done|]. apply wp_bind, wp_get. cbn [pubsub_channels upd_clients].
      apply wp_bind, (wp_lift _ l); [done|]. apply wp_bind, (wp_lift _ l'); [done|]. apply wp_bind.
      assert (true = bool_decide ((c, ch) ∈ subs)) by (rewrite bool_decide_eq_true_2 by set_solver; done).
      destruct (zlen l' =? 0); apply wp_modify, wp_ret; (split; [exact Hr' | split; [exact Hd | done]]).
    + apply leads_ret; [|by rewrite bool_decide_eq_false_2 by set_solver]. by assert (subs ∖ {[(c, ch)]} = subs) as -> by set_solver.
  - intros s' r Hr' Hd' ->. eapply leads_bind; [apply leads_notify; [done | by unfold live; rewrite Hd']|]. intros. by apply leads_ret.
Qed.

Lemma subscribe_pattern_leads c p s subs psubs : pubsub_rep s subs psubs -> live c s ->
  leads (pubsubSubscribePattern c p) s subs ({[(c, p)]} ∪ psubs) (fun r => r = bool_decide ((c, p) ∉ psubs)).
Proof.
  intros Hr Hl. destruct (live_client c s Hl) as [cl Hcl]. pose proof (proj2 (pr_patterns _ _ _ Hr c cl Hcl) p) as Hin.
  unfold pubsubSubscribePattern. apply wp_bind, (wp_get_client c cl); [done|].
  eapply (leads_bind _ _ _ subs ({[(c, p)]} ∪ psubs) _ _ _ (fun r => r = bool_decide ((c, p) ∉ psubs))).
  - destruct (decide (p ∈ c_patterns cl)) as [Hc|Hc].
    + apply leads_ret; [|by rewrite bool_decide_eq_false_2 by set_solver]. by assert ({[(c, p)]} ∪ psubs = psubs) as -> by set_solver.
    + unfold leads. apply wp_bind, (wp_mod_client c cl); [done|]. apply wp_bind, wp_modify, wp_ret.
      split; [by apply (rep_psubscribe s subs psubs Hr c cl Hcl p)|]. split; [by apply (dom_insert_client s c cl)|].
      by rewrite bool_decide_eq_true_2 by set_solver.
  - intros s' r Hr' Hd' ->. eapply leads_bind; [apply (leads_notify true); [done | by unfold live; rewrite Hd']|]. intros. by apply leads_ret.
Qed.

Lemma unsubscribe_pattern_leads c p notify s subs psubs : pubsub_rep s subs psubs -> live c s ->
  leads (pubsubUnsubscribePattern c p notify) s subs (psubs ∖ {[(c, p)]}) (fun r => r = bool_decide ((c, p) ∈ psubs)).
Proof.
  intros Hr Hl. destruct (live_client c s Hl) as [cl Hcl]. destruct (pr_patterns _ _ _ Hr c cl Hcl) as [Hnd Hin].
  unfold pubsubUnsubscribePattern. apply wp_bind, (wp_get_client c cl); [done|].
  eapply (leads_bind _ _ _ subs (psubs ∖ {[(c, p)]}) _ _ _ (fun r => r = bool_decide ((c, p) ∈ psubs))).
  - pose proof (list_remove_spec p _ Hnd) as Hrm. destruct (list_remove p (c_patterns cl)) as [pats|] eqn:Erm.
    + destruct (rep_punsubscribe s subs psubs Hr c cl Hcl p pats Erm) as (l & El & Hr' & Hin').
      unfold leads. apply wp_bind, (wp_mod_client c cl); [done|]. apply wp_bind, wp_get. cbn [pubsub_patterns upd_clients].
      apply wp_bind, (wp_lift _ l); [done|]. apply wp_bind, wp_modify, wp_ret.
      split; [exact Hr'|]. split; [by apply (dom_insert_client s c cl)|]. by rewrite bool_decide_eq_true_2.
    + apply leads_ret; [|by rewrite bool_decide_eq_false_2 by (by rewrite <- Hin)]. assert (psubs ∖ {[(c, p)]} = psubs) as ->; [|done].
      rewrite Hin in Hrm. set_solver.
  - intros s' r Hr' Hd' ->. eapply leads_bind; [apply leads_notify; [done | by unfold live; rewrite Hd']|]. intros. by apply leads_ret.
Qed.

(** *** Loops and commands *)

(** The two relations as one state. *)
Definition rel : Type := gset (cid * key) * gset (cid * key).
Definition leads_to {A} (m : M A) (s : server) (r : rel) : Prop := leads m s r.1 r.2 (fun _ => True).

Lemma leads_weaken {A} (m : M A) s subs psubs P : leads m s subs psubs P -> leads_to m s (subs, psubs).
Proof. intros H. eapply wp_mono; [exact H|]. cbn. naive_solver. Qed.

Lemma leads_then {A B} (m : M B) (f : B -> M A) s r r' : leads_to m s r ->
  (forall s' b, pubsub_rep s' r.1 r.2 -> dom (clients s') = dom (clients s) -> leads_to (f b) s' r') -> leads_to (m ≫= f) s r'.
Proof. intros Hm Hf. eapply leads_bind; [exact Hm|]. intros. by apply Hf. Qed.

Lemma leads_for_each {A} (body : A -> M unit) (step : rel -> A -> rel) c (l : list A) :
  (forall b s r, pubsub_rep s r.1 r.2 -> live c s -> leads_to (body b) s (step r b)) ->
  forall s r, pubsub_rep s r.1 r.2 -> live c s -> leads_to (for_each body l) s (foldl step r l).
Proof.
  intros Hb. induction l as [|b l IH]; intros s r Hr Hl; cbn [for_each foldl]; [by apply leads_ret|].
  apply (leads_then _ _ _ (step r b)); [by apply Hb|]. intros s' [] Hr' Hd. apply IH; [done|]. unfold live. by rewrite Hd.
Qed.

Lemma leads_for_sum {A} (body : A -> M Z) (step : rel -> A -> rel) c (l : list A) :
  (forall b s r, pubsub_rep s r.1 r.2 -> live c s -> leads_to (body b) s (step r b)) ->
  forall s r, pubsub_rep s r.1 r.2 -> live c s -> leads_to (for_sum body l) s (foldl step r l).
Proof.
  intros Hb. induction l as [|b l IH]; intros s r Hr Hl; cbn [for_sum foldl]; [by apply leads_ret|].
  apply (leads_then _ _ _ (step r b)); [by apply Hb|]. intros s' n Hr' Hd.
  apply (leads_then _ _ _ (foldl step (step r b) l)); [apply IH; [done|]; unfold live; by rewrite Hd|]. intros. by apply leads_ret.
Qed.

(** The pairs of one client. *)
Definition of_client (c : cid) (l : list key) : gset (cid * key) := list_to_set (pair c <$> l).
Definition without (c : cid) (X : gset (cid * key)) : gset (cid * key) := filter (fun x => x.1 <> c) X.

Lemma elem_of_client c l x : x ∈ of_client c l <-> x.1 = c /\ x.2 ∈ l.
Proof. unfold of_client. rewrite elem_of_list_to_set, list_elem_of_fmap. destruct x as [c' k]; cbn. naive_solver. Qed.

Lemma fold_add (c : cid) (l : list key) : forall X : gset (cid * key), foldl (fun X k => {[(c, k)]} ∪ X) X l = of_client c l ∪ X.
Proof.
  unfold of_client. induction l as [|k l IH]; intros X; cbn; [set_solver|]. rewrite IH. set_solver.
Qed.
Lemma fold_remove (c : cid) (l : list key) : forall X : gset (cid * key), foldl (fun X k => X ∖ {[(c, k)]}) X l = X ∖ of_client c l.
Proof.
  unfold of_client. induction l as [|k l IH]; intros X; cbn; [set_solver|]. rewrite IH. set_solver.
Qed.

Lemma fold_fst {A B C} (f : A -> C -> A) (l : list C) : forall (r : A * B), foldl (fun r k => (f r.1 k, r.2)) r l = (foldl f r.1 l, r.2).
Proof. induction l as [|k l IH]; intros [x y]; [done|]. cbn [foldl fst snd]. by rewrite IH. Qed.
Lemma fold_snd {A B C} (f : B -> C -> B) (l : list C) : forall (r : A * B), foldl (fun r k => (r.1, f r.2 k)) r l = (r.1, foldl f r.2 l).
Proof. induction l as [|k l IH]; intros [x y]; [done|]. cbn [foldl fst snd]. by rewrite IH. Qed.

Lemma leads_discard {A} (m : M A) s subs psubs P : leads m s subs psubs P -> leads_to (_ ← m; mret tt) s (subs, psubs).
Proof. intros H. eapply leads_then; [by eapply leads_weaken|]. intros. by apply leads_ret. Qed.

Lemma unsubscribe_all_channels_leads c notify s subs psubs : pubsub_rep s subs psubs -> live c s ->
  leads_to (pubsubUnsubscribeAllChannels c notify) s (without c subs, psubs).
Proof.
  intros Hr Hl. destruct (live_client c s Hl) as [cl Hcl]. unfold pubsubUnsubscribeAllChannels.
  apply wp_bind, (wp_get_client c cl); [done|].
  assert (foldl (fun (r : rel) k => (r.1 ∖ {[(c, k)]}, r.2)) (subs, psubs) (elements (c_channels cl)) = (without c subs, psubs)) as Hfold.
  { etrans; [apply (fold_fst (fun (X : gset (cid * key)) k => X ∖ {[(c, k)]}))|]. rewrite fold_remove. f_equal. cbn [fst]. apply set_eq. intros [c' k].
    unfold without. rewrite elem_of_difference, elem_of_client, elem_of_filter, elem_of_elements. cbn [fst snd].
    rewrite (pr_channels _ _ _ Hr c cl Hcl k). destruct (decide (c' = c)) as [->|]; naive_solver. }
  apply (leads_then _ _ _ (without c subs, psubs)).
  - rewrite <- Hfold. apply (leads_for_sum _ (fun (r : rel) k => (r.1 ∖ {[(c, k)]}, r.2)) c); [|done|done].
    intros ch s' r Hr' Hl'. eapply leads_then; [by eapply leads_weaken, unsubscribe_channel_leads|]. intros. by apply leads_ret.
  - intros s' n Hr' Hd. eapply leads_then; [apply leads_notify; [done | by unfold live; rewrite Hd]|]. intros. by apply leads_ret.
Qed.

Lemma unsubscribe_all_patterns_leads c notify s subs psubs : pubsub_rep s subs psubs -> live c s ->
  leads_to (pubsubUnsubscribeAllPatterns c notify) s (subs, without c psubs).
Proof.
  intros Hr Hl. destruct (live_client c s Hl) as [cl Hcl]. unfold pubsubUnsubscribeAllPatterns.
  apply wp_bind, (wp_get_client c cl); [done|].
  assert (foldl (fun (r : rel) k => (r.1, r.2 ∖ {[(c, k)]})) (subs, psubs) (c_patterns cl) = (subs, without c psubs)) as Hfold.
  { etrans; [apply (fold_snd (fun (X : gset (cid * key)) k => X ∖ {[(c, k)]}))|]. rewrite fold_remove. f_equal. cbn [snd]. apply set_eq. intros [c' k].
    unfold without. rewrite elem_of_difference, elem_of_client, elem_of_filter. cbn [fst snd].
    rewrite (proj2 (pr_patterns _ _ _ Hr c cl Hcl) k). destruct (decide (c' = c)) as [->|]; naive_solver. }
  apply (leads_then _ _ _ (subs, without c psubs)).
  - rewrite <- Hfold. apply (leads_for_sum _ (fun (r : rel) k => (r.1, r.2 ∖ {[(c, k)]})) c); [|done|done].
    intros ch s' r Hr' Hl'. eapply leads_then; [by eapply leads_weaken, unsubscribe_pattern_leads|]. intros. by apply leads_ret.
  - intros s' n Hr' Hd. eapply leads_then; [apply leads_notify; [done | by unfold live; rewrite Hd]|]. intros. by apply leads_ret.
Qed.

(** The commands with their arguments, as a client sends them. *)
Inductive pubsub_cmd := Subscribe (l : list key) | Unsubscribe (l : list key) | PSubscribe (l : list key) | PUnsubscribe (l : list key).

Definition run_pubsub (o : cid * pubsub_cmd) : M unit :=
  let '(c, op) := o in
  match op with
  | Subscribe l => mod_client c (with_argv (bytes_of "subscribe" :: l));; subscribeCommand c
  | Unsubscribe l => mod_client c (with_argv (bytes_of "unsubscribe" :: l));; unsubscribeCommand c
  | PSubscribe l => mod_client c (with_argv (bytes_of "psubscribe" :: l));; psubscribeCommand c
  | PUnsubscribe l => mod_client c (with_argv (bytes_of "punsubscribe" :: l));; punsubscribeCommand c
  end.

(** Their effect on the two relations; without arguments the unsubscriptions are total. *)
Definition rel_step (r : rel) (o : cid * pubsub_cmd) : rel :=
  let '(c, op) := o in
  match op with
  | Subscribe l => (of_client c l ∪ r.1, r.2)
  | Unsubscribe [] => (without c r.1, r.2)
  | Unsubscribe l => (r.1 ∖ of_client c l, r.2)
  | PSubscribe l => (r.1, of_client c l ∪ r.2)
  | PUnsubscribe [] => (r.1, without c r.2)
  | PUnsubscribe l => (r.1, r.2 ∖ of_client c l)
  end.

Lemma leads_mod_client c f s r : pubsub_rep s r.1 r.2 -> live c s -> (forall cl, c_channels (f cl) = c_channels cl /\ c_patterns (f cl) = c_patterns cl) ->
  leads_to (mod_client c f) s r.
Proof.
  intros Hr Hl Hf. destruct (live_client c s Hl) as [cl Hcl]. apply (wp_mod_client c cl); [done|].
  split; [|split; [by apply (dom_insert_client s c cl) | done]]. eapply pubsub_rep_view; [|done]. apply (pview_client s c cl); [done|apply Hf..].
Qed.

Lemma clear_leads c s r : pubsub_rep s r.1 r.2 -> live c s -> leads_to (clear_if_unsubscribed c) s r.
Proof.
  intros Hr Hl. destruct (live_client c s Hl) as [cl Hcl]. unfold clear_if_unsubscribed. apply wp_bind, (wp_get_client c cl); [done|].
  destruct (_ =? 0); [by apply leads_mod_client | by apply leads_ret].
Qed.

Lemma leads_loop_fst {A} (f : gset (cid * key) -> A -> gset (cid * key)) (body : A -> M unit) c (l : list A) s (r : rel) :
  (forall b s (r : rel), pubsub_rep s r.1 r.2 -> live c s -> leads_to (body b) s (f r.1 b, r.2)) ->
  pubsub_rep s r.1 r.2 -> live c s -> leads_to (for_each body l) s (foldl f r.1 l, r.2).
Proof. intros Hb Hr Hl. rewrite <- (fold_fst f l r). by apply (leads_for_each _ (fun r k => (f r.1 k, r.2)) c). Qed.

Lemma leads_loop_snd {A} (f : gset (cid * key) -> A -> gset (cid * key)) (body : A -> M unit) c (l : list A) s (r : rel) :
  (forall b s (r : rel), pubsub_rep s r.1 r.2 -> live c s -> leads_to (body b) s (r.1, f r.2 b)) ->
  pubsub_rep s r.1 r.2 -> live c s -> leads_to (for_each body l) s (r.1, foldl f r.2 l).
Proof. intros Hb Hr Hl. rewrite <- (fold_snd f l r). by apply (leads_for_each _ (fun r k => (r.1, f r.2 k)) c). Qed.

Section Loops.
Context (c : cid) (l : list key) (s : server) (r : rel) (Hr : pubsub_rep s r.1 r.2) (Hl : live c s).

Lemma leads_add_channels : leads_to (for_each (fun channel => _ ← pubsubSubscribeChannel c channel; mret tt) l) s (of_client c l ∪ r.1, r.2).
Proof.
  rewrite <- (fold_add c l). apply (leads_loop_fst _ _ c); [|done|done]. intros. eapply leads_discard. by apply subscribe_channel_leads.
Qed.

Lemma leads_remove_channels : leads_to (for_each (fun channel => _ ← pubsubUnsubscribeChannel c channel true; mret tt) l) s (r.1 ∖ of_client c l, r.2).
Proof.
  rewrite <- (fold_remove c l). apply (leads_loop_fst _ _ c); [|done|done]. intros. eapply leads_discard. by apply unsubscribe_channel_leads.
Qed.

Lemma leads_add_patterns : leads_to (for_each (fun pattern => _ ← pubsubSubscribePattern c pattern; mret tt) l) s (r.1, of_client c l ∪ r.2).
Proof.
  rewrite <- (fold_add c l). apply (leads_loop_snd _ _ c); [|done|done]. intros. eapply leads_discard. by apply subscribe_pattern_leads.
Qed.

Lemma leads_remove_patterns : leads_to (for_each (fun pattern => _ ← pubsubUnsubscribePattern c pattern true; mret tt) l) s (r.1, r.2 ∖ of_client c l).
Proof.
  rewrite <- (fold_remove c l). apply (leads_loop_snd _ _ c); [|done|done]. intros. eapply leads_discard. by apply unsubscribe_pattern_leads.
Qed.
End Loops.

Lemma run_pubsub_leads o s r : pubsub_rep s r.1 r.2 -> live o.1 s -> leads_to (run_pubsub o) s (rel_step r o).
Proof.
  destruct o as [c op]. cbn [fst]. intros Hr Hl. destruct (live_client c s Hl) as [cl Hcl].
  assert (forall (op : M unit) l r', (forall s cl, clients s !! c = Some cl -> argv cl = l -> pubsub_rep s r.1 r.2 -> live c s -> leads_to op s r') ->
    leads_to (mod_client c (with_argv l);; op) s r') as Hargv.
  { intros m l r' H. apply wp_bind, (wp_mod_client c cl); [done|]. rewrite <- (dom_insert_client s c cl (with_argv l cl) Hcl).
    apply (H _ (with_argv l cl)); [cbn; by rewrite lookup_insert_eq | done | | unfold live; by rewrite (dom_insert_client s c cl)].
    eapply pubsub_rep_view; [|exact Hr]. by apply (pview_client s c cl). }
  destruct op as [l|l|l|l]; cbn [run_pubsub rel_step]; apply Hargv; clear Hargv s Hr Hl cl Hcl; intros s cl Hcl Harg Hr Hl.
  - unfold subscribeCommand, args_from. apply wp_bind, wp_bind, (wp_get_client c cl); [done|]. apply wp_ret. rewrite Harg. cbn [drop].
    eapply leads_then; [by apply (leads_add_channels c)|]. intros s1 _ Hr1 Hd1. apply leads_mod_client; [done | unfold live; by rewrite Hd1 | done].
  - unfold unsubscribeCommand. apply wp_bind, (wp_get_client c cl); [done|]. rewrite Harg.
    destruct l as [|k l]; (eapply leads_then; [|intros s1 _ Hr1 Hd1; apply clear_leads; [done | unfold live; by rewrite Hd1]]).
    + eapply leads_discard. destruct r. by apply unsubscribe_all_channels_leads.
    + assert (zlen (bytes_of "unsubscribe" :: k :: l) =? 1 = false) as -> by (apply Z.eqb_neq; cbn [length]; lia). by apply (leads_remove_channels c).
  - unfold psubscribeCommand, args_from. apply wp_bind, wp_bind, (wp_get_client c cl); [done|]. apply wp_ret. rewrite Harg. cbn [drop].
    eapply leads_then; [by apply (leads_add_patterns c)|]. intros s1 _ Hr1 Hd1. apply leads_mod_client; [done | unfold live; by rewrite Hd1 | done].
  - unfold punsubscribeCommand. apply wp_bind, (wp_get_client c cl); [done|]. rewrite Harg.
    destruct l as [|k l]; (eapply leads_then; [|intros s1 _ Hr1 Hd1; apply clear_leads; [done | unfold live; by rewrite Hd1]]).
    + eapply leads_discard. destruct r. by apply unsubscribe_all_patterns_leads.
    + assert (zlen (bytes_of "punsubscribe" :: k :: l) =? 1 = false) as -> by (apply Z.eqb_neq; cbn [length]; lia). by apply (leads_remove_patterns c).
Qed.

(** ** Delivery *)

(** The replies of [l] addressed to [c]. *)
Definition sent (c : cid) (l : list (cid * list reply)) : list reply :=
  concat ((filter (fun x => x.1 = c) l).*2).

(** Only the replies of the clients changed: each one got what [l] holds for it. *)
Definition delivered (s s' : server) (l : list (cid * list reply)) : Prop :=
  s' = upd_clients (fun _ => clients s') s /\ dom (clients s') = dom (clients s) /\
  forall c cl, clients s !! c = Some cl -> clients s' !! c = Some (with_reply (c_reply cl ++ sent c l) cl).

Lemma delivered_nil s : delivered s s [].
Proof.
  split; [by destruct s|]. split; [done|]. intros c cl H. unfold sent. cbn. rewrite app_nil_r, H. by destruct cl.
Qed.

Lemma sent_app c l k : sent c (l ++ k) = sent c l ++ sent c k.
Proof. unfold sent. by rewrite filter_app, fmap_app, concat_app. Qed.

Lemma delivered_trans s s1 s2 l k : delivered s s1 l -> delivered s1 s2 k -> delivered s s2 (l ++ k).
Proof.
  intros (E1 & D1 & H1) (E2 & D2 & H2). split; [|split; [congruence|]].
  - rewrite E2, E1. done.
  - intros c cl H. rewrite (H2 _ _ (H1 c cl H)), sent_app. cbn. by rewrite app_assoc.
Qed.

Lemma delivered_one s c cl rs : clients s !! c = Some cl ->
  delivered s (upd_clients (fun m => <[c := with_reply (c_reply cl ++ rs) cl]> m) s) [(c, rs)].
Proof.
  intros H. split; [done|]. split; [by apply (dom_insert_client s c cl)|]. intros c' cl' H'. cbn [clients upd_clients]. unfold sent.
  destruct (decide (c = c')) as [<-|Hne].
  - rewrite lookup_insert_eq. rewrite filter_cons_True by done. cbn. rewrite app_nil_r. congruence.
  - rewrite lookup_insert_ne by done. rewrite filter_cons_False by done. cbn. rewrite app_nil_r, H'. by destruct cl'.
Qed.

(** A loop that sends to some of the clients it meets and counts them. *)
Lemma publish_loop {A} (body : A -> M Z) (f : A -> option (cid * list reply)) (l : list A) :
  (forall a s, a ∈ l -> body a s = match f a with Some (c, rs) => (addReplies c rs;; mret 1) s | None => Some (s, 0) end) ->
  forall s, (forall a x, a ∈ l -> f a = Some x -> live x.1 s) ->
  wp (for_sum body l) s (fun s' n => n = zlen (omap f l) /\ delivered s s' (omap f l)).
Proof.
  induction l as [|a l IH]; intros Hb s Hl; cbn [for_sum omap list_omap].
  { apply wp_ret. split; [done | apply delivered_nil]. }
  assert (wp (body a) s (fun s' n => n = zlen (option_list (f a)) /\ delivered s s' (option_list (f a)))) as Hone.
  { unfold wp. rewrite Hb by set_solver. destruct (f a) as [[c rs]|] eqn:Ea; cbn [option_list]; [|split; [done | apply delivered_nil]].
    destruct (live_client c s (Hl a (c, rs) ltac:(set_solver) Ea)) as [cl Hcl].
    fold (wp (addReplies c rs;; mret 1) s (fun s' n => n = zlen [(c, rs)] /\ delivered s s' [(c, rs)])).
    apply wp_bind, (wp_mod_client c cl); [done|]. apply wp_ret. split; [done | by apply delivered_one]. }
  apply wp_bind. eapply wp_mono; [exact Hone|]. cbn beta. intros s1 n [-> Hd1].
  apply wp_bind. eapply wp_mono; [apply IH|].
  - intros b s' Hin. apply Hb. set_solver.
  - intros b x Hin Hx. unfold live. rewrite (proj1 (proj2 Hd1)). apply (Hl b x); [set_solver | done].
  - cbn beta. intros s2 m [-> Hd2]. apply wp_ret.
    assert (match f a with Some x => x :: omap f l | None => omap f l end = option_list (f a) ++ omap f l) as -> by (by destruct (f a)).
    split; [rewrite length_app; lia | by eapply delivered_trans].
Qed.

(** What a message to [channel] sends, in order. *)
Definition publish_list (s : server) (channel message : list Z) : list (cid * list reply) :=
  ((fun c => (c, message_replies channel message)) <$> default [] (pubsub_channels s !! channel)) ++
  omap (fun x => if glob false x.2 channel then Some (x.1, pmessage_replies x.2 channel message) else None) (pubsub_patterns s).

Lemma omap_Some {A B} (f : A -> B) (l : list A) : omap (fun x => Some (f x)) l = f <$> l.
Proof. induction l as [|x l IH]; cbn; [done | by f_equal]. Qed.

Lemma publish_wp s subs psubs channel message : pubsub_rep s subs psubs -> (forall c p, (c, p) ∈ psubs -> plain p) ->
  wp (pubsubPublishMessage channel message) s (fun s' n =>
    n = zlen (publish_list s channel message) /\ delivered s s' (publish_list s channel message)).
Proof.
  intros Hr Hp. unfold pubsubPublishMessage, publish_list. apply wp_bind, wp_get. apply wp_bind.
  pose proof (pr_lists _ _ _ Hr channel) as Hl.
  assert (forall c x, (c, x) ∈ subs ∪ psubs -> live c s) as Hlive by (intros c x H; apply elem_of_dom; by eapply pr_live).
  eapply (wp_mono _ _ (fun s' n => n = zlen ((fun c => (c, message_replies channel message)) <$> default [] (pubsub_channels s !! channel)) /\
    delivered s s' ((fun c => (c, message_replies channel message)) <$> default [] (pubsub_channels s !! channel)))).
  - destruct (pubsub_channels s !! channel) as [l|]; cbn [default]; [|apply wp_ret; split; [done | apply delivered_nil]].
    rewrite <- omap_Some. apply publish_loop; [done|]. intros c x Hc [= <-]. apply (Hlive c channel). set_solver.
  - intros s1 n [-> Hd1]. apply wp_bind. eapply wp_mono.
    + apply (publish_loop _ (fun x => if glob false x.2 channel then Some (x.1, pmessage_replies x.2 channel message) else None)).
      * intros [c p] s2 Hin. cbn [fst snd]. apply (proj2 (pr_all _ _ _ Hr)) in Hin.
        unfold mbind, M_bind. unfold stringmatchlen, match_fuel. rewrite (loop_spec false (p ++ [0]) (channel ++ [0]) _ [] p [] channel) by (done || eauto || lia).
        cbn [lift]. unfold mret, M_ret. by destruct (glob false p channel).
      * intros [c p] x Hin Hx. apply (proj2 (pr_all _ _ _ Hr)) in Hin. cbn [fst snd] in Hx.
        destruct (glob false p channel); [|done]. injection Hx as <-. cbn. unfold live. rewrite (proj1 (proj2 Hd1)). apply (Hlive c p). set_solver.
    + cbn beta. intros s2 m [-> Hd2]. apply wp_ret. split; [rewrite length_app; lia | by eapply delivered_trans].
Qed.

Lemma sent_channel c (l : list cid) rs : NoDup l -> sent c ((fun c => (c, rs)) <$> l) = if decide (c ∈ l) then rs else [].
Proof.
  unfold sent. induction 1 as [|x l Hx Hnd IH]; [done|]. rewrite fmap_cons. destruct (decide (x = c)) as [->|Hne].
  - rewrite filter_cons_True by done. rewrite decide_True by set_solver. rewrite fmap_cons. cbn [concat snd]. rewrite IH, decide_False by done.
    by rewrite app_nil_r.
  - rewrite filter_cons_False by done. rewrite IH. destruct (decide (c ∈ l)), (decide (c ∈ x :: l)); set_solver.
Qed.

Section Patterns.
Context (channel message : list Z) (m : cid * key -> bool).
#[local] Abbreviation send := (fun x : cid * key => if m x then Some (x.1, pmessage_replies x.2 channel message) else None).

Lemma pattern_count (l : list (cid * key)) : length (omap send l) = length (filter (fun x => m x = true) l).
Proof.
  induction l as [|x l IH]; [done|]. cbn [omap list_omap]. destruct (m x) eqn:E.
  - rewrite filter_cons_True by done. cbn. by rewrite IH.
  - rewrite filter_cons_False by congruence. done.
Qed.

Lemma pattern_sent c (l : list (cid * key)) :
  sent c (omap send l) = concat ((fun p => pmessage_replies p channel message) <$> (filter (fun x => x.1 = c /\ m x = true) l).*2).
Proof.
  unfold sent. induction l as [|x l IH]; [done|]. cbn [omap list_omap]. destruct (m x) eqn:E; [destruct (decide (x.1 = c)) as [Hc|Hc]|].
  - rewrite filter_cons_True by done. rewrite (filter_cons_True (fun x => x.1 = c /\ m x = true)) by done. rewrite !fmap_cons. cbn [concat snd].
    by rewrite IH.
  - rewrite filter_cons_False by done. rewrite (filter_cons_False (fun x => x.1 = c /\ m x = true)) by naive_solver. done.
  - rewrite (filter_cons_False (fun x => x.1 = c /\ m x = true)) by (intros [_ ?]; congruence). done.
Qed.
End Patterns.

Lemma size_of_nodup `{Countable A} (l : list A) (X : gset A) : NoDup l -> (forall x, x ∈ l <-> x ∈ X) -> base.size X = length l.
Proof. intros Hnd Hl. rewrite <- (size_list_to_set (C := gset A) l Hnd). f_equal. apply set_eq. intros x. by rewrite elem_of_list_to_set, Hl. Qed.

(** C39: the two directions of the subscription relation always agree.  Whatever
    SUBSCRIBE, UNSUBSCRIBE, PSUBSCRIBE and PUNSUBSCRIBE commands the clients send,
    no assertion fails, the client side (its channel set, its pattern list without
    duplicates) and the server side (for each channel a non empty list without
    duplicates, one list of pattern pairs) represent the same relation, and
    it is the one the commands describe. *)
Theorem pubsub_consistent (ops : list (cid * pubsub_cmd)) (s : server) (r : rel) : pubsub_rep s r.1 r.2 ->
  Forall (fun o => live o.1 s) ops ->
  wp (for_each run_pubsub ops) s (fun s' _ => pubsub_rep s' (foldl rel_step r ops).1 (foldl rel_step r ops).2 /\
    dom (clients s') = dom (clients s)).
Proof.
  revert s r. induction ops as [|o ops IH]; intros s r Hr Hops; cbn [for_each foldl]; [by apply wp_ret|].
  apply Forall_cons_1 in Hops as [Ho Hops]. apply wp_bind. eapply wp_mono; [by apply run_pubsub_leads|].
  intros s1 [] (Hr1 & Hd1 & _). eapply wp_mono; [apply IH; [exact Hr1|]|].
  - eapply Forall_impl; [exact Hops|]. intros o' Ho'. unfold live. by rewrite Hd1.
  - cbn beta. intros s2 _ [? Hd2]. by rewrite Hd2.
Qed.


(** A server with two clients and nothing else. *)
Definition no_db : redisDb := mk_db ∅ ∅ ∅ ∅ ∅.
Definition new_client : redisClient := mk_client 0 0 [] [] [] ∅ [] [].
Definition demo_server : server :=
  mk_server (mk_config false false None false 0) [no_db; no_db] {[1%positive := new_client; 2%positive := new_client]} ∅ [] [] ∅ 0 0 0 0 O [].

Lemma demo_pubsub : pubsub_rep demo_server ∅ ∅.
Proof.
  assert (forall c cl, clients demo_server !! c = Some cl -> cl = new_client) as Hcl.
  { intros c cl. unfold demo_server. cbn [clients]. rewrite lookup_insert_Some. intros [[_ <-]|[_ Hc]]; [done|].
    by apply lookup_singleton_Some in Hc as [_ <-]. }
  constructor.
  - intros c cl ->%Hcl ch. cbn. set_solver.
  - intros c cl ->%Hcl. cbn. split; [constructor | set_solver].
  - set_solver.
  - intros ch. cbn [pubsub_channels demo_server]. rewrite lookup_empty. set_solver.
  - cbn. split; [constructor | set_solver].
Qed.

Definition demo_pubsub_ops : list (cid * pubsub_cmd) :=
  [(1%positive, Subscribe [bytes_of "news"; bytes_of "sport"]); (2%positive, PSubscribe [bytes_of "n*"]); (2%positive, Subscribe [bytes_of "news"]);
   (1%positive, Unsubscribe [])].

Lemma pubsub_consistent_witness :
  wp (for_each run_pubsub demo_pubsub_ops) demo_server (fun s' _ => pubsub_rep s' {[(2%positive, bytes_of "news")]} {[(2%positive, bytes_of "n*")]}).
Proof.
  assert (foldl rel_step (∅, ∅) demo_pubsub_ops = ({[(2%positive, bytes_of "news")]}, {[(2%positive, bytes_of "n*")]})) as Hf.
  { vm_compute. reflexivity. }
  eapply wp_mono.
  - apply (pubsub_consistent demo_pubsub_ops demo_server (∅, ∅) demo_pubsub). repeat constructor; vm_compute; reflexivity.
  - intros s' a [Hr _]. rewrite Hf in Hr. exact Hr.
Defined.

