(* ===== verification/Crc.v ===== *)
(** * Checksums and hash slots (crc16.c, crc64.c, keyHashSlot of cluster.c)

    Both checksums are computed a byte at a time from a table of 256 entries.  The
    theorems compare them with the division by the polynomial, bit by bit, and say
    which part of a key selects its hash slot. *)
From Stdlib Require Import Lia ZArith String.
From stdpp Require Import base numbers list tactics option sets.
From S2P Require Import Prelude Util.

#[local] Open Scope Z_scope.

Definition crc16tab : list Z :=
  [0x0000; 0x1021; 0x2042; 0x3063; 0x4084; 0x50a5; 0x60c6; 0x70e7; 0x8108; 0x9129; 0xa14a; 0xb16b;
   0xc18c; 0xd1ad; 0xe1ce; 0xf1ef; 0x1231; 0x0210; 0x3273; 0x2252; 0x52b5; 0x4294; 0x72f7; 0x62d6;
   0x9339; 0x8318; 0xb37b; 0xa35a; 0xd3bd; 0xc39c; 0xf3ff; 0xe3de; 0x2462; 0x3443; 0x0420; 0x1401;
   0x64e6; 0x74c7; 0x44a4; 0x5485; 0xa56a; 0xb54b; 0x8528; 0x9509; 0xe5ee; 0xf5cf; 0xc5ac; 0xd58d;
   0x3653; 0x2672; 0x1611; 0x0630; 0x76d7; 0x66f6; 0x5695; 0x46b4; 0xb75b; 0xa77a; 0x9719; 0x8738;
   0xf7df; 0xe7fe; 0xd79d; 0xc7bc; 0x48c4; 0x58e5; 0x6886; 0x78a7; 0x0840; 0x1861; 0x2802; 0x3823;
   0xc9cc; 0xd9ed; 0xe98e; 0xf9af; 0x8948; 0x9969; 0xa90a; 0xb92b; 0x5af5; 0x4ad4; 0x7ab7; 0x6a96;
   0x1a71; 0x0a50; 0x3a33; 0x2a12; 0xdbfd; 0xcbdc; 0xfbbf; 0xeb9e; 0x9b79; 0x8b58; 0xbb3b; 0xab1a;
   0x6ca6; 0x7c87; 0x4ce4; 0x5cc5; 0x2c22; 0x3c03; 0x0c60; 0x1c41; 0xedae; 0xfd8f; 0xcdec; 0xddcd;
   0xad2a; 0xbd0b; 0x8d68; 0x9d49; 0x7e97; 0x6eb6; 0x5ed5; 0x4ef4; 0x3e13; 0x2e32; 0x1e51; 0x0e70;
   0xff9f; 0xefbe; 0xdfdd; 0xcffc; 0xbf1b; 0xaf3a; 0x9f59; 0x8f78; 0x9188; 0x81a9; 0xb1ca; 0xa1eb;
   0xd10c; 0xc12d; 0xf14e; 0xe16f; 0x1080; 0x00a1; 0x30c2; 0x20e3; 0x5004; 0x4025; 0x7046; 0x6067;
   0x83b9; 0x9398; 0xa3fb; 0xb3da; 0xc33d; 0xd31c; 0xe37f; 0xf35e; 0x02b1; 0x1290; 0x22f3; 0x32d2;
   0x4235; 0x5214; 0x6277; 0x7256; 0xb5ea; 0xa5cb; 0x95a8; 0x8589; 0xf56e; 0xe54f; 0xd52c; 0xc50d;
   0x34e2; 0x24c3; 0x14a0; 0x0481; 0x7466; 0x6447; 0x5424; 0x4405; 0xa7db; 0xb7fa; 0x8799; 0x97b8;
   0xe75f; 0xf77e; 0xc71d; 0xd73c; 0x26d3; 0x36f2; 0x0691; 0x16b0; 0x6657; 0x7676; 0x4615; 0x5634;
   0xd94c; 0xc96d; 0xf90e; 0xe92f; 0x99c8; 0x89e9; 0xb98a; 0xa9ab; 0x5844; 0x4865; 0x7806; 0x6827;
   0x18c0; 0x08e1; 0x3882; 0x28a3; 0xcb7d; 0xdb5c; 0xeb3f; 0xfb1e; 0x8bf9; 0x9bd8; 0xabbb; 0xbb9a;
   0x4a75; 0x5a54; 0x6a37; 0x7a16; 0x0af1; 0x1ad0; 0x2ab3; 0x3a92; 0xfd2e; 0xed0f; 0xdd6c; 0xcd4d;
   0xbdaa; 0xad8b; 0x9de8; 0x8dc9; 0x7c26; 0x6c07; 0x5c64; 0x4c45; 0x3ca2; 0x2c83; 0x1ce0; 0x0cc1;
   0xef1f; 0xff3e; 0xcf5d; 0xdf7c; 0xaf9b; 0xbfba; 0x8fd9; 0x9ff8; 0x6e17; 0x7e36; 0x4e55; 0x5e74;
   0x2e93; 0x3eb2; 0x0ed1; 0x1ef0].

Definition crc64_tab : list Z :=
  [0x0000000000000000; 0x7ad870c830358979; 0xf5b0e190606b12f2; 0x8f689158505e9b8b; 0xc038e5739841b68f;
   0xbae095bba8743ff6; 0x358804e3f82aa47d; 0x4f50742bc81f2d04; 0xab28ecb46814fe75; 0xd1f09c7c5821770c;
   0x5e980d24087fec87; 0x24407dec384a65fe; 0x6b1009c7f05548fa; 0x11c8790fc060c183; 0x9ea0e857903e5a08;
   0xe478989fa00bd371; 0x7d08ff3b88be6f81; 0x07d08ff3b88be6f8; 0x88b81eabe8d57d73; 0xf2606e63d8e0f40a;
   0xbd301a4810ffd90e; 0xc7e86a8020ca5077; 0x4880fbd87094cbfc; 0x32588b1040a14285; 0xd620138fe0aa91f4;
   0xacf86347d09f188d; 0x2390f21f80c18306; 0x594882d7b0f40a7f; 0x1618f6fc78eb277b; 0x6cc0863448deae02;
   0xe3a8176c18803589; 0x997067a428b5bcf0; 0xfa11fe77117cdf02; 0x80c98ebf2149567b; 0x0fa11fe77117cdf0;
   0x75796f2f41224489; 0x3a291b04893d698d; 0x40f16bccb908e0f4; 0xcf99fa94e9567b7f; 0xb5418a5cd963f206;
   0x513912c379682177; 0x2be1620b495da80e; 0xa489f35319033385; 0xde51839b2936bafc; 0x9101f7b0e12997f8;
   0xebd98778d11c1e81; 0x64b116208142850a; 0x1e6966e8b1770c73; 0x8719014c99c2b083; 0xfdc17184a9f739fa;
   0x72a9e0dcf9a9a271; 0x08719014c99c2b08; 0x4721e43f0183060c; 0x3df994f731b68f75; 0xb29105af61e814fe;
   0xc849756751dd9d87; 0x2c31edf8f1d64ef6; 0x56e99d30c1e3c78f; 0xd9810c6891bd5c04; 0xa3597ca0a188d57d;
   0xec09088b6997f879; 0x96d1784359a27100; 0x19b9e91b09fcea8b; 0x636199d339c963f2; 0xdf7adabd7a6e2d6f;
   0xa5a2aa754a5ba416; 0x2aca3b2d1a053f9d; 0x50124be52a30b6e4; 0x1f423fcee22f9be0; 0x659a4f06d21a1299;
   0xeaf2de5e82448912; 0x902aae96b271006b; 0x74523609127ad31a; 0x0e8a46c1224f5a63; 0x81e2d7997211c1e8;
   0xfb3aa75142244891; 0xb46ad37a8a3b6595; 0xceb2a3b2ba0eecec; 0x41da32eaea507767; 0x3b024222da65fe1e;
   0xa2722586f2d042ee; 0xd8aa554ec2e5cb97; 0x57c2c41692bb501c; 0x2d1ab4dea28ed965; 0x624ac0f56a91f461;
   0x1892b03d5aa47d18; 0x97fa21650afae693; 0xed2251ad3acf6fea; 0x095ac9329ac4bc9b; 0x7382b9faaaf135e2;
   0xfcea28a2faafae69; 0x8632586aca9a2710; 0xc9622c4102850a14; 0xb3ba5c8932b0836d; 0x3cd2cdd162ee18e6;
   0x460abd1952db919f; 0x256b24ca6b12f26d; 0x5fb354025b277b14; 0xd0dbc55a0b79e09f; 0xaa03b5923b4c69e6;
   0xe553c1b9f35344e2; 0x9f8bb171c366cd9b; 0x10e3202993385610; 0x6a3b50e1a30ddf69; 0x8e43c87e03060c18;
   0xf49bb8b633338561; 0x7bf329ee636d1eea; 0x012b592653589793; 0x4e7b2d0d9b47ba97; 0x34a35dc5ab7233ee;
   0xbbcbcc9dfb2ca865; 0xc113bc55cb19211c; 0x5863dbf1e3ac9dec; 0x22bbab39d3991495; 0xadd33a6183c78f1e;
   0xd70b4aa9b3f20667; 0x985b3e827bed2b63; 0xe2834e4a4bd8a21a; 0x6debdf121b863991; 0x1733afda2bb3b0e8;
   0xf34b37458bb86399; 0x8993478dbb8deae0; 0x06fbd6d5ebd3716b; 0x7c23a61ddbe6f812; 0x3373d23613f9d516;
   0x49aba2fe23cc5c6f; 0xc6c333a67392c7e4; 0xbc1b436e43a74e9d; 0x95ac9329ac4bc9b5; 0xef74e3e19c7e40cc;
   0x601c72b9cc20db47; 0x1ac40271fc15523e; 0x5594765a340a7f3a; 0x2f4c0692043ff643; 0xa02497ca54616dc8;
   0xdafce7026454e4b1; 0x3e847f9dc45f37c0; 0x445c0f55f46abeb9; 0xcb349e0da4342532; 0xb1eceec59401ac4b;
   0xfebc9aee5c1e814f; 0x8464ea266c2b0836; 0x0b0c7b7e3c7593bd; 0x71d40bb60c401ac4; 0xe8a46c1224f5a634;
   0x927c1cda14c02f4d; 0x1d148d82449eb4c6; 0x67ccfd4a74ab3dbf; 0x289c8961bcb410bb; 0x5244f9a98c8199c2;
   0xdd2c68f1dcdf0249; 0xa7f41839ecea8b30; 0x438c80a64ce15841; 0x3954f06e7cd4d138; 0xb63c61362c8a4ab3;
   0xcce411fe1cbfc3ca; 0x83b465d5d4a0eece; 0xf96c151de49567b7; 0x76048445b4cbfc3c; 0x0cdcf48d84fe7545;
   0x6fbd6d5ebd3716b7; 0x15651d968d029fce; 0x9a0d8ccedd5c0445; 0xe0d5fc06ed698d3c; 0xaf85882d2576a038;
   0xd55df8e515432941; 0x5a3569bd451db2ca; 0x20ed197575283bb3; 0xc49581ead523e8c2; 0xbe4df122e51661bb;
   0x3125607ab548fa30; 0x4bfd10b2857d7349; 0x04ad64994d625e4d; 0x7e7514517d57d734; 0xf11d85092d094cbf;
   0x8bc5f5c11d3cc5c6; 0x12b5926535897936; 0x686de2ad05bcf04f; 0xe70573f555e26bc4; 0x9ddd033d65d7e2bd;
   0xd28d7716adc8cfb9; 0xa85507de9dfd46c0; 0x273d9686cda3dd4b; 0x5de5e64efd965432; 0xb99d7ed15d9d8743;
   0xc3450e196da80e3a; 0x4c2d9f413df695b1; 0x36f5ef890dc31cc8; 0x79a59ba2c5dc31cc; 0x037deb6af5e9b8b5;
   0x8c157a32a5b7233e; 0xf6cd0afa9582aa47; 0x4ad64994d625e4da; 0x300e395ce6106da3; 0xbf66a804b64ef628;
   0xc5bed8cc867b7f51; 0x8aeeace74e645255; 0xf036dc2f7e51db2c; 0x7f5e4d772e0f40a7; 0x05863dbf1e3ac9de;
   0xe1fea520be311aaf; 0x9b26d5e88e0493d6; 0x144e44b0de5a085d; 0x6e963478ee6f8124; 0x21c640532670ac20;
   0x5b1e309b16452559; 0xd476a1c3461bbed2; 0xaeaed10b762e37ab; 0x37deb6af5e9b8b5b; 0x4d06c6676eae0222;
   0xc26e573f3ef099a9; 0xb8b627f70ec510d0; 0xf7e653dcc6da3dd4; 0x8d3e2314f6efb4ad; 0x0256b24ca6b12f26;
   0x788ec2849684a65f; 0x9cf65a1b368f752e; 0xe62e2ad306bafc57; 0x6946bb8b56e467dc; 0x139ecb4366d1eea5;
   0x5ccebf68aecec3a1; 0x2616cfa09efb4ad8; 0xa97e5ef8cea5d153; 0xd3a62e30fe90582a; 0xb0c7b7e3c7593bd8;
   0xca1fc72bf76cb2a1; 0x45775673a732292a; 0x3faf26bb9707a053; 0x70ff52905f188d57; 0x0a2722586f2d042e;
   0x854fb3003f739fa5; 0xff97c3c80f4616dc; 0x1bef5b57af4dc5ad; 0x61372b9f9f784cd4; 0xee5fbac7cf26d75f;
   0x9487ca0fff135e26; 0xdbd7be24370c7322; 0xa10fceec0739fa5b; 0x2e675fb4576761d0; 0x54bf2f7c6752e8a9;
   0xcdcf48d84fe75459; 0xb71738107fd2dd20; 0x387fa9482f8c46ab; 0x42a7d9801fb9cfd2; 0x0df7adabd7a6e2d6;
   0x772fdd63e7936baf; 0xf8474c3bb7cdf024; 0x829f3cf387f8795d; 0x66e7a46c27f3aa2c; 0x1c3fd4a417c62355;
   0x935745fc4798b8de; 0xe98f353477ad31a7; 0xa6df411fbfb21ca3; 0xdc0731d78f8795da; 0x536fa08fdfd90e51;
   0x29b7d047efec8728].

(** One character of the buffer. *)
Definition crc16_step (crc c : Z) : option Z :=
  t ← rd crc16tab (Z.land (Z.lxor (Z.shiftr crc 8) c) 255);
  Some (u16 (Z.lxor (u16 (Z.shiftl crc 8)) t)).

Fixpoint crc16_loop (crc : Z) (buf : list Z) : option Z :=
  match buf with [] => Some crc | c :: buf => crc ← crc16_step crc c; crc16_loop crc buf end.

Definition crc16 (buf : list Z) (len : Z) : option Z := b ← load buf 0 len; crc16_loop 0 b.

Definition crc64_step (crc byte : Z) : option Z :=
  t ← rd crc64_tab (u8 (Z.lxor (u8 crc) byte));
  Some (Z.lxor t (Z.shiftr crc 8)).

(** The loop over [l] bytes of [s], from the checksum [crc] of what came before. *)
Fixpoint crc64_loop (crc : Z) (s : list Z) : option Z :=
  match s with [] => Some crc | byte :: s => crc ← crc64_step crc byte; crc64_loop crc s end.

Definition crc64 (crc : Z) (s : list Z) (l : Z) : option Z := b ← load s 0 l; crc64_loop crc b.

(** [for (; i < keylen; i++) if (key[i] == c) break;] *)
Fixpoint scan (fuel : nat) (key : list Z) (c i keylen : Z) : option Z :=
  if i <? keylen then
    x ← rd key i;
    if x =? c then Some i else match fuel with O => None | S fuel => scan fuel key c (i + 1) keylen end
  else Some i.

Definition keyHashSlot (key : list Z) (keylen : Z) : option Z :=
  s ← scan (Z.to_nat keylen) key 123 0 keylen;
  if s =? keylen then r ← crc16 key keylen; Some (Z.land r 0x3FFF) else
  e ← scan (Z.to_nat keylen) key 125 (s + 1) keylen;
  if (e =? keylen) || (e =? s + 1) then r ← crc16 key keylen; Some (Z.land r 0x3FFF) else
  tag ← load key (s + 1) (e - s - 1);
  r ← crc16 tag (e - s - 1);
  Some (Z.land r 0x3FFF).

Example crc_check : crc16 (bytes_of "123456789") 9 = Some 0x31c3 /\ crc64 0 (bytes_of "123456789") 9 = Some 0xe9c6d914c4b8d9ca.
Proof. by vm_compute. Qed.

(** ** The division, bit by bit *)

(** One bit of the division by x^16 + x^12 + x^5 + 1, most significant bit first. *)
Definition crc16_bit (crc : Z) : Z :=
  if Z.testbit crc 15 then Z.lxor (u16 (Z.shiftl crc 1)) 0x1021 else u16 (Z.shiftl crc 1).
Definition crc16_division (crc : Z) (buf : list Z) : Z :=
  foldl (fun crc c => Nat.iter 8 crc16_bit (Z.lxor crc (Z.shiftl c 8))) crc buf.

(** The polynomial ad93d23594c935a9, reflected: least significant bit first. *)
Definition crc64_bit (crc : Z) : Z :=
  if Z.testbit crc 0 then Z.lxor (Z.shiftr crc 1) 0x95ac9329ac4bc9b5 else Z.shiftr crc 1.
Definition crc64_division (crc : Z) (s : list Z) : Z :=
  foldl (fun crc c => Nat.iter 8 crc64_bit (Z.lxor crc c)) crc s.

Definition bytes256 : list Z := seqZ 0 256.

Lemma bytes256_in b : 0 <= b < 256 -> b ∈ bytes256.
Proof. intros H. apply elem_of_seqZ. lia. Qed.

Lemma crc16_table : forallb (fun h => bool_decide (rd crc16tab h = Some (Nat.iter 8 crc16_bit (Z.shiftl h 8))) &&
  bool_decide (u16 (Z.shiftl h 8) = Nat.iter 8 crc16_bit h)) bytes256 = true.
Proof. vm_compute. reflexivity. Qed.

Lemma crc16_byte h : 0 <= h < 256 -> rd crc16tab h = Some (Nat.iter 8 crc16_bit (Z.shiftl h 8)) /\ u16 (Z.shiftl h 8) = Nat.iter 8 crc16_bit h.
Proof.
  intros Hh. pose proof crc16_table as Ht. rewrite forallb_forall in Ht. specialize (Ht h ltac:(apply list_elem_of_In, bytes256_in; lia)).
  apply andb_true_iff in Ht as [H1 H2]. apply bool_decide_eq_true in H1, H2. by split.
Qed.

Lemma u16_lxor a b : u16 (Z.lxor a b) = Z.lxor (u16 a) (u16 b).
Proof.
  unfold uwrap. rewrite <- !Z.land_ones by lia. apply Z.bits_inj'. intros n Hn. rewrite Z.land_spec, !Z.lxor_spec, !Z.land_spec.
  by destruct (Z.testbit a n), (Z.testbit b n), (Z.testbit (Z.ones 16) n).
Qed.

Lemma crc16_bit_lxor a b : crc16_bit (Z.lxor a b) = Z.lxor (crc16_bit a) (crc16_bit b).
Proof.
  unfold crc16_bit. rewrite Z.lxor_spec, Z.shiftl_lxor, u16_lxor. set (P := 0x1021).
  destruct (Z.testbit a 15), (Z.testbit b 15); cbn [xorb]; rewrite ?Z.lxor_assoc; try done.
  - f_equal. rewrite <- Z.lxor_assoc, (Z.lxor_comm P), Z.lxor_assoc, Z.lxor_nilpotent. by rewrite Z.lxor_0_r.
  - f_equal. apply Z.lxor_comm.
Qed.

Lemma crc16_iter_lxor n a b : Nat.iter n crc16_bit (Z.lxor a b) = Z.lxor (Nat.iter n crc16_bit a) (Nat.iter n crc16_bit b).
Proof. induction n as [|n IH]; [done|]. cbn [Nat.iter nat_rect]. rewrite <- crc16_bit_lxor. f_equal. exact IH. Qed.

Lemma crc64_table : forallb (fun b => bool_decide (rd crc64_tab b = Some (Nat.iter 8 crc64_bit b))) bytes256 = true.
Proof. vm_compute. reflexivity. Qed.

Lemma split_byte a : 0 <= a -> a = Z.lxor (Z.shiftl (Z.shiftr a 8) 8) (Z.land a 255).
Proof.
  intros Ha. apply Z.bits_inj'. intros n Hn. rewrite Z.lxor_spec, Z.land_spec. change 255 with (Z.ones 8).
  destruct (decide (n < 8)).
  - rewrite Z.shiftl_spec_low, Z.ones_spec_low, xorb_false_l, andb_true_r by lia. done.
  - rewrite Z.shiftl_spec, Z.shiftr_spec, Z.ones_spec_high, andb_false_r, xorb_false_r by lia. f_equal. lia.
Qed.

Lemma crc16_iter_range n x : exists y, Nat.iter (S n) crc16_bit x = u16 y.
Proof.
  cbn [Nat.iter nat_rect]. set (z := nat_rect _ _ _ n). unfold crc16_bit at 1. destruct (Z.testbit z 15); [|eauto].
  exists (Z.lxor (Z.shiftl z 1) 0x1021). by rewrite u16_lxor.
Qed.

(** A byte and what the exclusive or of two bytes is. *)
Lemma lxor_byte a b : 0 <= a < 256 -> 0 <= b < 256 -> 0 <= Z.lxor a b < 256.
Proof.
  intros Ha Hb. assert (Z.lxor a b = Z.land (Z.lxor a b) 255) as ->; [|rewrite land_255; apply Z.mod_pos_bound; lia].
  assert (forall x, 0 <= x < 256 -> Z.land x 255 = x) as Hx by (intros x Hx; rewrite land_255; by apply Z.mod_small).
  rewrite <- (Hx a Ha), <- (Hx b Hb) at 2. apply Z.bits_inj'. intros n Hn. rewrite Z.land_spec, !Z.lxor_spec, !Z.land_spec.
  rewrite <- (Hx a Ha), <- (Hx b Hb) at 1. rewrite !Z.land_spec. by destruct (Z.testbit a n), (Z.testbit b n), (Z.testbit 255 n).
Qed.

Lemma crc16_step_division crc c : 0 <= crc < 2 ^ 16 -> 0 <= c < 256 ->
  crc16_step crc c = Some (Nat.iter 8 crc16_bit (Z.lxor crc (Z.shiftl c 8))) /\
  0 <= Nat.iter 8 crc16_bit (Z.lxor crc (Z.shiftl c 8)) < 2 ^ 16.
Proof.
  intros Hcrc Hc. set (h := Z.lxor (Z.shiftr crc 8) c). set (l := Z.land crc 255).
  assert (0 <= Z.shiftr crc 8 < 256) as Hs.
  { rewrite Z.shiftr_div_pow2 by lia. split; [apply Z.div_pos; lia | apply Z.div_lt_upper_bound; lia]. }
  assert (0 <= l < 256) as Hl by (subst l; rewrite land_255; apply Z.mod_pos_bound; lia).
  assert (0 <= h < 256) as Hh by (by apply lxor_byte).
  assert (Z.lxor crc (Z.shiftl c 8) = Z.lxor (Z.shiftl h 8) l) as ->.
  { subst h l. rewrite (split_byte crc) at 1 by lia. rewrite Z.shiftl_lxor, !Z.lxor_assoc. f_equal. apply Z.lxor_comm. }
  rewrite crc16_iter_lxor. destruct (crc16_byte h Hh) as [Ht _]. destruct (crc16_byte l Hl) as [_ Hu].
  unfold crc16_step. fold h. assert (Z.land h 255 = h) as -> by (rewrite land_255; apply Z.mod_small; lia).
  rewrite Ht. cbn [mbind option_bind].
  assert (u16 (Z.shiftl crc 8) = u16 (Z.shiftl l 8)) as ->.
  { unfold uwrap. rewrite !Z.shiftl_mul_pow2 by lia. subst l. rewrite land_255.
    rewrite (Z.div_mod crc 256) at 1 by lia. replace ((256 * (crc / 256) + crc mod 256) * 2 ^ 8) with (crc mod 256 * 2 ^ 8 + crc / 256 * 2 ^ 16) by lia.
    apply Z_mod_plus_full. }
  rewrite Hu. pose proof (crc16_iter_range 7 (Z.shiftl h 8)) as [x Hx]. pose proof (crc16_iter_range 7 l) as [y Hy]. rewrite Hx, Hy.
  rewrite (Z.lxor_comm (u16 y)), <- u16_lxor. pose proof (uwrap_bound 16 (Z.lxor x y) ltac:(lia)) as Hb.
  rewrite (uwrap_small 16 (u16 _)) by done. done.
Qed.

Lemma crc64_bit_lxor a b : crc64_bit (Z.lxor a b) = Z.lxor (crc64_bit a) (crc64_bit b).
Proof.
  unfold crc64_bit. rewrite Z.lxor_spec, Z.shiftr_lxor. set (P := 0x95ac9329ac4bc9b5). 
  destruct (Z.testbit a 0), (Z.testbit b 0); cbn [xorb]; rewrite ?Z.lxor_assoc; try done.
  - f_equal. rewrite <- Z.lxor_assoc, (Z.lxor_comm P), Z.lxor_assoc, Z.lxor_nilpotent. by rewrite Z.lxor_0_r.
  - f_equal. apply Z.lxor_comm.
Qed.

Lemma iter_lxor n a b : Nat.iter n crc64_bit (Z.lxor a b) = Z.lxor (Nat.iter n crc64_bit a) (Nat.iter n crc64_bit b).
Proof. induction n as [|n IH]; [done|]. cbn [Nat.iter nat_rect]. rewrite <- crc64_bit_lxor. f_equal. exact IH. Qed.

(** Zero bits only shift. *)
Lemma iter_shift n h : Nat.iter n crc64_bit (Z.shiftl h (Z.of_nat n)) = h.
Proof.
  induction n as [|n IH]; [by rewrite Z.shiftl_0_r|]. rewrite Nat.iter_succ_r.
  replace (crc64_bit (Z.shiftl h (Z.of_nat (S n)))) with (Z.shiftl h (Z.of_nat n)); [exact IH|].
  unfold crc64_bit. rewrite Z.shiftl_spec_low by lia. rewrite Z.shiftr_shiftl_l by lia. f_equal. lia.
Qed.

Lemma crc64_step_division crc c : 0 <= crc -> 0 <= c < 256 -> crc64_step crc c = Some (Nat.iter 8 crc64_bit (Z.lxor crc c)).
Proof.
  intros Hcrc Hc. unfold crc64_step.
  replace (Z.lxor crc c) with (Z.lxor (Z.shiftl (Z.shiftr crc 8) 8) (Z.lxor (Z.land crc 255) c)) by (by rewrite <- Z.lxor_assoc, <- split_byte).
  rewrite iter_lxor.
  rewrite (iter_shift 8). unfold uwrap at 2. change (2 ^ 8) with 256. rewrite <- land_255.
  set (b := Z.lxor (Z.land crc 255) c). assert (0 <= b < 256) as Hb by (apply lxor_byte; [rewrite land_255; apply Z.mod_pos_bound; lia | done]).
  rewrite uwrap_small by lia. pose proof crc64_table as Ht. rewrite forallb_forall in Ht.
  specialize (Ht b ltac:(apply list_elem_of_In, bytes256_in; lia)). apply bool_decide_eq_true in Ht. rewrite Ht. cbn [mbind option_bind].
  by rewrite Z.lxor_comm.
Qed.

Lemma crc16_loop_division buf : forall crc, 0 <= crc < 2 ^ 16 -> bytes_ok buf ->
  crc16_loop crc buf = Some (crc16_division crc buf) /\ 0 <= crc16_division crc buf < 2 ^ 16.
Proof.
  induction buf as [|c buf IH]; intros crc Hcrc Hb; [done|]. apply Forall_cons_1 in Hb as [Hc Hb]. cbn [crc16_loop].
  destruct (crc16_step_division crc c Hcrc Hc) as [-> Hr]. cbn [mbind option_bind]. apply (IH _ Hr Hb).
Qed.

Lemma crc64_bit_nonneg x : 0 <= x -> 0 <= crc64_bit x.
Proof.
  intros Hx. unfold crc64_bit. assert (0 <= Z.shiftr x 1) by (apply Z.shiftr_nonneg; lia).
  destruct (Z.testbit x 0); [apply Z.lxor_nonneg; lia | done].
Qed.

Lemma crc64_iter_nonneg n x : 0 <= x -> 0 <= Nat.iter n crc64_bit x.
Proof. intros Hx. induction n as [|n IH]; [done|]. by apply crc64_bit_nonneg. Qed.

Lemma crc64_byte_nonneg crc c : 0 <= crc -> byte_ok c -> 0 <= Nat.iter 8 crc64_bit (Z.lxor crc c).
Proof. intros H [Hc _]. apply crc64_iter_nonneg, Z.lxor_nonneg. lia. Qed.

Lemma crc64_division_nonneg s : forall crc, 0 <= crc -> bytes_ok s -> 0 <= crc64_division crc s.
Proof.
  induction s as [|c s IH]; intros crc Hcrc Hb; [done|]. apply Forall_cons_1 in Hb as [Hc Hb]. by apply IH; [apply crc64_byte_nonneg|].
Qed.

Lemma crc64_loop_division s : forall crc, 0 <= crc -> bytes_ok s -> crc64_loop crc s = Some (crc64_division crc s).
Proof.
  induction s as [|c s IH]; intros crc Hcrc Hb; [done|]. apply Forall_cons_1 in Hb as [Hc Hb]. cbn [crc64_loop].
  rewrite crc64_step_division by done. cbn [mbind option_bind]. by apply IH; [apply crc64_byte_nonneg|].
Qed.

Lemma load_all {A} (l : list A) : load l 0 (zlen l) = Some l.
Proof. rewrite <- (app_nil_r l) at 1. by apply load_head. Qed.

(** C19: the table driven checksums are the remainders of the division, bit by bit,
    by their polynomials, for every buffer of bytes: crc16 by 1021 with the most
    significant bit first, crc64 by ad93d23594c935a9 with the least significant
    bit first, from whatever checksum it continues; so a buffer may be summed in
    pieces. *)
Theorem crc_is_division (buf1 buf2 : list Z) (crc : Z) : bytes_ok buf1 -> bytes_ok buf2 -> 0 <= crc ->
  crc16 buf1 (zlen buf1) = Some (crc16_division 0 buf1) /\ 0 <= crc16_division 0 buf1 < 2 ^ 16 /\
  crc64 crc (buf1 ++ buf2) (zlen (buf1 ++ buf2)) = Some (crc64_division crc (buf1 ++ buf2)) /\
  (c ← crc64 crc buf1 (zlen buf1); crc64 c buf2 (zlen buf2)) = crc64 crc (buf1 ++ buf2) (zlen (buf1 ++ buf2)).
Proof.
  intros H1 H2 Hc. unfold crc16, crc64. rewrite !load_all. cbn [mbind option_bind].
  destruct (crc16_loop_division buf1 0 ltac:(lia) H1) as [-> Hr]. split_and!; [done | apply Hr | apply Hr | |].
  - apply crc64_loop_division; [done | by apply Forall_app].
  - rewrite (crc64_loop_division buf1) by done. cbn [mbind option_bind].
    rewrite (crc64_loop_division (buf1 ++ buf2)) by (done || by apply Forall_app). unfold crc64_division at 2. rewrite foldl_app.
    apply crc64_loop_division; [by apply crc64_division_nonneg | done].
Qed.

Lemma crc_is_division_witness :
  crc16 (bytes_of "123456789") 9 = Some 0x31c3 /\ crc64 0 (bytes_of "123456789") 9 = Some 0xe9c6d914c4b8d9ca.
Proof.
  assert (bytes_ok (bytes_of "1234") /\ bytes_ok (bytes_of "56789") /\ bytes_ok (bytes_of "123456789")) as (H1 & H2 & H3).
  { split_and!; vm_compute; repeat constructor; congruence. }
  split.
  - exact (eq_trans (proj1 (crc_is_division (bytes_of "123456789") [] 0 H3 (Forall_nil_2 _) ltac:(lia))) eq_refl).
  - exact (eq_trans (proj1 (proj2 (proj2 (crc_is_division (bytes_of "1234") (bytes_of "56789") 0 H1 H2 ltac:(lia))))) eq_refl).
Defined.

(** ** Hash slots *)

Lemma slot_scan_spec key c : forall fuel pre rest, key = pre ++ rest -> (length rest <= fuel)%nat ->
  exists tag post, rest = tag ++ post /\ c ∉ tag /\ (forall x post', post = x :: post' -> x = c) /\
    scan fuel key c (zlen pre) (zlen key) = Some (zlen pre + zlen tag).
Proof.
  induction fuel as [|fuel IH]; intros pre rest -> Hf; cbn [scan].
  { destruct rest; [|cbn in Hf; lia]. exists [], []. rewrite (app_nil_r pre), Z.ltb_irrefl. split_and!; [done | set_solver | done | cbn; f_equal; lia]. }
  destruct rest as [|x rest].
  { exists [], []. rewrite (app_nil_r pre), Z.ltb_irrefl. split_and!; [done | set_solver | done | cbn; f_equal; lia]. }
  assert (zlen pre <? zlen (pre ++ x :: rest) = true) as -> by (apply Z.ltb_lt; rewrite length_app; cbn [length]; lia).
  rewrite rd_app. cbn [mbind option_bind]. destruct (x =? c) eqn:E; zbool.
  - exists [], (x :: rest). split_and!; [done | set_solver | by intros ? ? [= <- _] | cbn; f_equal; lia].
  - destruct (IH (pre ++ [x]) rest) as (tag & post & -> & Hc & Hp & Hs); [by rewrite <- app_assoc | cbn in Hf; lia |].
    exists (x :: tag), post. split_and!; [done | set_solver | done |].
    replace (zlen pre + 1) with (zlen (pre ++ [x])) by (rewrite length_app; cbn; lia).
    rewrite Hs. rewrite length_app. cbn [length]. f_equal. lia.
Qed.

Lemma first_occurrence (c : Z) (a a' b b' : list Z) : a ++ c :: b = a' ++ c :: b' -> c ∉ a -> c ∉ a' -> a = a' /\ b = b'.
Proof.
  revert a'. induction a as [|x a IH]; intros [|y a'] Heq Ha Ha'; cbn in Heq.
  - by injection Heq.
  - injection Heq as -> _. set_solver.
  - injection Heq as -> _. set_solver.
  - injection Heq as -> Heq. destruct (IH a' Heq) as [-> ->]; set_solver.
Qed.

(** C20: the hash slot of a key lies below 16384 and is the checksum of its hash tag: the text
    between the first opening brace and the first closing brace after it, when
    both are there and the text is not empty, and of the whole key in all other
    cases.  So keys with the same tag share their slot. *)
Theorem hash_slot (key : list Z) : bytes_ok key ->
  exists slot, keyHashSlot key (zlen key) = Some slot /\ 0 <= slot < 16384 /\
  (forall pre tag post, key = pre ++ 123 :: tag ++ 125 :: post -> 123 ∉ pre -> 125 ∉ tag -> tag <> [] ->
     slot = Z.land (crc16_division 0 tag) 16383) /\
  ((forall pre tag post, key = pre ++ 123 :: tag ++ 125 :: post -> 123 ∉ pre -> 125 ∉ tag -> tag = []) ->
     slot = Z.land (crc16_division 0 key) 16383).
Proof.
  intros Hb. unfold keyHashSlot. destruct (slot_scan_spec key 123 (Z.to_nat (zlen key)) [] key eq_refl ltac:(lia)) as (pre & post & Hk & Hpre & Hx & Hs).
  change (zlen []) with 0 in Hs. rewrite Hs. cbn [mbind option_bind]. 
  change (0 + zlen pre) with (zlen pre).
  assert (forall t, bytes_ok t -> crc16 t (zlen t) = Some (crc16_division 0 t) /\ 0 <= Z.land (crc16_division 0 t) 16383 < 16384) as Hcrc.
  { intros t Ht. unfold crc16. rewrite load_all. cbn [mbind option_bind].
    split; [apply (crc16_loop_division t 0 ltac:(lia) Ht)|]. change 16383 with (Z.ones 14). rewrite Z.land_ones by lia. apply Z.mod_pos_bound. lia. }
  destruct (Hcrc key Hb) as [-> Hkey]. cbn [mbind option_bind].
  (* a tag determines where the scans stop *)
  assert (forall pre' tag' post', key = pre' ++ 123 :: tag' ++ 125 :: post' -> 123 ∉ pre' -> pre' = pre /\ post = 123 :: tag' ++ 125 :: post') as Huniq.
  { intros pre' tag' post' Hk' Hpre'. rewrite Hk in Hk'. destruct post as [|x post].
    { rewrite app_nil_r in Hk'. destruct Hpre. rewrite Hk'. set_solver. }
    rewrite (Hx x post eq_refl) in *. by destruct (first_occurrence 123 _ _ _ _ Hk' Hpre Hpre') as [-> ->]. }
  destruct (zlen pre =? zlen key) eqn:E; zbool.
  { assert (post = []) as -> by (destruct post; [done | rewrite Hk, length_app in E; cbn [length] in E; lia]).
    eexists. split; [done|]. split; [done|]. split; [|done].
    intros pre' tag' post' Hk' Hp'. by destruct (Huniq pre' tag' post' Hk' Hp') as [_ ?]. }
  destruct post as [|x post]; [rewrite Hk, length_app in E; cbn [length] in E; lia|]. rewrite (Hx x post eq_refl) in *. clear x Hx.
  replace (zlen pre + 1) with (zlen (pre ++ [123])) by (rewrite length_app; cbn; lia).
  destruct (slot_scan_spec key 125 (Z.to_nat (zlen key)) (pre ++ [123]) post) as (tag & post2 & Hpost & Htag & Hx & ->);
    [by rewrite <- app_assoc | rewrite Hk, length_app; cbn [length]; lia |].
  cbn [mbind option_bind].
  assert (zlen key = zlen (pre ++ [123]) + zlen tag + zlen post2) as Hlen.
  { rewrite Hk, Hpost, !length_app. cbn [length]. rewrite length_app. lia. }
  assert (forall pre' tag' post', key = pre' ++ 123 :: tag' ++ 125 :: post' -> 123 ∉ pre' -> 125 ∉ tag' -> post2 <> [] /\ tag' = tag) as Huniq2.
  { intros pre' tag' post' Hk' Hp' Ht'. destruct (Huniq pre' tag' post' Hk' Hp') as [_ Hp2]. injection Hp2 as Hp2. rewrite Hpost in Hp2.
    destruct post2 as [|x post2].
    - rewrite app_nil_r in Hp2. destruct Htag. rewrite Hp2. set_solver.
    - rewrite (Hx x post2 eq_refl) in *. split; [done|]. symmetry in Hp2. by destruct (first_occurrence 125 tag' tag _ _ Hp2 Ht' Htag). }
  destruct ((_ =? zlen key) || (_ =? zlen (pre ++ [123]))) eqn:E2.
  - eexists. split; [done|]. split; [done|]. split; [|done].
    intros pre' tag' post' Hk' Hp' Ht' Hne. destruct (Huniq2 pre' tag' post' Hk' Hp' Ht') as [Hp2 ->].
    apply orb_true_iff in E2 as [E2|E2]; zbool; [destruct post2 | destruct tag]; cbn [length] in *; first [done | lia].
  - apply orb_false_iff in E2 as [E2 E3]; zbool.
    replace (zlen (pre ++ [123]) + zlen tag - zlen pre - 1) with (zlen tag) by (rewrite length_app; cbn; lia).
    assert (load key (zlen (pre ++ [123])) (zlen tag) = Some tag) as ->.
    { rewrite Hk, Hpost. change (pre ++ 123 :: tag ++ post2) with (pre ++ [123] ++ tag ++ post2). rewrite app_assoc. by apply load_app. }
    assert (bytes_ok tag) as Hbt.
    { rewrite Hk, Hpost in Hb. apply Forall_app in Hb as [_ Hb]. apply Forall_cons_1 in Hb as [_ Hb]. by apply Forall_app in Hb as [Hb _]. }
    cbn [mbind option_bind]. rewrite (proj1 (Hcrc tag Hbt)). cbn [mbind option_bind]. eexists. split; [done|]. split; [by apply Hcrc|]. split.
    + intros pre' tag' post' Hk' Hp' Ht' _. by destruct (Huniq2 pre' tag' post' Hk' Hp' Ht') as [_ ->].
    + intros Hno. exfalso. destruct post2 as [|x post2]; [cbn in *; lia|]. rewrite (Hx x post2 eq_refl) in *.
      apply E3. rewrite (Hno pre tag post2); [cbn; lia | by rewrite Hk, Hpost | done | done].
Qed.

Lemma hash_slot_witness :
  (exists slot, keyHashSlot (bytes_of "user:{42}:name") 14 = Some slot /\ slot = Z.land (crc16_division 0 (bytes_of "42")) 16383) /\
  (exists slot, keyHashSlot (bytes_of "{42}") 4 = Some slot /\ slot = Z.land (crc16_division 0 (bytes_of "42")) 16383).
Proof.
  assert (bytes_ok (bytes_of "user:{42}:name") /\ bytes_ok (bytes_of "{42}")) as [H1 H2].
  { split; vm_compute; repeat constructor; congruence. }
  split.
  - destruct (hash_slot (bytes_of "user:{42}:name") H1) as (slot & Hs & _ & Ht & _). exists slot. split; [exact Hs|].
    apply (Ht (bytes_of "user:") (bytes_of "42") (bytes_of ":name")); [reflexivity | apply (bool_decide_unpack _); reflexivity.. | discriminate].
  - destruct (hash_slot (bytes_of "{42}") H2) as (slot & Hs & _ & Ht & _). exists slot. split; [exact Hs|].
    apply (Ht [] (bytes_of "42") []); [reflexivity | apply (bool_decide_unpack _); reflexivity.. | discriminate].
Defined.
