(* ===== verification/Db.v ===== *)
(** * The key space (db.c) and the hooks on it (multi.c)

    Lookups, insertions and deletions of keys, their expiration, the marks left on
    the clients that watch a key, and the commands that work on keys of every
    type.  Keys live in the maps of [Server.v]; an object of a database is known by
    its key.  The access time of objects is not part of the model.

    [DbOk.v] and [DbCommands.v] prove what these functions keep true. *)
From Stdlib Require Import Lia ZArith String.
From stdpp Require Import base numbers list tactics option gmap fin_maps fin_sets sets.
From S2P Require Import Prelude Util Dict DictIter Object SetType Server Pubsub Crc.

#[local] Open Scope Z_scope.

Definition with_dict (f : gmap key obj -> gmap key obj) (db : redisDb) : redisDb :=
  mk_db (f (db_dict db)) (db_expires db) (watched_keys db) (blocking_keys db) (db_ready_keys db).
Definition with_expires (f : gmap key Z -> gmap key Z) (db : redisDb) : redisDb :=
  mk_db (db_dict db) (f (db_expires db)) (watched_keys db) (blocking_keys db) (db_ready_keys db).
Definition with_watchers (f : gmap key (list cid) -> gmap key (list cid)) (db : redisDb) : redisDb :=
  mk_db (db_dict db) (db_expires db) (f (watched_keys db)) (blocking_keys db) (db_ready_keys db).
Definition with_db_ready (f : gset key -> gset key) (db : redisDb) : redisDb :=
  mk_db (db_dict db) (db_expires db) (watched_keys db) (blocking_keys db) (f (db_ready_keys db)).

Section Db.
Context `{E : Env}.

(** A reading of the clock, in milliseconds. *)
Definition mstime : M Z := s ← get; modify (upd_ticks S);; mret (env_clock (ticks s)).

(** [server.dirty++] and the like. *)
Definition add_dirty (n : Z) : M unit := modify (upd_dirty (fun d => d + n)).

(** ** Slots of the cluster *)

Definition slotToKeyAdd (k : key) : M unit :=
  hashslot ← lift (keyHashSlot k (zlen k)); modify (upd_slots (fun X => {[(hashslot, k)]} ∪ X)).
Definition slotToKeyDel (k : key) : M unit :=
  hashslot ← lift (keyHashSlot k (zlen k)); modify (upd_slots (fun X => X ∖ {[(hashslot, k)]})).
Definition slotToKeyFlush : M unit := modify (upd_slots (fun _ => ∅)).

(** ** The C level interface *)

Definition lookupKey (id : Z) (k : key) : M (option obj) := db ← get_db id; mret (db_dict db !! k).

(** A list added at a key that clients block on is queued, once. *)
Definition signalListAsReady (id : Z) (k : key) : M unit :=
  db ← get_db id;
  match blocking_keys db !! k with
  | None => mret tt
  | Some _ =>
      if decide (k ∈ db_ready_keys db) then mret tt else
      modify (upd_ready (fun l => l ++ [(id, k)]));;
      mod_db id (with_db_ready (fun X => {[k]} ∪ X))
  end.

Definition dbAdd (id : Z) (k : key) (val : obj) : M unit :=
  db ← get_db id;
  assert_ (bool_decide (db_dict db !! k = None));;
  mod_db id (with_dict (<[k := val]>));;
  (match obj_type val with REDIS_LIST => signalListAsReady id k | _ => mret tt end);;
  s ← get;
  if cluster_enabled (cfg s) then slotToKeyAdd k else mret tt.

Definition dbOverwrite (id : Z) (k : key) (val : obj) : M unit :=
  db ← get_db id;
  assert_ (bool_decide (is_Some (db_dict db !! k)));;
  mod_db id (with_dict (<[k := val]>)).

Definition dbExists (id : Z) (k : key) : M bool := db ← get_db id; mret (bool_decide (is_Some (db_dict db !! k))).

Definition dbDelete (id : Z) (k : key) : M bool :=
  db ← get_db id;
  (if 0 <? Z.of_nat (base.size (db_expires db)) then mod_db id (with_expires (base.delete k)) else mret tt);;
  match db_dict db !! k with
  | Some _ =>
      mod_db id (with_dict (base.delete k));;
      s ← get;
      (if cluster_enabled (cfg s) then slotToKeyDel k else mret tt);;
      mret true
  | None => mret false
  end.

(** ** Watched keys *)

Definition touchWatchedKey (id : Z) (k : key) : M unit :=
  db ← get_db id;
  if Z.of_nat (base.size (watched_keys db)) =? 0 then mret tt else
  match watched_keys db !! k with
  | None => mret tt
  | Some clients => for_each (fun c => mod_client c (with_flags (fun f => set_flag f REDIS_DIRTY_CAS))) clients
  end.

(** [server.clients] is walked in the order of the identifiers. *)
Definition touchWatchedKeysOnFlush (dbid : Z) : M unit :=
  s ← get;
  for_each (fun '(c, cl) =>
    for_each (fun '(k, id) =>
      if (dbid =? -1) || (id =? dbid) then
        db ← get_db id;
        match db_dict db !! k with
        | Some _ => mod_client c (with_flags (fun f => set_flag f REDIS_DIRTY_CAS))
        | None => mret tt
        end
      else mret tt) (c_watched cl)) (map_to_list (clients s)).

Definition signalModifiedKey (id : Z) (k : key) : M unit := touchWatchedKey id k.
Definition signalFlushedDb (dbid : Z) : M unit := touchWatchedKeysOnFlush dbid.

(** ** Expires *)

Definition removeExpire (id : Z) (k : key) : M bool :=
  db ← get_db id;
  assert_ (bool_decide (is_Some (db_dict db !! k)));;
  mod_db id (with_expires (base.delete k));;
  mret (bool_decide (is_Some (db_expires db !! k))).

Definition setExpire (id : Z) (k : key) (when_ : Z) : M unit :=
  db ← get_db id;
  assert_ (bool_decide (is_Some (db_dict db !! k)));;
  mod_db id (with_expires (<[k := when_]>)).

Definition getExpire (id : Z) (k : key) : M Z :=
  db ← get_db id;
  if Z.of_nat (base.size (db_expires db)) =? 0 then mret (-1) else
  match db_expires db !! k with
  | None => mret (-1)
  | Some when_ => assert_ (bool_decide (is_Some (db_dict db !! k)));; mret when_
  end.

(** The AOF and the slaves are fed a DEL. *)
Definition propagateExpire (id : Z) (k : key) : M unit :=
  modify (upd_propagated (fun l => l ++ [(id, [bytes_of "DEL"; k])])).

Definition expireIfNeeded (id : Z) (k : key) : M bool :=
  when_ ← getExpire id k;
  if when_ <? 0 then mret false else
  s ← get;
  if loading (cfg s) then mret false else
  now ← (match lua_time_start (cfg s) with Some t => mret t | None => mstime end);
  if masterhost (cfg s) then mret (now >? when_) else
  if now <=? when_ then mret false else
  modify (upd_stats 1 0 0);;
  propagateExpire id k;;
  notifyKeyspaceEvent REDIS_NOTIFY_EXPIRED (bytes_of "expired") k id;;
  dbDelete id k.

Definition lookupKeyRead (id : Z) (k : key) : M (option obj) :=
  expireIfNeeded id k;;
  val ← lookupKey id k;
  (match val with None => modify (upd_stats 0 0 1) | Some _ => modify (upd_stats 0 1 0) end);;
  mret val.

Definition lookupKeyWrite (id : Z) (k : key) : M (option obj) := expireIfNeeded id k;; lookupKey id k.

Definition c_dbid (c : cid) : M Z := cl ← get_client c; mret (c_db cl).

Definition lookupKeyReadOrReply (c : cid) (k : key) (r : reply) : M (option obj) :=
  id ← c_dbid c; o ← lookupKeyRead id k;
  (match o with None => addReply c r | Some _ => mret tt end);; mret o.
Definition lookupKeyWriteOrReply (c : cid) (k : key) (r : reply) : M (option obj) :=
  id ← c_dbid c; o ← lookupKeyWrite id k;
  (match o with None => addReply c r | Some _ => mret tt end);; mret o.

Definition checkType (c : cid) (o : obj) (t : otype) : M bool :=
  if decide (obj_type o = t) then mret false else addReply c ErrWrongType;; mret true.

Definition setKey (id : Z) (k : key) (val : obj) : M unit :=
  o ← lookupKeyWrite id k;
  (match o with None => dbAdd id k val | Some _ => dbOverwrite id k val end);;
  removeExpire id k;;
  signalModifiedKey id k.

Definition selectDb (c : cid) (id : Z) : M bool :=
  s ← get;
  if (id <? 0) || (id >=? zlen (dbs s)) then mret false else
  mod_client c (fun cl => mk_client (flags cl) id (argv cl) (c_watched cl) (mstate cl) (c_channels cl) (c_patterns cl) (c_reply cl));;
  mret true.

(** Every database emptied: the number of keys removed. *)
Definition emptyDb : M Z :=
  s ← get;
  removed ← for_sum (fun id =>
    db ← get_db id;
    mod_db id (fun db => with_expires (fun _ => ∅) (with_dict (fun _ => ∅) db));;
    mret (Z.of_nat (base.size (db_dict db)))) (seqZ 0 (zlen (dbs s)));
  (if cluster_enabled (cfg s) then slotToKeyFlush else mret tt);;
  mret removed.

(** ** Commands *)

Definition flushdbCommand (c : cid) : M unit :=
  id ← c_dbid c;
  db ← get_db id;
  add_dirty (Z.of_nat (base.size (db_dict db)));;
  signalFlushedDb id;;
  mod_db id (fun db => with_expires (fun _ => ∅) (with_dict (fun _ => ∅) db));;
  s ← get;
  (if cluster_enabled (cfg s) then slotToKeyFlush else mret tt);;
  addReply c Ok.

(** Killing the saving child and saving to disk leave this state alone. *)
Definition flushallCommand (c : cid) : M unit :=
  signalFlushedDb (-1);;
  n ← emptyDb;
  add_dirty n;;
  addReply c Ok;;
  add_dirty 1.

Definition delCommand (c : cid) : M unit :=
  id ← c_dbid c;
  l ← args_from c 1;
  deleted ← for_sum (fun k =>
    expireIfNeeded id k;;
    d ← dbDelete id k;
    if (d : bool) then
      signalModifiedKey id k;;
      notifyKeyspaceEvent REDIS_NOTIFY_GENERIC (bytes_of "del") k id;;
      add_dirty 1;;
      mret 1
    else mret 0) l;
  addReply c (Integer deleted).

Definition existsCommand (c : cid) : M unit :=
  id ← c_dbid c;
  k ← arg c 1;
  expireIfNeeded id k;;
  b ← dbExists id k;
  addReply c (Integer (if (b : bool) then 1 else 0)).

Definition renameGenericCommand (c : cid) (nx : bool) : M unit :=
  id ← c_dbid c;
  k1 ← arg c 1;
  k2 ← arg c 2;
  if decide (k1 = k2) then addReply c ErrSameObject else
  o ← lookupKeyWriteOrReply c k1 ErrNoKey;
  match o with
  | None => mret tt
  | Some o =>
      expire ← getExpire id k1;
      o2 ← lookupKeyWrite id k2;
      match o2, nx with
      | Some _, true => addReply c (Integer 0)
      | _, _ =>
          (match o2 with Some _ => _ ← dbDelete id k2; mret tt | None => mret tt end);;
          dbAdd id k2 o;;
          (if negb (expire =? -1) then setExpire id k2 expire else mret tt);;
          dbDelete id k1;;
          signalModifiedKey id k1;;
          signalModifiedKey id k2;;
          notifyKeyspaceEvent REDIS_NOTIFY_GENERIC (bytes_of "rename_from") k1 id;;
          notifyKeyspaceEvent REDIS_NOTIFY_GENERIC (bytes_of "rename_to") k2 id;;
          add_dirty 1;;
          addReply c (if nx then Integer 1 else Ok)
      end
  end.

Definition renameCommand (c : cid) : M unit := renameGenericCommand c false.
Definition renamenxCommand (c : cid) : M unit := renameGenericCommand c true.

Definition moveCommand (c : cid) : M unit :=
  s ← get;
  if cluster_enabled (cfg s) then addReply c (ErrText "MOVE is not allowed in cluster mode") else
  srcid ← c_dbid c;
  k ← arg c 1;
  a ← arg c 2;
  ok ← (match read_long a with
    | Some dbid => if (dbid <? INT32_MIN) || (dbid >? INT32_MAX) then mret false else selectDb c dbid
    | None => mret false
    end);
  if negb ok then addReply c ErrOutOfRange else
  dst ← c_dbid c;
  selectDb c srcid;;
  if srcid =? dst then addReply c ErrSameObject else
  o ← lookupKeyWrite srcid k;
  match o with
  | None => addReply c (Integer 0)
  | Some o =>
      o2 ← lookupKeyWrite dst k;
      match o2 with
      | Some _ => addReply c (Integer 0)
      | None => dbAdd dst k o;; dbDelete srcid k;; add_dirty 1;; addReply c (Integer 1)
      end
  end.

(** Signed overflow in the computation of the time has no defined result. *)
Definition no_overflow (v : Z) : M Z := assert_ ((LLONG_MIN <=? v) && (v <=? LLONG_MAX));; mret v.

Definition getLongLong_or_reply (c : cid) (a : list Z) : M (option Z) :=
  match read_long a with Some v => mret (Some v) | None => addReply c (ErrText "value is not an integer or out of range");; mret None end.

Definition expireGenericCommand (c : cid) (basetime : Z) (seconds : bool) : M unit :=
  id ← c_dbid c;
  k ← arg c 1;
  param ← arg c 2;
  r ← getLongLong_or_reply c param;
  match r with
  | None => mret tt
  | Some when_ =>
      when_ ← (if seconds then no_overflow (when_ * 1000) else mret when_);
      when_ ← no_overflow (when_ + basetime);
      o ← lookupKeyRead id k;
      match o with
      | None => addReply c (Integer 0)
      | Some _ =>
          now ← mstime;
          s ← get;
          if (when_ <=? now) && negb (loading (cfg s)) && negb (masterhost (cfg s)) then
            d ← dbDelete id k;
            assert_ d;;
            add_dirty 1;;
            mod_client c (with_argv [bytes_of "DEL"; k]);;
            signalModifiedKey id k;;
            notifyKeyspaceEvent REDIS_NOTIFY_GENERIC (bytes_of "del") k id;;
            addReply c (Integer 1)
          else
            setExpire id k when_;;
            addReply c (Integer 1);;
            signalModifiedKey id k;;
            notifyKeyspaceEvent REDIS_NOTIFY_GENERIC (bytes_of "expire") k id;;
            add_dirty 1
      end
  end.

Definition expireCommand (c : cid) : M unit := t ← mstime; expireGenericCommand c t true.
Definition expireatCommand (c : cid) : M unit := expireGenericCommand c 0 true.
Definition pexpireCommand (c : cid) : M unit := t ← mstime; expireGenericCommand c t false.
Definition pexpireatCommand (c : cid) : M unit := expireGenericCommand c 0 false.

Definition ttlGenericCommand (c : cid) (output_ms : bool) : M unit :=
  id ← c_dbid c;
  k ← arg c 1;
  o ← lookupKeyRead id k;
  match o with
  | None => addReply c (Integer (-2))
  | Some _ =>
      expire ← getExpire id k;
      ttl ← (if negb (expire =? -1) then
          now ← mstime;
          let ttl := expire - now in
          mret (if ttl <? 0 then 0 else ttl)
        else mret (-1));
      if ttl =? -1 then addReply c (Integer (-1))
      else addReply c (Integer (if output_ms then ttl else Z.quot (ttl + 500) 1000))
  end.

Definition ttlCommand (c : cid) : M unit := ttlGenericCommand c false.
Definition pttlCommand (c : cid) : M unit := ttlGenericCommand c true.

Definition persistCommand (c : cid) : M unit :=
  id ← c_dbid c;
  k ← arg c 1;
  b ← dbExists id k;
  if negb b then addReply c (Integer 0) else
  r ← removeExpire id k;
  if (r : bool) then addReply c (Integer 1);; add_dirty 1 else addReply c (Integer 0).

End Db.
