(* ===== verification/DbOk.v ===== *)
(** * What the key space functions keep true

    [server_ok] is the consistency of the shared state: volatile keys exist, the
    values are well formed sets, the slots of the cluster index exactly the keys,
    the watched keys of the clients and the watchers of the databases agree, and
    so do the subscriptions.  [changes L s s'] says that a run touched no key
    outside [L] and kept everything else commands share.  [Inv P s] adds the
    promise of WATCH relative to an initial state: a watched key that is not in [P]
    has its initial value, or its watchers are marked.  [P] holds the keys that
    were modified and not signalled yet. *)
From Stdlib Require Import Lia ZArith String.
From stdpp Require Import base numbers list tactics option gmap fin_maps fin_sets sets.
From S2P Require Import Prelude Util Intset Dict DictRep DictIter Object Glob SetType Server Pubsub Crc Db.

#[local] Open Scope Z_scope.

(** ** Views of the databases *)

Abbreviation loc := (Z * key)%type.

Definition dict_at (s : server) (x : loc) : option obj := db ← rd (dbs s) x.1; db_dict db !! x.2.
Definition expire_at (s : server) (x : loc) : option Z := db ← rd (dbs s) x.1; db_expires db !! x.2.

(** The set an object stands for. *)
Definition intset_list (iset : intset) : list Z := omap (fun i => _intsetGet iset i) (seqZ 0 (is_length iset)).
Definition set_of (s : setobj) : gset (list Z) :=
  match s with INTSET iset => list_to_set (Dec.dec <$> intset_list iset) | HT d => dom (dmap d) end.

Lemma intset_list_rep iset l : rep iset l -> intset_list iset = l.
Proof.
  intros Hr. unfold intset_list. rewrite (rep_len _ _ Hr). unfold seqZ. rewrite Nat2Z.id.
  assert (forall k post, l = take k l ++ post -> omap (fun i => _intsetGet iset i) ((fun i => Z.of_nat i + 0) <$> seq k (length post)) = post) as H.
  { intros k post. revert k. induction post as [|v post IH]; intros k Hl; [done|]. cbn [length seq].
    assert (l !! k = Some v) as Hv.
    { destruct (decide (k < length l)%nat) as [Hk|Hk].
      - rewrite Hl. rewrite lookup_app_r by (rewrite length_take; lia). rewrite length_take, Nat.min_l by lia. by rewrite Nat.sub_diag.
      - rewrite take_ge in Hl by lia. apply (f_equal length) in Hl. rewrite length_app in Hl. cbn in Hl. lia. }
    cbn. rewrite Z.add_0_r, (get_rep _ _ _ _ Hr Hv). f_equal. apply IH.
    rewrite (take_S_r _ _ _ Hv), <- app_assoc. exact Hl. }
  exact (H O l eq_refl).
Qed.

Lemma set_of_rep `{DT : DictType (list Z)} s X : set_rep s X -> set_of s = X.
Proof.
  intros Hs. apply set_rep_inv in Hs. destruct s as [iset|d]; cbn [set_of]; [|by destruct Hs].
  destruct Hs as (l & Hr & _ & ->). by rewrite (intset_list_rep iset l Hr).
Qed.

(** What a key holds, whatever the representation. *)
Inductive val := VSet (X : gset (list Z)) | VOther (t : otype) (contents : Z).
Definition val_of (o : obj) : val := match o with OSet s => VSet (set_of s) | OOther t x => VOther t x end.
Definition val_at (s : server) (x : loc) : option val := val_of <$> dict_at s x.

(** ** Consistency *)

Section Ok.
Context `{E : Env}.
Context (W : gset (cid * loc)).

(** Clients and databases agree on who watches what: the relation [W]. *)
Record watch_rep (s : server) : Prop := {
  wr_clients : forall c cl, clients s !! c = Some cl -> NoDup (c_watched cl) /\ forall k id, (k, id) ∈ c_watched cl <-> (c, (id, k)) ∈ W;
  wr_live : forall c x, (c, x) ∈ W -> is_Some (clients s !! c) /\ is_Some (rd (dbs s) x.1);
  wr_lists : forall id db, rd (dbs s) id = Some db -> forall k, match watched_keys db !! k with
    | Some l => l <> [] /\ NoDup l /\ forall c, c ∈ l <-> (c, (id, k)) ∈ W
    | None => forall c, (c, (id, k)) ∉ W
    end;
}.

Definition obj_ok (o : obj) : Prop := match o with OSet st => set_rep st (set_of st) | OOther t _ => t <> REDIS_SET end.

Record server_ok (s : server) : Prop := {
  ok_pubsub : exists subs psubs, pubsub_rep s subs psubs /\ forall c p, (c, p) ∈ psubs -> plain p;
  ok_watch : watch_rep s;
  ok_volatile : forall x, is_Some (expire_at s x) -> is_Some (dict_at s x);
  ok_objects : forall x o, dict_at s x = Some o -> obj_ok o;
  ok_slots : cluster_enabled (cfg s) = true -> (forall sl k, (sl, k) ∈ slots_to_keys s <-> is_Some (dict_at s (0, k)) /\ keyHashSlot k (zlen k) = Some sl) /\
    (forall x, x.1 <> 0 -> dict_at s x = None) /\ forall c cl, clients s !! c = Some cl -> c_db cl = 0;
  ok_clients : forall c cl, clients s !! c = Some cl -> is_Some (rd (dbs s) (c_db cl));
}.

(** ** What every command on keys keeps *)

(** A client keeps its database, watched keys, queue and flags; it may become dirty. *)
Definition client_evolves (cl cl' : redisClient) : Prop :=
  c_db cl' = c_db cl /\ c_watched cl' = c_watched cl /\ mstate cl' = mstate cl /\
  forall b, 0 <= b -> has_flag (flags cl') b = has_flag (flags cl) b || ((b =? REDIS_DIRTY_CAS) && has_flag (flags cl') b).

Record evolves (s s' : server) : Prop := {
  ev_cfg : cfg s' = cfg s;
  ev_view : pview s' = pview s;
  ev_clients : forall c, option_Forall2 client_evolves (clients s !! c) (clients s' !! c);
  ev_dbs : forall id, option_Forall2 (fun db db' => watched_keys db' = watched_keys db) (rd (dbs s) id) (rd (dbs s') id);
}.

Definition changes (L : gset loc) (s s' : server) : Prop :=
  evolves s s' /\ forall x, x ∉ L -> dict_at s' x = dict_at s x /\ expire_at s' x = expire_at s x.

Lemma client_evolves_refl cl : client_evolves cl cl.
Proof. repeat split. intros b Hb. by destruct (has_flag (flags cl) b), (b =? REDIS_DIRTY_CAS). Qed.

Lemma client_evolves_trans a b c : client_evolves a b -> client_evolves b c -> client_evolves a c.
Proof.
  intros (H1 & H2 & H3 & H4) (K1 & K2 & K3 & K4). split_and!; try congruence. intros i Hi. rewrite (K4 i Hi), (H4 i Hi).
  by destruct (has_flag (flags a) i), (i =? REDIS_DIRTY_CAS), (has_flag (flags b) i), (has_flag (flags c) i).
Qed.

Lemma evolves_refl s : evolves s s.
Proof.
  constructor; [done | done | |].
  - intros c. destruct (clients s !! c); constructor. apply client_evolves_refl.
  - intros id. destruct (rd (dbs s) id); by constructor.
Qed.

Lemma evolves_trans s s1 s2 : evolves s s1 -> evolves s1 s2 -> evolves s s2.
Proof.
  intros [H1 H2 H3 H4] [K1 K2 K3 K4]. constructor; [congruence | congruence | |].
  - intros c. specialize (H3 c). specialize (K3 c). destruct H3; inversion K3; subst; constructor. by eapply client_evolves_trans.
  - intros id. specialize (H4 id). specialize (K4 id). destruct H4; inversion K4; subst; constructor. congruence.
Qed.

Lemma changes_refl s : changes ∅ s s.
Proof. split; [apply evolves_refl | done]. Qed.

Lemma changes_trans L1 L2 s s1 s2 : changes L1 s s1 -> changes L2 s1 s2 -> changes (L1 ∪ L2) s s2.
Proof.
  intros [H1 H2] [K1 K2]. split; [by eapply evolves_trans|]. intros x Hx.
  destruct (H2 x ltac:(set_solver)) as [<- <-]. apply K2. set_solver.
Qed.

Lemma changes_mono L L' s s' : L ⊆ L' -> changes L s s' -> changes L' s s'.
Proof. intros HL [H1 H2]. split; [done|]. intros x Hx. apply H2. set_solver. Qed.

Lemma evolves_live s s' c : evolves s s' -> is_Some (clients s !! c) -> is_Some (clients s' !! c).
Proof. intros [_ _ H _] Hc. specialize (H c). destruct H; [eauto | by destruct Hc]. Qed.

Lemma evolves_db s s' id : evolves s s' -> is_Some (rd (dbs s) id) -> is_Some (rd (dbs s') id).
Proof. intros [_ _ _ H] Hd. specialize (H id). destruct H; [eauto | by destruct Hd]. Qed.

Lemma evolves_watch s s' : evolves s s' -> watch_rep s -> watch_rep s'.
Proof.
  intros Hev [H1 H2 H3]. pose proof Hev as [E1 E2 E3 E4]. constructor.
  - intros c cl' Hcl. specialize (E3 c). rewrite Hcl in E3. destruct (clients s !! c) as [cl|] eqn:Hc; inversion E3 as [? ? (_ & Hw & _)|]; subst.
    rewrite Hw. by apply H1.
  - intros c x Hx. destruct (H2 c x Hx) as [? ?]. split; [by eapply evolves_live | by eapply evolves_db].
  - intros id db' Hdb k. specialize (E4 id). rewrite Hdb in E4. destruct (rd (dbs s) id) as [db|] eqn:Hd; inversion E4 as [? ? Hw|]; subst.
    rewrite Hw. by apply (H3 id db Hd).
Qed.

Definition volatile_ok (s : server) : Prop := forall x, is_Some (expire_at s x) -> is_Some (dict_at s x).
Definition objects_ok (s : server) : Prop := forall x o, dict_at s x = Some o -> obj_ok o.
Definition slots_ok (s : server) : Prop := cluster_enabled (cfg s) = true ->
  (forall sl k, (sl, k) ∈ slots_to_keys s <-> is_Some (dict_at s (0, k)) /\ keyHashSlot k (zlen k) = Some sl) /\
  (forall x, x.1 <> 0 -> dict_at s x = None).

(** Consistency after a change needs only to be checked for the keys. *)
Lemma server_ok_evolves s s' : server_ok s -> evolves s s' -> volatile_ok s' -> objects_ok s' -> slots_ok s' -> server_ok s'.
Proof.
  intros [H1 H2 H3 H4 H5 H6] Hev Hv Ho Hs. pose proof Hev as [E1 E2 E3 E4]. constructor; [| by eapply evolves_watch | done | done | |].
  - destruct H1 as (subs & psubs & Hr & Hp). exists subs, psubs. split; [by eapply pubsub_rep_view | done].
  - intros Hc. destruct (Hs Hc) as [? ?]. split_and!; [done | done|]. intros c cl' Hcl. specialize (E3 c). rewrite Hcl in E3.
    destruct (clients s !! c) as [cl|] eqn:Hcl0; inversion E3 as [? ? (Hd & _)|]; subst. rewrite Hd. rewrite E1 in Hc. by eapply H5.
  - intros c cl' Hcl. specialize (E3 c). rewrite Hcl in E3. destruct (clients s !! c) as [cl|] eqn:Hcl0; inversion E3 as [? ? (Hd & _)|]; subst.
    rewrite Hd. eapply evolves_db; [exact Hev|]. by eapply H6.
Qed.

(** A step that touches no key. *)
Lemma server_ok_quiet s s' : server_ok s -> changes ∅ s s' -> slots_to_keys s' = slots_to_keys s -> server_ok s'.
Proof.
  intros Hok [Hev Hx] Hs. assert (forall x, dict_at s' x = dict_at s x /\ expire_at s' x = expire_at s x) as Heq by (intros x; by apply Hx).
  eapply server_ok_evolves; [exact Hok | exact Hev | | |].
  - intros x. destruct (Heq x) as [-> ->]. apply Hok.
  - intros x o. destruct (Heq x) as [-> _]. apply Hok.
  - unfold slots_ok. rewrite (ev_cfg _ _ Hev), Hs. intros Hc. destruct (ok_slots s Hok Hc) as (H1 & H2 & _). split.
    + intros sl k. destruct (Heq (0, k)) as [-> _]. apply H1.
    + intros x. destruct (Heq x) as [-> _]. apply H2.
Qed.

(** *** Effects on the state *)

Lemma changes_same s s' : cfg s' = cfg s -> dbs s' = dbs s -> clients s' = clients s -> pubsub_channels s' = pubsub_channels s ->
  pubsub_patterns s' = pubsub_patterns s -> changes ∅ s s'.
Proof.
  intros H1 H2 H3 H4 H5. split; [|intros x _; unfold dict_at, expire_at; by rewrite H2]. constructor.
  - done.
  - unfold pview. congruence.
  - rewrite H3. apply (evolves_refl s).
  - rewrite H2. apply (evolves_refl s).
Qed.

Lemma changes_client s c cl cl' : clients s !! c = Some cl -> client_evolves cl cl' -> c_channels cl' = c_channels cl ->
  c_patterns cl' = c_patterns cl -> changes ∅ s (upd_clients (fun m => <[c := cl']> m) s).
Proof.
  intros Hc Hev H1 H2. split; [|done]. constructor; [done | by apply (pview_client s c cl) | |].
  - intros c'. cbn. destruct (decide (c = c')) as [<-|Hne].
    + rewrite Hc, lookup_insert_eq. by constructor.
    + rewrite lookup_insert_ne by done. apply (evolves_refl s).
  - intros id. apply (evolves_refl s).
Qed.

Lemma changes_delivered s s' l : delivered s s' l -> changes ∅ s s'.
Proof.
  intros (Hs & Hd & Hc).
  assert (forall c, clients s !! c = None -> clients s' !! c = None) as Hnone.
  { intros c H. apply not_elem_of_dom. rewrite Hd. by apply not_elem_of_dom. }
  split; [|intros x _; by rewrite Hs]. constructor; [by rewrite Hs | | |].
  - unfold pview. rewrite Hs. cbn. f_equal. apply map_eq. intros c. rewrite !lookup_fmap.
    destruct (clients s !! c) as [cl|] eqn:E1; [by rewrite (Hc c cl E1) | by rewrite (Hnone c E1)].
  - intros c. destruct (clients s !! c) as [cl|] eqn:E1; [rewrite (Hc c cl E1) | rewrite (Hnone c E1)]; constructor.
    destruct (client_evolves_refl cl) as (? & ? & ? & ?). by repeat split.
  - intros id. rewrite Hs. apply (evolves_refl s).
Qed.

Lemma rd_insert {A} (l : list A) i j x : is_Some (rd l i) -> rd (<[Z.to_nat i := x]> l) j = if decide (i = j) then Some x else rd l j.
Proof.
  unfold rd. intros [y Hy]. destruct (i <? 0) eqn:Ei; [done|]. zbool. destruct (j <? 0) eqn:Ej; zbool.
  - rewrite decide_False by lia. done.
  - apply lookup_lt_Some in Hy. destruct (decide (i = j)) as [<-|Hne]; [by rewrite list_lookup_insert_eq|].
    rewrite list_lookup_insert_ne by lia. done.
Qed.

(** One database is modified, its watchers kept. *)
Lemma changes_db (s : server) (id : Z) (db db' : redisDb) (L : gset loc) : rd (dbs s) id = Some db -> watched_keys db' = watched_keys db ->
  (forall k, (id, k) ∉ L -> db_dict db' !! k = db_dict db !! k /\ db_expires db' !! k = db_expires db !! k) ->
  let s' := upd_dbs (fun l => <[Z.to_nat id := db']> l) s in
  changes L s s' /\ forall k, dict_at s' (id, k) = db_dict db' !! k /\ expire_at s' (id, k) = db_expires db' !! k.
Proof.
  intros Hdb Hw Hk s'. assert (forall j, rd (dbs s') j = if decide (id = j) then Some db' else rd (dbs s) j) as Hrd.
  { intros j. apply rd_insert. eauto. }
  split; [split|].
  - constructor; [done | done | apply (evolves_refl s) |]. intros j. rewrite Hrd. destruct (decide (id = j)) as [<-|]; [|apply (evolves_refl s)].
    rewrite Hdb. by constructor.
  - intros [j k] Hx. unfold dict_at, expire_at. cbn [fst snd]. rewrite Hrd. destruct (decide (id = j)) as [<-|]; [|done]. rewrite Hdb. cbn. by apply Hk.
  - intros k. unfold dict_at, expire_at. cbn [fst snd]. rewrite Hrd. by rewrite decide_True.
Qed.

Lemma dict_at_db s id db k : rd (dbs s) id = Some db -> dict_at s (id, k) = db_dict db !! k /\ expire_at s (id, k) = db_expires db !! k.
Proof. intros H. unfold dict_at, expire_at. cbn [fst snd]. by rewrite H. Qed.

(** *** The promise of WATCH *)

Section Promise.
Context (s0 : server).

Definition flagged (s : server) (c : cid) : Prop := exists cl, clients s !! c = Some cl /\ has_flag (flags cl) REDIS_DIRTY_CAS = true.

(** Unchanged, or gone because it was volatile; and no new expiration. *)
Definition undisturbed (s : server) (x : loc) : Prop :=
  (val_at s x = val_at s0 x \/ val_at s x = None /\ is_Some (expire_at s0 x)) /\ (is_Some (expire_at s x) -> is_Some (expire_at s0 x)).

Record Inv (P : gset loc) (s : server) : Prop := {
  inv_ok : server_ok s;
  inv_evolves : evolves s0 s;
  inv_watch : forall c x, (c, x) ∈ W -> flagged s c \/ x ∈ P \/ undisturbed s x;
}.

Lemma flagged_evolves s s' c : evolves s s' -> flagged s c -> flagged s' c.
Proof.
  intros Hev (cl & Hc & Hf). pose proof (ev_clients _ _ Hev c) as H. rewrite Hc in H. inversion H as [? cl' (_ & _ & _ & Hb) E1 E2|]; subst.
  exists cl'. split; [done|]. specialize (Hb REDIS_DIRTY_CAS ltac:(done)). rewrite Hf in Hb. by rewrite Hb.
Qed.

Lemma undisturbed_same s s' x : dict_at s' x = dict_at s x -> expire_at s' x = expire_at s x -> undisturbed s x -> undisturbed s' x.
Proof. unfold undisturbed, val_at. intros -> ->. done. Qed.

Lemma Inv_init : server_ok s0 -> Inv ∅ s0.
Proof. intros H. constructor; [done | apply evolves_refl |]. intros. right. right. split; auto. Qed.

Lemma Inv_changes P L s s' : Inv P s -> changes L s s' -> server_ok s' -> Inv (L ∪ P) s'.
Proof.
  intros [H1 H2 H3] [C1 C2] Hok. constructor; [done | by eapply evolves_trans|]. intros c x Hx. destruct (H3 c x Hx) as [Hf|[HP|Hu]].
  - left. by eapply flagged_evolves.
  - right. left. set_solver.
  - destruct (decide (x ∈ L)); [right; left; set_solver|]. right. right. destruct (C2 x) as [? ?]; [done|]. by eapply undisturbed_same.
Qed.

Lemma Inv_quiet P s s' : Inv P s -> changes ∅ s s' -> slots_to_keys s' = slots_to_keys s -> Inv P s'.
Proof.
  intros HI HC Hs. replace P with (∅ ∪ P) by set_solver. eapply Inv_changes; [done | done|]. eapply server_ok_quiet; [apply HI | done..].
Qed.

Lemma Inv_signal P s s' x : Inv P s -> changes ∅ s s' -> slots_to_keys s' = slots_to_keys s ->
  (forall c, (c, x) ∈ W -> flagged s' c) -> Inv (P ∖ {[x]}) s'.
Proof.
  intros HI HC Hs Hf. destruct (Inv_quiet P s s' HI HC Hs) as [H1 H2 H3]. constructor; [done..|]. intros c y Hy.
  destruct (decide (x = y)) as [<-|Hne]; [left; auto|]. destruct (H3 c y Hy) as [?|[?|?]]; [by left | right; left; set_solver | by right; right].
Qed.

Lemma Inv_expire P s s' x : Inv P s -> changes {[x]} s s' -> server_ok s' -> is_Some (expire_at s x) -> dict_at s' x = None ->
  expire_at s' x = None -> Inv P s'.
Proof.
  intros HI HC Hok He Hd Hn. destruct (Inv_changes P {[x]} s s' HI HC Hok) as [H1 H2 H3]. constructor; [done..|]. intros c y Hy.
  destruct (H3 c y Hy) as [?|[Hin|?]]; [by left | | by right; right]. destruct (decide (y = x)) as [->|]; [|right; left; set_solver].
  destruct (inv_watch _ _ HI c x Hy) as [Hf|[?|[_ Hu]]].
  - left. eapply flagged_evolves; [apply HC | done].
  - right. by left.
  - right. right. unfold undisturbed, val_at. rewrite Hd, Hn. split; [right; auto | by intros []].
Qed.

Lemma Inv_mono P P' s : P ⊆ P' -> Inv P s -> Inv P' s.
Proof. intros HP [H1 H2 H3]. constructor; [done..|]. intros c x Hx. destruct (H3 c x Hx) as [?|[?|?]]; auto. Qed.

End Promise.
End Ok.
