(* ===== verification/DbRules.v ===== *)
(** * Proof rules for the key space functions

    One rule per function of [Db.v], in the style of a total Hoare logic: from
    [Inv P s], the function succeeds and leads to a state with [Inv P' s'], where
    [P'] has gained the keys it modified or lost the one it signalled; next to
    that, what the function changed and returned.  [c] is the client whose
    command runs. *)
From Stdlib Require Import Lia ZArith String.
From stdpp Require Import base numbers list tactics option gmap fin_maps fin_sets sets.
From S2P Require Import Prelude Util Dict DictRep DictIter Object Glob SetType Server Pubsub Crc Db DbOk.

#[local] Open Scope Z_scope.

(** Hash slots are always defined. *)
Lemma crc16_total buf : forall crc, is_Some (crc16_loop crc buf).
Proof.
  induction buf as [|c buf IH]; intros crc; cbn [crc16_loop]; [eauto|]. unfold crc16_step.
  destruct (rd_lt crc16tab (Z.land (Z.lxor (Z.shiftr crc 8) c) 255)) as [t ->].
  { rewrite land_255. change (zlen crc16tab) with 256. apply Z.mod_pos_bound. lia. }
  apply IH.
Qed.

Lemma slot_total k : is_Some (keyHashSlot k (zlen k)).
Proof.
  unfold keyHashSlot. destruct (slot_scan_spec k 123 (Z.to_nat (zlen k)) [] k eq_refl ltac:(lia)) as (pre & post & Hk & _ & Hx & Hs).
  change (zlen []) with 0 in Hs. rewrite Hs. cbn [mbind option_bind]. change (0 + zlen pre) with (zlen pre).
  assert (forall t, exists r, crc16 t (zlen t) = Some r) as Hcrc.
  { intros t. unfold crc16. rewrite load_all. cbn [mbind option_bind]. apply crc16_total. }
  destruct (Hcrc k) as [r ->]. cbn [mbind option_bind]. destruct (zlen pre =? zlen k) eqn:E; [eauto|]. zbool.
  destruct post as [|x post]; [rewrite Hk, length_app in E; cbn [length] in E; lia|].
  replace (zlen pre + 1) with (zlen (pre ++ [x])) by (rewrite length_app; cbn; lia).
  destruct (slot_scan_spec k 125 (Z.to_nat (zlen k)) (pre ++ [x]) post) as (tag & post2 & Hpost & _ & _ & ->);
    [by rewrite <- app_assoc | rewrite Hk, length_app; cbn [length]; lia |].
  cbn [mbind option_bind]. destruct (_ || _); [eauto|].
  replace (zlen (pre ++ [x]) + zlen tag - zlen pre - 1) with (zlen tag) by (rewrite length_app; cbn; lia).
  assert (load k (zlen (pre ++ [x])) (zlen tag) = Some tag) as ->.
  { rewrite Hk, Hpost. change (pre ++ x :: tag ++ post2) with (pre ++ [x] ++ tag ++ post2). rewrite app_assoc. by apply load_app. }
  cbn [mbind option_bind]. destruct (Hcrc tag) as [r' ->]. cbn. eauto.
Qed.

Definition valid_db (s : server) (id : Z) : Prop := is_Some (rd (dbs s) id) /\ (cluster_enabled (cfg s) = true -> id = 0).

(** ** Functions that propagate nothing *)

Definition keeps {A} (m : M A) : Prop := forall s s' a, m s = Some (s', a) -> propagated s' = propagated s.

Create HintDb keeps discriminated.

Section Keeps.
Context {A B : Type}.

Lemma keeps_bind (m : M A) (f : A -> M B) : keeps m -> (forall a, keeps (f a)) -> keeps (m ≫= f).
Proof. intros Hm Hf s s' b. unfold mbind, M_bind. destruct (m s) as [[s1 a]|] eqn:E1; [|done]. intros H. rewrite (Hf _ _ _ _ H). by eapply Hm. Qed.
Lemma keeps_ret (a : A) : keeps (mret a).
Proof. by intros s s' b [= <- _]. Qed.
Lemma keeps_get : keeps get.
Proof. by intros s s' b [= <- _]. Qed.
Lemma keeps_lift (o : option A) : keeps (lift o).
Proof. destruct o; [apply keeps_ret | by intros s s' b]. Qed.
Lemma keeps_assert b : keeps (assert_ b).
Proof. destruct b; [by intros s s' x [= <- _] | by intros s s' x]. Qed.
Lemma keeps_modify f : (forall s, propagated (f s) = propagated s) -> keeps (modify f).
Proof. by intros Hf s s' b [= <- _]. Qed.
Lemma keeps_for_each (body : A -> M unit) l : (forall a, keeps (body a)) -> keeps (for_each body l).
Proof. intros Hb. induction l as [|a l IH]; cbn [for_each]; [by intros s s' x [= <- _]|]. intros s s' x. unfold mbind, M_bind.
  destruct (body a s) as [[s1 y]|] eqn:E1; [|done]. intros H. rewrite (IH _ _ _ H). by eapply Hb. Qed.
Lemma keeps_for_sum (body : A -> M Z) l : (forall a, keeps (body a)) -> keeps (for_sum body l).
Proof. intros Hb. induction l as [|a l IH]; cbn [for_sum]; [by intros s s' x [= <- _]|]. intros s s' x. unfold mbind, M_bind.
  destruct (body a s) as [[s1 y]|] eqn:E1; [|done]. destruct (for_sum body l s1) as [[s2 m]|] eqn:E2; [|done]. intros [= <- _]. rewrite (IH _ _ _ E2). by eapply Hb. Qed.
End Keeps.

#[export] Hint Resolve keeps_bind keeps_ret keeps_get keeps_lift keeps_assert keeps_modify keeps_for_each keeps_for_sum : keeps.

(** Take a function apart down to its primitive steps. *)
Ltac keeps := repeat first [ apply keeps_bind; [|intros ?] | apply keeps_ret | apply keeps_get | apply keeps_lift | apply keeps_assert | apply keeps_for_each; intros ?
  | apply keeps_for_sum; intros ? | (apply keeps_modify; done) | match goal with |- keeps (match ?x with _ => _ end) => destruct x end | solve [auto with keeps] ].

Lemma keeps_get_client c : keeps (get_client c).
Proof. unfold get_client. keeps. Qed.
Lemma keeps_mod_client c f : keeps (mod_client c f).
Proof. unfold mod_client, get_client. keeps. Qed.
Lemma keeps_get_db id : keeps (get_db id).
Proof. unfold get_db. keeps. Qed.
Lemma keeps_mod_db id f : keeps (mod_db id f).
Proof. unfold mod_db. keeps. Qed.
#[export] Hint Resolve keeps_get_client keeps_mod_client keeps_get_db keeps_mod_db : keeps.

Lemma keeps_replies c rs : keeps (addReplies c rs).
Proof. apply keeps_mod_client. Qed.
#[export] Hint Resolve keeps_replies : keeps.
Lemma keeps_publish ch msg : keeps (pubsubPublishMessage ch msg).
Proof. unfold pubsubPublishMessage. keeps. Qed.
#[export] Hint Resolve keeps_publish : keeps.
Lemma keeps_notify t ev k id : keeps (notifyKeyspaceEvent t ev k id).
Proof. unfold notifyKeyspaceEvent. keeps. Qed.
Lemma keeps_slot_del k : keeps (slotToKeyDel k).
Proof. unfold slotToKeyDel. keeps. Qed.
#[export] Hint Resolve keeps_notify keeps_slot_del : keeps.
Lemma keeps_delete id k : keeps (dbDelete id k).
Proof. unfold dbDelete. keeps. Qed.
#[export] Hint Resolve keeps_delete : keeps.

Lemma wp_keeps {A} (m : M A) s (Q : server -> A -> Prop) : keeps m -> wp m s (fun s' a => propagated s' = propagated s -> Q s' a) -> wp m s Q.
Proof. intros Hk. unfold wp. destruct (m s) as [[s' a]|] eqn:E1; [|done]. intros H. apply H. by eapply Hk. Qed.

Section Rules.
Context `{E : Env} (W : gset (cid * loc)) (s0 : server) (c : cid) (cl0 : redisClient) (Hc : clients s0 !! c = Some cl0).
#[local] Abbreviation Inv := (Inv W s0).
#[local] Abbreviation server_ok := (server_ok W).
Implicit Types (P : gset loc) (s : server) (k : key).

Lemma inv_client P s : Inv P s -> exists cl, clients s !! c = Some cl /\ client_evolves cl0 cl.
Proof.
  intros [_ Hev _]. pose proof (ev_clients _ _ Hev c) as H. rewrite Hc in H. inversion H as [? cl Hev'|]; subst. by exists cl.
Qed.

Lemma inv_db P s id : Inv P s -> valid_db s0 id -> exists db, rd (dbs s) id = Some db.
Proof. intros [_ Hev _] [Hv _]. destruct (evolves_db _ _ _ Hev Hv) as [db Hdb]. eauto. Qed.

Lemma valid_client P s : Inv P s -> valid_db s0 (c_db cl0).
Proof.
  intros HI. pose proof HI as [Hok Hev _]. destruct (inv_client P s HI) as (cl & Hcl & Hd & _). split.
  - destruct (ok_clients _ _ Hok c cl Hcl) as [db Hdb]. rewrite Hd in Hdb. pose proof (ev_dbs _ _ Hev (c_db cl0)) as H. rewrite Hdb in H.
    inversion H; eauto.
  - rewrite <- (ev_cfg _ _ Hev), <- Hd. intros Hcl'. by eapply (proj2 (proj2 (ok_slots _ _ Hok Hcl'))).
Qed.

Lemma r_get_client P s Q : Inv P s -> (forall cl, clients s !! c = Some cl -> client_evolves cl0 cl -> Q s cl) -> wp (get_client c) s Q.
Proof. intros HI HQ. destruct (inv_client P s HI) as (cl & Hcl & Hev). apply (wp_get_client c cl); auto. Qed.

Lemma r_dbid P s Q : Inv P s -> Q s (c_db cl0) -> wp (c_dbid c) s Q.
Proof. intros HI HQ. apply wp_bind. eapply r_get_client; [done|]. intros cl _ (Hd & _). apply wp_ret. by rewrite Hd. Qed.

(** Steps that touch neither keys nor slots. *)
Lemma r_quiet {A} (m : M A) P s Q : Inv P s -> wp m s (fun s' _ => changes ∅ s s' /\ slots_to_keys s' = slots_to_keys s) ->
  (forall s' a, Inv P s' -> changes ∅ s s' -> Q s' a) -> wp m s Q.
Proof. intros HI Hm HQ. eapply wp_mono; [exact Hm|]. intros s' a [H1 H2]. apply HQ; [by eapply Inv_quiet | done]. Qed.

Lemma r_mod_client f P s Q : Inv P s -> (forall cl, client_evolves cl (f cl) /\ c_channels (f cl) = c_channels cl /\ c_patterns (f cl) = c_patterns cl) ->
  (forall s', Inv P s' -> changes ∅ s s' -> Q s' tt) -> wp (mod_client c f) s Q.
Proof.
  intros HI Hf HQ. eapply r_quiet; [done | |intros s' [] ? ?; by apply HQ].
  destruct (inv_client P s HI) as (cl & Hcl & _). apply (wp_mod_client c cl); [done|]. split; [|done]. by apply (changes_client s c cl); [|apply Hf..].
Qed.

Lemma r_reply rs P s Q : Inv P s -> (forall s', Inv P s' -> changes ∅ s s' -> Q s' tt) -> wp (addReplies c rs) s Q.
Proof.
  intros HI HQ. eapply r_mod_client; [done | | done]. intros cl. split; [|done]. destruct (client_evolves_refl cl) as (? & ? & ? & ?). by repeat split.
Qed.

Lemma r_modify f P s (Q : server -> unit -> Prop) : Inv P s -> cfg (f s) = cfg s -> dbs (f s) = dbs s -> clients (f s) = clients s ->
  pubsub_channels (f s) = pubsub_channels s -> pubsub_patterns (f s) = pubsub_patterns s -> slots_to_keys (f s) = slots_to_keys s ->
  (Inv P (f s) -> changes ∅ s (f s) -> Q (f s) tt) -> wp (modify f) s Q.
Proof.
  intros HI ? ? ? ? ? ? HQ. assert (changes ∅ s (f s)) as HC by (by apply changes_same). apply wp_modify, HQ; [by eapply Inv_quiet | done].
Qed.

Lemma r_dirty n P s Q : Inv P s -> (forall s', Inv P s' -> changes ∅ s s' -> Q s' tt) -> wp (add_dirty n) s Q.
Proof. intros HI HQ. apply (r_modify _ P); try done. intros. by apply HQ. Qed.

Lemma r_mstime P s Q : Inv P s -> (forall s' now, Inv P s' -> changes ∅ s s' -> Q s' now) -> wp mstime s Q.
Proof. intros HI HQ. unfold mstime. apply wp_bind, wp_get. apply wp_bind, (r_modify _ P); try done. intros. apply wp_ret. by apply HQ. Qed.

Lemma r_publish ch msg P s Q : Inv P s -> (forall s' n, Inv P s' -> changes ∅ s s' -> Q s' n) -> wp (pubsubPublishMessage ch msg) s Q.
Proof.
  intros HI HQ. destruct (ok_pubsub _ _ (inv_ok _ _ _ _ HI)) as (subs & psubs & Hr & Hp). eapply r_quiet; [done | | done].
  eapply wp_mono; [by eapply publish_wp|]. intros s' n [_ Hd]. split; [by eapply changes_delivered|]. destruct Hd as [-> _]. done.
Qed.

Lemma changes_trans0 s s1 s2 : changes ∅ s s1 -> changes ∅ s1 s2 -> changes ∅ s s2.
Proof. intros H1 H2. pose proof (changes_trans _ _ _ _ _ H1 H2) as H. by rewrite union_empty_l_L in H. Qed.

Lemma r_notify t ev k id P s Q : Inv P s -> (forall s', Inv P s' -> changes ∅ s s' -> Q s' tt) -> wp (notifyKeyspaceEvent t ev k id) s Q.
Proof.
  intros HI HQ. unfold notifyKeyspaceEvent. apply wp_bind, wp_get. destruct (_ =? 0); [apply wp_ret, HQ; [done | apply changes_refl]|].
  assert (forall (b : bool) ch msg s1 (Q1 : server -> unit -> Prop), Inv P s1 -> changes ∅ s s1 -> (forall s2, Inv P s2 -> changes ∅ s s2 -> Q1 s2 tt) ->
    wp (if b then _ ← pubsubPublishMessage ch msg; mret tt else mret tt) s1 Q1) as Hpub.
  { intros b ch msg s1 Q1 HI1 HC1 HQ1. destruct b; [|by apply wp_ret, HQ1]. apply wp_bind. eapply r_publish; [done|]. intros s2 n HI2 HC2.
    apply wp_ret, HQ1; [done | by eapply changes_trans0]. }
  apply wp_bind, Hpub; [done | apply changes_refl |]. intros s1 HI1 HC1. by apply Hpub.
Qed.

(** Signalling a key: its watchers are dirty. *)
Lemma dirty_evolves cl : client_evolves cl (with_flags (fun f => set_flag f REDIS_DIRTY_CAS) cl).
Proof.
  repeat split. intros b Hb. cbn [flags with_flags]. rewrite has_set_flag by done. rewrite (Z.eqb_sym REDIS_DIRTY_CAS b).
  by destruct (has_flag (flags cl) b), (b =? REDIS_DIRTY_CAS).
Qed.

Lemma r_mark_clients (l : list cid) P s : Inv P s -> (forall c', c' ∈ l -> is_Some (clients s !! c')) ->
  wp (for_each (fun c' => mod_client c' (with_flags (fun f => set_flag f REDIS_DIRTY_CAS))) l) s
    (fun s' _ => changes ∅ s s' /\ slots_to_keys s' = slots_to_keys s /\ forall c', c' ∈ l -> flagged s' c').
Proof.
  intros HI Hl. apply (wp_for_each _ (fun pre s' => changes ∅ s s' /\ slots_to_keys s' = slots_to_keys s /\ forall c', c' ∈ pre -> flagged s' c')).
  - split; [apply changes_refl|]. split; [done | set_solver].
  - intros pre c' post s1 -> (HC & Hs & Hf). destruct (evolves_live s s1 c') as [cl Hcl]; [apply HC | apply Hl; set_solver |].
    apply (wp_mod_client c' cl); [done|]. set (s2 := upd_clients _ s1).
    assert (changes ∅ s1 s2) as HC2 by (apply (changes_client s1 c' cl); [done | apply dirty_evolves | done..]).
    split; [by eapply changes_trans0|]. split; [done|]. intros c2 [H2|H2%list_elem_of_singleton]%elem_of_app.
    + eapply flagged_evolves; [apply HC2 | auto].
    + subst c2. eexists. split; [apply lookup_insert_eq|]. cbn [flags with_flags]. rewrite has_set_flag by done. apply orb_true_r.
  - intros s' H. exact H.
Qed.

Lemma r_signal_flags id k P s Q : Inv P s -> valid_db s0 id ->
  (forall s', Inv (P ∖ {[(id, k)]}) s' -> changes ∅ s s' -> (forall c', (c', (id, k)) ∈ W -> flagged s' c') -> Q s' tt) -> wp (signalModifiedKey id k) s Q.
Proof.
  intros HI Hv HQ. destruct (inv_db P s id HI Hv) as [db Hdb]. pose proof (ok_watch _ _ (inv_ok _ _ _ _ HI)) as [_ Hlive Hw].
  specialize (Hw id db Hdb k). unfold signalModifiedKey, touchWatchedKey. apply wp_bind, (wp_get_db id db); [done|].
  assert ((forall c', (c', (id, k)) ∉ W) -> wp (mret tt) s Q) as Hno.
  { intros Hn. apply wp_ret, HQ; [|apply changes_refl | intros c' Hx; by destruct (Hn c')].
    eapply Inv_signal; [done | apply changes_refl | done|]. intros c' Hx. by destruct (Hn c'). }
  destruct (_ =? 0) eqn:E0; zbool.
  { apply Hno. assert (watched_keys db = ∅) as Hem by (apply map_size_empty_iff; lia). rewrite Hem, lookup_empty in Hw. done. }
  destruct (watched_keys db !! k) as [l|]; [|by apply Hno]. destruct Hw as (_ & _ & Hin).
  eapply wp_mono; [eapply (r_mark_clients l P); [done|]|].
  - intros c' Hx. eapply Hlive. by apply Hin.
  - intros s' [] (HC & Hs & Hf). assert (forall c', (c', (id, k)) ∈ W -> flagged s' c') as Hf' by (intros c' Hx; by apply Hf, Hin).
    apply HQ; [|done..]. by eapply Inv_signal.
Qed.

Lemma r_signal id k P s Q : Inv P s -> valid_db s0 id -> (forall s', Inv (P ∖ {[(id, k)]}) s' -> changes ∅ s s' -> Q s' tt) ->
  wp (signalModifiedKey id k) s Q.
Proof. intros HI Hv HQ. eapply r_signal_flags; [done..|]. intros s' H1 H2 _. by apply HQ. Qed.

(** A change of a key whose watchers are marked already. *)
Lemma Inv_flagged P x s : Inv ({[x]} ∪ P) s -> (forall c', (c', x) ∈ W -> flagged s c') -> Inv P s.
Proof.
  intros [H1 H2 H3] Hf. constructor; [done..|]. intros c' y Hy. destruct (decide (y = x)) as [->|Hne]; [left; auto|].
  destruct (H3 c' y Hy) as [?|[Hin|?]]; [by left | right; left | by right; right]. apply elem_of_union in Hin as [->%elem_of_singleton|]; done.
Qed.

(** *** Rules for the functions that modify keys *)

Lemma wp_db_effect id db f L s (Q : server -> unit -> Prop) : rd (dbs s) id = Some db -> watched_keys (f db) = watched_keys db ->
  (forall k, (id, k) ∉ L -> db_dict (f db) !! k = db_dict db !! k /\ db_expires (f db) !! k = db_expires db !! k) ->
  (forall s', changes L s s' -> (forall k, dict_at s' (id, k) = db_dict (f db) !! k /\ expire_at s' (id, k) = db_expires (f db) !! k) ->
     rd (dbs s') id = Some (f db) -> slots_to_keys s' = slots_to_keys s -> cfg s' = cfg s -> Q s' tt) ->
  wp (mod_db id f) s Q.
Proof.
  intros Hdb Hw Hk HQ. apply (wp_mod_db id db); [done|]. destruct (changes_db s id db (f db) L Hdb Hw Hk) as [HC Hat].
  apply HQ; [done | done | | done | done]. cbn. rewrite rd_insert by eauto. by rewrite decide_True.
Qed.

(** A change of one key: consistency comes down to that key. *)
Lemma server_ok_key s s' id k : server_ok s -> changes {[(id, k)]} s s' ->
  (is_Some (expire_at s' (id, k)) -> is_Some (dict_at s' (id, k))) -> (forall o, dict_at s' (id, k) = Some o -> obj_ok o) ->
  (cluster_enabled (cfg s) = true -> id = 0 /\ exists sl, keyHashSlot k (zlen k) = Some sl /\
     forall y, y ∈ slots_to_keys s' <-> if decide (y = (sl, k)) then is_Some (dict_at s' (id, k)) else y ∈ slots_to_keys s) ->
  server_ok s'.
Proof.
  intros Hok [Hev Hx] Hexp Hobj Hsl. eapply server_ok_evolves; [exact Hok | exact Hev | | |].
  - intros x. destruct (decide (x = (id, k))) as [->|Hn]; [done|]. destruct (Hx x ltac:(set_solver)) as [-> ->]. apply Hok.
  - intros x o. destruct (decide (x = (id, k))) as [->|Hn]; [apply Hobj|]. destruct (Hx x ltac:(set_solver)) as [-> _]. apply Hok.
  - unfold slots_ok. rewrite (ev_cfg _ _ Hev). intros Hcl. destruct (Hsl Hcl) as (-> & sl & Hk & Hin). destruct (ok_slots _ _ Hok Hcl) as (H1 & H2 & _). split.
    + intros sl' k'. rewrite Hin. destruct (decide ((sl', k') = (sl, k))) as [[= -> ->]|Hne]; [naive_solver|]. rewrite H1.
      destruct (decide (k' = k)) as [->|Hk']; [|by destruct (Hx (0, k') ltac:(set_solver)) as [-> _]]. split; intros [_ Hs]; congruence.
    + intros x Hx0. destruct (Hx x ltac:(set_solver)) as [-> _]. by apply H2.
Qed.

Lemma slot_step (f : Z -> gset (Z * key) -> gset (Z * key)) k s (Q : server -> unit -> Prop) :
  (forall sl s', keyHashSlot k (zlen k) = Some sl -> changes ∅ s s' -> slots_to_keys s' = f sl (slots_to_keys s) -> Q s' tt) ->
  wp (hashslot ← lift (keyHashSlot k (zlen k)); modify (upd_slots (f hashslot))) s Q.
Proof.
  intros HQ. destruct (slot_total k) as [sl Hsl]. apply wp_bind, (wp_lift _ sl); [done|]. apply wp_modify, (HQ sl); [done | by apply changes_same | done].
Qed.

Lemma r_delete id k P s (Q : server -> bool -> Prop) : Inv P s -> valid_db s0 id ->
  (forall s', Inv ({[(id, k)]} ∪ P) s' -> changes {[(id, k)]} s s' -> dict_at s' (id, k) = None -> expire_at s' (id, k) = None ->
     Q s' (bool_decide (is_Some (dict_at s (id, k))))) -> wp (dbDelete id k) s Q.
Proof.
  intros HI Hv HQ. destruct (inv_db P s id HI Hv) as [db Hdb]. pose proof (dict_at_db s id db k Hdb) as [Hd0 He0].
  pose proof (inv_ok _ _ _ _ HI) as Hok. unfold dbDelete. apply wp_bind, (wp_get_db id db); [done|].
  (* the expires table *)
  assert (forall (Q1 : server -> unit -> Prop), (forall s1 db1, changes {[(id, k)]} s s1 -> rd (dbs s1) id = Some db1 -> db_dict db1 = db_dict db ->
      db_expires db1 = base.delete k (db_expires db) -> slots_to_keys s1 = slots_to_keys s -> Q1 s1 tt) ->
    wp (if 0 <? Z.of_nat (base.size (db_expires db)) then mod_db id (with_expires (base.delete k)) else mret tt) s Q1) as Hexp.
  { intros Q1 HQ1. destruct (0 <? _) eqn:Es; zbool.
    - apply (wp_db_effect id db _ {[(id, k)]}); [done | done | |].
      + intros k' Hk'. cbn. rewrite lookup_delete_ne by set_solver. done.
      + intros s1 HC Hat Hrd Hsl _. by eapply HQ1.
    - apply wp_ret. eapply (HQ1 s db); try done; [apply (changes_mono ∅); [set_solver | apply changes_refl]|].
      assert (db_expires db = ∅) as -> by (apply map_size_empty_iff; lia). by rewrite delete_empty. }
  apply wp_bind, Hexp. intros s1 db1 HC1 Hdb1 Hd1 He1 Hs1. clear Hexp. rewrite Hd0 in HQ.
  destruct (db_dict db !! k) as [o|] eqn:Eo.
  - apply wp_bind. apply (wp_db_effect id db1 _ {[(id, k)]}); [done | done | |].
    { intros k' Hk'. cbn. rewrite lookup_delete_ne by set_solver. done. }
    intros s2 HC2 Hat2 Hdb2 Hs2 Hcfg2. pose proof (changes_trans _ _ _ _ _ HC1 HC2) as HC. rewrite union_idemp_L in HC.
    destruct (Hat2 k) as [Hd2 He2]. cbn in Hd2, He2. rewrite lookup_delete_eq in Hd2. rewrite He1, lookup_delete_eq in He2.
    apply wp_bind, wp_get. rewrite bool_decide_eq_true_2 in HQ by eauto. apply wp_bind.
    assert (forall s3, changes ∅ s2 s3 -> (cluster_enabled (cfg s) = true -> exists sl, keyHashSlot k (zlen k) = Some sl /\ slots_to_keys s3 = slots_to_keys s2 ∖ {[(sl, k)]}) ->
      wp (mret true) s3 Q) as Hfin.
    { intros s3 HC3 Hsl. pose proof (changes_trans _ _ _ _ _ HC HC3) as HC'. rewrite union_empty_r_L in HC'.
      destruct (proj2 HC3 (id, k) ltac:(set_solver)) as [Hd3 He3]. rewrite Hd2 in Hd3. rewrite He2 in He3.
      apply wp_ret, HQ; [|done..]. eapply Inv_changes; [done | done|]. eapply (server_ok_key s s3 id k); [done | done | by rewrite He3; intros [] | by rewrite Hd3 |].
      intros Hcl. split; [apply Hv; by rewrite <- (ev_cfg _ _ (inv_evolves _ _ _ _ HI))|]. destruct (Hsl Hcl) as (sl & Hk & ->). exists sl. split; [done|].
      intros y. rewrite Hs2, Hs1, Hd3, elem_of_difference, elem_of_singleton. destruct (decide (y = (sl, k))); split; [naive_solver | by intros [] | naive_solver..]. }
    assert (cfg s2 = cfg s) as Hcfg by (by rewrite (ev_cfg _ _ (proj1 HC))).
    rewrite Hcfg. destruct (cluster_enabled (cfg s)).
    + apply slot_step. intros sl s3 Hk HC3 Hs3. apply Hfin; [done|]. eauto.
    + apply wp_ret, Hfin; [apply changes_refl | done].
  - apply wp_ret. rewrite bool_decide_eq_false_2 in HQ by (by intros []). destruct (dict_at_db s1 id db1 k Hdb1) as [Hd He].
    rewrite Hd1, Eo in Hd. rewrite He1, lookup_delete_eq in He.
    apply HQ; [|done..]. eapply Inv_changes; [done | done|]. eapply (server_ok_key s s1 id k); [done | done | by rewrite He; intros [] | by rewrite Hd |].
    intros Hcl. split; [apply Hv; by rewrite <- (ev_cfg _ _ (inv_evolves _ _ _ _ HI))|]. destruct (slot_total k) as [sl Hk]. exists sl. split; [done|].
    intros y. rewrite Hs1, Hd. destruct (decide (y = (sl, k))) as [->|]; [|done].
    assert (id = 0) as -> by (apply Hv; by rewrite <- (ev_cfg _ _ (inv_evolves _ _ _ _ HI))).
    rewrite (proj1 (ok_slots _ _ Hok Hcl)), Hd0. split; [intros [[] _]; done | by intros []].
Qed.


Lemma inv_cluster P s id : Inv P s -> valid_db s0 id -> cluster_enabled (cfg s) = true -> id = 0.
Proof. intros HI [_ Hv] Hcl. apply Hv. by rewrite <- (ev_cfg _ _ (inv_evolves _ _ _ _ HI)). Qed.

Lemma signal_list_quiet id db k s : rd (dbs s) id = Some db ->
  wp (signalListAsReady id k) s (fun s' _ => changes ∅ s s' /\ slots_to_keys s' = slots_to_keys s).
Proof.
  intros Hdb. unfold signalListAsReady. apply wp_bind, (wp_get_db id db); [done|].
  destruct (blocking_keys db !! k); [|apply wp_ret; split; [apply changes_refl | done]].
  destruct (decide (k ∈ db_ready_keys db)); [apply wp_ret; split; [apply changes_refl | done]|].
  apply wp_bind, wp_modify. set (s1 := upd_ready _ s). apply (wp_db_effect id db _ ∅ s1); [exact Hdb | done | done|].
  intros s2 HC2 _ _ Hs2 _. split; [|by rewrite Hs2]. eapply changes_trans0; [by apply (changes_same s s1) | done].
Qed.

(** Setting a key to a value, with the slot index brought up to date. *)
Lemma Inv_set id k val P s s' : Inv P s -> valid_db s0 id -> obj_ok val -> changes {[(id, k)]} s s' -> dict_at s' (id, k) = Some val ->
  (cluster_enabled (cfg s) = true -> exists sl, keyHashSlot k (zlen k) = Some sl /\ slots_to_keys s' = {[(sl, k)]} ∪ slots_to_keys s) ->
  Inv ({[(id, k)]} ∪ P) s'.
Proof.
  intros HI Hv Hval HC Hd Hsl. eapply Inv_changes; [done | done|]. eapply (server_ok_key s s' id k); [apply HI | done | by rewrite Hd | by rewrite Hd; intros o [= <-] |].
  intros Hcl. split; [by eapply inv_cluster|]. destruct (Hsl Hcl) as (sl & Hk & ->). exists sl. split; [done|]. intros y. rewrite Hd, elem_of_union, elem_of_singleton.
  destruct (decide (y = (sl, k))); split; naive_solver.
Qed.

Lemma r_add id k val P s (Q : server -> unit -> Prop) : Inv P s -> valid_db s0 id -> obj_ok val -> dict_at s (id, k) = None ->
  (forall s', Inv ({[(id, k)]} ∪ P) s' -> changes {[(id, k)]} s s' -> dict_at s' (id, k) = Some val -> expire_at s' (id, k) = None -> Q s' tt) ->
  wp (dbAdd id k val) s Q.
Proof.
  intros HI Hv Hval Hnew HQ. destruct (inv_db P s id HI Hv) as [db Hdb]. destruct (dict_at_db s id db k Hdb) as [Hd0 He0].
  assert (expire_at s (id, k) = None) as Hne.
  { destruct (expire_at s (id, k)) as [w|] eqn:Ee; [|done]. destruct (ok_volatile _ _ (inv_ok _ _ _ _ HI) (id, k)) as [? ?]; [by rewrite Ee | congruence]. }
  unfold dbAdd. apply wp_bind, (wp_get_db id db); [done|]. apply wp_bind, wp_assert; [by rewrite bool_decide_eq_true, <- Hd0|].
  apply wp_bind, (wp_db_effect id db _ {[(id, k)]}); [done | done | |].
  { intros k' Hk'. cbn. rewrite lookup_insert_ne by set_solver. done. }
  intros s1 HC1 Hat1 Hdb1 Hs1 Hcfg1. destruct (Hat1 k) as [Hd1 He1]. cbn in Hd1, He1. rewrite lookup_insert_eq in Hd1. rewrite <- He0, Hne in He1.
  assert (forall s2, changes ∅ s1 s2 -> (cluster_enabled (cfg s) = true -> exists sl, keyHashSlot k (zlen k) = Some sl /\ slots_to_keys s2 = {[(sl, k)]} ∪ slots_to_keys s1) -> Q s2 tt) as Hfin.
  { intros s2 HC2 Hsl. pose proof (changes_trans _ _ _ _ _ HC1 HC2) as HC. rewrite union_empty_r_L in HC.
    destruct (proj2 HC2 (id, k) ltac:(set_solver)) as [Hd2 He2]. rewrite Hd1 in Hd2. rewrite He1 in He2.
    apply HQ; [|done..]. eapply (Inv_set id k val); [done..|]. by rewrite <- Hs1. }
  assert (forall s2, changes ∅ s1 s2 -> slots_to_keys s2 = slots_to_keys s1 ->
    wp (s ← get; if cluster_enabled (cfg s) then slotToKeyAdd k else mret tt) s2 Q) as Hslot.
  { intros s2 HC2 Hs2. apply wp_bind, wp_get. rewrite (ev_cfg _ _ (proj1 HC2)), Hcfg1. destruct (cluster_enabled (cfg s)) eqn:Ecl.
    - unfold slotToKeyAdd. apply slot_step. intros sl s3 Hk HC3 Hs3. apply Hfin; [by eapply changes_trans0|]. intros _. exists sl. by rewrite Hs3, Hs2.
    - apply wp_ret, Hfin; [done|]. done. }
  apply wp_bind. eapply (wp_mono _ _ (fun s' _ => changes ∅ s1 s' /\ slots_to_keys s' = slots_to_keys s1)).
  - destruct (obj_type val); try (apply wp_ret; split; [apply changes_refl | done]). by eapply signal_list_quiet.
  - intros s2 [] [HC2 Hs2]. by apply Hslot.
Qed.

Lemma r_overwrite id k val P s (Q : server -> unit -> Prop) : Inv P s -> valid_db s0 id -> obj_ok val -> is_Some (dict_at s (id, k)) ->
  (forall s', Inv ({[(id, k)]} ∪ P) s' -> changes {[(id, k)]} s s' -> dict_at s' (id, k) = Some val -> expire_at s' (id, k) = expire_at s (id, k) ->
     Q s' tt) -> wp (dbOverwrite id k val) s Q.
Proof.
  intros HI Hv Hval Hold HQ. destruct (inv_db P s id HI Hv) as [db Hdb]. destruct (dict_at_db s id db k Hdb) as [Hd0 He0].
  unfold dbOverwrite. apply wp_bind, (wp_get_db id db); [done|]. apply wp_bind, wp_assert; [by rewrite bool_decide_eq_true, <- Hd0|].
  apply (wp_db_effect id db _ {[(id, k)]}); [done | done | |].
  { intros k' Hk'. cbn. rewrite lookup_insert_ne by set_solver. done. }
  intros s1 HC1 Hat1 Hdb1 Hs1 Hcfg1. destruct (Hat1 k) as [Hd1 He1]. cbn in Hd1, He1. rewrite lookup_insert_eq in Hd1. rewrite <- He0 in He1.
  apply HQ; [|done..]. eapply (Inv_set id k val); [done..|]. intros Hcl. destruct (slot_total k) as [sl Hsl]. exists sl. split; [done|].
  rewrite Hs1. assert ((sl, k) ∈ slots_to_keys s); [|set_solver]. apply (proj1 (ok_slots _ _ (inv_ok _ _ _ _ HI) Hcl)).
  split; [|done]. by rewrite <- (inv_cluster P s id HI Hv Hcl).
Qed.

(** The expiration of a key. *)
Lemma Inv_expire_set id k P s s' : Inv P s -> valid_db s0 id -> changes {[(id, k)]} s s' -> dict_at s' (id, k) = dict_at s (id, k) ->
  is_Some (dict_at s (id, k)) -> slots_to_keys s' = slots_to_keys s -> server_ok s'.
Proof.
  intros HI Hv HC Hd Hs Hsl. pose proof (inv_ok _ _ _ _ HI) as Hok. eapply (server_ok_key s s' id k); [done | done | by rewrite Hd | rewrite Hd; apply Hok |].
  intros Hcl. pose proof (inv_cluster P s id HI Hv Hcl) as ->. split; [done|]. destruct (slot_total k) as [sl Hk]. exists sl. split; [done|]. intros y. rewrite Hsl, Hd.
  destruct (decide (y = (sl, k))) as [->|]; [|done]. rewrite (proj1 (ok_slots _ _ Hok Hcl)). naive_solver.
Qed.

Lemma r_setExpire id k w P s (Q : server -> unit -> Prop) : Inv P s -> valid_db s0 id -> is_Some (dict_at s (id, k)) ->
  (forall s', Inv ({[(id, k)]} ∪ P) s' -> changes {[(id, k)]} s s' -> dict_at s' (id, k) = dict_at s (id, k) -> expire_at s' (id, k) = Some w -> Q s' tt) ->
  wp (setExpire id k w) s Q.
Proof.
  intros HI Hv Hold HQ. destruct (inv_db P s id HI Hv) as [db Hdb]. destruct (dict_at_db s id db k Hdb) as [Hd0 He0].
  unfold setExpire. apply wp_bind, (wp_get_db id db); [done|]. apply wp_bind, wp_assert; [by rewrite bool_decide_eq_true, <- Hd0|].
  apply (wp_db_effect id db _ {[(id, k)]}); [done | done | |].
  { intros k' Hk'. cbn. rewrite lookup_insert_ne by set_solver. done. }
  intros s1 HC1 Hat1 Hdb1 Hs1 Hcfg1. destruct (Hat1 k) as [Hd1 He1]. cbn in Hd1, He1. rewrite lookup_insert_eq in He1. rewrite <- Hd0 in Hd1.
  apply HQ; [|done..]. eapply Inv_changes; [done | done|]. by eapply Inv_expire_set.
Qed.

Lemma r_removeExpire id k P s (Q : server -> bool -> Prop) : Inv P s -> valid_db s0 id -> is_Some (dict_at s (id, k)) ->
  (forall s', Inv P s' -> changes {[(id, k)]} s s' -> dict_at s' (id, k) = dict_at s (id, k) -> expire_at s' (id, k) = None ->
     Q s' (bool_decide (is_Some (expire_at s (id, k))))) -> wp (removeExpire id k) s Q.
Proof.
  intros HI Hv Hold HQ. destruct (inv_db P s id HI Hv) as [db Hdb]. destruct (dict_at_db s id db k Hdb) as [Hd0 He0].
  unfold removeExpire. apply wp_bind, (wp_get_db id db); [done|]. apply wp_bind, wp_assert; [by rewrite bool_decide_eq_true, <- Hd0|].
  apply wp_bind, (wp_db_effect id db _ {[(id, k)]}); [done | done | |].
  { intros k' Hk'. cbn. rewrite lookup_delete_ne by set_solver. done. }
  intros s1 HC1 Hat1 Hdb1 Hs1 Hcfg1. destruct (Hat1 k) as [Hd1 He1]. cbn in Hd1, He1. rewrite lookup_delete_eq in He1. rewrite <- Hd0 in Hd1.
  apply wp_ret. rewrite He0 in HQ. apply HQ; [|done..].
  destruct (Inv_changes _ _ P {[(id, k)]} s s1 HI HC1) as [H1 H2 H3]; [by eapply Inv_expire_set|]. constructor; [done..|].
  intros c' x Hx. destruct (H3 c' x Hx) as [?|[Hin|?]]; [by left | | by right; right]. destruct (decide (x = (id, k))) as [->|]; [|right; left; set_solver].
  destruct (inv_watch _ _ _ _ HI c' (id, k) Hx) as [Hf|[?|[Hu _]]].
  - left. eapply flagged_evolves; [apply HC1 | done].
  - right. by left.
  - right. right. unfold undisturbed, val_at in *. rewrite Hd1, He1. split; [done | by intros []].
Qed.

Lemma r_getExpire id k P s (Q : server -> Z -> Prop) : Inv P s -> valid_db s0 id ->
  Q s (match expire_at s (id, k) with Some w => w | None => -1 end) -> wp (getExpire id k) s Q.
Proof.
  intros HI Hv HQ. destruct (inv_db P s id HI Hv) as [db Hdb]. destruct (dict_at_db s id db k Hdb) as [Hd0 He0].
  unfold getExpire. apply wp_bind, (wp_get_db id db); [done|]. rewrite He0 in HQ. destruct (_ =? 0) eqn:Es; zbool.
  - apply wp_ret. assert (db_expires db = ∅) as Hem by (apply map_size_empty_iff; lia). by rewrite Hem, lookup_empty in HQ.
  - destruct (db_expires db !! k) as [w|] eqn:Ew; [|by apply wp_ret]. apply wp_bind, wp_assert; [|by apply wp_ret].
    rewrite bool_decide_eq_true, <- Hd0. apply (ok_volatile _ _ (inv_ok _ _ _ _ HI)). rewrite He0. eauto.
Qed.


(** *** Expiration and lookups *)

(** The time an expiration is compared with: a script runs at a fixed time. *)
Definition time_of (s : server) : Z := match lua_time_start (cfg s) with Some t => t | None => env_clock (ticks s) end.

(** Is the key due for deletion? *)
Definition must_expire (s : server) (x : loc) : bool :=
  match expire_at s x with
  | Some w => (0 <=? w) && negb (loading (cfg s)) && negb (masterhost (cfg s)) && (w <? time_of s)
  | None => false
  end.

(** The key after [expireIfNeeded]. *)
Definition settled (s : server) (x : loc) (s' : server) : Prop :=
  changes {[x]} s s' /\ dict_at s' x = (if must_expire s x then None else dict_at s x) /\
  expire_at s' x = (if must_expire s x then None else expire_at s x).

Lemma settled_same s s' x : must_expire s x = false -> changes ∅ s s' -> settled s x s'.
Proof. intros Hm HC. unfold settled. rewrite Hm. destruct (proj2 HC x ltac:(set_solver)) as [-> ->]. split; [by eapply changes_mono; [|done]; set_solver | done]. Qed.

(** What the AOF and the slaves are told. *)
Definition expire_feed (s : server) (x : loc) : list (Z * list (list Z)) := if must_expire s x then [(x.1, [bytes_of "DEL"; x.2])] else [].

Lemma r_expire_feeds id k P s (Q : server -> bool -> Prop) : Inv P s -> valid_db s0 id ->
  (forall s' b, Inv P s' -> settled s (id, k) s' -> propagated s' = propagated s ++ expire_feed s (id, k) -> Q s' b) -> wp (expireIfNeeded id k) s Q.
Proof.
  intros HI Hv HQ. unfold expireIfNeeded. apply wp_bind. eapply r_getExpire; [done..|].
  set (w := match expire_at s (id, k) with Some w => w | None => -1 end).
  assert (forall s' b, must_expire s (id, k) = false -> Inv P s' -> changes ∅ s s' -> propagated s' = propagated s -> wp (mret b) s' Q) as Hstay.
  { intros s' b Hm HI' HC' Hp. apply wp_ret, HQ; [done | by apply settled_same |]. unfold expire_feed. by rewrite Hm, app_nil_r. }
  assert (must_expire s (id, k) = (0 <=? w) && negb (loading (cfg s)) && negb (masterhost (cfg s)) && (w <? time_of s)) as Hmust.
  { unfold must_expire, w. by destruct (expire_at s (id, k)). }
  destruct (w <? 0) eqn:E0; zbool.
  { apply Hstay; [|done|apply changes_refl|done]. rewrite Hmust. by rewrite (proj2 (Z.leb_gt 0 w)) by lia. }
  rewrite (proj2 (Z.leb_le 0 w)) in Hmust by lia. cbn [andb] in Hmust.
  apply wp_bind, wp_get. destruct (loading (cfg s)) eqn:El.
  { apply Hstay; [by rewrite Hmust | done | apply changes_refl | done]. }
  apply wp_bind. cbn [negb andb] in Hmust.
  assert (wp (match lua_time_start (cfg s) with Some t => mret t | None => mstime end) s (fun s' now => now = time_of s /\ changes ∅ s s' /\ Inv P s' /\ propagated s' = propagated s)) as Hnow.
  { unfold time_of. destruct (lua_time_start (cfg s)); [apply wp_ret; split_and!; [done | apply changes_refl | done | done]|].
    unfold mstime. apply wp_bind, wp_get. apply wp_bind, (r_modify _ P); [done..|]. intros HI1 HC1. apply wp_ret. done. }
  eapply wp_mono; [exact Hnow|]. cbn beta. intros s1 now (-> & HC1 & HI1 & Hp1). clear Hnow.
  destruct (masterhost (cfg s)) eqn:Em; [by apply Hstay; [rewrite Hmust | done..]|]. cbn [negb andb] in Hmust.
  destruct (time_of s <=? w) eqn:Et; zbool.
  { apply Hstay; [|done..]. rewrite Hmust. apply Z.ltb_ge. lia. }
  rewrite (proj2 (Z.ltb_lt w (time_of s))) in Hmust by lia.
  apply wp_bind, (r_modify _ P); [done..|]. set (s2 := upd_stats 1 0 0 s1). intros HI2 HC2.
  apply wp_bind, (r_modify _ P); [done..|]. set (s3 := upd_propagated _ s2). intros HI3 HC3.
  apply wp_bind, wp_keeps; [auto with keeps|]. eapply (r_notify _ _ _ _ P); [done|]. intros s4 HI4 HC4 Hp4.
  apply wp_keeps; [auto with keeps|]. eapply (r_delete id k P); [done..|]. intros s5 HI5 HC5 Hd5 He5 Hp5.
  pose proof (changes_trans0 _ _ _ (changes_trans0 _ _ _ (changes_trans0 _ _ _ HC1 HC2) HC3) HC4) as HC14.
  destruct (proj2 HC14 (id, k) ltac:(set_solver)) as [_ He4].
  apply HQ.
  - eapply (Inv_expire _ _ P s4 s5 (id, k)); [done | done | | | done | done].
    + apply HI5.
    + rewrite He4. unfold w in E0. destruct (expire_at s (id, k)); [eauto | lia].
  - unfold settled. rewrite Hmust, Hd5, He5. split; [|done]. pose proof (changes_trans _ _ _ _ _ HC14 HC5) as H. by rewrite union_empty_l_L in H.
  - rewrite Hp5, Hp4. unfold s3, s2. cbn. rewrite Hp1. unfold expire_feed. by rewrite Hmust.
Qed.

Lemma r_expireIfNeeded id k P s (Q : server -> bool -> Prop) : Inv P s -> valid_db s0 id ->
  (forall s' b, Inv P s' -> settled s (id, k) s' -> Q s' b) -> wp (expireIfNeeded id k) s Q.
Proof. intros HI Hv HQ. eapply r_expire_feeds; [done..|]. intros s' b H1 H2 _. by apply HQ. Qed.


Lemma r_lookupKey id k P s (Q : server -> option obj -> Prop) : Inv P s -> valid_db s0 id -> Q s (dict_at s (id, k)) -> wp (lookupKey id k) s Q.
Proof.
  intros HI Hv HQ. destruct (inv_db P s id HI Hv) as [db Hdb]. unfold lookupKey. apply wp_bind, (wp_get_db id db); [done|].
  apply wp_ret. by rewrite <- (proj1 (dict_at_db s id db k Hdb)).
Qed.

Lemma r_lookupKeyWrite id k P s (Q : server -> option obj -> Prop) : Inv P s -> valid_db s0 id ->
  (forall s', Inv P s' -> settled s (id, k) s' -> Q s' (dict_at s' (id, k))) -> wp (lookupKeyWrite id k) s Q.
Proof.
  intros HI Hv HQ. apply wp_bind. eapply r_expireIfNeeded; [done..|]. intros s1 b HI1 Hs1. eapply r_lookupKey; [done..|]. by apply HQ.
Qed.

Lemma settled_trans s s1 s2 x : settled s x s1 -> changes ∅ s1 s2 -> settled s x s2.
Proof.
  intros (HC & Hd & He) HC2. destruct (proj2 HC2 x ltac:(set_solver)) as [Hd2 He2]. split; [|split; congruence].
  pose proof (changes_trans _ _ _ _ _ HC HC2) as H. by rewrite union_empty_r_L in H.
Qed.

Lemma r_lookupKeyRead id k P s (Q : server -> option obj -> Prop) : Inv P s -> valid_db s0 id ->
  (forall s', Inv P s' -> settled s (id, k) s' -> Q s' (dict_at s' (id, k))) -> wp (lookupKeyRead id k) s Q.
Proof.
  intros HI Hv HQ. apply wp_bind. eapply r_expireIfNeeded; [done..|]. intros s1 b HI1 Hs1. apply wp_bind. eapply r_lookupKey; [done..|].
  apply wp_bind. assert (forall n m, Inv P (upd_stats 0 n m s1) -> changes ∅ s1 (upd_stats 0 n m s1) -> Q (upd_stats 0 n m s1) (dict_at s1 (id, k))) as Hfin.
  { intros n m HI2 HC2. apply (HQ (upd_stats 0 n m s1)); [done|]. by eapply settled_trans. }
  destruct (dict_at s1 (id, k)); (apply (r_modify _ P); [done..|]); intros; apply wp_ret; by apply Hfin.
Qed.

Lemma r_or_reply (m : M (option obj)) k r P s (Q : server -> option obj -> Prop) :
  (forall Q1, (forall s', Inv P s' -> settled s (c_db cl0, k) s' -> Q1 s' (dict_at s' (c_db cl0, k))) -> wp m s Q1) ->
  (forall s', Inv P s' -> settled s (c_db cl0, k) s' -> Q s' (dict_at s' (c_db cl0, k))) ->
  wp (o ← m; (match o with None => addReply c r | Some _ => mret tt end);; mret o) s Q.
Proof.
  intros Hm HQ. apply wp_bind, Hm. intros s1 HI1 Hs1. apply wp_bind. destruct (dict_at s1 (c_db cl0, k)) as [o|] eqn:Eo.
  - apply wp_ret, wp_ret. rewrite <- Eo. by apply HQ.
  - eapply (r_reply _ P); [done|]. intros s2 HI2 HC2. apply wp_ret. assert (dict_at s2 (c_db cl0, k) = None) as Hd2.
    { by rewrite (proj1 (proj2 HC2 (c_db cl0, k) ltac:(set_solver))). }
    rewrite <- Hd2. apply HQ; [done | by eapply settled_trans].
Qed.

Lemma r_lookupWriteOrReply k r P s (Q : server -> option obj -> Prop) : Inv P s ->
  (forall s', Inv P s' -> settled s (c_db cl0, k) s' -> Q s' (dict_at s' (c_db cl0, k))) -> wp (lookupKeyWriteOrReply c k r) s Q.
Proof.
  intros HI HQ. unfold lookupKeyWriteOrReply. apply wp_bind. eapply r_dbid; [done|].
  apply (r_or_reply _ k r P s); [|done]. intros Q1 HQ1. eapply r_lookupKeyWrite; [done | by eapply valid_client | done].
Qed.

Lemma r_lookupReadOrReply k r P s (Q : server -> option obj -> Prop) : Inv P s ->
  (forall s', Inv P s' -> settled s (c_db cl0, k) s' -> Q s' (dict_at s' (c_db cl0, k))) -> wp (lookupKeyReadOrReply c k r) s Q.
Proof.
  intros HI HQ. unfold lookupKeyReadOrReply. apply wp_bind. eapply r_dbid; [done|].
  apply (r_or_reply _ k r P s); [|done]. intros Q1 HQ1. eapply r_lookupKeyRead; [done | by eapply valid_client | done].
Qed.

Lemma r_checkType o t P s (Q : server -> bool -> Prop) : Inv P s -> (obj_type o = t -> Q s false) ->
  (obj_type o <> t -> forall s', Inv P s' -> changes ∅ s s' -> Q s' true) -> wp (checkType c o t) s Q.
Proof.
  intros HI H1 H2. unfold checkType. destruct (decide (obj_type o = t)); [by apply wp_ret, H1|].
  apply wp_bind. eapply (r_reply _ P); [done|]. intros s' HI' HC'. apply wp_ret. by apply H2.
Qed.

(** Loops: the invariant may carry more than [Inv P]. *)
Lemma r_arg j x P s (Q : server -> list Z -> Prop) : Inv P s -> (forall cl, clients s !! c = Some cl -> argv cl !! j = Some x) -> Q s x -> wp (arg c j) s Q.
Proof.
  intros HI Ha HQ. unfold arg. apply wp_bind. eapply r_get_client; [done|]. intros cl Hcl _. apply (wp_lift _ x); [by apply Ha | done].
Qed.

End Rules.
