(* ===== verification/DbCommands.v ===== *)
(** * The commands on keys (db.c)

    Every command that works on keys of any type, run from a consistent state,
    meets no failed assertion and leads to a consistent state in which every
    client that watches a key somebody else changed is marked. *)
From Stdlib Require Import Lia ZArith String.
From stdpp Require Import base numbers list tactics option gmap fin_maps fin_sets sets.
From S2P Require Import Prelude Util Dict DictRep DictIter Object Glob SetType Server Pubsub Crc Db DbOk DbRules.

#[local] Open Scope Z_scope.

Ltac quiet_step rule := first [apply wp_bind; eapply rule | eapply rule]; [eassumption..|].

Section Commands.
Context `{E : Env} (W : gset (cid * loc)) (s0 : server) (c : cid) (cl0 : redisClient) (Hc : clients s0 !! c = Some cl0).
#[local] Abbreviation Inv := (Inv W s0).
#[local] Abbreviation server_ok := (server_ok W).
#[local] Abbreviation id0 := (c_db cl0).
Implicit Types (P : gset loc) (s : server) (k : key).

(** The state a command starts from: its arguments are in the client. *)
Definition starts P (l : list (list Z)) (s : server) : Prop :=
  Inv P s /\ valid_db s0 id0 /\ exists cl, clients s !! c = Some cl /\ argv cl = l.

Lemma start P l s : Inv P s -> starts P l (upd_clients (fun m => <[c := with_argv l (default cl0 (m !! c))]> m) s).
Proof.
  intros HI. destruct (inv_client W s0 c cl0 Hc P s HI) as (cl & Hcl & Hev). cbn. 
  assert (changes ∅ s (upd_clients (fun m => <[c := with_argv l (default cl0 (m !! c))]> m) s)) as HC.
  { unfold upd_clients at 1. rewrite Hcl. apply (changes_client s c cl); [done | | done..]. destruct (client_evolves_refl cl) as (? & ? & ? & ?). by repeat split. }
  split; [by eapply Inv_quiet|]. split; [by eapply valid_client|]. eexists. split; [apply lookup_insert_eq | done].
Qed.

Lemma r_argv {A} (f : redisClient -> M A) P l s (Q : server -> A -> Prop) : starts P l s ->
  (forall cl, clients s !! c = Some cl -> argv cl = l -> wp (f cl) s Q) -> wp (cl ← get_client c; f cl) s Q.
Proof. intros (_ & _ & cl & Hcl & Ha) HQ. apply wp_bind, (wp_get_client c cl); auto. Qed.

Lemma r_arg_at j x P l s (Q : server -> list Z -> Prop) : starts P l s -> l !! j = Some x -> Q s x -> wp (arg c j) s Q.
Proof. intros Hs Hj HQ. apply (r_argv _ P l); [done|]. intros cl _ ->. by apply (wp_lift _ x). Qed.

Lemma r_args_from j P l s (Q : server -> list (list Z) -> Prop) : starts P l s -> Q s (drop j l) -> wp (args_from c j) s Q.
Proof. intros Hs HQ. apply (r_argv _ P l); [done|]. intros cl _ ->. by apply wp_ret. Qed.

Lemma r_for_sum {A} (body : A -> M Z) (l : list A) P s (Q : server -> Z -> Prop) : Inv P s ->
  (forall a s1 (Q1 : server -> Z -> Prop), a ∈ l -> Inv P s1 -> (forall s2 n, Inv P s2 -> Q1 s2 n) -> wp (body a) s1 Q1) ->
  (forall s' n, Inv P s' -> Q s' n) -> wp (for_sum body l) s Q.
Proof.
  intros HI Hb HQ. revert s HI Q HQ. induction l as [|a l IH]; intros s HI Q HQ; cbn [for_sum]; [by apply wp_ret, HQ|].
  apply wp_bind, (Hb a); [set_solver | done|]. intros s1 n HI1. apply wp_bind, IH; [set_solver | done|]. intros s2 m HI2. apply wp_ret. by apply HQ.
Qed.

Lemma Inv_drop P x s : Inv (({[x]} ∪ P) ∖ {[x]}) s -> Inv P s.
Proof. clear Hc. apply Inv_mono. set_solver. Qed.

(** Deleting a key that is not there. *)
Lemma Inv_absent P s s' x : Inv P s -> Inv ({[x]} ∪ P) s' -> changes {[x]} s s' -> dict_at s' x = None -> expire_at s' x = None ->
  ~ is_Some (dict_at s x) -> Inv P s'.
Proof.
  clear Hc. intros HI HI' [Hev HC] Hd He Hn. replace P with (∅ ∪ P) by set_solver. eapply Inv_changes; [done | | apply HI'].
  split; [done|]. intros y _. destruct (decide (y = x)) as [->|]; [|apply HC; set_solver]. rewrite Hd, He. split.
  - destruct (dict_at s x) as [o|]; [exfalso; apply Hn; eauto | done].
  - destruct (expire_at s x) as [w|] eqn:Ew; [|done]. destruct Hn. apply (ok_volatile _ _ (inv_ok _ _ _ _ HI)). by rewrite Ew.
Qed.

Lemma del_safe P l s : starts P l s -> wp (delCommand c) s (fun s' _ => Inv P s').
Proof.
  intros Hs. pose proof Hs as (HI & Hv & _). unfold delCommand. apply wp_bind. eapply r_dbid; [done..|].
  apply wp_bind, (r_args_from 1 P l); [done|]. apply wp_bind, (r_for_sum _ _ P); [done | |].
  - intros k s1 Q1 _ HI1 HQ1. apply wp_bind. eapply r_expireIfNeeded; [done..|]. intros s2 b HI2 _.
    apply wp_bind. eapply r_delete; [done..|]. intros s3 HI3 HC3 Hd3 He3. case_bool_decide as Hd.
    + apply wp_bind. eapply r_signal; [done..|]. intros s4 HI4%Inv_drop _. apply wp_bind. eapply r_notify; [done..|]. intros s5 HI5 _.
      apply wp_bind. eapply r_dirty; [done..|]. intros s6 HI6 _. apply wp_ret. by apply HQ1.
    + apply wp_ret, HQ1. by apply (Inv_absent P s2 s3 (id0, k)).
  - intros s1 n HI1. eapply r_reply; [done..|]. done.
Qed.


Lemma exists_safe P l s : starts P l s -> (1 < length l)%nat -> wp (existsCommand c) s (fun s' _ => Inv P s').
Proof.
  intros Hs Hl. pose proof Hs as (HI & Hv & _). destruct (lookup_lt_is_Some_2 l 1 Hl) as [k Hk]. unfold existsCommand.
  apply wp_bind. eapply r_dbid; [done..|]. apply wp_bind, (r_arg_at 1 k P l); [done..|].
  apply wp_bind. eapply r_expireIfNeeded; [done..|]. intros s1 b HI1 _. unfold dbExists. apply wp_bind, wp_bind.
  destruct (inv_db W s0 P s1 id0 HI1 Hv) as [db Hdb]. apply (wp_get_db id0 db); [done|]. apply wp_ret.
  eapply r_reply; [done..|]. done.
Qed.

(** What RENAME does once both keys have been looked up. *)
Lemma rename_safe nx P l s : starts P l s -> (2 < length l)%nat -> wp (renameGenericCommand c nx) s (fun s' _ => Inv P s').
Proof.
  intros Hs Hl. pose proof Hs as (HI & Hv & _). destruct (lookup_lt_is_Some_2 l 1 ltac:(lia)) as [k1 Hk1]. destruct (lookup_lt_is_Some_2 l 2 Hl) as [k2 Hk2].
  unfold renameGenericCommand. apply wp_bind. eapply r_dbid; [done..|]. apply wp_bind, (r_arg_at 1 k1 P l); [done..|].
  apply wp_bind, (r_arg_at 2 k2 P l); [done..|]. destruct (decide (k1 = k2)) as [|Hne]; [eapply r_reply; [done..|]; done|].
  apply wp_bind. eapply r_lookupWriteOrReply; [done..|]. intros s1 HI1 _. destruct (dict_at s1 (id0, k1)) as [o|] eqn:Eo; [|by apply wp_ret].
  pose proof (ok_objects _ _ (inv_ok _ _ _ _ HI1) _ _ Eo) as Hobj.
  apply wp_bind. eapply r_getExpire; [done..|]. set (expire := match expire_at s1 (id0, k1) with Some w => w | None => -1 end).
  apply wp_bind. eapply r_lookupKeyWrite; [done..|]. intros s2 HI2 Hset2.
  assert (dict_at s2 (id0, k1) = Some o) as Hk1s2 by (rewrite (proj1 (proj2 (proj1 Hset2) (id0, k1) ltac:(set_solver))); done).
  (* from the moment k2 is free *)
  assert (forall s3 P3, Inv P3 s3 -> P3 ⊆ {[(id0, k2)]} ∪ P -> dict_at s3 (id0, k2) = None -> wp
    (dbAdd id0 k2 o;; (if negb (expire =? -1) then setExpire id0 k2 expire else mret tt);; dbDelete id0 k1;; signalModifiedKey id0 k1;;
     signalModifiedKey id0 k2;; notifyKeyspaceEvent REDIS_NOTIFY_GENERIC (bytes_of "rename_from") k1 id0;;
     notifyKeyspaceEvent REDIS_NOTIFY_GENERIC (bytes_of "rename_to") k2 id0;; add_dirty 1;; addReply c (if nx then Integer 1 else Ok)) s3
    (fun s' _ => Inv P s')) as Htail.
  { intros s3 P3 HI3 HP3 Hfree. apply wp_bind. eapply r_add; [done..|]. intros s4 HI4 HC4 Hd4 _.
    apply wp_bind. eapply (wp_mono _ _ (fun s' _ => Inv ({[(id0, k2)]} ∪ P3) s')).
    { destruct (negb _); [|by apply wp_ret]. eapply r_setExpire; [done | done | done | by rewrite Hd4 |]. intros s5 HI5 _ _ _. eapply Inv_mono; [|exact HI5]. set_solver. }
    intros s5 [] HI5. apply wp_bind. eapply r_delete; [done..|]. intros s6 HI6 _ _ _.
    apply wp_bind. eapply r_signal; [done..|]. intros s7 HI7 _. apply wp_bind. eapply r_signal; [done..|]. intros s8 HI8 _.
    assert (Inv P s8) as HI8' by (eapply Inv_mono; [|exact HI8]; set_solver).
    apply wp_bind. eapply r_notify; [done..|]. intros s9 HI9 _. apply wp_bind. eapply r_notify; [done..|]. intros s10 HI10 _.
    apply wp_bind. eapply r_dirty; [done..|]. intros s11 HI11 _. eapply r_reply; [done..|]. done. }
  destruct (dict_at s2 (id0, k2)) as [o2|] eqn:Eo2.
  - destruct nx; [eapply r_reply; [done..|]; done|]. apply wp_bind, wp_bind. eapply r_delete; [done..|]. intros s3 HI3 _ Hd3 _. apply wp_ret.
    eapply Htail; [done | done | done].
  - assert (forall Q, wp (mret tt) s2 Q -> wp (match nx with true => mret tt | false => mret tt end) s2 Q) as _ by (by destruct nx).
    destruct nx; (apply wp_bind, wp_ret; eapply Htail; [done | set_solver | done]).
Qed.

(** The time an EXPIRE asks for is a [long long]. *)
Definition time_fits (basetime : Z) (seconds : bool) (l : list (list Z)) : Prop :=
  forall a v, l !! 2%nat = Some a -> read_long a = Some v -> let v := if seconds then v * 1000 else v in
    LLONG_MIN <= v <= LLONG_MAX /\ LLONG_MIN <= v + basetime <= LLONG_MAX.

Lemma wp_no_overflow v s (Q : server -> Z -> Prop) : LLONG_MIN <= v <= LLONG_MAX -> Q s v -> wp (no_overflow v) s Q.
Proof. intros Hv HQ. apply wp_bind, wp_assert; [|by apply wp_ret]. apply andb_true_intro. by rewrite !Z.leb_le. Qed.

Lemma wp_fits basetime (seconds : bool) v s (Q : server -> Z -> Prop) :
  (let v := if seconds then v * 1000 else v in LLONG_MIN <= v <= LLONG_MAX /\ LLONG_MIN <= v + basetime <= LLONG_MAX) ->
  (forall t, Q s t) -> wp (when_ ← (if seconds then no_overflow (v * 1000) else mret v); no_overflow (when_ + basetime)) s Q.
Proof. cbn. intros [H1 H2] HQ. destruct seconds; [apply wp_bind, wp_no_overflow; [done|] | apply wp_bind, wp_ret]; by apply wp_no_overflow. Qed.

Lemma wp_assoc {A B C} (m : M A) (f : A -> M B) (g : B -> M C) s (Q : server -> C -> Prop) :
  wp (x ← m; f x) s (fun s' y => wp (g y) s' Q) -> wp (x ← m; y ← f x; g y) s Q.
Proof. unfold wp, mbind, M_bind. destruct (m s) as [[s' x]|]; [|done]. by destruct (f x s') as [[? ?]|]. Qed.

Lemma expire_safe basetime seconds P l s : starts P l s -> (2 < length l)%nat -> time_fits basetime seconds l ->
  wp (expireGenericCommand c basetime seconds) s (fun s' _ => Inv P s').
Proof.
  intros Hs Hl Hov. pose proof Hs as (HI & Hv & _). destruct (lookup_lt_is_Some_2 l 1 ltac:(lia)) as [k Hk]. destruct (lookup_lt_is_Some_2 l 2 Hl) as [a Ha].
  unfold expireGenericCommand. apply wp_bind. eapply r_dbid; [done..|]. apply wp_bind, (r_arg_at 1 k P l); [done..|].
  apply wp_bind, (r_arg_at 2 a P l); [done..|]. unfold getLongLong_or_reply. apply wp_bind. destruct (read_long a) as [v|] eqn:Ev.
  2:{ apply wp_bind. eapply r_reply; [done..|]. intros s1 HI1 _. by apply wp_ret, wp_ret. }
  apply wp_ret, wp_assoc, wp_fits; [by apply (Hov a v)|]. intros t. clear Hov.
  apply wp_bind. eapply r_lookupKeyRead; [done..|]. intros s1 HI1 _. destruct (dict_at s1 (id0, k)) as [o|] eqn:Eo; [|eapply r_reply; [done..|]; done].
  apply wp_bind. eapply r_mstime; [done..|]. intros s2 now HI2 HC2. apply wp_bind, wp_get.
  assert (dict_at s2 (id0, k) = Some o) as Ho2 by (by rewrite (proj1 (proj2 HC2 (id0, k) ltac:(set_solver)))).
  destruct (_ && _).
  - apply wp_bind. eapply r_delete; [done..|]. intros s3 HI3 _ _ _. rewrite Ho2. apply wp_bind, wp_assert; [done|].
    apply wp_bind. eapply r_dirty; [done..|]. intros s4 HI4 _.
    apply wp_bind. eapply r_mod_client; [done | done | |]; [intros cl; split; [|done]; destruct (client_evolves_refl cl) as (? & ? & ? & ?); by repeat split|].
    intros s5 HI5 _. apply wp_bind. eapply r_signal; [done..|]. intros s6 HI6%Inv_drop _. apply wp_bind. eapply r_notify; [done..|]. intros s7 HI7 _.
    eapply r_reply; [done..|]. done.
  - apply wp_bind. eapply r_setExpire; [done | done | done | by rewrite Ho2|]. intros s3 HI3 _ _ _. apply wp_bind. eapply r_reply; [done..|]. intros s4 HI4 _.
    apply wp_bind. eapply r_signal; [done..|]. intros s5 HI5%Inv_drop _. apply wp_bind. eapply r_notify; [done..|]. intros s6 HI6 _.
    eapply r_dirty; [done..|]. done.
Qed.

Lemma ttl_safe ms P l s : starts P l s -> (1 < length l)%nat -> wp (ttlGenericCommand c ms) s (fun s' _ => Inv P s').
Proof.
  intros Hs Hl. pose proof Hs as (HI & Hv & _). destruct (lookup_lt_is_Some_2 l 1 Hl) as [k Hk]. unfold ttlGenericCommand.
  apply wp_bind. eapply r_dbid; [done..|]. apply wp_bind, (r_arg_at 1 k P l); [done..|].
  apply wp_bind. eapply r_lookupKeyRead; [done..|]. intros s1 HI1 _. destruct (dict_at s1 (id0, k)) as [o|]; [|eapply r_reply; [done..|]; done].
  apply wp_bind. eapply r_getExpire; [done..|]. apply wp_bind. eapply (wp_mono _ _ (fun s' _ => Inv P s')).
  - destruct (negb _); [|by apply wp_ret]. apply wp_bind. eapply r_mstime; [done..|]. intros s2 now HI2 _. by apply wp_ret.
  - intros s2 ttl HI2. destruct (ttl =? -1); (eapply r_reply; [done..|]; done).
Qed.

Lemma persist_safe P l s : starts P l s -> (1 < length l)%nat -> wp (persistCommand c) s (fun s' _ => Inv P s').
Proof.
  intros Hs Hl. pose proof Hs as (HI & Hv & _). destruct (lookup_lt_is_Some_2 l 1 Hl) as [k Hk]. unfold persistCommand.
  apply wp_bind. eapply r_dbid; [done..|]. apply wp_bind, (r_arg_at 1 k P l); [done..|]. unfold dbExists. apply wp_bind, wp_bind.
  destruct (inv_db W s0 P s id0 HI Hv) as [db Hdb]. destruct (dict_at_db s id0 db k Hdb) as [Hd _]. apply (wp_get_db id0 db); [done|]. apply wp_ret.
  rewrite <- Hd. case_bool_decide as Hex; cbn [negb]; [|eapply r_reply; [done..|]; done].
  apply wp_bind. eapply r_removeExpire; [done..|]. intros s1 HI1 _ _ _. case_bool_decide; [|eapply r_reply; [done..|]; done].
  apply wp_bind. eapply r_reply; [done..|]. intros s2 HI2 _. eapply r_dirty; [done..|]. done.
Qed.

(** *** Flushing databases *)

Definition flushes (dbid : Z) (x : loc) : Prop := dbid = -1 \/ x.1 = dbid.
#[local] Instance flushes_dec dbid x : Decision (flushes dbid x).
Proof. unfold flushes. apply _. Defined.

(** After this loop the watchers of the keys that are about to go are marked. *)
Lemma flush_marks_one dbid P s0' s (c' : cid) (l : list (key * Z)) (Q : server -> unit -> Prop) :
  Inv P s0' -> changes ∅ s0' s -> slots_to_keys s = slots_to_keys s0' -> is_Some (clients s0' !! c') ->
  (forall k id, (k, id) ∈ l -> is_Some (rd (dbs s0') id)) ->
  (forall s', changes ∅ s0' s' -> slots_to_keys s' = slots_to_keys s0' -> evolves s s' ->
     (forall k id, (k, id) ∈ l -> flushes dbid (id, k) -> is_Some (dict_at s0' (id, k)) -> flagged s' c') -> Q s' tt) ->
  wp (for_each (fun '(k, id) =>
      if (dbid =? -1) || (id =? dbid) then
        db ← get_db id;
        match db_dict db !! k with
        | Some _ => mod_client c' (with_flags (fun f => set_flag f REDIS_DIRTY_CAS))
        | None => mret tt
        end
      else mret tt) l) s Q.
Proof.
  intros HI HC Hsl Hlive Hdbs HQ.
  apply (wp_for_each _ (fun pre s' => changes ∅ s0' s' /\ slots_to_keys s' = slots_to_keys s0' /\ evolves s s' /\
    forall k id, (k, id) ∈ pre -> flushes dbid (id, k) -> is_Some (dict_at s0' (id, k)) -> flagged s' c')).
  - split_and!; [done | done | apply evolves_refl | set_solver].
  - intros pre [k id] post s1 -> (HC1 & Hs1 & Hev1 & Hf).
    assert ((flushes dbid (id, k) -> is_Some (dict_at s0' (id, k)) -> False) -> forall k' id', (k', id') ∈ pre ++ [(k, id)] ->
      flushes dbid (id', k') -> is_Some (dict_at s0' (id', k')) -> flagged s1 c') as Hskip.
    { intros Hn k' id' [Hin|[= -> ->]%list_elem_of_singleton]%elem_of_app Hfl Hd; [by eapply Hf | by destruct Hn]. }
    destruct ((dbid =? -1) || (id =? dbid)) eqn:Ecase.
    2:{ apply wp_ret. split_and!; [done..|]. apply Hskip. zbool. unfold flushes. cbn [fst]. lia. }
    destruct (evolves_db s0' s1 id) as [db Hdb]; [apply HC1 | apply (Hdbs k); set_solver |]. apply wp_bind, (wp_get_db id db); [done|].
    rewrite <- (proj1 (dict_at_db s1 id db k Hdb)). rewrite (proj1 (proj2 HC1 (id, k) ltac:(set_solver))).
    destruct (dict_at s0' (id, k)) as [o|] eqn:Eo.
    + destruct (evolves_live s0' s1 c') as [cl Hcl]; [apply HC1 | done |]. apply (wp_mod_client c' cl); [done|]. set (s2 := upd_clients _ s1).
      assert (changes ∅ s1 s2) as HC2 by (apply (changes_client s1 c' cl); [done | apply dirty_evolves | done..]).
      split_and!; [by eapply changes_trans0 | done | eapply evolves_trans; [exact Hev1 | apply HC2] |].
      intros k' id' _ _ _. eexists. split; [apply lookup_insert_eq|]. cbn [flags with_flags]. rewrite has_set_flag by done. apply orb_true_r.
    + apply wp_ret. split_and!; [done..|]. apply Hskip. by intros _ [].
  - intros s1 (? & ? & ? & ?). by apply HQ.
Qed.

Lemma r_signal_flushed dbid P s (Q : server -> unit -> Prop) : Inv P s ->
  (forall s', changes ∅ s s' -> slots_to_keys s' = slots_to_keys s ->
     (forall c' x, (c', x) ∈ W -> flushes dbid x -> is_Some (dict_at s x) -> flagged s' c') -> Q s' tt) ->
  wp (signalFlushedDb dbid) s Q.
Proof.
  intros HI HQ. unfold signalFlushedDb, touchWatchedKeysOnFlush. apply wp_bind, wp_get.
  pose proof (ok_watch _ _ (inv_ok _ _ _ _ HI)) as [Hcl Hlive _].
  apply (wp_for_each _ (fun pre s' => changes ∅ s s' /\ slots_to_keys s' = slots_to_keys s /\
    forall c' cl' k id, (c', cl') ∈ pre -> (k, id) ∈ c_watched cl' -> flushes dbid (id, k) -> is_Some (dict_at s (id, k)) -> flagged s' c')).
  - split_and!; [apply changes_refl | done | set_solver].
  - intros pre [c' cl'] post s1 Hl (HC1 & Hs1 & Hf).
    assert (clients s !! c' = Some cl') as Hcl' by (apply elem_of_map_to_list; rewrite Hl; set_solver).
    eapply (flush_marks_one dbid P s s1); [done | done | done | by eexists | |].
    + intros k id Hin. apply (proj2 (Hlive c' (id, k) (proj1 (proj2 (Hcl c' cl' Hcl') k id) Hin))).
    + intros s2 HC2 Hs2 Hev Hf2. split_and!; [done..|]. intros c2 cl2 k id [Hin|[= -> ->]%list_elem_of_singleton]%elem_of_app Hw Hfl Hd; [|by eapply Hf2].
      eapply flagged_evolves; [exact Hev|]. by eapply Hf.
  - intros s1 (HC1 & Hs1 & Hf). apply HQ; [done..|]. intros c' [id k] HW Hfl Hd. destruct (proj1 (Hlive c' _ HW)) as [cl' Hcl'].
    eapply (Hf c' cl' k id); [by apply elem_of_map_to_list | by apply (proj2 (Hcl c' cl' Hcl')) | done..].
Qed.

(** Everything in the flushed databases goes; consistency and the promise stay. *)
Lemma Inv_flush dbid P s1 s : Inv P s1 -> evolves s1 s ->
  (forall c' x, (c', x) ∈ W -> flushes dbid x -> is_Some (dict_at s1 x) -> flagged s1 c') ->
  (forall x, dict_at s x = (if decide (flushes dbid x) then None else dict_at s1 x) /\
     expire_at s x = (if decide (flushes dbid x) then None else expire_at s1 x)) ->
  (cluster_enabled (cfg s1) = true -> (dbid = -1 \/ dbid = 0) /\ slots_to_keys s = ∅) -> Inv P s.
Proof.
  intros HI Hev Hf Hx Hsl. pose proof (inv_ok _ _ _ _ HI) as Hok.
  constructor; [|eapply evolves_trans; [apply HI | done] |].
  - eapply server_ok_evolves; [exact Hok | done | | |].
    + intros x. destruct (Hx x) as [-> ->]. destruct (decide (flushes dbid x)); [by intros []|]. apply Hok.
    + intros x o. destruct (Hx x) as [-> _]. destruct (decide (flushes dbid x)); [done|]. apply Hok.
    + unfold slots_ok. rewrite (ev_cfg _ _ Hev). intros Hcl. destruct (Hsl Hcl) as [Hd ->]. destruct (ok_slots _ _ Hok Hcl) as (_ & H2 & _). split.
      * intros sl k. split; [set_solver|]. intros [Hd0 _]. rewrite (proj1 (Hx (0, k))) in Hd0. rewrite decide_True in Hd0; [by destruct Hd0|].
        unfold flushes. cbn. lia.
      * intros x Hx0. destruct (Hx x) as [-> _]. destruct (decide (flushes dbid x)); [done|]. by apply H2.
  - intros c' x HW. destruct (inv_watch _ _ _ _ HI c' x HW) as [Hfl|[HP|Hu]]; [left; by eapply flagged_evolves | by right; left|].
    destruct (Hx x) as [Hd He]. destruct (decide (flushes dbid x)) as [Hfx|]; [|right; right; by eapply undisturbed_same].
    destruct (dict_at s1 x) as [o|] eqn:Eo; [left; eapply flagged_evolves; [exact Hev|]; eapply Hf; [done | done | by rewrite Eo]|].
    right. right. unfold undisturbed, val_at in *. rewrite Hd, He. rewrite Eo in Hu. split; [apply Hu | by intros []].
Qed.

#[local] Abbreviation clear := (fun db => with_expires (fun _ => ∅) (with_dict (fun _ => ∅) db)).

Definition cleared (D : Z -> Prop) `{!forall id, Decision (D id)} (s s' : server) : Prop :=
  evolves s s' /\ slots_to_keys s' = slots_to_keys s /\ dbs s' = imap (fun i db => if decide (D (Z.of_nat i)) then clear db else db) (dbs s).

Lemma cleared_at D `{!forall id, Decision (D id)} s s' x : cleared D s s' ->
  dict_at s' x = (if decide (D x.1) then None else dict_at s x) /\ expire_at s' x = (if decide (D x.1) then None else expire_at s x).
Proof.
  intros (_ & _ & Hd). unfold dict_at, expire_at, rd. rewrite Hd. destruct x as [id k]. cbn [fst snd]. destruct (id <? 0) eqn:Ei; zbool.
  - cbn. by destruct (decide (D id)).
  - rewrite list_lookup_imap, Z2Nat.id by lia. destruct (dbs s !! Z.to_nat id); cbn; by destruct (decide (D id)).
Qed.

Lemma wp_clear_db D `{!forall id, Decision (D id)} id s s1 (Q : server -> unit -> Prop) : cleared D s s1 -> is_Some (rd (dbs s1) id) ->
  (forall s2, cleared (fun i => D i \/ i = id) s s2 -> Q s2 tt) -> wp (mod_db id clear) s1 Q.
Proof.
  intros (Hev & Hsl & Hd) [db Hdb] HQ. apply (wp_mod_db id db); [done|]. apply HQ. split; [|split; [done|]].
  - eapply evolves_trans; [exact Hev|]. constructor; [done | done | apply (evolves_refl s1)|]. intros j. cbn. rewrite rd_insert by eauto.
    destruct (decide (id = j)) as [<-|]; [|apply (evolves_refl s1)]. rewrite Hdb. by constructor.
  - cbn. rewrite Hd. unfold rd in Hdb. destruct (id <? 0) eqn:Ei; [done|]. zbool. rewrite Hd, list_lookup_imap in Hdb.
    apply list_eq. intros i. rewrite list_lookup_imap. destruct (decide (Z.to_nat id = i)) as [<-|Hne].
    + destruct (dbs s !! Z.to_nat id) as [d|] eqn:Ed; [|done]. cbn in Hdb |- *. injection Hdb as <-.
      rewrite list_lookup_insert_eq by (rewrite length_imap; by apply lookup_lt_Some in Ed). rewrite Z2Nat.id by lia.
      rewrite (decide_True (P := D id \/ id = id)) by auto. by destruct (decide (D id)).
    + rewrite list_lookup_insert_ne by done. rewrite list_lookup_imap. destruct (dbs s !! i); [|done]. cbn. f_equal.
      destruct (decide (D (Z.of_nat i))), (decide (D (Z.of_nat i) \/ Z.of_nat i = id)) as [[|]|]; try done; [tauto | lia].
Qed.

Lemma cleared_start s : cleared (fun _ => False) s s.
Proof. split; [apply evolves_refl|]. split; [done|]. apply list_eq. intros i. rewrite list_lookup_imap. by destruct (dbs s !! i). Qed.

Lemma wp_emptyDb s (Q : server -> Z -> Prop) :
  (forall s' n, evolves s s' -> (forall x, dict_at s' x = None /\ expire_at s' x = None) ->
     slots_to_keys s' = (if cluster_enabled (cfg s) then ∅ else slots_to_keys s) -> Q s' n) -> wp emptyDb s Q.
Proof.
  intros HQ. unfold emptyDb. apply wp_bind, wp_get, wp_bind.
  assert (forall l s1 (D : Z -> Prop) (HD : forall id, Decision (D id)) (Q1 : server -> Z -> Prop), cleared D s s1 -> (forall id, id ∈ l -> 0 <= id < zlen (dbs s)) ->
    (forall s2 n, cleared (fun i => D i \/ i ∈ l) s s2 -> Q1 s2 n) ->
    wp (for_sum (fun id => db ← get_db id; mod_db id clear;; mret (Z.of_nat (base.size (db_dict db)))) l) s1 Q1) as Hloop.
  { induction l as [|id l IH]; intros s1 D HD Q1 HC Hl HQ1; cbn [for_sum].
    - apply wp_ret, HQ1. destruct HC as (? & ? & Hd1). split; [done|]. split; [done|]. rewrite Hd1. apply imap_ext. intros i x _.
      destruct (decide (D (Z.of_nat i))), (decide (D (Z.of_nat i) \/ Z.of_nat i ∈ [])); set_solver.
    - assert (is_Some (rd (dbs s1) id)) as [db Hdb].
      { eapply evolves_db; [apply HC|]. apply rd_lt. apply Hl. set_solver. }
      apply wp_bind, wp_bind, (wp_get_db id db); [done|]. apply wp_bind. eapply wp_clear_db; [done | by eexists|]. intros s2 HC2. apply wp_ret.
      apply wp_bind. eapply IH; [exact HC2 | intros; apply Hl; set_solver |]. intros s3 n (? & ? & Hd3). apply wp_ret, HQ1. split; [done|]. split; [done|].
      rewrite Hd3. apply imap_ext. intros i x _. destruct (decide _), (decide (D (Z.of_nat i) \/ Z.of_nat i ∈ id :: l)); set_solver. }
  eapply Hloop; [apply cleared_start | intros id; rewrite elem_of_seqZ; lia|]. intros s2 n HC2.
  assert (forall x, dict_at s2 x = None /\ expire_at s2 x = None) as Hnone.
  { intros x. destruct (cleared_at _ s s2 x HC2) as [-> ->]. destruct (decide _) as [|Hn]; [done|].
    unfold dict_at, expire_at. destruct (rd (dbs s) x.1) as [db|] eqn:Ed; [|done]. destruct Hn. right. rewrite elem_of_seqZ.
    unfold rd in Ed. destruct (x.1 <? 0) eqn:Ei; [done|]. zbool. apply lookup_lt_Some in Ed. lia. }
  destruct HC2 as (Hev & Hsl & _). apply wp_bind. destruct (cluster_enabled (cfg s)) eqn:Ecl.
  - apply wp_modify, wp_ret, HQ; [eapply evolves_trans; [exact Hev|]; by apply changes_same | apply Hnone | done].
  - by apply wp_ret, wp_ret, HQ.
Qed.

Lemma flushdb_safe P l s : starts P l s -> wp (flushdbCommand c) s (fun s' _ => Inv P s').
Proof.
  intros Hs. pose proof Hs as (HI & Hv & _). unfold flushdbCommand. apply wp_bind. eapply r_dbid; [done..|].
  destruct (inv_db W s0 P s id0 HI Hv) as [db Hdb]. apply wp_bind, (wp_get_db id0 db); [done|].
  apply wp_bind. eapply r_dirty; [done..|]. intros s1 HI1 _. apply wp_bind. eapply r_signal_flushed; [done|]. intros s2 HC2 Hs2 Hf2.
  assert (Inv P s2) as HI2 by (by eapply Inv_quiet). destruct (inv_db W s0 P s2 id0 HI2 Hv) as [db2 Hdb2].
  apply wp_bind. eapply wp_clear_db; [apply cleared_start | by eexists|]. intros s3 HC3. apply wp_bind, wp_get.
  assert (forall s4, evolves s3 s4 -> dbs s4 = dbs s3 -> (cluster_enabled (cfg s3) = true -> slots_to_keys s4 = ∅) -> Inv P s4) as Hfin.
  { intros s4 Hev4 Hd4 Hs4. assert (id0 <> -1) as Hid by (intros Hid; rewrite Hid in Hdb2; done).
    eapply (Inv_flush id0 P s2 s4); [done | eapply evolves_trans; [apply HC3 | done] | | |].
    - intros c' x HW Hfx. rewrite (proj1 (proj2 HC2 x ltac:(set_solver))). by apply Hf2.
    - intros x. assert (dict_at s4 x = dict_at s3 x /\ expire_at s4 x = expire_at s3 x) as [-> ->] by (unfold dict_at, expire_at; by rewrite Hd4).
      destruct (cleared_at _ s2 s3 x HC3) as [-> ->]. unfold flushes. destruct (decide _), (decide (id0 = -1 \/ x.1 = id0)); try done; tauto.
    - rewrite <- (ev_cfg _ _ (proj1 HC3)). intros Hcl. split; [|by apply Hs4]. right. eapply inv_cluster; [exact HI2 | done |]. by rewrite <- (ev_cfg _ _ (proj1 HC3)). }
  apply wp_bind. destruct (cluster_enabled (cfg s3)) eqn:Ecl.
  - apply wp_modify. eapply r_reply; [done | apply (Hfin (upd_slots _ s3)); [by apply changes_same | done..] |]. done.
  - apply wp_ret. eapply r_reply; [done | by apply Hfin; [apply evolves_refl | done |] |]. done.
Qed.

Lemma flushall_safe P l s : starts P l s -> wp (flushallCommand c) s (fun s' _ => Inv P s').
Proof.
  intros Hs. pose proof Hs as (HI & Hv & _). unfold flushallCommand. apply wp_bind. eapply r_signal_flushed; [done|]. intros s2 HC2 Hs2 Hf2.
  assert (Inv P s2) as HI2 by (by eapply Inv_quiet). apply wp_bind, wp_emptyDb. intros s3 n Hev3 Hn3 Hs3.
  assert (Inv P s3) as HI3.
  { eapply (Inv_flush (-1) P s2 s3); [done | done | | |].
    - intros c' x HW Hfx. rewrite (proj1 (proj2 HC2 x ltac:(set_solver))). by apply Hf2.
    - intros x. destruct (Hn3 x) as [-> ->]. rewrite decide_True; [done|]. by left.
    - intros Hcl. rewrite Hcl in Hs3. auto. }
  apply wp_bind. eapply r_dirty; [done..|]. intros s4 HI4 _. apply wp_bind. eapply r_reply; [done..|]. intros s5 HI5 _. eapply r_dirty; [done..|]. done.
Qed.

(** *** MOVE does not signal the keys it moves *)

Definition moved (l : list (list Z)) : gset loc :=
  match l !! 1%nat, l !! 2%nat ≫= read_long with Some k, Some d => {[(id0, k); (d, k)]} | _, _ => ∅ end.

(** Selecting another database and going back. *)
Lemma select_probe d P s (Q : server -> bool -> Prop) : Inv P s ->
  ((d <? 0) || (d >=? zlen (dbs s)) = true -> Q s false) ->
  (0 <= d < zlen (dbs s) -> forall s', wp (c_dbid c) s' (fun s2 d2 => s2 = s' /\ d2 = d) -> wp (selectDb c id0) s' (fun s2 _ => s2 = s) -> Q s' true) ->
  wp (selectDb c d) s Q.
Proof.
  intros HI Hno Hyes. destruct (inv_client W s0 c cl0 Hc P s HI) as (cl & Hcl & (Hid & _)). unfold selectDb at 1. apply wp_bind, wp_get.
  destruct ((d <? 0) || (d >=? zlen (dbs s))) eqn:Ed; [by apply wp_ret, Hno|]. zbool.
  apply wp_bind, (wp_mod_client c cl); [done|]. apply wp_ret, Hyes; [lia | |].
  - apply wp_bind. eapply (wp_get_client c); [apply lookup_insert_eq|]. by apply wp_ret.
  - assert (0 <= id0 < zlen (dbs s)) as Hid0.
    { destruct (ok_clients _ _ (inv_ok _ _ _ _ HI) c cl Hcl) as [db Hdb]. rewrite Hid in Hdb. unfold rd in Hdb.
      destruct (id0 <? 0) eqn:Ei; [done|]. zbool. apply lookup_lt_Some in Hdb. lia. }
    unfold selectDb. apply wp_bind, wp_get. cbn [dbs upd_clients]. zfalse ((id0 <? 0) || (id0 >=? zlen (dbs s))).
    apply wp_bind. eapply wp_mod_client; [apply lookup_insert_eq|]. apply wp_ret. transitivity (upd_clients (fun _ => clients s) s); [|by destruct s].
    unfold upd_clients. cbn. f_equal. rewrite insert_insert_eq. apply insert_id. rewrite Hcl. destruct cl. cbn in *. by rewrite Hid.
Qed.

Lemma move_safe P l s : starts P l s -> (2 < length l)%nat -> wp (moveCommand c) s (fun s' _ => Inv (moved l ∪ P) s').
Proof.
  intros Hs Hl. pose proof Hs as (HI & Hv & _). destruct (lookup_lt_is_Some_2 l 1 ltac:(lia)) as [k Hk]. destruct (lookup_lt_is_Some_2 l 2 Hl) as [a Ha].
  unfold moveCommand. apply wp_bind, wp_get. assert (forall s' r, Inv P s' -> wp (addReply c r) s' (fun s' _ => Inv (moved l ∪ P) s')) as Hreply.
  { intros s' r HI'. eapply r_reply; [done..|]. intros s2 HI2 _. eapply Inv_mono; [|done]. set_solver. }
  destruct (cluster_enabled (cfg s)) eqn:Ecl; [by apply Hreply|].
  apply wp_bind. eapply r_dbid; [done..|]. apply wp_bind, (r_arg_at 1 k P l); [done..|]. apply wp_bind, (r_arg_at 2 a P l); [done..|].
  apply wp_bind. destruct (read_long a) as [d|] eqn:Ed; [|by apply wp_ret, Hreply].
  destruct (_ || _); [by apply wp_ret, Hreply|]. eapply select_probe; [done | by intros _; apply Hreply |]. intros Hd s1 Hdst Hback. cbn [negb].
  apply wp_bind. eapply wp_mono; [exact Hdst|]. intros s2 d2 [-> ->]. apply wp_bind. eapply wp_mono; [exact Hback|]. intros s2 b ->. clear s1 Hdst Hback.
  assert (moved l = {[(id0, k); (d, k)]}) as Hm by (unfold moved; by rewrite Hk, Ha; cbn; rewrite Ed).
  destruct (id0 =? d) eqn:Eid; [by apply Hreply|]. zbool.
  assert (valid_db s0 d) as Hvd.
  { split; [|by rewrite <- (ev_cfg _ _ (inv_evolves _ _ _ _ HI)), Ecl]. destruct (rd_lt (dbs s) d Hd) as [db Hdb].
    pose proof (ev_dbs _ _ (inv_evolves _ _ _ _ HI) d) as H. rewrite Hdb in H. inversion H. eauto. }
  apply wp_bind. eapply r_lookupKeyWrite; [done..|]. intros s1 HI1 _. destruct (dict_at s1 (id0, k)) as [o|] eqn:Eo; [|by apply Hreply].
  pose proof (ok_objects _ _ (inv_ok _ _ _ _ HI1) _ _ Eo) as Hobj.
  apply wp_bind. eapply r_lookupKeyWrite; [done..|]. intros s2 HI2 _. destruct (dict_at s2 (d, k)) as [o2|] eqn:Eo2; [by apply Hreply|].
  apply wp_bind. eapply r_add; [done..|]. intros s3 HI3 _ _ _. apply wp_bind. eapply r_delete; [done..|]. intros s4 HI4 _ _ _.
  apply wp_bind. eapply r_dirty; [done..|]. intros s5 HI5 _. eapply r_reply; [done..|]. intros s6 HI6 _. eapply Inv_mono; [|exact HI6]. rewrite Hm. set_solver.
Qed.

End Commands.
