(* ===== verification/SetCmd.v ===== *)
(** * The commands on sets (t_set.c)

    The set a command works on stays in the database while it works: a pointer
    to it is the key it was found at, and an operation on it reads the
    object at the key and stores it back ([on_set]).  A key that has gone
    in the meantime leaves no object: such an access has no result.

    The arguments of the client, which stay what they are, are read before
    anything else.  The temporary set of a union, difference or intersection is a plain value. *)
From Stdlib Require Import Lia ZArith String.
From stdpp Require Import base numbers list tactics option gmap fin_maps fin_sets sets.
From S2P Require Import Prelude Util Intset Dict DictIter Object SetType Server Pubsub Crc Db.

#[local] Open Scope Z_scope.

Inductive set_operation := REDIS_OP_UNION | REDIS_OP_DIFF.
#[global] Instance set_operation_dec : EqDecision set_operation.
Proof. solve_decision. Defined.

Section SetCmd.
(** [int_encoded]: does the object that holds an element of a table hold it as
    an integer?  The model keeps the text only. *)
Context `{E : Env} (int_encoded : list Z -> bool).

#[local] Abbreviation set_add := (setTypeAdd env_can_resize env_finger env_max_intset env_junk).
#[local] Abbreviation set_remove := (setTypeRemove env_can_resize env_junk).

Definition on_set {A} (id : Z) (h : key) (f : setobj -> option (setobj * A)) : M A :=
  db ← get_db id;
  match db_dict db !! h with
  | Some (OSet s) => '(s, a) ← lift (f s); mod_db id (with_dict (<[h := OSet s]>));; mret a
  | _ => fail
  end.

Definition set_size (id : Z) (h : key) : M Z := on_set id h (fun s => Some (s, setTypeSize s)).
Definition is_member (id : Z) (h : key) (v : list Z) : M bool := on_set id h (fun s => setTypeIsMember s v).

(** [while ((encoding = setTypeNext(si,&eleobj,&intobj)) != -1) { body }] and the release. *)
Fixpoint set_loop {A} (fuel : nat) (id : Z) (h : key) (si : setTypeIterator) (body : A -> setele -> M A) (a : A) : M A :=
  match fuel with
  | O => fail
  | S fuel =>
      '(si, e) ← on_set id h (fun s => '(s, si, e) ← setTypeNext env_finger s si; Some (s, (si, e)));
      match e with
      | None => on_set id h (fun s => s ← setTypeReleaseIterator env_finger s si; Some (s, tt));; mret a
      | Some e => a ← body a e; set_loop fuel id h si body a
      end
  end.

(** The loop with its [setTypeInitIterator]: one round per element and the last. *)
Definition set_iterate {A} (id : Z) (h : key) (body : A -> setele -> M A) (a : A) : M A :=
  n ← set_size id h;
  si ← on_set id h (fun s => Some (s, setTypeInitIterator s));
  set_loop (S (Z.to_nat n)) id h si body a.

(** The elements of a set that is not in a database. *)
Definition local_elements (s : setobj) : M (list (list Z)) :=
  '(_, l) ← lift (set_objects env_finger (S (Z.to_nat (setTypeSize s))) s (setTypeInitIterator s)); mret l.

(** ** One set *)

Definition saddCommand (c : cid) : M unit :=
  id ← c_dbid c;
  k ← arg c 1;
  first ← arg c 2;
  l ← args_from c 2;
  set ← lookupKeyWrite id k;
  go_on ← (match set with
    | None => dbAdd id k (OSet (setTypeCreate first));; mret true
    | Some o => if decide (obj_type o = REDIS_SET) then mret true else addReply c ErrWrongType;; mret false
    end);
  if negb go_on then mret tt else
  added ← for_sum (fun v => b ← on_set id k (fun s => set_add s v); mret (count b)) l;
  (if negb (added =? 0) then
    signalModifiedKey id k;;
    notifyKeyspaceEvent REDIS_NOTIFY_SET (bytes_of "sadd") k id
  else mret tt);;
  add_dirty added;;
  addReply c (Integer added).

(** How many were deleted, and whether the key was. *)
Fixpoint srem_loop (id : Z) (k : key) (l : list (list Z)) : M (Z * bool) :=
  match l with
  | [] => mret (0, false)
  | v :: l =>
      b ← on_set id k (fun s => set_remove s v);
      if (b : bool) then
        n ← set_size id k;
        if n =? 0 then dbDelete id k;; mret (1, true)
        else '(deleted, keyremoved) ← srem_loop id k l; mret (deleted + 1, keyremoved)
      else srem_loop id k l
  end.

Definition sremCommand (c : cid) : M unit :=
  id ← c_dbid c;
  k ← arg c 1;
  l ← args_from c 2;
  set ← lookupKeyWriteOrReply c k (Integer 0);
  match set with
  | None => mret tt
  | Some o =>
      wrong ← checkType c o REDIS_SET;
      if (wrong : bool) then mret tt else
      '(deleted, keyremoved) ← srem_loop id k l;
      (if negb (deleted =? 0) then
        signalModifiedKey id k;;
        notifyKeyspaceEvent REDIS_NOTIFY_SET (bytes_of "srem") k id;;
        (if (keyremoved : bool) then notifyKeyspaceEvent REDIS_NOTIFY_GENERIC (bytes_of "del") k id else mret tt);;
        add_dirty deleted
      else mret tt);;
      addReply c (Integer deleted)
  end.

Definition smoveCommand (c : cid) : M unit :=
  id ← c_dbid c;
  src ← arg c 1;
  dst ← arg c 2;
  ele ← arg c 3;
  srcset ← lookupKeyWrite id src;
  dstset ← lookupKeyWrite id dst;
  match srcset with
  | None => addReply c (Integer 0)
  | Some so =>
      wrong ← checkType c so REDIS_SET;
      wrong ← (if (wrong : bool) then mret true else match dstset with Some o => checkType c o REDIS_SET | None => mret false end);
      if (wrong : bool) then mret tt else
      if decide (src = dst) then
        (match dstset with Some _ => b ← is_member id src ele; addReply c (Integer (count b)) | None => fail end)
      else
      b ← on_set id src (fun s => set_remove s ele);
      if negb b then addReply c (Integer 0) else
      notifyKeyspaceEvent REDIS_NOTIFY_SET (bytes_of "srem") src id;;
      n ← set_size id src;
      (if n =? 0 then
        dbDelete id src;;
        notifyKeyspaceEvent REDIS_NOTIFY_GENERIC (bytes_of "del") src id
      else mret tt);;
      signalModifiedKey id src;;
      signalModifiedKey id dst;;
      add_dirty 1;;
      (match dstset with None => dbAdd id dst (OSet (setTypeCreate ele)) | Some _ => mret tt end);;
      b ← on_set id dst (fun s => set_add s ele);
      (if (b : bool) then
        add_dirty 1;;
        notifyKeyspaceEvent REDIS_NOTIFY_SET (bytes_of "sadd") dst id
      else mret tt);;
      addReply c (Integer 1)
  end.

Definition sismemberCommand (c : cid) : M unit :=
  id ← c_dbid c;
  k ← arg c 1;
  v ← arg c 2;
  set ← lookupKeyReadOrReply c k (Integer 0);
  match set with
  | None => mret tt
  | Some o =>
      wrong ← checkType c o REDIS_SET;
      if (wrong : bool) then mret tt else
      b ← is_member id k v;
      addReply c (Integer (count b))
  end.

Definition scardCommand (c : cid) : M unit :=
  id ← c_dbid c;
  k ← arg c 1;
  set ← lookupKeyReadOrReply c k (Integer 0);
  match set with
  | None => mret tt
  | Some o =>
      wrong ← checkType c o REDIS_SET;
      if (wrong : bool) then mret tt else
      n ← set_size id k;
      addReply c (Integer n)
  end.

(** ** Several sets *)

(** [int] results of differences of [unsigned long]s. *)
Definition size_in (db : redisDb) (h : key) : Z := match db_dict db !! h with Some (OSet s) => setTypeSize s | _ => 0 end.
Definition qsortCompareSetsByCardinality (db : redisDb) (h1 h2 : key) : Z := s32 (size_in db h1 - size_in db h2).
Definition qsortCompareSetsByRevCardinality (db : redisDb) (o1 o2 : option key) : Z :=
  s32 ((match o2 with Some h => size_in db h | None => 0 end) - (match o1 with Some h => size_in db h | None => 0 end)).

(** The result becomes the value of the destination key, which is deleted when
    the result is empty. *)
Definition store_result (c : cid) (id : Z) (dstkey : key) (dstset : setobj) (event : list Z) : M unit :=
  deleted ← dbDelete id dstkey;
  (if setTypeSize dstset >? 0 then
    dbAdd id dstkey (OSet dstset);;
    addReply c (Integer (setTypeSize dstset));;
    notifyKeyspaceEvent REDIS_NOTIFY_SET event dstkey id
  else
    addReply c (Integer 0);;
    (if (deleted : bool) then notifyKeyspaceEvent REDIS_NOTIFY_GENERIC (bytes_of "del") dstkey id else mret tt));;
  signalModifiedKey id dstkey;;
  add_dirty 1.

(** *** Intersection *)

(** Where the length of a reply will be written. *)
Definition addDeferredMultiBulkLength (c : cid) : M nat :=
  cl ← get_client c; addReply c Deferred;; mret (length (c_reply cl)).
Definition setDeferredMultiBulkLength (c : cid) (node : nat) (length : Z) : M unit :=
  mod_client c (fun cl => with_reply (<[node := MultiBulkLen length]> (c_reply cl)) cl).

Definition lookup_set (id : Z) (store : bool) (k : key) : M (option obj) :=
  if store then lookupKeyWrite id k else lookupKeyRead id k.

(** The sets to intersect; [None] when the command is done: a key does not exist
    or holds no set. *)
Fixpoint inter_lookup (c : cid) (id : Z) (dstkey : option key) (setkeys : list key) : M (option (list key)) :=
  match setkeys with
  | [] => mret (Some [])
  | k :: setkeys =>
      o ← lookup_set id (bool_decide (is_Some dstkey)) k;
      match o with
      | None =>
          (match dstkey with
           | Some dst =>
               b ← dbDelete id dst;
               (if (b : bool) then signalModifiedKey id dst;; add_dirty 1 else mret tt);;
               addReply c (Integer 0)
           | None => addReply c (MultiBulkLen 0)
           end);;
          mret None
      | Some o =>
          wrong ← checkType c o REDIS_SET;
          if (wrong : bool) then mret None else
          r ← inter_lookup c id dstkey setkeys;
          mret (option_map (cons k) r)
      end
  end.

(** Is an element of the first set in another set? *)
Definition inter_contains (id : Z) (h : key) (e : setele) : M bool :=
  match e with
  | EleInt intobj => on_set id h (fun s =>
      match s with
      | INTSET iset => r ← intsetFind iset intobj; Some (s, r)
      | HT _ => setTypeIsMember s (Dec.dec intobj)
      end)
  | EleObj eleobj => on_set id h (fun s =>
      match s, (if int_encoded eleobj then representable eleobj else None) with
      | INTSET iset, Some v => r ← intsetFind iset v; if negb r then Some (s, false) else setTypeIsMember s eleobj
      | _, _ => setTypeIsMember s eleobj
      end)
  end.

(** [for (j = 1; j < setnum; j++)]: did it run to the end? *)
Fixpoint inter_all (id : Z) (first : key) (e : setele) (sets : list key) : M bool :=
  match sets with
  | [] => mret true
  | h :: sets =>
      if decide (h = first) then inter_all id first e sets else
      b ← inter_contains id h e;
      if (b : bool) then inter_all id first e sets else mret false
  end.

Definition inter_round (c : cid) (id : Z) (first : key) (others : list key) (acc : option setobj * Z) (e : setele) : M (option setobj * Z) :=
  all ← inter_all id first e others;
  let '(dstset, cardinality) := acc in
  if negb all then mret acc else
  match dstset with
  | None => addReply c (Bulk (ele_text e));; mret (None, cardinality + 1)
  | Some d => '(d, _) ← lift (set_add d (ele_text e)); mret (Some d, cardinality)
  end.

Definition sinterGenericCommand (c : cid) (setkeys : list key) (dstkey : option key) : M unit :=
  id ← c_dbid c;
  sets ← inter_lookup c id dstkey setkeys;
  match sets with
  | None => mret tt
  | Some sets =>
      db ← get_db id;
      let sets := env_qsort (qsortCompareSetsByCardinality db) sets in
      match sets with
      | [] => fail
      | first :: others =>
          match dstkey with
          | None =>
              replylen ← addDeferredMultiBulkLength c;
              '(_, cardinality) ← set_iterate id first (inter_round c id first others) (None, 0);
              setDeferredMultiBulkLength c replylen cardinality
          | Some dst =>
              '(dstset, _) ← set_iterate id first (inter_round c id first others) (Some createIntsetObject, 0);
              dstset ← lift dstset;
              store_result c id dst dstset (bytes_of "sinterstore")
          end
      end
  end.

Definition sinterCommand (c : cid) : M unit := l ← args_from c 1; sinterGenericCommand c l None.
Definition sinterstoreCommand (c : cid) : M unit := l ← args_from c 2; dst ← arg c 1; sinterGenericCommand c l (Some dst).

(** *** Union and difference *)

(** A missing key is an empty set; [None] when a key holds no set. *)
Fixpoint union_lookup (c : cid) (id : Z) (store : bool) (setkeys : list key) : M (option (list (option key))) :=
  match setkeys with
  | [] => mret (Some [])
  | k :: setkeys =>
      o ← lookup_set id store k;
      match o with
      | None => r ← union_lookup c id store setkeys; mret (option_map (cons None) r)
      | Some o =>
          wrong ← checkType c o REDIS_SET;
          if (wrong : bool) then mret None else
          r ← union_lookup c id store setkeys;
          mret (option_map (cons (Some k)) r)
      end
  end.

(** Adding everything to the temporary set, and counting. *)
Definition add_round (acc : setobj * Z) (e : setele) : M (setobj * Z) :=
  '(d, b) ← lift (set_add acc.1 (ele_text e)); mret (d, acc.2 + count b).
Definition remove_round (acc : setobj * Z) (e : setele) : M (setobj * Z) :=
  '(d, b) ← lift (set_remove acc.1 (ele_text e)); mret (d, acc.2 - count b).

Fixpoint union_loop (id : Z) (sets : list (option key)) (acc : setobj * Z) : M (setobj * Z) :=
  match sets with
  | [] => mret acc
  | None :: sets => union_loop id sets acc
  | Some h :: sets => acc ← set_iterate id h add_round acc; union_loop id sets acc
  end.

(** Algorithm 1: is the element in none of the other sets? *)
Fixpoint diff_none (id : Z) (first : key) (ele : list Z) (sets : list (option key)) : M bool :=
  match sets with
  | [] => mret true
  | None :: sets => diff_none id first ele sets
  | Some h :: sets =>
      if decide (h = first) then mret false else
      b ← is_member id h ele;
      if (b : bool) then mret false else diff_none id first ele sets
  end.

Definition diff_round (id : Z) (first : key) (others : list (option key)) (acc : setobj * Z) (e : setele) : M (setobj * Z) :=
  b ← diff_none id first (ele_text e) others;
  if (b : bool) then '(d, _) ← lift (set_add acc.1 (ele_text e)); mret (d, acc.2 + 1) else mret acc.

(** Algorithm 2, after the first set: remove, and stop when nothing is left. *)
Fixpoint diff_loop (id : Z) (sets : list (option key)) (acc : setobj * Z) : M (setobj * Z) :=
  match sets with
  | [] => mret acc
  | None :: sets => diff_loop id sets acc
  | Some h :: sets =>
      acc ← set_iterate id h remove_round acc;
      if acc.2 =? 0 then mret acc else diff_loop id sets acc
  end.

(** [algo_one_work] and [algo_two_work]. *)
Definition diff_work (db : redisDb) (first : key) (sets : list (option key)) : Z * Z :=
  foldr (fun o w => match o with None => w | Some h => (size_in db first + w.1, size_in db h + w.2) end) (0, 0) sets.

Definition diff_algo (db : redisDb) (first : key) (sets : list (option key)) : Z :=
  let '(algo_one_work, algo_two_work) := diff_work db first sets in
  if Z.quot algo_one_work 2 <=? algo_two_work then 1 else 2.

Definition compute_diff (id : Z) (sets : list (option key)) : M (setobj * Z) :=
  match sets with
  | Some first :: others =>
      db ← get_db id;
      if diff_algo db first sets =? 1 then
        let others := if zlen sets >? 1 then env_qsort (qsortCompareSetsByRevCardinality db) others else others in
        set_iterate id first (diff_round id first others) (createIntsetObject, 0)
      else
        acc ← set_iterate id first add_round (createIntsetObject, 0);
        if acc.2 =? 0 then mret acc else diff_loop id others acc
  | _ => mret (createIntsetObject, 0)
  end.

Definition sunionDiffGenericCommand (c : cid) (setkeys : list key) (dstkey : option key) (op : set_operation) : M unit :=
  id ← c_dbid c;
  sets ← union_lookup c id (bool_decide (is_Some dstkey)) setkeys;
  match sets with
  | None => mret tt
  | Some sets =>
      '(dstset, cardinality) ← (if decide (op = REDIS_OP_UNION) then union_loop id sets (createIntsetObject, 0) else compute_diff id sets);
      match dstkey with
      | None =>
          addReply c (MultiBulkLen cardinality);;
          l ← local_elements dstset;
          for_each (fun ele => addReply c (Bulk ele)) l
      | Some dst => store_result c id dst dstset (bytes_of (if decide (op = REDIS_OP_UNION) then "sunionstore" else "sdiffstore"))
      end
  end.

Definition sunionCommand (c : cid) : M unit := l ← args_from c 1; sunionDiffGenericCommand c l None REDIS_OP_UNION.
Definition sunionstoreCommand (c : cid) : M unit := l ← args_from c 2; dst ← arg c 1; sunionDiffGenericCommand c l (Some dst) REDIS_OP_UNION.
Definition sdiffCommand (c : cid) : M unit := l ← args_from c 1; sunionDiffGenericCommand c l None REDIS_OP_DIFF.
Definition sdiffstoreCommand (c : cid) : M unit := l ← args_from c 2; dst ← arg c 1; sunionDiffGenericCommand c l (Some dst) REDIS_OP_DIFF.

End SetCmd.
