(* ===== verification/SetCmdOk.v ===== *)
(** * Proof rules for the commands on sets

    [reads] relates states with the same values: looking into a set may rehash a
    table, which is no change of the set.  The rules follow the functions of
    [SetCmd.v] up to the loops over the elements of a set; the results of a union,
    difference or intersection are the sets of their names. *)
From Stdlib Require Import Lia ZArith String.
From stdpp Require Import base numbers list tactics option gmap fin_maps fin_sets sets.
From S2P Require Import Prelude Util Intset Dict DictRep DictIter Object Glob SetType Server Pubsub Crc Db DbOk DbRules DbCommands SetCmd.

#[local] Open Scope Z_scope.

(** Same values and expirations everywhere. *)
Definition reads `{E : Env} (s s' : server) : Prop :=
  evolves s s' /\ forall x, val_at s' x = val_at s x /\ expire_at s' x = expire_at s x.

#[export] Instance reads_preorder `{E : Env} : PreOrder reads.
Proof.
  split; [intros s; split; [apply evolves_refl | done]|]. intros s1 s2 s3 [H1 H2] [K1 K2]. split; [by eapply evolves_trans|].
  intros x. destruct (H2 x), (K2 x). split; congruence.
Qed.

Lemma changes_reads `{E : Env} s s' : changes ∅ s s' -> reads s s'.
Proof. intros [He Hx]. split; [done|]. intros x. unfold val_at. by destruct (Hx x ltac:(set_solver)) as [-> ->]. Qed.

#[export] Hint Resolve changes_reads : core.

(** The set at a key. *)
Definition holds `{E : Env} (s : server) (x : loc) (X : gset (list Z)) : Prop := val_at s x = Some (VSet X).

Lemma holds_reads `{E : Env} s s' x X : reads s s' -> holds s x X -> holds s' x X.
Proof. unfold holds. by intros [_ Hx] <-; destruct (Hx x) as [-> _]. Qed.

#[local] Abbreviation card X := (Z.of_nat (base.size X)).

Lemma card_add (X : gset (list Z)) v : card ({[v]} ∪ X) = card X + count (bool_decide (v ∉ X)).
Proof.
  case_bool_decide as Hin; cbn [count].
  - rewrite size_union, size_singleton by set_solver. lia.
  - assert ({[v]} ∪ X = X) as -> by set_solver. lia.
Qed.
Lemma card_remove (X : gset (list Z)) v : card (X ∖ {[v]}) = card X - count (bool_decide (v ∈ X)).
Proof.
  case_bool_decide as Hin; cbn [count].
  - rewrite size_difference, size_singleton by set_solver. pose proof (subseteq_size {[v]} X ltac:(set_solver)) as Hs. rewrite size_singleton in Hs. lia.
  - assert (X ∖ {[v]} = X) as -> by set_solver. lia.
Qed.

Section Rules.
Context `{E : Env} (W : gset (cid * loc)) (s0 : server) (c : cid) (cl0 : redisClient) (Hc : clients s0 !! c = Some cl0).
#[local] Abbreviation Inv := (Inv W s0).
Context (id : Z) (Hv : valid_db s0 id).
Implicit Types (P : gset loc) (s : server) (k h : key) (X Y : gset (list Z)) (st d : setobj).

Lemma Inv_reads P s s' : Inv P s -> reads s s' -> server_ok W s' -> Inv P s'.
Proof.
  intros [H1 H2 H3] [Hev Hx] Hok. constructor; [done | by eapply evolves_trans|]. intros c' x Hin.
  destruct (H3 c' x Hin) as [Hf|[HP|Hu]]; [left; by eapply flagged_evolves | by right; left|]. right. right.
  unfold undisturbed in *. by destruct (Hx x) as [-> ->].
Qed.

(** An object at a key, with its set. *)
Lemma holds_inv P s h X : Inv P s -> holds s (id, h) X -> exists st, dict_at s (id, h) = Some (OSet st) /\ set_rep st X.
Proof.
  unfold holds, val_at. intros HI H. destruct (dict_at s (id, h)) as [[st|]|] eqn:Ed; [|done..]. cbn in H. injection H as <-.
  exists st. split; [done|]. by apply (ok_objects _ _ (inv_ok _ _ _ _ HI) _ _ Ed).
Qed.

Lemma holds_set s h st X : dict_at s (id, h) = Some (OSet st) -> set_rep st X -> holds s (id, h) X.
Proof. unfold holds, val_at. intros -> Hs. cbn. by rewrite (set_of_rep st X Hs). Qed.

Lemma set_rep_ok st X : set_rep st X -> obj_ok (OSet st).
Proof. intros Hs. unfold obj_ok. by rewrite (set_of_rep st X Hs). Qed.

(** An operation on the set at a key. *)
Lemma r_on_set {A} h (f : setobj -> option (setobj * A)) st st' a X' P s (Q : server -> A -> Prop) : Inv P s ->
  dict_at s (id, h) = Some (OSet st) -> f st = Some (st', a) -> set_rep st' X' ->
  (forall s', Inv ({[(id, h)]} ∪ P) s' -> changes {[(id, h)]} s s' -> dict_at s' (id, h) = Some (OSet st') ->
     expire_at s' (id, h) = expire_at s (id, h) -> clients s' = clients s -> Q s' a) -> wp (on_set id h f) s Q.
Proof.
  intros HI Hd Hf Hst' HQ. destruct (inv_db W s0 P s id HI Hv) as [db Hdb]. destruct (dict_at_db s id db h Hdb) as [Hd0 He0].
  unfold on_set. apply wp_bind, (wp_get_db id db); [done|]. rewrite Hd in Hd0. rewrite <- Hd0. apply wp_bind, (wp_lift _ (st', a)); [done|]. cbn beta iota.
  apply wp_bind, (wp_mod_db id db); [done|]. set (s' := upd_dbs _ s). apply wp_ret.
  destruct (changes_db s id db (with_dict (<[h := OSet st']>) db) {[(id, h)]} Hdb eq_refl) as [HC Hat].
  { intros k' Hk'. cbn. rewrite lookup_insert_ne by set_solver. done. }
  destruct (Hat h) as [Hd1 He1]. cbn in Hd1, He1. rewrite lookup_insert_eq in Hd1. rewrite <- He0 in He1. apply HQ; [|done..].
  eapply (Inv_set W s0 c cl0 Hc id h (OSet st')); [done | done | by eapply set_rep_ok | done | done |].
  intros Hcl. destruct (slot_total h) as [sl Hsl]. exists sl. split; [done|]. cbn.
  assert ((sl, h) ∈ slots_to_keys s); [|set_solver]. apply (proj1 (ok_slots _ _ (inv_ok _ _ _ _ HI) Hcl)).
  split; [|done]. rewrite <- (inv_cluster W s0 P s id HI Hv Hcl), Hd. eauto.
Qed.

Lemma r_update_set {A} h (f : setobj -> option (setobj * A)) (a : A) X X' P s (Q : server -> A -> Prop) : Inv P s -> holds s (id, h) X ->
  (forall st, set_rep st X -> exists st', f st = Some (st', a) /\ set_rep st' X') ->
  (forall s', Inv ({[(id, h)]} ∪ P) s' -> changes {[(id, h)]} s s' -> holds s' (id, h) X' -> expire_at s' (id, h) = expire_at s (id, h) ->
     clients s' = clients s -> Q s' a) -> wp (on_set id h f) s Q.
Proof.
  intros HI Hh Hf HQ. destruct (holds_inv P s h X HI Hh) as (st & Hd & Hs). destruct (Hf st Hs) as (st' & Hst & Hs').
  eapply r_on_set; [done | done | done | done |]. intros s' H1 H2 H3 H4 H5. apply HQ; try done. by eapply holds_set.
Qed.

Lemma changes_held s s' h X : changes {[(id, h)]} s s' -> holds s (id, h) X -> holds s' (id, h) X ->
  expire_at s' (id, h) = expire_at s (id, h) -> reads s s'.
Proof.
  clear Hc Hv. intros [Hev Hx] H1 H2 He. split; [done|]. intros x. destruct (decide (x = (id, h))) as [->|]; [unfold holds in *; by rewrite H1, H2|].
  unfold val_at. by destruct (Hx x ltac:(set_solver)) as [-> ->].
Qed.

(** An operation that only looks: every other object is untouched. *)
Lemma r_read_set {A} h (f : setobj -> option (setobj * A)) st st' (a : A) X P s (Q : server -> A -> Prop) : Inv P s ->
  dict_at s (id, h) = Some (OSet st) -> set_rep st X -> f st = Some (st', a) -> set_rep st' X ->
  (forall s', Inv P s' -> reads s s' -> (forall x, x <> (id, h) -> dict_at s' x = dict_at s x) -> dict_at s' (id, h) = Some (OSet st') ->
     clients s' = clients s -> Q s' a) -> wp (on_set id h f) s Q.
Proof.
  intros HI Hd Hs Hf Hs' HQ. eapply r_on_set; [done | done | done | exact Hs' |]. intros s' HI' HC Hd' He Hcl.
  assert (reads s s') as HR by (eapply (changes_held s s' h X); [done | by eapply holds_set | by eapply holds_set | done]).
  apply HQ; [eapply Inv_reads; [exact HI | done | apply HI'] | done | | done | done].
  intros x Hx. apply HC. set_solver.
Qed.

Lemma r_size h X P s (Q : server -> Z -> Prop) : Inv P s -> holds s (id, h) X ->
  (forall s', Inv P s' -> reads s s' -> (forall x, dict_at s' x = dict_at s x) -> clients s' = clients s -> Q s' (Z.of_nat (base.size X))) ->
  wp (set_size id h) s Q.
Proof.
  intros HI Hh HQ. destruct (holds_inv P s h X HI Hh) as (st & Hd & Hs). eapply (r_read_set h _ st st); [done | done | done | by rewrite (rep_size _ _ Hs) | done |].
  intros s' H1 H2 H3 H4 H5. apply HQ; try done. intros x. destruct (decide (x = (id, h))) as [->|]; [congruence | auto].
Qed.

Lemma r_member h v X P s (Q : server -> bool -> Prop) : Inv P s -> holds s (id, h) X ->
  (forall s', Inv P s' -> reads s s' -> (forall x, x <> (id, h) -> dict_at s' x = dict_at s x) -> clients s' = clients s -> Q s' (bool_decide (v ∈ X))) ->
  wp (is_member id h v) s Q.
Proof.
  intros HI Hh HQ. destruct (holds_inv P s h X HI Hh) as (st & Hd & Hs). destruct (set_member st X v Hs) as (st' & Hm & Hs').
  eapply (r_read_set h _ st st'); [done | done | done | exact Hm | done |]. intros s' H1 H2 H3 H4 H5. by apply HQ.
Qed.

(** *** The loop over the elements of a set *)

Definition ele_ok (e : setele) : Prop := match e with EleInt v => in_s64 v | EleObj _ => True end.

Lemma elems_ok st es e : set_elems st es -> e ∈ es -> ele_ok e.
Proof.
  intros [iset l Hr|d Hd]; [|by intros (x & -> & _)%list_elem_of_fmap]. intros (v & -> & Hin)%list_elem_of_fmap.
  pose proof (rep_s64 iset l Hr) as Hl. rewrite Forall_forall in Hl. by apply Hl.
Qed.

Section Iterate.
Context {A : Type} (h : key) (body : A -> setele -> M A) (st : setobj) (X : gset (list Z)) (J : list (list Z) -> A -> server -> Prop).
Context (P : gset loc) (s : server).
Context (Hst : set_rep st X) (Hheld : dict_at s (id, h) = Some (OSet st)).
Context (Hstable : forall pre a s1 s2, clients s2 = clients s1 -> J pre a s1 -> J pre a s2).
Context (Hbody : forall pre e a s1, Inv P s1 -> reads s s1 -> ele_text e ∈ X -> ele_ok e -> ele_text e ∉ pre -> J pre a s1 ->
  wp (body a e) s1 (fun s2 a' => Inv P s2 /\ reads s1 s2 /\ dict_at s2 (id, h) = dict_at s1 (id, h) /\ J (pre ++ [ele_text e]) a' s2)).

Lemma r_set_loop es : forall fuel si pre a s1 (Q : server -> A -> Prop), iter_at env_finger st si es -> (length es < fuel)%nat ->
  NoDup (pre ++ (ele_text <$> es)) -> (forall e, e ∈ es -> ele_text e ∈ X /\ ele_ok e) -> Inv P s1 -> reads s s1 -> dict_at s1 (id, h) = Some (OSet st) -> J pre a s1 ->
  (forall s2 a', Inv P s2 -> reads s s2 -> J (pre ++ (ele_text <$> es)) a' s2 -> Q s2 a') -> wp (set_loop fuel id h si body a) s1 Q.
Proof using All.
  induction es as [|e es IH]; intros [|fuel] si pre a s1 Q Hit Hf Hnd Hin HI1 HR1 Hd1 HJ HQ; cbn [length] in Hf; try lia; cbn [set_loop];
    destruct (next_spec env_finger st si _ Hit) as (si' & Hnext & Hrest); apply wp_bind;
    (eapply (r_read_set h _ st st); [done | done | done | by rewrite Hnext | done |]); intros s2 HI2 HR2 _ Hd2 Hcl2; cbn beta iota.
  - cbn [head]. apply wp_bind. eapply (r_read_set h _ st st); [done | done | done | by rewrite Hrest | done |].
    intros s3 HI3 HR3 _ _ Hcl3. apply wp_ret, HQ; [done | by etrans; [|etrans] |]. cbn. rewrite app_nil_r.
    eapply Hstable; [|exact HJ]. congruence.
  - cbn [head tail] in *. apply wp_bind. eapply wp_mono; [eapply (Hbody pre e a s2); [done | by etrans | apply Hin; set_solver | apply Hin; set_solver | | by eapply Hstable]|].
    { apply NoDup_app in Hnd as (_ & Hnd & _). intros Hp. destruct (Hnd _ Hp). set_solver. }
    cbn beta. intros s3 a' (HI3 & HR3 & Hd3 & HJ3). eapply (IH fuel si' (pre ++ [ele_text e])); [done | lia | rewrite <- app_assoc; exact Hnd | intros; apply Hin; set_solver | done | by etrans; [|etrans] | congruence | exact HJ3 |].
    intros s4 a4 HI4 HR4 HJ4. apply HQ; [done..|]. by rewrite fmap_cons, cons_middle, app_assoc.
Qed.

Lemma r_set_iterate a (Q : server -> A -> Prop) : Inv P s -> J [] a s ->
  (forall s' a' es, Inv P s' -> reads s s' -> NoDup es -> (forall v, v ∈ es <-> v ∈ X) -> J es a' s' -> Q s' a') -> wp (set_iterate id h body a) s Q.
Proof using All.
  intros HI HJ HQ. unfold set_iterate. apply wp_bind. eapply r_size; [done | by eapply holds_set |]. intros s1 HI1 HR1 Hd1 Hcl1.
  apply wp_bind. eapply (r_read_set h _ st st); [done | by rewrite Hd1 | done | done | done |]. intros s2 HI2 HR2 _ Hd2 Hcl2.
  destruct Hst as (es & Hes & HX). eapply (r_set_loop es _ _ []); [by apply init_iter | | by eapply elems_nodup | | done | by etrans | done | eapply Hstable; [|exact HJ]; congruence |].
  - rewrite <- (rep_size st X Hst), (rep_elems_size _ _ Hes). lia.
  - intros e He. split; [|by eapply elems_ok]. rewrite HX, elem_of_list_to_set. by apply list_elem_of_fmap_2.
  - intros s3 a' HI3 HR3 HJ3. eapply HQ; [done | done | by eapply elems_nodup | | exact HJ3]. intros v. by rewrite HX, elem_of_list_to_set.
Qed.

End Iterate.

(** *** Union, difference, intersection *)

#[local] Abbreviation set_add := (setTypeAdd env_can_resize env_finger env_max_intset env_junk).
#[local] Abbreviation set_remove := (setTypeRemove env_can_resize env_junk).

(** The set at a key, empty when there is none. *)
Definition gset_at s h : gset (list Z) := match val_at s (id, h) with Some (VSet X) => X | _ => ∅ end.
Definition opt_set s (o : option key) : gset (list Z) := match o with Some h => gset_at s h | None => ∅ end.
Definition is_set s (o : option key) : Prop := match o with Some h => holds s (id, h) (gset_at s h) | None => True end.

Lemma gset_reads s s' h : reads s s' -> gset_at s' h = gset_at s h.
Proof. intros [_ Hx]. unfold gset_at. by destruct (Hx (id, h)) as [-> _]. Qed.
Lemma opt_set_reads s s' o : reads s s' -> opt_set s' o = opt_set s o.
Proof. destruct o; [apply gset_reads | done]. Qed.
Lemma is_set_reads s s' o : reads s s' -> is_set s o -> is_set s' o.
Proof. destruct o; [|done]. cbn. intros HR H. rewrite (gset_reads s s' _ HR). by eapply holds_reads. Qed.
Lemma is_sets_reads s s' l : reads s s' -> Forall (is_set s) l -> Forall (is_set s') l.
Proof. intros HR H. eapply Forall_impl; [exact H|]. intros o. by apply is_set_reads. Qed.
Lemma unions_reads s s' l : reads s s' -> ⋃ (opt_set s' <$> l) = ⋃ (opt_set s <$> l).
Proof. intros HR. f_equal. apply list_fmap_ext. intros i o _. by apply opt_set_reads. Qed.

Definition small X : Prop := card X + 1 < 2 ^ 29.
Lemma small_mono X Y : X ⊆ Y -> small Y -> small X.
Proof. unfold small. intros H%subseteq_size ?. lia. Qed.

Lemma wp_add_round d X n e s (Q : server -> setobj * Z -> Prop) : set_rep d X -> small X -> n = card X ->
  (forall d', set_rep d' ({[ele_text e]} ∪ X) -> Q s (d', card ({[ele_text e]} ∪ X))) -> wp (add_round (d, n) e) s Q.
Proof.
  intros Hd Hs -> HQ. destruct (SetType.set_add env_can_resize env_finger env_max_intset env_junk d X (ele_text e) Hd Hs) as (d' & Ha & Hd').
  unfold add_round. apply wp_bind. eapply wp_lift; [exact Ha|]. cbn beta iota delta [fst snd]. apply wp_ret. rewrite <- card_add. by apply HQ.
Qed.

Lemma wp_remove_round d X n e s (Q : server -> setobj * Z -> Prop) : set_rep d X -> small X -> n = card X ->
  (forall d', set_rep d' (X ∖ {[ele_text e]}) -> Q s (d', card (X ∖ {[ele_text e]}))) -> wp (remove_round (d, n) e) s Q.
Proof.
  intros Hd Hs -> HQ. destruct (SetType.set_remove env_can_resize env_junk d X (ele_text e) Hd ltac:(unfold small in Hs; lia)) as (d' & Ha & Hd').
  unfold remove_round. apply wp_bind. eapply wp_lift; [exact Ha|]. cbn beta iota delta [fst snd]. apply wp_ret. rewrite <- card_remove. by apply HQ.
Qed.

(** What a computation over sets keeps: the values, and all that clients see. *)
Definition computed P s (R : gset (list Z)) (s' : server) (acc : setobj * Z) : Prop :=
  Inv P s' /\ reads s s' /\ clients s' = clients s /\ set_rep acc.1 R /\ acc.2 = card R.

Lemma r_add_all h D d P s : Inv P s -> is_set s (Some h) -> set_rep d D -> small (gset_at s h ∪ D) ->
  wp (set_iterate id h (add_round) (d, card D)) s (computed P s (gset_at s h ∪ D)).
Proof.
  intros HI Hh Hd Hsm. destruct (holds_inv P s h _ HI Hh) as (st & Hst & Hrep). set (X := gset_at s h) in *.
  eapply (r_set_iterate h _ st X (fun pre acc s1 => list_to_set pre ⊆ X /\ set_rep acc.1 (list_to_set pre ∪ D) /\ acc.2 = card (list_to_set pre ∪ D) /\
    clients s1 = clients s) P s); [done | done | | | done | |].
  - intros pre acc s1 s2 Hcl (H1 & H2 & H3 & H4). by rewrite Hcl.
  - intros pre e [d1 n] s1 HI1 HR1 He _ _ (Hpre & Hd1 & Hn & Hcl). cbn [fst snd] in *.
    eapply (wp_add_round d1 (list_to_set pre ∪ D)); [done | eapply small_mono; [|exact Hsm]; set_solver | done |]. intros d' Hd'.
    assert (list_to_set (pre ++ [ele_text e]) ∪ D = {[ele_text e]} ∪ (list_to_set pre ∪ D)) as Heq by set_solver.
    split_and!; [done | done | done | set_solver | by rewrite Heq | by rewrite Heq | done].
  - cbn [list_to_set fst snd]. rewrite union_empty_l_L. split_and!; [set_solver | done..].
  - intros s' [d' n] es HI' HR' _ Hes (_ & Hd' & Hn & Hcl). cbn [fst snd] in *.
    assert (list_to_set es = X) as Hx by (apply set_eq; intros v; by rewrite elem_of_list_to_set). rewrite Hx in *. by split_and!.
Qed.

Lemma r_remove_all h D d P s : Inv P s -> is_set s (Some h) -> set_rep d D -> small D ->
  wp (set_iterate id h (remove_round) (d, card D)) s (computed P s (D ∖ gset_at s h)).
Proof.
  intros HI Hh Hd Hsm. destruct (holds_inv P s h _ HI Hh) as (st & Hst & Hrep). set (X := gset_at s h) in *.
  eapply (r_set_iterate h _ st X (fun pre acc s1 => set_rep acc.1 (D ∖ list_to_set pre) /\ acc.2 = card (D ∖ list_to_set pre) /\
    clients s1 = clients s) P s); [done | done | | | done | |].
  - intros pre acc s1 s2 Hcl (H1 & H2 & H3). by rewrite Hcl.
  - intros pre e [d1 n] s1 HI1 HR1 He _ _ (Hd1 & Hn & Hcl). cbn [fst snd] in *.
    eapply (wp_remove_round d1 (D ∖ list_to_set pre)); [done | eapply small_mono; [|exact Hsm]; set_solver | done |]. intros d' Hd'.
    assert (D ∖ list_to_set (pre ++ [ele_text e]) = (D ∖ list_to_set pre) ∖ {[ele_text e]}) as Heq by set_solver.
    split_and!; [done | done | done | by rewrite Heq | by rewrite Heq | done].
  - cbn [list_to_set fst snd]. rewrite difference_empty_L. by split_and!.
  - intros s' [d' n] es HI' HR' _ Hes (Hd' & Hn & Hcl). cbn [fst snd] in *.
    assert (list_to_set es = X) as Hx by (apply set_eq; intros v; by rewrite elem_of_list_to_set). rewrite Hx in *. by split_and!.
Qed.

Lemma computed_trans P s s1 s2 R R' a a' : computed P s R s1 a -> computed P s1 R' s2 a' -> computed P s R' s2 a'.
Proof. intros (H1 & H2 & H3 & _) (K1 & K2 & K3 & K4 & K5). split_and!; [done | by etrans | congruence | done..]. Qed.

Lemma computed_refl P s R d : Inv P s -> set_rep d R -> computed P s R s (d, card R).
Proof. intros HI Hd. by split_and!. Qed.

Lemma r_union_loop sets : forall D d P s, Inv P s -> Forall (is_set s) sets -> set_rep d D -> small (⋃ (opt_set s <$> sets) ∪ D) ->
  wp (union_loop id sets (d, card D)) s (computed P s (⋃ (opt_set s <$> sets) ∪ D)).
Proof.
  induction sets as [|[h|] sets IH]; intros D d P s HI Hsets Hd Hsm; cbn [union_loop].
  - apply wp_ret. cbn. rewrite union_empty_l_L. by apply computed_refl.
  - apply Forall_cons_1 in Hsets as [Hh Hsets]. rewrite fmap_cons in *. cbn [union_list foldr opt_set] in *. apply wp_bind. eapply wp_mono.
    { apply (r_add_all h D d P s); [done..|]. eapply small_mono; [|exact Hsm]. set_solver. }
    intros s1 [d1 n1] HC1. pose proof HC1 as (HI1 & HR1 & _ & Hd1 & Hn1). cbn [fst snd] in *. rewrite Hn1.
    assert (⋃ (opt_set s1 <$> sets) ∪ (gset_at s h ∪ D) = gset_at s h ∪ ⋃ (opt_set s <$> sets) ∪ D) as Heq by (rewrite (unions_reads _ _ _ HR1); set_solver).
    eapply wp_mono; [apply (IH (gset_at s h ∪ D)); [done | by eapply is_sets_reads | done | by rewrite Heq]|]. intros s2 acc HC2. rewrite Heq in HC2.
    by eapply computed_trans.
  - apply Forall_cons_1 in Hsets as [_ Hsets]. rewrite fmap_cons in *. cbn [union_list foldr opt_set] in *. rewrite union_empty_l_L in *. by apply IH.
Qed.

(** Algorithm 1. *)
Lemma r_diff_none first v sets : forall P s (Q : server -> bool -> Prop), Inv P s -> Forall (is_set s) sets -> v ∈ gset_at s first ->
  (forall s', Inv P s' -> reads s s' -> dict_at s' (id, first) = dict_at s (id, first) -> clients s' = clients s ->
     Q s' (bool_decide (v ∉ ⋃ (opt_set s <$> sets)))) -> wp (diff_none id first v sets) s Q.
Proof.
  induction sets as [|[h|] sets IH]; intros P s Q HI Hsets Hv1 HQ; cbn [diff_none].
  - apply wp_ret. rewrite bool_decide_eq_true_2 in HQ by set_solver. by apply HQ.
  - apply Forall_cons_1 in Hsets as [Hh Hsets]. rewrite fmap_cons in HQ. cbn [union_list foldr opt_set] in HQ. destruct (decide (h = first)) as [->|Hne].
    + apply wp_ret. rewrite bool_decide_eq_false_2 in HQ by set_solver. by apply HQ.
    + apply wp_bind. eapply r_member; [done | exact Hh |]. intros s1 HI1 HR1 Hfr1 Hcl1. assert (dict_at s1 (id, first) = dict_at s (id, first)) as Hd1 by (apply Hfr1; naive_solver).
      destruct (bool_decide (v ∈ gset_at s h)) eqn:Hin; [apply bool_decide_eq_true in Hin | apply bool_decide_eq_false in Hin].
      * apply wp_ret. rewrite bool_decide_eq_false_2 in HQ by set_solver. by apply HQ.
      * eapply IH; [done | by eapply is_sets_reads | by rewrite (gset_reads _ _ _ HR1) |]. intros s2 HI2 HR2 Hd2 Hcl2. rewrite (unions_reads _ _ _ HR1).
        assert (bool_decide (v ∉ ⋃ (opt_set s <$> sets)) = bool_decide (v ∉ gset_at s h ∪ ⋃ (opt_set s <$> sets))) as -> by (apply bool_decide_ext; set_solver).
        apply HQ; [done | by etrans | congruence..].
  - apply Forall_cons_1 in Hsets as [_ Hsets]. rewrite fmap_cons in HQ. cbn [union_list foldr opt_set] in HQ. rewrite union_empty_l_L in HQ. by eapply IH.
Qed.

Lemma r_diff_one first others P s : Inv P s -> is_set s (Some first) -> Forall (is_set s) others -> small (gset_at s first) ->
  wp (set_iterate id first (diff_round id first others) (createIntsetObject, 0)) s (computed P s (gset_at s first ∖ ⋃ (opt_set s <$> others))).
Proof.
  intros HI Hf Ho Hsm. destruct (holds_inv P s first _ HI Hf) as (st & Hst & Hrep). set (X := gset_at s first) in *. set (U := ⋃ (opt_set s <$> others)).
  eapply (r_set_iterate first _ st X (fun pre acc s1 => list_to_set pre ⊆ X /\ set_rep acc.1 (list_to_set pre ∖ U) /\
    acc.2 = card (list_to_set pre ∖ U) /\ clients s1 = clients s) P s); [done | done | | | done | |].
  - intros pre acc s1 s2 Hcl (H1 & H2 & H3 & H4). by rewrite Hcl.
  - intros pre e [d1 n] s1 HI1 HR1 He _ Hnew (Hpre & Hd1 & Hn & Hcl). cbn [fst snd] in *. unfold diff_round. apply wp_bind.
    eapply r_diff_none; [done | by eapply is_sets_reads | by rewrite (gset_reads _ _ _ HR1) |]. intros s2 HI2 HR2 Hd2 Hcl2. rewrite (unions_reads _ _ _ HR1). fold U.
    assert (list_to_set (pre ++ [ele_text e]) ⊆ X) as Hpre' by set_solver. case_bool_decide as Hin; [apply wp_bind|].
    + destruct (SetType.set_add env_can_resize env_finger env_max_intset env_junk d1 (list_to_set pre ∖ U) (ele_text e) Hd1) as (d' & Ha & Hd').
      { apply (small_mono _ X); [set_solver | done]. }
      eapply wp_lift; [exact Ha|]. cbn beta iota delta [fst snd]. apply wp_ret.
      assert (list_to_set (pre ++ [ele_text e]) ∖ U = {[ele_text e]} ∪ list_to_set pre ∖ U) as Heq by set_solver.
      split_and!; [done | done | done | done | by rewrite Heq | | cbn; congruence]. cbn. rewrite Heq, card_add, bool_decide_eq_true_2 by set_solver. by rewrite Hn.
    + apply wp_ret. assert (list_to_set (pre ++ [ele_text e]) ∖ U = list_to_set pre ∖ U) as Heq by set_solver.
      split_and!; [done | done | done | done | by rewrite Heq | by rewrite Heq | congruence].
  - cbn [list_to_set fst snd]. assert (∅ ∖ U = (∅ : gset (list Z))) as -> by set_solver. split_and!; [set_solver | exact (rep_int _ _ intsetNew_rep) | done | done].
  - intros s' [d' n] es HI' HR' _ Hes (_ & Hd' & Hn & Hcl). cbn [fst snd] in *.
    assert (list_to_set es = X) as Hx by (apply set_eq; intros v; by rewrite elem_of_list_to_set). rewrite Hx in *. by split_and!.
Qed.

(** Algorithm 2, after the first set. *)
Lemma r_diff_loop sets : forall D d P s, Inv P s -> Forall (is_set s) sets -> set_rep d D -> small D ->
  wp (diff_loop id sets (d, card D)) s (computed P s (D ∖ ⋃ (opt_set s <$> sets))).
Proof.
  induction sets as [|[h|] sets IH]; intros D d P s HI Hsets Hd Hsm; cbn [diff_loop].
  - apply wp_ret. cbn. rewrite difference_empty_L. by apply computed_refl.
  - apply Forall_cons_1 in Hsets as [Hh Hsets]. rewrite fmap_cons in *. cbn [union_list foldr opt_set] in *. apply wp_bind. eapply wp_mono; [by apply r_remove_all|].
    intros s1 [d1 n1] HC1. pose proof HC1 as (HI1 & HR1 & _ & Hd1 & Hn1). cbn [fst snd] in *.
    assert ((D ∖ gset_at s h) ∖ ⋃ (opt_set s1 <$> sets) = D ∖ (gset_at s h ∪ ⋃ (opt_set s <$> sets))) as Heq by (rewrite (unions_reads _ _ _ HR1); set_solver).
    destruct (n1 =? 0) eqn:E0; zbool.
    + apply wp_ret. assert (D ∖ gset_at s h = ∅) as He by (apply leibniz_equiv, size_empty_inv; lia).
      assert (D ∖ (gset_at s h ∪ ⋃ (opt_set s <$> sets)) = D ∖ gset_at s h) as -> by set_solver. exact HC1.
    + rewrite Hn1. eapply wp_mono; [apply (IH (D ∖ gset_at s h)); [done | by eapply is_sets_reads | done | eapply small_mono; [|exact Hsm]; set_solver]|].
      intros s2 acc HC2. rewrite Heq in HC2. by eapply computed_trans.
  - apply Forall_cons_1 in Hsets as [_ Hsets]. rewrite fmap_cons in *. cbn [union_list foldr opt_set] in *. rewrite union_empty_l_L in *. by apply IH.
Qed.

Definition first_set s (sets : list (option key)) : gset (list Z) := match sets with Some h :: _ => gset_at s h | _ => ∅ end.

Lemma r_compute_diff sets P s : Inv P s -> Forall (is_set s) sets -> small (first_set s sets) ->
  wp (compute_diff id sets) s (computed P s (first_set s sets ∖ ⋃ (opt_set s <$> drop 1 sets))).
Proof.
  intros HI Hsets Hsm. pose proof (rep_int _ _ intsetNew_rep : set_rep createIntsetObject ∅) as Hempty. destruct sets as [|[first|] others]; cbn [compute_diff first_set drop] in *.
  - apply wp_ret. assert (∅ ∖ ⋃ (opt_set s <$> []) = (∅ : gset (list Z))) as -> by set_solver. by apply computed_refl.
  - apply Forall_cons_1 in Hsets as [Hf Ho]. destruct (inv_db W s0 P s id HI Hv) as [db Hdb]. apply wp_bind, (wp_get_db id db); [done|].
    rewrite drop_0. destruct (_ =? 1).
    + set (l := if zlen (Some first :: others) >? 1 then env_qsort (qsortCompareSetsByRevCardinality db) others else others).
      assert (l ≡ₚ others) as Hp by (subst l; destruct (_ >? 1); [apply env_qsort_perm | done]).
      assert (⋃ (opt_set s <$> others) = ⋃ (opt_set s <$> l)) as ->.
      { apply set_eq. intros v. rewrite !elem_of_union_list. setoid_rewrite list_elem_of_fmap. split; intros (Y & (o & -> & Hin) & Hvin); exists (opt_set s o); (split; [exists o; split; [done|]|done]); by rewrite ?Hp in * || rewrite <- Hp. }
      apply r_diff_one; [done | done | by rewrite Hp | done].
    + apply wp_bind. pose proof (r_add_all first ∅ _ P s HI Hf Hempty) as Hadd. rewrite union_empty_r_L in Hadd.
      eapply wp_mono; [by apply Hadd|]. intros s1 [d1 n1] HC1. pose proof HC1 as (HI1 & HR1 & _ & Hd1 & Hn1). cbn [fst snd] in *.
      destruct (n1 =? 0) eqn:E0; zbool.
      * apply wp_ret. assert (gset_at s first = ∅) as He by (apply leibniz_equiv, size_empty_inv; lia). rewrite He in *.
        assert (∅ ∖ ⋃ (opt_set s <$> others) = (∅ : gset (list Z))) as -> by set_solver. exact HC1.
      * rewrite Hn1. eapply wp_mono; [apply (r_diff_loop others (gset_at s first)); [done | by eapply is_sets_reads | done | done]|].
        intros s2 acc HC2. rewrite (unions_reads _ _ _ HR1) in HC2. by eapply computed_trans.
  - apply wp_ret. assert (∅ ∖ ⋃ (opt_set s <$> drop 0 others) = (∅ : gset (list Z))) as -> by set_solver. by apply computed_refl.
Qed.

Context (int_encoded : list Z -> bool).

Lemma r_inter_contains h e X P s (Q : server -> bool -> Prop) : Inv P s -> holds s (id, h) X -> ele_ok e ->
  (forall s', Inv P s' -> reads s s' -> (forall x, x <> (id, h) -> dict_at s' x = dict_at s x) -> clients s' = clients s -> Q s' (bool_decide (ele_text e ∈ X))) ->
  wp (inter_contains int_encoded id h e) s Q.
Proof.
  intros HI Hh He HQ. destruct (holds_inv P s h X HI Hh) as (st & Hd & Hs). destruct (set_member st X (ele_text e) Hs) as (st' & Hm & Hs').
  assert (forall f, f st = Some (st', bool_decide (ele_text e ∈ X)) -> wp (on_set id h f) s Q) as Hop.
  { intros f Hf. eapply (r_read_set h f st st'); [done | done | done | exact Hf | done |]. intros s' H1 H2 H3 H4 H5. by apply HQ. }
  destruct e as [v|t]; cbn [inter_contains ele_text] in *; apply Hop; [|by destruct st, (if int_encoded t then representable t else None) eqn:Er;
    [|done..]; destruct (int_encoded t); [|done]; unfold setTypeIsMember in *; rewrite Er in *; destruct (intsetFind iset z) as [[]|]].
  destruct st as [iset|d]; [|exact Hm]. unfold setTypeIsMember in Hm. by rewrite (proj2 (representable_spec (Dec.dec v) v) (conj He eq_refl)) in Hm.
Qed.

Lemma r_inter_all first e others : forall P s (Q : server -> bool -> Prop), Inv P s -> Forall (fun h => is_set s (Some h)) others -> ele_ok e ->
  ele_text e ∈ gset_at s first ->
  (forall s', Inv P s' -> reads s s' -> dict_at s' (id, first) = dict_at s (id, first) -> clients s' = clients s ->
     Q s' (bool_decide (Forall (fun h => ele_text e ∈ gset_at s h) others))) -> wp (inter_all int_encoded id first e others) s Q.
Proof.
  induction others as [|h others IH]; intros P s Q HI Hsets He Hin HQ; cbn [inter_all].
  { apply wp_ret. rewrite bool_decide_eq_true_2 in HQ by constructor. by apply HQ. }
  apply Forall_cons_1 in Hsets as [Hh Hsets]. destruct (decide (h = first)) as [->|Hne].
  - eapply IH; [done..|]. intros s' H1 H2 H3 H4. rewrite (bool_decide_ext _ (Forall (fun h => ele_text e ∈ gset_at s h) (first :: others))) by (rewrite Forall_cons; naive_solver).
    by apply HQ.
  - apply wp_bind. eapply r_inter_contains; [done | exact Hh | done |]. intros s1 HI1 HR1 Hfr1 Hcl1.
    assert (dict_at s1 (id, first) = dict_at s (id, first)) as Hd1 by (apply Hfr1; naive_solver).
    destruct (bool_decide (ele_text e ∈ gset_at s h)) eqn:Hb; [apply bool_decide_eq_true in Hb | apply bool_decide_eq_false in Hb].
    + eapply IH; [done | | done | by rewrite (gset_reads _ _ _ HR1) |].
      { eapply Forall_impl; [exact Hsets|]. intros h'. by apply (is_set_reads s s1 (Some h')). }
      intros s2 HI2 HR2 Hd2 Hcl2. rewrite (bool_decide_ext _ (Forall (fun h => ele_text e ∈ gset_at s h) (h :: others))).
      * apply HQ; [done | by etrans | congruence..].
      * rewrite Forall_cons, !Forall_forall. setoid_rewrite (gset_reads s s1 _ HR1). naive_solver.
    + apply wp_ret. rewrite bool_decide_eq_false_2 in HQ by (rewrite Forall_cons; naive_solver). by apply HQ.
Qed.

Definition in_all s (others : list key) (v : list Z) : Prop := Forall (fun h => v ∈ gset_at s h) others.

(** Intersection into a set that will be stored. *)
Lemma r_inter_store first others P s : Inv P s -> is_set s (Some first) -> Forall (fun h => is_set s (Some h)) others -> small (gset_at s first) ->
  wp (set_iterate id first (inter_round int_encoded c id first others) (Some createIntsetObject, 0)) s
    (fun s' acc => exists d, acc.1 = Some d /\ computed P s (filter (in_all s others) (gset_at s first)) s' (d, setTypeSize d)).
Proof.
  intros HI Hf Ho Hsm. destruct (holds_inv P s first _ HI Hf) as (st & Hst & Hrep). set (X := gset_at s first) in *.
  eapply (r_set_iterate first _ st X (fun pre acc s1 => list_to_set pre ⊆ X /\ (exists d, acc.1 = Some d /\ set_rep d (filter (in_all s others) (list_to_set pre : gset (list Z)))) /\
    clients s1 = clients s) P s); [done | done | | | done | |].
  - intros pre acc s1 s2 Hcl (H1 & H2 & H3). by rewrite Hcl.
  - intros pre e [o n] s1 HI1 HR1 He Hok _ (Hpre & (d & Hd & Hrd) & Hcl). cbn [fst] in Hd. subst o. unfold inter_round. apply wp_bind.
    eapply r_inter_all; [done | eapply Forall_impl; [exact Ho|]; intros h'; by apply (is_set_reads s s1 (Some h')) | done | by rewrite (gset_reads _ _ _ HR1) |].
    intros s2 HI2 HR2 Hd2 Hcl2. assert (Forall (fun h => ele_text e ∈ gset_at s1 h) others <-> in_all s others (ele_text e)) as Hall.
    { unfold in_all. rewrite !Forall_forall. by setoid_rewrite (gset_reads s s1 _ HR1). }
    assert (list_to_set (pre ++ [ele_text e]) ⊆ X) as Hpre' by set_solver. case_bool_decide as Hin; cbn [negb]; rewrite Hall in Hin.
    + destruct (SetType.set_add env_can_resize env_finger env_max_intset env_junk d _ (ele_text e) Hrd) as (d' & Ha & Hd').
      { apply (small_mono _ X); [set_solver | done]. }
      apply wp_bind. eapply wp_lift; [exact Ha|]. cbn beta iota. apply wp_ret.
      assert (filter (in_all s others) (list_to_set (pre ++ [ele_text e]) : gset (list Z)) = {[ele_text e]} ∪ filter (in_all s others) (list_to_set pre)) as Heq.
      { apply set_eq. intros v. rewrite elem_of_union, !elem_of_filter, !elem_of_list_to_set, elem_of_app, list_elem_of_singleton, elem_of_singleton. naive_solver. }
      split_and!; [done | done | done | done | exists d'; by rewrite Heq | congruence].
    + apply wp_ret. assert (filter (in_all s others) (list_to_set (pre ++ [ele_text e]) : gset (list Z)) = filter (in_all s others) (list_to_set pre)) as Heq.
      { apply set_eq. intros v. rewrite !elem_of_filter, !elem_of_list_to_set, elem_of_app, list_elem_of_singleton. naive_solver. }
      split_and!; [done | done | done | done | exists d; by rewrite Heq | congruence].
  - split_and!; [set_solver | | done]. eexists. split; [done|]. assert (filter (in_all s others) (list_to_set [] : gset (list Z)) = ∅) as -> by set_solver. exact (rep_int _ _ intsetNew_rep).
  - intros s' [o n] es HI' HR' _ Hes (_ & (d & Hd & Hrd) & Hcl). exists d. split; [done|].
    assert (list_to_set es = X) as Hx by (apply set_eq; intros v; by rewrite elem_of_list_to_set). rewrite Hx in *. split_and!; try done. by apply rep_size.
Qed.

(** *** Replies *)

Lemma r_send rs cl P s (Q : server -> unit -> Prop) : Inv P s -> clients s !! c = Some cl ->
  (forall s', Inv P s' -> changes ∅ s s' -> dbs s' = dbs s -> clients s' = <[c := with_reply (c_reply cl ++ rs) cl]> (clients s) -> Q s' tt) ->
  wp (addReplies c rs) s Q.
Proof.
  intros HI Hcl HQ. apply (wp_mod_client c cl); [done|]. set (s1 := upd_clients _ s).
  assert (changes ∅ s s1) as HC; [|apply HQ; [by eapply Inv_quiet | done..]].
  apply (changes_client s c cl); [done | | done..]. destruct (client_evolves_refl cl) as (? & ? & ? & ?). by repeat split.
Qed.

(** What the client has been sent. *)
Definition sent_to s (l : list reply) : Prop := exists cl, clients s !! c = Some cl /\ c_reply cl = l.

Lemma r_reply_sent rs l P s (Q : server -> unit -> Prop) : Inv P s -> sent_to s l ->
  (forall s', Inv P s' -> changes ∅ s s' -> dbs s' = dbs s -> sent_to s' (l ++ rs) -> Q s' tt) -> wp (addReplies c rs) s Q.
Proof.
  intros HI (cl & Hcl & <-) HQ. eapply r_send; [done | done |]. intros s' H1 H2 H3 H4. apply HQ; try done.
  eexists. split; [rewrite H4; apply lookup_insert_eq | done].
Qed.

Lemma dict_at_dbs s s' x : dbs s' = dbs s -> dict_at s' x = dict_at s x.
Proof. unfold dict_at. by intros ->. Qed.

Lemma r_inter_replies first others l P s (Q : server -> option setobj * Z -> Prop) : Inv P s -> is_set s (Some first) ->
  Forall (fun h => is_set s (Some h)) others -> sent_to s l ->
  (forall s' es, Inv P s' -> reads s s' -> NoDup es -> (forall v, v ∈ es <-> v ∈ gset_at s first /\ in_all s others v) ->
     sent_to s' (l ++ (Bulk <$> es)) -> Q s' (None, zlen es)) ->
  wp (set_iterate id first (inter_round int_encoded c id first others) (None, 0)) s Q.
Proof.
  intros HI Hf Ho Hl HQ. destruct (holds_inv P s first _ HI Hf) as (st & Hst & Hrep). set (X := gset_at s first) in *.
  eapply (r_set_iterate first _ st X (fun pre acc s1 => acc = (None, zlen (filter (in_all s others) pre)) /\
    sent_to s1 (l ++ (Bulk <$> filter (in_all s others) pre))) P s); [done | done | | | done | |].
  - unfold sent_to. intros pre acc s1 s2 Hcl (H1 & H2). by rewrite Hcl.
  - intros pre e [o n] s1 HI1 HR1 He Hok _ ([= -> ->] & Hsent). unfold inter_round. apply wp_bind.
    eapply r_inter_all; [done | eapply Forall_impl; [exact Ho|]; intros h'; by apply (is_set_reads s s1 (Some h')) | done | by rewrite (gset_reads _ _ _ HR1) |].
    intros s2 HI2 HR2 Hd2 Hcl2. assert (Forall (fun h => ele_text e ∈ gset_at s1 h) others <-> in_all s others (ele_text e)) as Hall.
    { unfold in_all. rewrite !Forall_forall. by setoid_rewrite (gset_reads s s1 _ HR1). }
    assert (sent_to s2 (l ++ (Bulk <$> filter (in_all s others) pre))) as Hsent2 by (unfold sent_to; by rewrite Hcl2).
    rewrite filter_app. case_bool_decide as Hin; cbn [negb]; rewrite Hall in Hin.
    + rewrite (filter_cons_True _ (ele_text e) []) by done. apply wp_bind. eapply r_reply_sent; [done | exact Hsent2 |]. intros s3 HI3 HC3 Hdb3 Hs3. apply wp_ret.
      split_and!; [done | etrans; [exact HR2 | by apply changes_reads] | by rewrite (dict_at_dbs _ _ _ Hdb3) | rewrite length_app; cbn; repeat f_equal; lia |].
      by rewrite fmap_app, app_assoc.
    + rewrite (filter_cons_False _ (ele_text e) []) by done. apply wp_ret. cbn. rewrite app_nil_r. by split_and!.
  - cbn. rewrite app_nil_r. by split.
  - intros s' acc es HI' HR' Hnd Hes (-> & Hsent). apply HQ; [done | done | by apply NoDup_filter | | done].
    intros v. rewrite list_elem_of_filter, Hes. naive_solver.
Qed.

End Rules.
