(* ===== verification/SetCommands.v ===== *)
(** * What the commands on sets do

    Lookups of several keys, the destination of a stored result, and for every
    command of [SetCmd.v]: it meets no failed assertion and keeps the state
    consistent ([_safe]), and its result is the one of set algebra. *)
From Stdlib Require Import Lia ZArith String.
From stdpp Require Import base numbers list tactics option gmap fin_maps fin_sets sets.
From S2P Require Import Prelude Util Intset Dict DictRep DictIter Object Glob SetType Server Pubsub Crc Db DbOk DbRules DbCommands SetCmd SetCmdOk.

#[local] Open Scope Z_scope.

Lemma wp_and {A} (m : M A) s (Q1 Q2 : server -> A -> Prop) : wp m s Q1 -> wp m s Q2 -> wp m s (fun s' a => Q1 s' a /\ Q2 s' a).
Proof. unfold wp. by destruct (m s) as [[? ?]|]. Qed.

(** Time may have passed: keys outside [L] are as before, and so are the keys
    without expiration; an object can only be gone. *)
Definition ages `{E : Env} (L : gset loc) (s s' : server) : Prop :=
  changes L s s' /\ (forall x, expire_at s x = None -> dict_at s' x = dict_at s x /\ expire_at s' x = None) /\
  forall x o, dict_at s' x = Some o -> dict_at s x = Some o.

Lemma ages_refl `{E : Env} s : ages ∅ s s.
Proof. split; [apply changes_refl | done]. Qed.

Lemma ages_trans `{E : Env} L1 L2 s s1 s2 : ages L1 s s1 -> ages L2 s1 s2 -> ages (L1 ∪ L2) s s2.
Proof.
  intros (H1 & H2 & H3) (K1 & K2 & K3). split; [by eapply changes_trans|]. split; [|auto]. intros x Hx.
  destruct (H2 x Hx) as [Hd He]. destruct (K2 x He) as [Hd' He']. split; congruence.
Qed.

Lemma settled_old `{E : Env} s s' x y o : settled s x s' -> dict_at s' y = Some o -> dict_at s y = Some o.
Proof.
  intros (HC & Hd & _) Hy. destruct (decide (y = x)) as [->|Hne]; [|by rewrite <- (proj1 (proj2 HC y ltac:(set_solver)))].
  rewrite Hd in Hy. by destruct (must_expire s x).
Qed.

Lemma settled_ages `{E : Env} s x s' : settled s x s' -> ages {[x]} s s'.
Proof.
  intros Hs. pose proof Hs as (HC & Hd & He). split; [done|]. split; [|intros y o; by eapply settled_old]. intros y Hy. destruct (decide (y = x)) as [->|Hne].
  - unfold must_expire in *. rewrite Hy in *. done.
  - destruct (proj2 HC y ltac:(set_solver)) as [-> ->]. done.
Qed.

(** A key listed twice must not expire between its two lookups. *)
Fixpoint once `{E : Env} (s : server) (id : Z) (ks : list key) : Prop :=
  match ks with [] => True | k :: ks => (k ∈ ks -> expire_at s (id, k) = None) /\ once s id ks end.

Lemma once_nodup `{E : Env} s id ks : NoDup ks -> once s id ks.
Proof. induction 1; cbn; [done | by split]. Qed.

Lemma once_still `{E : Env} s id ks : (forall k, k ∈ ks -> expire_at s (id, k) = None) -> once s id ks.
Proof. induction ks as [|k ks IH]; intros H; cbn; [done|]. split; [intros; apply H; set_solver | apply IH; intros; apply H; set_solver]. Qed.

Lemma once_ages `{E : Env} L s s' id ks : ages L s s' -> once s id ks -> once s' id ks.
Proof.
  intros (_ & Ha & _). induction ks as [|k ks IH]; cbn; [done|]. intros [H1 H2]. split; [|by apply IH]. intros Hin. by apply Ha, H1.
Qed.

Lemma once_dbs `{E : Env} s s' id ks : dbs s' = dbs s -> once s id ks -> once s' id ks.
Proof.
  intros Hd. induction ks as [|k ks IH]; cbn; [done|]. intros [H1 H2]. split; [|by apply IH]. unfold expire_at. rewrite Hd. exact H1.
Qed.

(** The locations of some keys. *)
Definition locs (id : Z) (ks : list key) : gset loc := list_to_set ((fun k => (id, k)) <$> ks).

Lemma elem_of_locs id ks x : x ∈ locs id ks <-> x.1 = id /\ x.2 ∈ ks.
Proof. unfold locs. rewrite elem_of_list_to_set, list_elem_of_fmap. destruct x as [i k]. cbn. naive_solver. Qed.

Section Commands.
Context `{E : Env} (W : gset (cid * loc)) (s0 : server) (c : cid) (cl0 : redisClient) (Hc : clients s0 !! c = Some cl0).
#[local] Abbreviation Inv := (Inv W s0).
Context (id : Z) (Hv : valid_db s0 id) (int_encoded : list Z -> bool).
Implicit Types (P : gset loc) (s : server) (k h : key) (X Y R : gset (list Z)) (st d : setobj).

Lemma expire_still k P s (Q : server -> bool -> Prop) : Inv P s -> expire_at s (id, k) = None -> Q s false -> wp (expireIfNeeded id k) s Q.
Proof. intros HI He HQ. unfold expireIfNeeded. apply wp_bind. eapply r_getExpire; [done..|]. by rewrite He. Qed.

(** [lookupKeyWrite] or [lookupKeyRead]; without an expiration the clients see nothing. *)
Lemma r_lookup_set store k P s (Q : server -> option obj -> Prop) : Inv P s ->
  (forall s', Inv P s' -> settled s (id, k) s' -> (expire_at s (id, k) = None -> clients s' = clients s) -> Q s' (dict_at s' (id, k))) ->
  wp (lookup_set id store k) s Q.
Proof.
  intros HI HQ. eapply (wp_mono _ _ (fun s' o => (o = dict_at s' (id, k) /\ Inv P s' /\ settled s (id, k) s') /\ (expire_at s (id, k) = None -> clients s' = clients s))).
  - apply wp_and.
    + destruct store; [eapply r_lookupKeyWrite | eapply r_lookupKeyRead]; done.
    + destruct (expire_at s (id, k)) as [w|] eqn:He.
      * eapply (wp_mono _ _ (fun _ _ => True)); [|done]. destruct store; [eapply r_lookupKeyWrite | eapply r_lookupKeyRead]; done.
      * destruct store; (apply wp_bind; eapply expire_still; [done..|]); [|apply wp_bind]; (eapply r_lookupKey; [done..|]); [done|].
        apply wp_bind. by destruct (dict_at s (id, k)); apply wp_modify, wp_ret.
  - cbn beta. intros s' o [(-> & H1 & H2) H3]. by apply HQ.
Qed.


#[local] Abbreviation found := (fun s k o => is_set id s o /\ (o = Some k \/ o = None /\ dict_at s (id, k) = None)).

Lemma found_set s k o : found s k o -> opt_set id s o = gset_at id s k.
Proof. intros [_ [->|[-> Hd]]]; [done|]. cbn. unfold gset_at, val_at. by rewrite Hd. Qed.

Lemma set_object P s k o : Inv P s -> dict_at s (id, k) = Some o -> obj_type o = REDIS_SET -> is_set id s (Some k).
Proof.
  intros HI Hd Ht. pose proof (ok_objects _ _ (inv_ok _ _ _ _ HI) _ _ Hd) as Ho. destruct o as [st|t x]; [|done].
  unfold is_set, holds, gset_at, val_at. by rewrite Hd.
Qed.

(** A key looked up once stays as it was found. *)
Lemma once_head s s1 s2 k ks : settled s (id, k) s1 -> once s id (k :: ks) -> ages (locs id ks) s1 s2 -> dict_at s2 (id, k) = dict_at s1 (id, k).
Proof.
  intros Hs [Hk _] (HC & Ha & _). destruct (decide (k ∈ ks)) as [Hin|Hn].
  - apply Ha. apply (settled_ages _ _ _ Hs). auto.
  - apply HC. rewrite elem_of_locs. naive_solver.
Qed.

Lemma ages_cons s s1 s2 k ks : settled s (id, k) s1 -> ages (locs id ks) s1 s2 -> ages (locs id (k :: ks)) s s2.
Proof. intros Hs Ha. exact (ages_trans _ _ _ _ _ (settled_ages _ _ _ Hs) Ha). Qed.

Lemma r_union_lookup store ks : forall P s (Q : server -> option (list (option key)) -> Prop), Inv P s -> once s id ks ->
  (forall s' r, Inv P s' -> ages (locs id ks) s s' ->
     match r with Some sets => Forall2 (found s') ks sets | None => exists k o, k ∈ ks /\ dict_at s (id, k) = Some o /\ obj_type o <> REDIS_SET end ->
     ((forall k, k ∈ ks -> expire_at s (id, k) = None) -> is_Some r -> clients s' = clients s) -> Q s' r) ->
  wp (union_lookup c id store ks) s Q.
Proof.
  induction ks as [|k ks IH]; intros P s Q HI Honce HQ; cbn [union_lookup].
  { apply wp_ret, HQ; [done | apply ages_refl | constructor | done]. }
  apply wp_bind, (r_lookup_set store k P s _ HI). intros s1 HI1 Hs1 Hcl1.
  assert (forall (f : option key), (forall s2, ages (locs id ks) s1 s2 -> Inv P s2 -> found s2 k f) ->
    wp (r ← union_lookup c id store ks; mret (option_map (cons f) r)) s1 Q) as Hgo.
  { intros f Hf. apply wp_bind, (IH P s1 _ HI1); [eapply once_ages; [by apply settled_ages | apply Honce]|]. intros s2 r HI2 Ha Hr Hcl2. apply wp_ret, HQ.
    - done.
    - by eapply ages_cons.
    - destruct r as [sets|]; cbn; [constructor; auto|]. destruct Hr as (k' & o & Hin & Hd & Ht). exists k', o. split; [set_solver|]. split; [by eapply settled_old | done].
    - intros Hall Hs. rewrite Hcl2, Hcl1; [done | apply Hall; set_solver | | by destruct r; [|destruct Hs]].
      intros k' Hk'. apply (settled_ages _ _ _ Hs1), Hall. set_solver. }
  destruct (dict_at s1 (id, k)) as [o|] eqn:Eo.
  - apply wp_bind. eapply r_checkType; [done | done | |].
    + intros Ht. apply Hgo. intros s2 Ha HI2. split; [|by left]. eapply set_object; [done | by rewrite (once_head s s1 s2 k ks) | done].
    + intros Ht s2 HI2 HC2. apply wp_ret, HQ; [done | | | by intros _ []].
      * split; [eapply changes_mono; [|eapply changes_trans; [apply Hs1 | exact HC2]]; intros x; rewrite elem_of_union, elem_of_singleton, elem_of_locs; set_solver|]. split.
        -- intros x Hx. destruct (proj1 (proj2 (settled_ages _ _ _ Hs1)) x Hx) as [<- <-]. by apply HC2.
        -- intros x o' Hx. eapply settled_old; [done|]. by rewrite <- (proj1 (proj2 HC2 x ltac:(set_solver))).
      * exists k, o. split; [set_solver|]. split; [by eapply settled_old | done].
  - apply Hgo. intros s2 Ha HI2. split; [done|]. right. split; [done|]. by rewrite (once_head s s1 s2 k ks).
Qed.

(** Storing a result. *)
Lemma r_store_result dst d R event P s (Q : server -> unit -> Prop) : Inv P s -> set_rep d R ->
  (forall s', Inv P s' -> changes {[(id, dst)]} s s' -> val_at s' (id, dst) = (if decide (R = ∅) then None else Some (VSet R)) -> expire_at s' (id, dst) = None -> Q s' tt) ->
  wp (store_result c id dst d event) s Q.
Proof.
  intros HI Hd HQ. unfold store_result. apply wp_bind. eapply r_delete; [done..|]. intros s1 HI1 HC1 Hd1 He1. rewrite (rep_size _ _ Hd).
  apply wp_bind. eapply (wp_mono _ _ (fun s' _ => Inv ({[(id, dst)]} ∪ P) s' /\ changes {[(id, dst)]} s s' /\
    val_at s' (id, dst) = (if decide (R = ∅) then None else Some (VSet R)) /\ expire_at s' (id, dst) = None)).
  - assert (forall s2 s3 L, changes L s s2 -> changes ∅ s2 s3 -> changes L s s3) as Hquiet.
    { intros s2 s3 L H1 H2. eapply changes_mono; [|by eapply changes_trans]. set_solver. }
    assert (forall s2 s3, changes ∅ s2 s3 -> val_at s3 (id, dst) = val_at s2 (id, dst) /\ expire_at s3 (id, dst) = expire_at s2 (id, dst)) as Hsame.
    { intros s2 s3 [_ Hx]. unfold val_at. by destruct (Hx (id, dst) ltac:(set_solver)) as [-> ->]. }
    destruct (decide (R = ∅)) as [->|Hne].
    + rewrite size_empty. cbn [Z.of_nat Z.gtb Z.compare]. apply wp_bind. eapply r_reply; [done..|]. intros s2 HI2 HC2.
      assert (val_at s1 (id, dst) = None) as Hv1 by (unfold val_at; by rewrite Hd1).
      destruct (Hsame s1 s2 HC2) as [Hv2 He2]. destruct (bool_decide _).
      * eapply r_notify; [done..|]. intros s3 HI3 HC3. destruct (Hsame s2 s3 HC3) as [Hv3 He3]. split_and!; [done | eauto | congruence..].
      * apply wp_ret. split_and!; [done | eauto | congruence..].
    + assert (Z.of_nat (base.size R) >? 0 = true) as ->.
      { rewrite Z.gtb_ltb. apply Z.ltb_lt. destruct (base.size R) eqn:Es; [|lia]. destruct Hne. by apply leibniz_equiv, size_empty_inv. }
      apply wp_bind. eapply r_add; [done | done | done | by eapply set_rep_ok | done |]. intros s2 HI2 HC2 Hd2 He2.
      assert (Inv ({[(id, dst)]} ∪ P) s2) as HI2' by (eapply Inv_mono; [|exact HI2]; set_solver).
      apply wp_bind. eapply r_reply; [done..|]. intros s3 HI3 HC3. eapply r_notify; [done..|]. intros s4 HI4 HC4.
      destruct (Hsame s2 s3 HC3) as [Hv3 He3]. destruct (Hsame s3 s4 HC4) as [Hv4 He4].
      assert (val_at s2 (id, dst) = Some (VSet R)) as Hv2 by (by eapply holds_set).
      split_and!; [done | | congruence..]. do 2 (eapply Hquiet; [|done]). eapply changes_mono; [|by eapply changes_trans]. set_solver.
  - intros s2 [] (HI2 & HC2 & Hv2 & He2). apply wp_bind. eapply r_signal; [done..|]. intros s3 HI3%Inv_drop HC3. eapply r_dirty; [done..|]. intros s4 HI4 HC4.
    pose proof (changes_trans0 _ _ _ HC3 HC4) as HC5. apply HQ; [done | eapply changes_mono; [|by eapply changes_trans]; set_solver | |].
    + unfold val_at in *. by rewrite (proj1 (proj2 HC5 (id, dst) ltac:(set_solver))).
    + by rewrite (proj2 (proj2 HC5 (id, dst) ltac:(set_solver))).
Qed.

(** *** Room for results *)

#[local] Abbreviation card X := (Z.of_nat (base.size X)).
Definition total s (ks : list key) : Z := foldr (fun k n => card (gset_at id s k) + n) 0 ks.

Lemma gset_ages L s s' k : ages L s s' -> gset_at id s' k ⊆ gset_at id s k.
Proof.
  intros (_ & _ & Ho). unfold gset_at, val_at. specialize (Ho (id, k)). destruct (dict_at s' (id, k)) as [o|]; [|set_solver]. by rewrite (Ho o eq_refl).
Qed.

Lemma cards_nonneg s ks : 0 <= total s ks.
Proof. unfold total. induction ks; cbn; lia. Qed.

Lemma card_union X Y : card (X ∪ Y) <= card X + card Y.
Proof.
  assert (X ∪ Y = X ∪ Y ∖ X) as -> by (apply set_eq; intros v; destruct (decide (v ∈ X)); set_solver).
  rewrite size_union by set_solver. pose proof (subseteq_size (Y ∖ X) Y ltac:(set_solver)). lia.
Qed.

Lemma total_ages L s s' ks : ages L s s' -> total s' ks <= total s ks.
Proof. intros Ha. unfold total. induction ks as [|k ks IH]; cbn; [lia|]. pose proof (subseteq_size _ _ (gset_ages L s s' k Ha)). lia. Qed.

Lemma card_unions s ks : card (⋃ (gset_at id s <$> ks)) <= total s ks.
Proof. unfold total. induction ks as [|k ks IH]; cbn; [rewrite size_empty; lia|]. pose proof (card_union (gset_at id s k) (⋃ (gset_at id s <$> ks))). lia. Qed.

Lemma found_unions s ks sets : Forall2 (found s) ks sets -> ⋃ (opt_set id s <$> sets) = ⋃ (gset_at id s <$> ks) /\ Forall (is_set id s) sets.
Proof.
  induction 1 as [|k o ks sets Hf _ [IH1 IH2]]; [split; [done | constructor]|]. rewrite !fmap_cons. cbn [union_list foldr].
  rewrite (found_set _ _ _ Hf), <- IH1. split; [done|]. constructor; [apply Hf | done].
Qed.

(** *** Union and difference *)

(** What the operation computes from the sets at the keys, in order. *)
Definition set_result (op : set_operation) (Xs : list (gset (list Z))) : gset (list Z) :=
  match op, Xs with REDIS_OP_UNION, _ => ⋃ Xs | REDIS_OP_DIFF, X :: Xs => X ∖ ⋃ Xs | REDIS_OP_DIFF, [] => ∅ end.

Lemma r_compute op sets ks P s : Inv P s -> Forall2 (found s) ks sets -> total s ks + 1 < 2 ^ 29 ->
  wp (if decide (op = REDIS_OP_UNION) then union_loop id sets (createIntsetObject, 0) else compute_diff id sets) s
    (computed W s0 P s (set_result op (gset_at id s <$> ks))).
Proof.
  intros HI Hf Hroom. pose proof (found_unions s ks sets Hf) as [Hu Hsets]. pose proof (card_unions s ks) as Hcard.
  pose proof (rep_int _ _ intsetNew_rep : set_rep createIntsetObject ∅) as Hempty. destruct op; cbn [decide set_result].
  - pose proof (r_union_loop W s0 c cl0 Hc id Hv sets ∅ _ P s HI Hsets Hempty) as H. rewrite union_empty_r_L, Hu in H. apply H. unfold small. lia.
  - destruct Hf as [|k o ks sets Hk Hf].
    + eapply wp_mono; [apply (r_compute_diff W s0 c cl0 Hc id Hv [] P s HI Hsets); by unfold small|]. intros s' acc. cbn.
      by assert (∅ ∖ ∅ = (∅ : gset (list Z))) as -> by set_solver.
    + pose proof (found_set _ _ _ Hk) as Hfirst. pose proof (found_unions s ks sets Hf) as [Hu' _]. rewrite fmap_cons. cbn [set_result].
      eapply wp_mono; [apply (r_compute_diff W s0 c cl0 Hc id Hv (o :: sets) P s HI Hsets)|].
      * unfold small. cbn [total foldr] in Hroom. pose proof (cards_nonneg s ks). assert (first_set id s (o :: sets) ⊆ gset_at id s k) as Hle%subseteq_size.
        { rewrite <- Hfirst. by destruct o. }
        unfold total in *. lia.
      * intros s' acc. cbn [drop]. rewrite drop_0, Hu'. assert (first_set id s (o :: sets) = gset_at id s k) as -> by (rewrite <- Hfirst; by destruct o). done.
Qed.

Lemma r_bulks (es : list (list Z)) : forall l P s, Inv P s -> sent_to c s l ->
  wp (for_each (fun ele => addReply c (Bulk ele)) es) s (fun s' _ => Inv P s' /\ changes ∅ s s' /\ sent_to c s' (l ++ (Bulk <$> es))).
Proof.
  induction es as [|e es IH]; intros l P s HI Hl; cbn [for_each].
  - apply wp_ret. cbn. rewrite app_nil_r. split_and!; [done | apply changes_refl | done].
  - apply wp_bind. eapply r_reply_sent; [done | exact Hl|]. intros s1 HI1 HC1 _ Hl1. eapply wp_mono; [by apply (IH (l ++ [Bulk e]))|].
    intros s2 [] (HI2 & HC2 & Hl2). split_and!; [done | by eapply changes_trans0 |]. rewrite <- app_assoc in Hl2. exact Hl2.
Qed.

Lemma wp_local_elements d R s (Q : server -> list (list Z) -> Prop) : set_rep d R -> (forall es, NoDup es -> list_to_set es = R -> zlen es = card R -> Q s es) ->
  wp (local_elements d) s Q.
Proof.
  intros Hd HQ. pose proof (rep_size d R Hd) as Hsz. destruct Hd as (es & Hes & HR). unfold local_elements. pose proof (rep_elems_size d es Hes) as Hl.
  apply wp_bind. eapply wp_lift; [apply (set_objects_spec env_finger d es); [by apply init_iter | lia]|]. cbn beta iota. apply wp_ret, HQ; [by eapply elems_nodup | done |].
  rewrite length_fmap. lia.
Qed.

Lemma sent_live P s : Inv P s -> exists l, sent_to c s l.
Proof. intros HI. destruct (inv_client W s0 c cl0 Hc P s HI) as (cl & Hcl & _). by exists (c_reply cl), cl. Qed.

(** How the result is delivered: in the reply, or in the destination key. *)
Definition delivered_result (dstkey : option key) R s s' : Prop :=
  match dstkey with
  | None => reads s s' /\ forall l, sent_to c s l -> exists es, NoDup es /\ list_to_set es = R /\ sent_to c s' (l ++ MultiBulkLen (zlen es) :: (Bulk <$> es))
  | Some dst => val_at s' (id, dst) = (if decide (R = ∅) then None else Some (VSet R)) /\ expire_at s' (id, dst) = None /\
      forall x, x <> (id, dst) -> val_at s' x = val_at s x /\ expire_at s' x = expire_at s x
  end.

Lemma delivered_store dst R s s1 s2 : reads s s1 -> changes {[(id, dst)]} s1 s2 -> val_at s2 (id, dst) = (if decide (R = ∅) then None else Some (VSet R)) ->
  expire_at s2 (id, dst) = None -> delivered_result (Some dst) R s s2.
Proof.
  intros [_ HR] [_ HC] H1 H2. split_and!; [done..|]. intros x Hx. destruct (HR x) as [<- <-]. unfold val_at. by destruct (HC x ltac:(set_solver)) as [-> ->].
Qed.

(** No key has an expiration, and none holds anything but a set. *)
Definition plain_sets s (ks : list key) : Prop :=
  forall k, k ∈ ks -> expire_at s (id, k) = None /\ forall o, dict_at s (id, k) = Some o -> obj_type o = REDIS_SET.

Lemma ages_plain s s' ks : ages (locs id ks) s s' -> plain_sets s ks -> reads s s'.
Proof.
  intros ([Hev HC] & Ha & _) Hp. split; [done|]. intros x. unfold val_at. destruct (decide (x ∈ locs id ks)) as [Hx|Hx]; [|by destruct (HC x Hx) as [-> ->]].
  apply elem_of_locs in Hx as [Hid Hk]. destruct x as [i k]. cbn in *. subst i. destruct (Hp k Hk) as [He _]. by destruct (Ha _ He) as [-> ->].
Qed.

Lemma gsets_reads s s' (ks : list key) : reads s s' -> gset_at id s' <$> ks = gset_at id s <$> ks.
Proof. intros HR. apply list_fmap_ext. intros i k _. by apply gset_reads. Qed.

(** SUNION, SDIFF and their storing variants: always safe; on plain sets the
    result is the one of set algebra. *)
Lemma r_sunionDiff (ks : list key) dstkey op P s : c_db cl0 = id -> Inv P s -> once s id ks -> total s ks + 1 < 2 ^ 29 ->
  wp (sunionDiffGenericCommand c ks dstkey op) s (fun s' _ => Inv P s' /\
    (plain_sets s ks -> delivered_result dstkey (set_result op (gset_at id s <$> ks)) s s')).
Proof.
  intros Hid HI Honce Hroom. unfold sunionDiffGenericCommand. apply wp_bind. eapply r_dbid; [done..|]. rewrite Hid. apply wp_bind, (r_union_lookup _ ks P s); [done..|].
  intros s1 r HI1 Ha Hr Hcl1. destruct r as [sets|].
  2:{ apply wp_ret. split; [done|]. intros Hp. destruct Hr as (k & o & Hin & Hd & Ht). by destruct Ht; eapply Hp. }
  pose proof (total_ages _ _ _ ks Ha) as Hroom1. apply wp_bind. eapply wp_mono; [apply (r_compute op sets ks P s1); [done | done | lia]|].
  intros s2 [d n] (HI2 & HR2 & Hcl2 & Hd2 & Hn2). cbn [fst snd] in *.
  assert (plain_sets s ks -> reads s s1 /\ clients s1 = clients s /\ gset_at id s1 <$> ks = gset_at id s <$> ks) as Hplain.
  { intros Hp. assert (reads s s1) as HR1 by (by eapply ages_plain). split; [done|]. split; [|by apply gsets_reads]. apply Hcl1; [intros; by apply Hp | done]. }
  destruct dstkey as [dst|].
  - eapply r_store_result; [done | exact Hd2 |]. intros s3 HI3 HC3 Hv3 He3. split; [done|]. intros Hp. destruct (Hplain Hp) as (HR1 & _ & <-).
    eapply delivered_store; [by etrans | done..].
  - destruct (sent_live P s2 HI2) as [l Hl]. apply wp_bind. eapply r_reply_sent; [done | exact Hl |]. intros s3 HI3 HC3 _ Hl3.
    apply wp_bind. eapply wp_local_elements; [exact Hd2|]. intros es Hnd Hes Hlen. eapply wp_mono; [by apply (r_bulks es (l ++ [MultiBulkLen n]))|].
    intros s4 [] (HI4 & HC4 & Hl4). split; [done|]. intros Hp. destruct (Hplain Hp) as (HR1 & Hcl & Heq). split.
    + etrans; [exact HR1|]. etrans; [exact HR2|]. etrans; by apply changes_reads.
    + intros l0 (cl & Hcl0 & Hl0). destruct Hl as (cl' & Hcl' & Hl'). rewrite Hcl2, Hcl, Hcl0 in Hcl'. injection Hcl' as <-. rewrite Hl0 in Hl'. subst l0.
      exists es. split; [done|]. split; [by rewrite Hes, <- Heq|]. rewrite <- app_assoc, Hn2, <- Hlen in Hl4. exact Hl4.
Qed.

(** *** Intersection *)

Definition inter_list (Xs : list (gset (list Z))) : gset (list Z) :=
  match Xs with [] => ∅ | X :: Xs => filter (fun v => Forall (fun Y => v ∈ Y) Xs) X end.

Lemma elem_of_inter Xs v : v ∈ inter_list Xs <-> Xs <> [] /\ Forall (fun Y => v ∈ Y) Xs.
Proof. clear Hc Hv int_encoded. destruct Xs as [|X Xs]; cbn; [set_solver|]. rewrite elem_of_filter, Forall_cons. naive_solver. Qed.

Lemma inter_perm (ks l : list key) first others s : l = first :: others -> l ≡ₚ ks ->
  filter (in_all id s others) (gset_at id s first) = inter_list (gset_at id s <$> ks).
Proof.
  intros -> Hp. apply set_eq. intros v. rewrite elem_of_inter, elem_of_filter. unfold in_all.
  assert (Forall (fun Y => v ∈ Y) (gset_at id s <$> ks) <-> v ∈ gset_at id s first /\ Forall (fun h => v ∈ gset_at id s h) others) as ->.
  { rewrite Forall_fmap, <- Hp, Forall_cons. done. }
  assert (gset_at id s <$> ks <> []); [|naive_solver]. destruct ks; [by apply Permutation_nil_r in Hp | done].
Qed.

Lemma delivered_reads dstkey R s s1 s2 : reads s s1 -> clients s1 = clients s -> delivered_result dstkey R s1 s2 -> delivered_result dstkey R s s2.
Proof.
  intros HR Hcl. destruct dstkey as [dst|]; cbn.
  - intros (H1 & H2 & H3). split_and!; [done..|]. intros x Hx. destruct (H3 x Hx), (proj2 HR x). split; congruence.
  - intros [H1 H2]. split; [by etrans|]. unfold sent_to in *. by rewrite <- Hcl.
Qed.

Lemma plain_still s k s1 ks : settled s (id, k) s1 -> plain_sets s (k :: ks) -> plain_sets s1 ks /\ reads s s1.
Proof.
  intros Hs Hp. pose proof (settled_ages _ _ _ Hs) as (HC & Ha & Ho). split.
  - intros k' Hin. destruct (Hp k' ltac:(set_solver)) as [He Ht]. destruct (Ha _ He) as [Hd1 He1]. split; [done|]. intros o. rewrite Hd1. apply Ht.
  - eapply (ages_plain s s1 [k]); [|intros k' Hk'; apply Hp; set_solver]. apply (ages_cons s s1 s1 k []); [done | apply ages_refl].
Qed.

(** What a missing key leads to. *)
Lemma inter_missing dstkey P s : Inv P s -> wp (match dstkey with
    | Some dst => b ← dbDelete id dst; (if (b : bool) then signalModifiedKey id dst;; add_dirty 1 else mret tt);; addReply c (Integer 0)
    | None => addReply c (MultiBulkLen 0)
    end) s (fun s' _ => Inv P s' /\ delivered_result dstkey ∅ s s').
Proof.
  intros HI. destruct dstkey as [dst|].
  - apply wp_bind. eapply r_delete; [done..|]. intros s2 HI2 HC2 Hd2 He2.
    assert (forall s3, changes ∅ s2 s3 -> delivered_result (Some dst) ∅ s s3) as Hdone.
    { intros s3 HC3. apply (delivered_store dst ∅ s s); [done | eapply changes_mono; [|by eapply changes_trans]; set_solver | |].
      - unfold val_at. by rewrite (proj1 (proj2 HC3 (id, dst) ltac:(set_solver))), Hd2.
      - by rewrite (proj2 (proj2 HC3 (id, dst) ltac:(set_solver))). }
    apply wp_bind. eapply (wp_mono _ _ (fun s' _ => Inv P s' /\ changes ∅ s2 s')).
    + case_bool_decide as Hd.
      * apply wp_bind. eapply r_signal; [done..|]. intros s3 HI3%Inv_drop HC3. eapply r_dirty; [done..|]. intros s4 HI4 HC4.
        split; [done | by eapply changes_trans0].
      * apply wp_ret. split; [by apply (Inv_absent W s0 P s s2 (id, dst)) | apply changes_refl].
    + intros s3 [] [HI3 HC3]. eapply r_reply; [done..|]. intros s4 HI4 HC4. split; [done|]. apply Hdone. by eapply changes_trans0.
  - destruct (sent_live P s HI) as [l Hl]. eapply r_reply_sent; [done | exact Hl |]. intros s2 HI2 HC2 _ Hl2. split; [done|]. split; [by apply changes_reads|].
    intros l0 Hl0. exists []. split; [constructor|]. split; [done|]. destruct Hl as (cl & Hcl & <-), Hl0 as (cl' & Hcl' & <-). rewrite Hcl in Hcl'. injection Hcl' as <-. done.
Qed.

Lemma r_inter_lookup dstkey ks : forall P s (Q : server -> option (list key) -> Prop), Inv P s -> once s id ks ->
  (forall s', Inv P s' -> (plain_sets s ks -> (exists k, k ∈ ks /\ gset_at id s k = ∅) /\ delivered_result dstkey ∅ s s') -> Q s' None) ->
  (forall s', Inv P s' -> ages (locs id ks) s s' -> Forall (fun k => is_set id s' (Some k)) ks ->
     ((forall k, k ∈ ks -> expire_at s (id, k) = None) -> clients s' = clients s) -> Q s' (Some ks)) ->
  wp (inter_lookup c id dstkey ks) s Q.
Proof.
  induction ks as [|k ks IH]; intros P s Q HI Honce HN HS; cbn [inter_lookup].
  { apply wp_ret, HS; [done | apply ages_refl | constructor | done]. }
  apply wp_bind, (r_lookup_set _ k P s _ HI). intros s1 HI1 Hs1 Hcl1. destruct (dict_at s1 (id, k)) as [o|] eqn:Eo.
  - apply wp_bind. eapply r_checkType; [done | done | |].
    + intros Ht. apply wp_bind, (IH P s1 _ HI1); [eapply once_ages; [by apply settled_ages | apply Honce] | |].
      * intros s2 HI2 H2. apply wp_ret, HN; [done|]. intros Hp. destruct (plain_still _ _ _ _ Hs1 Hp) as [Hp1 HR1]. destruct (H2 Hp1) as [(k' & Hin & He) H]. split.
        -- exists k'. split; [set_solver|]. by rewrite <- (gset_reads id s s1).
        -- eapply delivered_reads; [done | apply Hcl1, Hp; set_solver | done].
      * intros s2 HI2 Ha Hsets Hcl2. apply wp_ret, HS; [done | by eapply ages_cons | |].
        -- constructor; [|done]. eapply set_object; [done | by rewrite (once_head s s1 s2 k ks) | done].
        -- intros Hall. rewrite Hcl2, Hcl1; [done | apply Hall; set_solver |]. intros k' Hk'. apply (settled_ages _ _ _ Hs1), Hall. set_solver.
    + intros Ht s2 HI2 _. apply wp_ret, HN; [done|]. intros Hp. destruct Ht. eapply Hp; [left|]. by eapply settled_old.
  - apply wp_bind. eapply wp_mono; [by apply inter_missing|]. intros s2 [] [HI2 H2]. apply wp_ret, HN; [done|]. intros Hp.
    destruct (plain_still _ _ _ _ Hs1 Hp) as [_ HR1]. split.
    + exists k. split; [left|]. rewrite <- (gset_reads id s s1) by done. unfold gset_at, val_at. by rewrite Eo.
    + eapply delivered_reads; [done | apply Hcl1, Hp; left | done].
Qed.


(** Filling in a deferred length. *)
Lemma r_set_deferred l es n P s (Q : server -> unit -> Prop) : Inv P s -> sent_to c s (l ++ Deferred :: es) ->
  (forall s', Inv P s' -> reads s s' -> sent_to c s' (l ++ MultiBulkLen n :: es) -> Q s' tt) -> wp (setDeferredMultiBulkLength c (length l) n) s Q.
Proof.
  intros HI (cl & Hcl & Hl) HQ. apply (wp_mod_client c cl); [done|]. set (s1 := upd_clients _ s). assert (changes ∅ s s1) as HC.
  { apply (changes_client s c cl); [done | | done..]. destruct (client_evolves_refl cl) as (? & ? & ? & ?). by repeat split. }
  apply HQ; [by eapply Inv_quiet | by apply changes_reads|]. eexists. split; [apply lookup_insert_eq|]. cbn [c_reply with_reply]. rewrite Hl.
  by rewrite insert_app_r_alt, Nat.sub_diag by done.
Qed.

(** SINTER and SINTERSTORE. *)
Lemma r_sinter (ks : list key) dstkey P s : c_db cl0 = id -> Inv P s -> ks <> [] -> once s id ks -> total s ks + 1 < 2 ^ 29 ->
  wp (sinterGenericCommand int_encoded c ks dstkey) s (fun s' _ => Inv P s' /\
    (plain_sets s ks -> delivered_result dstkey (inter_list (gset_at id s <$> ks)) s s')).
Proof.
  intros Hid HI Hne Honce Hroom. unfold sinterGenericCommand. apply wp_bind. eapply r_dbid; [done..|]. rewrite Hid. apply wp_bind, (r_inter_lookup _ ks P s); [done..| |].
  { intros s1 HI1 H1. apply wp_ret. split; [done|]. intros Hp. destruct (H1 Hp) as [(k & Hin & He) Hd].
    replace (inter_list (gset_at id s <$> ks)) with (∅ : gset (list Z)); [done|]. symmetry. apply set_eq. intros v. rewrite elem_of_inter, Forall_fmap, Forall_forall.
    split; [|set_solver]. intros [_ Hall]. specialize (Hall k Hin). cbn in Hall. by rewrite He in Hall. }
  intros s1 HI1 Ha Hsets Hcl1. destruct (inv_db W s0 P s1 id HI1 Hv) as [db Hdb]. apply wp_bind, (wp_get_db id db); [done|].
  set (l := env_qsort _ ks). assert (l ≡ₚ ks) as Hp by apply env_qsort_perm. clearbody l.
  destruct l as [|first others]; [by apply Permutation_nil_l in Hp; subst ks|]. rewrite <- Hp in Hsets. apply Forall_cons_1 in Hsets as [Hf Ho].
  pose proof (total_ages _ _ _ ks Ha) as Hroom1. assert (small (gset_at id s1 first)) as Hsm.
  { assert (first ∈ ks) as Hin by (rewrite <- Hp; left). pose proof (card_unions s1 ks). pose proof (subseteq_size (gset_at id s1 first) (⋃ (gset_at id s1 <$> ks))) as Hle.
    unfold small. specialize (Hle ltac:(intros v Hv'; apply elem_of_union_list; exists (gset_at id s1 first); split; [by apply list_elem_of_fmap_2 | done])). lia. }
  pose proof (inter_perm ks _ first others s1 eq_refl Hp) as Heq1.
  assert (plain_sets s ks -> reads s s1 /\ clients s1 = clients s /\ gset_at id s1 <$> ks = gset_at id s <$> ks) as Hplain.
  { intros Hpl. assert (reads s s1) as HR1 by (by eapply ages_plain). split; [done|]. split; [|by apply gsets_reads]. apply Hcl1. intros. by apply Hpl. }
  destruct dstkey as [dst|].
  - apply wp_bind. eapply wp_mono; [by apply (r_inter_store W s0 c cl0 Hc id Hv int_encoded first others P s1)|].
    intros s2 [o n] (d & Ho2 & HI2 & HR2 & Hcl2 & Hd2 & _). cbn [fst] in *. subst o. apply wp_bind, wp_ret.
    eapply r_store_result; [done | exact Hd2 |]. intros s3 HI3 HC3 Hv3 He3. split; [done|]. intros Hpl. destruct (Hplain Hpl) as (HR1 & _ & <-).
    rewrite <- Heq1. eapply delivered_store; [by etrans | done..].
  - destruct (sent_live P s1 HI1) as [l Hl]. pose proof Hl as (cl & Hcl & Hreply). apply wp_bind. unfold addDeferredMultiBulkLength. apply wp_bind, (wp_get_client c cl); [done|].
    apply wp_bind. eapply r_reply_sent; [done | exact Hl |]. intros s2 HI2 HC2 _ Hl2. apply wp_ret, wp_bind. rewrite Hreply. pose proof (changes_reads _ _ HC2) as HR2.
    eapply (r_inter_replies W s0 c cl0 Hc id Hv); [exact HI2 | by eapply is_set_reads | | exact Hl2 |].
    { eapply Forall_impl; [exact Ho|]. intros h. by apply (is_set_reads id s1 s2 (Some h)). }
    intros s3 es HI3 HR3 Hnd Hes Hl3. cbn beta iota. eapply (r_set_deferred l (Bulk <$> es)); [done | by rewrite <- app_assoc in Hl3 |].
    intros s4 HI4 HR4 Hl4. split; [done|]. intros Hpl. destruct (Hplain Hpl) as (HR1 & Hcl' & Heq). split; [by etrans; [|etrans; [|etrans]]|].
    intros l0 (cl1 & Hcl1' & Hr1). rewrite Hcl' in Hcl. rewrite Hcl1' in Hcl. injection Hcl as ->. rewrite Hreply in Hr1. subst l0. exists es. split; [done|]. split; [|done].
    rewrite <- Heq, <- Heq1. apply set_eq. intros v. rewrite elem_of_list_to_set, Hes, elem_of_filter. unfold in_all. rewrite !Forall_forall.
    setoid_rewrite (gset_reads id s1 s2 _ HR2). naive_solver.
Qed.

(** *** One set *)

(** Every other key is as it was. *)
Definition others_same (L : gset loc) s s' : Prop := forall x, x ∉ L -> val_at s' x = val_at s x /\ expire_at s' x = expire_at s x.

Lemma changes_others L s s' : changes L s s' -> others_same L s s'.
Proof. intros [_ HC] x Hx. unfold val_at. by destruct (HC x Hx) as [-> ->]. Qed.

Lemma reads_others L s s1 s2 : reads s s1 -> others_same L s1 s2 -> others_same L s s2.
Proof. intros [_ HR] H x Hx. destruct (H x Hx), (HR x). split; congruence. Qed.

Lemma changes_trans_quiet L s s1 s2 : changes L s s1 -> changes ∅ s1 s2 -> changes L s s2.
Proof. intros H1 H2. eapply changes_mono; [|by eapply changes_trans]. set_solver. Qed.

Lemma changes_twice L s s1 s2 : changes L s s1 -> changes L s1 s2 -> changes L s s2.
Proof. intros H1 H2. eapply changes_mono; [|by eapply changes_trans]. set_solver. Qed.

Lemma value_quiet s s' x : changes ∅ s s' -> val_at s' x = val_at s x /\ expire_at s' x = expire_at s x.
Proof. intros H. apply (changes_others _ _ _ H). set_solver. Qed.

Lemma r_sadd_loop k vs : forall X P s (Q : server -> Z -> Prop), Inv ({[(id, k)]} ∪ P) s -> holds s (id, k) X -> card X + zlen vs < 2 ^ 29 ->
  (forall s', Inv ({[(id, k)]} ∪ P) s' -> changes {[(id, k)]} s s' -> holds s' (id, k) (list_to_set vs ∪ X) -> expire_at s' (id, k) = expire_at s (id, k) ->
     Q s' (card (list_to_set vs ∪ X) - card X)) ->
  wp (for_sum (fun v => b ← on_set id k (fun st => setTypeAdd env_can_resize env_finger env_max_intset env_junk st v); mret (count b)) vs) s Q.
Proof.
  induction vs as [|v vs IH]; intros X P s Q HI Hh Hroom HQ; cbn [for_sum length] in *.
  - apply wp_ret. cbn [list_to_set] in HQ. rewrite union_empty_l_L, Z.sub_diag in HQ. apply HQ; [done | | done..]. eapply changes_mono; [|apply changes_refl]. set_solver.
  - apply wp_bind, wp_bind. eapply r_update_set; [done | done | exact HI | exact Hh | |].
    { intros st Hst. destruct (SetType.set_add env_can_resize env_finger env_max_intset env_junk st X v Hst) as (st' & Ha & Hs'); [lia|]. by eexists. }
    intros s1 HI1 HC1 Hh1 He1 _. apply wp_ret, wp_bind. pose proof (card_add X v) as Hcard. eapply (IH ({[v]} ∪ X) P).
    + eapply Inv_mono; [|exact HI1]. set_solver.
    + exact Hh1.
    + rewrite Hcard. destruct (bool_decide _); cbn [count]; lia.
    + intros s2 HI2 HC2 Hh2 He2. apply wp_ret. assert (list_to_set vs ∪ ({[v]} ∪ X) = list_to_set (v :: vs) ∪ X) as Heq by set_solver. rewrite Heq in *.
      replace (count (bool_decide (v ∉ X)) + (card (list_to_set (v :: vs) ∪ X) - card ({[v]} ∪ X))) with (card (list_to_set (v :: vs) ∪ X) - card X) by lia.
      apply HQ; [done | by eapply changes_twice | done | congruence].
Qed.

Lemma holds_gset s k X : holds s (id, k) X -> gset_at id s k = X.
Proof. unfold holds, gset_at. by intros ->. Qed.

Lemma settled_plain s k s1 : settled s (id, k) s1 -> plain_sets s [k] -> reads s s1.
Proof. intros Hs Hp. eapply (ages_plain s s1 [k]); [|done]. apply (ages_cons s s1 s1 k []); [done | apply ages_refl]. Qed.

(** The end of SADD. *)
Lemma sadd_end k X Y P s s1 (Q : server -> unit -> Prop) : Inv P s -> Inv ({[(id, k)]} ∪ P) s1 -> changes {[(id, k)]} s s1 ->
  (X = Y -> holds s (id, k) X /\ expire_at s1 (id, k) = expire_at s (id, k)) -> holds s1 (id, k) Y -> X ⊆ Y ->
  (forall s', Inv P s' -> changes ∅ s1 s' -> Q s' tt) ->
  wp ((if negb (card Y - card X =? 0) then signalModifiedKey id k;; notifyKeyspaceEvent REDIS_NOTIFY_SET (bytes_of "sadd") k id else mret tt);;
      add_dirty (card Y - card X);; addReply c (Integer (card Y - card X))) s1 Q.
Proof.
  intros HI HI1 HC Hsame Hh Hle HQ. apply wp_bind. eapply (wp_mono _ _ (fun s' _ => Inv P s' /\ changes ∅ s1 s')).
  - destruct (card Y - card X =? 0) eqn:E0; zbool; cbn [negb].
    + apply wp_ret. split; [|apply changes_refl]. assert (X = Y) as <-.
      { apply set_eq. intros v. split; [set_solver|]. intros Hv'. destruct (decide (v ∈ X)) as [|Hn]; [done|].
        pose proof (subset_size X Y ltac:(set_solver)). lia. }
      destruct (Hsame eq_refl) as [Hh0 He]. eapply Inv_reads; [exact HI | | apply HI1]. by eapply changes_held.
    + apply wp_bind. eapply r_signal; [done..|]. intros s2 HI2%Inv_drop HC2. eapply r_notify; [done..|]. intros s3 HI3 HC3. split; [done | by eapply changes_trans0].
  - intros s2 [] [HI2 HC2]. apply wp_bind. eapply r_dirty; [done..|]. intros s3 HI3 HC3. eapply r_reply; [done..|]. intros s4 HI4 HC4.
    apply HQ; [done|]. eapply changes_trans0; [|done]. by eapply changes_trans0.
Qed.


(** A key looked up for writing, on the way to its set. *)
Lemma lookup_value k s s1 : settled s (id, k) s1 -> gset_at id s1 k ⊆ gset_at id s k.
Proof. intros Hs. eapply gset_ages. by apply settled_ages. Qed.

Lemma sadd_safe cmd k v vs P s : c_db cl0 = id -> starts W s0 c cl0 P (cmd :: k :: v :: vs) s -> total s [k] + zlen (v :: vs) < 2 ^ 29 ->
  wp (saddCommand c) s (fun s' _ => Inv P s' /\ (plain_sets s [k] ->
    val_at s' (id, k) = Some (VSet (list_to_set (v :: vs) ∪ gset_at id s k)) /\ expire_at s' (id, k) = None /\ others_same {[(id, k)]} s s')).
Proof.
  intros Hid Hs Hroom. pose proof Hs as (HI & _). unfold saddCommand. apply wp_bind. eapply r_dbid; [done..|]. rewrite Hid.
  apply wp_bind. eapply (r_arg_at _ _ _ _ 1 k); [exact Hs | done|]. apply wp_bind. eapply (r_arg_at _ _ _ _ 2 v); [exact Hs | done|].
  apply wp_bind. eapply (r_args_from _ _ _ _ 2); [exact Hs|]. change (drop 2 (cmd :: k :: v :: vs)) with (v :: vs).
  apply wp_bind. eapply r_lookupKeyWrite; [done..|]. intros s1 HI1 Hs1. pose proof (lookup_value k s s1 Hs1) as Hle%subseteq_size.
  cbn [total foldr] in Hroom. set (vs' := v :: vs) in *.
  assert (forall s2 X, Inv ({[(id, k)]} ∪ P) s2 -> changes {[(id, k)]} s1 s2 -> holds s2 (id, k) X -> (X = list_to_set vs' ∪ X -> holds s1 (id, k) X) ->
    expire_at s2 (id, k) = expire_at s1 (id, k) -> gset_at id s1 k = X -> wp (added ← for_sum (fun v => b ← on_set id k (fun st => setTypeAdd env_can_resize env_finger env_max_intset env_junk st v); mret (count b)) vs';
      (if negb (added =? 0) then signalModifiedKey id k;; notifyKeyspaceEvent REDIS_NOTIFY_SET (bytes_of "sadd") k id else mret tt);;
      add_dirty added;; addReply c (Integer added)) s2 (fun s' _ => Inv P s' /\ (plain_sets s [k] ->
    val_at s' (id, k) = Some (VSet (list_to_set vs' ∪ gset_at id s k)) /\ expire_at s' (id, k) = None /\ others_same {[(id, k)]} s s'))) as Htail.
  { intros s2 X HI2 HC2 Hh2 Hsame He2 HX. apply wp_bind. eapply (r_sadd_loop k vs' X P); [exact HI2 | done | subst X; lia |]. intros s3 HI3 HC3 Hh3 He3.
    eapply (sadd_end k X _ P s1); [done | exact HI3 | by eapply changes_twice | | done | set_solver |].
    - intros Heq. split; [by apply Hsame | congruence].
    - intros s4 HI4 HC4. split; [done|]. intros Hp. pose proof (settled_plain s k s1 Hs1 Hp) as HR. rewrite <- (gset_reads id s s1 k HR), HX.
      destruct (value_quiet s3 s4 (id, k) HC4) as [-> ->]. split; [exact Hh3|]. split.
      + rewrite He3, He2. rewrite (proj2 (proj2 HR (id, k))). apply Hp. set_solver.
      + eapply reads_others; [done|]. apply changes_others. eapply changes_trans_quiet; [|done]. by eapply changes_twice. }
  destruct (dict_at s1 (id, k)) as [o|] eqn:Eo.
  - destruct (decide (obj_type o = REDIS_SET)) as [Ht|Ht].
    + apply wp_bind, wp_ret. cbn [negb]. pose proof (set_object P s1 k o HI1 Eo Ht) as Hset.
      apply (Htail s1 (gset_at id s1 k)); try done; [eapply Inv_mono; [|exact HI1]; apply union_subseteq_r | eapply changes_mono; [|apply changes_refl]; apply empty_subseteq].
    + apply wp_bind, wp_bind. eapply r_reply; [done..|]. intros s2 HI2 HC2. apply wp_ret, wp_ret. split; [done|]. intros Hp.
      destruct Ht. eapply Hp; [by apply list_elem_of_singleton|]. by eapply settled_old.
  - apply wp_bind, wp_bind. eapply r_add; [done | done | done | eapply set_rep_ok, create_rep | done |]. intros s2 HI2 HC2 Hd2 He2. apply wp_ret. cbn [negb].
    apply (Htail s2 ∅); [done | done | eapply holds_set; [done | apply create_rep] | | | unfold gset_at, val_at; by rewrite Eo].
    + intros He. exfalso. assert (v ∈ (∅ : gset (list Z))) as Hv0 by (rewrite He; apply elem_of_union_l, elem_of_list_to_set; left). by apply elem_of_empty in Hv0.
    + rewrite He2. destruct (expire_at s1 (id, k)) as [w|] eqn:Ew; [|done]. destruct (ok_volatile _ _ (inv_ok _ _ _ _ HI1) (id, k)) as [? ?]; [by rewrite Ew | congruence].
Qed.

(** SREM stops when the set is empty, and the key goes. *)
Definition left_over X R : option val := if decide (R = ∅ /\ X <> ∅) then None else Some (VSet R).

Lemma r_srem_loop k vs : forall X P s (Q : server -> Z * bool -> Prop), Inv ({[(id, k)]} ∪ P) s -> holds s (id, k) X -> small X ->
  (forall s', let R := X ∖ list_to_set vs in Inv ({[(id, k)]} ∪ P) s' -> changes {[(id, k)]} s s' -> val_at s' (id, k) = left_over X R ->
     (X = R -> expire_at s' (id, k) = expire_at s (id, k)) -> Q s' (card X - card R, bool_decide (R = ∅ /\ X <> ∅))) ->
  wp (srem_loop id k vs) s Q.
Proof.
  induction vs as [|v vs IH]; intros X P s Q HI Hh Hroom HQ; cbn [srem_loop].
  - apply wp_ret. cbn [list_to_set] in HQ. rewrite difference_empty_L, Z.sub_diag in HQ. rewrite (bool_decide_eq_false_2 (X = ∅ /\ X <> ∅)) in HQ by naive_solver.
    apply HQ; [done | eapply changes_mono; [|apply changes_refl]; set_solver | | done]. unfold left_over. rewrite decide_False by naive_solver. exact Hh.
  - pose proof (card_remove X v) as Hcard. assert (X ∖ {[v]} ∖ list_to_set vs = X ∖ list_to_set (v :: vs)) as Heq by set_solver.
    apply wp_bind. eapply r_update_set; [done | done | exact HI | exact Hh | |].
    { intros st Hst. destruct (SetType.set_remove env_can_resize env_junk st X v Hst) as (st' & Ha & Hs'); [unfold small in Hroom; lia|]. by eexists. }
    intros s1 HI1 HC1 Hh1 He1 _. assert (Inv ({[(id, k)]} ∪ P) s1) as HI1' by (eapply Inv_mono; [|exact HI1]; set_solver).
    assert (small (X ∖ {[v]})) as Hroom1 by (eapply small_mono; [|exact Hroom]; set_solver).
    destruct (bool_decide (v ∈ X)) eqn:Hin; [apply bool_decide_eq_true in Hin | apply bool_decide_eq_false in Hin].
    + apply wp_bind. eapply r_size; [done | done | exact HI1' | exact Hh1 |]. intros s2 HI2 HR2 Hd2 Hcl2. cbn [count] in Hcard.
      assert (changes {[(id, k)]} s s2) as HC2.
      { destruct HC1 as [Hev1 HC1]. split; [eapply evolves_trans; [exact Hev1 | apply HR2]|]. intros x Hx. rewrite Hd2. destruct (HC1 x Hx) as [<- <-].
        split; [done | by destruct (proj2 HR2 x) as [_ ->]]. }
      assert (X <> ∅) as Hne by set_solver. destruct (_ =? 0) eqn:E0; zbool.
      * assert (X ∖ {[v]} = ∅) as He by (apply leibniz_equiv, size_empty_inv; lia). assert (X ∖ list_to_set (v :: vs) = ∅) as HR by set_solver.
        apply wp_bind. eapply r_delete; [done..|]. intros s3 HI3 HC3 Hd3 He3. apply wp_ret. cbn zeta in HQ. rewrite HR, size_empty in HQ.
        rewrite bool_decide_eq_true_2 in HQ by done. change (Z.of_nat 0) with 0 in HQ. assert (card X = 1) as HX1 by lia. rewrite HX1 in HQ. apply HQ; [eapply Inv_mono; [|exact HI3]; set_solver | by eapply changes_twice | |].
        -- unfold val_at, left_over. by rewrite Hd3, decide_True.
        -- naive_solver.
      * apply wp_bind, (IH (X ∖ {[v]}) P); [done | by eapply holds_reads | done|]. cbn zeta. rewrite Heq. intros s3 HI3 HC3 Hv3 He3. apply wp_ret.
        assert (X ∖ {[v]} <> ∅) as Hne' by (intros He; rewrite He, size_empty in E0; done).
        replace (card (X ∖ {[v]}) - card (X ∖ list_to_set (v :: vs)) + 1) with (card X - card (X ∖ list_to_set (v :: vs))) by lia.
        rewrite (bool_decide_ext _ (X ∖ list_to_set (v :: vs) = ∅ /\ X <> ∅)) by naive_solver. apply HQ; [done | by eapply changes_twice | |].
        -- rewrite Hv3. unfold left_over. destruct (decide _), (decide _); try done; naive_solver.
        -- intros HX. assert (v ∉ X) by set_solver. done.
    + assert (X ∖ {[v]} = X) as Hsame by set_solver. rewrite Hsame in *. apply (IH X P); [done | done | done |]. cbn zeta. rewrite Heq. intros s2 HI2 HC2 Hv2 He2.
      apply HQ; [done | by eapply changes_twice | done |]. intros HX. rewrite He2 by done. congruence.
Qed.

Lemma srem_safe cmd k vs P s : c_db cl0 = id -> starts W s0 c cl0 P (cmd :: k :: vs) s -> total s [k] + 1 < 2 ^ 29 ->
  wp (sremCommand c) s (fun s' _ => Inv P s' /\ (plain_sets s [k] ->
    val_at s' (id, k) = (val_at s (id, k) ≫= fun _ => left_over (gset_at id s k) (gset_at id s k ∖ list_to_set vs)) /\ others_same {[(id, k)]} s s')).
Proof.
  intros Hid Hs Hroom. pose proof Hs as (HI & _). unfold sremCommand. apply wp_bind. eapply r_dbid; [done..|]. rewrite Hid.
  apply wp_bind. eapply (r_arg_at _ _ _ _ 1 k); [exact Hs | done|].
  apply wp_bind. eapply (r_args_from _ _ _ _ 2); [exact Hs|]. change (drop 2 (cmd :: k :: vs)) with vs.
  apply wp_bind. eapply r_lookupWriteOrReply; [done..|]. rewrite Hid. intros s1 HI1 Hs1. pose proof (lookup_value k s s1 Hs1) as Hle%subseteq_size.
  cbn [total foldr] in Hroom. destruct (dict_at s1 (id, k)) as [o|] eqn:Eo.
  2:{ apply wp_ret. split; [done|]. intros Hp. pose proof (settled_plain s k s1 Hs1 Hp) as [_ HR]. split; [|intros x _; apply HR].
      destruct (HR (id, k)) as [<- _]. unfold val_at. by rewrite Eo. }
  apply wp_bind. eapply r_checkType; [done | exact HI1 | |].
  2:{ intros Ht s2 HI2 HC2. apply wp_ret. split; [done|]. intros Hp. destruct Ht. eapply Hp; [by apply list_elem_of_singleton|]. by eapply settled_old. }
  intros Ht. pose proof (set_object P s1 k o HI1 Eo Ht) as Hset. set (X := gset_at id s1 k) in *. set (R := X ∖ list_to_set vs).
  apply wp_bind. eapply (r_srem_loop k vs X P); [eapply Inv_mono; [|exact HI1]; set_solver | exact Hset | unfold small; lia |]. cbn zeta. fold R. intros s2 HI2 HC2 Hv2 He2.
  cbn beta iota. apply wp_bind. eapply (wp_mono _ _ (fun s' _ => Inv P s' /\ changes ∅ s2 s')).
  - destruct (card X - card R =? 0) eqn:E0; zbool; cbn [negb].
    + apply wp_ret. split; [|apply changes_refl]. assert (X = R) as HXR.
      { apply set_eq. intros v. split; [|subst R; set_solver]. intros Hx. destruct (decide (v ∈ R)) as [|Hn]; [done|]. pose proof (subset_size R X ltac:(subst R; set_solver)). lia. }
      eapply Inv_reads; [exact HI1 | | apply HI2]. eapply (changes_held id s1 s2 k X); [done | exact Hset | | auto].
      unfold holds. rewrite Hv2. unfold left_over. rewrite <- HXR. by rewrite decide_False by naive_solver.
    + apply wp_bind. eapply r_signal; [done..|]. intros s3 HI3%Inv_drop HC3. apply wp_bind. eapply r_notify; [done..|]. intros s4 HI4 HC4.
      apply wp_bind. eapply (wp_mono _ _ (fun s' _ => Inv P s' /\ changes ∅ s4 s')).
      * destruct (bool_decide _); [eapply r_notify; [done..|]; done | apply wp_ret; split; [done | apply changes_refl]].
      * intros s5 [] [HI5 HC5]. eapply r_dirty; [done..|]. intros s6 HI6 HC6. split; [done|]. do 3 (eapply changes_trans0; [|done]). done.
  - intros s3 [] [HI3 HC3]. eapply r_reply; [done..|]. intros s4 HI4 HC4. split; [done|]. intros Hp. pose proof (settled_plain s k s1 Hs1 Hp) as HR.
    pose proof (changes_trans0 _ _ _ HC3 HC4) as HC. rewrite <- (gset_reads id s s1 k HR). fold X R. destruct (value_quiet s2 s4 (id, k) HC) as [-> _].
    rewrite Hv2, <- (proj1 (proj2 HR (id, k))). unfold is_set, holds in Hset. rewrite Hset. split; [done|]. eapply reads_others; [done|]. apply changes_others.
    by eapply changes_trans_quiet.
Qed.

(** The value a client gets for a question about one set. *)
Lemma query_end n P s1 s2 (s : server) (ks : list key) : (plain_sets s ks -> reads s s1 /\ clients s1 = clients s) -> Inv P s2 -> reads s1 s2 -> clients s2 = clients s1 ->
  wp (addReply c (Integer n)) s2 (fun s' _ => Inv P s' /\ (plain_sets s ks -> reads s s' /\ forall l, sent_to c s l -> sent_to c s' (l ++ [Integer n]))).
Proof.
  intros Hp HI HR Hcl. destruct (sent_live P s2 HI) as [l Hl]. eapply r_reply_sent; [done | exact Hl|]. intros s3 HI3 HC3 _ Hl3. split; [done|].
  intros Hpl. destruct (Hp Hpl) as [HR1 Hcl1]. split; [by etrans; [|etrans; [|apply changes_reads]]|].
  intros l0 (cl & Hcl0 & <-). destruct Hl as (cl' & Hcl' & <-). rewrite Hcl, Hcl1, Hcl0 in Hcl'. by injection Hcl' as <-.
Qed.

(** Looking one key up to read it, or replying zero. *)
Lemma read_one k P s (f : obj -> M unit) (n : gset (list Z) -> Z) : c_db cl0 = id -> Inv P s -> n ∅ = 0 ->
  (forall s1 X o, Inv P s1 -> holds s1 (id, k) X -> X ⊆ gset_at id s k -> (plain_sets s [k] -> reads s s1 /\ clients s1 = clients s) ->
     wp (f o) s1 (fun s' _ => Inv P s' /\ (plain_sets s [k] -> reads s s' /\ forall l, sent_to c s l -> sent_to c s' (l ++ [Integer (n X)])))) ->
  wp (set ← lookupKeyReadOrReply c k (Integer 0);
      match set with
      | None => mret tt
      | Some o => wrong ← checkType c o REDIS_SET; if (wrong : bool) then mret tt else f o
      end) s (fun s' _ => Inv P s' /\ (plain_sets s [k] -> reads s s' /\ forall l, sent_to c s l -> sent_to c s' (l ++ [Integer (n (gset_at id s k))]))).
Proof.
  intros Hid HI Hn Hf. unfold lookupKeyReadOrReply. apply wp_bind, wp_bind. eapply r_dbid; [done..|]. rewrite Hid.
  apply wp_bind, (r_lookup_set false k P s _ HI). intros s1 HI1 Hs1 Hcl1.
  assert (plain_sets s [k] -> reads s s1 /\ clients s1 = clients s) as Hplain.
  { intros Hp. split; [by eapply settled_plain | apply Hcl1, Hp; set_solver]. }
  destruct (dict_at s1 (id, k)) as [o|] eqn:Eo.
  - apply wp_bind, wp_ret, wp_ret. apply wp_bind. eapply r_checkType; [done | exact HI1 | |].
    + intros Ht. pose proof (set_object P s1 k o HI1 Eo Ht) as Hset. eapply wp_mono; [apply (Hf s1 (gset_at id s1 k) o HI1 Hset); [by eapply lookup_value | done]|].
      intros s2 [] [HI2 H2]. split; [done|]. intros Hp. destruct (Hplain Hp) as [HR _]. rewrite <- (gset_reads id s s1 k HR). by apply H2.
    + intros Ht s2 HI2 HC2. apply wp_ret. split; [done|]. intros Hp. destruct Ht. eapply Hp; [by apply list_elem_of_singleton|]. by eapply settled_old.
  - apply wp_bind. eapply wp_mono; [by apply (query_end 0 P s1 s1 s [k])|]. intros s2 [] [HI2 H2]. apply wp_ret, wp_ret. split; [done|]. intros Hp.
    assert (gset_at id s k = ∅) as ->; [|rewrite Hn; by apply H2]. destruct (Hplain Hp) as [HR _]. rewrite <- (gset_reads id s s1 k HR). unfold gset_at, val_at. by rewrite Eo.
Qed.

Lemma sismember_safe cmd k v P s : c_db cl0 = id -> starts W s0 c cl0 P [cmd; k; v] s ->
  wp (sismemberCommand c) s (fun s' _ => Inv P s' /\ (plain_sets s [k] -> reads s s' /\
    forall l, sent_to c s l -> sent_to c s' (l ++ [Integer (count (bool_decide (v ∈ gset_at id s k)))]))).
Proof.
  intros Hid Hs. pose proof Hs as (HI & _). unfold sismemberCommand. apply wp_bind. eapply r_dbid; [done..|]. rewrite Hid.
  apply wp_bind. eapply (r_arg_at _ _ _ _ 1 k); [exact Hs | done|]. apply wp_bind. eapply (r_arg_at _ _ _ _ 2 v); [exact Hs | done|].
  set (n := fun X : gset (list Z) => count (bool_decide (v ∈ X))).
  apply (read_one k P s _ n); [done | done | unfold n; by rewrite bool_decide_eq_false_2 by set_solver|].
  intros s1 X o HI1 HX Hle Hplain. apply wp_bind. eapply r_member; [done | done | exact HI1 | exact HX|]. intros s2 HI2 HR2 _ Hcl2. by eapply query_end.
Qed.

Lemma scard_safe cmd k P s : c_db cl0 = id -> starts W s0 c cl0 P [cmd; k] s ->
  wp (scardCommand c) s (fun s' _ => Inv P s' /\ (plain_sets s [k] -> reads s s' /\
    forall l, sent_to c s l -> sent_to c s' (l ++ [Integer (card (gset_at id s k))]))).
Proof.
  intros Hid Hs. pose proof Hs as (HI & _). unfold scardCommand. apply wp_bind. eapply r_dbid; [done..|]. rewrite Hid.
  apply wp_bind. eapply (r_arg_at _ _ _ _ 1 k); [exact Hs | done|].
  apply (read_one k P s _ (fun X : gset (list Z) => card X)); [done | done | by rewrite size_empty|].
  intros s1 X o HI1 HX Hle Hplain. apply wp_bind. eapply r_size; [done | done | exact HI1 | exact HX|]. intros s2 HI2 HR2 _ Hcl2. by eapply query_end.
Qed.

(** What SMOVE leaves. *)
Definition moved_result (src dst : key) (e : list Z) s s' : Prop :=
  let X := gset_at id s src in let Y := gset_at id s dst in
  if decide (src = dst \/ e ∉ X) then reads s s'
  else val_at s' (id, src) = (if decide (X ∖ {[e]} = ∅) then None else Some (VSet (X ∖ {[e]}))) /\
    val_at s' (id, dst) = Some (VSet ({[e]} ∪ Y)) /\ others_same {[(id, src); (id, dst)]} s s'.

(** The end of a source that lost an element; the key goes with the last one. *)
Lemma smove_shrunk src X P s (Q : server -> unit -> Prop) : Inv ({[(id, src)]} ∪ P) s -> holds s (id, src) X ->
  (forall s', Inv ({[(id, src)]} ∪ P) s' -> changes {[(id, src)]} s s' -> val_at s' (id, src) = (if decide (X = ∅) then None else Some (VSet X)) -> Q s' tt) ->
  wp (notifyKeyspaceEvent REDIS_NOTIFY_SET (bytes_of "srem") src id;;
      n ← set_size id src;
      (if n =? 0 then dbDelete id src;; notifyKeyspaceEvent REDIS_NOTIFY_GENERIC (bytes_of "del") src id else mret tt)) s Q.
Proof.
  intros HI Hh HQ. apply wp_bind. eapply r_notify; [done..|]. intros s2 HI2 HC2. assert (holds s2 (id, src) X) as Hh2 by (eapply holds_reads; [by apply changes_reads | done]).
  apply wp_bind. eapply r_size; [done | done | exact HI2 | exact Hh2 |]. intros s3 HI3 HR3 Hd3 _.
  assert (changes {[(id, src)]} s s3) as HC3.
  { pose proof HC2 as [Hev HC]. split; [eapply evolves_trans; [exact Hev | apply HR3]|]. intros x Hx. rewrite Hd3.
    destruct (HC x ltac:(set_solver)) as [<- <-]. split; [done | by destruct (proj2 HR3 x) as [_ ->]]. }
  destruct (_ =? 0) eqn:E0; zbool.
  - assert (X = ∅) as He by (apply leibniz_equiv, size_empty_inv; lia). apply wp_bind. eapply r_delete; [done..|]. intros s4 HI4 HC4 Hd4 _.
    eapply r_notify; [done..|]. intros s5 HI5 HC5. apply HQ; [eapply Inv_mono; [|exact HI5]; set_solver | eapply changes_trans_quiet; [|done]; by eapply changes_twice |].
    rewrite decide_True by done. destruct (value_quiet s4 s5 (id, src) HC5) as [-> _]. unfold val_at. by rewrite Hd4.
  - apply wp_ret, HQ; [done | done |]. rewrite decide_False by (intros He; rewrite He, size_empty in E0; done). by eapply holds_reads.
Qed.

(** Putting it into the destination, created when there is none. *)
Lemma smove_put dst e Y P s (Q : server -> unit -> Prop) : Inv ({[(id, dst)]} ∪ P) s -> gset_at id s dst = Y -> small Y ->
  (dict_at s (id, dst) = None \/ holds s (id, dst) Y) ->
  (forall s', Inv ({[(id, dst)]} ∪ P) s' -> changes {[(id, dst)]} s s' -> val_at s' (id, dst) = Some (VSet ({[e]} ∪ Y)) -> Q s' tt) ->
  forall create : bool, create = bool_decide (dict_at s (id, dst) = None) ->
  wp ((if create then dbAdd id dst (OSet (setTypeCreate e)) else mret tt);;
      b ← on_set id dst (fun st => setTypeAdd env_can_resize env_finger env_max_intset env_junk st e);
      (if (b : bool) then add_dirty 1;; notifyKeyspaceEvent REDIS_NOTIFY_SET (bytes_of "sadd") dst id else mret tt);;
      addReply c (Integer 1)) s Q.
Proof.
  intros HI HY Hsm Hcase HQ create ->. apply wp_bind.
  eapply (wp_mono _ _ (fun s' _ => Inv ({[(id, dst)]} ∪ P) s' /\ changes {[(id, dst)]} s s' /\ holds s' (id, dst) Y)).
  - case_bool_decide as Hd.
    + eapply r_add; [done | done | done | eapply set_rep_ok, create_rep | done |]. intros s1 HI1 HC1 Hd1 _. split_and!; [eapply Inv_mono; [|exact HI1]; set_solver | done |].
      assert (Y = ∅) as -> by (rewrite <- HY; unfold gset_at, val_at; by rewrite Hd). eapply holds_set; [done | apply create_rep].
    + apply wp_ret. split_and!; [done | eapply changes_mono; [|apply changes_refl]; set_solver | by destruct Hcase].
  - intros s1 [] (HI1 & HC1 & Hh1). apply wp_bind. eapply r_update_set; [done | done | exact HI1 | exact Hh1 | |].
    { intros st Hst. destruct (SetType.set_add env_can_resize env_finger env_max_intset env_junk st Y e Hst) as (st' & Ha & Hs'); [done|]. by eexists. }
    intros s2 HI2 HC2 Hh2 _ _. assert (Inv ({[(id, dst)]} ∪ P) s2) as HI2' by (eapply Inv_mono; [|exact HI2]; set_solver).
    apply wp_bind. eapply (wp_mono _ _ (fun s' _ => Inv ({[(id, dst)]} ∪ P) s' /\ changes ∅ s2 s')).
    + destruct (bool_decide _); [|apply wp_ret; split; [done | apply changes_refl]]. apply wp_bind. eapply r_dirty; [done..|]. intros s3 HI3 HC3.
      eapply r_notify; [done..|]. intros s4 HI4 HC4. split; [done | by eapply changes_trans0].
    + intros s3 [] [HI3 HC3]. eapply r_reply; [done..|]. intros s4 HI4 HC4. pose proof (changes_trans0 _ _ _ HC3 HC4) as HC.
      apply HQ; [done | eapply changes_trans_quiet; [|done]; by eapply changes_twice |]. by destruct (value_quiet s2 s4 (id, dst) HC) as [-> _].
Qed.

Lemma wp_seq3 {A B C D} (m : M A) (b : M B) (f : B -> M C) (g : M D) s (Q : server -> D -> Prop) :
  wp (m;; x ← b; f x) s (fun s' _ => wp g s' Q) -> wp (m;; x ← b; f x;; g) s Q.
Proof. unfold wp, mbind, M_bind. destruct (m s) as [[s1 ?]|]; [|done]. destruct (b s1) as [[s2 x]|]; [|done]. by destruct (f x s2) as [[? ?]|]. Qed.

Lemma smove_safe cmd src dst e P s : c_db cl0 = id -> starts W s0 c cl0 P [cmd; src; dst; e] s -> once s id [src; dst] -> total s [src; dst] + 2 < 2 ^ 29 ->
  wp (smoveCommand c) s (fun s' _ => Inv P s' /\ (plain_sets s [src; dst] -> moved_result src dst e s s')).
Proof.
  intros Hid Hs Honce Hroom. pose proof Hs as (HI & _). unfold smoveCommand. apply wp_bind. eapply r_dbid; [done..|]. rewrite Hid.
  apply wp_bind. eapply (r_arg_at _ _ _ _ 1 src); [exact Hs | done|]. apply wp_bind. eapply (r_arg_at _ _ _ _ 2 dst); [exact Hs | done|].
  apply wp_bind. eapply (r_arg_at _ _ _ _ 3 e); [exact Hs | done|].
  apply wp_bind. eapply r_lookupKeyWrite; [done..|]. intros s1 HI1 Hs1. apply wp_bind. eapply r_lookupKeyWrite; [done..|]. intros s2 HI2 Hs2.
  assert (ages (locs id [src; dst]) s s2) as Ha by (eapply ages_cons; [exact Hs1|]; eapply ages_cons; [exact Hs2 | apply ages_refl]).
  assert (dict_at s2 (id, src) = dict_at s1 (id, src)) as Hd12.
  { eapply (once_head s s1 s2 src [dst]); [done | done |]. eapply ages_cons; [exact Hs2 | apply ages_refl]. }
  assert (plain_sets s [src; dst] -> reads s s2) as Hplain by (intros Hp; by eapply ages_plain). pose proof (total_ages _ _ _ [src; dst] Ha) as Hroom2. cbn [total foldr] in Hroom, Hroom2.
  assert (forall r s3, Inv P s3 -> reads s2 s3 -> (src = dst \/ e ∉ gset_at id s2 src) -> wp (addReply c r) s3
    (fun s' _ => Inv P s' /\ (plain_sets s [src; dst] -> moved_result src dst e s s'))) as Hsame.
  { intros r s3 HI3 HR3 Hcase. eapply r_reply; [done..|]. intros s4 HI4 HC4. split; [done|]. intros Hp. pose proof (Hplain Hp) as HR. unfold moved_result.
    rewrite <- !(gset_reads id s s2 _ HR), decide_True by done. etrans; [exact HR|]. etrans; [exact HR3 | by apply changes_reads]. }
  rewrite <- Hd12. destruct (dict_at s2 (id, src)) as [so|] eqn:Eo.
  2:{ apply Hsame; [done..|]. right. unfold gset_at, val_at. rewrite Eo. set_solver. }
  assert (forall k o s3, k ∈ [src; dst] -> dict_at s2 (id, k) = Some o -> obj_type o <> REDIS_SET -> Inv P s3 ->
    Inv P s3 /\ (plain_sets s [src; dst] -> moved_result src dst e s s3)) as Hwrong.
  { intros k o s3 Hk Hd Ht HI3. split; [done|]. intros Hp. destruct Ht. eapply Hp; [exact Hk|]. by apply Ha. }
  apply wp_bind. eapply r_checkType; [done | exact HI2 | |].
  2:{ intros Ht s3 HI3 HC3. apply wp_bind, wp_ret, wp_ret. eapply (Hwrong src so); [left | done..]. }
  intros Ht. pose proof (set_object P s2 src so HI2 Eo Ht) as HX. apply wp_bind.
  assert (forall Q : server -> bool -> Prop, ((dict_at s2 (id, dst) = None \/ is_set id s2 (Some dst)) -> Q s2 false) ->
    (forall s3, Inv P s3 /\ (plain_sets s [src; dst] -> moved_result src dst e s s3) -> Q s3 true) ->
    wp (match dict_at s2 (id, dst) with Some o => checkType c o REDIS_SET | None => mret false end) s2 Q) as Hdst.
  { intros Q H1 H2. destruct (dict_at s2 (id, dst)) as [o|] eqn:Ed; [|apply wp_ret, H1; by left]. eapply r_checkType; [done | exact HI2 | |].
    - intros Ht'. apply H1. right. by eapply set_object.
    - intros Ht' s3 HI3 _. apply H2. eapply (Hwrong dst o); [right; left | done..]. }
  apply Hdst; [intros Hdst2 | intros s3 H3; by apply wp_ret]. clear Hdst Hwrong. set (X := gset_at id s2 src) in *. set (Y := gset_at id s2 dst) in *.
  pose proof (Zle_0_nat (base.size X)). pose proof (Zle_0_nat (base.size Y)). destruct (decide (src = dst)) as [<-|Hne].
  { rewrite Eo. apply wp_bind. eapply r_member; [done | done | exact HI2 | exact HX |]. intros s3 HI3 HR3 _ _. apply Hsame; auto. }
  apply wp_bind. eapply r_update_set; [done | done | exact HI2 | exact HX | |].
  { intros st Hst. destruct (SetType.set_remove env_can_resize env_junk st X e Hst) as (st' & Hrm & Hst'); [lia|]. by eexists. }
  intros s3 HI3 HC3 Hh3 He3 _. destruct (bool_decide (e ∈ X)) eqn:Hin; [apply bool_decide_eq_true in Hin | apply bool_decide_eq_false in Hin]; cbn [negb].
  2:{ assert (X ∖ {[e]} = X) as HXe by set_solver. rewrite HXe in Hh3. assert (reads s2 s3) as HR3 by (by eapply (changes_held id s2 s3 src X)).
      apply Hsame; [eapply Inv_reads; [exact HI2 | exact HR3 | apply HI3] | done | by right]. }
  apply wp_seq3. eapply smove_shrunk; [done | exact Hh3 |]. intros s4 HI4 HC4 Hv4.
  apply wp_bind. eapply r_signal; [done..|]. intros s5 HI5%Inv_drop HC5. apply wp_bind. eapply r_signal_flags; [done..|]. intros s6 HI6 HC6 Hf6.
  apply wp_bind. eapply r_dirty; [done..|]. intros s7 HI7 HC7. pose proof (changes_trans0 _ _ _ (changes_trans0 _ _ _ HC5 HC6) HC7) as HC57.
  pose proof (changes_trans_quiet _ _ _ _ (changes_twice _ _ _ _ HC3 HC4) HC57) as HC27.
  assert (dict_at s7 (id, dst) = dict_at s2 (id, dst)) as Hd7 by (apply HC27; set_solver).
  assert (gset_at id s7 dst = Y) as HY7 by (unfold Y, gset_at, val_at; by rewrite Hd7).
  assert (wp ((if bool_decide (dict_at s7 (id, dst) = None) then dbAdd id dst (OSet (setTypeCreate e)) else mret tt);;
      b ← on_set id dst (fun st => setTypeAdd env_can_resize env_finger env_max_intset env_junk st e);
      (if (b : bool) then add_dirty 1;; notifyKeyspaceEvent REDIS_NOTIFY_SET (bytes_of "sadd") dst id else mret tt);;
      addReply c (Integer 1)) s7 (fun s' _ => Inv P s' /\ (plain_sets s [src; dst] -> moved_result src dst e s s'))) as Hput.
  { eapply (smove_put dst e Y P); [eapply Inv_mono; [|exact HI7]; set_solver | done | unfold small; lia | | | done].
    - rewrite Hd7. destruct Hdst2 as [Hd|Hd]; [by left | right]. unfold holds, val_at. rewrite Hd7. exact Hd.
    - intros s8 HI8 HC8 Hv8. split.
      + eapply Inv_flagged; [exact HI8|]. intros c' Hc'. eapply flagged_evolves; [apply HC8|]. eapply flagged_evolves; [apply HC7|]. by apply Hf6.
      + intros Hp. pose proof (Hplain Hp) as HR. unfold moved_result. rewrite <- !(gset_reads id s s2 _ HR). fold X Y. rewrite decide_False by naive_solver. split_and!.
        * destruct (changes_others _ _ _ HC8 (id, src) ltac:(set_solver)) as [-> _]. by destruct (value_quiet s4 s7 (id, src) HC57) as [-> _].
        * exact Hv8.
        * eapply reads_others; [exact HR|]. apply changes_others. eapply changes_mono; [|by eapply changes_trans]. set_solver. }
  rewrite Hd7 in Hput. by destruct (dict_at s2 (id, dst)).
Qed.

End Commands.
