(* ===== verification/Commands.v ===== *)
(** * The commands on keys and sets, together (redis.c)

    The rows of [redisCommandTable] the model covers, and the theorems that hold
    for any sequence of these commands from any clients: no assertion fails, the
    state stays consistent, and WATCH keeps its promise. *)
From Stdlib Require Import Lia ZArith String.
From stdpp Require Import base numbers list tactics option gmap fin_maps fin_sets sets.
From S2P Require Import Prelude Util Intset Dict DictRep DictIter Object Glob SetType Server Pubsub Crc Db DbOk DbRules DbCommands SetCmd SetCmdOk SetCommands.

#[local] Open Scope Z_scope.

(** The arities of the command table: the number of arguments with the name
    of the command, or the least number, negated. *)
Definition arity (cmd : command) : Z :=
  match cmd with
  | DEL => -2 | EXISTS => 2 | SADD => -3 | SREM => -3 | SMOVE => 4 | SISMEMBER => 3 | SCARD => 2
  | SINTER => -2 | SINTERSTORE => -3 | SUNION => -2 | SUNIONSTORE => -3 | SDIFF => -2 | SDIFFSTORE => -3
  | MOVE => 3 | RENAME => 3 | RENAMENX => 3 | EXPIRE => 3 | EXPIREAT => 3 | PEXPIRE => 3 | PEXPIREAT => 3
  | MULTI => 1 | EXEC => 1 | DISCARD => 1 | FLUSHDB => 1 | FLUSHALL => 1 | TTL => 2 | PTTL => 2 | PERSIST => 2
  | SUBSCRIBE => -2 | UNSUBSCRIBE => -1 | PSUBSCRIBE => -2 | PUNSUBSCRIBE => -1 | PUBLISH => 3 | WATCH => -2 | UNWATCH => 1
  end.

(** The flag "w" of the table. *)
Definition is_write (cmd : command) : bool :=
  match cmd with
  | DEL | SADD | SREM | SMOVE | SINTERSTORE | SUNIONSTORE | SDIFFSTORE | MOVE | RENAME | RENAMENX | EXPIRE | EXPIREAT
  | PEXPIRE | PEXPIREAT | FLUSHDB | FLUSHALL | PERSIST => true
  | _ => false
  end.

(** The test of [processCommand]. *)
Definition arity_ok (cmd : command) (argc : Z) : bool :=
  negb (((arity cmd >? 0) && negb (arity cmd =? argc)) || (argc <? - arity cmd)).

Section Commands.
Context `{E : Env} (int_encoded : list Z -> bool).

(** The functions of the table for the commands on keys and sets. *)
Definition data_proc (cmd : command) : option (cid -> M unit) :=
  match cmd with
  | SADD => Some saddCommand | SREM => Some sremCommand | SMOVE => Some smoveCommand | SISMEMBER => Some sismemberCommand
  | SCARD => Some scardCommand | SINTER => Some (sinterCommand int_encoded) | SINTERSTORE => Some (sinterstoreCommand int_encoded)
  | SUNION => Some sunionCommand | SUNIONSTORE => Some sunionstoreCommand | SDIFF => Some sdiffCommand | SDIFFSTORE => Some sdiffstoreCommand
  | DEL => Some delCommand | EXISTS => Some existsCommand | RENAME => Some renameCommand | RENAMENX => Some renamenxCommand | MOVE => Some moveCommand
  | EXPIRE => Some expireCommand | EXPIREAT => Some expireatCommand | PEXPIRE => Some pexpireCommand | PEXPIREAT => Some pexpireatCommand
  | TTL => Some ttlCommand | PTTL => Some pttlCommand | PERSIST => Some persistCommand | FLUSHDB => Some flushdbCommand | FLUSHALL => Some flushallCommand
  | SUBSCRIBE | UNSUBSCRIBE | PSUBSCRIBE | PUNSUBSCRIBE | PUBLISH | MULTI | EXEC | DISCARD | WATCH | UNWATCH => None
  end.

(** The keys whose sets a command works on. *)
Definition set_keys (cmd : command) (l : list (list Z)) : list key :=
  match cmd with
  | SADD | SREM | SISMEMBER | SCARD => take 1 (drop 1 l)
  | SMOVE => take 2 (drop 1 l)
  | SINTER | SUNION | SDIFF => drop 1 l
  | SINTERSTORE | SUNIONSTORE | SDIFFSTORE => drop 2 l
  | _ => []
  end.

(** The times an EXPIRE can ask for, whatever the clock says. *)
Definition times_fit (cmd : command) (l : list (list Z)) : Prop :=
  match cmd with
  | EXPIRE => forall n, time_fits (env_clock n) true l
  | PEXPIRE => forall n, time_fits (env_clock n) false l
  | EXPIREAT => time_fits 0 true l
  | PEXPIREAT => time_fits 0 false l
  | _ => True
  end.

(** A call with defined behaviour: the number of arguments is right, a time fits
    its type, sets stay below the size of the tables, and a set key listed twice is
    not volatile. *)
Record admissible (s : server) (c : cid) (cmd : command) (l : list (list Z)) : Prop := {
  ad_proc : is_Some (data_proc cmd);
  ad_arity : arity_ok cmd (zlen l) = true;
  ad_times : times_fit cmd l;
  ad_room : forall cl, clients s !! c = Some cl -> total (c_db cl) s (set_keys cmd l) + zlen l < 2 ^ 29;
  ad_once : forall cl, clients s !! c = Some cl -> once s (c_db cl) (set_keys cmd l);
}.

(** A client sends a command. *)
Definition run_command (c : cid) (cmd : command) (l : list (list Z)) : M unit :=
  mod_client c (with_argv l);;
  proc ← lift (data_proc cmd);
  proc c.

(** The keys a MOVE takes away and puts down. *)
Definition moves (s : server) (c : cid) (cmd : command) (l : list (list Z)) : gset loc :=
  match cmd, clients s !! c with MOVE, Some cl => moved cl l | _, _ => ∅ end.

Section Step.
Context (W : gset (cid * loc)) (s0 : server) (c : cid) (cl0 : redisClient) (Hc : clients s0 !! c = Some cl0).
#[local] Abbreviation Inv := (Inv W s0).
Implicit Types (P : gset loc) (s : server).

Lemma arity_exact cmd (l : list (list Z)) : arity_ok cmd (zlen l) = true -> 0 < arity cmd -> zlen l = arity cmd.
Proof. unfold arity_ok. rewrite negb_true_iff, orb_false_iff, andb_false_iff. intros [[H|H] _] Hpos; zbool; lia. Qed.

Lemma arity_least cmd (l : list (list Z)) : arity_ok cmd (zlen l) = true -> - arity cmd <= zlen l.
Proof. unfold arity_ok. rewrite negb_true_iff, orb_false_iff. intros [_ H]. zbool. lia. Qed.

Lemma expire_clock seconds P l s : starts W s0 c cl0 P l s -> (2 < length l)%nat -> (forall n, time_fits (env_clock n) seconds l) ->
  wp (t ← mstime; expireGenericCommand c t seconds) s (fun s' _ => Inv P s').
Proof.
  intros (HI & Hv & Hcl) Hl Hf. unfold mstime. apply wp_bind, wp_bind, wp_get, wp_bind, wp_modify, wp_ret.
  eapply (expire_safe W s0 c cl0 Hc); [|done|done]. split; [|done]. eapply Inv_quiet; [exact HI | by apply changes_same | done].
Qed.

Lemma wp_left {A} (m : M A) s (R T : server -> Prop) : wp m s (fun s' _ => R s' /\ T s') -> wp m s (fun s' _ => R s').
Proof. intros H. eapply wp_mono; [exact H|]. by intros s' a []. Qed.

#[local] Abbreviation id0 := (c_db cl0).

(** The commands on sets. *)
Lemma set_step cmd l P s proc : starts W s0 c cl0 P l s -> data_proc cmd = Some proc -> arity_ok cmd (zlen l) = true ->
  total id0 s (set_keys cmd l) + zlen l < 2 ^ 29 -> once s id0 (set_keys cmd l) ->
  match cmd with SADD | SREM | SMOVE | SISMEMBER | SCARD => True | _ => False end -> wp (proc c) s (fun s' _ => Inv P s').
Proof.
  intros Hs Hp Har Hroom Honce Hcmd. pose proof Hs as (_ & Hv & _). pose proof (arity_least cmd l Har) as Hmin. pose proof (arity_exact cmd l Har) as Hex.
  destruct cmd; try done; injection Hp as <-; cbn [arity] in Hmin, Hex.
  - destruct l as [|x [|k [|v vs]]]; try (cbn in Hmin; lia). eapply wp_left, (sadd_safe W s0 c cl0 Hc id0 Hv int_encoded); [done | exact Hs |]. cbn [set_keys take drop length] in *. rewrite ?take_0 in *. lia.
  - destruct l as [|x [|k vs]]; try (cbn in Hmin; lia). eapply wp_left, (srem_safe W s0 c cl0 Hc id0 Hv int_encoded); [done | exact Hs |]. cbn [set_keys take drop length] in *. rewrite ?take_0 in *. lia.
  - destruct l as [|x [|k [|k2 [|v [|]]]]]; try (cbn in Hex; lia). eapply wp_left, (smove_safe W s0 c cl0 Hc id0 Hv int_encoded); [done | exact Hs | done |].
    cbn [set_keys take drop length] in *. rewrite ?take_0 in *. lia.
  - destruct l as [|x [|k [|v [|]]]]; try (cbn in Hex; lia). by eapply wp_left, (sismember_safe W s0 c cl0 Hc id0 Hv int_encoded).
  - destruct l as [|x [|k [|]]]; try (cbn in Hex; lia). by eapply wp_left, (scard_safe W s0 c cl0 Hc id0 Hv int_encoded).
Qed.

Lemma algebra_step cmd l P s proc : starts W s0 c cl0 P l s -> data_proc cmd = Some proc -> arity_ok cmd (zlen l) = true ->
  total id0 s (set_keys cmd l) + zlen l < 2 ^ 29 -> once s id0 (set_keys cmd l) ->
  match cmd with SINTER | SUNION | SDIFF | SINTERSTORE | SUNIONSTORE | SDIFFSTORE => True | _ => False end -> wp (proc c) s (fun s' _ => Inv P s').
Proof.
  intros Hs Hp Har Hroom Honce Hcmd. pose proof Hs as (HI & Hv & _). pose proof (arity_least cmd l Har) as Hmin.
  assert (exists x y r, l = x :: y :: r) as (x & y & r & ->) by (destruct cmd; try done; destruct l as [|x [|y r]]; cbn in Hmin; try lia; eauto).
  destruct cmd; try done; injection Hp as <-; cbn [arity set_keys drop length] in *; rewrite ?drop_0 in *;
    (apply wp_bind; eapply r_args_from; [exact Hs|]; cbn [drop]; rewrite ?drop_0); try (apply wp_bind; eapply (r_arg_at _ _ _ _ 1 y); [exact Hs | done|]);
    eapply wp_left; first [eapply (r_sinter W s0 c cl0 Hc id0 Hv int_encoded); [done | exact HI | destruct r; [cbn in Hmin; lia | done] || done | done | lia]
      | eapply (r_sunionDiff W s0 c cl0 Hc id0 Hv int_encoded); [done | exact HI | done | lia]].
Qed.

(** The commands on keys of any type. *)
Lemma key_step cmd l P s proc : starts W s0 c cl0 P l s -> data_proc cmd = Some proc -> arity_ok cmd (zlen l) = true -> times_fit cmd l ->
  match cmd with DEL | EXISTS | RENAME | RENAMENX | EXPIRE | EXPIREAT | PEXPIRE | PEXPIREAT | TTL | PTTL | PERSIST | FLUSHDB | FLUSHALL => True | _ => False end ->
  wp (proc c) s (fun s' _ => Inv P s').
Proof.
  intros Hs Hp Har Ht Hcmd. pose proof (arity_least cmd l Har) as Hmin. pose proof (arity_exact cmd l Har) as Hex.
  destruct cmd; try done; injection Hp as <-; cbn [arity times_fit] in *.
  - by eapply (del_safe W s0 c cl0 Hc).
  - eapply (exists_safe W s0 c cl0 Hc); [done | lia].
  - eapply (rename_safe W s0 c cl0 Hc); [done | lia].
  - eapply (rename_safe W s0 c cl0 Hc); [done | lia].
  - eapply expire_clock; [done | lia | done].
  - eapply (expire_safe W s0 c cl0 Hc); [done | lia | done].
  - eapply expire_clock; [done | lia | done].
  - eapply (expire_safe W s0 c cl0 Hc); [done | lia | done].
  - eapply (ttl_safe W s0 c cl0 Hc); [done | lia].
  - eapply (ttl_safe W s0 c cl0 Hc); [done | lia].
  - eapply (persist_safe W s0 c cl0 Hc); [done | lia].
  - by eapply (flushdb_safe W s0 c cl0 Hc).
  - by eapply (flushall_safe W s0 c cl0 Hc).
Qed.

Lemma data_step cmd l P s proc : starts W s0 c cl0 P l s -> data_proc cmd = Some proc -> arity_ok cmd (zlen l) = true -> times_fit cmd l ->
  total id0 s (set_keys cmd l) + zlen l < 2 ^ 29 -> once s id0 (set_keys cmd l) ->
  wp (proc c) s (fun s' _ => Inv (match cmd with MOVE => moved cl0 l | _ => ∅ end ∪ P) s').
Proof.
  intros Hs Hp Har Ht Hroom Honce. assert (wp (proc c) s (fun s' _ => Inv P s') -> wp (proc c) s (fun s' _ => Inv (∅ ∪ P) s')) as Hempty by (by rewrite union_empty_l_L).
  destruct cmd; try done; try (by eapply Hempty, set_step); try (by eapply Hempty, algebra_step); try (by eapply Hempty, key_step).
  injection Hp as <-. eapply (move_safe W s0 c cl0 Hc); [done|]. pose proof (arity_exact MOVE l Har). cbn in *. lia.
Qed.

End Step.

(** ** Reachable states *)

(** From [s0], some commands later; the set collects the keys moved by MOVE. *)
Inductive reach (s0 : server) : gset loc -> server -> Prop :=
  | reach_start : reach s0 ∅ s0
  | reach_run P s c cmd l s' : reach s0 P s -> is_Some (clients s !! c) -> admissible s c cmd l ->
      run_command c cmd l s = Some (s', tt) -> reach s0 (moves s c cmd l ∪ P) s'.

Lemma run_safe W s0 P s c cmd l : Inv W s0 P s -> is_Some (clients s !! c) -> admissible s c cmd l ->
  wp (run_command c cmd l) s (fun s' _ => Inv W s0 (moves s c cmd l ∪ P) s').
Proof.
  intros HI [cl Hcl] Had. pose proof (ev_clients _ _ (inv_evolves _ _ _ _ HI) c) as Hev. rewrite Hcl in Hev.
  destruct (clients s0 !! c) as [cl0|] eqn:Hc; inversion Hev as [? ? (Hdb & _)|]; subst. pose proof Had as [[proc Hproc] Har Ht Hroom Honce].
  pose proof (start W s0 c cl0 Hc P l s HI) as Hs. unfold run_command. apply wp_bind, (wp_mod_client c cl); [done|]. rewrite Hproc. apply wp_bind, wp_ret.
  unfold moves. rewrite Hcl.
  assert (upd_clients (fun m => <[c := with_argv l cl]> m) s = upd_clients (fun m => <[c := with_argv l (default cl0 (m !! c))]> m) s) as ->.
  { unfold upd_clients. by rewrite Hcl. }
  eapply wp_mono; [eapply (data_step W s0 c cl0 Hc cmd l P); [exact Hs | done | done | done | |]|].
  - rewrite <- Hdb. exact (Hroom cl Hcl).
  - rewrite <- Hdb. eapply once_dbs; [|exact (Honce cl Hcl)]. done.
  - intros s' [] HI'. destruct cmd; try exact HI'. unfold moved in *. by rewrite Hdb.
Qed.

Lemma reach_inv W s0 P s : server_ok W s0 -> reach s0 P s -> Inv W s0 P s.
Proof.
  intros Hok. induction 1 as [|P s c cmd l s' Hr IH Hlive Had Hrun]; [by apply Inv_init|].
  pose proof (run_safe W s0 P s c cmd l IH Hlive Had) as Hwp. unfold wp in Hwp. by rewrite Hrun in Hwp.
Qed.

End Commands.

(** C7: commands keep the state consistent and WATCH's promise.  From a consistent
    state in which the clients watch the keys [W], in every state that commands on
    keys and sets of any clients lead to: the state is consistent (see
    [server_ok]: volatile keys exist, values are well formed, the slot index holds
    exactly the keys, both directions of the watching relation and of the
    subscriptions agree); every watched key no MOVE touched has its initial value,
    or has expired, and no expiration it did not have, unless its watcher is marked;
    and the next admissible command runs to its end. *)
Theorem commands_keep_promise `{E : Env} (int_encoded : list Z -> bool) (W : gset (cid * loc)) (s0 : server) (P : gset loc) (s : server) :
  server_ok W s0 -> reach int_encoded s0 P s ->
  server_ok W s /\
  (forall c x, (c, x) ∈ W -> x ∉ P -> flagged s c \/
    (val_at s x = val_at s0 x \/ val_at s x = None /\ is_Some (expire_at s0 x)) /\ (is_Some (expire_at s x) -> is_Some (expire_at s0 x))) /\
  forall c cmd l, is_Some (clients s !! c) -> admissible int_encoded s c cmd l -> exists s', run_command int_encoded c cmd l s = Some (s', tt).
Proof.
  intros Hok Hr. pose proof (reach_inv int_encoded W s0 P s Hok Hr) as HI. split; [apply HI|]. split.
  - intros c x Hx HP. destruct (inv_watch _ _ _ _ HI c x Hx) as [?|[?|?]]; [by left | done | by right].
  - intros c cmd l Hlive Had. pose proof (run_safe int_encoded W s0 P s c cmd l HI Hlive Had) as Hwp. unfold wp in Hwp.
    destruct (run_command int_encoded c cmd l s) as [[s' []]|]; [eauto | done].
Qed.
