(* ===== verification/SetAlgebra.v ===== *)
(** * The results of the commands on sets and on expired keys

    The functional behaviour of the commands on sets, in terms of finite sets of
    texts; what they do on a key of another type; and that no lookup sees an
    expired key. *)
From Stdlib Require Import Lia ZArith String.
From stdpp Require Import base numbers list tactics option gmap fin_maps fin_sets sets.
From S2P Require Import Prelude Util Intset Dict DictRep DictIter Object Glob SetType Server Pubsub Crc Db DbOk DbRules DbCommands SetCmd SetCmdOk SetCommands Commands.

#[local] Open Scope Z_scope.

(** ** Wrong types *)

Section Types.
Context `{E : Env} (W : gset (cid * loc)) (s0 : server) (c : cid) (cl0 : redisClient) (Hc : clients s0 !! c = Some cl0).
#[local] Abbreviation Inv := (Inv W s0).
#[local] Abbreviation id := (c_db cl0).
Context (Hv : valid_db s0 id).
Implicit Types (P : gset loc) (s : server) (k : key).

(** The client gets the error, and no value changes. *)
Definition rejected s s' : Prop := reads s s' /\ forall l, sent_to c s l -> sent_to c s' (l ++ [ErrWrongType]).

(** A key without expiration that holds something else than a set. *)
Definition not_a_set s k : Prop := expire_at s (id, k) = None /\ exists o, dict_at s (id, k) = Some o /\ obj_type o <> REDIS_SET.

Lemma reject o P s s1 (Q : server -> bool -> Prop) : Inv P s1 -> obj_type o <> REDIS_SET -> reads s s1 -> clients s1 = clients s ->
  (forall s', Inv P s' -> rejected s s' -> Q s' true) -> wp (checkType c o REDIS_SET) s1 Q.
Proof.
  intros HI Ht HR Hcl HQ. destruct (sent_live W s0 c cl0 Hc P s1 HI) as [l Hl]. unfold checkType. rewrite decide_False by done.
  apply wp_bind. eapply r_reply_sent; [exact HI | exact Hl |]. intros s2 HI2 HC2 _ Hl2. apply wp_ret, HQ; [done|]. split; [etrans; [exact HR | by apply changes_reads]|].
  intros l0 (cl & Hcl0 & <-). destruct Hl as (cl' & Hcl' & <-). rewrite Hcl, Hcl0 in Hcl'. by injection Hcl' as <-.
Qed.

(** Looking the key up and checking its type. *)
Lemma reject_lookup store k P s (Q : server -> option obj -> Prop) : Inv P s -> not_a_set s k ->
  (forall s1 o, Inv P s1 -> reads s s1 -> clients s1 = clients s -> obj_type o <> REDIS_SET -> Q s1 (Some o)) -> wp (lookup_set id store k) s Q.
Proof.
  intros HI (He & o & Hd & Ht) HQ. eapply (r_lookup_set W s0 c cl0 Hc id Hv); [exact HI|]. intros s1 HI1 Hs1 Hcl.
  destruct (proj1 (proj2 (settled_ages _ _ _ Hs1)) _ He) as [Hd1 He1]. rewrite Hd1, Hd. apply HQ; [done | | by apply Hcl | done].
  destruct (settled_ages _ _ _ Hs1) as ([Hev HC] & Ha & _). split; [done|]. intros x. unfold val_at. destruct (decide (x = (id, k))) as [->|].
  - by rewrite Hd1, He1, He.
  - by destruct (HC x ltac:(set_solver)) as [-> ->].
Qed.

Lemma reject_or_reply store k r P s (f : obj -> M unit) : Inv P s -> not_a_set s k ->
  wp (set ← (id ← c_dbid c; o ← lookup_set id store k; (match o with None => addReply c r | Some _ => mret tt end);; mret o);
      match set with
      | None => mret tt
      | Some o => wrong ← checkType c o REDIS_SET; if (wrong : bool) then mret tt else f o
      end) s (fun s' _ => rejected s s').
Proof.
  intros HI Hk. apply wp_bind, wp_bind. eapply r_dbid; [done | exact HI|]. apply wp_bind. eapply reject_lookup; [done..|]. intros s1 o HI1 HR1 Hcl1 Ht.
  apply wp_bind, wp_ret, wp_ret, wp_bind. eapply reject; [done..|]. intros s2 HI2 H2. by apply wp_ret.
Qed.

Lemma sadd_rejects cmd k v vs P s : starts W s0 c cl0 P (cmd :: k :: v :: vs) s -> not_a_set s k -> wp (saddCommand c) s (fun s' _ => rejected s s').
Proof.
  intros Hs Hk. pose proof Hs as (HI & _). unfold saddCommand. apply wp_bind. eapply r_dbid; [done | exact HI |].
  apply wp_bind. eapply (r_arg_at _ _ _ _ 1 k); [exact Hs | done|]. apply wp_bind. eapply (r_arg_at _ _ _ _ 2 v); [exact Hs | done|].
  apply wp_bind. eapply (r_args_from _ _ _ _ 2); [exact Hs|]. apply wp_bind, (reject_lookup true k P s); [done..|]. intros s1 o HI1 HR1 Hcl1 Ht.
  rewrite decide_False by done. apply wp_bind, wp_bind. destruct (sent_live W s0 c cl0 Hc P s1 HI1) as [l Hl].
  eapply r_reply_sent; [exact HI1 | exact Hl |]. intros s2 HI2 HC2 _ Hl2. apply wp_ret. cbn [negb]. apply wp_ret. split; [etrans; [exact HR1 | by apply changes_reads]|].
  intros l0 (cl & Hcl0 & <-). destruct Hl as (cl' & Hcl' & <-). rewrite Hcl1, Hcl0 in Hcl'. by injection Hcl' as <-.
Qed.

Lemma srem_rejects cmd k vs P s : starts W s0 c cl0 P (cmd :: k :: vs) s -> not_a_set s k -> wp (sremCommand c) s (fun s' _ => rejected s s').
Proof.
  intros Hs Hk. pose proof Hs as (HI & _). unfold sremCommand. apply wp_bind. eapply r_dbid; [done | exact HI |].
  apply wp_bind. eapply (r_arg_at _ _ _ _ 1 k); [exact Hs | done|]. apply wp_bind. eapply (r_args_from _ _ _ _ 2); [exact Hs|].
  by eapply (reject_or_reply true k _ P s).
Qed.

Lemma sismember_rejects cmd k v P s : starts W s0 c cl0 P [cmd; k; v] s -> not_a_set s k -> wp (sismemberCommand c) s (fun s' _ => rejected s s').
Proof.
  intros Hs Hk. pose proof Hs as (HI & _). unfold sismemberCommand. apply wp_bind. eapply r_dbid; [done | exact HI |].
  apply wp_bind. eapply (r_arg_at _ _ _ _ 1 k); [exact Hs | done|]. apply wp_bind. eapply (r_arg_at _ _ _ _ 2 v); [exact Hs | done|].
  by eapply (reject_or_reply false k _ P s).
Qed.

Lemma scard_rejects cmd k P s : starts W s0 c cl0 P [cmd; k] s -> not_a_set s k -> wp (scardCommand c) s (fun s' _ => rejected s s').
Proof.
  intros Hs Hk. pose proof Hs as (HI & _). unfold scardCommand. apply wp_bind. eapply r_dbid; [done | exact HI |].
  apply wp_bind. eapply (r_arg_at _ _ _ _ 1 k); [exact Hs | done|]. by eapply (reject_or_reply false k _ P s).
Qed.

(** Among the keys of a union or difference. *)
Lemma union_lookup_rejects store ks : forall P s, Inv P s -> (forall k, k ∈ ks -> expire_at s (id, k) = None) -> (exists k, k ∈ ks /\ not_a_set s k) ->
  wp (union_lookup c id store ks) s (fun s' r => r = None /\ rejected s s').
Proof.
  induction ks as [|k ks IH]; intros P s HI Hall (k1 & Hin & Hk1); [by apply not_elem_of_nil in Hin|]. cbn [union_lookup].
  apply wp_bind, (r_lookup_set W s0 c cl0 Hc id Hv store k P s _ HI). intros s1 HI1 Hs1 Hcl1.
  assert (expire_at s (id, k) = None) as Hk by (apply Hall; left). specialize (Hcl1 Hk).
  assert (reads s s1) as HR1.
  { destruct (settled_ages _ _ _ Hs1) as ([Hev HC] & Ha & _). split; [done|]. intros x. unfold val_at. destruct (decide (x = (id, k))) as [->|].
    - destruct (Ha _ Hk) as [-> ->]. done.
    - by destruct (HC x ltac:(set_solver)) as [-> ->]. }
  assert (forall x, dict_at s1 x = dict_at s x) as Hd1.
  { intros x. destruct (decide (x = (id, k))) as [->|]; [by destruct (proj1 (proj2 (settled_ages _ _ _ Hs1)) _ Hk) | apply Hs1; set_solver]. }
  assert (obj_type <$> dict_at s1 (id, k) <> Some REDIS_SET -> is_Some (dict_at s1 (id, k)) -> wp (match dict_at s1 (id, k) with
      | None => r ← union_lookup c id store ks; mret (option_map (cons None) r)
      | Some o => wrong ← checkType c o REDIS_SET; if (wrong : bool) then mret None else r ← union_lookup c id store ks; mret (option_map (cons (Some k)) r)
      end) s1 (fun s' r => r = None /\ rejected s s')) as Hhere.
  { intros Ht [o Ho]. rewrite Ho in *. apply wp_bind. eapply reject; [exact HI1 | by intros He; cbn in Ht; rewrite He in Ht | exact HR1 | done |].
    intros s2 HI2 H2. by apply wp_ret. }
  assert (k1 <> k -> forall (f : option key), wp (r ← union_lookup c id store ks; mret (option_map (cons f) r)) s1 (fun s' r => r = None /\ rejected s s')) as Hlater.
  { intros Hne f. apply wp_bind. eapply wp_mono; [apply (IH P s1 HI1)|].
    - intros k' Hk'. rewrite (proj2 (proj2 HR1 (id, k'))). apply Hall. by right.
    - exists k1. split; [set_solver|]. destruct Hk1 as (He & o & Hd & Ht). split; [by rewrite (proj2 (proj2 HR1 (id, k1)))|]. exists o. by rewrite Hd1.
    - intros s2 r [-> [HR2 Hl2]]. apply wp_ret. split; [done|]. split; [by etrans|]. unfold sent_to in *. by rewrite <- Hcl1. }
  destruct (dict_at s1 (id, k)) as [o|] eqn:Eo.
  - destruct (decide (obj_type o = REDIS_SET)) as [Ht|Ht]; [|apply Hhere; [cbn; congruence | by eexists]].
    unfold checkType. rewrite decide_True by done. apply wp_bind, wp_ret. apply Hlater. intros ->. destruct Hk1 as (_ & o1 & Ho1 & Ht1). rewrite Hd1 in Eo. congruence.
  - apply Hlater. intros ->. destruct Hk1 as (_ & o1 & Ho1 & Ht1). rewrite Hd1 in Eo. congruence.
Qed.

Lemma sunionDiff_rejects ks dstkey op P s : Inv P s -> (forall k, k ∈ ks -> expire_at s (id, k) = None) -> (exists k, k ∈ ks /\ not_a_set s k) ->
  wp (sunionDiffGenericCommand c ks dstkey op) s (fun s' _ => rejected s s').
Proof.
  intros HI Hall Hk. unfold sunionDiffGenericCommand. apply wp_bind. eapply r_dbid; [done | exact HI |]. apply wp_bind.
  eapply wp_mono; [by eapply (union_lookup_rejects _ ks P s)|]. intros s1 r [-> H1]. by apply wp_ret.
Qed.

End Types.

(** ** The theorems *)

Lemma starts_init `{E : Env} W s c cl l : server_ok W s -> clients s !! c = Some cl -> argv cl = l -> starts W s c cl ∅ l s.
Proof.
  intros Hok Hc Ha. pose proof (Inv_init W s Hok) as HI. split; [done|]. split; [by eapply valid_client|]. by exists cl.
Qed.

(** C13: the commands on one or two sets.  On a consistent state, for a client whose
    command has these arguments and keys that have no expiration and hold sets or
    nothing: SADD adds the elements to the set at the key; SREM takes them out,
    and the key goes when nothing is left; SMOVE moves an element from one set
    to the other, creating the destination and dropping an empty source, and does
    nothing when the keys are the same or the element is not in the source;
    SISMEMBER and SCARD answer membership and cardinality.  All other keys stay. *)
Theorem set_members `{E : Env} (W : gset (cid * loc)) (s : server) (c : cid) (cl : redisClient) :
  server_ok W s -> clients s !! c = Some cl -> let id := c_db cl in let at_ k := gset_at id s k in
  (forall cmd k v vs, argv cl = cmd :: k :: v :: vs -> plain_sets id s [k] -> total id s [k] + zlen (v :: vs) < 2 ^ 29 ->
    wp (saddCommand c) s (fun s' _ => val_at s' (id, k) = Some (VSet (list_to_set (v :: vs) ∪ at_ k)) /\ expire_at s' (id, k) = None /\
      others_same {[(id, k)]} s s')) /\
  (forall cmd k vs, argv cl = cmd :: k :: vs -> plain_sets id s [k] -> total id s [k] + 1 < 2 ^ 29 ->
    wp (sremCommand c) s (fun s' _ => val_at s' (id, k) = (val_at s (id, k) ≫= fun _ => left_over (at_ k) (at_ k ∖ list_to_set vs)) /\
      others_same {[(id, k)]} s s')) /\
  (forall cmd src dst e, argv cl = [cmd; src; dst; e] -> plain_sets id s [src; dst] -> total id s [src; dst] + 2 < 2 ^ 29 ->
    wp (smoveCommand c) s (fun s' _ => moved_result id src dst e s s')) /\
  (forall cmd k v, argv cl = [cmd; k; v] -> plain_sets id s [k] ->
    wp (sismemberCommand c) s (fun s' _ => reads s s' /\ forall l, sent_to c s l -> sent_to c s' (l ++ [Integer (count (bool_decide (v ∈ at_ k)))]))) /\
  (forall cmd k, argv cl = [cmd; k] -> plain_sets id s [k] ->
    wp (scardCommand c) s (fun s' _ => reads s s' /\ forall l, sent_to c s l -> sent_to c s' (l ++ [Integer (Z.of_nat (base.size (at_ k)))]))).
Proof.
  intros Hok Hc id at_. assert (forall l, argv cl = l -> starts W s c cl ∅ l s) as Hst by (intros l; by apply starts_init).
  pose proof (proj1 (proj2 (Hst _ eq_refl))) as Hv. pose (enc := fun _ : list Z => true). split_and!; intros cmd k.
  - intros v vs Ha Hp Hr. eapply wp_mono; [by apply (sadd_safe W s c cl Hc id Hv enc cmd k v vs ∅ s eq_refl (Hst _ Ha))|]. intros s' _ [_ H]. by apply H.
  - intros vs Ha Hp Hr. eapply wp_mono; [by apply (srem_safe W s c cl Hc id Hv enc cmd k vs ∅ s eq_refl (Hst _ Ha))|]. intros s' _ [_ H]. by apply H.
  - intros dst e Ha Hp Hr. eapply wp_mono; [apply (smove_safe W s c cl Hc id Hv enc cmd k dst e ∅ s eq_refl (Hst _ Ha)); [|done]|].
    + apply once_still. intros k' Hk'. by apply Hp.
    + intros s' _ [_ H]. by apply H.
  - intros v Ha Hp. eapply wp_mono; [by apply (sismember_safe W s c cl Hc id Hv enc cmd k v ∅ s eq_refl (Hst _ Ha))|]. intros s' _ [_ H]. by apply H.
  - intros Ha Hp. eapply wp_mono; [by apply (scard_safe W s c cl Hc id Hv enc cmd k ∅ s eq_refl (Hst _ Ha))|]. intros s' _ [_ H]. by apply H.
Qed.

(** C12: set algebra.  On a consistent state, for keys that have no expiration and
    hold sets or nothing, in any order and with repetitions: SUNION, SDIFF and
    SINTER send exactly the elements of the union, the difference (whichever of
    the two algorithms runs) or the intersection, each once, after their number,
    and change no value; SUNIONSTORE, SDIFFSTORE and SINTERSTORE make the result
    the value of the destination, without expiration, or delete the key when the
    result is empty, and leave every other key alone.  How elements are encoded
    makes no difference. *)
Theorem set_algebra `{E : Env} (int_encoded : list Z -> bool) (W : gset (cid * loc)) (s : server) (c : cid) (cl : redisClient)
    (ks : list key) (dstkey : option key) :
  server_ok W s -> clients s !! c = Some cl -> ks <> [] -> plain_sets (c_db cl) s ks -> total (c_db cl) s ks + 1 < 2 ^ 29 ->
  let Xs := gset_at (c_db cl) s <$> ks in
  wp (sunionDiffGenericCommand c ks dstkey REDIS_OP_UNION) s (fun s' _ => delivered_result c (c_db cl) dstkey (⋃ Xs) s s') /\
  wp (sunionDiffGenericCommand c ks dstkey REDIS_OP_DIFF) s (fun s' _ =>
    delivered_result c (c_db cl) dstkey (default ∅ (head Xs) ∖ ⋃ (tail Xs)) s s') /\
  wp (sinterGenericCommand int_encoded c ks dstkey) s (fun s' _ => exists R, (forall v, v ∈ R <-> forall X, X ∈ Xs -> v ∈ X) /\
    delivered_result c (c_db cl) dstkey R s s').
Proof.
  intros Hok Hc Hne Hp Hr Xs. pose proof (starts_init W s c cl _ Hok Hc eq_refl) as (HI & Hv & _).
  assert (once s (c_db cl) ks) as Honce by (apply once_still; intros k Hk; by apply Hp). split_and!.
  - eapply wp_mono; [by apply (r_sunionDiff W s c cl Hc (c_db cl) Hv int_encoded ks dstkey REDIS_OP_UNION ∅ s)|]. intros s' _ [_ H]. by apply H.
  - eapply wp_mono; [by apply (r_sunionDiff W s c cl Hc (c_db cl) Hv int_encoded ks dstkey REDIS_OP_DIFF ∅ s)|]. intros s' _ [_ H]. specialize (H Hp).
    subst Xs. destruct ks; [done|]. exact H.
  - eapply wp_mono; [by apply (r_sinter W s c cl Hc (c_db cl) Hv int_encoded ks dstkey ∅ s)|]. intros s' _ [_ H]. eexists. split; [|by apply H].
    intros v. rewrite elem_of_inter, Forall_forall. subst Xs. destruct ks; [done|]. naive_solver.
Qed.


(** C14: no lookup sees an expired key.  When a key of the client's database is
    due (its time has passed, nothing is being loaded, and this is no slave) a lookup
    finds nothing, the key is gone and a DEL is fed to the AOF and the slaves;
    otherwise the lookup returns what the key holds and feeds nothing.  Either way
    every other key stays and the state stays consistent. *)
Theorem expired_keys_invisible `{E : Env} (W : gset (cid * loc)) (s : server) (c : cid) (cl : redisClient) (k : key) (write : bool) :
  server_ok W s -> clients s !! c = Some cl -> let x := (c_db cl, k) in
  wp ((if write then lookupKeyWrite else lookupKeyRead) (c_db cl) k) s (fun s' o =>
    o = (if must_expire s x then None else dict_at s x) /\ dict_at s' x = o /\ expire_at s' x = (if must_expire s x then None else expire_at s x) /\
    propagated s' = propagated s ++ (if must_expire s x then [(c_db cl, [bytes_of "DEL"; k])] else []) /\
    (forall y, y <> x -> dict_at s' y = dict_at s y /\ expire_at s' y = expire_at s y) /\ server_ok W s').
Proof.
  intros Hok Hc x. pose proof (starts_init W s c cl _ Hok Hc eq_refl) as (HI & Hv & _).
  set (Q := fun (s' : server) (o : option obj) => _).
  assert (forall s1 s', Inv W s ∅ s1 -> settled s x s1 -> propagated s1 = propagated s ++ expire_feed s x -> dbs s' = dbs s1 -> propagated s' = propagated s1 ->
    server_ok W s' -> Q s' (dict_at s1 x)) as HQ.
  { intros s1 s' HI1 (HC1 & Hd1 & He1) Hp1 Hdb Hp Hok'. unfold Q. assert (forall y, dict_at s' y = dict_at s1 y /\ expire_at s' y = expire_at s1 y) as Hsame.
    { intros y. unfold dict_at, expire_at. by rewrite Hdb. }
    destruct (Hsame x) as [-> ->]. split_and!; [done | done | done | by rewrite Hp, Hp1 | | done]. intros y Hy. destruct (Hsame y) as [-> ->]. apply HC1. set_solver. }
  destruct write; apply wp_bind; eapply (r_expire_feeds W s c cl Hc (c_db cl) k ∅ s); [done | done | | done | done |]; intros s1 b HI1 Hs1 Hp1.
  - eapply r_lookupKey; [exact HI1 | done |]. apply (HQ s1 s1); try done. apply HI1.
  - apply wp_bind. eapply r_lookupKey; [exact HI1 | done |]. fold x.
    assert (forall e h m, server_ok W (upd_stats e h m s1)) as Hst by (intros e h m; eapply server_ok_quiet; [apply HI1 | by apply changes_same | done]).
    destruct (dict_at s1 x) eqn:Ed; apply wp_bind, wp_modify, wp_ret; rewrite <- Ed; by apply (HQ s1).
Qed.
