(* ===== verification/Demo.v ===== *)
(** * A server in motion

    A concrete environment and a concrete server on which the theorems about the
    commands are applied, and three runs that show where the code departs from what
    it means to do: MOVE does not mark the watchers of the keys it moves, PERSIST
    brings back a key that has expired, and a set read twice by one command
    can expire in between. *)
From Stdlib Require Import Lia ZArith String.
From stdpp Require Import base numbers list sorting tactics option gmap fin_maps fin_sets sets.
From S2P Require Import Prelude Util Intset Dict DictRep DictIter Object Glob SetType Server Pubsub Crc Db DbOk DbRules DbCommands SetCmd SetCmdOk SetCommands Commands SetAlgebra.

#[local] Open Scope Z_scope.

#[global] Instance cmp_dec {A} (cmp : A -> A -> Z) : RelDecision (fun a b => cmp a b <= 0).
Proof. intros a b. apply _. Defined.

(** The clock ticks once per reading. *)
Definition demo_env : Env := {|
  env_hash := setDictType 5381; env_can_resize := true; env_finger := fun _ => 0; env_max_intset := 512; env_junk := fun _ => 0;
  env_clock := fun n => 1000 + Z.of_nat n;
  env_qsort := fun A cmp l => merge_sort (fun a b => cmp a b <= 0) l;
  env_qsort_perm := fun A cmp l => merge_sort_Permutation (fun a b => cmp a b <= 0) l |}.
#[local] Existing Instance demo_env.

Definition enc : list Z -> bool := fun s => bool_decide (is_Some (representable s)).

(** Client 2 watches the key [a] of database 0. *)
Definition key_a : key := bytes_of "a".
Definition watches : gset (cid * loc) := {[(2%positive, (0, key_a))]}.
Definition key_s : key := bytes_of "s".
Definition db0 : redisDb := with_dict (fun _ => {[key_s := OOther REDIS_STRING 0]}) (with_watchers (fun _ => {[key_a := [2%positive]]}) no_db).
Definition watching : server :=
  mk_server (mk_config false false None false 0) [db0; no_db]
    {[1%positive := new_client; 2%positive := with_watched [(key_a, 0)] new_client]} ∅ [] [] ∅ 0 0 0 0 O [].

Lemma watching_client c cl : clients watching !! c = Some cl ->
  (c = 1%positive /\ cl = new_client) \/ (c = 2%positive /\ cl = with_watched [(key_a, 0)] new_client).
Proof.
  cbn [clients watching]. rewrite lookup_insert_Some. intros [[<- <-]|[_ H]]; [by left|]. apply lookup_singleton_Some in H as [<- <-]. by right.
Qed.

Lemma watching_db id db : rd (dbs watching) id = Some db ->
  (id = 0 /\ db = db0) \/ (id = 1 /\ db = no_db).
Proof.
  unfold rd. destruct (id <? 0) eqn:E; [done|]. zbool. cbn [dbs watching]. intros H. pose proof (lookup_lt_Some _ _ _ H) as Hl. cbn in Hl.
  destruct (Z.to_nat id) as [|[|n]] eqn:En; [left | right | lia]; cbn in H; injection H as <-; split; (lia || done).
Qed.

Lemma watching_keys x : (dict_at watching x = None \/ dict_at watching x = Some (OOther REDIS_STRING 0)) /\ expire_at watching x = None.
Proof.
  unfold dict_at, expire_at. destruct (rd (dbs watching) x.1) as [db|] eqn:E; [|by auto].
  destruct (watching_db _ _ E) as [[_ ->]|[_ ->]]; (split; [|done]); [|by left].
  change (db_dict db0 !! x.2 = None \/ db_dict db0 !! x.2 = Some (OOther REDIS_STRING 0)). unfold db0. cbn [db_dict with_dict].
  destruct (decide (x.2 = key_s)) as [->|Hne]; [rewrite lookup_singleton_eq; by right | rewrite lookup_singleton_ne by done; by left].
Qed.

Lemma in_watches c x : (c, x) ∈ watches <-> c = 2%positive /\ x = (0, key_a).
Proof. unfold watches. rewrite elem_of_singleton. naive_solver. Qed.

Lemma watching_watch : watch_rep watches watching.
Proof.
  constructor.
  - intros c cl H. destruct (watching_client c cl H) as [[-> ->]|[-> ->]]; cbn [c_watched with_watched new_client].
    + split; [constructor|]. intros k id. rewrite in_watches. rewrite elem_of_nil. naive_solver.
    + split; [apply NoDup_singleton|]. intros k id. rewrite in_watches, list_elem_of_singleton. naive_solver.
  - intros c x [-> ->]%in_watches. split; vm_compute; eauto.
  - intros id db H k. destruct (watching_db id db H) as [[-> ->]|[-> ->]]; cbn [watched_keys with_watchers with_dict no_db db0].
    + destruct (decide (k = key_a)) as [->|Hne].
      * rewrite lookup_singleton_eq. split; [done|]. split; [apply NoDup_singleton|]. intros c. rewrite in_watches, list_elem_of_singleton. naive_solver.
      * rewrite lookup_singleton_ne by done. intros c. rewrite in_watches. naive_solver.
    + rewrite lookup_empty. intros c. rewrite in_watches. naive_solver.
Qed.

Lemma watching_ok : server_ok watches watching.
Proof.
  constructor.
  - exists ∅, ∅. split; [|set_solver]. constructor; try set_solver.
    + intros c cl H ch. destruct (watching_client c cl H) as [[-> ->]|[-> ->]]; cbn; set_solver.
    + intros c cl H. destruct (watching_client c cl H) as [[-> ->]|[-> ->]]; cbn; (split; [constructor | set_solver]).
    + intros ch. cbn [pubsub_channels watching]. rewrite lookup_empty. set_solver.
    + cbn. split; [constructor | set_solver].
  - apply watching_watch.
  - intros x. destruct (watching_keys x) as [_ ->]. by intros [].
  - intros x o. destruct (watching_keys x) as [[->| ->] _]; [done|]. by intros [= <-].
  - done.
  - intros c cl H. destruct (watching_client c cl H) as [[-> ->]|[-> ->]]; vm_compute; eauto.
Qed.

(** ** Scripts *)

Abbreviation step := (cid * command * list (list Z))%type.

Fixpoint run_script (l : list step) (s : server) : option server :=
  match l with [] => Some s | (c, cmd, args) :: l => '(s, _) ← run_command enc c cmd args s; run_script l s end.

Definition words (l : list string) : list (list Z) := bytes_of <$> l.

(** The conditions of [admissible], as a test. *)
Fixpoint onceb (s : server) (id : Z) (ks : list key) : bool :=
  match ks with [] => true | k :: ks => (bool_decide (k ∉ ks) || bool_decide (expire_at s (id, k) = None)) && onceb s id ks end.

Lemma onceb_once s id ks : onceb s id ks = true -> once s id ks.
Proof.
  induction ks as [|k ks IH]; cbn; [done|]. intros [H1 H2]%andb_prop. split; [|auto]. intros Hk.
  apply orb_prop in H1 as [H1%bool_decide_eq_true|H1%bool_decide_eq_true]; [done | done].
Qed.

Definition times_fitb (cmd : command) (l : list (list Z)) : bool :=
  match cmd with
  | EXPIRE | PEXPIRE | EXPIREAT => false
  | PEXPIREAT => match l !! 2%nat ≫= read_long with Some v => (LLONG_MIN <=? v) && (v <=? LLONG_MAX) | None => true end
  | _ => true
  end.

Lemma times_fitb_fit cmd l : times_fitb cmd l = true -> times_fit cmd l.
Proof.
  destruct cmd; try done. cbn. intros H a v Ha Hv. rewrite Ha in H. cbn in H. rewrite Hv in H. apply andb_prop in H as [H1 H2]. zbool. cbn zeta. lia.
Qed.

Definition admissibleb (s : server) (c : cid) (cmd : command) (l : list (list Z)) : bool :=
  bool_decide (is_Some (data_proc enc cmd)) && arity_ok cmd (zlen l) && times_fitb cmd l &&
  match clients s !! c with
  | Some cl => (total (c_db cl) s (set_keys cmd l) + zlen l <? 2 ^ 29) && onceb s (c_db cl) (set_keys cmd l)
  | None => false
  end.

Lemma admissibleb_ok s c cmd l : admissibleb s c cmd l = true -> is_Some (clients s !! c) /\ admissible enc s c cmd l.
Proof.
  unfold admissibleb. destruct (clients s !! c) as [cl|] eqn:Hc; [|by rewrite andb_false_r]. intros [[[H1%bool_decide_eq_true H2]%andb_prop H3]%andb_prop [H4 H5]%andb_prop]%andb_prop.
  zbool. split; [by eexists|]. split; [done | done | by apply times_fitb_fit | intros cl'; congruence |]. intros cl' Hcl'. assert (cl' = cl) as -> by congruence. by apply onceb_once.
Qed.

Fixpoint script_ok (l : list step) (s : server) : bool :=
  match l with
  | [] => true
  | (c, cmd, args) :: l => admissibleb s c cmd args && match run_command enc c cmd args s with Some (s, _) => script_ok l s | None => false end
  end.

Lemma script_reach s0 l : forall P s s', reach enc s0 P s -> script_ok l s = true -> run_script l s = Some s' -> exists P', reach enc s0 P' s'.
Proof.
  induction l as [|[[c cmd] args] l IH]; intros P s s' Hr Hall Hrun; cbn [run_script script_ok] in *; [injection Hrun as <-; by exists P|].
  apply andb_prop in Hall as [Had Hall]. destruct (run_command enc c cmd args s) as [[s1 []]|] eqn:E1; [|done]. cbn in Hrun.
  destruct (admissibleb_ok _ _ _ _ Had) as [Hlive Had']. eapply (IH _ s1); [by eapply reach_run | done | done].
Qed.

(** Build three sets, store a union, give a key a lifetime. *)
Definition script : list step :=
  [(1%positive, SADD, words ["SADD"; "b"; "1"; "2"]%string); (1%positive, SADD, words ["SADD"; "c"; "2"; "x"]%string);
   (1%positive, SUNIONSTORE, words ["SUNIONSTORE"; "a"; "b"; "c"]%string); (1%positive, SADD, words ["SADD"; "v"; "old"]%string);
   (1%positive, PEXPIREAT, words ["PEXPIREAT"; "v"; "1003"]%string)].

Definition busy : server := Eval vm_compute in default watching (run_script script watching).

Example busy_runs : run_script script watching = Some busy /\ val_at busy (0, key_a) = Some (VSet {[bytes_of "1"; bytes_of "2"; bytes_of "x"]}) /\
  expire_at busy (0, bytes_of "v") = Some 1003 /\ must_expire busy (0, bytes_of "v") = false /\ (forall cl, clients busy !! 2%positive = Some cl -> has_flag (flags cl) REDIS_DIRTY_CAS = true).
Proof. split_and!; [vm_compute; reflexivity..|]. intros cl H. vm_compute in H. injection H as <-. vm_compute. reflexivity. Qed.

Lemma busy_reached : exists P, reach enc watching P busy.
Proof.
  destruct busy_runs as [Hrun _]. revert Hrun. generalize busy. intros s Hs.
  apply (script_reach watching script ∅ watching); [constructor | vm_compute; reflexivity | exact Hs].
Qed.

Lemma busy_inv : server_ok watches busy.
Proof. destruct busy_reached as [P HP]. exact (inv_ok _ _ _ _ (reach_inv enc watches watching P busy watching_ok HP)). Qed.

(** ** The theorems on this server *)

Lemma commands_keep_promise_witness : exists P, reach enc watching P busy /\ val_at busy (0, key_a) <> val_at watching (0, key_a) /\
  (forall c x, (c, x) ∈ watches -> x ∉ P -> flagged busy c \/
    (val_at busy x = val_at watching x \/ val_at busy x = None /\ is_Some (expire_at watching x)) /\ (is_Some (expire_at busy x) -> is_Some (expire_at watching x))).
Proof.
  destruct busy_reached as [P HP]. exists P. split; [exact HP|]. split; [vm_compute; discriminate|].
  exact (proj1 (proj2 (commands_keep_promise enc watches watching P busy watching_ok HP))).
Defined.

(** Client 1 of the busy server, about to run a command. *)
Definition cl1 : redisClient := default new_client (clients busy !! 1%positive).
Definition asks (l : list (list Z)) : server := upd_clients (fun m => <[1%positive := with_argv l (default cl1 (m !! 1%positive))]> m) busy.

Lemma cl1_live : clients busy !! 1%positive = Some cl1.
Proof. vm_compute. reflexivity. Qed.

Lemma asks_ok l : server_ok watches (asks l).
Proof. exact (inv_ok _ _ _ _ (proj1 (start watches busy 1%positive cl1 cl1_live ∅ l busy (Inv_init _ _ busy_inv)))). Qed.

Lemma asks_client l : clients (asks l) !! 1%positive = Some (with_argv l cl1).
Proof. unfold asks, upd_clients. cbn [clients]. rewrite lookup_insert_eq, cl1_live. done. Qed.

Definition plain_setsb (s : server) (ks : list key) : bool :=
  forallb (fun k => bool_decide (expire_at s (0, k) = None) && match dict_at s (0, k) with Some (OOther _ _) => false | _ => true end) ks.

Lemma plain_setsb_ok s ks : plain_setsb s ks = true -> plain_sets 0 s ks.
Proof.
  unfold plain_setsb. rewrite forallb_forall. intros H k Hk%list_elem_of_In. specialize (H k Hk). apply andb_prop in H as [H1%bool_decide_eq_true H2].
  split; [done|]. intros o Ho. rewrite Ho in H2. by destruct o.
Qed.

Abbreviation str := bytes_of.

Lemma set_members_witness :
  let s := asks (words ["SMOVE"; "b"; "new"; "1"]%string) in
  gset_at 0 s (str "b") = {[str "1"; str "2"]} /\ wp (smoveCommand 1%positive) s (fun s' _ => moved_result 0 (str "b") (str "new") (str "1") s s').
Proof.
  cbv zeta. split; [vm_compute; reflexivity|].
  apply (proj1 (proj2 (proj2 (set_members watches _ 1%positive _ (asks_ok _) (asks_client _)))) (str "SMOVE")).
  - vm_compute. reflexivity.
  - apply plain_setsb_ok. vm_compute. reflexivity.
  - vm_compute. reflexivity.
Defined.

Lemma set_algebra_witness :
  wp (sinterGenericCommand enc 1%positive [key_a; str "b"] None) (asks []) (fun s' _ => exists R : gset (list Z),
    (forall v, v ∈ R <-> v = str "1" \/ v = str "2") /\ delivered_result 1%positive 0 None R (asks []) s').
Proof.
  eapply wp_mono; [refine (proj2 (proj2 (set_algebra enc watches (asks []) 1%positive _ [key_a; str "b"] None (asks_ok []) (asks_client []) _ _ _)))|].
  { done. } { apply plain_setsb_ok. vm_compute. reflexivity. } { vm_compute. reflexivity. }
  intros s' _ (R & HR & Hd). exists R. split; [|exact Hd].
  intros v. rewrite HR. change (gset_at (c_db (with_argv [] cl1)) (asks []) <$> [key_a; str "b"]) with [gset_at 0 (asks []) key_a; gset_at 0 (asks []) (str "b")].
  assert (gset_at 0 (asks []) key_a = {[str "1"; str "2"; str "x"]}) as -> by (vm_compute; reflexivity).
  assert (gset_at 0 (asks []) (str "b") = {[str "1"; str "2"]}) as -> by (vm_compute; reflexivity).
  generalize (str "1") (str "2") (str "x"). intros a b x. clear. split.
  - intros Hv. specialize (Hv {[a; b]} ltac:(by right; left)). set_solver.
  - intros Hv X [->|[->|[]%elem_of_nil]%elem_of_cons]%elem_of_cons; set_solver.
Defined.


(** Some time later the volatile key is due. *)
Definition later (l : list (list Z)) : server := upd_ticks (fun n => (n + 10)%nat) (asks l).

Lemma ticks_ok f W s : server_ok W s -> server_ok W (upd_ticks f s).
Proof. intros Hok. eapply server_ok_quiet; [exact Hok | by apply changes_same | done]. Qed.

Lemma later_ok l : server_ok watches (later l).
Proof. apply ticks_ok, asks_ok. Qed.

Lemma ticks_client f s (c : cid) : clients (upd_ticks f s) !! c = clients s !! c.
Proof. done. Qed.

Lemma later_client l : clients (later l) !! 1%positive = Some (with_argv l cl1).
Proof. unfold later. rewrite ticks_client. apply asks_client. Qed.

Lemma expired_keys_invisible_witness : is_Some (dict_at (later []) (0, str "v")) /\ must_expire (later []) (0, str "v") = true /\
  wp (lookupKeyWrite 0 (str "v")) (later []) (fun s' o => o = None /\ dict_at s' (0, str "v") = None /\
    propagated s' = propagated (later []) ++ [(0, [str "DEL"; str "v"])]).
Proof.
  assert (must_expire (later []) (0, str "v") = true) as Hm by (vm_compute; reflexivity).
  split; [vm_compute; eauto|]. split; [exact Hm|].
  pose proof (expired_keys_invisible watches (later []) 1%positive _ (str "v") true (later_ok []) (later_client [])) as H. cbv beta iota zeta in H.
  change (c_db (with_argv [] cl1)) with 0 in H. rewrite Hm in H. eapply wp_mono; [exact H|]. intros s' o (-> & H1 & _ & H2 & _). split; [done|]. by split.
Defined.

(** ** Three departures *)

(** Client 2 watches [a], which holds a set now, and is not marked. *)
Definition calm : server := upd_clients (fun m => <[2%positive := with_watched [(key_a, 0)] new_client]> m) busy.
Definition marked (s : server) (c : cid) : bool := match clients s !! c with Some cl => has_flag (flags cl) REDIS_DIRTY_CAS | None => false end.

(** MOVE takes the watched key away and leaves its watcher unmarked: the
    transaction of client 2 would run. *)
Example move_not_signalled : match run_command enc 1%positive MOVE (words ["MOVE"; "a"; "1"]%string) calm with
  | Some (s', _) => val_at calm (0, key_a) <> None /\ val_at s' (0, key_a) = None /\ val_at s' (1, key_a) <> None /\ marked s' 2%positive = false
  | None => False
  end.
Proof. vm_compute. split_and!; (reflexivity || discriminate). Qed.

(** MOVE drops the expiration of the key. *)
Example move_drops_expiration : match run_command enc 1%positive MOVE (words ["MOVE"; "v"; "1"]%string) busy with
  | Some (s', _) => expire_at busy (0, str "v") = Some 1003 /\ val_at s' (1, str "v") <> None /\ expire_at s' (1, str "v") = None
  | None => False
  end.
Proof. vm_compute. split_and!; (reflexivity || discriminate). Qed.

(** PERSIST on a key that is due makes it permanent: EXISTS would have said
    that there is no such key. *)
Example persist_revives :
  match run_command enc 1%positive EXISTS (words ["EXISTS"; "v"]%string) (later []), run_command enc 1%positive PERSIST (words ["PERSIST"; "v"]%string) (later []) with
  | Some (s1, _), Some (s2, _) => must_expire (later []) (0, str "v") = true /\ dict_at s1 (0, str "v") = None /\
      dict_at s2 (0, str "v") <> None /\ expire_at s2 (0, str "v") = None
  | _, _ => False
  end.
Proof. vm_compute. split_and!; (reflexivity || discriminate). Qed.

(** A union that lists a volatile key twice looks it up twice: when it expires
    in between, the first lookup's pointer is to a value that was freed. *)
Example union_reads_freed_set : let s := upd_ticks (fun _ => 3%nat) busy in must_expire s (0, str "v") = false /\
  run_command enc 1%positive SUNION (words ["SUNION"; "v"; "v"]%string) s = None /\
  is_Some (run_command enc 1%positive SUNION (words ["SUNION"; "v"; "v"]%string) (later [])).
Proof. vm_compute. split_and!; (reflexivity || eauto). Qed.
