(* ===== verification/Multi.v ===== *)
(** * Requests and transactions (multi.c, [call] and [processCommand] of redis.c)

    A request is looked up, checked, and then run or, inside MULTI, queued; EXEC
    runs the queue.  WATCH and UNWATCH keep both directions of the watching
    relation.  The table of commands holds the commands of this development only:
    a server on which all others are disabled.  What [processCommand] asks about
    the rest of the server, and does not change, is the record [front]. *)
From Stdlib Require Import Lia ZArith String.
From stdpp Require Import base numbers list tactics option gmap fin_maps fin_sets sets.
From S2P Require Import Prelude Util Intset Dict DictRep DictIter Object Glob SetType Server Pubsub Crc Db DbOk DbRules DbCommands SetCmd SetCmdOk SetCommands Commands.

#[local] Open Scope Z_scope.

Definition REDIS_MASTER : Z := 1.
Definition REDIS_CLOSE_AFTER_REPLY : Z := 6.
Definition REDIS_FORCE_AOF : Z := 14.
Definition REDIS_FORCE_REPL : Z := 15.

(** ** The table *)

Definition command_name (cmd : command) : string :=
  match cmd with
  | DEL => "del" | EXISTS => "exists" | SADD => "sadd" | SREM => "srem" | SMOVE => "smove" | SISMEMBER => "sismember" | SCARD => "scard"
  | SINTER => "sinter" | SINTERSTORE => "sinterstore" | SUNION => "sunion" | SUNIONSTORE => "sunionstore" | SDIFF => "sdiff" | SDIFFSTORE => "sdiffstore"
  | MOVE => "move" | RENAME => "rename" | RENAMENX => "renamenx" | EXPIRE => "expire" | EXPIREAT => "expireat" | PEXPIRE => "pexpire" | PEXPIREAT => "pexpireat"
  | MULTI => "multi" | EXEC => "exec" | DISCARD => "discard" | FLUSHDB => "flushdb" | FLUSHALL => "flushall" | TTL => "ttl" | PTTL => "pttl" | PERSIST => "persist"
  | SUBSCRIBE => "subscribe" | UNSUBSCRIBE => "unsubscribe" | PSUBSCRIBE => "psubscribe" | PUNSUBSCRIBE => "punsubscribe" | PUBLISH => "publish"
  | WATCH => "watch" | UNWATCH => "unwatch"
  end.

Definition redisCommandTable : list command :=
  [DEL; EXISTS; SADD; SREM; SMOVE; SISMEMBER; SCARD; SINTER; SINTERSTORE; SUNION; SUNIONSTORE; SDIFF; SDIFFSTORE; MOVE; RENAME; RENAMENX;
   EXPIRE; EXPIREAT; PEXPIRE; PEXPIREAT; MULTI; EXEC; DISCARD; FLUSHDB; FLUSHALL; TTL; PTTL; PERSIST;
   SUBSCRIBE; UNSUBSCRIBE; PSUBSCRIBE; PUNSUBSCRIBE; PUBLISH; WATCH; UNWATCH].

(** The names are compared without regard to case. *)
Definition lookupCommand (name : list Z) : option command :=
  head (filter (fun cmd => tolower <$> name = bytes_of (command_name cmd)) redisCommandTable).

(** The flags "r", "l" and "t" of the table, and whether a command has keys. *)
Definition is_readonly (cmd : command) : bool := match cmd with EXEC => false | _ => negb (is_write cmd) end.
Definition is_pubsub (cmd : command) : bool :=
  match cmd with SUBSCRIBE | UNSUBSCRIBE | PSUBSCRIBE | PUNSUBSCRIBE => true | _ => false end.
Definition is_loading (cmd : command) : bool := is_pubsub cmd || match cmd with PUBLISH => true | _ => false end.
Definition is_stale (cmd : command) : bool := is_loading cmd.
Definition has_keys (cmd : command) : bool :=
  negb (is_loading cmd) && match cmd with MULTI | EXEC | DISCARD | FLUSHDB | FLUSHALL | UNWATCH => false | _ => true end.

(** What [processCommand] reads of the configuration and of the state of
    persistence, replication, the cluster and scripts.  There is no memory limit. *)
Record front := mk_front {
  requirepass : bool; authenticated : cid -> bool;
  redirected : cid -> command -> list (list Z) -> option reply;
  bgsave_failed : bool; aof_failed : bool; too_few_slaves : bool;
  repl_slave_ro : bool; master_down : bool; lua_timedout : bool }.

Section Multi.
Context `{E : Env} (int_encoded : list Z -> bool).

(** ** Watched keys *)

Definition watchForKey (c : cid) (k : key) : M unit :=
  cl ← get_client c;
  let id := c_db cl in
  if decide ((k, id) ∈ c_watched cl) then mret tt else
  db ← get_db id;
  (match watched_keys db !! k with
   | None => mod_db id (with_watchers (<[k := [c]]>))
   | Some clients => mod_db id (with_watchers (<[k := clients ++ [c]]>))
   end);;
  mod_client c (fun cl => with_watched (c_watched cl ++ [(k, id)]) cl).

(** Each round deletes the node the iterator returned, the first one. *)
Definition unwatch_head (c : cid) (wk : key * Z) : M unit :=
  let '(k, id) := wk in
  db ← get_db id;
  clients ← lift (watched_keys db !! k);
  clients ← lift (list_remove c clients);
  mod_db id (with_watchers (if zlen clients =? 0 then base.delete k else <[k := clients]>));;
  mod_client c (fun cl => with_watched (drop 1 (c_watched cl)) cl).

Definition unwatchAllKeys (c : cid) : M unit := cl ← get_client c; for_each (unwatch_head c) (c_watched cl).

Definition in_multi (cl : redisClient) : bool := has_flag (flags cl) REDIS_MULTI.
Definition is_dirty (cl : redisClient) : bool := has_flag (flags cl) REDIS_DIRTY_CAS || has_flag (flags cl) REDIS_DIRTY_EXEC.

Definition watchCommand (c : cid) : M unit :=
  cl ← get_client c;
  if in_multi cl then addReply c (ErrText "WATCH inside MULTI is not allowed") else
  l ← args_from c 1;
  for_each (watchForKey c) l;;
  addReply c Ok.

Definition unwatchCommand (c : cid) : M unit :=
  unwatchAllKeys c;;
  mod_client c (with_flags (fun f => clear_flag f REDIS_DIRTY_CAS));;
  addReply c Ok.

(** ** The queue *)

Definition queueMultiCommand (c : cid) (cmd : command) : M unit := mod_client c (fun cl => with_mstate (mstate cl ++ [(cmd, argv cl)]) cl).

Definition initClientMultiState (c : cid) : M unit := mod_client c (with_mstate []).

Definition discardTransaction (c : cid) : M unit :=
  initClientMultiState c;;
  mod_client c (with_flags (fun f => clear_flag (clear_flag (clear_flag f REDIS_MULTI) REDIS_DIRTY_CAS) REDIS_DIRTY_EXEC));;
  unwatchAllKeys c.

Definition flagTransaction (c : cid) : M unit :=
  cl ← get_client c;
  if in_multi cl then mod_client c (with_flags (fun f => set_flag f REDIS_DIRTY_EXEC)) else mret tt.

Definition multiCommand (c : cid) : M unit :=
  cl ← get_client c;
  if in_multi cl then addReply c (ErrText "MULTI calls can not be nested") else
  mod_client c (with_flags (fun f => set_flag f REDIS_MULTI));;
  addReply c Ok.

Definition discardCommand (c : cid) : M unit :=
  cl ← get_client c;
  if negb (in_multi cl) then addReply c (ErrText "DISCARD without MULTI") else
  discardTransaction c;;
  addReply c Ok.

(** ** Running a command *)

Definition propagate (dbid : Z) (l : list (list Z)) : M unit := modify (upd_propagated (fun log => log ++ [(dbid, l)])).

Definition no_force (f : Z) : Z := clear_flag (clear_flag f REDIS_FORCE_AOF) REDIS_FORCE_REPL.

(** The statistics, the slow log and MONITOR leave this state alone. *)
Definition call (c : cid) (proc : cid -> M unit) : M unit :=
  cl ← get_client c;
  let client_old_flags := flags cl in
  mod_client c (with_flags no_force);;
  s ← get;
  let dirty0 := dirty s in
  proc c;;
  s ← get;
  let d := if dirty s - dirty0 <? 0 then 0 else dirty s - dirty0 in
  cl ← get_client c;
  (if has_flag (flags cl) REDIS_FORCE_REPL || has_flag (flags cl) REDIS_FORCE_AOF || negb (d =? 0)
   then propagate (c_db cl) (argv cl) else mret tt);;
  mod_client c (with_flags (fun f => Z.lor (no_force f) (Z.land client_old_flags (Z.lor (Z.shiftl 1 REDIS_FORCE_AOF) (Z.shiftl 1 REDIS_FORCE_REPL))))).

(** On a cluster the message goes out on the bus. *)
Definition publishCommand (c : cid) : M unit :=
  channel ← arg c 1;
  message ← arg c 2;
  receivers ← pubsubPublishMessage channel message;
  s ← get;
  (if cluster_enabled (cfg s) then mret tt else mod_client c (with_flags (fun f => set_flag f REDIS_FORCE_REPL)));;
  addReply c (Integer receivers).

(** The functions of the table, EXEC aside. *)
Definition queued_proc (cmd : command) : option (cid -> M unit) :=
  match cmd with
  | MULTI => Some multiCommand | DISCARD => Some discardCommand | WATCH => Some watchCommand | UNWATCH => Some unwatchCommand
  | SUBSCRIBE => Some subscribeCommand | UNSUBSCRIBE => Some unsubscribeCommand | PSUBSCRIBE => Some psubscribeCommand | PUNSUBSCRIBE => Some punsubscribeCommand
  | PUBLISH => Some publishCommand
  | _ => data_proc int_encoded cmd
  end.

Definition execCommandPropagateMulti (c : cid) : M unit := id ← c_dbid c; propagate id [bytes_of "MULTI"].

(** One round of the loop of [execCommand]. *)
Definition exec_round (c : cid) (j : nat) (must_propagate : bool) : M bool :=
  cl ← get_client c;
  queued ← lift (mstate cl !! j);
  let '(cmd, l) := (queued : command * list (list Z)) in
  mod_client c (with_argv l);;
  must_propagate ← (if negb must_propagate && negb (is_readonly cmd) then execCommandPropagateMulti c;; mret (M:=M) true else mret must_propagate);
  proc ← lift (queued_proc cmd);
  call c proc;;
  mod_client c (fun cl => with_mstate (<[j := (cmd, argv cl)]> (mstate cl)) cl);;
  mret must_propagate.

Fixpoint exec_loop (c : cid) (n j : nat) (must_propagate : bool) : M bool :=
  match n with O => mret must_propagate | S n => must_propagate ← exec_round c j must_propagate; exec_loop c n (S j) must_propagate end.

Definition execCommand (c : cid) : M unit :=
  cl ← get_client c;
  if negb (in_multi cl) then addReply c (ErrText "EXEC without MULTI") else
  if is_dirty cl then
    addReply c (if has_flag (flags cl) REDIS_DIRTY_EXEC then ErrExecAbort else NullMultiBulk);;
    discardTransaction c
  else
  unwatchAllKeys c;;
  let orig_argv := argv cl in
  addReply c (MultiBulkLen (zlen (mstate cl)));;
  must_propagate ← exec_loop c (length (mstate cl)) 0 false;
  mod_client c (with_argv orig_argv);;
  discardTransaction c;;
  if (must_propagate : bool) then add_dirty 1 else mret tt.

Definition table_proc (cmd : command) : option (cid -> M unit) := match cmd with EXEC => Some execCommand | _ => queued_proc cmd end.

(** ** Requests *)

Context (fr : front).

(** The error a command is refused with, and whether it flags the transaction. *)
Definition refusal (s : server) (c : cid) (cl : redisClient) (cmd : command) : option (bool * reply) :=
  if requirepass fr && negb (authenticated fr c) then Some (true, ErrText "NOAUTH Authentication required.") else
  match (if cluster_enabled (cfg s) && negb (has_flag (flags cl) REDIS_MASTER) && has_keys cmd then redirected fr c cmd (argv cl) else None) with
  | Some r => Some (true, r)
  | None =>
  if (bgsave_failed fr || aof_failed fr) && negb (masterhost (cfg s)) && is_write cmd then
    Some (true, ErrText (if negb (aof_failed fr) then "MISCONF Redis is configured to save RDB snapshots" else "MISCONF Errors writing to the AOF file")) else
  if negb (masterhost (cfg s)) && too_few_slaves fr && is_write cmd then Some (true, ErrText "NOREPLICAS Not enough good slaves to write.") else
  if masterhost (cfg s) && repl_slave_ro fr && negb (has_flag (flags cl) REDIS_MASTER) && is_write cmd then
    Some (false, ErrText "READONLY You can't write against a read only slave.") else
  if has_flag (flags cl) REDIS_PUBSUB && negb (is_pubsub cmd) then
    Some (false, ErrText "only (P)SUBSCRIBE / (P)UNSUBSCRIBE / QUIT allowed in this context") else
  if masterhost (cfg s) && master_down fr && negb (is_stale cmd) then Some (true, ErrText "MASTERDOWN Link with MASTER is down and slave-serve-stale-data is set to 'no'.") else
  if loading (cfg s) && negb (is_loading cmd) then Some (false, ErrText "LOADING Redis is loading the dataset in memory") else
  if lua_timedout fr then Some (true, ErrText "BUSY Redis is busy running a script.") else None
  end.

(** Inside MULTI all commands but these are queued. *)
Definition runs_in_multi (cmd : command) : bool := match cmd with EXEC | DISCARD | MULTI | WATCH => true | _ => false end.

Definition refuse (c : cid) (flag : bool) (r : reply) : M unit := (if flag then flagTransaction c else mret tt);; addReply c r.

(** Clients blocked on lists are served elsewhere. *)
Definition processCommand (c : cid) : M unit :=
  name ← arg c 0;
  if decide (tolower <$> c_str name = bytes_of "quit") then
    addReply c Ok;; mod_client c (with_flags (fun f => set_flag f REDIS_CLOSE_AFTER_REPLY))
  else
  match lookupCommand name with
  | None => refuse c true (ErrText "unknown command")
  | Some cmd =>
      cl ← get_client c;
      if negb (arity_ok cmd (zlen (argv cl))) then refuse c true (ErrText "wrong number of arguments") else
      s ← get;
      match refusal s c cl cmd with
      | Some (flag, r) => refuse c flag r
      | None =>
          if in_multi cl && negb (runs_in_multi cmd) then queueMultiCommand c cmd;; addReply c Queued
          else proc ← lift (table_proc cmd); call c proc
      end
  end.

End Multi.
