(* ===== verification/MultiOk.v ===== *)
(** * Requests keep the state consistent

    The effects of WATCH, UNWATCH and the transaction commands on both directions
    of the watching relation, and what a request may change: the relation
    [progress] between the states before and after it, for the keys watched
    before and after. *)
From Stdlib Require Import Lia ZArith String.
From stdpp Require Import base numbers list tactics option gmap fin_maps fin_sets sets.
From S2P Require Import Prelude Util Intset Dict DictRep DictIter Object Glob SetType Server Pubsub Crc Db DbOk DbRules DbCommands SetCmd SetCmdOk SetCommands Commands SetAlgebra Multi.

#[local] Open Scope Z_scope.

Section Ok.
Context `{E : Env}.
Implicit Types (W : gset (cid * loc)) (P : gset loc) (s : server) (cl : redisClient).

(** ** States with the same keys *)

Record retains s s' : Prop := {
  rt_cfg : cfg s' = cfg s;
  rt_view : pview s' = pview s;
  rt_keys : forall x, dict_at s' x = dict_at s x /\ expire_at s' x = expire_at s x;
  rt_slots : slots_to_keys s' = slots_to_keys s;
  rt_dbs : forall id, is_Some (rd (dbs s) id) -> is_Some (rd (dbs s') id);
  rt_clients : forall c cl', clients s' !! c = Some cl' -> exists cl, clients s !! c = Some cl /\ c_db cl' = c_db cl;
  rt_log : propagated s' = propagated s /\ dirty s' = dirty s;
}.

#[global] Instance retains_preorder : PreOrder retains.
Proof.
  constructor.
  - intros s. constructor; eauto.
  - intros s s1 s2 [H1 H2 H3 H4 H5 H6 [H7 H8]] [K1 K2 K3 K4 K5 K6 [K7 K8]]. constructor; try congruence; auto.
    + intros x. destruct (K3 x) as [-> ->]. apply H3.
    + intros c cl' Hc. destruct (K6 c cl' Hc) as (cl1 & Hc1 & ->). by apply H6.
    + split; congruence.
Qed.

Lemma server_ok_retains W W' s s' : server_ok W s -> retains s s' -> watch_rep W' s' -> server_ok W' s'.
Proof.
  intros [H1 H2 H3 H4 H5 H6] [K1 K2 K3 K4 K5 K6 _] Hw. constructor.
  - destruct H1 as (subs & psubs & Hr & Hp). exists subs, psubs. split; [by eapply pubsub_rep_view | done].
  - done.
  - intros x. destruct (K3 x) as [-> ->]. apply H3.
  - intros x o. destruct (K3 x) as [-> _]. apply H4.
  - rewrite K1, K4. intros Hc. destruct (H5 Hc) as (A1 & A2 & A3). split_and!.
    + intros sl k. destruct (K3 (0, k)) as [-> _]. apply A1.
    + intros x. destruct (K3 x) as [-> _]. apply A2.
    + intros c cl' Hcl. destruct (K6 c cl' Hcl) as (cl & Hcl0 & ->). by eapply A3.
  - intros c cl' Hcl. destruct (K6 c cl' Hcl) as (cl & Hcl0 & ->). by eapply K5, H6.
Qed.

(** One client changes, but not its database nor its subscriptions. *)
Definition edited cl cl' : Prop := c_db cl' = c_db cl /\ c_channels cl' = c_channels cl /\ c_patterns cl' = c_patterns cl.

Lemma retains_client s c cl cl' : clients s !! c = Some cl -> edited cl cl' -> retains s (upd_clients (fun m => <[c := cl']> m) s).
Proof.
  intros Hc (H1 & H2 & H3). constructor; try done; eauto.
  - by apply (pview_client s c cl).
  - intros c' cl''. cbn. rewrite lookup_insert_Some. intros [[<- <-]|[_ H]]; eauto.
Qed.

Lemma watch_rep_client W s c cl cl' : clients s !! c = Some cl -> c_watched cl' = c_watched cl -> watch_rep W s ->
  watch_rep W (upd_clients (fun m => <[c := cl']> m) s).
Proof.
  intros Hc Hw [H1 H2 H3]. constructor.
  - intros c' cl''. cbn. rewrite lookup_insert_Some. intros [[<- <-]|[_ H]]; [rewrite Hw|]; by apply H1.
  - intros c' x Hx. destruct (H2 c' x Hx) as [Hl Hd]. split; [|done]. cbn. rewrite lookup_insert_is_Some'. by right.
  - exact H3.
Qed.

(** ** Unwatching and watching *)

Lemma rd_upd_db s id db db' j : rd (dbs s) id = Some db ->
  rd (dbs (upd_dbs (fun l => <[Z.to_nat id := db']> l) s)) j = if decide (id = j) then Some db' else rd (dbs s) j.
Proof. intros H. apply rd_insert. eauto. Qed.

(** The watchers of one database change. *)
Lemma retains_watchers s id db f : rd (dbs s) id = Some db -> retains s (upd_dbs (fun l => <[Z.to_nat id := with_watchers f db]> l) s).
Proof.
  intros Hdb. constructor; try done; eauto.
  - intros [j k]. unfold dict_at, expire_at. cbn [fst snd]. rewrite (rd_upd_db s id db) by done.
    destruct (decide (id = j)) as [<-|]; [by rewrite Hdb | done].
  - intros j. rewrite (rd_upd_db s id db) by done. destruct (decide (id = j)); eauto.
Qed.

Lemma watchers_at W s id db c k : watch_rep W s -> rd (dbs s) id = Some db -> (c, (id, k)) ∈ W ->
  exists l l', watched_keys db !! k = Some l /\ list_remove c l = Some l' /\ NoDup l' /\ forall c', c' ∈ l' <-> (c', (id, k)) ∈ W /\ c' <> c.
Proof.
  intros [_ _ H3] Hdb Hin. specialize (H3 id db Hdb k). destruct (watched_keys db !! k) as [l|] eqn:El; [|by apply H3 in Hin].
  destruct H3 as (Hne & Hnd & Hl). pose proof (list_remove_spec c l Hnd) as Hrm. destruct (list_remove c l) as [l'|] eqn:Erm.
  - destruct Hrm as (Hc & Hnd' & Hin'). exists l, l'. split_and!; try done. intros c'. rewrite Hin', Hl. naive_solver.
  - by apply Hl in Hin.
Qed.

Lemma r_unwatch_head W s c cl k id rest (Q : server -> unit -> Prop) : watch_rep W s -> clients s !! c = Some cl -> c_watched cl = (k, id) :: rest ->
  (forall s', watch_rep (W ∖ {[(c, (id, k))]}) s' -> retains s s' -> clients s' = <[c := with_watched rest cl]> (clients s) -> Q s' tt) ->
  wp (unwatch_head c (k, id)) s Q.
Proof.
  intros Hw Hc Hcl HQ. pose proof Hw as [H1 H2 H3]. destruct (H1 c cl Hc) as [Hnd Hin]. rewrite Hcl in Hnd, Hin. apply NoDup_cons in Hnd as [Hk Hnd].
  assert ((c, (id, k)) ∈ W) as HW by (apply Hin; left). destruct (H2 _ _ HW) as [_ [db Hdb]]. cbn in Hdb.
  destruct (watchers_at W s id db c k Hw Hdb HW) as (l & l' & Hl & Hrm & Hndl & Hl'). unfold unwatch_head.
  apply wp_bind, (wp_get_db id db); [done|]. apply wp_bind, (wp_lift _ l); [done|]. apply wp_bind, (wp_lift _ l'); [done|].
  apply wp_bind, (wp_mod_db id db); [done|]. apply (wp_mod_client c cl); [done|]. rewrite Hcl. cbn [drop]. rewrite drop_0.
  set (s1 := upd_dbs _ s). assert (clients s1 !! c = Some cl) as Hc1 by done.
  apply HQ; [|etrans; [by apply retains_watchers | by apply (retains_client s1 c cl)] | done]. constructor.
  - intros c' cl'. cbn [clients upd_clients]. rewrite lookup_insert_Some. intros [[<- <-]|[Hne H]]; cbn [c_watched with_watched].
    + split; [done|]. intros k' id'. specialize (Hin k' id'). rewrite elem_of_difference, elem_of_singleton, <- Hin. set_solver.
    + destruct (H1 c' cl' H) as [Hn Hi]. split; [done|]. intros k' id'. rewrite Hi, elem_of_difference, elem_of_singleton. naive_solver.
  - intros c' x [HW' _]%elem_of_difference. destruct (H2 c' x HW') as [Hlive Hd]. cbn [clients upd_clients]. rewrite lookup_insert_is_Some'. split; [by right|].
    change (is_Some (rd (dbs s1) x.1)). subst s1. rewrite (rd_upd_db s id db) by done. destruct (decide (id = x.1)); eauto.
  - intros j db' Hj k'. change (rd (dbs s1) j = Some db') in Hj. subst s1. rewrite (rd_upd_db s id db) in Hj by done.
    destruct (decide (id = j)) as [<-|Hne]; [injection Hj as <- | ].
    + cbn [watched_keys with_watchers]. destruct (decide (k = k')) as [<-|Hk'].
      * destruct (zlen l' =? 0) eqn:El; zbool.
        -- rewrite lookup_delete_eq. intros c'. assert (l' = []) as -> by (destruct l'; [done | cbn in El; lia]). specialize (Hl' c'). set_solver.
        -- rewrite lookup_insert_eq. split; [by destruct l'|]. split; [done|]. intros c'. rewrite Hl', elem_of_difference, elem_of_singleton. naive_solver.
      * specialize (H3 id db Hdb k'). assert ((if zlen l' =? 0 then base.delete k else <[k:=l']>) (watched_keys db) !! k' = watched_keys db !! k') as ->
          by (destruct (zlen l' =? 0); [by rewrite lookup_delete_ne | by rewrite lookup_insert_ne]).
        destruct (watched_keys db !! k') as [l1|]; set_solver.
    + specialize (H3 j db' Hj k'). destruct (watched_keys db' !! k') as [l1|]; set_solver.
Qed.

(** The watching relation without client [c]. *)
Definition without (c : cid) W : gset (cid * loc) := filter (fun p => p.1 <> c) W.
Lemma elem_of_without c W c' x : (c', x) ∈ without c W <-> (c', x) ∈ W /\ c' <> c.
Proof. unfold without. rewrite elem_of_filter. cbn. tauto. Qed.

Lemma r_unwatchAllKeys W s c cl (Q : server -> unit -> Prop) : server_ok W s -> clients s !! c = Some cl ->
  (forall s', server_ok (without c W) s' -> retains s s' -> clients s' = <[c := with_watched [] cl]> (clients s) -> Q s' tt) ->
  wp (unwatchAllKeys c) s Q.
Proof.
  intros Hok Hc HQ. unfold unwatchAllKeys. apply wp_bind, (wp_get_client c cl); [done|].
  assert (forall l W1 s1, watch_rep W1 s1 -> clients s1 = <[c := with_watched l cl]> (clients s) -> retains s s1 -> (forall c' x, c' <> c -> (c', x) ∈ W1 <-> (c', x) ∈ W) ->
    wp (for_each (unwatch_head c) l) s1 Q) as Hloop.
  { induction l as [|[k id] l IH]; intros W1 s1 Hw1 Hc1 Hr1 HW1; cbn [for_each].
    - apply wp_ret, HQ; [|done..]. eapply server_ok_retains; [exact Hok | exact Hr1 |]. replace (without c W) with W1; [done|]. apply set_eq. intros [c' x].
      rewrite elem_of_without. destruct (decide (c' = c)) as [->|Hne]; [|rewrite HW1 by done; tauto]. split; [|tauto]. intros HW.
      assert (clients s1 !! c = Some (with_watched [] cl)) as Hcl by (by rewrite Hc1, lookup_insert_eq).
      destruct (wr_clients _ _ Hw1 c _ Hcl) as [_ Hin]. destruct x as [id k]. specialize (Hin k id). cbn in Hin. set_solver.
    - assert (clients s1 !! c = Some (with_watched ((k, id) :: l) cl)) as Hcl by (by rewrite Hc1, lookup_insert_eq).
      apply wp_bind. eapply (r_unwatch_head W1 s1 c _ k id l); [done | exact Hcl | done |]. intros s2 Hw2 Hr2 Hc2. eapply IH; [exact Hw2 | | by etrans |].
      + rewrite Hc2, Hc1, insert_insert_eq. done.
      + intros c' x Hne. rewrite elem_of_difference, elem_of_singleton, HW1 by done. naive_solver. }
  apply (Hloop _ W s); [apply Hok | | done | done]. rewrite insert_id; [done|]. rewrite Hc. by destruct cl.
Qed.

(** A key the client watches from now on. *)
Lemma r_watchForKey W s c cl k (Q : server -> unit -> Prop) : server_ok W s -> clients s !! c = Some cl ->
  (forall s' l, server_ok ({[(c, (c_db cl, k))]} ∪ W) s' -> retains s s' -> clients s' = <[c := with_watched l cl]> (clients s) -> Q s' tt) ->
  wp (watchForKey c k) s Q.
Proof.
  intros Hok Hc HQ. pose proof (ok_watch _ _ Hok) as Hw. pose proof Hw as [H1 H2 H3]. destruct (H1 c cl Hc) as [Hnd Hin].
  unfold watchForKey. apply wp_bind, (wp_get_client c cl); [done|]. destruct (decide ((k, c_db cl) ∈ c_watched cl)) as [Hk|Hk].
  - apply wp_ret, (HQ s (c_watched cl)); [|done|].
    + replace ({[(c, (c_db cl, k))]} ∪ W) with W; [done|]. apply Hin in Hk. set_solver.
    + rewrite insert_id; [done|]. rewrite Hc. by destruct cl.
  - destruct (ok_clients _ _ Hok c cl Hc) as [db Hdb]. apply wp_bind, (wp_get_db _ db); [done|].
    pose (l' := default [] (watched_keys db !! k) ++ [c]).
    assert (wp (match watched_keys db !! k with
       | None => mod_db (c_db cl) (with_watchers (<[k := [c]]>))
       | Some clients => mod_db (c_db cl) (with_watchers (<[k := clients ++ [c]]>))
       end) s (fun s' _ => s' = upd_dbs (fun l => <[Z.to_nat (c_db cl) := with_watchers (<[k := l']>) db]> l) s)) as Hdbs.
    { destruct (watched_keys db !! k) eqn:El; (apply (wp_mod_db _ db); [done|]); unfold l'; by rewrite ?El. }
    apply wp_bind. eapply wp_mono; [exact Hdbs|]. intros s1 _ ->. set (s1 := upd_dbs _ s). assert (clients s1 !! c = Some cl) as Hc1 by done.
    apply (wp_mod_client c cl); [done|]. assert ((c, (c_db cl, k)) ∉ W) as HnW by (intros HW; by apply Hk, Hin).
    assert (retains s (upd_clients (fun m => <[c := with_watched (c_watched cl ++ [(k, c_db cl)]) cl]> m) s1)) as Hr
      by (etrans; [by apply retains_watchers | by apply (retains_client s1 c cl)]).
    eapply HQ; [|exact Hr | done]. eapply server_ok_retains; [exact Hok | exact Hr |]. constructor.
    + intros c' cl'. cbn [clients upd_clients]. rewrite lookup_insert_Some. intros [[<- <-]|[Hne H]]; cbn [c_watched with_watched].
      * split; [apply NoDup_app; split; [done|]; split; [set_solver | apply NoDup_singleton]|]. intros k' id'.
        rewrite elem_of_app, Hin, list_elem_of_singleton, elem_of_union, elem_of_singleton. naive_solver.
      * destruct (H1 c' cl' H) as [Hn Hi]. split; [done|]. intros k' id'. rewrite Hi. set_solver.
    + intros c' x Hx. cbn [clients upd_clients]. rewrite lookup_insert_is_Some'. change (dbs (upd_clients _ s1)) with (dbs s1).
      assert ((c' = c /\ x = (c_db cl, k)) \/ (c', x) ∈ W) as [[-> ->]|HW] by set_solver.
      * split; [by left|]. subst s1. rewrite (rd_upd_db s _ db) by done. cbn [fst]. by rewrite decide_True.
      * destruct (H2 c' x HW) as [Hlive Hd]. split; [by right|]. subst s1. rewrite (rd_upd_db s _ db) by done. destruct (decide (c_db cl = x.1)); eauto.
    + intros j db' Hj k'. change (rd (dbs s1) j = Some db') in Hj. subst s1. rewrite (rd_upd_db s _ db) in Hj by done.
      destruct (decide (c_db cl = j)) as [<-|Hne]; [injection Hj as <- | specialize (H3 j db' Hj k'); destruct (watched_keys db' !! k') as [l1|]; set_solver].
      cbn [watched_keys with_watchers]. specialize (H3 _ db Hdb k'). destruct (decide (k = k')) as [<-|Hk'].
      * rewrite lookup_insert_eq. unfold l'. destruct (watched_keys db !! k) as [l1|]; cbn.
        -- destruct H3 as (Hl1 & Hnd1 & Hin1). split; [by destruct l1|]. split; [apply NoDup_app; split; [done|]; split; [set_solver | apply NoDup_singleton]|]. set_solver.
        -- split; [done|]. split; [apply NoDup_singleton | set_solver].
      * rewrite lookup_insert_ne by done. destruct (watched_keys db !! k') as [l1|]; set_solver.
Qed.

Lemma r_watch_all W c cl l : forall s (Q : server -> unit -> Prop) , server_ok W s -> clients s !! c = Some cl ->
  (forall s' W' w, server_ok W' s' -> W ⊆ W' -> (forall c' x, c' <> c -> (c', x) ∈ W' -> (c', x) ∈ W) -> retains s s' -> clients s' = <[c := with_watched w cl]> (clients s) -> Q s' tt) ->
  wp (for_each (watchForKey c) l) s Q.
Proof.
  revert W cl. induction l as [|k l IH]; intros W cl s Q Hok Hc HQ; cbn [for_each].
  - apply wp_ret, (HQ s W (c_watched cl)); [done..|]. rewrite insert_id; [done|]. rewrite Hc. by destruct cl.
  - apply wp_bind. eapply (r_watchForKey W s c cl k); [done..|]. intros s1 w Hok1 Hr1 Hc1.
    eapply (IH _ (with_watched w cl) s1); [exact Hok1 | by rewrite Hc1, lookup_insert_eq |]. intros s2 W2 w2 Hok2 HW2 HW2' Hr2 Hc2.
    eapply (HQ s2 W2 w2); [done | set_solver | | by etrans | by rewrite Hc2, Hc1, insert_insert_eq].
    intros c' x Hne Hx. specialize (HW2' c' x Hne Hx). set_solver.
Qed.

(** ** Flags *)

Definition unforced s : Prop := forall c cl, clients s !! c = Some cl -> has_flag (flags cl) REDIS_FORCE_AOF = false /\ has_flag (flags cl) REDIS_FORCE_REPL = false.

Lemma no_force_id f : has_flag f REDIS_FORCE_AOF = false -> has_flag f REDIS_FORCE_REPL = false -> no_force f = f.
Proof.
  intros H1 H2. apply Z.bits_inj'. intros n Hn. change (has_flag (no_force f) n = has_flag f n). unfold no_force. rewrite !has_clear_flag by done.
  destruct (Z.eqb_spec REDIS_FORCE_AOF n) as [<-|]; [by rewrite H1|]. destruct (Z.eqb_spec REDIS_FORCE_REPL n) as [<-|]; [by rewrite H2, andb_false_r|].
  by rewrite !andb_true_r.
Qed.

Lemma restore_id f old : has_flag f REDIS_FORCE_AOF = false -> has_flag f REDIS_FORCE_REPL = false ->
  has_flag old REDIS_FORCE_AOF = false -> has_flag old REDIS_FORCE_REPL = false ->
  Z.lor (no_force f) (Z.land old (Z.lor (Z.shiftl 1 REDIS_FORCE_AOF) (Z.shiftl 1 REDIS_FORCE_REPL))) = f.
Proof.
  intros H1 H2 H3 H4. rewrite no_force_id by done. apply Z.bits_inj'. intros n Hn. rewrite Z.lor_spec, Z.land_spec, Z.lor_spec.
  assert (forall b, 0 <= b -> Z.testbit (Z.shiftl 1 b) n = (b =? n)) as Hbit.
  { intros b Hb. pose proof (has_set_flag 0 b n Hb Hn) as H. unfold has_flag, set_flag in H. by rewrite Z.lor_0_l, Z.bits_0 in H. }
  rewrite !Hbit by done. unfold has_flag in *. destruct (Z.eqb_spec REDIS_FORCE_AOF n) as [<-|]; [by rewrite H3, orb_false_r|].
  destruct (Z.eqb_spec REDIS_FORCE_REPL n) as [<-|]; [by rewrite H4, orb_false_r|]. by rewrite andb_false_r, orb_false_r.
Qed.

Lemma with_flags_id f cl : f (flags cl) = flags cl -> with_flags f cl = cl.
Proof. intros Hf. unfold with_flags. rewrite Hf. by destruct cl. Qed.

Lemma upd_clients_id s c cl : clients s !! c = Some cl -> upd_clients (fun m => <[c := cl]> m) s = s.
Proof. intros Hc. unfold upd_clients. rewrite insert_id by done. by destruct s. Qed.


(** ** What a step keeps *)

(** From [s], where the clients watch the keys [W], to [s'], where they watch
    [W']; the keys [P] were moved. *)
Record progress W W' P s s' : Prop := {
  pg_ok : server_ok W' s';
  pg_unforced : unforced s -> unforced s';
  pg_db : forall c, c_db <$> clients s' !! c = c_db <$> clients s !! c;
  pg_watch : forall c x, (c, x) ∈ W -> (c, x) ∈ W' -> (flagged s c -> flagged s' c) /\ (flagged s' c \/ x ∈ P \/ undisturbed s s' x);
}.

Lemma pg_live W W' P s s' c : progress W W' P s s' -> is_Some (clients s !! c) -> is_Some (clients s' !! c).
Proof. intros Hp [cl Hc]. pose proof (pg_db _ _ _ _ _ Hp c) as H. rewrite Hc in H. destruct (clients s' !! c); [eauto | done]. Qed.

Lemma undisturbed_refl s x : undisturbed s s x.
Proof. split; auto. Qed.

Lemma undisturbed_trans s s1 s2 x : undisturbed s s1 x -> undisturbed s1 s2 x -> undisturbed s s2 x.
Proof. unfold undisturbed. intros [[->|[H1 H2]] H3] [[->|[K1 K2]] K3]; split; auto. Qed.

Lemma progress_trans W W1 W2 P P' s s1 s2 : progress W W1 P s s1 -> progress W1 W2 P' s1 s2 -> (forall p, p ∈ W -> p ∈ W2 -> p ∈ W1) ->
  progress W W2 (P ∪ P') s s2.
Proof.
  intros [H1 H2 H3 H4] [K1 K2 K3 K4] HW. constructor; auto; [intros c; by rewrite K3|]. intros c x Hx Hx2. pose proof (HW _ Hx Hx2) as Hx1.
  destruct (H4 c x Hx Hx1) as [A1 A2]. destruct (K4 c x Hx1 Hx2) as [B1 B2]. split; [auto|].
  destruct A2 as [?|[?|A2]]; [left; auto | right; left; set_solver |]. destruct B2 as [?|[?|B2]]; [by left | right; left; set_solver |].
  right. right. by eapply undisturbed_trans.
Qed.

Lemma progress_trans0 W W1 W2 P s s1 s2 : progress W W1 ∅ s s1 -> progress W1 W2 P s1 s2 -> (forall p, p ∈ W -> p ∈ W2 -> p ∈ W1) -> progress W W2 P s s2.
Proof. intros H1 H2 HW. replace P with (∅ ∪ P) by set_solver. by eapply progress_trans. Qed.

Lemma progress_trans1 W W1 W2 P s s1 s2 : progress W W1 P s s1 -> progress W1 W2 ∅ s1 s2 -> (forall p, p ∈ W -> p ∈ W2 -> p ∈ W1) -> progress W W2 P s s2.
Proof. intros H1 H2 HW. replace P with (P ∪ ∅) by set_solver. by eapply progress_trans. Qed.

Lemma progress_refl W s : server_ok W s -> progress W W ∅ s s.
Proof. intros Hok. constructor; auto. intros c x _ _. split; [done|]. right. right. apply undisturbed_refl. Qed.

(** The commands on keys and sets. *)
Lemma progress_inv W P s s' : Inv W s P s' -> progress W W P s s'.
Proof.
  intros [H1 H2 H3]. constructor; [done | | |].
  - intros Hn c cl' Hc. pose proof (ev_clients _ _ H2 c) as Hev. rewrite Hc in Hev. destruct (clients s !! c) as [cl|] eqn:Hcl; inversion Hev as [? ? (_ & _ & _ & Hb)|]; subst.
    destruct (Hn c cl Hcl) as [A1 A2]. by rewrite (Hb REDIS_FORCE_AOF ltac:(done)), (Hb REDIS_FORCE_REPL ltac:(done)), A1, A2.
  - intros c. pose proof (ev_clients _ _ H2 c) as Hev. destruct Hev as [? ? (Hd & _)|]; cbn; [by rewrite Hd | done].
  - intros c x Hx _. split; [by apply flagged_evolves | by apply H3].
Qed.

Lemma progress_retains W W' s s' : retains s s' -> server_ok W' s' -> (unforced s -> unforced s') -> (forall c, c_db <$> clients s' !! c = c_db <$> clients s !! c) ->
  (forall c x, (c, x) ∈ W -> (c, x) ∈ W' -> flagged s c -> flagged s' c) -> progress W W' ∅ s s'.
Proof.
  intros Hr Hok Hn Hl Hf. constructor; [done..|]. intros c x Hx Hx'. split; [by eapply Hf|]. right. right. destruct (rt_keys _ _ Hr x).
  eapply undisturbed_same; [done.. | apply undisturbed_refl].
Qed.

(** Only client [c] changes: it keeps its mark, or it watches nothing. *)
Lemma progress_client W W' s s' c cl cl' : clients s !! c = Some cl -> clients s' = <[c := cl']> (clients s) -> retains s s' -> server_ok W' s' ->
  (has_flag (flags cl) REDIS_FORCE_AOF = false -> has_flag (flags cl) REDIS_FORCE_REPL = false ->
   has_flag (flags cl') REDIS_FORCE_AOF = false /\ has_flag (flags cl') REDIS_FORCE_REPL = false) ->
  ((has_flag (flags cl) REDIS_DIRTY_CAS = true -> has_flag (flags cl') REDIS_DIRTY_CAS = true) \/ forall x, (c, x) ∉ W') ->
  progress W W' ∅ s s'.
Proof.
  intros Hc Hc' Hr Hok Hf Hm. apply progress_retains; [done | done | | |].
  - intros Hn c1 cl1. rewrite Hc', lookup_insert_Some. intros [[<- <-]|[_ H]]; [destruct (Hn c cl Hc); auto | eauto].
  - intros c1. rewrite Hc'. destruct (decide (c = c1)) as [<-|Hne]; [|by rewrite lookup_insert_ne].
    assert (clients s' !! c = Some cl') as Hcl' by (by rewrite Hc', lookup_insert_eq). destruct (rt_clients _ _ Hr c cl' Hcl') as (cl2 & Hcl2 & Hd).
    rewrite lookup_insert_eq, Hc. cbn. congruence.
  - intros c1 x _ Hx' (cl1 & Hcl1 & Hfl). unfold flagged. rewrite Hc'. destruct (decide (c = c1)) as [<-|Hne].
    + rewrite lookup_insert_eq. exists cl'. split; [done|]. assert (cl1 = cl) as -> by congruence. destruct Hm as [Hm|Hm]; [auto | by apply Hm in Hx'].
    + rewrite lookup_insert_ne by done. eauto.
Qed.

Lemma server_ok_client W s c cl cl' : server_ok W s -> clients s !! c = Some cl -> edited cl cl' -> c_watched cl' = c_watched cl ->
  server_ok W (upd_clients (fun m => <[c := cl']> m) s).
Proof. intros Hok Hc He Hw. eapply server_ok_retains; [exact Hok | by apply (retains_client s c cl) | by apply (watch_rep_client W s c cl), Hok]. Qed.

Lemma progress_edit W s c cl cl' : server_ok W s -> clients s !! c = Some cl -> edited cl cl' -> c_watched cl' = c_watched cl ->
  (has_flag (flags cl) REDIS_FORCE_AOF = false -> has_flag (flags cl) REDIS_FORCE_REPL = false ->
   has_flag (flags cl') REDIS_FORCE_AOF = false /\ has_flag (flags cl') REDIS_FORCE_REPL = false) ->
  ((has_flag (flags cl) REDIS_DIRTY_CAS = true -> has_flag (flags cl') REDIS_DIRTY_CAS = true) \/ forall x, (c, x) ∉ W) ->
  progress W W ∅ s (upd_clients (fun m => <[c := cl']> m) s).
Proof. intros Hok Hc He Hw Hf Hm. eapply (progress_client W W s _ c cl cl'); [done | done | by apply (retains_client s c cl) | by eapply server_ok_client | done | done]. Qed.

(** The log and the counters play no part. *)
Lemma progress_same W s s' : server_ok W s -> cfg s' = cfg s -> dbs s' = dbs s -> clients s' = clients s -> pubsub_channels s' = pubsub_channels s ->
  pubsub_patterns s' = pubsub_patterns s -> slots_to_keys s' = slots_to_keys s -> progress W W ∅ s s'.
Proof.
  intros Hok H1 H2 H3 H4 H5 H6. pose proof (Inv_quiet W s ∅ s s' (Inv_init W s Hok) (changes_same s s' H1 H2 H3 H4 H5) H6) as HI. by apply progress_inv.
Qed.

(** ** Calls *)

(** The state after a call whose function went from [s] to [s1]. *)
Definition fed (c : cid) s s1 : server :=
  match clients s1 !! c with
  | Some cl => if dirty s1 - dirty s <=? 0 then s1 else upd_propagated (fun log => log ++ [(c_db cl, argv cl)]) s1
  | None => s1
  end.

Lemma wp_call c cl proc s (Q : server -> unit -> Prop) : clients s !! c = Some cl -> unforced s ->
  wp (proc c) s (fun s1 _ => unforced s1 /\ is_Some (clients s1 !! c) /\ Q (fed c s s1) tt) -> wp (call c proc) s Q.
Proof.
  intros Hc Hn Hp. destruct (Hn c cl Hc) as [F1 F2]. unfold call. apply wp_bind, (wp_get_client c cl); [done|].
  apply wp_bind, (wp_mod_client c cl); [done|].
  rewrite with_flags_id by (by apply no_force_id). rewrite upd_clients_id by done.
  apply wp_bind, wp_get, wp_bind. eapply wp_mono; [exact Hp|]. intros s1 [] (Hn1 & [cl1 Hc1] & HQ). destruct (Hn1 c cl1 Hc1) as [G1 G2].
  apply wp_bind, wp_get, wp_bind, (wp_get_client c cl1); [done|]. rewrite G1, G2. cbn [orb]. unfold fed in HQ. rewrite Hc1 in HQ.
  assert (forall s2, clients s2 = clients s1 -> wp (mod_client c (with_flags (fun f => Z.lor (no_force f) (Z.land (flags cl)
    (Z.lor (Z.shiftl 1 REDIS_FORCE_AOF) (Z.shiftl 1 REDIS_FORCE_REPL)))))) s2 (fun s' _ => s' = s2)) as Hlast.
  { intros s2 E2. rewrite <- E2 in Hc1. apply (wp_mod_client c cl1); [done|]. rewrite with_flags_id by (by apply restore_id). by rewrite upd_clients_id. }
  apply wp_bind. destruct (dirty s1 - dirty s <=? 0) eqn:Ed; zbool.
  - assert ((if dirty s1 - dirty s <? 0 then 0 else dirty s1 - dirty s) = 0) as -> by (destruct (dirty s1 - dirty s <? 0) eqn:Eneg; zbool; lia).
    apply wp_ret. eapply wp_mono; [by apply Hlast|]. intros s' [] ->. done.
  - assert ((if dirty s1 - dirty s <? 0 then 0 else dirty s1 - dirty s) =? 0 = false) as -> by (destruct (dirty s1 - dirty s <? 0) eqn:Eneg; zbool; lia).
    apply wp_modify. eapply wp_mono; [by apply Hlast|]. intros s' [] ->. done.
Qed.

Lemma progress_fed W c s s1 : server_ok W s1 -> progress W W ∅ s1 (fed c s s1).
Proof.
  intros Hok. unfold fed. destruct (clients s1 !! c); [|by apply progress_refl]. destruct (_ <=? 0); [by apply progress_refl | by apply progress_same].
Qed.

End Ok.
