(* ===== verification/Transactions.v ===== *)
(** * Transactions

    What EXEC does with its queue and what WATCH promises, over any history of
    requests: the state stays consistent, a transaction that runs has seen none of
    its watched keys change since they were watched, and its commands run one
    after the other with nothing in between. *)
From Stdlib Require Import Lia ZArith String.
From stdpp Require Import base numbers list tactics option gmap fin_maps fin_sets sets.
From S2P Require Import Prelude Util Intset Dict DictRep DictIter Object Glob SetType Server Pubsub Crc Db DbOk DbRules DbCommands SetCmd SetCmdOk SetCommands Commands SetAlgebra Multi MultiOk.

#[local] Open Scope Z_scope.

Section Exec.
Context `{E : Env} (int_encoded : list Z -> bool).
Implicit Types (W : gset (cid * loc)) (P : gset loc) (s : server) (cl : redisClient).

#[local] Abbreviation admissible := (admissible int_encoded).

(** ** Bookkeeping *)

(** No key and no reply changes. *)
Definition bookkeeping s s' : Prop :=
  (forall x, dict_at s' x = dict_at s x /\ expire_at s' x = expire_at s x) /\ forall c, c_reply <$> clients s' !! c = c_reply <$> clients s !! c.

Lemma bookkeeping_trans s s1 s2 : bookkeeping s s1 -> bookkeeping s1 s2 -> bookkeeping s s2.
Proof.
  intros [H1 H2] [K1 K2]. split; [intros x; destruct (K1 x) as [-> ->]; apply H1 | intros c; by rewrite K2].
Qed.

Lemma bookkeeping_client s c cl cl' : clients s !! c = Some cl -> c_reply cl' = c_reply cl -> bookkeeping s (upd_clients (fun m => <[c := cl']> m) s).
Proof.
  intros Hc Hr. split; [done|]. intros c'. cbn. destruct (decide (c = c')) as [<-|Hne]; [by rewrite lookup_insert_eq, Hc; cbn; rewrite Hr | by rewrite lookup_insert_ne].
Qed.

Lemma bookkeeping_fed c s s1 : bookkeeping s1 (fed c s s1).
Proof. unfold fed. destruct (clients s1 !! c); [|done]. by destruct (_ <=? 0). Qed.

(** ** One command *)

Lemma gset_at_keys id s s' k : (forall x, dict_at s' x = dict_at s x /\ expire_at s' x = expire_at s x) -> gset_at id s' k = gset_at id s k.
Proof. intros H. unfold gset_at, val_at. by destruct (H (id, k)) as [-> _]. Qed.

Lemma admissible_keys s s' c cmd l : (forall x, dict_at s' x = dict_at s x /\ expire_at s' x = expire_at s x) ->
  c_db <$> clients s' !! c = c_db <$> clients s !! c -> admissible s c cmd l -> admissible s' c cmd l.
Proof.
  intros Hk Hd [H1 H2 H3 H4 H5]. constructor; [done..| |]; intros cl' Hc'; rewrite Hc' in Hd; destruct (clients s !! c) as [cl|] eqn:Hc; try done; injection Hd as ->.
  - specialize (H4 cl eq_refl). assert (forall ks, total (c_db cl) s' ks = total (c_db cl) s ks) as ->; [|done].
    intros ks. unfold total. induction ks as [|k ks IH]; cbn; [done|]. by rewrite IH, (gset_at_keys _ s s').
  - specialize (H5 cl eq_refl). clear H4. induction (set_keys cmd l) as [|k ks IH]; cbn in *; [done|]. destruct H5 as [H5 H6]. split; [|auto].
    intros Hin. destruct (Hk (c_db cl, k)) as [_ ->]. auto.
Qed.

Lemma moves_db s s' c cmd l : c_db <$> clients s' !! c = c_db <$> clients s !! c -> moves s' c cmd l = moves s c cmd l.
Proof.
  intros Hd. unfold moves. destruct cmd; try done. destruct (clients s' !! c), (clients s !! c); try done. injection Hd as Hd. unfold moved. by rewrite Hd.
Qed.

Lemma r_data W s c cl cmd proc : server_ok W s -> clients s !! c = Some cl -> admissible s c cmd (argv cl) -> data_proc int_encoded cmd = Some proc ->
  wp (proc c) s (fun s' _ => Inv W s (moves s c cmd (argv cl)) s').
Proof.
  intros Hok Hc [_ H2 H3 H4 H5] Hp. eapply wp_mono; [eapply (data_step int_encoded W s c cl Hc cmd (argv cl) ∅); [by apply starts_init | done | done | done | by apply H4 | by apply H5]|].
  intros s' a HI. rewrite union_empty_r_L in HI. unfold moves. rewrite Hc. by destruct cmd.
Qed.

Lemma queued_data cmd proc : data_proc int_encoded cmd = Some proc -> queued_proc int_encoded cmd = Some proc.
Proof. by destruct cmd. Qed.

(** ** The end of a transaction *)

Definition closed cl : redisClient :=
  with_watched [] (with_flags (fun f => clear_flag (clear_flag (clear_flag f REDIS_MULTI) REDIS_DIRTY_CAS) REDIS_DIRTY_EXEC) (with_mstate [] cl)).

Lemma not_watching c W x : (c, x) ∉ without c W.
Proof. rewrite elem_of_without. tauto. Qed.

Lemma without_none c W : (forall x, (c, x) ∉ W) -> without c W = W.
Proof.
  intros H. apply set_eq. intros [c' x]. rewrite elem_of_without. split; [tauto|]. intros Hx. split; [done|]. intros ->. by apply H in Hx.
Qed.

Lemma closed_flag cl b : 0 <= b -> has_flag (flags (closed cl)) b =
  has_flag (flags cl) b && negb (REDIS_MULTI =? b) && negb (REDIS_DIRTY_CAS =? b) && negb (REDIS_DIRTY_EXEC =? b).
Proof. intros Hb. cbn [flags closed with_watched with_flags]. by rewrite !has_clear_flag by done. Qed.

Lemma r_discardTransaction W s c cl (Q : server -> unit -> Prop) : server_ok W s -> clients s !! c = Some cl ->
  (forall s', progress W (without c W) ∅ s s' -> bookkeeping s s' -> propagated s' = propagated s -> clients s' = <[c := closed cl]> (clients s) -> Q s' tt) ->
  wp (discardTransaction c) s Q.
Proof.
  intros Hok Hc HQ. unfold discardTransaction, initClientMultiState. apply wp_bind, (wp_mod_client c cl); [done|].
  set (s1 := upd_clients _ s). assert (clients s1 !! c = Some (with_mstate [] cl)) as Hc1 by (cbn; by rewrite lookup_insert_eq).
  apply wp_bind, (wp_mod_client c (with_mstate [] cl)); [done|]. set (f := fun _ => clear_flag _ _). set (s2 := upd_clients _ s1).
  assert (clients s2 !! c = Some (with_flags f (with_mstate [] cl))) as Hc2 by (cbn; by rewrite lookup_insert_eq).
  assert (retains s s2) as Hr2 by (transitivity s1; [by apply (retains_client s c cl) | by apply (retains_client s1 c (with_mstate [] cl))]).
  assert (server_ok W s2) as Hok2.
  { eapply (server_ok_client W s1 c (with_mstate [] cl)); [by eapply (server_ok_client W s c cl) | done..]. }
  eapply (r_unwatchAllKeys W s2 c); [exact Hok2 | exact Hc2 |]. intros s3 Hok3 Hr3 Hc3.
  assert (clients s3 = <[c := closed cl]> (clients s)) as Hcl.
  { rewrite Hc3. cbn [clients s2 s1 upd_clients]. by rewrite !insert_insert_eq. }
  assert (retains s s3) as Hr by (by transitivity s2). apply HQ; [| | by rewrite (proj1 (rt_log _ _ Hr)) | done].
  - eapply (progress_client _ _ s s3 c cl (closed cl)); [done..| |].
    + intros F1 F2. by rewrite !closed_flag, F1, F2 by done.
    + right. apply not_watching.
  - split; [apply Hr|]. intros c'. rewrite Hcl. destruct (decide (c = c')) as [<-|Hne]; [by rewrite lookup_insert_eq, Hc | by rewrite lookup_insert_ne].
Qed.


(** A reply, and other changes to one client. *)
Lemma r_addReply W s c cl r (Q : server -> unit -> Prop) : server_ok W s -> clients s !! c = Some cl ->
  (forall s', progress W W ∅ s s' -> retains s s' -> clients s' = <[c := with_reply (c_reply cl ++ [r]) cl]> (clients s) -> Q s' tt) -> wp (addReply c r) s Q.
Proof.
  intros Hok Hc HQ. apply (wp_mod_client c cl); [done|]. apply HQ; [|by apply (retains_client s c cl) | done].
  apply (progress_edit W s c cl); [done..|]. by left.
Qed.

Definition unmarked cl : redisClient := with_flags (fun f => clear_flag f REDIS_DIRTY_CAS) (with_watched [] cl).

Lemma r_unwatchCommand W s c cl (Q : server -> unit -> Prop) : server_ok W s -> clients s !! c = Some cl ->
  (forall s', progress W (without c W) ∅ s s' -> retains s s' -> clients s' = <[c := with_reply (c_reply cl ++ [Ok]) (unmarked cl)]> (clients s) -> Q s' tt) ->
  wp (unwatchCommand c) s Q.
Proof.
  intros Hok Hc HQ. apply wp_bind. eapply (r_unwatchAllKeys W s c cl); [done..|]. intros s1 Hok1 Hr1 Hc1.
  assert (clients s1 !! c = Some (with_watched [] cl)) as Hcl1 by (by rewrite Hc1, lookup_insert_eq).
  apply wp_bind, (wp_mod_client c (with_watched [] cl)); [done|]. set (s2 := upd_clients _ s1).
  assert (clients s2 !! c = Some (unmarked cl)) as Hcl2 by (cbn; by rewrite lookup_insert_eq).
  assert (retains s1 s2) as Hr2 by (by apply (retains_client s1 c (with_watched [] cl))).
  assert (server_ok (without c W) s2) as Hok2 by (by eapply (server_ok_client _ s1 c (with_watched [] cl))).
  assert (retains s s2) as Hr by (by transitivity s1).
  assert (clients s2 = <[c := unmarked cl]> (clients s)) as Hc2 by (cbn; by rewrite Hc1, insert_insert_eq).
  assert (progress W (without c W) ∅ s s2) as Hp.
  { apply (progress_client W _ s s2 c cl (unmarked cl)); [done..| |].
    - intros F1 F2. cbn [flags unmarked with_flags with_watched]. by rewrite !has_clear_flag, F1, F2 by done.
    - right. apply not_watching. }
  eapply (r_addReply _ s2 c (unmarked cl)); [done..|]. intros s3 Hp3 Hr3 Hc3. apply HQ; [| by transitivity s2 | by rewrite Hc3, Hc2, insert_insert_eq].
  by eapply progress_trans0.
Qed.

(** The function of a queued command. *)
Lemma r_queued W s c cl cmd : (forall x, (c, x) ∉ W) -> server_ok W s -> clients s !! c = Some cl -> cmd = UNWATCH \/ admissible s c cmd (argv cl) ->
  exists proc, queued_proc int_encoded cmd = Some proc /\ wp (proc c) s (fun s' _ => progress W W (moves s c cmd (argv cl)) s s' /\
    exists cl', clients s' !! c = Some cl' /\ mstate cl' = mstate cl).
Proof.
  intros HW Hok Hc [->|Had].
  - exists unwatchCommand. split; [done|]. eapply (r_unwatchCommand W s c cl); [done..|]. rewrite without_none by done. intros s' Hp _ Hc'.
    split; [done|]. eexists. rewrite Hc', lookup_insert_eq. done.
  - destruct (ad_proc _ _ _ _ _ Had) as [proc Hp]. exists proc. split; [by apply queued_data|].
    eapply wp_mono; [by eapply (r_data W s c cl cmd proc)|]. intros s' [] HI. split; [by apply progress_inv|].
    pose proof (ev_clients _ _ (inv_evolves _ _ _ _ HI) c) as Hev. rewrite Hc in Hev. destruct (clients s' !! c) as [cl'|]; inversion Hev as [? ? (_ & _ & Hm & _)|]; subst. eauto.
Qed.

(** [c] has the arguments [l] at [s], and the function of the command takes [s] to [s']. *)
Definition ran (c : cid) (cmd : command) (l : list (list Z)) s s' : Prop :=
  exists proc cl, queued_proc int_encoded cmd = Some proc /\ clients s !! c = Some cl /\ argv cl = l /\ proc c s = Some (s', tt).

Lemma r_exec_round W s c cl j must cmd l (Q : server -> bool -> Prop) : (forall x, (c, x) ∉ W) -> server_ok W s -> unforced s -> clients s !! c = Some cl ->
  mstate cl !! j = Some (cmd, l) -> cmd = UNWATCH \/ admissible s c cmd l ->
  (forall s' s1 s2 cl' l', progress W W (moves s c cmd l) s s' -> bookkeeping s s1 -> ran c cmd l s1 s2 -> bookkeeping s2 s' ->
    clients s' !! c = Some cl' -> mstate cl' = <[j := (cmd, l')]> (mstate cl) -> Q s' (must || negb (is_readonly cmd))) ->
  wp (exec_round int_encoded c j must) s Q.
Proof.
  intros HW Hok Hn Hc Hj Had HQ. unfold exec_round. apply wp_bind, (wp_get_client c cl); [done|]. apply wp_bind, (wp_lift _ (cmd, l)); [done|].
  apply wp_bind, (wp_mod_client c cl); [done|]. set (s1 := upd_clients _ s). set (cl1 := with_argv l cl).
  assert (clients s1 !! c = Some cl1) as Hc1 by (cbn; by rewrite lookup_insert_eq).
  assert (progress W W ∅ s s1) as Hp1 by (apply (progress_edit W s c cl); [done.. | by left]).
  assert (bookkeeping s s1) as Hb1 by (by apply (bookkeeping_client s c cl)).
  assert (wp (if negb must && negb (is_readonly cmd) then execCommandPropagateMulti c;; mret (M:=M) true else mret must) s1 (fun s2 b =>
    clients s2 = clients s1 /\ progress W W ∅ s1 s2 /\ bookkeeping s1 s2 /\ b = must || negb (is_readonly cmd))) as Hmulti.
  { destruct (negb must && negb (is_readonly cmd)) eqn:Em.
    - apply wp_bind, wp_bind, wp_bind, (wp_get_client c cl1), wp_ret, wp_modify, wp_ret; [done|]. split_and!; [done | apply progress_same; [apply Hp1 | done..] | done |].
      apply andb_prop in Em as [_ ->]. by rewrite orb_true_r.
    - apply wp_ret. split_and!; [done | by apply progress_refl, Hp1 | done |]. by destruct must, (is_readonly cmd). }
  apply wp_bind. eapply wp_mono; [exact Hmulti|]. intros s2 b (Hc2 & Hp2 & Hb2 & ->). rewrite <- Hc2 in Hc1.
  assert (progress W W ∅ s s2) as Hp12 by (by eapply progress_trans0).
  assert (cmd = UNWATCH \/ admissible s2 c cmd (argv cl1)) as Had2.
  { destruct Had as [|Had]; [by left|]. right. eapply admissible_keys; [| | exact Had]; [apply (bookkeeping_trans _ _ _ Hb1 Hb2) | apply Hp12]. }
  destruct (r_queued W s2 c cl1 cmd HW (pg_ok _ _ _ _ _ Hp12) Hc1 Had2) as (proc & Hproc & Hrun).
  apply wp_bind, (wp_lift _ proc); [done|]. apply wp_bind. unfold wp in Hrun. destruct (proc c s2) as [[s3 []]|] eqn:Ep; [|done]. destruct Hrun as (Hp3 & cl3 & Hc3 & Hm3).
  pose proof (progress_fed W c s2 s3 (pg_ok _ _ _ _ _ Hp3)) as Hp4. pose proof (bookkeeping_fed c s2 s3) as Hb4.
  apply (wp_call c cl1); [done | by apply Hp12 |]. unfold wp. rewrite Ep. split_and!; [by apply Hp3, Hp12 | eauto |].
  set (s4 := fed c s2 s3) in *. assert (clients s4 = clients s3) as E4 by (unfold s4, fed; rewrite Hc3; by destruct (_ <=? 0)). rewrite <- E4 in Hc3.
  apply wp_bind, (wp_mod_client c cl3); [done|]. apply wp_ret. set (s5 := upd_clients _ s4).
  assert (progress W W ∅ s4 s5) as Hp5 by (apply (progress_edit W s4 c cl3); [apply Hp4 | done.. | by left]).
  eapply (HQ s5 s2 s3 _ (argv cl3)); [ | by eapply bookkeeping_trans | by exists proc, cl1 | | cbn; by rewrite lookup_insert_eq | cbn; by rewrite Hm3].
  - rewrite <- (moves_db s s2 c cmd l) by apply Hp12. eapply progress_trans1; [|exact Hp5 | done]. eapply progress_trans1; [|exact Hp4 | done]. by eapply progress_trans0.
  - eapply bookkeeping_trans; [exact Hb4 | by apply (bookkeeping_client s4 c cl3)].
Qed.


(** ** EXEC *)

(** The commands of a queue ran one after the other, and nothing else changed a
    key or sent a reply. *)
Inductive runs (c : cid) : list (command * list (list Z)) -> server -> server -> Prop :=
  | runs_done s s' : bookkeeping s s' -> runs c [] s s'
  | runs_next cmd l q s s1 s2 s3 : bookkeeping s s1 -> ran c cmd l s1 s2 -> runs c q s2 s3 -> runs c ((cmd, l) :: q) s s3.

Lemma runs_before c q s s1 s2 : bookkeeping s s1 -> runs c q s1 s2 -> runs c q s s2.
Proof. intros Hb Hr. inversion Hr; subst; [apply runs_done | eapply runs_next; [|done..]]; by eapply bookkeeping_trans. Qed.

Lemma runs_after c q s s1 s2 : runs c q s s1 -> bookkeeping s1 s2 -> runs c q s s2.
Proof. induction 1; intros Hb; [apply runs_done; by eapply bookkeeping_trans | eapply runs_next; eauto]. Qed.

(** Every queued command is fit to run where its turn comes. *)
Fixpoint queue_ok (c : cid) (n j : nat) (must : bool) s : Prop :=
  match n with
  | O => True
  | S n => (forall cl cmd l, clients s !! c = Some cl -> mstate cl !! j = Some (cmd, l) -> cmd = UNWATCH \/ admissible s c cmd l) /\
      forall s' b, exec_round int_encoded c j must s = Some (s', b) -> queue_ok c n (S j) b s'
  end.

Definition queue_moves s (c : cid) (q : list (command * list (list Z))) : gset loc := ⋃ ((fun '(cmd, l) => moves s c cmd l) <$> q).

Lemma queue_moves_db s s' c q : c_db <$> clients s' !! c = c_db <$> clients s !! c -> queue_moves s' c q = queue_moves s c q.
Proof. intros Hd. unfold queue_moves. f_equal. apply list_fmap_ext. intros i [cmd l] _. by apply moves_db. Qed.

Lemma r_exec_loop W c n : (forall x, (c, x) ∉ W) -> forall j must s cl q, server_ok W s -> unforced s -> clients s !! c = Some cl -> drop j (mstate cl) = q ->
  length q = n -> queue_ok c n j must s ->
  wp (exec_loop int_encoded c n j must) s (fun s' b => progress W W (queue_moves s c q) s s' /\ runs c q s s' /\ b = must || existsb (fun p => negb (is_readonly p.1)) q).
Proof.
  intros HW. induction n as [|n IH]; intros j must s cl q Hok Hn Hc Hq Hl Had; cbn [exec_loop].
  - destruct q; [|done]. apply wp_ret. split_and!; [by apply progress_refl | by apply runs_done | by rewrite orb_false_r].
  - destruct q as [|[cmd l] q]; [done|]. destruct Had as [Had Hnext].
    assert (mstate cl !! j = Some (cmd, l)) as Hj by (by rewrite <- (Nat.add_0_r j), <- lookup_drop, Hq).
    assert (drop (S j) (mstate cl) = q) as Hq' by (by rewrite <- Nat.add_1_r, <- drop_drop, Hq).
    apply wp_bind. assert (wp (exec_round int_encoded c j must) s (fun s' b => exec_round int_encoded c j must s = Some (s', b) /\
      exists s1 s2 cl' l', progress W W (moves s c cmd l) s s' /\ bookkeeping s s1 /\ ran c cmd l s1 s2 /\ bookkeeping s2 s' /\
      clients s' !! c = Some cl' /\ mstate cl' = <[j := (cmd, l')]> (mstate cl) /\ b = must || negb (is_readonly cmd))) as Hround.
    { assert (wp (exec_round int_encoded c j must) s (fun s' b => exists s1 s2 cl' l', progress W W (moves s c cmd l) s s' /\ bookkeeping s s1 /\ ran c cmd l s1 s2 /\
        bookkeeping s2 s' /\ clients s' !! c = Some cl' /\ mstate cl' = <[j := (cmd, l')]> (mstate cl) /\ b = must || negb (is_readonly cmd))) as H.
      { eapply (r_exec_round W s c cl j must cmd l); [done.. | by eapply Had |]. intros s' s1 s2 cl' l' H1 H2 H3 H4 H5 H6. exists s1, s2, cl', l'. by split_and!. }
      unfold wp in *. destruct (exec_round int_encoded c j must s) as [[s' b]|]; [by split | done]. }
    eapply wp_mono; [exact Hround|]. intros s' b (Heq & s1 & s2 & cl' & l' & Hp & Hb1 & Hran & Hb2 & Hc' & Hm' & ->).
    eapply wp_mono; [eapply (IH (S j) _ s' cl' q); [apply Hp | by apply Hp | done | | by injection Hl | by apply Hnext]|].
    { by rewrite Hm', drop_insert_lt by lia. }
    intros s3 b (Hp3 & Hr3 & ->). split_and!.
    + rewrite (queue_moves_db s s') in Hp3 by apply Hp. change (queue_moves s c ((cmd, l) :: q)) with (moves s c cmd l ∪ queue_moves s c q). by eapply progress_trans.
    + eapply runs_next; [exact Hb1 | exact Hran |]. by eapply runs_before.
    + cbn. by rewrite orb_assoc.
Qed.

(** What EXEC did. *)
Definition over cl : Prop := in_multi cl = false /\ is_dirty cl = false /\ mstate cl = [] /\ c_watched cl = [].
Definition same_keys s s' : Prop := forall x, dict_at s' x = dict_at s x /\ expire_at s' x = expire_at s x.

Record exec_aborted (c : cid) s cl s' : Prop := {
  ab_keys : same_keys s s';
  ab_client : exists cl', clients s' !! c = Some cl' /\ over cl' /\
    c_reply cl' = c_reply cl ++ [if has_flag (flags cl) REDIS_DIRTY_EXEC then ErrExecAbort else NullMultiBulk];
}.

Record exec_done (c : cid) s cl s' : Prop := {
  ed_runs : exists s1, same_keys s s1 /\ c_reply <$> clients s1 !! c = Some (c_reply cl ++ [MultiBulkLen (zlen (mstate cl))]) /\ runs c (mstate cl) s1 s';
  ed_client : exists cl', clients s' !! c = Some cl' /\ over cl';
}.

Definition exec_outcome (c : cid) s cl s' : Prop :=
  if negb (in_multi cl) then same_keys s s' /\ exists cl', clients s' !! c = Some cl' /\ c_reply cl' = c_reply cl ++ [ErrText "EXEC without MULTI"]
  else if is_dirty cl then exec_aborted c s cl s' else exec_done c s cl s'.

(** The queue of [c] is fit to run once the keys are unwatched. *)
Definition exec_ok (c : cid) s cl : Prop := in_multi cl = true -> is_dirty cl = false ->
  forall s1, (unwatchAllKeys c;; addReply c (MultiBulkLen (zlen (mstate cl)))) s = Some (s1, tt) -> queue_ok c (length (mstate cl)) 0 false s1.

Lemma closed_over cl : over (closed cl).
Proof. unfold over, in_multi, is_dirty. rewrite !closed_flag by done. by rewrite !andb_false_r. Qed.

Lemma progress_mono W W' P P' s s' : P ⊆ P' -> progress W W' P s s' -> progress W W' P' s s'.
Proof. intros HP [H1 H2 H3 H4]. constructor; auto. intros c x Hx Hx'. destruct (H4 c x Hx Hx') as [? [?|[?|?]]]; split; auto. Qed.


Lemma bookkeeping_keys s s' : bookkeeping s s' -> same_keys s s'.
Proof. by intros []. Qed.

Lemma r_exec_run W s c cl (Q : server -> unit -> Prop) : server_ok W s -> unforced s -> clients s !! c = Some cl -> in_multi cl = true -> is_dirty cl = false ->
  exec_ok c s cl ->
  (forall s', progress W (without c W) (queue_moves s c (mstate cl)) s s' -> exec_done c s cl s' -> Q s' tt) -> wp (execCommand int_encoded c) s Q.
Proof.
  intros Hok Hn Hc Hm Hd Had HQ. unfold execCommand. apply wp_bind, (wp_get_client c cl); [done|]. rewrite Hm, Hd. cbn [negb].
  specialize (Had Hm Hd). pose proof (not_watching c W) as HW.
  assert (wp (unwatchAllKeys c;; addReply c (MultiBulkLen (zlen (mstate cl)))) s (fun s1 _ => progress W (without c W) ∅ s s1 /\ same_keys s s1 /\
    exists cl1, clients s1 !! c = Some cl1 /\ mstate cl1 = mstate cl /\ c_reply cl1 = c_reply cl ++ [MultiBulkLen (zlen (mstate cl))])) as Hstart.
  { apply wp_bind. eapply (r_unwatchAllKeys W s c cl); [done..|]. intros s1 Hok1 Hr1 Hc1. set (cl1 := with_watched [] cl) in *.
    assert (clients s1 !! c = Some cl1) as Hcl1 by (by rewrite Hc1, lookup_insert_eq).
    assert (progress W (without c W) ∅ s s1) as Hp1 by (eapply (progress_client W _ s s1 c cl cl1); [done.. | by right]).
    eapply (r_addReply _ s1 c cl1); [done..|]. intros s2 Hp2 Hr2 Hc2. split_and!.
    - by eapply progress_trans0.
    - intros x. destruct (rt_keys _ _ Hr2 x) as [-> ->]. apply (rt_keys _ _ Hr1 x).
    - exists (with_reply (c_reply cl1 ++ [MultiBulkLen (zlen (mstate cl))]) cl1). by rewrite Hc2, lookup_insert_eq. }
  assert (forall f : unit -> M unit, wp (unwatchAllKeys c;; addReply c (MultiBulkLen (zlen (mstate cl))) ≫= f) s Q <->
    wp ((unwatchAllKeys c;; addReply c (MultiBulkLen (zlen (mstate cl)))) ≫= f) s Q) as Hassoc.
  { intros f. unfold wp, mbind, M_bind. by destruct (unwatchAllKeys c s) as [[? ?]|]. }
  apply Hassoc, wp_bind. unfold wp in Hstart. destruct ((unwatchAllKeys c;; addReply c (MultiBulkLen (zlen (mstate cl)))) s) as [[s1 []]|] eqn:Es; [|done].
  destruct Hstart as (Hp1 & Hk1 & cl1 & Hc1 & Hm1 & Hr1). unfold wp at 1. rewrite Es. specialize (Had s1 eq_refl).
  apply wp_bind. eapply wp_mono; [eapply (r_exec_loop (without c W) c _ HW 0 false s1 cl1 (mstate cl)); [apply Hp1 | by apply Hp1 | done | by rewrite Hm1, drop_0 | done | done]|].
  intros s2 must (Hp2 & Hr2 & _). rewrite (queue_moves_db s s1) in Hp2 by apply Hp1.
  destruct (pg_live _ _ _ _ _ c Hp2 (ex_intro _ cl1 Hc1)) as [cl2 Hc2].
  apply wp_bind, (wp_mod_client c cl2); [done|]. set (s3 := upd_clients _ s2). set (cl3 := with_argv (argv cl) cl2).
  assert (clients s3 !! c = Some cl3) as Hc3 by (cbn; by rewrite lookup_insert_eq).
  assert (progress (without c W) (without c W) ∅ s2 s3) as Hp3 by (apply (progress_edit _ s2 c cl2); [apply Hp2 | done.. | by left]).
  apply wp_bind. eapply (r_discardTransaction (without c W) s3 c cl3); [apply Hp3 | done |]. rewrite (without_none c (without c W)) by exact HW. intros s4 Hp4 Hb4 _ Hc4.
  assert (exec_done c s cl s4) as Hdone.
  { constructor.
    - exists s1. split; [done|]. split; [by rewrite Hc1, <- Hr1|]. eapply runs_after; [exact Hr2|]. eapply bookkeeping_trans; [|exact Hb4]. by apply (bookkeeping_client s2 c cl2).
    - exists (closed cl3). rewrite Hc4, lookup_insert_eq. split; [done | apply closed_over]. }
  assert (progress W (without c W) (queue_moves s c (mstate cl)) s s4) as Hp.
  { eapply progress_trans0; [exact Hp1 | | done]. eapply progress_trans1; [exact Hp2 | | done]. by eapply progress_trans0. }
  destruct must; [|by apply wp_ret, HQ]. apply wp_modify, HQ.
  - eapply progress_trans1; [exact Hp | apply progress_same; [apply Hp | done..] | done].
  - destruct Hdone as [(sa & H1 & H2 & H3) H4]. constructor; [exists sa; split_and!; [done.. | by eapply runs_after] | done].
Qed.

Lemma r_execCommand W s c cl (Q : server -> unit -> Prop) : server_ok W s -> unforced s -> clients s !! c = Some cl -> exec_ok c s cl ->
  (forall s' W', progress W W' (queue_moves s c (mstate cl)) s s' -> exec_outcome c s cl s' -> Q s' tt) -> wp (execCommand int_encoded c) s Q.
Proof.
  intros Hok Hn Hc Had HQ. destruct (in_multi cl) eqn:Hm; [destruct (is_dirty cl) eqn:Hd|].
  - unfold execCommand. apply wp_bind, (wp_get_client c cl); [done|]. rewrite Hm, Hd. cbn [negb]. set (r := if has_flag _ _ then _ else _).
    apply wp_bind. eapply (r_addReply W s c cl); [done..|]. intros s1 Hp1 Hr1 Hc1. set (cl1 := with_reply _ cl) in *.
    assert (clients s1 !! c = Some cl1) as Hcl1 by (by rewrite Hc1, lookup_insert_eq).
    eapply (r_discardTransaction W s1 c cl1); [apply Hp1 | done |]. intros s2 Hp2 Hb2 _ Hc2. eapply (HQ s2 (without c W)).
    + eapply progress_mono; [apply empty_subseteq|]. eapply progress_trans0; [exact Hp1 | exact Hp2 | intros [c1 x] H1 H2; exact H1].
    + unfold exec_outcome. rewrite Hm, Hd. cbn [negb]. constructor.
      * intros x. destruct (proj1 Hb2 x) as [-> ->]. apply (rt_keys _ _ Hr1 x).
      * exists (closed cl1). rewrite Hc2, lookup_insert_eq. split; [done|]. split; [apply closed_over | done].
  - eapply (r_exec_run W s c cl); [done..|]. intros s' Hp Hout. eapply HQ; [exact Hp|]. unfold exec_outcome. by rewrite Hm, Hd.
  - unfold execCommand. apply wp_bind, (wp_get_client c cl); [done|]. rewrite Hm. cbn [negb]. eapply (r_addReply W s c cl); [done..|].
    intros s1 Hp1 Hr1 Hc1. eapply (HQ s1 W); [by eapply progress_mono; [apply empty_subseteq|]|]. unfold exec_outcome. rewrite Hm. cbn [negb]. split; [exact (rt_keys _ _ Hr1) | rewrite Hc1, lookup_insert_eq; by eexists].
Qed.


(** ** Requests *)

Context (fr : front).

(** A client sends a request. *)
Definition run_request (c : cid) (l : list (list Z)) : M unit := mod_client c (with_argv l);; processCommand int_encoded fr c.

(** The command of a request that is run rather than refused or queued. *)
Definition runs_now s (c : cid) cl (l : list (list Z)) (cmd : command) : Prop :=
  lookupCommand (default [] (head l)) = Some cmd /\ arity_ok cmd (zlen l) = true /\ refusal fr s c (with_argv l cl) cmd = None /\
  in_multi cl && negb (runs_in_multi cmd) = false.

(** A request with defined behaviour: it has a name, and if it runs a command, that is
    one of the commands on keys and sets, fit to run, or one of the transaction commands. *)
Record request_ok s (c : cid) (l : list (list Z)) : Prop := {
  rq_name : l <> [];
  rq_runs : forall cl cmd, clients s !! c = Some cl -> runs_now s c cl l cmd ->
    match cmd with
    | MULTI | DISCARD | WATCH | UNWATCH => True
    | EXEC => exec_ok c (upd_clients (fun m => <[c := with_argv l cl]> m) s) (with_argv l cl)
    | _ => admissible s c cmd l
    end;
}.

(** The keys MOVE moves in a request. *)
Definition request_moves s (c : cid) (l : list (list Z)) : gset loc :=
  match clients s !! c, lookupCommand (default [] (head l)) with
  | Some cl, Some EXEC => queue_moves s c (mstate cl)
  | Some _, Some cmd => moves s c cmd l
  | _, _ => ∅
  end.

Lemma r_refuse W s c cl b r (Q : server -> unit -> Prop) : server_ok W s -> clients s !! c = Some cl -> (forall s', progress W W ∅ s s' -> Q s' tt) -> wp (refuse c b r) s Q.
Proof.
  intros Hok Hc HQ. unfold refuse. apply wp_bind.
  assert (wp (if b then flagTransaction c else mret tt) s (fun s1 _ => progress W W ∅ s s1 /\ is_Some (clients s1 !! c))) as Hflag.
  { destruct b; [|apply wp_ret; split; [by apply progress_refl | eauto]]. apply wp_bind, (wp_get_client c cl); [done|].
    destruct (in_multi cl); [|apply wp_ret; split; [by apply progress_refl | eauto]]. apply (wp_mod_client c cl); [done|]. split; [|cbn; rewrite lookup_insert_eq; eauto].
    apply (progress_edit W s c cl); [done.. | |].
    - intros F1 F2. cbn [flags with_flags]. by rewrite !has_set_flag, F1, F2 by done.
    - left. intros F. cbn [flags with_flags]. by rewrite has_set_flag, F by done. }
  eapply wp_mono; [exact Hflag|]. intros s1 _ [Hp1 [cl1 Hc1]]. eapply (r_addReply W s1 c cl1); [apply Hp1 | done |]. intros s2 Hp2 _ _. apply HQ. by eapply progress_trans0.
Qed.

(** Running a command of the table. *)
Lemma r_call_progress W s c cl P proc (Q : server -> unit -> Prop) : server_ok W s -> unforced s -> clients s !! c = Some cl ->
  wp (proc c) s (fun s1 _ => exists W1, progress W W1 P s s1 /\ forall s2, (s2 = fed c s s1) -> Q s2 tt) -> wp (call c proc) s Q.
Proof.
  intros Hok Hn Hc Hp. apply (wp_call c cl); [done..|]. eapply wp_mono; [exact Hp|]. intros s1 [] (W1 & Hp1 & HQ).
  split; [by apply Hp1|]. split; [by eapply pg_live | by apply HQ].
Qed.

Lemma progress_call W W1 P c s s1 : progress W W1 P s s1 -> progress W W1 P s (fed c s s1).
Proof. intros Hp. eapply progress_trans1; [exact Hp | apply progress_fed, Hp | done]. Qed.

Lemma r_multi W s c cl (Q : server -> unit -> Prop) : server_ok W s -> clients s !! c = Some cl -> (forall s', progress W W ∅ s s' -> Q s' tt) -> wp (multiCommand c) s Q.
Proof.
  intros Hok Hc HQ. apply wp_bind, (wp_get_client c cl); [done|]. destruct (in_multi cl); [eapply (r_addReply W s c cl); eauto|].
  apply wp_bind, (wp_mod_client c cl); [done|]. set (s1 := upd_clients _ s).
  assert (progress W W ∅ s s1) as Hp1.
  { apply (progress_edit W s c cl); [done.. | |].
    - intros F1 F2. cbn [flags with_flags]. by rewrite !has_set_flag, F1, F2 by done.
    - left. intros F. cbn [flags with_flags]. by rewrite has_set_flag, F by done. }
  eapply (r_addReply W s1 c); [apply Hp1 | cbn; by rewrite lookup_insert_eq |]. intros s2 Hp2 _ _. apply HQ. by eapply progress_trans0.
Qed.

Lemma r_discard W s c cl (Q : server -> unit -> Prop) : server_ok W s -> clients s !! c = Some cl -> (forall s' W', progress W W' ∅ s s' -> Q s' tt) -> wp (discardCommand c) s Q.
Proof.
  intros Hok Hc HQ. apply wp_bind, (wp_get_client c cl); [done|]. destruct (in_multi cl); cbn [negb]; [|eapply (r_addReply W s c cl); eauto].
  apply wp_bind. eapply (r_discardTransaction W s c cl); [done..|]. intros s1 Hp1 _ _ Hc1.
  eapply (r_addReply _ s1 c); [apply Hp1 | by rewrite Hc1, lookup_insert_eq |]. intros s2 Hp2 _ _. eapply HQ. by eapply progress_trans0.
Qed.

Lemma r_watch W s c cl (Q : server -> unit -> Prop) : server_ok W s -> clients s !! c = Some cl -> (forall s' W', progress W W' ∅ s s' -> Q s' tt) -> wp (watchCommand c) s Q.
Proof.
  intros Hok Hc HQ. apply wp_bind, (wp_get_client c cl); [done|]. destruct (in_multi cl); [eapply (r_addReply W s c cl); eauto|].
  apply wp_bind. unfold args_from. apply wp_bind, (wp_get_client c cl), wp_ret; [done|]. apply wp_bind. eapply (r_watch_all W c cl); [done..|].
  intros s1 W1 w Hok1 HW1 _ Hr1 Hc1.
  assert (progress W W1 ∅ s s1) as Hp1 by (apply (progress_client W W1 s s1 c cl (with_watched w cl)); [done.. | by left]).
  eapply (r_addReply W1 s1 c); [done | by rewrite Hc1, lookup_insert_eq |]. intros s2 Hp2 _ _. eapply HQ. by eapply progress_trans0.
Qed.


Lemma r_run W s c cl cmd (Q : server -> unit -> Prop) : server_ok W s -> unforced s -> clients s !! c = Some cl ->
  match cmd with MULTI | DISCARD | WATCH | UNWATCH => True | EXEC => exec_ok c s cl | _ => admissible s c cmd (argv cl) end ->
  (forall s' W', progress W W' (match cmd with EXEC => queue_moves s c (mstate cl) | _ => moves s c cmd (argv cl) end) s s' -> Q s' tt) ->
  wp (proc ← lift (table_proc int_encoded cmd); call c proc) s Q.
Proof.
  intros Hok Hn Hc Had HQ.
  assert (data_proc int_encoded cmd <> None -> admissible s c cmd (argv cl) -> wp (proc ← lift (table_proc int_encoded cmd); call c proc) s Q) as Hdata.
  { intros _ Ha. destruct (ad_proc _ _ _ _ _ Ha) as [proc Hproc]. apply wp_bind, (wp_lift _ proc); [by destruct cmd|].
    eapply (r_call_progress W s c cl); [done..|]. eapply wp_mono; [by eapply (r_data W s c cl cmd proc)|]. intros s1 [] HI. exists W.
    split; [by apply progress_inv|]. intros s2 ->. eapply HQ. apply progress_call, progress_inv. by destruct cmd. }
  destruct cmd; try (by apply Hdata); try (by destruct (ad_proc _ _ _ _ _ Had)); apply wp_bind; (eapply wp_lift; [reflexivity|]); eapply (r_call_progress W s c cl); try done.
  - eapply (r_multi W s c cl); [done..|]. intros s1 Hp1. exists W. split; [exact Hp1|]. intros s2 ->. eapply HQ. by apply progress_call.
  - eapply (r_execCommand W s c cl); [done..|]. intros s1 W1 Hp1 _. exists W1. split; [exact Hp1|]. intros s2 ->. eapply HQ. by apply progress_call.
  - eapply (r_discard W s c cl); [done..|]. intros s1 W1 Hp1. exists W1. split; [exact Hp1|]. intros s2 ->. eapply HQ. by apply progress_call.
  - eapply (r_watch W s c cl); [done..|]. intros s1 W1 Hp1. exists W1. split; [exact Hp1|]. intros s2 ->. eapply HQ. by apply progress_call.
  - eapply (r_unwatchCommand W s c cl); [done..|]. intros s1 Hp1 _ _. exists (without c W). split; [exact Hp1|]. intros s2 ->. eapply HQ. by apply progress_call.
Qed.

Lemma r_request W s c cl l (Q : server -> unit -> Prop) : server_ok W s -> unforced s -> clients s !! c = Some cl -> request_ok s c l ->
  (forall s' W', progress W W' (request_moves s c l) s s' -> Q s' tt) -> wp (run_request c l) s Q.
Proof.
  intros Hok Hn Hc [Hl Hrq] HQ. unfold run_request. apply wp_bind, (wp_mod_client c cl); [done|]. set (s1 := upd_clients _ s). set (cl1 := with_argv l cl).
  assert (clients s1 !! c = Some cl1) as Hc1 by (cbn; by rewrite lookup_insert_eq).
  assert (progress W W ∅ s s1) as Hp1 by (apply (progress_edit W s c cl); [done.. | by left]).
  assert (forall s', progress W W ∅ s1 s' -> Q s' tt) as Hsame.
  { intros s' Hp. eapply HQ, progress_mono; [apply empty_subseteq | by eapply progress_trans0]. }
  destruct l as [|name l]; [done|]. unfold processCommand. apply wp_bind. unfold arg. apply wp_bind, (wp_get_client c cl1), (wp_lift _ name); [done..|].
  destruct (decide (tolower <$> c_str name = bytes_of "quit")).
  { apply wp_bind. eapply (r_addReply W s1 c cl1); [apply Hp1 | done |]. intros s2 Hp2 _ Hc2. set (cl2 := with_reply _ cl1) in *.
    assert (clients s2 !! c = Some cl2) as Hcl2 by (by rewrite Hc2, lookup_insert_eq). apply (wp_mod_client c cl2); [done|]. apply Hsame.
    eapply progress_trans0; [exact Hp2 | | done]. apply (progress_edit W s2 c cl2); [apply Hp2 | done.. | |].
    - intros F1 F2. cbn [flags with_flags]. by rewrite !has_set_flag, F1, F2 by done.
    - left. intros F. cbn [flags with_flags]. by rewrite has_set_flag, F by done. }
  destruct (lookupCommand name) as [cmd|] eqn:Ecmd; [|by eapply (r_refuse W s1 c cl1); [apply Hp1 | done |]].
  apply wp_bind, (wp_get_client c cl1); [done|]. change (argv cl1) with (name :: l).
  destruct (arity_ok cmd (zlen (name :: l))) eqn:Ear; cbn [negb]; [|by eapply (r_refuse W s1 c cl1); [apply Hp1 | done |]].
  apply wp_bind, wp_get. assert (refusal fr s1 c cl1 cmd = refusal fr s c cl1 cmd) as -> by done.
  destruct (refusal fr s c cl1 cmd) as [[b r]|] eqn:Eref; [by eapply (r_refuse W s1 c cl1); [apply Hp1 | done |]|].
  change (in_multi cl1) with (in_multi cl). destruct (in_multi cl && negb (runs_in_multi cmd)) eqn:Eq.
  - apply wp_bind, (wp_mod_client c cl1); [done|]. set (s2 := upd_clients _ s1).
    assert (progress W W ∅ s1 s2) as Hp2 by (apply (progress_edit W s1 c cl1); [apply Hp1 | done.. | by left]).
    eapply (r_addReply W s2 c); [apply Hp2 | cbn; by rewrite lookup_insert_eq |]. intros s3 Hp3 _ _. apply Hsame. by eapply progress_trans0.
  - assert (runs_now s c cl (name :: l) cmd) as Hrun by (by split_and!). specialize (Hrq cl cmd Hc Hrun).
    assert (forall cmd' l', moves s1 c cmd' l' = moves s c cmd' l') as Hmv by (intros; apply moves_db, Hp1).
    eapply (r_run W s1 c cl1 cmd); [apply Hp1 | by apply Hp1 | done | |].
    + destruct cmd; try exact I; try exact Hrq; (eapply admissible_keys; [| |exact Hrq]; [done | apply Hp1]).
    + intros s' W' Hp. eapply HQ. eapply progress_trans0; [exact Hp1 | | done]. unfold request_moves. rewrite Hc. change (default [] (head (name :: l))) with name. rewrite Ecmd.
      rewrite (queue_moves_db s s1) in Hp by apply Hp1. change (mstate cl1) with (mstate cl) in Hp. change (argv cl1) with (name :: l) in Hp. rewrite Hmv in Hp.
      by destruct cmd.
Qed.


Lemma c_str_prefix l : c_str l `prefix_of` l.
Proof. induction l as [|x l IH]; cbn; [done|]. destruct (x =? 0); [apply prefix_nil | by apply prefix_cons]. Qed.

Lemma lookup_not_quit name cmd : lookupCommand name = Some cmd -> tolower <$> c_str name <> bytes_of "quit".
Proof.
  unfold lookupCommand. intros Hcmd Hq. assert (cmd ∈ filter (fun cmd => tolower <$> name = bytes_of (command_name cmd)) redisCommandTable) as Hin.
  { destruct (filter _ _); [done|]. injection Hcmd as ->. left. }
  apply list_elem_of_filter in Hin as [Hname _]. destruct (c_str_prefix name) as [r Hr]. rewrite Hr, fmap_app, Hq in Hname.
  destruct cmd; vm_compute in Hname; discriminate.
Qed.

#[local] Abbreviation asking s c cl l := (upd_clients (fun m => <[c := with_argv l cl]> m) s).

Lemma wp_dispatch s c cl name l (Q : server -> unit -> Prop) : clients s !! c = Some cl -> tolower <$> c_str name <> bytes_of "quit" ->
  wp (match lookupCommand name with
      | None => refuse c true (ErrText "unknown command")
      | Some cmd => if negb (arity_ok cmd (zlen (name :: l))) then refuse c true (ErrText "wrong number of arguments") else
          match refusal fr s c (with_argv (name :: l) cl) cmd with
          | Some (flag, r) => refuse c flag r
          | None => if in_multi cl && negb (runs_in_multi cmd) then queueMultiCommand c cmd;; addReply c Queued else proc ← lift (table_proc int_encoded cmd); call c proc
          end
      end) (asking s c cl (name :: l)) Q -> wp (run_request c (name :: l)) s Q.
Proof.
  intros Hc Hq HQ. unfold run_request. apply wp_bind, (wp_mod_client c cl); [done|]. set (s1 := upd_clients _ s) in *. set (cl1 := with_argv (name :: l) cl) in *.
  assert (clients s1 !! c = Some cl1) as Hc1 by (cbn; by rewrite lookup_insert_eq).
  unfold processCommand, arg. apply wp_bind, wp_bind, (wp_get_client c cl1), (wp_lift _ name); [done..|]. rewrite decide_False by done.
  destruct (lookupCommand name) as [cmd|]; [|exact HQ]. apply wp_bind, (wp_get_client c cl1); [done|]. change (argv cl1) with (name :: l).
  destruct (negb _); [exact HQ|]. apply wp_bind, wp_get. exact HQ.
Qed.

(** A request that is run is the call of its command. *)
Lemma wp_run_request s c cl l cmd (Q : server -> unit -> Prop) : l <> [] -> clients s !! c = Some cl -> runs_now s c cl l cmd ->
  wp (proc ← lift (table_proc int_encoded cmd); call c proc) (asking s c cl l) Q -> wp (run_request c l) s Q.
Proof.
  intros Hl Hc (Hcmd & Har & Hrf & Hq) HQ. destruct l as [|name l]; [done|]. change (lookupCommand name = Some cmd) in Hcmd.
  apply (wp_dispatch s c cl); [done | by eapply lookup_not_quit |]. by rewrite Hcmd, Har, Hrf, Hq.
Qed.

(** A request that is refused. *)
Definition refused_with (b : bool) W s c cl s' : Prop := same_keys s s' /\ server_ok W s' /\
  exists cl', clients s' !! c = Some cl' /\ mstate cl' = mstate cl /\ has_flag (flags cl') REDIS_DIRTY_EXEC = has_flag (flags cl) REDIS_DIRTY_EXEC || b.

Lemma r_refused W s c cl l b r : server_ok W s -> clients s !! c = Some cl -> in_multi cl = true ->
  wp (refuse c b r) (asking s c cl l) (fun s' _ => refused_with b W s c cl s').
Proof.
  intros Hok Hc Hm. set (s1 := upd_clients _ s). set (cl1 := with_argv l cl). assert (clients s1 !! c = Some cl1) as Hc1 by (cbn; by rewrite lookup_insert_eq).
  assert (server_ok W s1) as Hok1 by (by apply (server_ok_client W s c cl)). unfold refuse. destruct b; apply wp_bind.
  - apply wp_bind, (wp_get_client c cl1); [done|]. change (in_multi cl1) with (in_multi cl). rewrite Hm. apply (wp_mod_client c cl1); [done|].
    set (s2 := upd_clients _ s1). set (cl2 := with_flags (fun f => set_flag f REDIS_DIRTY_EXEC) cl1).
    assert (clients s2 !! c = Some cl2) as Hc2 by (cbn; by rewrite lookup_insert_eq). assert (server_ok W s2) as Hok2 by (by apply (server_ok_client W s1 c cl1)).
    eapply (r_addReply W s2 c cl2); [done..|]. intros s3 Hp3 Hr3 Hc3. split; [exact (rt_keys _ _ Hr3)|]. split; [apply Hp3|].
    eexists. rewrite Hc3, lookup_insert_eq. split_and!; [done..|]. cbn [flags with_reply cl2 with_flags]. by rewrite has_set_flag.
  - apply wp_ret. eapply (r_addReply W s1 c cl1); [done..|]. intros s3 Hp3 Hr3 Hc3. split; [exact (rt_keys _ _ Hr3)|]. split; [apply Hp3|].
    eexists. rewrite Hc3, lookup_insert_eq. split_and!; [done..|]. by rewrite orb_false_r.
Qed.

(** The refusals that do not flag. *)
Lemma unflagged_refusal s c cl cmd r : refusal fr s c cl cmd = Some (false, r) ->
  masterhost (cfg s) = true /\ repl_slave_ro fr = true /\ is_write cmd = true \/ has_flag (flags cl) REDIS_PUBSUB = true /\ is_pubsub cmd = false \/ loading (cfg s) = true.
Proof.
  unfold refusal. destruct (requirepass fr && _); [done|]. destruct (if (_ : bool) then redirected _ _ _ _ else None); [done|].
  destruct ((bgsave_failed fr || _) && _ && _); [done|]. destruct (negb (masterhost (cfg s)) && _ && _); [done|].
  destruct (masterhost (cfg s) && repl_slave_ro fr && _ && is_write cmd) eqn:E1.
  { intros _. left. by apply andb_prop in E1 as [[[? ?]%andb_prop _]%andb_prop ?]. }
  destruct (has_flag _ _ && negb (is_pubsub cmd)) eqn:E2.
  { intros _. right. left. by apply andb_prop in E2 as [? ?%negb_true_iff]. }
  destruct (masterhost (cfg s) && master_down fr && _); [done|]. destruct (loading (cfg s) && _) eqn:E3; [|by destruct (lua_timedout fr)].
  intros _. right. right. by apply andb_prop in E3 as [].
Qed.

Lemma exec_outcome_from s s1 c cl cl1 s' : same_keys s s1 -> cl1 = with_argv (argv cl1) cl -> exec_outcome c s1 cl1 s' -> exec_outcome c s cl s'.
Proof.
  intros Hk ->. assert (forall s2, same_keys s1 s2 -> same_keys s s2) as Htr by (intros s2 H x; destruct (H x) as [-> ->]; apply Hk).
  unfold exec_outcome. change (in_multi (with_argv _ cl)) with (in_multi cl). change (is_dirty (with_argv _ cl)) with (is_dirty cl).
  destruct (negb (in_multi cl)); [intros [H1 H2]; auto|]. destruct (is_dirty cl).
  - intros [H1 H2]. constructor; [auto | exact H2].
  - intros [(sa & H1 & H2) H3]. constructor; [exists sa; auto | exact H3].
Qed.

Lemma r_exec_request W s c cl l (Q : server -> unit -> Prop) : server_ok W s -> unforced s -> clients s !! c = Some cl -> request_ok s c l -> runs_now s c cl l EXEC ->
  (forall s', exec_outcome c s cl s' -> Q s' tt) -> wp (run_request c l) s Q.
Proof.
  intros Hok Hn Hc [Hl Hrq] Hrun HQ. apply (wp_run_request s c cl l EXEC); [done..|]. set (s1 := upd_clients _ s). set (cl1 := with_argv l cl).
  assert (clients s1 !! c = Some cl1) as Hc1 by (cbn; by rewrite lookup_insert_eq).
  assert (progress W W ∅ s s1) as Hp1 by (apply (progress_edit W s c cl); [done.. | by left]). specialize (Hrq cl EXEC Hc Hrun). cbn in Hrq.
  apply wp_bind. eapply wp_lift; [reflexivity|].
  apply (wp_call c cl1); [done | by apply Hp1 |]. eapply (r_execCommand W s1 c cl1); [apply Hp1 | by apply Hp1 | done | done |].
  intros s2 W2 Hp2 Hout. split; [by apply Hp2, Hp1|]. split; [by eapply pg_live|]. apply HQ.
  assert (exec_outcome c s1 cl1 (fed c s1 s2)) as Hfed; [|by eapply (exec_outcome_from s s1 c cl cl1)].
  pose proof (bookkeeping_fed c s1 s2) as Hb. assert (clients (fed c s1 s2) = clients s2) as Hcl by (unfold fed; destruct (clients s2 !! c); [by destruct (_ <=? 0) | done]).
  revert Hout. unfold exec_outcome. destruct (negb (in_multi cl1)); [|destruct (is_dirty cl1)].
  - rewrite Hcl. intros [H1 H2]. split; [|exact H2]. intros x. destruct (proj1 Hb x) as [-> ->]. apply H1.
  - intros [H1 H2]. constructor; [|by rewrite Hcl]. intros x. destruct (proj1 Hb x) as [-> ->]. apply H1.
  - intros [(sa & H1 & H2 & H3) H4]. constructor; [|by rewrite Hcl]. exists sa. split_and!; [done.. | by eapply runs_after].
Qed.

(** ** Histories *)

(** What a client sees when it starts to watch a key: its value, and whether it is volatile. *)
Abbreviation sight := (option val * bool)%type.
Definition snapshot s (x : loc) : sight := (val_at s x, bool_decide (is_Some (expire_at s x))).

(** The key is as it was seen, or gone because it was volatile; it got no expiration. *)
Definition as_seen (v : sight) s (x : loc) : Prop :=
  (val_at s x = v.1 \/ val_at s x = None /\ v.2 = true) /\ (is_Some (expire_at s x) -> v.2 = true).

Definition watches_key s (c : cid) (x : loc) : bool := match clients s !! c with Some cl => bool_decide ((x.2, x.1) ∈ c_watched cl) | None => false end.

(** What all clients saw when they started to watch the keys they watch; a key
    watched since before [s] keeps what was seen then. *)
Definition renewed (m : gmap (cid * loc) sight) s (m' : gmap (cid * loc) sight) : Prop :=
  forall c x, m' !! (c, x) = if watches_key s c x then Some (default (snapshot s x) (m !! (c, x))) else None.

(** From [s0], some requests of any clients later; [P] collects the moved keys. *)
Inductive history s0 : gset loc -> gmap (cid * loc) sight -> server -> Prop :=
  | history_start m : renewed ∅ s0 m -> history s0 ∅ m s0
  | history_request P m s c l s' m' : history s0 P m s -> is_Some (clients s !! c) -> request_ok s c l -> run_request c l s = Some (s', tt) ->
      renewed m s' m' -> history s0 (request_moves s c l ∪ P) m' s'.

Lemma watches_key_rep W s c x : watch_rep W s -> watches_key s c x = true <-> (c, x) ∈ W.
Proof.
  intros [H1 H2 _]. unfold watches_key. destruct x as [id k]. cbn [fst snd]. destruct (clients s !! c) as [cl|] eqn:Hc.
  - rewrite bool_decide_eq_true. apply (proj2 (H1 c cl Hc)).
  - split; [done|]. intros Hx. destruct (H2 c _ Hx) as [[cl Hcl] _]. congruence.
Qed.

Lemma as_seen_snapshot s x : as_seen (snapshot s x) s x.
Proof. split; [by left|]. cbn. intros H. by apply bool_decide_eq_true. Qed.

Lemma as_seen_later v s s' x : as_seen v s x -> undisturbed s s' x -> as_seen v s' x.
Proof. unfold as_seen, undisturbed. intros [[<-|[H1 H2]] H3] [[->|[K1 K2]] K3]; split; auto. Qed.

Lemma history_keeps W0 s0 P m s : server_ok W0 s0 -> unforced s0 -> history s0 P m s ->
  exists W, server_ok W s /\ unforced s /\ (forall c x, is_Some (m !! (c, x)) <-> (c, x) ∈ W) /\
    forall c x v, m !! (c, x) = Some v -> flagged s c \/ x ∈ P \/ as_seen v s x.
Proof.
  intros Hok0 Hn0. induction 1 as [m Hm|P m s c l s' m' Hh (W & Hok & Hn & HW & Hw) [cl Hc] Hrq Hrun Hm].
  - exists W0. split_and!; [done..| |].
    + intros c x. rewrite Hm, lookup_empty. rewrite <- (watches_key_rep W0 s0) by apply Hok0. destruct (watches_key s0 c x); naive_solver.
    + intros c x v Hv. rewrite Hm, lookup_empty in Hv. destruct (watches_key s0 c x); [|done]. injection Hv as <-. right. right. apply as_seen_snapshot.
  - assert (wp (run_request c l) s (fun s' _ => exists W', progress W W' (request_moves s c l) s s')) as Hp.
    { eapply (r_request W s c cl l); [done..|]. eauto. }
    unfold wp in Hp. rewrite Hrun in Hp. destruct Hp as (W' & [Hok' Hn' _ Hpw]). exists W'. split; [done|]. split; [by apply Hn'|]. split.
    + intros c1 x. rewrite Hm. rewrite <- (watches_key_rep W' s') by apply Hok'. destruct (watches_key s' c1 x); naive_solver.
    + intros c1 x v Hv. rewrite Hm in Hv. destruct (watches_key s' c1 x) eqn:Ew; [|done]. injection Hv as <-.
      apply (watches_key_rep W') in Ew; [|apply Hok']. destruct (m !! (c1, x)) as [v|] eqn:Ev; cbn [default]; [|right; right; apply as_seen_snapshot].
      assert ((c1, x) ∈ W) as HxW by (apply HW; eauto). destruct (Hpw c1 x HxW Ew) as [Hf Hu].
      destruct (Hw c1 x v Ev) as [?|[?|Hs]]; [left; auto | right; left; set_solver |].
      destruct Hu as [?|[?|Hu]]; [by left | right; left; set_solver | right; right; by eapply as_seen_later].
Qed.

End Exec.



(** C18: what is refused inside MULTI spoils the transaction, with three exceptions.  A
    request that is refused changes no key and queues nothing; inside MULTI it flags the
    transaction, so that EXEC aborts, exactly when the command is unknown, has the
    wrong number of arguments, or is refused for another reason than being a write on a
    read-only slave, being sent by a client in the Pub/Sub context, or the data set being
    loaded: these leave the transaction as it was. *)
Theorem refused_requests `{E : Env} (int_encoded : list Z -> bool) (fr : front) (W : gset (cid * loc)) (s : server) (c : cid) (cl : redisClient)
    (name : list Z) (l : list (list Z)) :
  server_ok W s -> clients s !! c = Some cl -> in_multi cl = true -> tolower <$> c_str name <> bytes_of "quit" ->
  let flagged_if b := wp (run_request int_encoded fr c (name :: l)) s (fun s' _ => refused_with b W s c cl s') in
  match lookupCommand name with
  | None => flagged_if true
  | Some cmd =>
      if negb (arity_ok cmd (zlen (name :: l))) then flagged_if true
      else forall b r, refusal fr s c (with_argv (name :: l) cl) cmd = Some (b, r) -> flagged_if b /\
        (b = false -> masterhost (cfg s) = true /\ repl_slave_ro fr = true /\ is_write cmd = true \/
                      has_flag (flags cl) REDIS_PUBSUB = true /\ is_pubsub cmd = false \/ loading (cfg s) = true)
  end.
Proof.
  intros Hok Hc Hm Hq flagged_if. subst flagged_if. cbv beta. pose proof (fun Q => wp_dispatch int_encoded fr s c cl name l Q Hc Hq) as Hrun.
  revert Hrun. destruct (lookupCommand name) as [cmd|]; [|intros Hrun; by apply Hrun, r_refused].
  destruct (negb (arity_ok cmd (zlen (name :: l)))); intros Hrun; [by apply Hrun, r_refused|]. intros b r Hbr. rewrite Hbr in Hrun. split; [by apply Hrun, r_refused|]. intros ->. exact (unflagged_refusal fr s c _ cmd r Hbr).
Qed.
