(* ===== verification/DemoTx.v ===== *)
(** * Transactions in motion

    A history of requests on the server of [Demo.v] in which a client watches a key,
    queues commands and runs them, and the theorems about requests and transactions
    applied to it. *)
From Stdlib Require Import Lia ZArith String.
From stdpp Require Import base numbers list tactics option gmap fin_maps fin_sets sets.
From S2P Require Import Prelude Util Intset Dict DictRep DictIter Object Glob SetType Server Pubsub Crc Db DbOk DbRules DbCommands SetCmd SetCmdOk SetCommands Commands SetAlgebra Demo Multi MultiOk Transactions.

#[local] Open Scope Z_scope.
#[local] Existing Instance demo_env.

(** A master that refuses nothing. *)
Definition open_front : front := mk_front false (fun _ => true) (fun _ _ _ => None) false false false false false false.

#[local] Abbreviation request := (run_request enc open_front).

(** ** Tests for the conditions *)

Fixpoint queue_okb (c : cid) (n j : nat) (must : bool) (s : server) : bool :=
  match n with
  | O => true
  | S n =>
      match clients s !! c ≫= fun cl => mstate cl !! j with
      | Some (UNWATCH, _) => true
      | Some (cmd, l) => admissibleb s c cmd l
      | None => true
      end && match exec_round enc c j must s with Some (s', b) => queue_okb c n (S j) b s' | None => true end
  end.

Lemma queue_okb_ok c n : forall j must s, queue_okb c n j must s = true -> queue_ok enc c n j must s.
Proof.
  induction n as [|n IH]; intros j must s; cbn [queue_okb queue_ok]; [done|]. intros [H1 H2]%andb_prop. split.
  - intros cl cmd l Hc Hj. rewrite Hc in H1. cbn in H1. rewrite Hj in H1. destruct cmd; try (right; by apply admissibleb_ok). by left.
  - intros s' b Hr. rewrite Hr in H2. by apply IH.
Qed.

Definition exec_okb (c : cid) (s : server) (cl : redisClient) : bool :=
  negb (in_multi cl) || is_dirty cl ||
  match (unwatchAllKeys c;; addReply c (MultiBulkLen (zlen (mstate cl)))) s with Some (s1, _) => queue_okb c (length (mstate cl)) 0 false s1 | None => true end.

Lemma exec_okb_ok c s cl : exec_okb c s cl = true -> exec_ok enc c s cl.
Proof. unfold exec_okb, exec_ok. intros H Hm Hd s1 Hs. rewrite Hm, Hd, Hs in H. by apply queue_okb_ok. Qed.

Definition request_okb (s : server) (c : cid) (l : list (list Z)) : bool :=
  match clients s !! c, l with
  | Some cl, name :: _ =>
      match lookupCommand name with
      | None => true
      | Some cmd =>
          if arity_ok cmd (zlen l) && bool_decide (refusal open_front s c (with_argv l cl) cmd = None) && negb (in_multi cl && negb (runs_in_multi cmd)) then
            match cmd with
            | MULTI | DISCARD | WATCH | UNWATCH => true
            | EXEC => exec_okb c (upd_clients (fun m => <[c := with_argv l cl]> m) s) (with_argv l cl)
            | _ => admissibleb s c cmd l
            end
          else true
      end
  | _, _ => false
  end.

Lemma request_okb_ok s c l : request_okb s c l = true -> is_Some (clients s !! c) /\ request_ok enc open_front s c l.
Proof.
  unfold request_okb. destruct (clients s !! c) as [cl|] eqn:Hc; [|done]. destruct l as [|name l]; [done|]. intros H. split; [eauto|].
  constructor; [done|]. intros cl' cmd Hc' (Hcmd & Har & Href & Hq). assert (cl' = cl) as -> by congruence. cbn in Hcmd.
  change (lookupCommand name = Some cmd) in Hcmd. rewrite Hcmd, Har, bool_decide_true, Hq in H by done. cbn [andb negb] in H.
  destruct cmd; try exact I; try (by apply exec_okb_ok); by apply admissibleb_ok.
Qed.

(** ** What the clients saw *)

Definition watched_pairs (s : server) : list (cid * loc) := map_to_list (clients s) ≫= fun '(c, cl) => (fun '(k, id) => (c, (id, k))) <$> c_watched cl.
Definition renew (m : gmap (cid * loc) (option val * bool)) (s : server) : gmap (cid * loc) (option val * bool) :=
  list_to_map ((fun p => (p, default (snapshot s p.2) (m !! p))) <$> watched_pairs s).

Lemma elem_of_watched_pairs s c x : (c, x) ∈ watched_pairs s <-> watches_key s c x = true.
Proof.
  unfold watched_pairs, watches_key. rewrite list_elem_of_bind. split.
  - intros ([c' cl] & Hin & Hc%elem_of_map_to_list). apply list_elem_of_fmap in Hin as ([k id] & [= -> ->] & Hin). rewrite Hc. by apply bool_decide_eq_true.
  - destruct (clients s !! c) as [cl|] eqn:Hc; [|done]. intros Hin%bool_decide_eq_true. exists (c, cl). split; [|by apply elem_of_map_to_list].
    apply list_elem_of_fmap. exists (x.2, x.1). by destruct x.
Qed.

Lemma renew_renewed m s : renewed m s (renew m s).
Proof.
  intros c x. unfold renew. destruct (watches_key s c x) eqn:Ew.
  - apply elem_of_list_to_map'.
    + intros v Hin1 Hin2. apply list_elem_of_fmap in Hin1 as (p & [= <- _] & _). apply list_elem_of_fmap in Hin2 as (q & [= <- ->] & _). done.
    + apply list_elem_of_fmap. exists (c, x). split; [done|]. by apply elem_of_watched_pairs.
  - apply not_elem_of_list_to_map. intros Hin. apply list_elem_of_fmap in Hin as ([p v] & Hp & Hin). apply list_elem_of_fmap in Hin as (q & [= -> ->] & Hq).
    cbn in Hp. subst q. apply elem_of_watched_pairs in Hq. congruence.
Qed.

(** ** Requests one after another *)

Fixpoint requests (l : list (cid * list (list Z))) (m : gmap (cid * loc) (option val * bool)) (s : server) : option (gmap (cid * loc) (option val * bool) * server) :=
  match l with
  | [] => Some (m, s)
  | (c, args) :: l => if request_okb s c args then '(s', _) ← request c args s; requests l (renew m s') s' else None
  end.

Lemma requests_history s0 l : forall P m s m' s', history enc open_front s0 P m s -> requests l m s = Some (m', s') -> exists P', history enc open_front s0 P' m' s'.
Proof.
  induction l as [|[c args] l IH]; intros P m s m' s' Hh; cbn [requests]; [intros [= <- <-]; by exists P|].
  destruct (request_okb s c args) eqn:Hok; [|done]. apply request_okb_ok in Hok as [Hl Hok]. destruct (request c args s) as [[s1 []]|] eqn:E; [|done].
  cbn. intros Hr. eapply (IH _ _ s1); [|exact Hr]. eapply history_request; [exact Hh | done | exact Hok | exact E | apply renew_renewed].
Qed.

(** Client 1 watches [b], client 2 queues a command on it while it watches [a]. *)
Definition dialogue : list (cid * list (list Z)) :=
  [(1%positive, words ["sadd"; "b"; "1"]%string); (2%positive, words ["MULTI"]%string); (2%positive, words ["sadd"; "b"; "2"]%string);
   (2%positive, words ["Scard"; "b"]%string); (1%positive, words ["WATCH"; "b"]%string); (1%positive, words ["multi"]%string);
   (1%positive, words ["srem"; "b"; "1"]%string); (1%positive, words ["nosuchcommand"]%string)].

Definition spoken : gmap (cid * loc) (option val * bool) * server := Eval vm_compute in
  default (∅, watching) (requests dialogue (renew ∅ watching) watching).

Example dialogue_runs : requests dialogue (renew ∅ watching) watching = Some spoken.
Proof. vm_compute. reflexivity. Qed.

Lemma watching_unforced : unforced watching.
Proof. intros c cl Hc. destruct (watching_client c cl Hc) as [[_ ->]|[_ ->]]; by split. Qed.

Lemma spoken_history : exists P, history enc open_front watching P spoken.1 spoken.2.
Proof.
  pose proof dialogue_runs as Hrun. destruct spoken as [m s]. eapply requests_history; [apply history_start, renew_renewed | exact Hrun].
Qed.

(** ** The theorems on this history *)


Definition speaker : redisClient := default new_client (clients spoken.2 !! 2%positive).


Lemma refused_requests_witness : exists W, server_ok W spoken.2 /\
  wp (request 2%positive (words ["SREM"; "b"]%string)) spoken.2 (fun s' _ => refused_with true W spoken.2 2%positive speaker s').
Proof.
  destruct spoken_history as [P HP]. destruct (history_keeps enc open_front watches watching P spoken.1 spoken.2 watching_ok watching_unforced HP) as (W & Hok & _).
  exists W. split; [exact Hok|].
  assert (clients spoken.2 !! 2%positive = Some speaker) as Hc by (vm_compute; reflexivity). assert (in_multi speaker = true) as Hm by (vm_compute; reflexivity).
  assert (tolower <$> c_str (str "SREM") <> bytes_of "quit") as Hq by (vm_compute; discriminate).
  pose proof (refused_requests enc open_front W spoken.2 2%positive speaker (str "SREM") [str "b"] Hok Hc Hm Hq) as H.
  assert (lookupCommand (str "SREM") = Some SREM) as E1 by (vm_compute; reflexivity). rewrite E1 in H.
  assert (arity_ok SREM (zlen [str "SREM"; str "b"]) = false) as E2 by (vm_compute; reflexivity). rewrite E2 in H. exact H.
Defined.

(** ** A refused write that does not spoil the transaction *)

(** On a read-only slave the write is refused while queueing, and EXEC runs the rest. *)
Definition slave : server :=
  mk_server (mk_config false true None false 0) [db0; no_db] (clients watching) ∅ [] [] ∅ 0 0 0 0 O [].
Definition slave_front : front := mk_front false (fun _ => true) (fun _ _ _ => None) false false false true false false.

Example readonly_write_not_flagged :
  (s ← Some slave; '(s, _) ← run_request enc slave_front 1%positive (words ["MULTI"]%string) s;
   '(s, _) ← run_request enc slave_front 1%positive (words ["SADD"; "b"; "1"]%string) s;
   '(s, _) ← run_request enc slave_front 1%positive (words ["SCARD"; "b"]%string) s;
   '(s, _) ← run_request enc slave_front 1%positive (words ["EXEC"]%string) s; c_reply <$> clients s !! 1%positive) =
  Some [Ok; ErrText "READONLY You can't write against a read only slave."; Queued; MultiBulkLen 1; Integer 0].
Proof. vm_compute. reflexivity. Qed.
