(* ===== verification/Sds.v ===== *)
(** * Dynamic strings (sds.c)

    An sds string is the list of its bytes (0 to 255); the NUL that follows them in
    memory is read as the end of the list.  A [char *] into a string is the rest of
    the string from there. *)
From Stdlib Require Import Lia ZArith String.
From stdpp Require Import base numbers list tactics option sets.
From S2P Require Import Prelude Util.

#[local] Open Scope Z_scope.

(** [*(p+i)] for [i] up to the terminator. *)
Definition ch (p : list Z) (i : nat) : Z := default 0 (p !! i).

(** [strchr(p,c)] as an offset from [p], for [c] not NUL. *)
Fixpoint strchr (p : list Z) (c : Z) : option Z :=
  match p with [] => None | x :: p => if x =? c then Some 0 else if x =? 0 then None else Z.succ <$> strchr p c end.

(** Negative positions count from the end; the length is an [int]. *)
Definition sdsrange (s : list Z) (start end_ : Z) : list Z :=
  let len := zlen s in
  if len =? 0 then s else
  let start := if start <? 0 then Z.max 0 (len + start) else start in
  let end_ := if end_ <? 0 then Z.max 0 (len + end_) else end_ in
  let newlen := if start >? end_ then 0 else end_ - start + 1 in
  let '(start, newlen) :=
    if negb (newlen =? 0) then
      if start >=? len then (start, 0)
      else if end_ >=? len then let end_ := len - 1 in (start, if start >? end_ then 0 else end_ - start + 1)
      else (start, newlen)
    else (0, newlen) in
  take (Z.to_nat newlen) (drop (Z.to_nat start) s).

(** ** Quoting *)

Definition isspace (c : Z) : bool := (c =? 32) || ((9 <=? c) && (c <=? 13)).
Definition isprint (c : Z) : bool := (32 <=? c) && (c <=? 126).

Definition is_hex_digit (c : Z) : bool := ((48 <=? c) && (c <=? 57)) || ((97 <=? c) && (c <=? 102)) || ((65 <=? c) && (c <=? 70)).

Definition hex_digit_to_int (c : Z) : Z :=
  if (48 <=? c) && (c <=? 57) then c - 48
  else if (97 <=? c) && (c <=? 102) then c - 97 + 10
  else if (65 <=? c) && (c <=? 70) then c - 65 + 10
  else 0.

(** ["%02x"] of a byte. *)
Definition hex_digit (n : Z) : Z := if n <? 10 then 48 + n else 97 + (n - 10).
Definition hex2 (c : Z) : list Z := [hex_digit (Z.shiftr c 4); hex_digit (Z.land c 15)].

Definition repr_char (c : Z) : list Z :=
  if (c =? 92) || (c =? 34) then [92; c]
  else if c =? 10 then [92; 110] else if c =? 13 then [92; 114] else if c =? 9 then [92; 116]
  else if c =? 7 then [92; 97] else if c =? 8 then [92; 98]
  else if isprint c then [c] else [92; 120] ++ hex2 c.

Definition sdscatrepr (s p : list Z) : list Z := s ++ [34] ++ (p ≫= repr_char) ++ [34].

(** ** Splitting a line into arguments *)

Inductive quoting := Unquoted | Inq | Insq.

Definition unescape (c : Z) : Z :=
  if c =? 110 then 10 else if c =? 114 then 13 else if c =? 116 then 9 else if c =? 98 then 8 else if c =? 97 then 7 else c.

(** The loop over one token: [Some None] is an error, [None] is no fuel. *)
Fixpoint split_token (fuel : nat) (q : quoting) (current p : list Z) : option (option (list Z * list Z)) :=
  match fuel with
  | O => None
  | S fuel =>
      let c := ch p 0 in
      let closing := if negb (ch p 1 =? 0) && negb (isspace (ch p 1)) then Some None else Some (Some (current, drop 1 p)) in
      match q with
      | Inq =>
          if (c =? 92) && (ch p 1 =? 120) && is_hex_digit (ch p 2) && is_hex_digit (ch p 3) then
            split_token fuel Inq (current ++ [hex_digit_to_int (ch p 2) * 16 + hex_digit_to_int (ch p 3)]) (drop 4 p)
          else if (c =? 92) && negb (ch p 1 =? 0) then split_token fuel Inq (current ++ [unescape (ch p 1)]) (drop 2 p)
          else if c =? 34 then closing
          else if c =? 0 then Some None
          else split_token fuel Inq (current ++ [c]) (drop 1 p)
      | Insq =>
          if (c =? 92) && (ch p 1 =? 39) then split_token fuel Insq (current ++ [39]) (drop 2 p)
          else if c =? 39 then closing
          else if c =? 0 then Some None
          else split_token fuel Insq (current ++ [c]) (drop 1 p)
      | Unquoted =>
          if c =? 0 then Some (Some (current, p))
          else if (c =? 32) || (c =? 10) || (c =? 13) || (c =? 9) then Some (Some (current, drop 1 p))
          else if c =? 34 then split_token fuel Inq current (drop 1 p)
          else if c =? 39 then split_token fuel Insq current (drop 1 p)
          else split_token fuel Unquoted (current ++ [c]) (drop 1 p)
      end
  end.

Fixpoint skip_blanks (p : list Z) : list Z := match p with x :: p' => if isspace x then skip_blanks p' else p | [] => [] end.

Fixpoint split_loop (fuel : nat) (vector : list (list Z)) (p : list Z) : option (option (list (list Z))) :=
  match fuel with
  | O => None
  | S fuel =>
      let p := skip_blanks p in
      if ch p 0 =? 0 then Some (Some vector) else
      match split_token (S (length p)) Unquoted [] p with
      | Some (Some (current, p)) => split_loop fuel (vector ++ [current]) p
      | Some None => Some None
      | None => None
      end
  end.

(** [Some None] is [NULL]; every round consumes a character. *)
Definition sdssplitargs (line : list Z) : option (option (list (list Z))) := split_loop (S (length line)) [] line.

(** ** Correctness *)

Lemma strchr_spec p c : c <> 0 -> match strchr p c with
  | Some i => exists a b, p = a ++ c :: b /\ c ∉ a /\ 0 ∉ a /\ i = zlen a
  | None => exists a b, p = a ++ b /\ c ∉ a /\ 0 ∉ a /\ (b = [] \/ exists b', b = 0 :: b')
  end.
Proof.
  intros Hc. induction p as [|x p IH]; cbn; [exists [], []; set_solver|]. destruct (x =? c) eqn:E1; zbool; [subst; exists [], p; set_solver|].
  destruct (x =? 0) eqn:E2; zbool; [subst; exists [], (0 :: p); naive_solver (set_solver)|]. destruct (strchr p c) as [i|]; cbn.
  - destruct IH as (a & b & -> & H1 & H2 & ->). exists (x :: a), b. cbn. split_and!; [done | set_solver.. | lia].
  - destruct IH as (a & b & -> & H1 & H2 & H3). exists (x :: a), b. split_and!; [done | set_solver.. | done].
Qed.

Lemma strchr_app a c b : c ∉ a -> 0 ∉ a -> c <> 0 -> strchr (a ++ c :: b) c = Some (zlen a).
Proof.
  intros H1 H2 Hc. induction a as [|x a IH]; cbn; [by rewrite Z.eqb_refl|]. assert (x <> c /\ x <> 0) as [? ?] by set_solver.
  zfalse (x =? c). zfalse (x =? 0). rewrite IH by set_solver. cbn. f_equal. lia.
Qed.

Lemma strchr_none a c : c ∉ a -> strchr a c = None.
Proof. induction a as [|x a IH]; cbn; [done|]. intros H. assert (x <> c) by set_solver. zfalse (x =? c). rewrite IH by set_solver. by destruct (x =? 0). Qed.

(** What is left from a position on. *)
Lemma sdsrange_from s n : 0 <= n -> sdsrange s n (-1) = drop (Z.to_nat n) s.
Proof.
  intros Hn. unfold sdsrange. destruct (zlen s =? 0) eqn:E; zbool; [destruct s; [by rewrite drop_nil | cbn in E; lia]|].
  zfalse (n <? 0). change (-1 <? 0) with true. cbv iota zeta. rewrite Z.max_r by lia. destruct (n >? zlen s + -1) eqn:E1; zbool.
  - rewrite (drop_ge s (Z.to_nat n)) by lia. done.
  - zfalse (zlen s + -1 - n + 1 =? 0). cbn [negb]. destruct (n >=? zlen s) eqn:E2; zbool; [lia|]. zfalse (zlen s + -1 >=? zlen s). apply take_ge. rewrite length_drop. lia.
Qed.

Lemma ch_cons x p : ch (x :: p) 0 = x.
Proof. done. Qed.

(** The loops consume their input: enough fuel is the length. *)
Lemma ch_nonzero p i : ch p i <> 0 -> (i < length p)%nat.
Proof. unfold ch. intros H. destruct (p !! i) eqn:E; [by apply lookup_lt_Some in E | done]. Qed.

Lemma split_token_total fuel : forall q current p, (length p < fuel)%nat -> exists r, split_token fuel q current p = Some r /\
  match r with Some (_, p') => (length p' <= length p)%nat /\ (q = Unquoted -> ch p 0 <> 0 -> (length p' < length p)%nat) | None => True end.
Proof.
  induction fuel as [|fuel IH]; intros q current p Hl; [lia|]. cbn [split_token].
  assert (forall n q' cur, (0 < n)%nat -> ch p 0 <> 0 -> exists r, split_token fuel q' cur (drop n p) = Some r /\
    match r with Some (_, p') => (length p' <= length p)%nat /\ (q = Unquoted -> ch p 0 <> 0 -> (length p' < length p)%nat) | None => True end) as Hrec.
  { intros n q' cur Hn H0. apply ch_nonzero in H0. destruct (IH q' cur (drop n p)) as (r & -> & Hr); [rewrite length_drop; lia|]. exists r. split; [done|].
    destruct r as [[t p']|]; [|done]. rewrite length_drop in Hr. lia. }
  assert (forall cur : list Z, ch p 0 <> 0 -> exists r, Some (Some (cur, drop 1 p)) = Some r /\
    match r with Some (_, p') => (length p' <= length p)%nat /\ (q = Unquoted -> ch p 0 <> 0 -> (length p' < length p)%nat) | None => True end) as Hend.
  { intros cur H0. eexists. split; [done|]. apply ch_nonzero in H0. cbn. rewrite length_drop. lia. }
  destruct q; repeat case_match; zbool; try (by eexists); try (by apply Hrec; [lia | lia || congruence]); try (by apply Hend; lia || congruence).
Qed.

Lemma skip_blanks_length p : (length (skip_blanks p) <= length p)%nat.
Proof. induction p as [|x p IH]; cbn; [lia|]. destruct (isspace x); cbn; lia. Qed.

Lemma split_loop_total fuel : forall vector p, (length p < fuel)%nat -> is_Some (split_loop fuel vector p).
Proof.
  induction fuel as [|fuel IH]; intros vector p Hl; [lia|]. cbn [split_loop]. pose proof (skip_blanks_length p). destruct (ch (skip_blanks p) 0 =? 0) eqn:E; zbool; [eauto|].
  destruct (split_token_total (S (length (skip_blanks p))) Unquoted [] (skip_blanks p)) as (r & -> & Hr); [lia|]. destruct r as [[t p']|]; [|eauto].
  apply IH. destruct Hr as [_ Hr]. specialize (Hr eq_refl E). lia.
Qed.

Lemma hex_digit_spec n : 0 <= n < 16 -> is_hex_digit (hex_digit n) = true /\ hex_digit_to_int (hex_digit n) = n /\ hex_digit n <> 0.
Proof.
  intros Hn. unfold is_hex_digit, hex_digit_to_int, hex_digit. destruct (n <? 10) eqn:E; zbool.
  - ztrue ((48 <=? 48 + n) && (48 + n <=? 57)). cbn. lia.
  - zfalse ((48 <=? 97 + (n - 10)) && (97 + (n - 10) <=? 57)). ztrue ((97 <=? 97 + (n - 10)) && (97 + (n - 10) <=? 102)). cbn. lia.
Qed.

Definition is_byte (c : Z) : Prop := 0 <= c < 256.

(** Reading back one character. *)
Lemma unquote_char c cur rest fuel : is_byte c -> split_token (S fuel) Inq cur (repr_char c ++ rest) = split_token fuel Inq (cur ++ [c]) rest.
Proof.
  intros Hc. unfold repr_char. destruct ((c =? 92) || (c =? 34)) eqn:E0.
  { apply orb_prop in E0. assert (c = 92 \/ c = 34) as [-> | ->] by (destruct E0; zbool; lia); reflexivity. }
  apply orb_false_elim in E0 as [E1 E2]. destruct (c =? 10) eqn:E3; zbool; [subst; reflexivity|]. destruct (c =? 13) eqn:E4; zbool; [subst; reflexivity|].
  destruct (c =? 9) eqn:E5; zbool; [subst; reflexivity|]. destruct (c =? 7) eqn:E6; zbool; [subst; reflexivity|]. destruct (c =? 8) eqn:E7; zbool; [subst; reflexivity|].
  destruct (isprint c) eqn:E8.
  - unfold isprint in E8. zbool. cbn [split_token app]. rewrite ch_cons. zfalse (c =? 92). zfalse (c =? 34). zfalse (c =? 0). cbn [andb drop]. by rewrite drop_0.
  - unfold is_byte in Hc. assert (0 <= Z.shiftr c 4 < 16) as H1 by (rewrite Z.shiftr_div_pow2 by lia; split; [apply Z.div_pos; lia | apply Z.div_lt_upper_bound; lia]).
    assert (0 <= Z.land c 15 < 16) as H2 by (change 15 with (Z.ones 4); rewrite Z.land_ones by lia; apply Z.mod_pos_bound; lia).
    destruct (hex_digit_spec _ H1) as (A1 & A2 & _). destruct (hex_digit_spec _ H2) as (B1 & B2 & _).
    unfold hex2. cbn [app split_token].
    change (ch (92 :: 120 :: hex_digit (Z.shiftr c 4) :: hex_digit (Z.land c 15) :: rest) 0) with 92.
    change (ch (92 :: 120 :: hex_digit (Z.shiftr c 4) :: hex_digit (Z.land c 15) :: rest) 1) with 120.
    change (ch (92 :: 120 :: hex_digit (Z.shiftr c 4) :: hex_digit (Z.land c 15) :: rest) 2) with (hex_digit (Z.shiftr c 4)).
    change (ch (92 :: 120 :: hex_digit (Z.shiftr c 4) :: hex_digit (Z.land c 15) :: rest) 3) with (hex_digit (Z.land c 15)).
    rewrite A1, A2, B1, B2. cbn [andb Z.eqb Pos.eqb drop]. rewrite drop_0. repeat f_equal.
    change 15 with (Z.ones 4). rewrite Z.land_ones, Z.shiftr_div_pow2 by lia. pose proof (Z.div_mod c (2 ^ 4) ltac:(lia)). lia.
Qed.

Lemma unquote s rest : Forall is_byte s -> (rest = [] \/ isspace (ch rest 0) = true) ->
  forall fuel cur, (length s < fuel)%nat -> split_token fuel Inq cur ((s ≫= repr_char) ++ 34 :: rest) = Some (Some (cur ++ s, rest)).
Proof.
  intros Hs Hrest. induction Hs as [|c s Hc Hs IH]; intros fuel cur Hf; (destruct fuel as [|fuel]; [cbn in Hf; lia|]).
  - cbn [split_token mbind list_bind app]. change (ch (34 :: rest) 1) with (ch rest 0). rewrite ch_cons, app_nil_r. cbn [Z.eqb Pos.eqb andb drop]. rewrite drop_0.
    destruct Hrest as [-> | ->]; [done|]. by rewrite andb_false_r.
  - rewrite bind_cons, <- app_assoc, unquote_char by done. rewrite IH by (cbn in Hf; lia). by rewrite <- app_assoc.
Qed.

(** A line of quoted arguments. *)
Fixpoint quoted_line (argv : list (list Z)) : list Z :=
  match argv with [] => [] | [a] => sdscatrepr [] a | a :: argv => sdscatrepr [] a ++ [32] ++ quoted_line argv end.

Lemma repr_length s : (length s <= length (s ≫= repr_char))%nat.
Proof.
  induction s as [|c s IH]; [done|]. rewrite bind_cons, length_app. cbn [length]. assert (1 <= length (repr_char c))%nat; [|lia].
  unfold repr_char. repeat case_match; cbn; lia.
Qed.

Lemma split_quoted a rest fuel vector : Forall is_byte a -> (rest = [] \/ isspace (ch rest 0) = true) -> (length (sdscatrepr [] a ++ rest) <= fuel)%nat ->
  split_loop (S fuel) vector (sdscatrepr [] a ++ rest) = split_loop fuel (vector ++ [a]) rest.
Proof.
  intros Ha Hrest Hf. unfold sdscatrepr. rewrite app_nil_l, <- !app_assoc. cbn [app]. cbn [split_loop]. 
  change (skip_blanks (34 :: (a ≫= repr_char) ++ 34 :: rest)) with (34 :: (a ≫= repr_char) ++ 34 :: rest). rewrite ch_cons. cbn [Z.eqb].
  set (l := (a ≫= repr_char) ++ 34 :: rest). change (split_token (S (length (34 :: l))) Unquoted [] (34 :: l)) with (split_token (S (length l)) Inq [] (drop 0 l)).
  rewrite drop_0. unfold l at 2. rewrite (unquote a rest); [done.. |]. unfold l. rewrite length_app. pose proof (repr_length a). cbn. lia.
Qed.

Lemma split_space fuel vector p : split_loop fuel vector (32 :: p) = split_loop fuel vector p.
Proof. by destruct fuel. Qed.

Lemma quoted_roundtrip argv : Forall (Forall is_byte) argv -> forall fuel vector, (length (quoted_line argv) < fuel)%nat ->
  split_loop fuel vector (quoted_line argv) = Some (Some (vector ++ argv)).
Proof.
  intros Hall. induction Hall as [|a argv Ha Hargv IH]; intros fuel vector Hf.
  - destruct fuel as [|fuel]; [lia|]. cbn. by rewrite app_nil_r.
  - destruct fuel as [|fuel]; [lia|]. destruct argv as [|b argv].
    + change (quoted_line [a]) with (sdscatrepr [] a) in *. rewrite <- (app_nil_r (sdscatrepr [] a)) in *. rewrite split_quoted; [|done | by left | lia].
      destruct fuel as [|fuel]; [|done]. unfold sdscatrepr in Hf. rewrite !length_app in Hf. cbn [length] in Hf. lia.
    + change (quoted_line (a :: b :: argv)) with (sdscatrepr [] a ++ 32 :: quoted_line (b :: argv)) in *. rewrite split_quoted; [|done | by right | lia].
      rewrite split_space, IH; [by rewrite <- app_assoc|]. rewrite length_app in Hf. cbn [length] in Hf. unfold sdscatrepr in Hf. rewrite !length_app in Hf. cbn [length] in Hf. lia.
Qed.

(** C21: quoting.  [sdssplitargs] always ends, and on arguments quoted by [sdscatrepr],
    of any bytes, separated by spaces, it returns these arguments. *)
Theorem sds_quoting_roundtrip (line : list Z) (argv : list (list Z)) :
  (exists r, sdssplitargs line = Some r) /\ (Forall (Forall is_byte) argv -> sdssplitargs (quoted_line argv) = Some (Some argv)).
Proof.
  split; [apply split_loop_total; lia|]. intros Hall. unfold sdssplitargs. by rewrite (quoted_roundtrip argv Hall) by lia.
Qed.

Lemma sds_quoting_roundtrip_witness : sdssplitargs (quoted_line [[0; 255; 34]; []; bytes_of "it's"]) = Some (Some [[0; 255; 34]; []; bytes_of "it's"]).
Proof. apply (sds_quoting_roundtrip []). unfold is_byte. repeat (constructor || lia). Defined.
