(* ===== verification/Protocol.v ===== *)
(** * The request protocol (networking.c)

    What a client sends arrives in pieces of any size.  [processInputBuffer] takes
    requests out of the query buffer as they become complete and runs them
    ([Multi.v]); a request that is incomplete leaves the position it was
    parsed to in [multibulklen], [bulklen] and the arguments read so far. *)
From Stdlib Require Import Lia ZArith String.
From stdpp Require Import base numbers list tactics option gmap fin_maps fin_sets sets.
From S2P Require Import Prelude Util Intset Dict DictRep DictIter Object Glob SetType Server Pubsub Crc Db DbOk DbRules DbCommands SetCmd SetCmdOk SetCommands Commands Multi Sds.

#[local] Open Scope Z_scope.

Definition REDIS_IOBUF_LEN : Z := 1024 * 16.
Definition REDIS_MAX_QUERYBUF_LEN : Z := 1024 * 1024 * 1024.
Definition REDIS_INLINE_MAX_SIZE : Z := 1024 * 64.
Definition REDIS_MBULK_BIG_ARG : Z := 1024 * 32.
Definition REDIS_REQ_INLINE : Z := 1.
Definition REDIS_REQ_MULTIBULK : Z := 2.
Definition REDIS_SLAVE : Z := 0.
Definition REDIS_BLOCKED : Z := 4.
Definition REDIS_ASKING : Z := 9.

(** The connection part of [redisClient]; [argc] is the length of [args]. *)
Record conn := mk_conn { querybuf : list Z; reqtype : Z; multibulklen : Z; bulklen : Z; args : list (list Z) }.

(** [REDIS_OK], or [REDIS_ERR] for want of data, or a protocol error with its reply. *)
Inductive parsed := ParseOk | ParseMore | ParseError (msg : string).

(** [setProtocolError] keeps the buffer from [pos] on; the flag is set by the caller's caller. *)
Definition with_buf (buf : list Z) (cn : conn) : conn := mk_conn buf (reqtype cn) (multibulklen cn) (bulklen cn) (args cn).
Definition protocol_error (cn : conn) (pos : Z) (msg : string) : conn * parsed := (with_buf (sdsrange (querybuf cn) pos (-1)) cn, ParseError msg).

(** ** Inline requests *)

Definition processInlineBuffer (cn : conn) : option (conn * parsed) :=
  let buf := querybuf cn in
  match strchr buf 10 with
  | None =>
      Some (if zlen buf >? REDIS_INLINE_MAX_SIZE then protocol_error cn 0 "Protocol error: too big inline request" else (cn, ParseMore))
  | Some newline =>
      let newline := if negb (newline =? 0) && (ch buf (Z.to_nat (newline - 1)) =? 13) then newline - 1 else newline in
      let querylen := newline in
      let aux := take (Z.to_nat querylen) buf in
      argv ← sdssplitargs aux;
      match argv with
      | None => Some (protocol_error cn 0 "Protocol error: unbalanced quotes in request")
      | Some argv =>
          Some (mk_conn (sdsrange buf (querylen + 2) (-1)) (reqtype cn) (multibulklen cn) (bulklen cn) (filter (fun a => a <> []) argv), ParseOk)
      end
  end.

(** ** Multi bulk requests *)

(** The loop over the arguments: the connection, the position and how it was left.  The
    text of the error for a missing [$] is the format, without the character. *)
Fixpoint multibulk_loop (fuel : nat) (cn : conn) (pos : Z) : option (conn * Z * option (conn * parsed)) :=
  match fuel with
  | O => None
  | S fuel =>
      if multibulklen cn =? 0 then Some (cn, pos, None) else
      let buf := querybuf cn in
      let bulk := fun (cn : conn) (pos : Z) =>
        let buf := querybuf cn in
        if zlen buf - pos <? bulklen cn + 2 then Some (cn, pos, None)
        else if (pos =? 0) && (bulklen cn >=? REDIS_MBULK_BIG_ARG) && (zlen buf =? bulklen cn + 2) then
          multibulk_loop fuel (mk_conn [] (reqtype cn) (multibulklen cn - 1) (-1) (args cn ++ [take (Z.to_nat (zlen buf - 2)) buf])) 0
        else
          multibulk_loop fuel (mk_conn buf (reqtype cn) (multibulklen cn - 1) (-1) (args cn ++ [take (Z.to_nat (bulklen cn)) (drop (Z.to_nat pos) buf)])) (pos + (bulklen cn + 2)) in
      if bulklen cn =? -1 then
        match strchr (drop (Z.to_nat pos) buf) 13 with
        | None =>
            if zlen buf >? REDIS_INLINE_MAX_SIZE then Some (cn, pos, Some (protocol_error cn 0 "Protocol error: too big bulk count string"))
            else Some (cn, pos, None)
        | Some n =>
            let newline := pos + n in
            if newline >? zlen buf - 2 then Some (cn, pos, None)
            else if negb (ch buf (Z.to_nat pos) =? 36) then Some (cn, pos, Some (protocol_error cn pos "Protocol error: expected '$', got '%c'"))
            else match Dec.string2ll (take (Z.to_nat (newline - (pos + 1))) (drop (Z.to_nat (pos + 1)) buf)) with
            | None => Some (cn, pos, Some (protocol_error cn pos "Protocol error: invalid bulk length"))
            | Some ll =>
                if (ll <? 0) || (ll >? 512 * 1024 * 1024) then Some (cn, pos, Some (protocol_error cn pos "Protocol error: invalid bulk length"))
                else
                  let pos := newline + 2 in
                  if ll >=? REDIS_MBULK_BIG_ARG then bulk (mk_conn (sdsrange buf pos (-1)) (reqtype cn) (multibulklen cn) ll (args cn)) 0
                  else bulk (mk_conn buf (reqtype cn) (multibulklen cn) ll (args cn)) pos
            end
        end
      else bulk cn pos
  end.

(** The arguments, the buffer trimmed to the position, and whether the request is complete. *)
Definition multibulk_args (cn : conn) (pos : Z) : option (conn * parsed) :=
  '(cn, pos, err) ← multibulk_loop (S (Z.to_nat (multibulklen cn))) cn pos;
  match err with
  | Some r => Some r
  | None =>
      let cn := if negb (pos =? 0) then with_buf (sdsrange (querybuf cn) pos (-1)) cn else cn in
      Some (cn, if multibulklen cn =? 0 then ParseOk else ParseMore)
  end.

Definition processMultibulkBuffer (cn : conn) : option (conn * parsed) :=
  let buf := querybuf cn in
  if multibulklen cn =? 0 then
    match args cn with
    | _ :: _ => None
    | [] =>
        match strchr buf 13 with
        | None =>
            Some (if zlen buf >? REDIS_INLINE_MAX_SIZE then protocol_error cn 0 "Protocol error: too big mbulk count string" else (cn, ParseMore))
        | Some newline =>
            if newline >? zlen buf - 2 then Some (cn, ParseMore)
            else if negb (ch buf 0 =? 42) then None
            else match Dec.string2ll (take (Z.to_nat (newline - 1)) (drop 1 buf)) with
            | None => Some (protocol_error cn 0 "Protocol error: invalid multibulk length")
            | Some ll =>
                if ll >? 1024 * 1024 then Some (protocol_error cn 0 "Protocol error: invalid multibulk length")
                else
                  let pos := newline + 2 in
                  if ll <=? 0 then Some (with_buf (sdsrange buf pos (-1)) cn, ParseOk)
                  else multibulk_args (mk_conn buf (reqtype cn) ll (bulklen cn) []) pos
            end
        end
    end
  else multibulk_args cn 0.

(** ** The query buffer *)

Section Protocol.
Context `{E : Env} (int_encoded : list Z -> bool) (fr : front).

(** [paused]: are the clients paused? *)
Context (paused : bool).

(** Requests of the client are not processed now. *)
Definition halted (cl : redisClient) : bool :=
  (negb (has_flag (flags cl) REDIS_SLAVE) && paused) || has_flag (flags cl) REDIS_BLOCKED || has_flag (flags cl) REDIS_CLOSE_AFTER_REPLY.

(** The part of [resetClient] outside the connection. *)
Definition resetClient (c : cid) : M unit :=
  mod_client c (with_argv []);;
  cl ← get_client c;
  if in_multi cl then mret tt else mod_client c (with_flags (fun f => clear_flag f REDIS_ASKING)).

Definition reset_conn (cn : conn) : conn := mk_conn (querybuf cn) 0 0 (-1) [].

(** QUIT is not followed by a reset. *)
Definition is_quit (l : list (list Z)) : bool := bool_decide (tolower <$> c_str (default [] (head l)) = bytes_of "quit").

(** A complete request: run it and reset the client. *)
Definition serve (c : cid) (l : list (list Z)) : M unit :=
  mod_client c (with_argv l);;
  processCommand int_encoded fr c;;
  if is_quit l then mret tt else resetClient c.

Fixpoint input_loop (fuel : nat) (c : cid) (cn : conn) : M conn :=
  match fuel with
  | O => fail
  | S fuel =>
      if zlen (querybuf cn) =? 0 then mret cn else
      cl ← get_client c;
      if halted cl then mret cn else
      let cn := if reqtype cn =? 0 then
          mk_conn (querybuf cn) (if ch (querybuf cn) 0 =? 42 then REDIS_REQ_MULTIBULK else REDIS_REQ_INLINE) (multibulklen cn) (bulklen cn) (args cn) else cn in
      r ← lift (if reqtype cn =? REDIS_REQ_INLINE then processInlineBuffer cn else processMultibulkBuffer cn);
      let '(cn, r) := (r : conn * parsed) in
      match r with
      | ParseError msg => addReply c (ErrText msg);; mod_client c (with_flags (fun f => set_flag f REDIS_CLOSE_AFTER_REPLY));; mret cn
      | ParseMore => mret cn
      | ParseOk =>
          match args cn with
          | [] => resetClient c;; input_loop fuel c (reset_conn cn)
          | l => serve c l;; input_loop fuel c (if is_quit l then cn else reset_conn cn)
          end
      end
  end.

(** Every round takes something out of the buffer. *)
Definition processInputBuffer (c : cid) (cn : conn) : M conn := input_loop (S (length (querybuf cn))) c cn.

(** How much [readQueryFromClient] asks for. *)
Definition readlen (cn : conn) : Z :=
  if (reqtype cn =? REDIS_REQ_MULTIBULK) && negb (multibulklen cn =? 0) && negb (bulklen cn =? -1) && (bulklen cn >=? REDIS_MBULK_BIG_ARG) then
    Z.min REDIS_IOBUF_LEN (bulklen cn + 2 - zlen (querybuf cn))
  else REDIS_IOBUF_LEN.

(** What arrives is appended to the buffer and processed; no connection is left if the client is closed. *)
Definition receive (c : cid) (cn : conn) (data : list Z) : M (option conn) :=
  let cn := with_buf (querybuf cn ++ data) cn in
  if zlen (querybuf cn) >? REDIS_MAX_QUERYBUF_LEN then mret None
  else cn ← processInputBuffer c cn; mret (Some cn).

(** The socket is read until nothing is on its way any more; [reads] are the lengths of
    what has come each time. *)
Fixpoint arrive (reads : list Z) (c : cid) (cn : conn) (wire : list Z) : M (option conn * list Z) :=
  match reads, wire with
  | n :: reads, _ :: _ =>
      let nread := Z.to_nat (Z.min n (readlen cn)) in
      r ← receive c cn (take nread wire);
      match r with Some cn => arrive reads c cn (drop nread wire) | None => mret (None, drop nread wire) end
  | _, _ => mret (Some cn, wire)
  end.

End Protocol.

(** ** Requests as they are sent *)

Definition crlf : list Z := [13; 10].
Definition bulk (a : list Z) : list Z := [36] ++ Dec.dec (zlen a) ++ crlf ++ a ++ crlf.
Definition request_bytes (l : list (list Z)) : list Z := [42] ++ Dec.dec (zlen l) ++ crlf ++ (l ≫= bulk).

(** The limits of the protocol. *)
Definition sendable (l : list (list Z)) : Prop := 0 < zlen l <= 1024 * 1024 /\ Forall (fun a => zlen a <= 512 * 1024 * 1024) l.

Definition idle : conn := mk_conn [] 0 0 (-1) [].
