(* ===== verification/ProtocolOk.v ===== *)
(** * Requests arrive whole

    However the bytes of a sequence of requests are cut into pieces, the requests
    that are run are those that were sent, in their order. *)
From Stdlib Require Import Lia ZArith String.
From stdpp Require Import base numbers list tactics option gmap fin_maps fin_sets sets.
From S2P Require Import Prelude Util Intset Dict DictRep DictIter Object Glob SetType Server Pubsub Crc Db DbOk DbRules DbCommands SetCmd SetCmdOk SetCommands Commands Multi Sds Protocol.

#[local] Open Scope Z_scope.

(** ** Bytes *)

Lemma dec_plain n : 0 <= n <= LLONG_MAX -> 13 ∉ Dec.dec n /\ 0 ∉ Dec.dec n /\ 1 <= zlen (Dec.dec n) /\ (n < 10 ^ 9 -> zlen (Dec.dec n) <= 9).
Proof.
  intros Hn. unfold LLONG_MAX in Hn. unfold Dec.dec. zfalse (n <? 0). destruct (Dec.udec_horner 19 n) as (_ & Hd & _); [change (10 ^ Z.of_nat 20) with 100000000000000000000; lia|].
  destruct (Dec.length_udec 19 n) as (_ & Hge & H1); [change (10 ^ Z.of_nat 20) with 100000000000000000000; lia|]. rewrite Forall_forall in Hd. split_and!; [intros H%Hd; done | intros H%Hd; done | done |].
  intros Hlt. destruct Hge as [->|Hge]; [lia|]. destruct (decide (zlen (Dec.udec 19 n) <= 9)); [done|]. exfalso.
  assert (10 ^ 9 <= 10 ^ (zlen (Dec.udec 19 n) - 1)) by (apply Z.pow_le_mono_r; lia). lia.
Qed.

(** What is in the buffer and what is still to come, against what was sent. *)
Lemma split_stream (B U X Y : list Z) : B ++ U = X ++ Y ->
  (zlen X <= zlen B /\ exists B', B = X ++ B' /\ B' ++ U = Y) \/ (zlen B < zlen X /\ exists X', X' <> [] /\ X = B ++ X').
Proof.
  intros H. apply app_eq_inv in H as [(k & -> & ->)|(k & -> & ->)].
  - left. split; [rewrite length_app; lia|]. eauto.
  - destruct k as [|x k].
    + left. rewrite app_nil_r. split; [lia|]. exists []. by rewrite app_nil_r.
    + right. split; [rewrite length_app; cbn; lia|]. by exists (x :: k).
Qed.

(** The line of a length: whole, or still to be waited for. *)
Lemma line_split (B U h Y : list Z) : 13 ∉ h -> 0 ∉ h -> B ++ U = (h ++ crlf) ++ Y ->
  (exists B', B = h ++ crlf ++ B' /\ B' ++ U = Y /\ strchr B 13 = Some (zlen h)) \/
  (zlen B <= zlen h + 1 /\ U <> [] /\ forall n, strchr B 13 = Some n -> n > zlen B - 2).
Proof.
  intros H13 H0 Hs. destruct (split_stream _ _ _ _ Hs) as [(_ & B' & HBB & HU)|(Hlt & X' & HX' & HX)].
  - left. exists B'. rewrite <- app_assoc in HBB. split_and!; [done..|]. rewrite HBB. by apply strchr_app.
  - right. rewrite length_app in Hlt. cbn [length crlf] in Hlt. split_and!; [lia | |].
    + intros ->. rewrite app_nil_r in Hs. rewrite Hs, !length_app in Hlt. cbn in Hlt. lia.
    + intros n Hn. pose proof (strchr_spec B 13 ltac:(done)) as Hch. rewrite Hn in Hch. destruct Hch as (x & y & HB2 & Hx1 & Hx2 & ->).
      assert (zlen h = zlen x) as Hhx.
      { apply (inj Some). rewrite <- (strchr_app h 13 [10]) by done. change (h ++ [13; 10]) with (h ++ crlf). rewrite HX, HB2, <- app_assoc. cbn [app]. by apply strchr_app. }
      apply (f_equal length) in HX. rewrite !length_app, HB2, length_app in HX. rewrite HB2, length_app. cbn [length crlf] in HX |- *.
      assert (length X' <> 0%nat) by (by destruct X'). lia.
Qed.

Lemma drop_at {A} (l : list A) n : 0 <= n <= zlen l -> zlen (drop (Z.to_nat n) l) = zlen l - n.
Proof. intros H. rewrite length_drop. lia. Qed.

Lemma drop_on {A} (l X B : list A) n : 0 <= n -> drop (Z.to_nat n) l = X ++ B -> drop (Z.to_nat (n + zlen X)) l = B.
Proof. intros Hn H. rewrite Z2Nat.inj_add by lia. rewrite <- drop_drop, H, Nat2Z.id, drop_app_length. done. Qed.

(** ** The arguments of a request *)

(** [S] follows the position: the rest of the request [l], and what comes after it. *)
Definition in_args (cn : conn) (S : list Z) (l : list (list Z)) (tail : list Z) : Prop :=
  (bulklen cn = -1 /\ exists rest, args cn ++ rest = l /\ multibulklen cn = zlen rest /\ S = (rest ≫= bulk) ++ tail) \/
  (exists a rest, bulklen cn = zlen a /\ args cn ++ a :: rest = l /\ multibulklen cn = 1 + zlen rest /\ S = a ++ crlf ++ (rest ≫= bulk) ++ tail).

(** Room for the next read: a buffer that is too long is a protocol error. *)
Definition roomy (cn : conn) (pos : Z) : Prop :=
  zlen (querybuf cn) <= REDIS_INLINE_MAX_SIZE \/ (bulklen cn >= REDIS_MBULK_BIG_ARG /\ pos = 0 /\ zlen (querybuf cn) <= bulklen cn + 2).

(** What is left over is the beginning of a length, or of an argument. *)
Definition short (cn : conn) (B : list Z) : Prop := if bulklen cn =? -1 then zlen B <= 12 else zlen B < bulklen cn + 2.

Record parsed_args (t : Z) (U : list Z) (l : list (list Z)) (tail : list Z) (cn' : conn) (pos' : Z) : Prop := {
  pa_pos : 0 <= pos' <= zlen (querybuf cn');
  pa_type : reqtype cn' = t;
  pa_args : in_args cn' (drop (Z.to_nat pos') (querybuf cn') ++ U) l tail;
  pa_short : multibulklen cn' <> 0 -> short cn' (drop (Z.to_nat pos') (querybuf cn')) /\ U <> [];
  pa_size : multibulklen cn' = 0 -> zlen (querybuf cn') <= REDIS_INLINE_MAX_SIZE;
}.

Lemma header_of (a : list Z) : zlen a <= 512 * 1024 * 1024 -> let h := [36] ++ Dec.dec (zlen a) in
  13 ∉ h /\ 0 ∉ h /\ zlen h <= 10 /\ Dec.string2ll (Dec.dec (zlen a)) = Some (zlen a).
Proof.
  intros Ha h. destruct (dec_plain (zlen a)) as (H1 & H2 & H3 & H4); [unfold LLONG_MAX; lia|]. split_and!.
  - unfold h. set_solver.
  - unfold h. set_solver.
  - unfold h. rewrite length_app. cbn [length]. lia.
  - apply dec_string2ll. unfold in_s64, LLONG_MIN, LLONG_MAX. split; [lia | done].
Qed.

(** One argument that has a known length: read it, or wait. *)
Lemma bulk_step fuel cn pos U (a : list Z) rest l tail :
  (forall cn1 pos1, 0 <= pos1 <= zlen (querybuf cn1) -> in_args cn1 (drop (Z.to_nat pos1) (querybuf cn1) ++ U) l tail -> bulklen cn1 = -1 ->
     multibulklen cn1 = zlen rest -> reqtype cn1 = reqtype cn -> zlen (querybuf cn1) <= zlen (querybuf cn) -> (zlen (querybuf cn) > REDIS_INLINE_MAX_SIZE -> querybuf cn1 = []) ->
     exists cn' pos', multibulk_loop fuel cn1 pos1 = Some (cn', pos', None) /\ parsed_args (reqtype cn) U l tail cn' pos') ->
  roomy cn pos -> 0 <= pos <= zlen (querybuf cn) -> bulklen cn = zlen a -> args cn ++ a :: rest = l -> multibulklen cn = 1 + zlen rest ->
  drop (Z.to_nat pos) (querybuf cn) ++ U = a ++ crlf ++ (rest ≫= bulk) ++ tail ->
  exists cn' pos', (if zlen (querybuf cn) - pos <? bulklen cn + 2 then Some (cn, pos, None)
    else if (pos =? 0) && (bulklen cn >=? REDIS_MBULK_BIG_ARG) && (zlen (querybuf cn) =? bulklen cn + 2) then
      multibulk_loop fuel (mk_conn [] (reqtype cn) (multibulklen cn - 1) (-1) (args cn ++ [take (Z.to_nat (zlen (querybuf cn) - 2)) (querybuf cn)])) 0
    else multibulk_loop fuel (mk_conn (querybuf cn) (reqtype cn) (multibulklen cn - 1) (-1) (args cn ++ [take (Z.to_nat (bulklen cn)) (drop (Z.to_nat pos) (querybuf cn))])) (pos + (bulklen cn + 2)))
    = Some (cn', pos', None) /\ parsed_args (reqtype cn) U l tail cn' pos'.
Proof.
  intros Hrec Hroom Hpos Hbl Hargs Hmb Hs. set (B := drop (Z.to_nat pos) (querybuf cn)) in *. assert (zlen B = zlen (querybuf cn) - pos) as HB by (by apply drop_at).
  destruct (zlen (querybuf cn) - pos <? bulklen cn + 2) eqn:E1; zbool.
  - exists cn, pos. split; [done|]. constructor; [done | done | | |lia].
    + right. exists a, rest. by split_and!.
    + intros _. unfold short. zfalse (bulklen cn =? -1). fold B. split; [lia|]. intros ->. rewrite app_nil_r in Hs. rewrite Hs, !length_app in HB. cbn in HB. lia.
  - rewrite (app_assoc a crlf) in Hs. destruct (split_stream _ _ _ _ Hs) as [(Hle & B' & HBB & HU)|(Hlt & _)]; [|rewrite length_app in Hlt; cbn in Hlt; lia].
    assert (zlen (a ++ crlf) = zlen a + 2) as Hlen by (rewrite length_app; cbn; lia).
    assert (args cn ++ [a] ++ rest = l) as Hargs' by done.
    destruct ((pos =? 0) && (bulklen cn >=? REDIS_MBULK_BIG_ARG) && (zlen (querybuf cn) =? bulklen cn + 2)) eqn:E2; zbool.
    + assert (B' = []) as -> by (destruct B'; [done|]; rewrite HBB, length_app in HB; cbn in HB; lia). assert (querybuf cn = a ++ crlf) as Hbuf by (subst pos; by rewrite app_nil_r in HBB).
      assert (take (Z.to_nat (zlen (querybuf cn) - 2)) (querybuf cn) = a) as -> by (rewrite Hbuf, Hlen; replace (Z.to_nat (zlen a + 2 - 2)) with (length a) by lia; apply take_app_length).
      apply Hrec; cbn [querybuf bulklen multibulklen reqtype args]; [cbn; lia | | done | lia | done | cbn; lia | done].
      left. split; [done|]. exists rest. cbn [querybuf bulklen multibulklen reqtype args]. rewrite <- app_assoc. split_and!; [done | cbn; lia |]. exact HU.
    + assert (take (Z.to_nat (bulklen cn)) B = a) as -> by (rewrite HBB, <- app_assoc, Hbl, Nat2Z.id; apply take_app_length).
      apply Hrec; cbn [querybuf bulklen multibulklen reqtype args]; [lia | | done | lia | done | lia | ].
      * left. split; [done|]. exists rest. cbn [querybuf bulklen multibulklen reqtype args]. rewrite <- app_assoc. split_and!; [done | cbn; lia |]. rewrite Hbl, <- Hlen, (drop_on _ (a ++ crlf) B') by (lia || done). done.
      * intros Hbig. exfalso. destruct Hroom as [?|(H1 & H2 & H3)]; [lia|]. assert (zlen (querybuf cn) = bulklen cn + 2) as Heq by lia.
        revert E2. rewrite H2, Heq, !Z.eqb_refl. ztrue (bulklen cn >=? REDIS_MBULK_BIG_ARG). done.
Qed.

Lemma multibulk_spec fuel : forall cn pos U l tail, Forall (fun a => zlen a <= 512 * 1024 * 1024) l -> 0 <= pos <= zlen (querybuf cn) -> in_args cn (drop (Z.to_nat pos) (querybuf cn) ++ U) l tail ->
  multibulklen cn < Z.of_nat fuel -> roomy cn pos -> exists cn' pos', multibulk_loop fuel cn pos = Some (cn', pos', None) /\ parsed_args (reqtype cn) U l tail cn' pos'.
Proof.
  induction fuel as [|fuel IH]; intros cn pos U l tail Hl Hpos Hin Hfuel Hroom.
  { destruct Hin as [(_ & rest & _ & Hm & _)|(a & rest & _ & _ & Hm & _)]; lia. }
  cbn [multibulk_loop]. destruct (multibulklen cn =? 0) eqn:E0; zbool.
  { exists cn, pos. split; [done|]. constructor; [done..|]. intros _. destruct Hroom as [?|(Hbig & _)]; [done|].
    destruct Hin as [(Hbl & _)|(a & rest & _ & _ & Hm & _)]; [by rewrite Hbl in Hbig | lia]. }
  destruct Hin as [(Hbl & rest & Hargs & Hm & Hs)|(a & rest & Hbl & Hargs & Hm & Hs)].
  2: { zfalse (bulklen cn =? -1). apply (bulk_step fuel cn pos U a rest l tail); [|done..].
    intros cn1 pos1 Hp1 Hin1 Hb1 Hm1 Ht1 Hz1 Hbig. destruct (IH cn1 pos1 U l tail) as (cn' & pos' & Hrun & Hpa); [done..|lia| |].
    - left. destruct (decide (zlen (querybuf cn) <= REDIS_INLINE_MAX_SIZE)); [lia|]. rewrite Hbig by lia. done.
    - exists cn', pos'. split; [done | by rewrite <- Ht1]. }
  ztrue (bulklen cn =? -1). destruct rest as [|a rest]; [done|]. cbn [length] in Hm. rewrite Nat2Z.inj_succ in Hm.
  assert (zlen (querybuf cn) <= REDIS_INLINE_MAX_SIZE) as Hsize by (destruct Hroom as [?|(? & _)]; [done | unfold REDIS_MBULK_BIG_ARG in *; lia]).
  assert (zlen a <= 512 * 1024 * 1024) as Ha by (subst l; by apply Forall_app in Hl as [_ [? _]%Forall_cons]).
  destruct (header_of a Ha) as (Hh13 & Hh0 & Hhlen & Hdec). set (h := [36] ++ Dec.dec (zlen a)) in *.
  rewrite bind_cons, <- app_assoc in Hs. unfold bulk at 1 in Hs. rewrite <- !app_assoc, (app_assoc [36]) in Hs. fold h in Hs.
  set (B := drop (Z.to_nat pos) (querybuf cn)) in *. assert (zlen B = zlen (querybuf cn) - pos) as HB by (by apply drop_at).
  assert (B ++ U = (h ++ crlf) ++ a ++ crlf ++ (rest ≫= bulk) ++ tail) as Hs' by (by rewrite <- app_assoc).
  destruct (line_split _ _ _ _ Hh13 Hh0 Hs') as [(B' & HBB & HU & ->)|(Hlt & HU & Hch)].
  - assert (zlen B = zlen h + 2 + zlen B') as HlB by (rewrite HBB, !length_app; cbn; lia). zfalse (pos + zlen h >? zlen (querybuf cn) - 2).
    assert (ch (querybuf cn) (Z.to_nat pos) = 36) as -> by (unfold ch; rewrite <- (Nat.add_0_r (Z.to_nat pos)), <- lookup_drop; fold B; by rewrite HBB).
    assert (drop (Z.to_nat (pos + 1)) (querybuf cn) = Dec.dec (zlen a) ++ crlf ++ B') as Hdrop1 by (apply (drop_on _ [36]); [lia | by fold B]).
    assert (zlen h = 1 + zlen (Dec.dec (zlen a))) as Hhl by (unfold h; rewrite length_app; cbn; lia).
    assert (take (Z.to_nat (pos + zlen h - (pos + 1))) (drop (Z.to_nat (pos + 1)) (querybuf cn)) = Dec.dec (zlen a)) as ->.
    { rewrite Hdrop1. replace (Z.to_nat (pos + zlen h - (pos + 1))) with (length (Dec.dec (zlen a))) by lia. apply take_app_length. }
    rewrite Hdec. zfalse (zlen a <? 0). zfalse (zlen a >? 512 * 1024 * 1024). cbn [negb orb Z.eqb Pos.eqb].
    assert (drop (Z.to_nat (pos + zlen h + 2)) (querybuf cn) = B') as Hdrop2.
    { replace (pos + zlen h + 2) with (pos + zlen (h ++ crlf)) by (rewrite length_app; cbn; lia). apply drop_on; [lia|]. fold B. by rewrite HBB, <- app_assoc. }
    assert (forall cn1 pos1, 0 <= pos1 <= zlen (querybuf cn1) -> in_args cn1 (drop (Z.to_nat pos1) (querybuf cn1) ++ U) l tail -> multibulklen cn1 = zlen rest ->
      zlen (querybuf cn1) <= zlen (querybuf cn) -> reqtype cn1 = reqtype cn -> exists cn' pos', multibulk_loop fuel cn1 pos1 = Some (cn', pos', None) /\ parsed_args (reqtype cn) U l tail cn' pos') as Hrec.
    { intros cn1 pos1 Hp1 Hin1 Hm1 Hz1 Ht1. destruct (IH cn1 pos1 U l tail) as (cn' & pos' & Hrun & Hpa); [done..| lia | left; lia |]. exists cn', pos'. split; [done | by rewrite <- Ht1]. }
    destruct (zlen a >=? REDIS_MBULK_BIG_ARG) eqn:Ebig.
    + rewrite sdsrange_from by lia. rewrite Hdrop2. set (cn2 := mk_conn B' _ _ _ _).
      destruct (bulk_step fuel cn2 0 U a rest l tail) as (cn' & pos' & Hrun & Hpa); [|by left; cbn; lia | cbn; lia | done | done | cbn; lia | done |].
      * intros cn1 pos1 Hp1 Hin1 Hb1 Hm1 Ht1 Hz1 _. cbn [querybuf cn2] in Hz1. eapply Hrec; [done..| lia | done].
      * by exists cn', pos'.
    + set (cn2 := mk_conn (querybuf cn) _ _ _ _).
      destruct (bulk_step fuel cn2 (pos + zlen h + 2) U a rest l tail) as (cn' & pos' & Hrun & Hpa); [|by left | cbn [querybuf cn2]; lia | done | done | cbn; lia | |].
      * intros cn1 pos1 Hp1 Hin1 Hb1 Hm1 Ht1 Hz1 _. by eapply Hrec.
      * cbn [querybuf cn2]. rewrite Hdrop2. exact HU.
      * by exists cn', pos'.
  - exists cn, pos. split.
    + destruct (strchr B 13) as [n|]; [|by zfalse (zlen (querybuf cn) >? REDIS_INLINE_MAX_SIZE)].
      specialize (Hch n eq_refl). by ztrue (pos + n >? zlen (querybuf cn) - 2).
    + constructor; [done | done | | |done].
      * left. split; [done|]. exists (a :: rest). split_and!; [done | cbn; lia |]. fold B. rewrite Hs, bind_cons. unfold bulk at 2. unfold h. by rewrite <- !app_assoc.
      * intros _. unfold short. ztrue (bulklen cn =? -1). fold B. split; [lia | done].
Qed.

(** ** A request *)

(** Nothing of the next request has been parsed. *)
Definition at_rest (cn : conn) : Prop := multibulklen cn = 0 /\ bulklen cn = -1 /\ args cn = [].

(** What is buffered and what is to come, [U], make up the requests [reqs]; of the
    first one some arguments may already be parsed. *)
Definition pending (cn : conn) (U : list Z) (reqs : list (list (list Z))) : Prop :=
  (at_rest cn /\ (reqtype cn = 0 \/ (reqtype cn = REDIS_REQ_MULTIBULK /\ querybuf cn <> [])) /\ querybuf cn ++ U = reqs ≫= request_bytes) \/
  (reqtype cn = REDIS_REQ_MULTIBULK /\ multibulklen cn <> 0 /\ exists l rest, reqs = l :: rest /\ in_args cn (querybuf cn ++ U) l (rest ≫= request_bytes)).

(** What waits in the buffer cannot be taken for a request that is too long. *)
Definition waiting (cn : conn) : Prop := if multibulklen cn =? 0 then zlen (querybuf cn) <= 12 else short cn (querybuf cn).

Definition request_parsed (U : list Z) l reqs (cn' : conn) (r : parsed) : Prop :=
  (r = ParseOk /\ args cn' = l /\ querybuf cn' ++ U = reqs ≫= request_bytes /\ zlen (querybuf cn') <= REDIS_INLINE_MAX_SIZE) \/
  (r = ParseMore /\ pending cn' U (l :: reqs) /\ U <> [] /\ waiting cn').

Lemma with_buf_0 cn pos : 0 <= pos <= zlen (querybuf cn) ->
  (if negb (pos =? 0) then with_buf (sdsrange (querybuf cn) pos (-1)) cn else cn) = with_buf (drop (Z.to_nat pos) (querybuf cn)) cn.
Proof. intros Hpos. destruct (Z.eqb_spec pos 0) as [->|]; cbn [negb]; [by destruct cn | by rewrite sdsrange_from by lia]. Qed.

Lemma args_spec cn pos U l reqs : Forall (fun a => zlen a <= 512 * 1024 * 1024) l -> reqtype cn = REDIS_REQ_MULTIBULK -> 0 <= pos <= zlen (querybuf cn) -> 0 <= multibulklen cn ->
  in_args cn (drop (Z.to_nat pos) (querybuf cn) ++ U) l (reqs ≫= request_bytes) -> roomy cn pos ->
  exists cn' r, multibulk_args cn pos = Some (cn', r) /\ request_parsed U l reqs cn' r.
Proof.
  intros Hl Ht Hpos Hm Hin Hroom. destruct (multibulk_spec (S (Z.to_nat (multibulklen cn))) cn pos U l (reqs ≫= request_bytes)) as (cn1 & pos1 & Hrun & [Hp Htype Hargs Hshort Hsize]); [done.. | lia | done |].
  unfold multibulk_args. rewrite Hrun. cbn [mbind option_bind]. rewrite with_buf_0 by done. set (cn2 := with_buf _ cn1). exists cn2. eexists. split; [done|].
  rewrite Ht in Htype. cbn [multibulklen cn2 with_buf]. destruct (multibulklen cn1 =? 0) eqn:E0; zbool.
  - left. destruct Hargs as [(_ & rest & H1 & H2 & H3)|(a & rest & _ & _ & H2 & _)]; [|lia]. rewrite E0 in H2. destruct rest; [|done]. rewrite app_nil_r in H1.
    specialize (Hsize E0). split_and!; [done | exact H1 | exact H3 |]. cbn [querybuf cn2 with_buf]. rewrite drop_at by lia. lia.
  - right. destruct (Hshort E0) as [H1 H2]. split_and!; [done | | done |].
    + right. split_and!; [done | done |]. by exists l, reqs.
    + unfold waiting. cbn [multibulklen cn2 with_buf]. rewrite (proj2 (Z.eqb_neq _ _) E0). exact H1.
Qed.

Lemma process_spec cn U l reqs : sendable l -> pending cn U (l :: reqs) -> reqtype cn = REDIS_REQ_MULTIBULK -> roomy cn 0 -> querybuf cn <> [] ->
  exists cn' r, processMultibulkBuffer cn = Some (cn', r) /\ request_parsed U l reqs cn' r.
Proof.
  intros [Hn Hl] [((Hm & Hb & Ha) & _ & Hs)|(_ & Hm & l' & rest & [= <- <-] & Hin)] Ht Hroom Hne; unfold processMultibulkBuffer.
  2: { rewrite (proj2 (Z.eqb_neq _ _) Hm). apply args_spec; [done | done | lia | | done | done].
    destruct Hin as [(_ & rest' & _ & -> & _)|(a & rest' & _ & _ & -> & _)]; lia. }
  rewrite Hm, Ha. cbn [Z.eqb]. destruct (dec_plain (zlen l)) as (H1 & H2 & H3 & H4); [unfold LLONG_MAX; lia|]. specialize (H4 ltac:(lia)).
  set (h := [42] ++ Dec.dec (zlen l)). assert (13 ∉ h /\ 0 ∉ h) as [Hh13 Hh0] by (unfold h; split; set_solver). assert (zlen h = 1 + zlen (Dec.dec (zlen l))) as Hhl by (unfold h; rewrite length_app; cbn; lia).
  pose proof Hs as Hs0. rewrite bind_cons in Hs. unfold request_bytes at 1 in Hs. rewrite <- !app_assoc, (app_assoc [42]) in Hs. fold h in Hs.
  assert (zlen (querybuf cn) <= REDIS_INLINE_MAX_SIZE) as Hsize by (destruct Hroom as [?|(Hbig & _)]; [done | by rewrite Hb in Hbig]).
  rewrite (app_assoc h crlf) in Hs. destruct (line_split _ _ _ _ Hh13 Hh0 Hs) as [(B' & HBB & HU & ->)|(Hlt & HU & Hch)].
  - assert (zlen (querybuf cn) = zlen h + 2 + zlen B') as HlB by (rewrite HBB, !length_app; cbn; lia). zfalse (zlen h >? zlen (querybuf cn) - 2).
    assert (ch (querybuf cn) 0 = 42) as -> by (by rewrite HBB). assert (take (Z.to_nat (zlen h - 1)) (drop 1 (querybuf cn)) = Dec.dec (zlen l)) as ->.
    { rewrite HBB. replace (Z.to_nat (zlen h - 1)) with (length (Dec.dec (zlen l))) by lia. apply take_app_length. }
    cbn [negb Z.eqb Pos.eqb]. assert (Dec.string2ll (Dec.dec (zlen l)) = Some (zlen l)) as -> by (apply dec_string2ll; split; [unfold in_s64, LLONG_MIN, LLONG_MAX; lia | done]).
    zfalse (zlen l >? 1024 * 1024). zfalse (zlen l <=? 0). apply args_spec; cbn [querybuf reqtype multibulklen]; [done | done | lia | lia | | by left].
    left. split; [done|]. exists l. cbn [args multibulklen]. split_and!; [done..|]. replace (zlen h + 2) with (zlen (h ++ crlf)) by (rewrite length_app; cbn; lia).
    rewrite HBB, (app_assoc h crlf), Nat2Z.id, drop_app_length. exact HU.
  - exists cn, ParseMore. split.
    + destruct (strchr (querybuf cn) 13) as [n|]; [|by zfalse (zlen (querybuf cn) >? REDIS_INLINE_MAX_SIZE)].
      specialize (Hch n eq_refl). by ztrue (n >? zlen (querybuf cn) - 2).
    + right. split_and!; [done | left; split; [done|]; split; [by right | done] | done |]. unfold waiting. ztrue (multibulklen cn =? 0). lia.
Qed.

Lemma request_bytes_head l : exists b, request_bytes l = 42 :: b.
Proof. by eexists. Qed.

(** A request that is complete takes something out of the buffer. *)
Lemma pending_shrinks cn U l reqs B : pending cn U (l :: reqs) -> B ++ U = reqs ≫= request_bytes -> zlen B < zlen (querybuf cn).
Proof.
  intros Hp HB. assert (exists X, X <> [] /\ querybuf cn ++ U = X ++ B ++ U) as (X & HX & Heq).
  { rewrite HB. destruct Hp as [(_ & _ & Hq)|(_ & Hm & l' & rest & [= <- <-] & [(_ & r & _ & Hr & Hs)|(a & r & _ & _ & _ & Hs)])].
    - by exists (request_bytes l).
    - exists (r ≫= bulk). split; [|done]. by destruct r.
    - exists (a ++ crlf ++ (r ≫= bulk)). rewrite <- !app_assoc. split; [by destruct a | done]. }
  apply (f_equal length) in Heq. rewrite !length_app in Heq. assert (length X <> 0%nat) by (by destruct X). lia.
Qed.

Lemma bind_run {A B} (m : M A) (f : A -> M B) s s' a : m s = Some (s', a) -> (m ≫= f) s = f a s'.
Proof. intros H. unfold mbind, M_bind. by rewrite H. Qed.

Lemma get_client_run c s cl : clients s !! c = Some cl -> get_client c s = Some (s, cl).
Proof. intros H. unfold get_client. rewrite (bind_run get _ s s s) by done. by rewrite H. Qed.

Section Arrival.
Context `{E : Env} (int_encoded : list Z -> bool) (fr : front) (paused : bool) (c : cid).

(** The requests of the client, one after the other: each is run when it is complete. *)
Inductive serves : list (list (list Z)) -> server -> server -> Prop :=
  | serves_nil s : serves [] s s
  | serves_cons l reqs s s1 s2 cl : clients s !! c = Some cl -> halted paused cl = false -> is_quit l = false ->
      serve int_encoded fr c l s = Some (s1, tt) -> serves reqs s1 s2 -> serves (l :: reqs) s s2.

#[local] Abbreviation input_loop := (input_loop int_encoded fr paused).

(** What is in the buffer is processed: some requests are run, and the next one waits. *)
Lemma input_spec fuel : forall cn U reqs s s', (length (querybuf cn) < fuel)%nat -> Forall sendable reqs -> pending cn U reqs -> roomy cn 0 -> serves reqs s s' ->
  exists done todo s1 cn', reqs = done ++ todo /\ serves todo s1 s' /\ input_loop fuel c cn s = Some (s1, cn') /\ pending cn' U todo /\
    (querybuf cn' = [] \/ U <> []) /\ (querybuf cn = [] -> cn' = cn) /\ (querybuf cn <> [] -> waiting cn').
Proof.
  induction fuel as [|fuel IH]; intros cn U reqs s s' Hfuel Hsz Hp Hroom Hs; [lia|]. cbn [Protocol.input_loop].
  destruct (zlen (querybuf cn) =? 0) eqn:E0; zbool.
  { exists [], reqs, s, cn. assert (querybuf cn = []) as Hnil by (by destruct (querybuf cn)). split_and!; [done.. | by left | done | done]. }
  assert (exists l rest, reqs = l :: rest) as (l & rest & ->).
  { destruct reqs as [|l rest]; [|eauto]. destruct Hp as [(_ & _ & Hq)|(_ & _ & l & rest & ? & _)]; [|done]. apply app_nil in Hq as [Hq _]. by rewrite Hq in E0. }
  apply Forall_cons in Hsz as [Hl Hrest]. inversion Hs as [|? ? ? s1 ? cl Hc Hhalt Hquit Hserve Hs']; subst.
  rewrite (bind_run _ _ _ _ _ (get_client_run c s cl Hc)), Hhalt.
  set (cn1 := if reqtype cn =? 0 then _ else _).
  assert (querybuf cn1 = querybuf cn /\ multibulklen cn1 = multibulklen cn /\ bulklen cn1 = bulklen cn /\ args cn1 = args cn) as (Q1 & Q2 & Q3 & Q4) by (unfold cn1; by destruct (reqtype cn =? 0)).
  assert (reqtype cn1 = REDIS_REQ_MULTIBULK) as Ht.
  { unfold cn1. destruct Hp as [(_ & [H0|[H2 _]] & Hq)|(H2 & _)]; [|by rewrite H2..]. rewrite H0. cbn [Z.eqb].
    destruct (querybuf cn) as [|x B] eqn:EB; [done|]. cbn [mbind list_bind] in Hq. destruct (request_bytes_head l) as (b & Hb). rewrite Hb in Hq. injection Hq as -> _. done. }
  assert (pending cn1 U (l :: rest)) as Hp1.
  { destruct Hp as [((P1 & P2 & P3) & _ & Hq)|(_ & P1 & l' & rest' & [= <- <-] & Hin)].
    - left. unfold at_rest. rewrite Q1, Q2, Q3, Q4. split_and!; [done.. | right; split; [done | by intros Hnil; rewrite Hnil in E0] | done].
    - right. rewrite Q1, Q2. split_and!; [done..|]. exists l, rest. split; [done|]. unfold in_args. rewrite Q2, Q3, Q4. exact Hin. }
  destruct (process_spec cn1 U l rest Hl Hp1 Ht) as (cn2 & r & Hrun & Hr); [unfold roomy; by rewrite Q1, Q3 | by rewrite Q1; intros Hnil; rewrite Hnil in E0 |].
  rewrite Ht. change (REDIS_REQ_MULTIBULK =? REDIS_REQ_INLINE) with false. cbv iota. rewrite Hrun. rewrite (bind_run _ _ s s (cn2, r)) by done.
  destruct Hr as [(-> & Ha & Hq & Hz)|(-> & Hp2 & HU & Hw)].
  - destruct (args cn2) as [|a0 l0]; [destruct Hl as [Hl _]; rewrite <- Ha in Hl; cbn in Hl; lia|]. rewrite Ha, (bind_run _ _ _ _ _ Hserve), Hquit.
    destruct (IH (reset_conn cn2) U rest s1 s') as (dn & todo & s2 & cn' & -> & H1 & H2 & H3 & H4 & H5 & H6); [| done | | by left | done |].
    + cbn [querybuf reset_conn]. pose proof (pending_shrinks _ _ _ _ _ Hp1 Hq) as Hlt. rewrite Q1 in Hlt. lia.
    + left. split_and!; [done.. | by left | done].
    + exists (l :: dn), todo, s2, cn'. split_and!; [done.. | |].
      * intros Hnil. by rewrite Hnil in E0.
      * intros _. destruct (querybuf cn2) as [|x B] eqn:EB; [|by apply H6; cbn; rewrite EB]. rewrite H5 by exact EB. unfold waiting. cbn. rewrite EB. cbn. lia.
  - exists [], (l :: rest), s, cn2. split_and!; [done.. | by right | |done]. intros Hnil. by rewrite Hnil in E0.
Qed.

Lemma waiting_readlen cn : waiting cn -> 0 < readlen cn.
Proof.
  intros Hw. unfold readlen, REDIS_IOBUF_LEN. destruct (_ && _) eqn:E1; [|lia]. apply andb_prop in E1 as [E1 E4]. apply andb_prop in E1 as [E1 E3]. apply andb_prop in E1 as [_ E2].
  unfold waiting, short in Hw. zbool. rewrite (proj2 (Z.eqb_neq _ _) E2), (proj2 (Z.eqb_neq _ _) E3) in Hw. lia.
Qed.

(** A read leaves the buffer small enough, whatever comes. *)
Lemma read_roomy cn U reqs data : Forall sendable reqs -> pending cn U reqs -> waiting cn -> zlen data <= readlen cn ->
  let cn' := with_buf (querybuf cn ++ data) cn in roomy cn' 0 /\ zlen (querybuf cn') <= REDIS_MAX_QUERYBUF_LEN.
Proof.
  intros Hsz Hp Hw Hd. cbn zeta. unfold roomy. cbn [querybuf bulklen with_buf]. rewrite length_app.
  unfold waiting, short, readlen, REDIS_IOBUF_LEN, REDIS_INLINE_MAX_SIZE, REDIS_MAX_QUERYBUF_LEN, REDIS_MBULK_BIG_ARG in *.
  destruct Hp as [((Hm & Hb & _) & _)|(Ht & Hm & l & rest & -> & Hin)].
  - rewrite Hm, Hb in *. cbn [Z.eqb negb andb] in *. rewrite andb_false_r in Hd. cbn [andb] in Hd. split; [left|]; lia.
  - rewrite (proj2 (Z.eqb_neq _ _) Hm), Ht in *. cbn [Z.eqb Pos.eqb negb andb REDIS_REQ_MULTIBULK] in *. destruct (Z.eqb_spec (bulklen cn) (-1)) as [Hb|Hb]; cbn [negb andb] in Hd; [split; [left|]; lia|].
    destruct Hin as [(? & _)|(a & r & Hba & Hl & _)]; [done|]. apply Forall_cons in Hsz as [[_ Hsz] _].
    assert (zlen a <= 512 * 1024 * 1024) as Ha by (subst l; by apply Forall_app in Hsz as [_ [? _]%Forall_cons]).
    destruct (bulklen cn >=? 1024 * 32) eqn:Eb; zbool; (split; [|lia]); [right|left]; lia.
Qed.

Lemma pending_read cn U data reqs : pending cn (data ++ U) reqs -> pending (with_buf (querybuf cn ++ data) cn) U reqs.
Proof.
  unfold pending, at_rest, in_args. cbn [querybuf multibulklen bulklen args reqtype with_buf]. rewrite <- !app_assoc.
  intros [(H1 & [H2|[H2 H3]] & H4)|H]; [left; split; [exact H1|]; split; [by left | exact H4]| |by right]. left. split; [exact H1|]. split; [|exact H4]. right. split; [done|]. by destruct (querybuf cn).
Qed.

Lemma pending_done cn reqs : pending cn [] reqs -> querybuf cn = [] -> cn = idle /\ reqs = [].
Proof.
  intros [((H1 & H2 & H3) & H4 & H5)|(_ & Hm & l & rest & -> & Hin)] Hb; rewrite Hb in *.
  - destruct H4 as [H4|[_ ?]]; [|done]. split; [destruct cn; cbn in *; by subst | by destruct reqs].
  - exfalso. destruct Hin as [(_ & r & _ & Hr & Hs)|(a & r & _ & _ & _ & Hs)]; [by destruct r | by destruct a].
Qed.

Lemma arrive_spec reads : forall cn wire reqs s s', Forall (fun n => 0 < n) reads -> zlen wire <= zlen reads -> Forall sendable reqs ->
  pending cn wire reqs -> waiting cn -> (querybuf cn = [] \/ wire <> []) -> serves reqs s s' ->
  arrive int_encoded fr paused reads c cn wire s = Some (s', (Some idle, [])).
Proof.
  induction reads as [|n reads IH]; intros cn wire reqs s s' Hn Hlen Hsz Hp Hw Hor Hs;
    (destruct wire as [|x wire]; [destruct Hor as [Hb|?]; [|done]; apply pending_done in Hp as [-> ->]; [|done]; by inversion Hs|]).
  { cbn in Hlen. lia. }
  apply Forall_cons in Hn as [Hn Hns]. cbn [arrive]. set (w := x :: wire) in *. pose proof (waiting_readlen cn Hw) as Hr.
  set (k := Z.to_nat (Z.min n (readlen cn))). assert ((0 < k)%nat) as Hk by lia.
  rewrite <- (take_drop k w) in Hp. assert (zlen (take k w) <= readlen cn) as Hd by (rewrite length_take; lia).
  destruct (read_roomy cn _ reqs (take k w) Hsz Hp Hw Hd) as [Hroom Hmax]. apply pending_read in Hp.
  unfold receive. zfalse (zlen (querybuf (with_buf (querybuf cn ++ take k w) cn)) >? REDIS_MAX_QUERYBUF_LEN).
  unfold processInputBuffer. set (cn1 := with_buf _ cn) in *. assert (querybuf cn1 <> []) as Hne by (unfold cn1; cbn; destruct (querybuf cn); [destruct k; [lia | done] | done]).
  destruct (input_spec (S (length (querybuf cn1))) cn1 (drop k w) reqs s s') as (dn & todo & s1 & cn' & -> & H1 & H2 & H3 & H4 & H5 & H6); [lia | done..|].
 
  rewrite (bind_run _ _ s s1 (Some cn')); [|by rewrite (bind_run _ _ _ _ _ H2)]. apply (IH cn' (drop k w) todo); [done | | | done | by apply H6 | done | done].
  - rewrite length_drop. cbn [length] in Hlen. lia.
  - by apply Forall_app in Hsz as [_ ?].
Qed.

(** C5: however the bytes of requests within the limits of the protocol are cut into
    pieces on their way, the server runs these requests, all of them and in their
    order, each with exactly the arguments that were sent, and nothing else; the
    buffer is never taken for a request that is too long, no protocol error is
    replied, the reading ends, and the connection is ready for the next request. *)
Theorem requests_arrive_whole reads reqs s s' : Forall (fun n => 0 < n) reads -> zlen (reqs ≫= request_bytes) <= zlen reads ->
  Forall sendable reqs -> serves reqs s s' ->
  arrive int_encoded fr paused reads c idle (reqs ≫= request_bytes) s = Some (s', (Some idle, [])).
Proof.
  intros Hn Hlen Hsz Hs. apply (arrive_spec reads idle (reqs ≫= request_bytes) reqs s s'); [done..| | | by left | done].
  - left. split_and!; [done.. | by left | done].
  - unfold waiting. cbn. lia.
Qed.
End Arrival.
