(* ===== verification/Wire.v ===== *)
(** * Any bytes

    Whatever a client sends, each round of parsing ends with a request, with a wait
    or with a protocol error, and a request takes something out of the buffer. *)
From Stdlib Require Import Lia ZArith String.
From stdpp Require Import base numbers list tactics option gmap fin_maps fin_sets sets.
From S2P Require Import Prelude Util Intset Dict DictRep DictIter Object Glob SetType Server Pubsub Crc Db DbOk DbRules DbCommands SetCmd SetCmdOk SetCommands Commands Multi Sds Protocol ProtocolOk.

#[local] Open Scope Z_scope.

(** A length that has been read is within the limit. *)
Definition bulk_ok (b : Z) : Prop := -1 <= b <= 512 * 1024 * 1024.

(** Between two reads, or at the start of a request. *)
Record conn_ok (cn : conn) : Prop := {
  ok_count : 0 <= multibulklen cn /\ zlen (args cn) + multibulklen cn <= 1024 * 1024;
  ok_bulk : bulk_ok (bulklen cn);
  ok_start : multibulklen cn = 0 -> args cn = [] /\ bulklen cn = -1 /\ (reqtype cn = REDIS_REQ_MULTIBULK -> querybuf cn <> [] /\ ch (querybuf cn) 0 = 42);
  ok_type : multibulklen cn <> 0 -> reqtype cn = REDIS_REQ_MULTIBULK;
  ok_kind : reqtype cn = 0 \/ reqtype cn = REDIS_REQ_INLINE \/ reqtype cn = REDIS_REQ_MULTIBULK;
}.

(** What is left to read after [pos]. *)
Definition left_over (cn : conn) (pos : Z) : Z := zlen (querybuf cn) - pos.

Record loop_ok (cn : conn) (pos : Z) (cn' : conn) (pos' : Z) : Prop := {
  lo_pos : 0 <= pos' <= zlen (querybuf cn');
  lo_type : reqtype cn' = reqtype cn;
  lo_count : 0 <= multibulklen cn' <= multibulklen cn /\ zlen (args cn') + multibulklen cn' = zlen (args cn) + multibulklen cn;
  lo_bulk : bulk_ok (bulklen cn');
  lo_end : multibulklen cn' = 0 -> bulklen cn' = -1;
  lo_less : left_over cn' pos' <= left_over cn pos /\ (multibulklen cn' < multibulklen cn -> left_over cn' pos' < left_over cn pos);
}.

Definition loop_result (cn : conn) (pos : Z) (r : option (conn * Z * option (conn * parsed))) : Prop :=
  match r with
  | Some (cn', pos', None) => loop_ok cn pos cn' pos'
  | Some (_, _, Some (cn', r)) => exists msg, r = ParseError msg /\ zlen (querybuf cn') <= zlen (querybuf cn)
  | None => False
  end.

Lemma protocol_error_result cn cn0 pos0 pos p msg : 0 <= p -> loop_result cn pos (Some (cn0, pos0, Some (protocol_error cn p msg))).
Proof. intros Hp. exists msg. split; [done|]. cbn [querybuf with_buf protocol_error]. rewrite sdsrange_from, length_drop by done. lia. Qed.

Lemma loop_result_mono cn pos cn1 pos1 r : reqtype cn1 = reqtype cn -> args cn1 = args cn -> multibulklen cn1 = multibulklen cn ->
  zlen (querybuf cn1) <= zlen (querybuf cn) -> left_over cn1 pos1 <= left_over cn pos -> loop_result cn1 pos1 r -> loop_result cn pos r.
Proof.
  intros Ht Ha Hm Hl Hlo. destruct r as [[[cn' pos'] [[cn2 r]|]]|]; cbn; [|intros [H1 H2 H3 H4 H5 H6] | done].
  - intros (msg & -> & H). exists msg. split; [done | lia].
  - constructor; [done | congruence | by rewrite <- Ha, <- Hm | done | done | rewrite <- Hm; lia].
Qed.

(** An argument of a known length. *)
Lemma bulk_result fuel cn pos : (forall cn1 pos1, 0 <= pos1 <= zlen (querybuf cn1) -> bulklen cn1 = -1 -> multibulklen cn1 = multibulklen cn - 1 -> loop_result cn1 pos1 (multibulk_loop fuel cn1 pos1)) ->
  0 <= pos <= zlen (querybuf cn) -> 0 <= bulklen cn <= 512 * 1024 * 1024 -> 0 < multibulklen cn ->
  loop_result cn pos (if zlen (querybuf cn) - pos <? bulklen cn + 2 then Some (cn, pos, None)
    else if (pos =? 0) && (bulklen cn >=? REDIS_MBULK_BIG_ARG) && (zlen (querybuf cn) =? bulklen cn + 2) then
      multibulk_loop fuel (mk_conn [] (reqtype cn) (multibulklen cn - 1) (-1) (args cn ++ [take (Z.to_nat (zlen (querybuf cn) - 2)) (querybuf cn)])) 0
    else multibulk_loop fuel (mk_conn (querybuf cn) (reqtype cn) (multibulklen cn - 1) (-1) (args cn ++ [take (Z.to_nat (bulklen cn)) (drop (Z.to_nat pos) (querybuf cn))])) (pos + (bulklen cn + 2))).
Proof.
  intros IH Hpos Hb Hm. destruct (zlen (querybuf cn) - pos <? bulklen cn + 2) eqn:E1; zbool.
  { constructor; unfold bulk_ok; try done; lia. }
  assert (forall buf arg pos1, 0 <= pos1 <= zlen buf -> zlen buf - pos1 < left_over cn pos -> zlen buf <= zlen (querybuf cn) ->
    loop_result cn pos (multibulk_loop fuel (mk_conn buf (reqtype cn) (multibulklen cn - 1) (-1) (args cn ++ [arg])) pos1)) as Hnext.
  { intros buf arg pos1 Hp1 Hlo Hz. set (cn1 := mk_conn buf _ _ _ _). specialize (IH cn1 pos1 Hp1 eq_refl eq_refl).
    destruct (multibulk_loop fuel cn1 pos1) as [[[cn' pos'] [[cn2 r]|]]|]; cbn in IH |- *; [|destruct IH as [H1 H2 H3 H4 H5 H6] | done].
    - destruct IH as (msg & -> & H). exists msg. split; [done | lia].
    - unfold left_over in *. cbn [querybuf args multibulklen cn1] in *. rewrite length_app in H3. cbn [length] in H3. constructor; unfold left_over; try done; lia. }
  destruct (_ && _ && _); apply Hnext; unfold left_over; cbn [length]; lia.
Qed.

Lemma loop_total fuel : forall cn pos, 0 <= pos <= zlen (querybuf cn) -> bulk_ok (bulklen cn) -> 0 <= multibulklen cn -> (multibulklen cn = 0 -> bulklen cn = -1) ->
  multibulklen cn < Z.of_nat fuel -> loop_result cn pos (multibulk_loop fuel cn pos).
Proof.
  induction fuel as [|fuel IH]; intros cn pos Hpos Hb Hm H0 Hf; [lia|]. cbn [multibulk_loop].
  assert (loop_result cn pos (Some (cn, pos, None))) as Hwait by (constructor; try done; lia).
  destruct (multibulklen cn =? 0) eqn:E0; zbool; [done|]. unfold bulk_ok in Hb.
  assert (forall cn2 (pos2 : Z), multibulklen cn2 = multibulklen cn -> forall cn1 pos1, 0 <= pos1 <= zlen (querybuf cn1) -> bulklen cn1 = -1 ->
    multibulklen cn1 = multibulklen cn2 - 1 -> loop_result cn1 pos1 (multibulk_loop fuel cn1 pos1)) as Hrec.
  { intros cn2 pos2 Hm2 cn1 pos1 Hp1 Hb1 Hm1. apply IH; unfold bulk_ok; lia. }
  destruct (Z.eqb_spec (bulklen cn) (-1)) as [Eb|Eb]; [|apply bulk_result; [by apply (Hrec cn pos) | done | lia | lia]].
  destruct (strchr (drop (Z.to_nat pos) (querybuf cn)) 13) as [n|] eqn:En; [|destruct (_ >? _); [apply protocol_error_result; lia | done]].
  assert (0 <= n) as Hn. { pose proof (strchr_spec (drop (Z.to_nat pos) (querybuf cn)) 13 ltac:(done)) as H. rewrite En in H. destruct H as (x & y & _ & _ & _ & ->). lia. }
  destruct (pos + n >? zlen (querybuf cn) - 2) eqn:E1; zbool; [done|].
  destruct (negb _); [apply protocol_error_result; lia|]. destruct (Dec.string2ll _) as [ll|]; [|apply protocol_error_result; lia].
  destruct ((ll <? 0) || (ll >? 512 * 1024 * 1024)) eqn:E2; [apply protocol_error_result; lia|]. apply orb_false_elim in E2 as [E2 E3]. zbool.
  destruct (ll >=? REDIS_MBULK_BIG_ARG).
  - set (cn2 := mk_conn (sdsrange _ _ _) _ _ _ _). assert (zlen (querybuf cn2) = zlen (querybuf cn) - (pos + n + 2)) as Hz by (cbn [querybuf cn2]; rewrite sdsrange_from, drop_at by lia; done).
    apply (loop_result_mono cn pos cn2 0); [done.. | lia | unfold left_over; lia |]. apply (bulk_result fuel cn2 0); [by apply (Hrec cn2 0) | lia | cbn; lia | cbn; lia].
  - set (cn2 := mk_conn (querybuf cn) _ _ _ _). apply (loop_result_mono cn pos cn2 (pos + n + 2)); [done.. | cbn; lia | unfold left_over; cbn; lia |].
    apply (bulk_result fuel cn2 (pos + n + 2)); [by apply (Hrec cn2 (pos + n + 2)) | cbn; lia | cbn; lia | cbn; lia].
Qed.

(** A request takes at least one byte. *)
Definition parse_result (n : Z) (o : option (conn * parsed)) : Prop :=
  match o with
  | Some (cn', ParseOk) => zlen (querybuf cn') < n
  | Some (cn', ParseMore) => conn_ok cn'
  | Some (cn', ParseError _) => zlen (querybuf cn') <= n
  | None => False
  end.

Lemma error_result cn msg : parse_result (zlen (querybuf cn)) (Some (protocol_error cn 0 msg)).
Proof. cbn [parse_result protocol_error querybuf with_buf]. rewrite sdsrange_from, length_drop by lia. lia. Qed.

Lemma args_total cn pos n : 0 <= pos <= zlen (querybuf cn) -> bulk_ok (bulklen cn) -> 0 < multibulklen cn -> zlen (args cn) + multibulklen cn <= 1024 * 1024 -> reqtype cn = REDIS_REQ_MULTIBULK ->
  zlen (querybuf cn) <= n -> parse_result n (multibulk_args cn pos).
Proof.
  intros Hpos Hb Hm Ha Ht Hn. pose proof (loop_total (S (Z.to_nat (multibulklen cn))) cn pos Hpos Hb ltac:(lia) ltac:(lia) ltac:(lia)) as H. unfold multibulk_args.
  destruct (multibulk_loop _ cn pos) as [[[cn' pos'] [[cn2 r]|]]|]; cbn in H |- *; [| |done].
  - destruct H as (msg & -> & H). lia.
  - destruct H as [H1 H2 H3 H4 H5 H6]. rewrite with_buf_0 by done. cbn [multibulklen with_buf querybuf].
    destruct (Z.eqb_spec (multibulklen cn') 0) as [E0|E0]; cbn [querybuf with_buf].
    + rewrite drop_at by done. destruct H6 as [_ H6]. unfold left_over in *. lia.
    + constructor; cbn [multibulklen with_buf querybuf args bulklen reqtype]; [lia | done | done | congruence | right; right; congruence].
Qed.

Lemma inline_total cn : conn_ok cn -> querybuf cn <> [] -> parse_result (zlen (querybuf cn)) (processInlineBuffer cn).
Proof.
  intros Hok Hne. unfold processInlineBuffer. pose proof (strchr_spec (querybuf cn) 10 ltac:(done)) as Hch. destruct (strchr (querybuf cn) 10) as [n|].
  - destruct Hch as (x & y & Hq & _ & _ & ->). set (newline := if negb (zlen x =? 0) && _ then _ else _).
    assert (0 <= newline) as Hn by (unfold newline; destruct (negb (zlen x =? 0) && _) eqn:E1; [apply andb_prop in E1 as [E1 _]; zbool|]; lia).
    unfold sdssplitargs. destruct (split_loop_total (S (length (take (Z.to_nat newline) (querybuf cn)))) [] (take (Z.to_nat newline) (querybuf cn))) as [r Hr]; [lia|].
    rewrite Hr. cbn [mbind option_bind]. destruct r as [argv|]; [|by apply error_result]. cbn [parse_result querybuf]. rewrite sdsrange_from, length_drop by lia.
    assert (length (querybuf cn) <> 0%nat) by (by destruct (querybuf cn)). lia.
  - destruct (_ >? _); [by apply error_result | done].
Qed.

Lemma multibulk_total cn : conn_ok cn -> reqtype cn = REDIS_REQ_MULTIBULK -> querybuf cn <> [] -> parse_result (zlen (querybuf cn)) (processMultibulkBuffer cn).
Proof.
  intros Hok Ht Hne. pose proof Hok as [H1 H2 H3 H4 _]. unfold processMultibulkBuffer.
  destruct (Z.eqb_spec (multibulklen cn) 0) as [E0|E0]; [|by apply (args_total cn 0); [lia | done | lia | lia | auto | lia]].
  destruct (H3 E0) as (-> & Hb & Hstar). destruct (Hstar Ht) as [_ Hstar']. pose proof (strchr_spec (querybuf cn) 13 ltac:(done)) as Hch. destruct (strchr (querybuf cn) 13) as [n|].
  - destruct Hch as (x & y & Hq & _ & _ & ->). assert (zlen (querybuf cn) = zlen x + 1 + zlen y) as Hl by (rewrite Hq, length_app; cbn; lia).
    destruct (zlen x >? zlen (querybuf cn) - 2) eqn:E1; zbool; [done|]. rewrite Hstar'. cbn [negb Z.eqb Pos.eqb].
    destruct (Dec.string2ll _) as [ll|]; [|apply error_result]. destruct (ll >? 1024 * 1024) eqn:E2; zbool; [apply error_result|]. destruct (ll <=? 0) eqn:E3; zbool.
    + cbn [parse_result querybuf with_buf]. rewrite sdsrange_from, drop_at by lia. lia.
    + by apply args_total; cbn [querybuf bulklen multibulklen reqtype args length]; [lia | | lia | lia | | lia].
  - destruct (_ >? _); [by apply error_result | done].
Qed.

(** ** The loop *)

Section Wire.
Context `{E : Env} (int_encoded : list Z -> bool) (fr : front) (paused : bool) (c : cid).

Definition closing (s : server) : Prop := exists cl, clients s !! c = Some cl /\ halted paused cl = true.

Lemma quit_closes s cl l : clients s !! c = Some cl -> is_quit l = true -> wp (serve int_encoded fr c l) s (fun s' _ => closing s').
Proof.
  intros Hc Hq. unfold serve. apply wp_bind, (wp_mod_client c cl); [done|]. set (s1 := upd_clients _ s).
  assert (clients s1 !! c = Some (with_argv l cl)) as Hc1 by (cbn; by rewrite lookup_insert_eq).
  unfold is_quit in Hq. rewrite bool_decide_eq_true in Hq. destruct l as [|name l]; [done|]. cbn [head default from_option id] in Hq.
  unfold processCommand, arg. do 3 apply wp_bind. eapply wp_get_client; [exact Hc1|]. apply (wp_lift _ name); [done|].
  rewrite decide_True by exact Hq. apply wp_bind, (wp_mod_client c (with_argv (name :: l) cl)); [done|]. eapply (wp_mod_client c); [cbn; by rewrite lookup_insert_eq|].
  unfold is_quit. cbn [head default from_option id]. rewrite bool_decide_eq_true_2 by exact Hq. apply wp_ret. eexists. split; [apply lookup_insert_eq|].
  unfold halted. cbn [flags with_flags]. rewrite (has_set_flag _ REDIS_CLOSE_AFTER_REPLY REDIS_CLOSE_AFTER_REPLY) by done. by rewrite Z.eqb_refl, !orb_true_r.
Qed.

(** What running requests keeps: the client, and that a request can be run. *)
Class Serving (P : server -> Prop) : Prop := {
  serving_live s : P s -> is_Some (clients s !! c);
  serving_run s l : P s -> l <> [] -> is_quit l = false -> wp (serve int_encoded fr c l) s (fun s' _ => P s');
  serving_reset s : P s -> wp (resetClient c) s (fun s' _ => P s');
}.

Context (P : server -> Prop) `{!Serving P}.

Lemma conn_ok_reset cn : conn_ok (reset_conn cn).
Proof. constructor; unfold bulk_ok; cbn [reset_conn multibulklen args bulklen querybuf reqtype length]; [lia | lia | done | done | by left]. Qed.

Lemma input_total fuel : forall cn s, (length (querybuf cn) < fuel)%nat -> conn_ok cn -> P s -> wp (input_loop int_encoded fr paused fuel c cn) s (fun s' cn' =>
  (P s' /\ conn_ok cn') \/ closing s').
Proof.
  induction fuel as [|fuel IH]; intros cn s Hf Hok Hs; [lia|]. cbn [input_loop].
  destruct (zlen (querybuf cn) =? 0) eqn:E0; zbool; [apply wp_ret; by left|]. assert (querybuf cn <> []) as Hne by (intros Hnil; by rewrite Hnil in E0).
  destruct (serving_live s Hs) as [cl Hc]. apply wp_bind, (wp_get_client c cl); [done|]. destruct (halted paused cl); [apply wp_ret; by left|].
  set (cn1 := if reqtype cn =? 0 then _ else _). assert (conn_ok cn1) as Hok1.
  { unfold cn1. destruct (Z.eqb_spec (reqtype cn) 0) as [Et|Et]; [|done]. destruct Hok as [H1 H2 H3 H4 _].
    assert (multibulklen cn = 0) as Em by (destruct (Z.eqb_spec (multibulklen cn) 0) as [|Hm]; [done|]; by rewrite H4 in Et).
    constructor; cbn [multibulklen args bulklen querybuf reqtype]; [done | done | | done | right; destruct (_ =? _); [by right | by left]]. intros _. destruct (H3 Em) as (? & ? & _). split_and!; [done..|].
    intros Hty. split; [done|]. destruct (Z.eqb_spec (ch (querybuf cn) 0) 42); [done | by cbn in Hty]. }
  assert (querybuf cn1 = querybuf cn) as Hq by (unfold cn1; by destruct (_ =? 0)).
  assert (parse_result (zlen (querybuf cn)) (if reqtype cn1 =? REDIS_REQ_INLINE then processInlineBuffer cn1 else processMultibulkBuffer cn1)) as Hres.
  { rewrite <- Hq. destruct (Z.eqb_spec (reqtype cn1) REDIS_REQ_INLINE) as [Et|Et]; [apply inline_total; [done | congruence]|].
    apply multibulk_total; [done | | congruence]. destruct (ok_kind _ Hok1) as [Et0|[?|?]]; [|done..]. exfalso. revert Et0. unfold cn1.
    destruct (Z.eqb_spec (reqtype cn) 0); [cbn; by destruct (_ =? _) | done]. }
  destruct (if reqtype cn1 =? REDIS_REQ_INLINE then _ else _) as [[cn2 r]|]; [|done]. apply wp_bind, (wp_lift _ (cn2, r)); [done|]. destruct r as [| |msg]; cbn in Hres.
  - assert (forall s', P s' -> wp (input_loop int_encoded fr paused fuel c (reset_conn cn2)) s' (fun s' cn' => P s' /\ conn_ok cn' \/ closing s')) as Hnext.
    { intros s' Hs'. apply IH; [cbn [querybuf reset_conn]; lia | apply conn_ok_reset | done]. }
    destruct (args cn2) as [|a l] eqn:Ea.
    + apply wp_bind. eapply wp_mono; [by apply serving_reset|]. intros s' [] Hs'. by apply Hnext.
    + rewrite <- Ea. destruct (is_quit (args cn2)) eqn:Eq.
      * apply wp_bind. eapply wp_mono; [by apply (quit_closes s cl)|]. intros s' [] (cl' & Hc' & Hh). destruct fuel as [|fuel']; [lia|]. cbn [input_loop].
        destruct (zlen (querybuf cn2) =? 0); [apply wp_ret; right; by exists cl'|]. apply wp_bind, (wp_get_client c cl'); [done|]. rewrite Hh. apply wp_ret. right. by exists cl'.
      * apply wp_bind. eapply wp_mono; [apply serving_run; [done | by rewrite Ea | done]|]. intros s' [] Hs'. by apply Hnext.
  - apply wp_ret. by left.
  - unfold addReply. apply wp_bind, (wp_mod_client c cl); [done|]. apply wp_bind. eapply wp_mod_client; [apply lookup_insert_eq|]. apply wp_ret. right.
    eexists. split; [apply lookup_insert_eq|]. unfold halted. cbn [flags with_flags]. rewrite (has_set_flag _ REDIS_CLOSE_AFTER_REPLY REDIS_CLOSE_AFTER_REPLY) by done. by rewrite Z.eqb_refl, !orb_true_r.
Qed.

Lemma conn_ok_read cn data : conn_ok cn -> conn_ok (with_buf (querybuf cn ++ data) cn).
Proof.
  intros [H1 H2 H3 H4 H5]. constructor; cbn [with_buf multibulklen args bulklen querybuf reqtype]; [done | done | | done | done].
  intros Hm. destruct (H3 Hm) as (? & ? & Hs). split_and!; [done..|]. intros Ht. destruct (Hs Ht) as [Hne Hch]. by destruct (querybuf cn).
Qed.

End Wire.
