(* ===== verification/DemoWire.v ===== *)
(** * Bytes on the wire

    The theorems about the protocol on the server of [Demo.v], and an inline request
    that costs the next one its first byte. *)
From Stdlib Require Import Lia ZArith String.
From stdpp Require Import base numbers list tactics option gmap fin_maps fin_sets sets.
From S2P Require Import Prelude Util Intset Dict DictRep DictIter Object Glob SetType Server Pubsub Crc Db DbOk DbRules DbCommands SetCmd SetCmdOk SetCommands Commands Demo Multi MultiOk Transactions DemoTx Sds Protocol ProtocolOk Wire.

#[local] Open Scope Z_scope.
#[local] Existing Instance demo_env.

(** ** Requests a few bytes at a time *)

Definition wired : list (list (list Z)) := [words ["SADD"; "b"; "1"; ""]%string; words ["scard"; "b"]%string; words ["nosuchcommand"]%string].
Definition pieces : list Z := concat (repeat [1; 7; 2; 30] 20).

Definition serve_all (l : list (list (list Z))) (s : server) : server :=
  foldl (fun s r => match serve enc open_front 1%positive r s with Some (s', _) => s' | None => s end) s l.
Definition served : server := Eval vm_compute in serve_all wired watching.

Lemma wired_serves : serves enc open_front false 1%positive wired watching served.
Proof.
  unfold wired. eapply serves_cons; [vm_compute; reflexivity.. |]. eapply serves_cons; [vm_compute; reflexivity.. |]. eapply serves_cons; [vm_compute; reflexivity.. |]. apply serves_nil.
Qed.

Lemma requests_arrive_whole_witness : arrive enc open_front false pieces 1%positive idle (wired ≫= request_bytes) watching = Some (served, (Some idle, [])).
Proof.
  apply (requests_arrive_whole enc open_front false 1%positive pieces wired watching served); [ | vm_compute; discriminate | | exact wired_serves].
  - unfold pieces. repeat constructor.
  - repeat constructor; vm_compute; (reflexivity || discriminate).
Defined.

(** ** Bytes from a client that has not said its password *)

Definition locked_front : front := mk_front true (fun _ => false) (fun _ _ _ => None) false false false false false false.
Definition client_there (s : server) : Prop := is_Some (clients s !! 1%positive).

Lemma r_client_there f s (Q : server -> unit -> Prop) : client_there s -> (forall s', client_there s' -> Q s' tt) -> wp (mod_client 1%positive f) s Q.
Proof. intros [cl Hc] HQ. apply (wp_mod_client 1%positive cl); [done|]. apply HQ. exists (f cl). apply lookup_insert_eq. Qed.

Lemma r_refuse_there b r s (Q : server -> unit -> Prop) : client_there s -> (forall s', client_there s' -> Q s' tt) -> wp (refuse 1%positive b r) s Q.
Proof.
  intros Hs HQ. unfold refuse, addReply. apply wp_bind. assert (forall s', client_there s' -> wp (mod_client 1%positive (fun cl => with_reply (c_reply cl ++ [r]) cl)) s' Q) as Hreply.
  { intros s' Hs'. by apply r_client_there. }
  destruct b; [|by apply wp_ret, Hreply]. unfold flagTransaction. destruct Hs as [cl Hc]. apply wp_bind, (wp_get_client _ cl); [done|].
  destruct (in_multi cl); [apply r_client_there; [by exists cl | done] | apply wp_ret, Hreply; by exists cl].
Qed.

Lemma r_reset_there s : client_there s -> wp (resetClient 1%positive) s (fun s' _ => client_there s').
Proof.
  intros Hs. unfold resetClient. apply wp_bind, r_client_there; [done|]. intros s' [cl Hc]. apply wp_bind, (wp_get_client _ cl); [done|].
  destruct (in_multi cl); [apply wp_ret; by exists cl | apply r_client_there; [by exists cl | done]].
Qed.

Lemma locked_serve s l : client_there s -> l <> [] -> is_quit l = false -> wp (serve enc locked_front 1%positive l) s (fun s' _ => client_there s').
Proof.
  intros [cl Hc] Hl Hq. unfold serve. apply wp_bind, (wp_mod_client _ cl); [done|]. set (s1 := upd_clients _ s).
  assert (clients s1 !! 1%positive = Some (with_argv l cl)) as Hc1 by apply lookup_insert_eq. assert (client_there s1) as Hs1 by (by eexists).
  assert (forall s', client_there s' -> wp (if is_quit l then mret tt else resetClient 1%positive) s' (fun s' _ => client_there s')) as Hreset by (rewrite Hq; exact r_reset_there).
  destruct l as [|name l]; [done|]. unfold is_quit in Hq. rewrite bool_decide_eq_false in Hq. cbn [head default from_option id] in Hq.
  unfold processCommand, arg. do 3 apply wp_bind. eapply wp_get_client; [exact Hc1|]. apply (wp_lift _ name); [done|]. rewrite decide_False by exact Hq.
  destruct (lookupCommand name) as [cmd|]; [|by apply r_refuse_there]. apply wp_bind. eapply wp_get_client; [exact Hc1|].
  destruct (negb _); [by apply r_refuse_there|]. apply wp_bind, wp_get. by apply r_refuse_there.
Qed.

#[export] Instance locked_serving : Serving enc locked_front 1%positive client_there.
Proof. constructor; [done | intros s l Hs Hl Hq; by apply locked_serve | apply r_reset_there]. Qed.


(** ** A bare newline *)

(** An inline request may end in a newline alone, but two bytes are taken for it: the
    second SCARD is read as CARD. *)
Definition after_inline (s : string) : option (list reply) :=
  r ← receive enc open_front false 1%positive idle (bytes_of s) watching; c_reply <$> clients r.1 !! 1%positive.
Definition newline : string := String (Ascii.ascii_of_nat 10) EmptyString.
Definition return_newline : string := String (Ascii.ascii_of_nat 13) newline.

Example inline_newline_eats_byte :
  after_inline ("SCARD b" ++ return_newline ++ "SCARD b" ++ return_newline) = Some [Integer 0; Integer 0] /\
  after_inline ("SCARD b" ++ newline ++ "SCARD b" ++ newline) = Some [Integer 0; ErrText "unknown command"].
Proof. vm_compute. split; reflexivity. Qed.
