(* ===== verification/Cluster.v ===== *)
(** * A node of the cluster (cluster.c)

    The view one node has of the cluster: the nodes it knows, who serves which hash
    slot, the epochs, and the state of an election.  A pointer to a [clusterNode]
    is the name of the node; following one to a node that is not in the table has
    no result, and neither has a failed assertion.  A packet that is sent is
    appended to [outbox] with its destination.

    Addresses, links, handshakes and the configuration file are not modelled:
    [linked] says whether a node has a link, nodes do not come or go.  [mstime()]
    reads [clock] at the number of readings so far.  What the cluster asks about
    replication and the key space is the record [around]. *)
From Stdlib Require Import Lia ZArith String.
From stdpp Require Import base numbers list tactics option gmap fin_maps fin_sets sets.
From S2P Require Import Prelude Object.

#[local] Open Scope Z_scope.

(** ** Constants *)

Definition REDIS_CLUSTER_SLOTS : Z := 16384.
Definition REDIS_CLUSTER_OK : Z := 0.
Definition REDIS_CLUSTER_FAIL : Z := 1.
Definition REDIS_CLUSTER_FAIL_REPORT_VALIDITY_MULT : Z := 2.
Definition REDIS_CLUSTER_FAIL_UNDO_TIME_MULT : Z := 2.
Definition REDIS_CLUSTER_MF_TIMEOUT : Z := 5000.
Definition REDIS_CLUSTER_MAX_REJOIN_DELAY : Z := 5000.
Definition REDIS_CLUSTER_MIN_REJOIN_DELAY : Z := 500.
Definition REDIS_CLUSTER_WRITABLE_DELAY : Z := 2000.

Definition REDIS_NODE_MASTER : Z := 1.
Definition REDIS_NODE_SLAVE : Z := 2.
Definition REDIS_NODE_PFAIL : Z := 4.
Definition REDIS_NODE_FAIL : Z := 8.
Definition REDIS_NODE_MYSELF : Z := 16.
Definition REDIS_NODE_HANDSHAKE : Z := 32.

Definition CLUSTER_TODO_HANDLE_FAILOVER : Z := 1.
Definition CLUSTER_TODO_UPDATE_STATE : Z := 2.
Definition CLUSTER_TODO_SAVE_CONFIG : Z := 4.
Definition CLUSTER_TODO_FSYNC_CONFIG : Z := 8.

(** ** Nodes *)

Abbreviation node_name := (list Z).

(** [n_slots] is the bitmap; [numslaves] is the length of [slaves]. *)
Record clusterNode := mk_node {
  n_flags : Z; configEpoch : Z; n_slots : list Z; numslots : Z; slaves : list node_name; slaveof : option node_name;
  fail_time : Z; voted_time : Z; repl_offset : Z; fail_reports : list (node_name * Z); linked : bool }.

Definition with_n_flags (f : Z -> Z) (n : clusterNode) : clusterNode :=
  mk_node (f (n_flags n)) (configEpoch n) (n_slots n) (numslots n) (slaves n) (slaveof n) (fail_time n) (voted_time n) (repl_offset n) (fail_reports n) (linked n).
Definition with_configEpoch (e : Z) (n : clusterNode) : clusterNode :=
  mk_node (n_flags n) e (n_slots n) (numslots n) (slaves n) (slaveof n) (fail_time n) (voted_time n) (repl_offset n) (fail_reports n) (linked n).
Definition with_n_slots (b : list Z) (c : Z) (n : clusterNode) : clusterNode :=
  mk_node (n_flags n) (configEpoch n) b c (slaves n) (slaveof n) (fail_time n) (voted_time n) (repl_offset n) (fail_reports n) (linked n).
Definition with_slaves (l : list node_name) (n : clusterNode) : clusterNode :=
  mk_node (n_flags n) (configEpoch n) (n_slots n) (numslots n) l (slaveof n) (fail_time n) (voted_time n) (repl_offset n) (fail_reports n) (linked n).
Definition with_slaveof (m : option node_name) (n : clusterNode) : clusterNode :=
  mk_node (n_flags n) (configEpoch n) (n_slots n) (numslots n) (slaves n) m (fail_time n) (voted_time n) (repl_offset n) (fail_reports n) (linked n).
Definition with_fail_time (t : Z) (n : clusterNode) : clusterNode :=
  mk_node (n_flags n) (configEpoch n) (n_slots n) (numslots n) (slaves n) (slaveof n) t (voted_time n) (repl_offset n) (fail_reports n) (linked n).
Definition with_voted_time (t : Z) (n : clusterNode) : clusterNode :=
  mk_node (n_flags n) (configEpoch n) (n_slots n) (numslots n) (slaves n) (slaveof n) (fail_time n) t (repl_offset n) (fail_reports n) (linked n).
Definition with_repl_offset (o : Z) (n : clusterNode) : clusterNode :=
  mk_node (n_flags n) (configEpoch n) (n_slots n) (numslots n) (slaves n) (slaveof n) (fail_time n) (voted_time n) o (fail_reports n) (linked n).
Definition with_fail_reports (l : list (node_name * Z)) (n : clusterNode) : clusterNode :=
  mk_node (n_flags n) (configEpoch n) (n_slots n) (numslots n) (slaves n) (slaveof n) (fail_time n) (voted_time n) (repl_offset n) l (linked n).

Definition has (f bits : Z) : bool := negb (Z.land f bits =? 0).
Definition add_flags (bits f : Z) : Z := Z.lor f bits.
Definition del_flags (bits f : Z) : Z := Z.ldiff f bits.

Definition nodeIsMaster (n : clusterNode) : bool := has (n_flags n) REDIS_NODE_MASTER.
Definition nodeIsSlave (n : clusterNode) : bool := has (n_flags n) REDIS_NODE_SLAVE.
Definition nodeInHandshake (n : clusterNode) : bool := has (n_flags n) REDIS_NODE_HANDSHAKE.
Definition nodeTimedOut (n : clusterNode) : bool := has (n_flags n) REDIS_NODE_PFAIL.
Definition nodeFailed (n : clusterNode) : bool := has (n_flags n) REDIS_NODE_FAIL.

(** ** Packets *)

Inductive msg_type := MsgPing | MsgPong | MsgMeet | MsgFail | MsgAuthRequest | MsgAuthAck | MsgUpdate | MsgMFStart.

Inductive msg_data :=
  | NoData
  | Gossip (l : list (node_name * Z))
  | FailAbout (nodename : node_name)
  | NodeCfg (epoch : Z) (nodename : node_name) (slots : list Z).

(** [m_slaveof]: [None] is the null name; [m_paused] and [m_forceack] are the bits of [mflags[0]]. *)
Record clusterMsg := mk_msg {
  m_type : msg_type; m_currentEpoch : Z; m_configEpoch : Z; m_offset : Z; m_sender : node_name; m_myslots : list Z;
  m_slaveof : option node_name; m_paused : bool; m_forceack : bool; m_data : msg_data }.

Definition with_forceack (m : clusterMsg) : clusterMsg :=
  mk_msg (m_type m) (m_currentEpoch m) (m_configEpoch m) (m_offset m) (m_sender m) (m_myslots m) (m_slaveof m) (m_paused m) true (m_data m).
Definition with_data (d : msg_data) (m : clusterMsg) : clusterMsg :=
  mk_msg (m_type m) (m_currentEpoch m) (m_configEpoch m) (m_offset m) (m_sender m) (m_myslots m) (m_slaveof m) (m_paused m) (m_forceack m) d.

(** ** The state *)

(** The fields of [clusterState] that elections use. *)
Record election := mk_election {
  currentEpoch : Z; lastVoteEpoch : Z; auth_time : Z; auth_count : Z; auth_sent : bool; auth_rank : Z; auth_epoch : Z }.
(** Those of a manual failover. *)
Record manual := mk_manual { mf_end : Z; mf_slave : option node_name; mf_master_offset : Z; mf_can_start : bool }.
(** The nodes and the owners of the slots; a slot that is absent is [NULL]. *)
Record table := mk_table { nodes : gmap (list Z) clusterNode; owner : gmap Z (list Z); migrating : gmap Z (list Z); importing : gmap Z (list Z) }.
(** The state of the cluster and the static variables of [clusterUpdateState]. *)
Record health := mk_health { c_state : Z; c_size : Z; among_minority_time : Z; first_call_time : Z }.
(** Replication and the slots that have keys: [replicates] is [server.masterhost],
    [repl_connected] that there is a [server.master], [slave_offset] what
    [replicationGetSlaveOffset] returns, [own_slaves] that [server.slaves] is not empty. *)
Record around := mk_around {
  repl_connected : bool; lastinteraction : Z; repl_down_since : Z; unixtime : Z; slave_offset : Z; master_offset : Z;
  own_slaves : bool; replicates : option node_name; keyed : gset Z }.

Record clusterState := mk_cluster {
  myself : node_name; tab : table; elec : election; mf : manual; hlth : health; out : around;
  todo_before_sleep : Z; readings : nat; outbox : list (node_name * clusterMsg) }.

Definition with_tab (f : table -> table) (s : clusterState) : clusterState :=
  mk_cluster (myself s) (f (tab s)) (elec s) (mf s) (hlth s) (out s) (todo_before_sleep s) (readings s) (outbox s).
Definition with_elec (f : election -> election) (s : clusterState) : clusterState :=
  mk_cluster (myself s) (tab s) (f (elec s)) (mf s) (hlth s) (out s) (todo_before_sleep s) (readings s) (outbox s).
Definition with_mf (f : manual -> manual) (s : clusterState) : clusterState :=
  mk_cluster (myself s) (tab s) (elec s) (f (mf s)) (hlth s) (out s) (todo_before_sleep s) (readings s) (outbox s).
Definition with_hlth (f : health -> health) (s : clusterState) : clusterState :=
  mk_cluster (myself s) (tab s) (elec s) (mf s) (f (hlth s)) (out s) (todo_before_sleep s) (readings s) (outbox s).
Definition with_out (f : around -> around) (s : clusterState) : clusterState :=
  mk_cluster (myself s) (tab s) (elec s) (mf s) (hlth s) (f (out s)) (todo_before_sleep s) (readings s) (outbox s).
Definition with_todo (f : Z -> Z) (s : clusterState) : clusterState :=
  mk_cluster (myself s) (tab s) (elec s) (mf s) (hlth s) (out s) (f (todo_before_sleep s)) (readings s) (outbox s).
Definition with_readings (f : nat -> nat) (s : clusterState) : clusterState :=
  mk_cluster (myself s) (tab s) (elec s) (mf s) (hlth s) (out s) (todo_before_sleep s) (f (readings s)) (outbox s).
Definition with_outbox (f : list (node_name * clusterMsg) -> list (node_name * clusterMsg)) (s : clusterState) : clusterState :=
  mk_cluster (myself s) (tab s) (elec s) (mf s) (hlth s) (out s) (todo_before_sleep s) (readings s) (f (outbox s)).

Definition with_nodes (f : gmap (list Z) clusterNode -> gmap (list Z) clusterNode) (t : table) : table := mk_table (f (nodes t)) (owner t) (migrating t) (importing t).
Definition with_owner (f : gmap Z (list Z) -> gmap Z (list Z)) (t : table) : table := mk_table (nodes t) (f (owner t)) (migrating t) (importing t).

Definition with_currentEpoch (e : Z) (x : election) : election := mk_election e (lastVoteEpoch x) (auth_time x) (auth_count x) (auth_sent x) (auth_rank x) (auth_epoch x).
Definition with_lastVoteEpoch (e : Z) (x : election) : election := mk_election (currentEpoch x) e (auth_time x) (auth_count x) (auth_sent x) (auth_rank x) (auth_epoch x).
Definition with_auth_time (t : Z) (x : election) : election := mk_election (currentEpoch x) (lastVoteEpoch x) t (auth_count x) (auth_sent x) (auth_rank x) (auth_epoch x).
Definition with_auth_count (c : Z) (x : election) : election := mk_election (currentEpoch x) (lastVoteEpoch x) (auth_time x) c (auth_sent x) (auth_rank x) (auth_epoch x).
Definition with_auth_sent (b : bool) (x : election) : election := mk_election (currentEpoch x) (lastVoteEpoch x) (auth_time x) (auth_count x) b (auth_rank x) (auth_epoch x).
Definition with_auth_rank (r : Z) (x : election) : election := mk_election (currentEpoch x) (lastVoteEpoch x) (auth_time x) (auth_count x) (auth_sent x) r (auth_epoch x).
Definition with_auth_epoch (e : Z) (x : election) : election := mk_election (currentEpoch x) (lastVoteEpoch x) (auth_time x) (auth_count x) (auth_sent x) (auth_rank x) e.

(** ** The monad *)

Definition CM (A : Type) : Type := clusterState -> option (clusterState * A).
#[global] Instance CM_ret : MRet CM := fun A a s => Some (s, a).
#[global] Instance CM_bind : MBind CM := fun A B f m s => match m s with Some (s, a) => f a s | None => None end.

Definition cget : CM clusterState := fun s => Some (s, s).
Definition cmodify (f : clusterState -> clusterState) : CM unit := fun s => Some (f s, tt).
Definition cfail {A} : CM A := fun _ => None.
Definition clift {A} (o : option A) : CM A := match o with Some a => mret a | None => cfail end.
Definition cassert (b : bool) : CM unit := if b then mret tt else cfail.
Definition cwhen (b : bool) (m : CM unit) : CM unit := if b then m else mret tt.

(** Following a pointer to a node, and writing through one. *)
Definition node_at (n : node_name) : CM clusterNode := s ← cget; clift (nodes (tab s) !! n).
Definition mod_node (n : node_name) (f : clusterNode -> clusterNode) : CM unit :=
  nd ← node_at n; cmodify (with_tab (with_nodes (<[n := f nd]>))).
Definition me : CM clusterNode := s ← cget; node_at (myself s).

(** [for (j = first; j < first + n; j++)] with an accumulator, and without. *)
Fixpoint cfold {A} (n : nat) (j : Z) (body : Z -> A -> CM A) (a : A) : CM A :=
  match n with O => mret a | S n => a ← body j a; cfold n (j + 1) body a end.
Definition for_slots {A} (body : Z -> A -> CM A) (a : A) : CM A := cfold (Z.to_nat REDIS_CLUSTER_SLOTS) 0 body a.
Fixpoint ceach {A} (body : A -> CM unit) (l : list A) : CM unit := match l with [] => mret tt | a :: l => body a;; ceach body l end.

Definition clusterDoBeforeSleep (flags : Z) : CM unit := cmodify (with_todo (add_flags flags)).

(** ** Slots *)

Definition bitmapTestBit (bitmap : list Z) (pos : Z) : option bool := b ← rd bitmap (pos / 8); Some (has b (Z.shiftl 1 (Z.land pos 7))).
Definition bitmapSetBit (bitmap : list Z) (pos : Z) : option (list Z) :=
  b ← rd bitmap (pos / 8); wr bitmap (pos / 8) (Z.lor b (Z.shiftl 1 (Z.land pos 7))).
Definition bitmapClearBit (bitmap : list Z) (pos : Z) : option (list Z) :=
  b ← rd bitmap (pos / 8); wr bitmap (pos / 8) (Z.ldiff b (Z.shiftl 1 (Z.land pos 7))).

Definition clusterNodeSetSlotBit (n : node_name) (slot : Z) : CM bool :=
  nd ← node_at n;
  old ← clift (bitmapTestBit (n_slots nd) slot);
  bitmap ← clift (bitmapSetBit (n_slots nd) slot);
  mod_node n (with_n_slots bitmap (if (old : bool) then numslots nd else numslots nd + 1));;
  mret old.

Definition clusterNodeClearSlotBit (n : node_name) (slot : Z) : CM bool :=
  nd ← node_at n;
  old ← clift (bitmapTestBit (n_slots nd) slot);
  bitmap ← clift (bitmapClearBit (n_slots nd) slot);
  mod_node n (with_n_slots bitmap (if (old : bool) then numslots nd - 1 else numslots nd));;
  mret old.

Definition clusterNodeGetSlotBit (n : node_name) (slot : Z) : CM bool := nd ← node_at n; clift (bitmapTestBit (n_slots nd) slot).

(** [true] is [REDIS_OK]. *)
Definition clusterAddSlot (n : node_name) (slot : Z) : CM bool :=
  s ← cget;
  match owner (tab s) !! slot with
  | Some _ => mret false
  | None => clusterNodeSetSlotBit n slot;; cmodify (with_tab (with_owner (<[slot := n]>)));; mret true
  end.

Definition clusterDelSlot (slot : Z) : CM bool :=
  s ← cget;
  match owner (tab s) !! slot with
  | None => mret false
  | Some n => old ← clusterNodeClearSlotBit n slot; cassert old;; cmodify (with_tab (with_owner (base.delete slot)));; mret true
  end.

Definition clusterDelNodeSlots (n : node_name) : CM Z :=
  for_slots (fun j deleted => b ← clusterNodeGetSlotBit n j; (if (b : bool) then clusterDelSlot j;; mret tt else mret tt);; mret (deleted + 1)) 0.

Definition clusterCloseAllSlots : CM unit := cmodify (with_tab (fun t => mk_table (nodes t) (owner t) ∅ ∅)).

(** ** Masters and slaves *)

(** [true] is [REDIS_OK]; the order of the others is kept. *)
Definition clusterNodeRemoveSlave (master slave : node_name) : CM bool :=
  nd ← node_at master;
  match list_find (fun x => x = slave) (slaves nd) with
  | Some (j, _) => mod_node master (with_slaves (base.delete j (slaves nd)));; mret true
  | None => mret false
  end.

Definition clusterNodeAddSlave (master slave : node_name) : CM bool :=
  nd ← node_at master;
  if decide (slave ∈ slaves nd) then mret false else mod_node master (with_slaves (slaves nd ++ [slave]));; mret true.

Definition clusterNodeResetSlaves (n : node_name) : CM unit := mod_node n (with_slaves []).

Definition clusterSetNodeAsMaster (n : node_name) : CM unit :=
  nd ← node_at n;
  if nodeIsMaster nd then mret tt else
  (match slaveof nd with Some m => clusterNodeRemoveSlave m n;; mret tt | None => mret tt end);;
  mod_node n (with_n_flags (del_flags REDIS_NODE_SLAVE));;
  mod_node n (with_n_flags (add_flags REDIS_NODE_MASTER));;
  mod_node n (with_slaveof None);;
  clusterDoBeforeSleep (Z.lor CLUSTER_TODO_SAVE_CONFIG CLUSTER_TODO_UPDATE_STATE).

(** The old master and the slaves are disconnected, and what is known of their
    streams is discarded. *)
Definition replicationSetMaster (n : node_name) : CM unit :=
  cmodify (with_out (fun o => mk_around false (lastinteraction o) 0 (unixtime o) 0 0 false (Some n) (keyed o))).

(** A node without slaves inherits the offset of the master it was connected to. *)
Definition replicationUnsetMaster : CM unit :=
  cmodify (with_out (fun o => match replicates o with
    | None => o
    | Some _ =>
        mk_around false (lastinteraction o) (if repl_connected o then unixtime o else repl_down_since o) (unixtime o) 0
          (if repl_connected o && negb (own_slaves o) then slave_offset o else master_offset o) (own_slaves o) None (keyed o)
    end)).

(** Pausing the clients is not part of the state. *)
Definition resetManualFailover : CM unit := cmodify (with_mf (fun _ => mk_manual 0 None 0 false)).

Definition clusterSetMaster (n : node_name) : CM unit :=
  s ← cget;
  cassert (negb (bool_decide (n = myself s)));;
  my ← me;
  cassert (numslots my =? 0);;
  (if nodeIsMaster my then
     mod_node (myself s) (with_n_flags (del_flags REDIS_NODE_MASTER));;
     mod_node (myself s) (with_n_flags (add_flags REDIS_NODE_SLAVE));;
     clusterCloseAllSlots
   else match slaveof my with Some m => clusterNodeRemoveSlave m (myself s);; mret tt | None => mret tt end);;
  mod_node (myself s) (with_slaveof (Some n));;
  clusterNodeAddSlave n (myself s);;
  replicationSetMaster n;;
  resetManualFailover.

(** ** Configuration epochs *)

Definition clusterGetMaxEpoch (s : clusterState) : Z :=
  let max := map_fold (fun _ n max => if configEpoch n >? max then configEpoch n else max) 0 (nodes (tab s)) in
  if max <? currentEpoch (elec s) then currentEpoch (elec s) else max.

(** [currentEpoch++] *)
Definition next_epoch : CM Z :=
  cmodify (with_elec (fun e => with_currentEpoch (uwrap 64 (currentEpoch e + 1)) e));; s ← cget; mret (currentEpoch (elec s)).

(** [true] is [REDIS_OK]. *)
Definition clusterBumpConfigEpochWithoutConsensus : CM bool :=
  s ← cget;
  my ← me;
  let maxEpoch := clusterGetMaxEpoch s in
  if (configEpoch my =? 0) || negb (configEpoch my =? maxEpoch) then
    e ← next_epoch;
    mod_node (myself s) (with_configEpoch e);;
    clusterDoBeforeSleep (Z.lor CLUSTER_TODO_SAVE_CONFIG CLUSTER_TODO_FSYNC_CONFIG);;
    mret true
  else mret false.

Definition clusterHandleConfigEpochCollision (sender : node_name) : CM unit :=
  s ← cget;
  my ← me;
  nd ← node_at sender;
  if negb (configEpoch nd =? configEpoch my) || negb (nodeIsMaster nd) || negb (nodeIsMaster my) then mret tt else
  if memcmp sender (myself s) <=? 0 then mret tt else
  e ← next_epoch;
  mod_node (myself s) (with_configEpoch e).

(** ** Slots claimed by another node *)

(** One slot; the state of the loop is whether a slot of our master moved and the dirty slots. *)
Definition claim_slot (sender : node_name) (senderConfigEpoch : Z) (slots : list Z) (curmaster : option node_name) (j : Z) (a : bool * list Z) : CM (bool * list Z) :=
  let '(newmaster, dirty) := a in
  bit ← clift (bitmapTestBit slots j);
  if negb bit then mret a else
  s ← cget;
  if bool_decide (owner (tab s) !! j = Some sender) then mret a else
  if bool_decide (is_Some (importing (tab s) !! j)) then mret a else
  older ← (match owner (tab s) !! j with None => mret (M:=CM) true | Some o => nd ← node_at o; mret (M:=CM) (configEpoch nd <? senderConfigEpoch) end);
  if negb older then mret a else
  let dirty := if bool_decide (owner (tab s) !! j = Some (myself s)) && bool_decide (j ∈ keyed (out s)) then dirty ++ [j] else dirty in
  let newmaster := newmaster || bool_decide (owner (tab s) !! j = curmaster) in
  clusterDelSlot j;;
  clusterAddSlot sender j;;
  clusterDoBeforeSleep (Z.lor (Z.lor CLUSTER_TODO_SAVE_CONFIG CLUSTER_TODO_UPDATE_STATE) CLUSTER_TODO_FSYNC_CONFIG);;
  mret (newmaster, dirty).

Definition delKeysInSlot (j : Z) : CM unit :=
  cmodify (with_out (fun o => mk_around (repl_connected o) (lastinteraction o) (repl_down_since o) (unixtime o) (slave_offset o) (master_offset o) (own_slaves o) (replicates o) (keyed o ∖ {[j]}))).

Definition clusterUpdateSlotsConfigWith (sender : node_name) (senderConfigEpoch : Z) (slots : list Z) : CM unit :=
  s ← cget;
  my ← me;
  let curmaster := if nodeIsMaster my then Some (myself s) else slaveof my in
  if bool_decide (sender = myself s) then mret tt else
  '(newmaster, dirty) ← for_slots (claim_slot sender senderConfigEpoch slots curmaster) (false, []);
  demoted ← (if (newmaster : bool) then cm ← clift curmaster; nd ← node_at cm; mret (M:=CM) (numslots nd =? 0) else mret (M:=CM) false);
  if (demoted : bool) then
    clusterSetMaster sender;;
    clusterDoBeforeSleep (Z.lor (Z.lor CLUSTER_TODO_SAVE_CONFIG CLUSTER_TODO_UPDATE_STATE) CLUSTER_TODO_FSYNC_CONFIG)
  else ceach delKeysInSlot dirty.

(** ** Settings, clock and chance *)

Record settings := mk_settings {
  cluster_node_timeout : Z; cluster_slave_validity_factor : Z; repl_ping_slave_period : Z; cluster_require_full_coverage : bool }.

Section Node.
Context (conf : settings) (clock : nat -> Z).

(** [mstime()] *)
Definition cluster_mstime : CM Z := s ← cget; cmodify (with_readings S);; mret (clock (readings s)).

(** ** Sending *)

Definition clusterSendMessage (dest : node_name) (m : clusterMsg) : CM unit := cmodify (with_outbox (fun l => l ++ [(dest, m)])).

Definition clusterBuildMessageHdr (type : msg_type) : CM clusterMsg :=
  s ← cget;
  my ← me;
  master ← (match slaveof my with Some m => if nodeIsSlave my then node_at m else mret (M:=CM) my | None => mret (M:=CM) my end);
  let offset := if nodeIsSlave my then slave_offset (out s) else master_offset (out s) in
  mret (mk_msg type (currentEpoch (elec s)) (configEpoch master) offset (myself s) (n_slots master) (slaveof my) (nodeIsMaster my && negb (mf_end (mf s) =? 0)) false NoData).

(** The nodes are visited in the order of [map_to_list]. *)
Definition clusterBroadcastMessage (m : clusterMsg) : CM unit :=
  s ← cget;
  ceach (fun '(n, nd) => cwhen (linked nd && negb (has (n_flags nd) (Z.lor REDIS_NODE_MYSELF REDIS_NODE_HANDSHAKE))) (clusterSendMessage n m)) (map_to_list (nodes (tab s))).

(** [gossip] stands for the entries that are chosen at random. *)
Definition clusterSendPing (gossip : list (node_name * Z)) (dest : node_name) (type : msg_type) : CM unit :=
  m ← clusterBuildMessageHdr type; clusterSendMessage dest (with_data (Gossip gossip) m).

Definition is_local_slave (s : clusterState) (my nd : clusterNode) : bool :=
  nodeIsSlave nd && bool_decide (is_Some (slaveof nd)) && (bool_decide (slaveof nd = Some (myself s)) || bool_decide (slaveof nd = slaveof my)).

Definition clusterBroadcastPong (gossip : list (node_name * Z)) (local_slaves : bool) : CM unit :=
  s ← cget;
  my ← me;
  ceach (fun '(n, nd) => cwhen (linked nd && negb (bool_decide (n = myself s)) && negb (nodeInHandshake nd) && (negb local_slaves || is_local_slave s my nd)) (clusterSendPing gossip n MsgPong))
    (map_to_list (nodes (tab s))).

Definition clusterSendFail (n : node_name) : CM unit := m ← clusterBuildMessageHdr MsgFail; clusterBroadcastMessage (with_data (FailAbout n) m).

Definition clusterSendUpdate (dest n : node_name) : CM unit :=
  d ← node_at dest;
  cwhen (linked d) (m ← clusterBuildMessageHdr MsgUpdate; nd ← node_at n; clusterSendMessage dest (with_data (NodeCfg (configEpoch nd) n (n_slots nd)) m)).

(** ** Failure reports *)

(** [true] when the report is a new one. *)
Definition clusterNodeAddFailureReport (failing sender : node_name) : CM bool :=
  nd ← node_at failing;
  t ← cluster_mstime;
  match list_find (fun r => r.1 = sender) (fail_reports nd) with
  | Some (j, _) => mod_node failing (with_fail_reports (<[j := (sender, t)]> (fail_reports nd)));; mret false
  | None => mod_node failing (with_fail_reports (fail_reports nd ++ [(sender, t)]));; mret true
  end.

Definition clusterNodeCleanupFailureReports (n : node_name) : CM unit :=
  let maxtime := cluster_node_timeout conf * REDIS_CLUSTER_FAIL_REPORT_VALIDITY_MULT in
  now ← cluster_mstime;
  nd ← node_at n;
  mod_node n (with_fail_reports (filter (fun r => now - r.2 <= maxtime) (fail_reports nd))).

Definition clusterNodeDelFailureReport (n sender : node_name) : CM bool :=
  nd ← node_at n;
  match list_find (fun r => r.1 = sender) (fail_reports nd) with
  | Some (j, _) => mod_node n (with_fail_reports (base.delete j (fail_reports nd)));; clusterNodeCleanupFailureReports n;; mret true
  | None => mret false
  end.

Definition clusterNodeFailureReportsCount (n : node_name) : CM Z := clusterNodeCleanupFailureReports n;; nd ← node_at n; mret (zlen (fail_reports nd)).

Definition markNodeAsFailingIfNeeded (n : node_name) : CM unit :=
  s ← cget;
  let needed_quorum := c_size (hlth s) / 2 + 1 in
  nd ← node_at n;
  if negb (nodeTimedOut nd) then mret tt else
  if nodeFailed nd then mret tt else
  failures ← clusterNodeFailureReportsCount n;
  my ← me;
  let failures := if nodeIsMaster my then failures + 1 else failures in
  if failures <? needed_quorum then mret tt else
  mod_node n (with_n_flags (del_flags REDIS_NODE_PFAIL));;
  mod_node n (with_n_flags (add_flags REDIS_NODE_FAIL));;
  t ← cluster_mstime;
  mod_node n (with_fail_time t);;
  my ← me;
  cwhen (nodeIsMaster my) (clusterSendFail n);;
  clusterDoBeforeSleep (Z.lor CLUSTER_TODO_UPDATE_STATE CLUSTER_TODO_SAVE_CONFIG).

Definition clearNodeFailureIfNeeded (n : node_name) : CM unit :=
  now ← cluster_mstime;
  nd ← node_at n;
  cassert (nodeFailed nd);;
  cwhen (nodeIsSlave nd || (numslots nd =? 0))
    (mod_node n (with_n_flags (del_flags REDIS_NODE_FAIL));; clusterDoBeforeSleep (Z.lor CLUSTER_TODO_UPDATE_STATE CLUSTER_TODO_SAVE_CONFIG));;
  nd ← node_at n;
  cwhen (nodeIsMaster nd && (numslots nd >? 0) && (now - fail_time nd >? cluster_node_timeout conf * REDIS_CLUSTER_FAIL_UNDO_TIME_MULT))
    (mod_node n (with_n_flags (del_flags REDIS_NODE_FAIL));; clusterDoBeforeSleep (Z.lor CLUSTER_TODO_UPDATE_STATE CLUSTER_TODO_SAVE_CONFIG)).

(** Nodes that are not known are left to handshakes. *)
Definition gossip_entry (sender : option node_name) (g : node_name * Z) : CM unit :=
  let '(n, flags) := g in
  s ← cget;
  match nodes (tab s) !! n, sender with
  | Some _, Some sender =>
      snd ← node_at sender;
      if nodeIsMaster snd && negb (bool_decide (n = myself s)) then
        if has flags (Z.lor REDIS_NODE_FAIL REDIS_NODE_PFAIL) then clusterNodeAddFailureReport n sender;; markNodeAsFailingIfNeeded n
        else clusterNodeDelFailureReport n sender;; mret tt
      else mret tt
  | _, _ => mret tt
  end.
Definition clusterProcessGossipSection (sender : option node_name) (l : list (node_name * Z)) : CM unit := ceach (gossip_entry sender) l.

(** ** Elections *)

Definition clusterRequestFailoverAuth : CM unit :=
  m ← clusterBuildMessageHdr MsgAuthRequest;
  s ← cget;
  clusterBroadcastMessage (if negb (mf_end (mf s) =? 0) then with_forceack m else m).

Definition clusterSendFailoverAuth (n : node_name) : CM unit :=
  nd ← node_at n; cwhen (linked nd) (m ← clusterBuildMessageHdr MsgAuthAck; clusterSendMessage n m).

(** [true] when a claimed slot is served with a greater [configEpoch]: the loop returns there. *)
Definition slot_newer (requestConfigEpoch : Z) (claimed_slots : list Z) (j : Z) (newer : bool) : CM bool :=
  if newer then mret true else
  bit ← clift (bitmapTestBit claimed_slots j);
  if negb bit then mret false else
  s ← cget;
  match owner (tab s) !! j with None => mret false | Some o => nd ← node_at o; mret (negb (configEpoch nd <=? requestConfigEpoch)) end.

Definition clusterSendFailoverAuthIfNeeded (n : node_name) (request : clusterMsg) : CM unit :=
  s ← cget;
  nd ← node_at n;
  let master := slaveof nd in
  let requestCurrentEpoch := m_currentEpoch request in
  let requestConfigEpoch := m_configEpoch request in
  my ← me;
  if nodeIsSlave my || (numslots my =? 0) then mret tt else
  if requestCurrentEpoch <? currentEpoch (elec s) then mret tt else
  if lastVoteEpoch (elec s) =? currentEpoch (elec s) then mret tt else
  match (if nodeIsMaster nd then None else master) with
  | None => mret tt
  | Some master =>
      mnd ← node_at master;
      if negb (nodeFailed mnd) && negb (m_forceack request) then mret tt else
      t ← cluster_mstime;
      if t - voted_time mnd <? cluster_node_timeout conf * 2 then mret tt else
      newer ← for_slots (slot_newer requestConfigEpoch (m_myslots request)) false;
      if (newer : bool) then mret tt else
      clusterSendFailoverAuth n;;
      cmodify (with_elec (with_lastVoteEpoch (currentEpoch (elec s))));;
      t ← cluster_mstime;
      mod_node master (with_voted_time t)
  end.

Definition clusterGetSlaveRank : CM Z :=
  s ← cget;
  my ← me;
  cassert (nodeIsSlave my);;
  match slaveof my with
  | None => mret 0
  | Some master =>
      mnd ← node_at master;
      let myoffset := slave_offset (out s) in
      (fix go (l : list node_name) : CM Z := match l with
       | [] => mret 0
       | x :: l => nd ← node_at x; rank ← go l; mret (if negb (bool_decide (x = myself s)) && (repl_offset nd >? myoffset) then rank + 1 else rank)
       end) (slaves mnd)
  end.

(** The state of the cluster as a whole. *)
Definition slot_covered (j : Z) (ok : bool) : CM bool :=
  if negb ok then mret false else
  s ← cget;
  match owner (tab s) !! j with None => mret false | Some o => nd ← node_at o; mret (negb (has (n_flags nd) REDIS_NODE_FAIL)) end.

Definition counts_as_master (nd : clusterNode) : bool := nodeIsMaster nd && negb (numslots nd =? 0).

Definition with_c_state (x : Z) (h : health) : health := mk_health x (c_size h) (among_minority_time h) (first_call_time h).
Definition with_c_size (x : Z) (h : health) : health := mk_health (c_state h) x (among_minority_time h) (first_call_time h).
Definition with_minority_time (x : Z) (h : health) : health := mk_health (c_state h) (c_size h) x (first_call_time h).
Definition with_first_call (x : Z) (h : health) : health := mk_health (c_state h) (c_size h) (among_minority_time h) x.

Definition clusterUpdateState : CM unit :=
  cmodify (with_todo (del_flags CLUSTER_TODO_UPDATE_STATE));;
  s ← cget;
  cwhen (first_call_time (hlth s) =? 0) (t ← cluster_mstime; cmodify (with_hlth (with_first_call t)));;
  my ← me;
  s ← cget;
  wait ← (if nodeIsMaster my && (c_state (hlth s) =? REDIS_CLUSTER_FAIL) then t ← cluster_mstime; mret (M:=CM) (t - first_call_time (hlth s) <? REDIS_CLUSTER_WRITABLE_DELAY) else mret (M:=CM) false);
  if (wait : bool) then mret tt else
  covered ← (if cluster_require_full_coverage conf then for_slots slot_covered true else mret (M:=CM) true);
  let new_state := if (covered : bool) then REDIS_CLUSTER_OK else REDIS_CLUSTER_FAIL in
  s ← cget;
  let masters := filter (fun p => counts_as_master p.2 = true) (map_to_list (nodes (tab s))) in
  let reachable_masters := zlen (filter (fun p => has (n_flags p.2) (Z.lor REDIS_NODE_FAIL REDIS_NODE_PFAIL) = false) masters) in
  cmodify (with_hlth (with_c_size (zlen masters)));;
  let needed_quorum := zlen masters / 2 + 1 in
  cwhen (reachable_masters <? needed_quorum) (t ← cluster_mstime; cmodify (with_hlth (with_minority_time t)));;
  let new_state := if reachable_masters <? needed_quorum then REDIS_CLUSTER_FAIL else new_state in
  s ← cget;
  if new_state =? c_state (hlth s) then mret tt else
  let rejoin_delay := Z.max REDIS_CLUSTER_MIN_REJOIN_DELAY (Z.min REDIS_CLUSTER_MAX_REJOIN_DELAY (cluster_node_timeout conf)) in
  early ← (if (new_state =? REDIS_CLUSTER_OK) && nodeIsMaster my then t ← cluster_mstime; mret (M:=CM) (t - among_minority_time (hlth s) <? rejoin_delay) else mret (M:=CM) false);
  if (early : bool) then mret tt else cmodify (with_hlth (with_c_state new_state)).

(** The slots of the old master become ours. *)
Definition take_slot (oldmaster : node_name) (j : Z) (_ : unit) : CM unit :=
  s ← cget;
  b ← clusterNodeGetSlotBit oldmaster j;
  cwhen b (clusterDelSlot j;; clusterAddSlot (myself s) j;; mret tt).

Definition clusterFailoverReplaceYourMaster (gossip : list (node_name * Z)) : CM unit :=
  s ← cget;
  my ← me;
  match (if nodeIsMaster my then None else slaveof my) with
  | None => mret tt
  | Some oldmaster =>
      clusterSetNodeAsMaster (myself s);;
      replicationUnsetMaster;;
      for_slots (take_slot oldmaster) tt;;
      clusterUpdateState;;
      clusterBroadcastPong gossip false;;
      resetManualFailover
  end.

Definition data_age (o : around) : Z :=
  let age := (if repl_connected o then unixtime o - lastinteraction o else unixtime o - repl_down_since o) * 1000 in
  if age >? cluster_node_timeout conf then age - cluster_node_timeout conf else age.

Definition auth_timeout : Z := Z.max (cluster_node_timeout conf * 2) 2000.

(** A new election is scheduled; [chance] is what [random()] gives. *)
Definition schedule_election (gossip : list (node_name * Z)) (chance : Z) : CM unit :=
  t ← cluster_mstime;
  cmodify (with_elec (fun e => with_auth_sent false (with_auth_count 0 (with_auth_time (t + 500 + chance `rem` 500) e))));;
  rank ← clusterGetSlaveRank;
  cmodify (with_elec (fun e => with_auth_time (auth_time e + rank * 1000) (with_auth_rank rank e)));;
  s ← cget;
  cwhen (negb (mf_end (mf s) =? 0)) (t ← cluster_mstime; cmodify (with_elec (fun e => with_auth_rank 0 (with_auth_time t e))));;
  clusterBroadcastPong gossip true.

(** The votes are asked for. *)
Definition start_election : CM unit :=
  e ← next_epoch;
  cmodify (with_elec (with_auth_epoch e));;
  clusterRequestFailoverAuth;;
  cmodify (with_elec (with_auth_sent true));;
  clusterDoBeforeSleep (Z.lor (Z.lor CLUSTER_TODO_SAVE_CONFIG CLUSTER_TODO_UPDATE_STATE) CLUSTER_TODO_FSYNC_CONFIG).

(** The election is won. *)
Definition win_election (gossip : list (node_name * Z)) : CM unit :=
  s ← cget;
  my ← me;
  cwhen (configEpoch my <? auth_epoch (elec s)) (mod_node (myself s) (with_configEpoch (auth_epoch (elec s))));;
  clusterFailoverReplaceYourMaster gossip.

Definition clusterHandleSlaveFailover (gossip : list (node_name * Z)) (chance : Z) : CM unit :=
  s ← cget;
  t ← cluster_mstime;
  let auth_age := t - auth_time (elec s) in
  let needed_quorum := c_size (hlth s) / 2 + 1 in
  let manual_failover := negb (mf_end (mf s) =? 0) && mf_can_start (mf s) in
  cmodify (with_todo (del_flags CLUSTER_TODO_HANDLE_FAILOVER));;
  let auth_retry_time := auth_timeout * 2 in
  my ← me;
  match (if nodeIsMaster my then None else slaveof my) with
  | None => mret tt
  | Some master =>
      mnd ← node_at master;
      if (negb (nodeFailed mnd) && negb manual_failover) || (numslots mnd =? 0) then mret tt else
      if negb (cluster_slave_validity_factor conf =? 0) &&
         (data_age (out s) >? repl_ping_slave_period conf * 1000 + cluster_node_timeout conf * cluster_slave_validity_factor conf) && negb manual_failover then mret tt else
      if auth_age >? auth_retry_time then schedule_election gossip chance else
      cwhen (negb (auth_sent (elec s)) && (mf_end (mf s) =? 0))
        (newrank ← clusterGetSlaveRank;
         cwhen (newrank >? auth_rank (elec s))
           (cmodify (with_elec (fun e => with_auth_rank newrank (with_auth_time (auth_time e + (newrank - auth_rank (elec s)) * 1000) e)))));;
      now ← cluster_mstime;
      s ← cget;
      if now <? auth_time (elec s) then mret tt else
      if auth_age >? auth_timeout then mret tt else
      if negb (auth_sent (elec s)) then start_election else
      if auth_count (elec s) >=? needed_quorum then win_election gossip else mret tt
  end.

(** ** Manual failover *)

Definition manualFailoverCheckTimeout : CM unit :=
  s ← cget;
  if mf_end (mf s) =? 0 then mret tt else t ← cluster_mstime; cwhen (mf_end (mf s) <? t) resetManualFailover.

Definition clusterHandleManualFailover : CM unit :=
  s ← cget;
  if (mf_end (mf s) =? 0) || mf_can_start (mf s) || (mf_master_offset (mf s) =? 0) then mret tt else
  cwhen (mf_master_offset (mf s) =? slave_offset (out s)) (cmodify (with_mf (fun m => mk_manual (mf_end m) (mf_slave m) (mf_master_offset m) true))).

(** ** Packets received *)

(** The epochs and the offset of the sender. *)
Definition note_sender (sender : node_name) (hdr : clusterMsg) : CM unit :=
  s ← cget;
  cwhen (m_currentEpoch hdr >? currentEpoch (elec s)) (cmodify (with_elec (with_currentEpoch (m_currentEpoch hdr))));;
  nd ← node_at sender;
  cwhen (m_configEpoch hdr >? configEpoch nd)
    (mod_node sender (with_configEpoch (m_configEpoch hdr));; clusterDoBeforeSleep (Z.lor CLUSTER_TODO_SAVE_CONFIG CLUSTER_TODO_FSYNC_CONFIG));;
  mod_node sender (with_repl_offset (m_offset hdr));;
  my ← me;
  s ← cget;
  cwhen (negb (mf_end (mf s) =? 0) && nodeIsSlave my && bool_decide (slaveof my = Some sender) && m_paused hdr && (mf_master_offset (mf s) =? 0))
    (cmodify (with_mf (fun m => mk_manual (mf_end m) (mf_slave m) (m_offset hdr) (mf_can_start m)))).

(** A PONG on the link of the node [n]. *)
Definition note_pong (n : node_name) : CM unit :=
  nd ← node_at n;
  if nodeTimedOut nd then
    mod_node n (with_n_flags (del_flags REDIS_NODE_PFAIL));; clusterDoBeforeSleep (Z.lor CLUSTER_TODO_SAVE_CONFIG CLUSTER_TODO_UPDATE_STATE)
  else cwhen (nodeFailed nd) (clearNodeFailureIfNeeded n).

(** The role of the sender. *)
Definition note_role (sender : node_name) (hdr : clusterMsg) : CM unit :=
  match m_slaveof hdr with
  | None => clusterSetNodeAsMaster sender
  | Some master =>
      nd ← node_at sender;
      cwhen (nodeIsMaster nd)
        (clusterDelNodeSlots sender;;
         mod_node sender (with_n_flags (del_flags REDIS_NODE_MASTER));;
         mod_node sender (with_n_flags (add_flags REDIS_NODE_SLAVE));;
         nd ← node_at sender;
         cwhen (negb (zlen (slaves nd) =? 0)) (clusterNodeResetSlaves sender);;
         clusterDoBeforeSleep (Z.lor CLUSTER_TODO_SAVE_CONFIG CLUSTER_TODO_UPDATE_STATE));;
      s ← cget;
      nd ← node_at sender;
      cwhen (bool_decide (is_Some (nodes (tab s) !! master)) && negb (bool_decide (slaveof nd = Some master)))
        ((match slaveof nd with Some m => clusterNodeRemoveSlave m sender;; mret tt | None => mret tt end);;
         clusterNodeAddSlave master sender;;
         mod_node sender (with_slaveof (Some master));;
         clusterDoBeforeSleep CLUSTER_TODO_SAVE_CONFIG)
  end.

(** The first slot the sender claims that has an owner with a newer configuration. *)
Definition newer_owner (sender : node_name) (senderConfigEpoch : Z) (slots : list Z) (j : Z) (found : option node_name) : CM (option node_name) :=
  match found with
  | Some _ => mret found
  | None =>
      bit ← clift (bitmapTestBit slots j);
      if negb bit then mret None else
      s ← cget;
      match owner (tab s) !! j with
      | None => mret None
      | Some o => if bool_decide (o = sender) then mret None else nd ← node_at o; mret (if configEpoch nd >? senderConfigEpoch then Some o else None)
      end
  end.

(** The slots of the sender, or of its master. *)
Definition note_slots (sender : node_name) (senderConfigEpoch : Z) (hdr : clusterMsg) : CM unit :=
  nd ← node_at sender;
  dirty_slots ← (match (if nodeIsMaster nd then Some sender else slaveof nd) with
    | Some m => mnd ← node_at m; mret (M:=CM) (negb (bool_decide (n_slots mnd = m_myslots hdr)))
    | None => mret (M:=CM) false
    end);
  cwhen (nodeIsMaster nd && dirty_slots) (clusterUpdateSlotsConfigWith sender senderConfigEpoch (m_myslots hdr));;
  cwhen dirty_slots
    (found ← for_slots (newer_owner sender senderConfigEpoch (m_myslots hdr)) None;
     match found with Some o => clusterSendUpdate sender o | None => mret tt end).

Definition note_collision (sender : node_name) (senderConfigEpoch : Z) : CM unit :=
  my ← me;
  nd ← node_at sender;
  cwhen (nodeIsMaster my && nodeIsMaster nd && (senderConfigEpoch =? configEpoch my)) (clusterHandleConfigEpochCollision sender).

(** [on_link]: did the packet arrive on the link this node opened to the sender?
    Otherwise the sender opened the link. *)
Definition clusterProcessPacket (gossip : list (node_name * Z)) (on_link : bool) (hdr : clusterMsg) : CM unit :=
  s ← cget;
  let n := m_sender hdr in
  let known := nodes (tab s) !! n in
  let greeted := match known with Some nd => negb (nodeInHandshake nd) | None => false end in
  cwhen greeted (note_sender n hdr);;
  let senderCurrentEpoch := if greeted then m_currentEpoch hdr else 0 in
  let senderConfigEpoch := if greeted then m_configEpoch hdr else 0 in
  match m_type hdr with
  | MsgPing | MsgPong | MsgMeet =>
      (match m_type hdr with MsgPing | MsgMeet => clusterSendPing gossip n MsgPong | _ => mret tt end);;
      (match m_type hdr with MsgPong => cwhen on_link (note_pong n) | _ => mret tt end);;
      match known with
      | None => mret tt
      | Some _ =>
          note_role n hdr;;
          note_slots n senderConfigEpoch hdr;;
          note_collision n senderConfigEpoch;;
          match m_data hdr with Gossip l => clusterProcessGossipSection (Some n) l | _ => mret tt end
      end
  | MsgFail =>
      match known, m_data hdr with
      | Some _, FailAbout failing =>
          s ← cget;
          match nodes (tab s) !! failing with
          | Some nd =>
              if has (n_flags nd) (Z.lor REDIS_NODE_FAIL REDIS_NODE_MYSELF) then mret tt else
              mod_node failing (with_n_flags (add_flags REDIS_NODE_FAIL));;
              t ← cluster_mstime;
              mod_node failing (with_fail_time t);;
              mod_node failing (with_n_flags (del_flags REDIS_NODE_PFAIL));;
              clusterDoBeforeSleep (Z.lor CLUSTER_TODO_SAVE_CONFIG CLUSTER_TODO_UPDATE_STATE)
          | None => mret tt
          end
      | _, _ => mret tt
      end
  | MsgAuthRequest => match known with Some _ => clusterSendFailoverAuthIfNeeded n hdr | None => mret tt end
  | MsgAuthAck =>
      match known with
      | Some _ =>
          nd ← node_at n;
          s ← cget;
          cwhen (nodeIsMaster nd && (numslots nd >? 0) && (senderCurrentEpoch >=? auth_epoch (elec s)))
            (cmodify (with_elec (fun e => with_auth_count (auth_count e + 1) e));; clusterDoBeforeSleep CLUSTER_TODO_HANDLE_FAILOVER)
      | None => mret tt
      end
  | MsgMFStart =>
      match known with
      | Some nd =>
          if bool_decide (slaveof nd = Some (myself s)) then
            resetManualFailover;;
            t ← cluster_mstime;
            cmodify (with_mf (fun m => mk_manual (t + REDIS_CLUSTER_MF_TIMEOUT) (Some n) (mf_master_offset m) (mf_can_start m)))
          else mret tt
      | None => mret tt
      end
  | MsgUpdate =>
      match known, m_data hdr with
      | Some _, NodeCfg reportedConfigEpoch about slots =>
          s ← cget;
          match nodes (tab s) !! about with
          | None => mret tt
          | Some nd =>
              if configEpoch nd >=? reportedConfigEpoch then mret tt else
              cwhen (nodeIsSlave nd) (clusterSetNodeAsMaster about);;
              mod_node about (with_configEpoch reportedConfigEpoch);;
              clusterDoBeforeSleep (Z.lor CLUSTER_TODO_SAVE_CONFIG CLUSTER_TODO_FSYNC_CONFIG);;
              clusterUpdateSlotsConfigWith about reportedConfigEpoch slots
          end
      | _, _ => mret tt
      end
  end.

End Node.
