(* ===== verification/ClusterOk.v ===== *)
(** * The slot table of a node stays consistent

    [table_ok]: the owner of a slot is the one node whose bitmap has the slot,
    [numslots] counts the bitmap, slaves serve no slots, and the pointers between
    nodes lead to known nodes.  Every operation of [Cluster.v] keeps this and meets
    no failed assertion. *)
From Stdlib Require Import Lia ZArith String.
From stdpp Require Import base numbers list tactics option gmap fin_maps fin_sets sets.
From S2P Require Import Prelude Object Cluster.

#[local] Open Scope Z_scope.

(** ** Total correctness *)

Definition cwp {A} (m : CM A) (s : clusterState) (Q : clusterState -> A -> Prop) : Prop :=
  match m s with Some (s', a) => Q s' a | None => False end.

Section Cwp.
Implicit Types (s : clusterState).

Lemma cwp_ret {A} (a : A) s (Q : clusterState -> A -> Prop) : Q s a -> cwp (mret a) s Q.
Proof. done. Qed.

Lemma cwp_bind {A B} (m : CM B) (f : B -> CM A) s (Q : clusterState -> A -> Prop) : cwp m s (fun s' b => cwp (f b) s' Q) -> cwp (m ≫= f) s Q.
Proof. unfold cwp, mbind, CM_bind. by destruct (m s) as [[s' b]|]. Qed.

Lemma cwp_mono {A} (m : CM A) s (Q Q' : clusterState -> A -> Prop) : cwp m s Q -> (forall s' a, Q s' a -> Q' s' a) -> cwp m s Q'.
Proof. unfold cwp. destruct (m s) as [[s' a]|]; auto. Qed.

Lemma cwp_lift {A} (o : option A) a s (Q : clusterState -> A -> Prop) : o = Some a -> Q s a -> cwp (clift o) s Q.
Proof. by intros ->. Qed.

Lemma cwp_get s (Q : clusterState -> clusterState -> Prop) : Q s s -> cwp cget s Q.
Proof. done. Qed.

Lemma cwp_modify f s (Q : clusterState -> unit -> Prop) : Q (f s) tt -> cwp (cmodify f) s Q.
Proof. done. Qed.

Lemma cwp_assert (b : bool) s (Q : clusterState -> unit -> Prop) : b = true -> Q s tt -> cwp (cassert b) s Q.
Proof. by intros ->. Qed.

Lemma cwp_when (b : bool) m s (Q : clusterState -> unit -> Prop) : (b = true -> cwp m s Q) -> (b = false -> Q s tt) -> cwp (cwhen b m) s Q.
Proof. intros H1 H2. destruct b; [by apply H1 | by apply H2]. Qed.

Lemma cwp_node n nd s (Q : clusterState -> clusterNode -> Prop) : nodes (tab s) !! n = Some nd -> Q s nd -> cwp (node_at n) s Q.
Proof. intros H HQ. apply cwp_bind, cwp_get. by apply (cwp_lift _ nd). Qed.

Lemma cwp_me nd s (Q : clusterState -> clusterNode -> Prop) : nodes (tab s) !! myself s = Some nd -> Q s nd -> cwp me s Q.
Proof. intros H HQ. apply cwp_bind, cwp_get. by apply (cwp_node _ nd). Qed.

Lemma cwp_mod_node n nd f s (Q : clusterState -> unit -> Prop) : nodes (tab s) !! n = Some nd ->
  Q (with_tab (with_nodes (<[n := f nd]>)) s) tt -> cwp (mod_node n f) s Q.
Proof. intros H HQ. apply cwp_bind, (cwp_node n nd); [done|]. by apply cwp_modify. Qed.

(** A loop with an invariant over the counter. *)
Lemma cwp_fold {A} (body : Z -> A -> CM A) (I : Z -> clusterState -> A -> Prop) n : forall j a s (Q : clusterState -> A -> Prop),
  I j s a -> (forall k s a, j <= k < j + Z.of_nat n -> I k s a -> cwp (body k a) s (I (k + 1))) ->
  (forall s a, I (j + Z.of_nat n) s a -> Q s a) -> cwp (cfold n j body a) s Q.
Proof.
  induction n as [|n IH]; intros j a s Q HI Hstep HQ; cbn [cfold].
  - apply cwp_ret, HQ. by rewrite Z.add_0_r.
  - apply cwp_bind. eapply cwp_mono; [apply Hstep; [lia | exact HI]|]. intros s' a' HI'. apply (IH (j + 1)); [exact HI' | |].
    + intros k s1 a1 Hk. apply Hstep. lia.
    + intros s1 a1 H1. apply HQ. by replace (j + Z.of_nat (S n)) with (j + 1 + Z.of_nat n) by lia.
Qed.

Lemma cwp_slots {A} (body : Z -> A -> CM A) (I : Z -> clusterState -> A -> Prop) a s (Q : clusterState -> A -> Prop) :
  I 0 s a -> (forall k s a, 0 <= k < REDIS_CLUSTER_SLOTS -> I k s a -> cwp (body k a) s (I (k + 1))) ->
  (forall s a, I REDIS_CLUSTER_SLOTS s a -> Q s a) -> cwp (for_slots body a) s Q.
Proof. intros H0 Hs HQ. unfold for_slots. apply (cwp_fold body I); [done | intros k s1 a1 Hk; apply Hs; unfold REDIS_CLUSTER_SLOTS in *; lia | exact HQ]. Qed.

Lemma cwp_each {A} (body : A -> CM unit) (P : A -> Prop) (I : clusterState -> Prop) l : forall s (Q : clusterState -> unit -> Prop),
  Forall P l -> I s -> (forall a s, P a -> I s -> cwp (body a) s (fun s' _ => I s')) -> (forall s, I s -> Q s tt) -> cwp (ceach body l) s Q.
Proof.
  induction l as [|a l IH]; intros s Q HP HI Hstep HQ; cbn [ceach]; [by apply cwp_ret, HQ|]. apply Forall_cons in HP as [Ha HP].
  apply cwp_bind. eapply cwp_mono; [by apply Hstep|]. intros s' [] HI'. by apply IH.
Qed.
End Cwp.

(** ** Bitmaps *)

Definition slot (j : Z) : Prop := 0 <= j < REDIS_CLUSTER_SLOTS.
Definition bitmap_ok (b : list Z) : Prop := length b = 2048%nat.
Definition bit (b : list Z) (j : Z) : bool := Z.testbit (default 0 (b !! Z.to_nat (j / 8))) (j mod 8).

Lemma has_bit x i : 0 <= i -> has x (Z.shiftl 1 i) = Z.testbit x i.
Proof.
  intros Hi. unfold has. rewrite Z.shiftl_1_l. destruct (Z.testbit x i) eqn:E1.
  - destruct (Z.eqb_spec (Z.land x (2 ^ i)) 0) as [H|H]; [|done]. apply (f_equal (fun z => Z.testbit z i)) in H.
    by rewrite Z.land_spec, E1, Z.pow2_bits_true, Z.bits_0 in H.
  - destruct (Z.eqb_spec (Z.land x (2 ^ i)) 0) as [H|H]; [done|]. destruct H. apply Z.bits_inj'. intros k Hk. rewrite Z.land_spec, Z.bits_0.
    destruct (decide (k = i)) as [->|Hne]; [by rewrite E1 | by rewrite Z.pow2_bits_false, andb_false_r].
Qed.

Lemma land_7 j : Z.land j 7 = j mod 8.
Proof. apply (Z.land_ones j 3). lia. Qed.

Lemma rd_byte b j : bitmap_ok b -> slot j -> exists x, rd b (j / 8) = Some x /\ b !! Z.to_nat (j / 8) = Some x.
Proof.
  unfold bitmap_ok, slot, REDIS_CLUSTER_SLOTS, rd. intros Hb Hj. assert (0 <= j / 8 < 2048) as H by (split; [apply Z.div_pos; lia | apply Z.div_lt_upper_bound; lia]).
  zfalse (j / 8 <? 0). destruct (lookup_lt_is_Some_2 b (Z.to_nat (j / 8))) as [x Hx]; [lia|]. eauto.
Qed.

Lemma test_bit b j : bitmap_ok b -> slot j -> bitmapTestBit b j = Some (bit b j).
Proof.
  intros Hb Hj. unfold bitmapTestBit, bit. destruct (rd_byte b j Hb Hj) as (x & -> & ->). cbn. rewrite has_bit, land_7; [done|].
  rewrite land_7. apply Z.mod_pos_bound. lia.
Qed.

(** Changing one bit. *)
Lemma change_bit b j (f : Z -> Z) (v : bool) : bitmap_ok b -> slot j -> (forall x i, 0 <= i -> Z.testbit (f x) i = if i =? j mod 8 then v else Z.testbit x i) ->
  exists b', (x ← rd b (j / 8); wr b (j / 8) (f x)) = Some b' /\ bitmap_ok b' /\ forall k, slot k -> bit b' k = if k =? j then v else bit b k.
Proof.
  intros Hb Hj Hf. destruct (rd_byte b j Hb Hj) as (x & Hr & Hx). exists (<[Z.to_nat (j / 8) := f x]> b). rewrite Hr. cbn [mbind option_bind].
  pose proof (lookup_lt_Some _ _ _ Hx) as Hlt. split; [|split].
  - unfold wr. assert (0 <= j / 8) by (apply Z.div_pos; unfold slot in Hj; lia). by ztrue ((0 <=? j / 8) && (j / 8 <? zlen b)).
  - unfold bitmap_ok in *. by rewrite length_insert.
  - intros k Hk. unfold bit. assert (0 <= k / 8 /\ 0 <= j / 8) as [H1 H2] by (split; apply Z.div_pos; unfold slot in *; lia).
    destruct (decide (k / 8 = j / 8)) as [Hq|Hq].
    + rewrite Hq, list_lookup_insert_eq, Hx by done. cbn. rewrite Hf by (apply Z.mod_pos_bound; lia).
      destruct (Z.eqb_spec (k mod 8) (j mod 8)) as [Hm|Hm].
      * assert (k = j) as -> by (rewrite (Z.div_mod k 8), (Z.div_mod j 8), Hq, Hm; lia). by rewrite Z.eqb_refl.
      * by destruct (Z.eqb_spec k j) as [->|].
    + rewrite list_lookup_insert_ne by lia. destruct (Z.eqb_spec k j) as [->|]; done.
Qed.

Lemma set_bit b j : bitmap_ok b -> slot j -> exists b', bitmapSetBit b j = Some b' /\ bitmap_ok b' /\ forall k, slot k -> bit b' k = if k =? j then true else bit b k.
Proof.
  intros Hb Hj. apply (change_bit b j (fun x => Z.lor x (Z.shiftl 1 (Z.land j 7))) true); [done..|]. intros x i Hi.
  rewrite Z.lor_spec, land_7, Z.shiftl_1_l, Z.pow2_bits_eqb by (apply Z.mod_pos_bound; lia). rewrite Z.eqb_sym. destruct (i =? j mod 8); [apply orb_true_r | apply orb_false_r].
Qed.

Lemma clear_bit b j : bitmap_ok b -> slot j -> exists b', bitmapClearBit b j = Some b' /\ bitmap_ok b' /\ forall k, slot k -> bit b' k = if k =? j then false else bit b k.
Proof.
  intros Hb Hj. apply (change_bit b j (fun x => Z.ldiff x (Z.shiftl 1 (Z.land j 7))) false); [done..|]. intros x i Hi.
  rewrite Z.ldiff_spec, land_7, Z.shiftl_1_l, Z.pow2_bits_eqb by (apply Z.mod_pos_bound; lia). rewrite Z.eqb_sym. destruct (i =? j mod 8); [apply andb_false_r | apply andb_true_r].
Qed.

(** How many slots a bitmap has. *)
Definition all_slots : list Z := seqZ 0 REDIS_CLUSTER_SLOTS.
Definition popcount (b : list Z) : Z := zlen (filter (fun j => bit b j = true) all_slots).

Lemma elem_of_slots j : j ∈ all_slots <-> slot j.
Proof. unfold all_slots. rewrite elem_of_seqZ. done. Qed.

Lemma filter_same (f g : Z -> bool) (l : list Z) : (forall k, k ∈ l -> g k = f k) -> filter (fun k => g k = true) l = filter (fun k => f k = true) l.
Proof.
  induction l as [|x l IH]; intros H; [done|]. assert (g x = f x) as Hx by (apply H; left). rewrite !filter_cons, Hx, IH by (intros k Hk; apply H; by right). done.
Qed.

Lemma count_change (f g : Z -> bool) (j : Z) (l : list Z) : NoDup l -> j ∈ l -> f j = false -> (forall k, k ∈ l -> g k = if k =? j then true else f k) ->
  zlen (filter (fun k => g k = true) l) = zlen (filter (fun k => f k = true) l) + 1.
Proof.
  intros Hnd. induction Hnd as [|x l Hx Hnd IH]; intros Hj Hf Hg; [by apply elem_of_nil in Hj|].
  assert (g x = if x =? j then true else f x) as Hgx by (apply Hg; left). rewrite !filter_cons.
  destruct (Z.eqb_spec x j) as [->|Hne].
  - rewrite Hf, Hgx, decide_True, decide_False by done. cbn [length]. assert (filter (fun k => g k = true) l = filter (fun k => f k = true) l) as ->; [|lia].
    apply filter_same. intros k Hk. rewrite (Hg k) by (by right). destruct (Z.eqb_spec k j) as [->|]; done.
  - assert (zlen (filter (fun k => g k = true) l) = zlen (filter (fun k => f k = true) l) + 1) as Hl.
    { apply IH; [|done|]. - by apply elem_of_cons in Hj as [?|?]. - intros k Hk. apply Hg. by right. }
    rewrite Hgx. destruct (decide (f x = true)); cbn [length]; lia.
Qed.

(** ** The invariant *)

Record table_ok (s : clusterState) : Prop := {
  to_me : exists my, nodes (tab s) !! myself s = Some my /\ nodeIsMaster my = negb (nodeIsSlave my) /\ (if nodeIsMaster my then slaveof my = None else exists m, slaveof my = Some m /\ m <> myself s);
  to_maps : forall n nd, nodes (tab s) !! n = Some nd -> bitmap_ok (n_slots nd) /\ numslots nd = popcount (n_slots nd);
  to_owner : forall j n, owner (tab s) !! j = Some n <-> slot j /\ exists nd, nodes (tab s) !! n = Some nd /\ bit (n_slots nd) j = true;
  to_slave : forall n nd, nodes (tab s) !! n = Some nd -> nodeIsSlave nd = true -> numslots nd = 0 /\ nodeIsMaster nd = false;
  to_ptr : forall n nd m, nodes (tab s) !! n = Some nd -> slaveof nd = Some m \/ m ∈ slaves nd -> is_Some (nodes (tab s) !! m);
}.

(** The table, who we are and the nodes that are known; the rest of the state is free. *)
Definition same_table (s s' : clusterState) : Prop := myself s' = myself s /\ nodes (tab s') = nodes (tab s) /\ owner (tab s') = owner (tab s).

Lemma table_ok_same s s' : same_table s s' -> table_ok s -> table_ok s'.
Proof. intros (H1 & H2 & H3) [K1 K2 K3 K4 K5]. constructor; rewrite ?H1, ?H2, ?H3; done. Qed.

Definition kept (s s' : clusterState) : Prop :=
  table_ok s' /\ myself s' = myself s /\ forall n, is_Some (nodes (tab s') !! n) <-> is_Some (nodes (tab s) !! n).

Lemma kept_refl s : table_ok s -> kept s s.
Proof. done. Qed.

Lemma kept_trans s s1 s2 : kept s s1 -> kept s1 s2 -> kept s s2.
Proof. intros (_ & H1 & H2) (K0 & K1 & K2). split_and!; [done | congruence | intros n; by rewrite K2]. Qed.

Lemma kept_same s s' : table_ok s -> same_table s s' -> kept s s'.
Proof. intros Hok Hs. pose proof (table_ok_same _ _ Hs Hok). destruct Hs as (H1 & H2 & _). split_and!; [done..|]. intros n. by rewrite H2. Qed.

Lemma kept_live s s' n : kept s s' -> is_Some (nodes (tab s) !! n) -> is_Some (nodes (tab s') !! n).
Proof. intros (_ & _ & H) Hn. by apply H. Qed.

(** A change of one node that leaves its slots alone. *)
Lemma kept_node s n nd nd' : table_ok s -> nodes (tab s) !! n = Some nd -> n_slots nd' = n_slots nd -> numslots nd' = numslots nd ->
  (nodeIsSlave nd' = true -> numslots nd = 0 /\ nodeIsMaster nd' = false) ->
  (forall m, slaveof nd' = Some m \/ m ∈ slaves nd' -> is_Some (nodes (tab s) !! m)) ->
  (n = myself s -> nodeIsMaster nd' = negb (nodeIsSlave nd') /\ (if nodeIsMaster nd' then slaveof nd' = None else exists m, slaveof nd' = Some m /\ m <> myself s)) ->
  kept s (with_tab (with_nodes (<[n := nd']>)) s).
Proof.
  intros [K1 K2 K3 K4 K5] Hn Hs Hc Hr Hp Hme. assert (forall m, is_Some (<[n:=nd']> (nodes (tab s)) !! m) <-> is_Some (nodes (tab s) !! m)) as Hd.
  { intros m. destruct (decide (n = m)) as [<-|Hne]; [rewrite lookup_insert_eq, Hn; split; eauto | by rewrite lookup_insert_ne]. }
  split_and!; [|done | exact Hd]. constructor; cbn [tab with_tab with_nodes nodes owner myself].
  - destruct K1 as (my & Hmy & H1 & H2). destruct (decide (n = myself s)) as [->|Hne].
    + exists nd'. rewrite lookup_insert_eq. destruct (Hme eq_refl). done.
    + exists my. by rewrite lookup_insert_ne.
  - intros m x Hm. apply lookup_insert_Some in Hm as [[<- <-]|[_ Hm]]; [rewrite Hs, Hc; by apply (K2 n) | by apply (K2 m)].
  - intros j m. rewrite K3. apply and_iff_compat_l. destruct (decide (n = m)) as [<-|Hne]; [rewrite lookup_insert_eq, Hn | by rewrite lookup_insert_ne].
    split; intros (x & [= <-] & Hb); eexists; (split; [done|]); congruence.
  - intros m x Hm Hsl. apply lookup_insert_Some in Hm as [[<- <-]|[_ Hm]]; [rewrite Hc; by apply Hr | by apply (K4 m)].
  - intros m x y Hm Hxy. apply Hd. apply lookup_insert_Some in Hm as [[<- <-]|[_ Hm]]; [by apply Hp | by apply (K5 m x)].
Qed.

(** What a change of the slots leaves alone. *)
Definition slots_only (s s' : clusterState) : Prop :=
  myself s' = myself s /\ elec s' = elec s /\ mf s' = mf s /\ out s' = out s /\ importing (tab s') = importing (tab s) /\
  forall n, option_Forall2 (fun nd nd' => with_n_slots (n_slots nd') (numslots nd') nd = nd') (nodes (tab s) !! n) (nodes (tab s') !! n).

Lemma slots_only_refl s : slots_only s s.
Proof. split_and!; try done. intros n. destruct (nodes (tab s) !! n) as [nd|]; constructor. by destruct nd. Qed.

Lemma slots_only_trans s s1 s2 : slots_only s s1 -> slots_only s1 s2 -> slots_only s s2.
Proof.
  intros (H1 & H2 & H3 & H4 & H5 & H6) (K1 & K2 & K3 & K4 & K5 & K6). split_and!; try congruence. intros n. specialize (H6 n). specialize (K6 n).
  destruct H6 as [nd nd1 H|]; inversion K6 as [? nd2 K|]; subst; constructor. rewrite <- K, <- H. done.
Qed.

Lemma slots_only_node s s' n nd : slots_only s s' -> nodes (tab s) !! n = Some nd -> exists nd', nodes (tab s') !! n = Some nd' /\ with_n_slots (n_slots nd') (numslots nd') nd = nd'.
Proof. intros (_ & _ & _ & _ & _ & H) Hn. specialize (H n). rewrite Hn in H. inversion H; subst. eauto. Qed.

Lemma slots_only_set s s' n nd b c f : nodes (tab s) !! n = Some nd -> s' = with_tab (with_owner f) (with_tab (with_nodes (<[n := with_n_slots b c nd]>)) s) -> slots_only s s'.
Proof.
  intros Hn ->. split_and!; try done. intros m. cbn. destruct (decide (n = m)) as [<-|Hne]; [rewrite lookup_insert_eq, Hn; by constructor|].
  rewrite lookup_insert_ne by done. destruct (nodes (tab s) !! m) as [x|]; constructor. by destruct x.
Qed.

Lemma popcount_nonneg b : 0 <= popcount b.
Proof. unfold popcount. lia. Qed.

Lemma popcount_pos b j : slot j -> bit b j = true -> 0 < popcount b.
Proof.
  intros Hj Hb. unfold popcount. assert (j ∈ filter (fun j => bit b j = true) all_slots) as H by (apply list_elem_of_filter; by rewrite elem_of_slots).
  destruct (filter _ _); [by apply elem_of_nil in H | cbn; lia].
Qed.

Lemma popcount_flip b b' j : slot j -> bit b j = false -> (forall k, slot k -> bit b' k = if k =? j then true else bit b k) -> popcount b' = popcount b + 1.
Proof.
  intros Hj Hb H. apply (count_change (bit b) (bit b') j all_slots); [apply NoDup_seqZ | by apply elem_of_slots | done |]. intros k Hk. by apply H, elem_of_slots.
Qed.

Lemma popcount_zero b : popcount b = 0 <-> forall j, slot j -> bit b j = false.
Proof.
  split.
  - intros H j Hj. destruct (bit b j) eqn:E1; [|done]. pose proof (popcount_pos b j Hj E1). lia.
  - intros H. unfold popcount. assert (filter (fun j => bit b j = true) all_slots = []) as ->; [|done].
    destruct (filter _ _) as [|j l] eqn:E1; [done|]. assert (j ∈ filter (fun j => bit b j = true) all_slots) as Hj by (rewrite E1; left).
    apply list_elem_of_filter in Hj as [Hb Hj%elem_of_slots]. by rewrite H in Hb.
Qed.

(** The state after a slot was given to [n], or taken from it. *)
Lemma kept_slots s n nd b c o : table_ok s -> nodes (tab s) !! n = Some nd -> bitmap_ok b -> c = popcount b -> (nodeIsSlave nd = true -> c = 0) ->
  (forall j m, o !! j = Some m <-> slot j /\ exists x, <[n := with_n_slots b c nd]> (nodes (tab s)) !! m = Some x /\ bit (n_slots x) j = true) ->
  kept s (with_tab (with_owner (fun _ => o)) (with_tab (with_nodes (<[n := with_n_slots b c nd]>)) s)).
Proof.
  intros [K1 K2 K3 K4 K5] Hn Hb -> Hs Ho. set (nd' := with_n_slots _ _ _) in *.
  assert (forall m, is_Some (<[n:=nd']> (nodes (tab s)) !! m) <-> is_Some (nodes (tab s) !! m)) as Hd.
  { intros m. destruct (decide (n = m)) as [<-|Hne]; [rewrite lookup_insert_eq, Hn; split; eauto | by rewrite lookup_insert_ne]. }
  split_and!; [|done | exact Hd]. constructor; cbn [tab with_tab with_nodes with_owner nodes owner myself].
  - destruct K1 as (my & Hmy & H1 & H2). destruct (decide (n = myself s)) as [->|Hne]; [|exists my; by rewrite lookup_insert_ne].
    exists nd'. rewrite lookup_insert_eq. assert (my = nd) as -> by congruence. done.
  - intros m x Hm. apply lookup_insert_Some in Hm as [[<- <-]|[_ Hm]]; [done | by apply (K2 m)].
  - exact Ho.
  - intros m x Hm Hsl. apply lookup_insert_Some in Hm as [[<- <-]|[_ Hm]]; [|by apply (K4 m)]. split; [by apply Hs | by apply (K4 n nd)].
  - intros m x y Hm Hxy. apply Hd. apply lookup_insert_Some in Hm as [[<- <-]|[_ Hm]]; [by apply (K5 n nd) | by apply (K5 m x)].
Qed.

(** ** Giving and taking slots *)

Lemma r_set_slot s n nd j (Q : clusterState -> bool -> Prop) : table_ok s -> nodes (tab s) !! n = Some nd -> slot j -> 
  (forall b', bitmap_ok b' -> (forall k, slot k -> bit b' k = if k =? j then true else bit (n_slots nd) k) ->
     Q (with_tab (with_nodes (<[n := with_n_slots b' (if bit (n_slots nd) j then numslots nd else numslots nd + 1) nd]>)) s) (bit (n_slots nd) j)) ->
  cwp (clusterNodeSetSlotBit n j) s Q.
Proof.
  intros Hok Hn Hj HQ. destruct (to_maps s Hok n nd Hn) as [Hb _]. unfold clusterNodeSetSlotBit. apply cwp_bind, (cwp_node n nd); [done|].
  apply cwp_bind, (cwp_lift _ (bit (n_slots nd) j)); [by apply test_bit|]. destruct (set_bit (n_slots nd) j Hb Hj) as (b' & Hset & Hb' & Hbits).
  apply cwp_bind, (cwp_lift _ b'); [done|]. apply cwp_bind, (cwp_mod_node n nd); [done|]. apply cwp_ret. by apply HQ.
Qed.

Lemma r_clear_slot s n nd j (Q : clusterState -> bool -> Prop) : table_ok s -> nodes (tab s) !! n = Some nd -> slot j -> 
  (forall b', bitmap_ok b' -> (forall k, slot k -> bit b' k = if k =? j then false else bit (n_slots nd) k) ->
     Q (with_tab (with_nodes (<[n := with_n_slots b' (if bit (n_slots nd) j then numslots nd - 1 else numslots nd) nd]>)) s) (bit (n_slots nd) j)) ->
  cwp (clusterNodeClearSlotBit n j) s Q.
Proof.
  intros Hok Hn Hj HQ. destruct (to_maps s Hok n nd Hn) as [Hb _]. unfold clusterNodeClearSlotBit. apply cwp_bind, (cwp_node n nd); [done|].
  apply cwp_bind, (cwp_lift _ (bit (n_slots nd) j)); [by apply test_bit|]. destruct (clear_bit (n_slots nd) j Hb Hj) as (b' & Hset & Hb' & Hbits).
  apply cwp_bind, (cwp_lift _ b'); [done|]. apply cwp_bind, (cwp_mod_node n nd); [done|]. apply cwp_ret. by apply HQ.
Qed.

Lemma r_get_slot s n nd j (Q : clusterState -> bool -> Prop) : table_ok s -> nodes (tab s) !! n = Some nd -> slot j -> Q s (bit (n_slots nd) j) -> cwp (clusterNodeGetSlotBit n j) s Q.
Proof. intros Hok Hn Hj HQ. apply cwp_bind, (cwp_node n nd); [done|]. apply (cwp_lift _ (bit (n_slots nd) j)); [|done]. apply test_bit; [by apply (to_maps s Hok n) | done]. Qed.

Lemma r_addSlot s n nd j (Q : clusterState -> bool -> Prop) : table_ok s -> nodes (tab s) !! n = Some nd -> nodeIsSlave nd = false -> slot j -> owner (tab s) !! j = None ->
  (forall s', kept s s' -> slots_only s s' -> owner (tab s') = <[j := n]> (owner (tab s)) -> Q s' true) -> cwp (clusterAddSlot n j) s Q.
Proof.
  intros Hok Hn Hs Hj Ho HQ. unfold clusterAddSlot. apply cwp_bind, cwp_get. rewrite Ho.
  assert (bit (n_slots nd) j = false) as Hbit.
  { destruct (bit (n_slots nd) j) eqn:E1; [|done]. rewrite (proj2 (to_owner s Hok j n)) in Ho by eauto. done. }
  apply cwp_bind, (r_set_slot s n nd j); [done..|]. intros b' Hb' Hbits. rewrite Hbit. apply cwp_bind, cwp_modify, cwp_ret.
  apply HQ; [| |done]; [|by eapply (slots_only_set s _ n nd)]. apply (kept_slots s n nd b' (numslots nd + 1) (<[j := n]> (owner (tab s)))); [done..| | by rewrite Hs |].
  - destruct (to_maps s Hok n nd Hn) as [_ ->]. by rewrite (popcount_flip (n_slots nd) b' j).
  - intros k m. rewrite lookup_insert_Some. destruct (decide (j = k)) as [<-|Hne].
    + split.
      * intros [[_ <-]|[? _]]; [|done]. split; [done|]. eexists. rewrite lookup_insert_eq. split; [done|]. cbn. by rewrite Hbits, Z.eqb_refl.
      * intros (_ & x & Hx & Hbx). left. split; [done|]. apply lookup_insert_Some in Hx as [[<- _]|[Hnm Hx]]; [done|].
        rewrite (proj2 (to_owner s Hok j m)) in Ho by eauto. done.
    + trans (owner (tab s) !! k = Some m); [tauto|]. rewrite (to_owner s Hok k m). split; intros (Hk & x & Hx & Hbx); (split; [done|]).
      * destruct (decide (n = m)) as [<-|Hnm]; [|exists x; by rewrite lookup_insert_ne]. assert (x = nd) as -> by congruence. eexists. rewrite lookup_insert_eq. split; [done|].
        cbn. rewrite Hbits by done. by destruct (Z.eqb_spec k j).
      * apply lookup_insert_Some in Hx as [[<- <-]|[Hnm Hx]]; [|by exists x]. exists nd. split; [done|]. cbn in Hbx. rewrite Hbits in Hbx by done. by destruct (Z.eqb_spec k j).
Qed.

Lemma r_delSlot s j n (Q : clusterState -> bool -> Prop) : table_ok s -> owner (tab s) !! j = Some n ->
  (forall s', kept s s' -> slots_only s s' -> owner (tab s') = base.delete j (owner (tab s)) -> Q s' true) -> cwp (clusterDelSlot j) s Q.
Proof.
  intros Hok Ho HQ. pose proof (proj1 (to_owner s Hok j n) Ho) as (Hj & nd & Hn & Hbit). unfold clusterDelSlot. apply cwp_bind, cwp_get. rewrite Ho.
  apply cwp_bind, (r_clear_slot s n nd j); [done..|]. intros b' Hb' Hbits. rewrite Hbit. apply cwp_bind, cwp_assert; [done|]. apply cwp_bind, cwp_modify, cwp_ret.
  assert (popcount (n_slots nd) = popcount b' + 1) as Hpop.
  { apply (popcount_flip b' (n_slots nd) j); [done | by rewrite Hbits, Z.eqb_refl |]. intros k Hk. rewrite Hbits by done. by destruct (Z.eqb_spec k j) as [->|]. }
  destruct (to_maps s Hok n nd Hn) as [_ Hcount].
  apply HQ; [| |done]; [|by eapply (slots_only_set s _ n nd)]. apply (kept_slots s n nd b' (numslots nd - 1) (base.delete j (owner (tab s)))); [done.. | lia | |].
  - intros Hsl. destruct (to_slave s Hok n nd Hn Hsl) as [H0 _]. pose proof (popcount_nonneg b'). lia.
  - intros k m. rewrite lookup_delete_Some. split.
    + intros [Hne Hk]. apply (to_owner s Hok) in Hk as (Hk & x & Hx & Hbx). split; [done|]. destruct (decide (n = m)) as [<-|Hnm]; [|exists x; by rewrite lookup_insert_ne].
      assert (x = nd) as -> by congruence. eexists. rewrite lookup_insert_eq. split; [done|]. cbn. rewrite Hbits by done. by destruct (Z.eqb_spec k j).
    + intros (Hk & x & Hx & Hbx). apply lookup_insert_Some in Hx as [[<- <-]|[Hnm Hx]].
      * cbn in Hbx. rewrite Hbits in Hbx by done. destruct (Z.eqb_spec k j) as [->|Hne]; [done|]. split; [done|]. apply (to_owner s Hok). eauto.
      * assert (owner (tab s) !! k = Some m) as Hkm by (apply (to_owner s Hok); eauto). split; [|done]. intros <-. congruence.
Qed.

(** A node without slots owns none. *)
Lemma numslots_zero s n nd : table_ok s -> nodes (tab s) !! n = Some nd -> (numslots nd = 0 <-> forall j, owner (tab s) !! j <> Some n).
Proof.
  intros Hok Hn. destruct (to_maps s Hok n nd Hn) as [_ ->]. rewrite popcount_zero. split.
  - intros H j Ho. apply (to_owner s Hok) in Ho as (Hj & x & Hx & Hb). assert (x = nd) as -> by congruence. by rewrite H in Hb.
  - intros H j Hj. destruct (bit (n_slots nd) j) eqn:E1; [|done]. destruct (H j). apply (to_owner s Hok). eauto.
Qed.

Lemma owner_bit s n nd j : table_ok s -> nodes (tab s) !! n = Some nd -> slot j -> bit (n_slots nd) j = bool_decide (owner (tab s) !! j = Some n).
Proof.
  intros Hok Hn Hj. destruct (bit (n_slots nd) j) eqn:E1.
  - symmetry. apply bool_decide_eq_true, (to_owner s Hok). eauto.
  - symmetry. apply bool_decide_eq_false. intros (_ & x & Hx & Hb)%(to_owner s Hok). congruence.
Qed.

Lemma r_delNodeSlots s n nd (Q : clusterState -> Z -> Prop) : table_ok s -> nodes (tab s) !! n = Some nd ->
  (forall s', kept s s' -> slots_only s s' -> (forall j, owner (tab s') !! j = if bool_decide (owner (tab s) !! j = Some n) then None else owner (tab s) !! j) -> Q s' REDIS_CLUSTER_SLOTS) ->
  cwp (clusterDelNodeSlots n) s Q.
Proof.
  intros Hok Hn HQ. unfold clusterDelNodeSlots.
  apply (cwp_slots _ (fun k s1 a => a = k /\ kept s s1 /\ slots_only s s1 /\
    forall j, owner (tab s1) !! j = if (j <? k) && bool_decide (owner (tab s) !! j = Some n) then None else owner (tab s) !! j)).
  - split_and!; [done | by apply kept_refl | apply slots_only_refl |]. intros j. destruct (j <? 0) eqn:E1; [|done]. zbool.
    rewrite bool_decide_eq_false_2; [done|]. intros [Hj _]%(to_owner s Hok). unfold slot in Hj. lia.
  - intros k s1 a Hk (-> & Hkept & Hso & Ho). destruct (slots_only_node _ _ n nd Hso Hn) as (nd1 & Hn1 & _). pose proof (proj1 Hkept) as Hok1.
    apply cwp_bind, (r_get_slot s1 n nd1 k); [done..|]. rewrite (owner_bit s1 n nd1 k Hok1 Hn1 Hk), Ho. zfalse (k <? k). cbn [andb].
    assert (forall j, (if (j <? k + 1) && bool_decide (owner (tab s) !! j = Some n) then None else owner (tab s) !! j) =
      if (j =? k) && bool_decide (owner (tab s) !! k = Some n) then None else owner (tab s1) !! j) as Hnext.
    { intros j. rewrite Ho. destruct (Z.eqb_spec j k) as [->|Hne]; cbn [andb]; [ztrue (k <? k + 1); zfalse (k <? k); cbn [andb]; by destruct (bool_decide _)|].
      destruct (Z.ltb_spec j k), (Z.ltb_spec j (k + 1)); try lia; done. }
    destruct (bool_decide (owner (tab s) !! k = Some n)) eqn:Eo.
    + apply bool_decide_eq_true in Eo. apply cwp_bind, cwp_bind, (r_delSlot s1 k n); [done | rewrite Ho; zfalse (k <? k); exact Eo |].
      intros s2 Hk2 Hso2 Ho2. apply cwp_ret, cwp_ret. split_and!; [done | by eapply kept_trans | by eapply slots_only_trans |].
      intros j. rewrite Hnext, Ho2. cbn [andb]. rewrite andb_true_r. destruct (Z.eqb_spec j k) as [->|Hne]; [by rewrite lookup_delete_eq | by rewrite lookup_delete_ne].
    + apply cwp_bind, cwp_ret, cwp_ret. split_and!; [done..|]. intros j. by rewrite Hnext, andb_false_r.
  - intros s1 a (-> & Hkept & Hso & Ho). apply HQ; [done..|]. intros j. rewrite Ho. destruct (bool_decide _) eqn:E1; [|by rewrite andb_false_r].
    apply bool_decide_eq_true in E1. pose proof (proj1 (to_owner s Hok j n) E1) as [Hj _]. unfold slot in Hj. by ztrue (j <? REDIS_CLUSTER_SLOTS).
Qed.

(** ** Slots claimed by another node *)

(** Does [sender] get the slot [j] with a claim made under the epoch [e]? *)
Definition claims (s : clusterState) (sender : node_name) (e : Z) (slots : list Z) (j : Z) : bool :=
  bit slots j && bool_decide (owner (tab s) !! j <> Some sender) && bool_decide (importing (tab s) !! j = None) &&
  match owner (tab s) !! j with None => true | Some o => match nodes (tab s) !! o with Some nd => configEpoch nd <? e | None => false end end.

Record claimed (s : clusterState) (sender : node_name) (e : Z) (slots : list Z) (curmaster : option node_name) (k : Z) (s1 : clusterState) (a : bool * list Z) : Prop := {
  cl_kept : kept s s1;
  cl_slots : slots_only s s1;
  cl_owner : forall j, owner (tab s1) !! j = if (0 <=? j) && (j <? k) && claims s sender e slots j then Some sender else owner (tab s) !! j;
  cl_new : a.1 = true <-> exists j, 0 <= j < k /\ claims s sender e slots j = true /\ owner (tab s) !! j = curmaster;
  cl_dirty : forall j, j ∈ a.2 <-> 0 <= j < k /\ claims s sender e slots j = true /\ owner (tab s) !! j = Some (myself s) /\ j ∈ keyed (out s);
}.

Lemma below_next (P : Z -> Prop) k : (exists j, 0 <= j < k + 1 /\ P j) <-> 0 <= k + 1 - 1 /\ P k \/ exists j, 0 <= j < k /\ P j.
Proof.
  split.
  - intros (j & Hj & HP). destruct (decide (j = k)) as [->|]; [left; split; [lia | done] | right; exists j; split; [lia | done]].
  - intros [[Hk HP]|(j & Hj & HP)]; [exists k | exists j]; (split; [lia | done]).
Qed.

Lemma slots_only_epoch s s1 o : slots_only s s1 -> configEpoch <$> nodes (tab s1) !! o = configEpoch <$> nodes (tab s) !! o.
Proof. intros (_ & _ & _ & _ & _ & H). destruct (H o) as [nd nd' Hn|]; [|done]. cbn. f_equal. exact (eq_sym (f_equal configEpoch Hn)). Qed.

Lemma slots_only_slave s s1 n nd : slots_only s s1 -> nodes (tab s) !! n = Some nd -> exists nd1, nodes (tab s1) !! n = Some nd1 /\ n_flags nd1 = n_flags nd /\ slaveof nd1 = slaveof nd /\ slaves nd1 = slaves nd.
Proof.
  intros Hso Hn. destruct (slots_only_node _ _ n nd Hso Hn) as (nd1 & Hn1 & H). exists nd1.
  split_and!; [done | exact (eq_sym (f_equal n_flags H)) | exact (eq_sym (f_equal slaveof H)) | exact (eq_sym (f_equal slaves H))].
Qed.

(** Moving a slot to [sender]. *)
Lemma r_move_slot s sender nd j (Q : clusterState -> bool -> Prop) : table_ok s -> nodes (tab s) !! sender = Some nd -> nodeIsSlave nd = false -> slot j ->
  (forall s', kept s s' -> slots_only s s' -> owner (tab s') = <[j := sender]> (owner (tab s)) -> Q s' true) -> cwp (clusterDelSlot j) s (fun s' _ => cwp (clusterAddSlot sender j) s' Q).
Proof.
  intros Hok Hn Hs Hj HQ. assert (forall s1, kept s s1 -> slots_only s s1 -> owner (tab s1) = base.delete j (owner (tab s)) -> cwp (clusterAddSlot sender j) s1 Q) as Hadd.
  { intros s1 Hk1 Hso1 Ho1. destruct (slots_only_slave _ _ sender nd Hso1 Hn) as (nd1 & Hn1 & Hf & _). eapply (r_addSlot s1 sender nd1 j); [apply Hk1 | done | unfold nodeIsSlave in *; by rewrite Hf | done | by rewrite Ho1, lookup_delete_eq |].
    intros s2 Hk2 Hso2 Ho2. apply HQ; [by eapply kept_trans | by eapply slots_only_trans |]. by rewrite Ho2, Ho1, insert_delete_eq. }
  destruct (owner (tab s) !! j) as [o|] eqn:Eo.
  - apply (r_delSlot s j o); [done..|]. intros s1 Hk1 Hso1 Ho1. by apply Hadd.
  - unfold clusterDelSlot. apply cwp_bind, cwp_get. rewrite Eo. apply cwp_ret, Hadd; [by apply kept_refl | apply slots_only_refl | by rewrite delete_id].
Qed.

Lemma cwp_todo f s (Q : clusterState -> unit -> Prop) : Q (with_todo (add_flags f) s) tt -> cwp (clusterDoBeforeSleep f) s Q.
Proof. done. Qed.

Lemma slots_only_todo f s : slots_only s (with_todo f s).
Proof. destruct (slots_only_refl s) as (_ & _ & _ & _ & _ & H). by split_and!. Qed.

(** One more slot has been looked at, and nothing changed. *)
Lemma claimed_skip s sender e slots cm k s1 a : claimed s sender e slots cm k s1 a -> 0 <= k -> claims s sender e slots k = false -> claimed s sender e slots cm (k + 1) s1 a.
Proof.
  intros [H1 H2 H3 H4 H5] Hk Hc. constructor; [done | done | | |].
  - intros j. rewrite H3. destruct (decide (j = k)) as [->|Hne]; [by rewrite Hc, !andb_false_r|]. by replace (j <? k + 1) with (j <? k) by (destruct (Z.ltb_spec j k), (Z.ltb_spec j (k + 1)); lia).
  - rewrite H4. split; intros (j & Hj & Hcl & Ho); exists j; (split; [|done]); [lia|]. assert (j <> k) by congruence. lia.
  - intros j. rewrite H5. split; intros (Hj & Hcl & Ho); (split; [|done]); [lia|]. assert (j <> k) by congruence. lia.
Qed.

Lemma claimed_take s sender e slots cm k s1 s2 nm dirty : claimed s sender e slots cm k s1 (nm, dirty) -> 0 <= k -> claims s sender e slots k = true ->
  kept s1 s2 -> slots_only s1 s2 -> owner (tab s2) = <[k := sender]> (owner (tab s1)) ->
  claimed s sender e slots cm (k + 1) s2 (nm || bool_decide (owner (tab s) !! k = cm),
    if bool_decide (owner (tab s) !! k = Some (myself s)) && bool_decide (k ∈ keyed (out s)) then dirty ++ [k] else dirty).
Proof.
  intros [H1 H2 H3 H4 H5] Hk Hc K1 K2 K3. cbn [fst snd] in *. constructor; cbn [fst snd]; [by eapply kept_trans | by eapply slots_only_trans | | |].
  - intros j. rewrite K3. destruct (decide (k = j)) as [<-|Hne]; [rewrite lookup_insert_eq, Hc; by ztrue (0 <=? k); ztrue (k <? k + 1)|].
    rewrite lookup_insert_ne, H3 by done. by replace (j <? k + 1) with (j <? k) by (destruct (Z.ltb_spec j k), (Z.ltb_spec j (k + 1)); lia).
  - rewrite orb_true_iff, bool_decide_eq_true, H4. split.
    + intros [(j & Hj & Hcl)|Ho]; [exists j | exists k]; (split; [lia | done]).
    + intros (j & Hj & Hcl & Ho). destruct (decide (j = k)) as [->|Hne]; [by right|]. left. exists j. split; [lia | done].
  - intros j. trans (j ∈ dirty \/ j = k /\ owner (tab s) !! k = Some (myself s) /\ k ∈ keyed (out s)).
    + repeat case_bool_decide; cbn [andb]; rewrite ?elem_of_app, ?list_elem_of_singleton; tauto.
    + rewrite H5. split.
      * intros [(Hj & Hcl & Ho)|(-> & Ho)]; (split; [lia | done]).
      * intros (Hj & Hcl & Ho). destruct (decide (j = k)) as [->|Hne]; [by right|]. left. split; [lia | done].
Qed.

Lemma r_claim_slot s sender nd e slots cm k s1 a : bitmap_ok slots -> nodes (tab s) !! sender = Some nd -> nodeIsSlave nd = false -> slot k ->
  claimed s sender e slots cm k s1 a -> cwp (claim_slot sender e slots cm k a) s1 (claimed s sender e slots cm (k + 1)).
Proof.
  intros Hb Hn Hs Hk Hcl. pose proof Hcl as [Hkept Hso Ho _ _]. pose proof (proj1 Hkept) as Hok1. destruct a as [nm dirty]. unfold claim_slot.
  assert (owner (tab s1) !! k = owner (tab s) !! k) as Hok by (rewrite Ho; by zfalse (k <? k); rewrite andb_false_r).
  pose proof Hso as (Hme & _ & _ & Hout & Himp & _). assert (0 <= k) as Hk0 by (unfold slot in Hk; lia).
  apply cwp_bind, (cwp_lift _ (bit slots k)); [by apply test_bit|]. destruct (bit slots k) eqn:Ebit; cbn [negb]; [|apply cwp_ret, claimed_skip; [done.. | by unfold claims; rewrite Ebit]].
  apply cwp_bind, cwp_get. rewrite Hok, Himp. destruct (bool_decide (owner (tab s) !! k = Some sender)) eqn:Esame.
  { apply bool_decide_eq_true in Esame. apply cwp_ret, claimed_skip; [done..|]. unfold claims. rewrite bool_decide_eq_false_2, andb_false_r; [done | intros Hne; by apply Hne]. }
  destruct (bool_decide (is_Some (importing (tab s) !! k))) eqn:Eimp.
  { apply bool_decide_eq_true in Eimp. apply cwp_ret, claimed_skip; [done..|]. unfold claims. rewrite (bool_decide_eq_false_2 (importing _ !! _ = None)), !andb_false_r; [done|].
    intros Hnone. rewrite Hnone in Eimp. by destruct Eimp. }
  assert (claims s sender e slots k = match owner (tab s) !! k with None => true | Some o => match nodes (tab s) !! o with Some nd => configEpoch nd <? e | None => false end end) as Hclaims.
  { unfold claims. rewrite Ebit, (bool_decide_eq_true_2 (_ <> _)) by (by apply bool_decide_eq_false in Esame). rewrite (bool_decide_eq_true_2 (importing _ !! _ = None)); [done|].
    apply bool_decide_eq_false in Eimp. by destruct (importing (tab s) !! k); [destruct Eimp; eauto|]. }
  apply cwp_bind. apply (cwp_mono _ _ (fun s' b => s' = s1 /\ b = claims s sender e slots k)).
  { rewrite Hclaims. destruct (owner (tab s) !! k) as [o|] eqn:Eo; [|by apply cwp_ret].
    pose proof (slots_only_epoch _ _ o Hso) as Hep. destruct (proj1 (to_owner s1 Hok1 k o)) as (_ & x & Hx & _); [by rewrite Hok|].
    apply cwp_bind, (cwp_node o x); [done|]. apply cwp_ret. split; [done|]. rewrite Hx in Hep. destruct (nodes (tab s) !! o) as [y|]; [|done]. cbn in Hep. by injection Hep as ->. }
  intros s' b [-> ->]. destruct (claims s sender e slots k) eqn:Ec; cbn [negb]; [|by apply cwp_ret, claimed_skip].
  destruct (slots_only_slave _ _ sender nd Hso Hn) as (nd1 & Hn1 & Hf & _). rewrite Hme, Hout.
  apply cwp_bind. eapply cwp_mono; [apply (r_move_slot s1 sender nd1 k (fun s2 _ => kept s1 s2 /\ slots_only s1 s2 /\ owner (tab s2) = <[k := sender]> (owner (tab s1))))|].
  - done.
  - done.
  - unfold nodeIsSlave in *. by rewrite Hf.
  - done.
  - done.
  - intros s2 b2 H2. apply cwp_bind. eapply cwp_mono; [exact H2|]. intros s3 b3 (Hk3 & Hso3 & Ho3). apply cwp_bind, cwp_todo, cwp_ret.
    eapply claimed_take; [exact Hcl | done | done | | | exact Ho3].
    + eapply kept_trans; [exact Hk3 | by apply kept_same; [apply Hk3|]].
    + eapply slots_only_trans; [exact Hso3 | apply slots_only_todo].
Qed.

Lemma r_claims s sender nd e slots cm (Q : clusterState -> bool * list Z -> Prop) : table_ok s -> bitmap_ok slots -> nodes (tab s) !! sender = Some nd -> nodeIsSlave nd = false ->
  (forall s' a, claimed s sender e slots cm REDIS_CLUSTER_SLOTS s' a -> Q s' a) -> cwp (for_slots (claim_slot sender e slots cm) (false, [])) s Q.
Proof.
  intros Hok Hb Hn Hs HQ. apply (cwp_slots _ (fun k s1 a => claimed s sender e slots cm k s1 a)); [| |exact HQ].
  - constructor; [by apply kept_refl | apply slots_only_refl | | |]; cbn [fst snd].
    + intros j. destruct (Z.leb_spec 0 j), (Z.ltb_spec j 0); try lia; done.
    + split; [done|]. intros (j & Hj & _). lia.
    + intros j. split; [by intros Hj%elem_of_nil|]. intros (Hj & _). lia.
  - intros k s1 a Hk Hcl. by eapply r_claim_slot.
Qed.

(** ** Masters and slaves *)

Lemma has_pow f i : 0 <= i -> has f (2 ^ i) = Z.testbit f i.
Proof. intros Hi. rewrite <- Z.shiftl_1_l. by apply has_bit. Qed.

Lemma has_add f i k : 0 <= i -> 0 <= k -> has (add_flags (2 ^ i) f) (2 ^ k) = has f (2 ^ k) || (i =? k).
Proof. intros Hi Hk. rewrite !has_pow by done. unfold add_flags. by rewrite Z.lor_spec, Z.pow2_bits_eqb by done. Qed.

Lemma has_del f i k : 0 <= i -> 0 <= k -> has (del_flags (2 ^ i) f) (2 ^ k) = has f (2 ^ k) && negb (i =? k).
Proof. intros Hi Hk. rewrite !has_pow by done. unfold del_flags. by rewrite Z.ldiff_spec, Z.pow2_bits_eqb by done. Qed.

(** The flags that a node is left with. *)
Lemma flags_master f : let f' := add_flags REDIS_NODE_MASTER (del_flags REDIS_NODE_SLAVE f) in has f' REDIS_NODE_MASTER = true /\ has f' REDIS_NODE_SLAVE = false.
Proof.
  cbn zeta. change REDIS_NODE_MASTER with (2 ^ 0). change REDIS_NODE_SLAVE with (2 ^ 1). rewrite !has_add, !has_del by lia.
  cbn. by rewrite orb_true_r, andb_false_r.
Qed.

Lemma flags_slave f : let f' := add_flags REDIS_NODE_SLAVE (del_flags REDIS_NODE_MASTER f) in has f' REDIS_NODE_MASTER = false /\ has f' REDIS_NODE_SLAVE = true.
Proof.
  cbn zeta. change REDIS_NODE_MASTER with (2 ^ 0). change REDIS_NODE_SLAVE with (2 ^ 1). rewrite !has_add, !has_del by lia.
  cbn. by rewrite orb_true_r, andb_false_r.
Qed.

(** Only the lists of slaves change. *)
Definition links_only (s s' : clusterState) : Prop :=
  myself s' = myself s /\ elec s' = elec s /\ mf s' = mf s /\ out s' = out s /\ importing (tab s') = importing (tab s) /\ owner (tab s') = owner (tab s) /\
  forall n, option_Forall2 (fun nd nd' => with_slaves (slaves nd') nd = nd') (nodes (tab s) !! n) (nodes (tab s') !! n).

Lemma links_only_refl s : links_only s s.
Proof. split_and!; try done. intros n. destruct (nodes (tab s) !! n) as [nd|]; constructor. by destruct nd. Qed.

Lemma links_only_node s s' n nd : links_only s s' -> nodes (tab s) !! n = Some nd -> exists l, nodes (tab s') !! n = Some (with_slaves l nd).
Proof. intros (_ & _ & _ & _ & _ & _ & H) Hn. specialize (H n). rewrite Hn in H. inversion H as [? nd' Heq|]; subst. exists (slaves nd'). by rewrite Heq. Qed.

Lemma r_with_slaves s n nd l (Q : clusterState -> unit -> Prop) : table_ok s -> nodes (tab s) !! n = Some nd -> (forall m, m ∈ l -> is_Some (nodes (tab s) !! m)) ->
  (forall s', kept s s' -> links_only s s' -> Q s' tt) -> cwp (mod_node n (with_slaves l)) s Q.
Proof.
  intros Hok Hn Hl HQ. apply (cwp_mod_node n nd); [done|]. apply HQ.
  - apply (kept_node s n nd (with_slaves l nd)); try done.
    + by apply (to_slave s Hok n nd).
    + intros m [Hm|Hm]; [by apply (to_ptr s Hok n nd); [|left] | by apply Hl].
    + intros ->. destruct (to_me s Hok) as (my & Hmy & H). assert (my = nd) as -> by congruence. exact H.
  - split_and!; try done. intros m. cbn. destruct (decide (n = m)) as [<-|Hne]; [rewrite lookup_insert_eq, Hn; by constructor|].
    rewrite lookup_insert_ne by done. destruct (nodes (tab s) !! m) as [x|]; constructor. by destruct x.
Qed.

Lemma r_removeSlave s m mnd n (Q : clusterState -> bool -> Prop) : table_ok s -> nodes (tab s) !! m = Some mnd ->
  (forall s' b, kept s s' -> links_only s s' -> Q s' b) -> cwp (clusterNodeRemoveSlave m n) s Q.
Proof.
  intros Hok Hm HQ. unfold clusterNodeRemoveSlave. apply cwp_bind, (cwp_node m mnd); [done|]. destruct (list_find _ (slaves mnd)) as [[j x]|]; [|apply cwp_ret, HQ; [by apply kept_refl | apply links_only_refl]].
  apply cwp_bind, (r_with_slaves s m mnd); [done..| |].
  - intros y Hy. apply (to_ptr s Hok m mnd); [done|]. right. rewrite (delete_take_drop (slaves mnd) j) in Hy. apply elem_of_app in Hy as [Hy|Hy]; [by eapply elem_of_take in Hy as (i & ? & _); eapply list_elem_of_lookup_2 | ].
    apply list_elem_of_lookup in Hy as [i Hi]. rewrite lookup_drop in Hi. by eapply list_elem_of_lookup_2.
  - intros s' Hk Hl. apply cwp_ret. by apply HQ.
Qed.

Lemma r_addSlave s m mnd n (Q : clusterState -> bool -> Prop) : table_ok s -> nodes (tab s) !! m = Some mnd -> is_Some (nodes (tab s) !! n) ->
  (forall s' b, kept s s' -> links_only s s' -> Q s' b) -> cwp (clusterNodeAddSlave m n) s Q.
Proof.
  intros Hok Hm Hn HQ. unfold clusterNodeAddSlave. apply cwp_bind, (cwp_node m mnd); [done|]. destruct (decide _); [apply cwp_ret, HQ; [by apply kept_refl | apply links_only_refl]|].
  apply cwp_bind, (r_with_slaves s m mnd); [done..| |].
  - intros y [Hy| ->%list_elem_of_singleton]%elem_of_app; [|done]. apply (to_ptr s Hok m mnd); [done | by right].
  - intros s' Hk Hl. apply cwp_ret. by apply HQ.
Qed.

(** The old master forgets a slave, if there is one. *)
Lemma r_leave s nd n (Q : clusterState -> unit -> Prop) : table_ok s -> (forall m, slaveof nd = Some m -> is_Some (nodes (tab s) !! m)) ->
  (forall s', kept s s' -> links_only s s' -> Q s' tt) -> cwp (match slaveof nd with Some m => clusterNodeRemoveSlave m n;; mret tt | None => mret tt end) s Q.
Proof.
  intros Hok Hm HQ. destruct (slaveof nd) as [m|]; [|apply cwp_ret, HQ; [by apply kept_refl | apply links_only_refl]]. destruct (Hm m eq_refl) as [mnd Hmnd].
  apply cwp_bind, (r_removeSlave s m mnd); [done..|]. intros s' b Hk Hl. apply cwp_ret. by apply HQ.
Qed.

(** A node that becomes a master. *)
Definition promoted (nd : clusterNode) : clusterNode := with_slaveof None (with_n_flags (add_flags REDIS_NODE_MASTER) (with_n_flags (del_flags REDIS_NODE_SLAVE) nd)).

Lemma r_setNodeAsMaster s n nd (Q : clusterState -> unit -> Prop) : table_ok s -> nodes (tab s) !! n = Some nd ->
  (forall s' nd', kept s s' -> nodes (tab s') !! n = Some nd' -> nodeIsMaster nd' = true -> nodeIsSlave nd' = false ->
     owner (tab s') = owner (tab s) -> out s' = out s -> elec s' = elec s -> configEpoch nd' = configEpoch nd -> 
     (forall m x, m <> n -> nodes (tab s) !! m = Some x -> exists l, nodes (tab s') !! m = Some (with_slaves l x)) -> Q s' tt) -> cwp (clusterSetNodeAsMaster n) s Q.
Proof.
  intros Hok Hn HQ. unfold clusterSetNodeAsMaster. apply cwp_bind, (cwp_node n nd); [done|]. destruct (nodeIsMaster nd) eqn:Em.
  { apply cwp_ret. apply (HQ s nd); try done.
    - destruct (nodeIsSlave nd) eqn:Es; [|done]. destruct (to_slave s Hok n nd Hn Es) as [_ ?]. congruence.
    - intros m x _ Hx. exists (slaves x). rewrite Hx. by destruct x. }
  apply cwp_bind, (r_leave s nd n); [done | intros m Hm; apply (to_ptr s Hok n nd); [done | by left] |]. intros s1 Hk1 Hl1.
  destruct (links_only_node s s1 n nd Hl1 Hn) as [l Hn1]. set (nd1 := with_slaves l nd) in *. pose proof Hl1 as (E1 & E2 & _ & E4 & _ & E6 & _).
  apply cwp_bind, (cwp_mod_node n nd1); [done|]. apply cwp_bind, (cwp_mod_node n (with_n_flags (del_flags REDIS_NODE_SLAVE) nd1)); [apply lookup_insert_eq|].
  apply cwp_bind, (cwp_mod_node n (with_n_flags (add_flags REDIS_NODE_MASTER) (with_n_flags (del_flags REDIS_NODE_SLAVE) nd1))); [apply lookup_insert_eq|].
  apply cwp_todo. destruct (flags_master (n_flags nd1)) as [F1 F2]. set (s2 := with_todo _ _). assert (nodes (tab s2) = <[n := promoted nd1]> (nodes (tab s1))) as Hs2.
  { cbn [s2 tab with_todo with_tab with_nodes nodes]. by rewrite !insert_insert_eq. }
  apply (HQ s2 (promoted nd1)); try done; [| by rewrite Hs2, lookup_insert_eq |].
  - eapply kept_trans; [exact Hk1|]. assert (kept s1 (with_tab (with_nodes (<[n := promoted nd1]>)) s1)) as (Hok2 & _ & Hd).
    { apply (kept_node s1 n nd1); try done; [apply Hk1 | | |].
      - unfold nodeIsSlave. cbn [promoted n_flags with_slaveof with_n_flags]. by rewrite F2.
      - intros m [?|Hm]; [done|]. by apply (to_ptr s1 (proj1 Hk1) n nd1); [|right].
      - intros _. unfold nodeIsMaster, nodeIsSlave. cbn [promoted n_flags with_slaveof with_n_flags]. by rewrite F1, F2. }
    split_and!; [|done | intros m; rewrite Hs2; apply Hd]. eapply table_ok_same; [|exact Hok2]. by split_and!.
  - intros m x Hne Hx. rewrite Hs2, lookup_insert_ne by done. by apply (links_only_node s s1).
Qed.

(** The rest of the work of a node that follows [n] from now on. *)
Lemma r_follow s n nd (Q : clusterState -> unit -> Prop) : table_ok s -> n <> myself s -> is_Some (nodes (tab s) !! n) -> nodes (tab s) !! myself s = Some nd ->
  (forall s' nd', kept s s' -> nodes (tab s') !! myself s = Some nd' -> n_flags nd' = n_flags nd -> slaveof nd' = slaveof nd -> owner (tab s') = owner (tab s) ->
     keyed (out s') = keyed (out s) -> replicates (out s') = Some n -> mf_end (mf s') = 0 -> Q s' tt) ->
  cwp (clusterNodeAddSlave n (myself s);; replicationSetMaster n;; resetManualFailover) s Q.
Proof.
  intros Hok Hne [x Hx] Hnd HQ. apply cwp_bind, (r_addSlave s n x); [done.. | by rewrite Hnd |]. intros s1 b Hk1 Hl1.
  destruct (links_only_node s s1 _ nd Hl1 Hnd) as [l Hn1]. pose proof Hl1 as (_ & _ & _ & E4 & _ & E6 & _).
  apply cwp_bind, cwp_modify. apply cwp_modify, (HQ _ (with_slaves l nd)); try done; [|by cbn; rewrite E4].
  eapply kept_trans; [exact Hk1|]. by apply kept_same; [apply Hk1|].
Qed.

(** [myself] follows [n] and nobody else. *)
Definition follows (s : clusterState) (n : node_name) : Prop :=
  exists my, nodes (tab s) !! myself s = Some my /\ nodeIsSlave my = true /\ nodeIsMaster my = false /\ slaveof my = Some n /\ replicates (out s) = Some n.

Lemma follows_intro s s' n nd nd' : nodes (tab s') !! myself s = Some nd' -> n_flags nd' = n_flags nd -> slaveof nd' = slaveof nd -> kept s s' -> replicates (out s') = Some n ->
  nodeIsSlave nd = true -> nodeIsMaster nd = false -> slaveof nd = Some n -> follows s' n.
Proof.
  intros H1 H2 H3 (_ & H4 & _) H5 H6 H7 H8. exists nd'. unfold nodeIsSlave, nodeIsMaster in *. rewrite H4, H2, H3. done.
Qed.

Lemma r_follow_kept s s2 n nd (Q : clusterState -> unit -> Prop) : kept s s2 -> n <> myself s -> is_Some (nodes (tab s) !! n) -> nodes (tab s2) !! myself s = Some nd ->
  nodeIsSlave nd = true -> nodeIsMaster nd = false -> slaveof nd = Some n -> owner (tab s2) = owner (tab s) -> keyed (out s2) = keyed (out s) ->
  (forall s', kept s s' -> follows s' n -> owner (tab s') = owner (tab s) -> keyed (out s') = keyed (out s) -> mf_end (mf s') = 0 -> Q s' tt) ->
  cwp (clusterNodeAddSlave n (myself s);; replicationSetMaster n;; resetManualFailover) s2 Q.
Proof.
  intros Hk2 Hne Hx Hn2 Hs Hm Hsl Ho Hkey HQ. pose proof Hk2 as (K1 & K2 & K3). rewrite <- K2 in Hne, Hn2 |- *.
  apply (r_follow s2 n nd); [done.. | by apply K3 | done |]. intros s3 nd3 Hk3 Hn3 Hf3 Hsl3 Ho3 Hkey3 Hr3 Hmf3.
  apply HQ; [by eapply kept_trans | by apply (follows_intro s2 s3 n nd nd3) | by rewrite Ho3 | by rewrite Hkey3 | done].
Qed.

Lemma kept_follow s n nd f : table_ok s -> n <> myself s -> is_Some (nodes (tab s) !! n) -> nodes (tab s) !! myself s = Some nd -> numslots nd = 0 ->
  has f REDIS_NODE_SLAVE = true -> has f REDIS_NODE_MASTER = false ->
  kept s (with_tab (with_nodes (<[myself s := with_slaveof (Some n) (with_n_flags (fun _ => f) nd)]>)) s).
Proof.
  intros Hok Hne Hx Hnd Hns F1 F2. apply (kept_node s _ nd); try done.
  - intros m [[= <-]|Hm]; [done | by apply (to_ptr s Hok (myself s) nd); [|right]].
  - intros _. unfold nodeIsMaster, nodeIsSlave. cbn. rewrite F1, F2. split; [done|]. by exists n.
Qed.

Lemma r_setMaster s n nd (Q : clusterState -> unit -> Prop) : table_ok s -> n <> myself s -> is_Some (nodes (tab s) !! n) -> nodes (tab s) !! myself s = Some nd -> numslots nd = 0 ->
  (forall s', kept s s' -> follows s' n -> owner (tab s') = owner (tab s) -> keyed (out s') = keyed (out s) -> mf_end (mf s') = 0 -> Q s' tt) -> cwp (clusterSetMaster n) s Q.
Proof.
  intros Hok Hne Hx Hnd Hns HQ. unfold clusterSetMaster. apply cwp_bind, cwp_get. apply cwp_bind, cwp_assert; [by rewrite bool_decide_eq_false_2|].
  apply cwp_bind, (cwp_me nd); [done|]. apply cwp_bind, cwp_assert; [by apply Z.eqb_eq|]. apply cwp_bind.
  destruct (to_me s Hok) as (my & Hmy & Hms & _). assert (my = nd) as -> by congruence. destruct (nodeIsMaster nd) eqn:Em.
  - apply cwp_bind, (cwp_mod_node _ nd); [done|]. apply cwp_bind, (cwp_mod_node _ (with_n_flags (del_flags REDIS_NODE_MASTER) nd)); [apply lookup_insert_eq|].
    apply cwp_modify, cwp_bind, (cwp_mod_node _ (with_n_flags (add_flags REDIS_NODE_SLAVE) (with_n_flags (del_flags REDIS_NODE_MASTER) nd))); [apply lookup_insert_eq|].
    destruct (flags_slave (n_flags nd)) as [F1 F2]. pose proof (kept_follow s n nd _ Hok Hne Hx Hnd Hns F2 F1) as Hk.
    apply (r_follow_kept s _ n (with_slaveof (Some n) (with_n_flags (add_flags REDIS_NODE_SLAVE) (with_n_flags (del_flags REDIS_NODE_MASTER) nd)))); try done; [|apply lookup_insert_eq].
    eapply kept_trans; [exact Hk|]. apply kept_same; [apply Hk|]. split_and!; [done | | done]. cbn. by rewrite !insert_insert_eq.
  - apply (r_leave s nd); [done | intros m Hm; apply (to_ptr s Hok (myself s) nd); [done | by left] |]. intros s1 Hk1 Hl1.
    destruct (links_only_node s s1 _ nd Hl1 Hnd) as [l Hn1]. pose proof Hl1 as (E1 & _ & _ & E4 & _ & E6 & _).
    assert (nodeIsSlave nd = true) as Hs by (by destruct (nodeIsSlave nd)).
    assert (kept s1 (with_tab (with_nodes (<[myself s := with_slaveof (Some n) (with_slaves l nd)]>)) s1)) as Hk2.
    { rewrite <- E1. apply (kept_follow s1 n (with_slaves l nd) (n_flags nd)); [apply Hk1 | by rewrite E1 | by apply Hk1 | by rewrite E1 | done..]. }
    apply cwp_bind, (cwp_mod_node _ (with_slaves l nd)); [done|].
    apply (r_follow_kept s _ n (with_slaveof (Some n) (with_slaves l nd))); try done; [by eapply kept_trans | apply lookup_insert_eq | by cbn; rewrite E4].
Qed.

(** ** The effect of a claim *)

Lemma r_delKeys l : forall s (Q : clusterState -> unit -> Prop),
  (forall s', same_table s s' -> replicates (out s') = replicates (out s) -> (forall j, j ∈ keyed (out s') <-> j ∈ keyed (out s) /\ j ∉ l) -> Q s' tt) -> cwp (ceach delKeysInSlot l) s Q.
Proof.
  induction l as [|j l IH]; intros s Q HQ; cbn [ceach].
  - apply cwp_ret, HQ; [done | done |]. intros j. split; [intros ?; split; [done | apply not_elem_of_nil] | by intros [? _]].
  - apply cwp_bind, cwp_modify, IH. intros s' Hs Hr Hk. apply HQ; [done | done |]. intros i. rewrite Hk. cbn.
    rewrite elem_of_difference, elem_of_singleton, not_elem_of_cons. tauto.
Qed.

(** The master whose slots we serve or replicate. *)
Definition our_master (s : clusterState) : option node_name :=
  my ← nodes (tab s) !! myself s; if nodeIsMaster my then Some (myself s) else slaveof my.

Definition gets (s : clusterState) (sender : node_name) (e : Z) (slots : list Z) (j : Z) : Prop := slot j /\ claims s sender e slots j = true.

(** Our master loses its last slot to the claim. *)
Definition overthrown (s s' : clusterState) (sender : node_name) (e : Z) (slots : list Z) : Prop :=
  (exists j, gets s sender e slots j /\ owner (tab s) !! j = our_master s) /\ forall j, owner (tab s') !! j <> our_master s.

Record config_updated (s : clusterState) (sender : node_name) (e : Z) (slots : list Z) (s' : clusterState) : Prop := {
  cu_kept : kept s s';
  cu_owner : forall j, owner (tab s') !! j = if decide (gets s sender e slots j) then Some sender else owner (tab s) !! j;
  cu_role : overthrown s s' sender e slots /\ follows s' sender /\ keyed (out s') = keyed (out s) \/
    ~ overthrown s s' sender e slots /\ our_master s' = our_master s /\ replicates (out s') = replicates (out s) /\
    forall j, j ∈ keyed (out s') <-> j ∈ keyed (out s) /\ ~ (gets s sender e slots j /\ owner (tab s) !! j = Some (myself s));
}.

Lemma our_master_some s : table_ok s -> exists my cm x, nodes (tab s) !! myself s = Some my /\ (if nodeIsMaster my then Some (myself s) else slaveof my) = Some cm /\ 
  our_master s = Some cm /\ nodes (tab s) !! cm = Some x.
Proof.
  intros Hok. destruct (to_me s Hok) as (my & Hmy & Hms & Hsl). unfold our_master. rewrite Hmy. cbn [mbind option_bind]. destruct (nodeIsMaster my) eqn:Em.
  - exists my, (myself s), my. by rewrite Em.
  - destruct Hsl as (m & Hm & _). destruct (to_ptr s Hok _ my m Hmy (or_introl Hm)) as [x Hx]. exists my, m, x. by rewrite Em, Hm.
Qed.

Lemma our_master_slots s s1 : slots_only s s1 -> our_master s1 = our_master s.
Proof.
  intros Hso. unfold our_master. pose proof Hso as (-> & _). destruct (nodes (tab s) !! myself s) as [my|] eqn:Emy.
  - destruct (slots_only_slave _ _ _ my Hso Emy) as (my1 & -> & Hf & Hsl & _). cbn. unfold nodeIsMaster. by rewrite Hf, Hsl.
  - destruct Hso as (_ & _ & _ & _ & _ & H). specialize (H (myself s)). rewrite Emy in H. by inversion H.
Qed.

Lemma r_updateSlots s sender nd e slots (Q : clusterState -> unit -> Prop) : table_ok s -> bitmap_ok slots -> sender <> myself s -> nodes (tab s) !! sender = Some nd -> nodeIsSlave nd = false ->
  (forall s', config_updated s sender e slots s' -> Q s' tt) -> cwp (clusterUpdateSlotsConfigWith sender e slots) s Q.
Proof.
  intros Hok Hb Hne Hn Hs HQ. destruct (our_master_some s Hok) as (my & cm & x & Hmy & Hcm & Hour & Hx). unfold clusterUpdateSlotsConfigWith.
  apply cwp_bind, cwp_get. apply cwp_bind, (cwp_me my); [done|]. rewrite Hcm, bool_decide_eq_false_2 by done.
  apply cwp_bind, (r_claims s sender nd); [done..|]. intros s1 [newmaster dirty] [Hk1 Hso1 Ho1 Hnew Hdirty]. cbn [fst snd] in *.
  assert (forall j, owner (tab s1) !! j = if decide (gets s sender e slots j) then Some sender else owner (tab s) !! j) as Ho.
  { intros j. rewrite Ho1. unfold gets, slot. destruct (claims s sender e slots j) eqn:Ec; [|by rewrite andb_false_r, decide_False by (by intros [_ ?])].
    destruct (Z.leb_spec 0 j), (Z.ltb_spec j REDIS_CLUSTER_SLOTS); cbn [andb]; [rewrite decide_True by done | rewrite decide_False by lia..]; done. }
  destruct (slots_only_node _ _ cm x Hso1 Hx) as (x1 & Hx1 & _). pose proof (proj1 Hk1) as Hok1.
  assert (newmaster = true <-> exists j, gets s sender e slots j /\ owner (tab s) !! j = our_master s) as Hnm.
  { rewrite Hnew, Hour. split; intros (j & H); exists j; unfold gets, slot in *; tauto. }
  assert (newmaster && (numslots x1 =? 0) = true <-> overthrown s s1 sender e slots) as Hover.
  { rewrite andb_true_iff, Hnm, Z.eqb_eq, (numslots_zero s1 cm x1) by done. unfold overthrown. by rewrite Hour. }
  apply cwp_bind, (cwp_mono _ _ (fun s' b => s' = s1 /\ b = newmaster && (numslots x1 =? 0))).
  { destruct newmaster; [|by apply cwp_ret]. apply cwp_bind, (cwp_lift _ cm); [done|]. apply cwp_bind, (cwp_node _ x1); [done|]. by apply cwp_ret. }
  intros s' b [-> ->]. pose proof (our_master_slots s s1 Hso1) as Hom. destruct (newmaster && (numslots x1 =? 0)) eqn:Ed.
  - pose proof (proj1 Hover eq_refl) as Hthrown. destruct (slots_only_node _ _ _ my Hso1 Hmy) as (my1 & Hmy1 & Hmy1eq).
    pose proof Hso1 as (E1 & _ & _ & Eout & _). pose proof Hk1 as (_ & _ & Hd1). rewrite <- E1 in Hmy1, Hne.
    assert (numslots my1 = 0) as Hz.
    { apply andb_true_iff in Ed as [_ Hz%Z.eqb_eq]. destruct (to_me s1 Hok1) as (my2 & Hmy2 & Hms & _). assert (my2 = my1) as -> by congruence.
      destruct (nodeIsMaster my1) eqn:Em; [|apply (to_slave s1 Hok1 _ my1 Hmy1); by destruct (nodeIsSlave my1)].
      unfold nodeIsMaster in *. rewrite <- Hmy1eq in Em. cbn in Em. rewrite Em in Hcm. congruence. }
    apply cwp_bind, (r_setMaster s1 sender my1); [done | done | by apply Hd1; rewrite Hn | done | done |]. intros s2 Hk2 Hf2 Ho2 Hkey2 _.
    apply cwp_todo, HQ. constructor.
    + eapply kept_trans; [exact Hk1|]. eapply kept_trans; [exact Hk2|]. by apply kept_same; [apply Hk2|].
    + intros j. cbn. by rewrite Ho2.
    + left. split_and!; [| exact Hf2 | cbn; by rewrite Hkey2, Eout]. destruct Hthrown as [H1 H2]. split; [done|]. intros j. cbn. by rewrite Ho2.
  - assert (~ overthrown s s1 sender e slots) as Hnot by (intros H%Hover; done). pose proof Hso1 as (E1 & _ & _ & Eout & _).
    apply r_delKeys. intros s2 Hs2 Hr2 Hkey2. apply HQ. destruct Hs2 as (F1 & F2 & F3). constructor.
    + eapply kept_trans; [exact Hk1|]. apply kept_same; [done | by split_and!].
    + intros j. by rewrite F3.
    + right. split_and!.
      * intros [H1 H2]. apply Hnot. split; [done|]. intros j. by rewrite <- F3.
      * rewrite <- Hom. unfold our_master. by rewrite F1, F2.
      * by rewrite Hr2, Eout.
      * intros j. rewrite Hkey2, Hdirty, Eout. unfold gets, slot. tauto.
Qed.
