(* ===== verification/ClusterSafe.v ===== *)
(** * No event breaks the slot table of a node

    [keeps s0 m P]: from a state with a consistent table and the nodes of [s0],
    the action [m] meets no failed assertion, follows no pointer to nowhere, ends in
    such a state and returns a value for which [P] holds. *)
From Stdlib Require Import Lia ZArith String.
From stdpp Require Import base numbers list tactics option gmap fin_maps fin_sets sets.
From S2P Require Import Prelude Object Cluster ClusterOk.

#[local] Open Scope Z_scope.

(** Nothing of the table or of replication changes. *)
Definition aside (s s' : clusterState) : Prop := same_table s s' /\ out s' = out s.

(** What is kept along the way: the table is consistent; [strict]ly, nothing of it changes. *)
Definition rel (strict : bool) (s0 s : clusterState) : Prop := if strict then table_ok s0 /\ aside s0 s else kept s0 s.

Lemma rel_kept st s0 s : rel st s0 s -> kept s0 s.
Proof. destruct st; [|done]. intros [Hok [Hs _]]. by apply kept_same. Qed.

Lemma rel_aside st s0 s s' : rel st s0 s -> aside s s' -> rel st s0 s'.
Proof.
  destruct st.
  - intros [Hok [(H1 & H2 & H3) H4]] [(K1 & K2 & K3) K4]. split; [done|]. unfold aside, same_table. split_and!; congruence.
  - intros Hs [Ha _]. eapply kept_trans; [exact Hs|]. by apply kept_same; [apply Hs|].
Qed.

Definition keeps (st : bool) (s0 : clusterState) {A} (m : CM A) (P : A -> Prop) : Prop := forall s, rel st s0 s -> cwp m s (fun s' a => rel st s0 s' /\ P a).

Section Keeps.
Context (st : bool) (s0 : clusterState).

Definition live (n : node_name) : Prop := is_Some (nodes (tab s0) !! n).
Definition node_fine (nd : clusterNode) : Prop := bitmap_ok (n_slots nd) /\ forall m, slaveof nd = Some m \/ m ∈ slaves nd -> live m.

Lemma k_ret {A} (a : A) (P : A -> Prop) : P a -> keeps st s0 (mret a) P.
Proof. intros H s Hs. by apply cwp_ret. Qed.

Lemma k_bind {A B} (m : CM B) (f : B -> CM A) (P : B -> Prop) (P' : A -> Prop) : keeps st s0 m P -> (forall b, P b -> keeps st s0 (f b) P') -> keeps st s0 (m ≫= f) P'.
Proof. intros Hm Hf s Hs. apply cwp_bind. eapply cwp_mono; [by apply Hm|]. intros s' b [Hs' Hb]. by apply Hf. Qed.

Lemma keeps_mono {A} (m : CM A) (P P' : A -> Prop) : keeps st s0 m P -> (forall a, P a -> P' a) -> keeps st s0 m P'.
Proof. intros H HP s Hs. eapply cwp_mono; [by apply H|]. intros s' a [? ?]. auto. Qed.

Lemma keeps_run {A} (m : CM A) (P : A -> Prop) s : keeps st s0 m P -> rel st s0 s -> cwp m s (fun s' a => rel st s0 s' /\ P a).
Proof. intros H Hs. by apply H. Qed.

Lemma k_get : keeps st s0 cget (rel st s0).
Proof. intros s Hs. by apply cwp_get. Qed.

Lemma k_modify f (P : unit -> Prop) : (forall s, aside s (f s)) -> P tt -> keeps st s0 (cmodify f) P.
Proof. intros Hf HP s Hs. apply cwp_modify. split; [|done]. by eapply rel_aside. Qed.

Lemma k_lift {A} (o : option A) a (P : A -> Prop) : o = Some a -> P a -> keeps st s0 (clift o) P.
Proof. intros -> H. by apply k_ret. Qed.

Lemma keeps_when b m (P : unit -> Prop) : (b = true -> keeps st s0 m P) -> P tt -> keeps st s0 (cwhen b m) P.
Proof. intros Hm HP. destruct b; [by apply Hm | by apply k_ret]. Qed.

Lemma kept_fine s n nd : kept s0 s -> nodes (tab s) !! n = Some nd -> node_fine nd.
Proof. intros (Hok & _ & Hd) Hn. split; [by apply (to_maps s Hok n)|]. intros m Hm. by apply Hd, (to_ptr s Hok n nd). Qed.

Lemma keeps_node n : live n -> keeps st s0 (node_at n) node_fine.
Proof. intros Hn s Hs. pose proof (rel_kept st s0 s Hs) as Hk. destruct (proj2 (proj2 (proj2 Hk) n) Hn) as [nd Hnd]. apply (cwp_node n nd); [done|]. split; [done | by eapply kept_fine]. Qed.

Lemma keeps_me : keeps st s0 me node_fine.
Proof. intros s Hs. pose proof (rel_kept st s0 s Hs) as Hk. destruct (to_me s (proj1 Hk)) as (my & Hmy & _). apply (cwp_me my); [done|]. split; [done | by eapply kept_fine]. Qed.

Lemma keeps_each {A} (body : A -> CM unit) l (P : unit -> Prop) : (forall a, a ∈ l -> keeps st s0 (body a) (fun _ => True)) -> P tt -> keeps st s0 (ceach body l) P.
Proof.
  intros Hb HP. induction l as [|a l IH]; cbn [ceach]; [by apply k_ret|].
  apply (k_bind _ _ (fun _ => True)); [apply Hb; left|]. intros [] _. apply IH. intros b Hin. apply Hb. by right.
Qed.

Lemma keeps_slots {A} (body : Z -> A -> CM A) a (P : A -> Prop) : P a -> (forall j a, slot j -> P a -> keeps st s0 (body j a) P) -> keeps st s0 (for_slots body a) P.
Proof.
  intros Ha Hb s Hs. apply (cwp_slots _ (fun _ s a => rel st s0 s /\ P a)); [done | | done]. intros k s1 a1 Hk [Hs1 Ha1]. by apply Hb.
Qed.

Lemma keeps_todo f (P : unit -> Prop) : P tt -> keeps st s0 (clusterDoBeforeSleep f) P.
Proof. by apply k_modify. Qed.

Lemma kept_owner s j o : kept s0 s -> owner (tab s) !! j = Some o -> live o.
Proof. intros (Hok & _ & Hd) Ho. apply (to_owner s Hok) in Ho as (_ & nd & Hnd & _). apply Hd. eauto. Qed.

Lemma kept_live' s n nd : kept s0 s -> nodes (tab s) !! n = Some nd -> live n.
Proof. intros (_ & _ & Hd) Hn. apply Hd. eauto. Qed.

Lemma live_me s : kept s0 s -> live (myself s).
Proof. intros Hs. destruct (to_me s (proj1 Hs)) as (my & Hmy & _). by eapply kept_live'. Qed.
End Keeps.

Arguments k_bind {st} {s0} {A B} {m f} {P} {P'}.
Arguments k_modify {st} {s0} {f} {P}.
Arguments k_lift {st} {s0} {A} {o} {a} {P}.
Arguments keeps_when {st} {s0} {b m} {P}.
Arguments keeps_slots {st} {s0} {A} {body a} {P}.
Arguments k_get {st} s0.

(** A change of a node that leaves the slots, the role and the pointers alone. *)
Definition minor (f : clusterNode -> clusterNode) : Prop := forall nd,
  n_slots (f nd) = n_slots nd /\ numslots (f nd) = numslots nd /\ nodeIsSlave (f nd) = nodeIsSlave nd /\ nodeIsMaster (f nd) = nodeIsMaster nd /\
  slaveof (f nd) = slaveof nd /\ slaves (f nd) = slaves nd.

Lemma kept_minor s n nd f : table_ok s -> nodes (tab s) !! n = Some nd -> minor f -> kept s (with_tab (with_nodes (<[n := f nd]>)) s).
Proof.
  intros Hok Hn Hf. destruct (Hf nd) as (H1 & H2 & H3 & H4 & H5 & H6). apply (kept_node s n nd); [done..| | |].
  - rewrite H3, H4. by apply (to_slave s Hok n nd).
  - intros m. rewrite H5, H6. by apply (to_ptr s Hok n nd).
  - intros ->. rewrite H3, H4, H5. destruct (to_me s Hok) as (my & Hmy & H). assert (my = nd) as -> by congruence. done.
Qed.

Lemma keeps_mod_node s0 n f : live s0 n -> minor f -> keeps false s0 (mod_node n f) (fun _ => True).
Proof.
  intros Hn Hf s Hs. destruct (proj2 (proj2 (proj2 Hs) n) Hn) as [nd Hnd]. apply (cwp_mod_node n nd); [done|]. split; [|done].
  eapply kept_trans; [exact Hs|]. apply kept_minor; [apply Hs | done..].
Qed.


(** A step of a sequence; the change of a field that does not matter; an early return. *)
Tactic Notation "step" tactic3(t) "as" simple_intropattern_list(p) := eapply k_bind; [t | intros p].
Ltac k_minor := let x := fresh "x" in intros x; split_and!; reflexivity.
Ltac k_if := cbv zeta; match goal with |- keeps _ _ (if ?b then _ else _) _ => destruct b end; try by apply k_ret.

Lemma minor_flags bits (g : Z -> Z -> Z) : (forall f, has (g bits f) REDIS_NODE_MASTER = has f REDIS_NODE_MASTER) -> (forall f, has (g bits f) REDIS_NODE_SLAVE = has f REDIS_NODE_SLAVE) ->
  minor (with_n_flags (g bits)).
Proof. intros H1 H2 nd. unfold nodeIsMaster, nodeIsSlave. cbn. by rewrite H1, H2. Qed.

Lemma minor_add_fail : minor (with_n_flags (add_flags REDIS_NODE_FAIL)).
Proof. apply minor_flags; intros f; change REDIS_NODE_FAIL with (2 ^ 3); [change REDIS_NODE_MASTER with (2 ^ 0) | change REDIS_NODE_SLAVE with (2 ^ 1)]; rewrite has_add by lia; apply orb_false_r. Qed.

Lemma minor_del_fail : minor (with_n_flags (del_flags REDIS_NODE_FAIL)).
Proof. apply minor_flags; intros f; change REDIS_NODE_FAIL with (2 ^ 3); [change REDIS_NODE_MASTER with (2 ^ 0) | change REDIS_NODE_SLAVE with (2 ^ 1)]; rewrite has_del by lia; apply andb_true_r. Qed.

Lemma minor_del_pfail : minor (with_n_flags (del_flags REDIS_NODE_PFAIL)).
Proof. apply minor_flags; intros f; change REDIS_NODE_PFAIL with (2 ^ 2); [change REDIS_NODE_MASTER with (2 ^ 0) | change REDIS_NODE_SLAVE with (2 ^ 1)]; rewrite has_del by lia; apply andb_true_r. Qed.

(** ** Code that does not touch the table *)

Section Aside.
Context (conf : settings) (clock : nat -> Z) (st : bool) (s0 : clusterState).

Abbreviation safe m := (keeps st s0 m (fun _ => True)).

Lemma k_todo f : safe (clusterDoBeforeSleep f).
Proof. by apply keeps_todo. Qed.

Lemma k_mstime : safe (cluster_mstime clock).
Proof. step (apply k_get) as s _. step (by apply (k_modify (P := fun _ => True))) as [] _. by apply k_ret. Qed.

Lemma k_send dest m : safe (clusterSendMessage dest m).
Proof. by apply k_modify. Qed.

Lemma k_hdr type : safe (clusterBuildMessageHdr type).
Proof.
  step (apply k_get) as s _. step (apply keeps_me) as my [_ Hmy].
  apply (k_bind (P := fun _ => True)); [|intros; by apply k_ret]. destruct (slaveof my) as [m|] eqn:Em; [|by apply k_ret].
  destruct (nodeIsSlave my); [|by apply k_ret]. eapply keeps_mono; [apply keeps_node, Hmy; by left | done].
Qed.

Lemma k_broadcast m : safe (clusterBroadcastMessage m).
Proof. step (apply k_get) as s _. apply keeps_each; [|done]. intros [n nd] _. apply keeps_when; [intros _; apply k_send | done]. Qed.

Lemma k_ping gossip dest type : safe (clusterSendPing gossip dest type).
Proof. step (apply k_hdr) as m _. apply k_send. Qed.

Lemma k_pong gossip b : safe (clusterBroadcastPong gossip b).
Proof.
  step (apply k_get) as s _. step (apply keeps_me) as my _. apply keeps_each; [|done].
  intros [n nd] _. apply keeps_when; [intros _; apply k_ping | done].
Qed.

Lemma k_sendFail n : safe (clusterSendFail n).
Proof. step (apply k_hdr) as m _. apply k_broadcast. Qed.

Lemma k_updateState : safe (clusterUpdateState conf clock).
Proof.
  step (by apply (k_modify (P := fun _ => True))) as [] _. step (apply k_get) as s _.
  eapply k_bind; [apply (keeps_when (P := fun _ => True)); [intros _ | done]|].
  { step (apply k_mstime) as t _. by apply k_modify. }
  intros [] _. step (apply keeps_me) as my _. step (apply k_get) as s1 _.
  apply (k_bind (P := fun _ => True)); [destruct (andb _ _); [step (apply k_mstime) as t _|]; by apply k_ret|]. intros wait _. destruct wait; [by apply k_ret|].
  apply (k_bind (P := fun _ => True)).
  { destruct (cluster_require_full_coverage conf); [|by apply k_ret]. apply keeps_slots; [done|]. intros j ok Hj _. unfold slot_covered. destruct ok; [|by apply k_ret]. cbn [negb].
    step (apply k_get) as s2 Hs2%rel_kept. destruct (owner (tab s2) !! j) as [o|] eqn:Eo; [|by apply k_ret].
    step (by apply keeps_node, (kept_owner s0 s2 j)) as nd _. by apply k_ret. }
  intros covered _. step (apply k_get) as s2 _. cbv zeta. step (by apply (k_modify (P := fun _ => True))) as [] _.
  eapply k_bind; [apply (keeps_when (P := fun _ => True)); [intros _ | done]|].
  { step (apply k_mstime) as t _. by apply k_modify. }
  intros [] _. step (apply k_get) as s3 _. k_if.
  apply (k_bind (P := fun _ => True)); [destruct (andb _ _); [step (apply k_mstime) as t _|]; by apply k_ret|]. intros early _. destruct early; [by apply k_ret | by apply k_modify].
Qed.
End Aside.

(** ** Failure reports *)

Section Safe.
Context (conf : settings) (clock : nat -> Z) (s0 : clusterState).

Abbreviation safe m := (keeps false s0 m (fun _ => True)).

Lemma k_sendUpdate dest n : live s0 dest -> live s0 n -> safe (clusterSendUpdate dest n).
Proof.
  intros Hd Hn. step (by apply keeps_node) as d _. apply keeps_when; [intros _ | done]. step (apply k_hdr) as m _.
  step (by apply keeps_node) as nd _. apply k_send.
Qed.

Lemma k_mod n f : live s0 n -> minor f -> safe (mod_node n f).
Proof. apply keeps_mod_node. Qed.

Lemma k_get_slot n j : live s0 n -> slot j -> safe (clusterNodeGetSlotBit n j).
Proof. intros Hn Hj. step (by apply keeps_node) as nd [Hb _]. by apply (k_lift (a := bit (n_slots nd) j)); [apply test_bit|]. Qed.

(** Failure reports. *)
Lemma k_addReport failing sender : live s0 failing -> safe (clusterNodeAddFailureReport clock failing sender).
Proof.
  intros Hf. step (by apply keeps_node) as nd _. step (apply k_mstime) as t _.
  destruct (list_find _ _) as [[j x]|]; (eapply k_bind; [apply k_mod; [done | k_minor] | intros; by apply k_ret]).
Qed.

Lemma k_cleanup n : live s0 n -> safe (clusterNodeCleanupFailureReports conf clock n).
Proof.
  intros Hn. step (apply k_mstime) as t _. step (by apply keeps_node) as nd _. apply k_mod; [done | k_minor].
Qed.

Lemma k_delReport n sender : live s0 n -> safe (clusterNodeDelFailureReport conf clock n sender).
Proof.
  intros Hn. step (by apply keeps_node) as nd _. destruct (list_find _ _) as [[j x]|]; [|by apply k_ret].
  step (apply k_mod; [done | k_minor]) as [] _. step (by apply k_cleanup) as [] _. by apply k_ret.
Qed.

Lemma k_markFailing n : live s0 n -> safe (markNodeAsFailingIfNeeded conf clock n).
Proof.
  intros Hn. step (apply k_get) as s _. step (by apply keeps_node) as nd _.
  k_if. k_if.
  apply (k_bind (P := fun _ => True)).
  { step (by apply k_cleanup) as [] _. eapply k_bind; [by apply keeps_node|]. intros; by apply k_ret. }
  intros failures _. step (apply keeps_me) as my _. k_if.
  step (by apply k_mod, minor_del_pfail) as [] _. step (by apply k_mod, minor_add_fail) as [] _.
  step (apply k_mstime) as t _. step (apply k_mod; [done | k_minor]) as [] _.
  step (apply keeps_me) as my' _. step (apply (keeps_when (P := fun _ => True)); [intros _; apply k_sendFail | done]) as [] _. apply k_todo.
Qed.

Lemma k_gossip sender l : (forall n, sender = Some n -> live s0 n) -> safe (clusterProcessGossipSection conf clock sender l).
Proof.
  intros Hs. apply keeps_each; [|done]. intros [n flags] _. step (apply k_get) as s Hk. destruct (nodes (tab s) !! n) as [nd|] eqn:En; [|by apply k_ret].
  destruct sender as [snd|]; [|by apply k_ret]. assert (live s0 n) as Hn by (by eapply kept_live'). step (by apply keeps_node, Hs) as x _.
  k_if. destruct (has _ _).
  - step (by apply k_addReport) as b _. by apply k_markFailing.
  - step (by apply k_delReport) as b _. by apply k_ret.
Qed.

(** The failure flag of a node is taken back. *)
Lemma k_clear_fail n b : live s0 n -> safe (cwhen b (mod_node n (with_n_flags (del_flags REDIS_NODE_FAIL));; clusterDoBeforeSleep (Z.lor CLUSTER_TODO_UPDATE_STATE CLUSTER_TODO_SAVE_CONFIG))).
Proof. intros Hn. apply keeps_when; [intros _ | done]. step (by apply k_mod, minor_del_fail) as [] _. apply k_todo. Qed.

Lemma k_note_pong n : live s0 n -> safe (note_pong conf clock n).
Proof.
  intros Hn s Hs. destruct (proj2 (proj2 (proj2 Hs) n) Hn) as [nd Hnd]. apply cwp_bind, (cwp_node n nd); [done|]. destruct (nodeTimedOut nd).
  { revert s Hs Hnd. intros s Hs _. revert s Hs. change (safe (mod_node n (with_n_flags (del_flags REDIS_NODE_PFAIL));; clusterDoBeforeSleep (Z.lor CLUSTER_TODO_SAVE_CONFIG CLUSTER_TODO_UPDATE_STATE))).
    step (by apply k_mod, minor_del_pfail) as [] _. apply k_todo. }
  apply cwp_when; [|done]. intros Hf. apply cwp_bind, cwp_bind, cwp_get. apply cwp_bind, cwp_modify, cwp_ret, cwp_bind, (cwp_node n nd); [done|].
  apply cwp_bind, cwp_assert; [done|]. set (s1 := with_readings _ s). assert (kept s0 s1) as Hs1 by (eapply kept_trans; [exact Hs | by apply kept_same; [apply Hs|]]).
  clearbody s1. apply keeps_run; [|exact Hs1].
  step (by apply k_clear_fail) as [] _.
  step (by apply keeps_node) as nd' _. by apply k_clear_fail.
Qed.

(** ** Roles and slots *)

Lemma k_cwp (m : CM unit) : (forall s, kept s0 s -> cwp m s (fun s' _ => kept s s')) -> safe m.
Proof. intros H s Hs. eapply cwp_mono; [by apply H, Hs|]. intros s' [] Hs'. split; [by eapply kept_trans | done]. Qed.

Lemma k_setNodeAsMaster n : live s0 n -> safe (clusterSetNodeAsMaster n).
Proof.
  intros Hn s Hs. destruct (proj2 (proj2 (proj2 Hs) n) Hn) as [nd Hnd]. apply (r_setNodeAsMaster s n nd); [apply Hs | done |].
  intros s' nd' Hk _ _ _ _ _ _ _ _. split; [by eapply kept_trans | done].
Qed.

Lemma k_removeSlave m n : live s0 m -> safe (clusterNodeRemoveSlave m n).
Proof.
  intros Hm s Hs. destruct (proj2 (proj2 (proj2 Hs) m) Hm) as [x Hx]. apply (r_removeSlave s m x); [apply Hs | done |].
  intros s' b Hk _. split; [by eapply kept_trans | done].
Qed.

Lemma k_addSlave m n : live s0 m -> live s0 n -> safe (clusterNodeAddSlave m n).
Proof.
  intros Hm Hn s Hs. destruct (proj2 (proj2 (proj2 Hs) m) Hm) as [x Hx]. apply (r_addSlave s m x); [apply Hs | done | by apply Hs |].
  intros s' b Hk _. split; [by eapply kept_trans | done].
Qed.

Lemma k_updateSlots sender e slots : live s0 sender -> bitmap_ok slots -> 
  forall s nd, kept s0 s -> nodes (tab s) !! sender = Some nd -> nodeIsSlave nd = false -> cwp (clusterUpdateSlotsConfigWith sender e slots) s (fun s' _ => kept s0 s' /\ True).
Proof.
  intros Hl Hb s nd Hs Hn Hsl. destruct (decide (sender = myself s)) as [->|Hne].
  - unfold clusterUpdateSlotsConfigWith. apply cwp_bind, cwp_get. apply cwp_bind, (cwp_me nd); [done|]. rewrite bool_decide_eq_true_2 by done. by apply cwp_ret.
  - apply (r_updateSlots s sender nd); [apply Hs | done..|]. intros s' [Hk _ _]. split; [by eapply kept_trans | done].
Qed.

Lemma k_note_sender n hdr : live s0 n -> safe (note_sender n hdr).
Proof.
  intros Hn. step (apply k_get) as s _.
  step (apply (keeps_when (P := fun _ => True)); [intros _; by apply k_modify | done]) as [] _.
  step (by apply keeps_node) as nd _.
  eapply k_bind; [apply (keeps_when (P := fun _ => True)); [intros _ | done]|].
  { step (apply k_mod; [done | k_minor]) as [] _. apply k_todo. }
  intros [] _. step (apply k_mod; [done | k_minor]) as [] _. step (apply keeps_me) as my _.
  step (apply k_get) as s' _. apply keeps_when; [intros _; by apply k_modify | done].
Qed.

(** A master that says it is a slave loses its slots; the flags change in two steps. *)
Lemma k_demote n nd s : kept s0 s -> n <> myself s0 -> nodes (tab s) !! n = Some nd ->
  cwp (clusterDelNodeSlots n;; mod_node n (with_n_flags (del_flags REDIS_NODE_MASTER));; mod_node n (with_n_flags (add_flags REDIS_NODE_SLAVE));;
       nd ← node_at n; cwhen (negb (zlen (slaves nd) =? 0)) (clusterNodeResetSlaves n);; clusterDoBeforeSleep (Z.lor CLUSTER_TODO_SAVE_CONFIG CLUSTER_TODO_UPDATE_STATE))
    s (fun s' _ => kept s0 s' /\ True).
Proof.
  intros Hs Hne Hn. apply cwp_bind, (r_delNodeSlots s n nd); [apply Hs | done |]. intros s1 Hk1 Hso1 Ho1. destruct (slots_only_node _ _ n nd Hso1 Hn) as (nd1 & Hn1 & _).
  pose proof (proj1 Hk1) as Hok1. assert (numslots nd1 = 0) as Hz.
  { apply (numslots_zero s1 n nd1); [done..|]. intros j. rewrite Ho1. case_bool_decide; [done|]. done. }
  apply cwp_bind, (cwp_mod_node n nd1); [done|]. apply cwp_bind, (cwp_mod_node n (with_n_flags (del_flags REDIS_NODE_MASTER) nd1)); [apply lookup_insert_eq|].
  set (nd2 := with_n_flags (add_flags REDIS_NODE_SLAVE) (with_n_flags (del_flags REDIS_NODE_MASTER) nd1)). destruct (flags_slave (n_flags nd1)) as [F1 F2].
  set (s2 := with_tab _ _). assert (kept s1 s2) as Hk2.
  { assert (kept s1 (with_tab (with_nodes (<[n := nd2]>)) s1)) as Hk.
    - apply (kept_node s1 n nd1 nd2); try done.
      + intros m Hm. by apply (to_ptr s1 Hok1 n nd1).
      + intros E1. destruct Hs as (_ & Hs & _), Hk1 as (_ & Hk1 & _). congruence.
    - eapply kept_trans; [exact Hk|]. apply kept_same; [apply Hk|]. split_and!; [done | | done]. cbn. by rewrite insert_insert_eq. }
  assert (kept s0 s2) as Hs2 by (eapply kept_trans; [exact Hs|]; by eapply kept_trans). assert (nodes (tab s2) !! n = Some nd2) as Hn2 by apply lookup_insert_eq. clearbody s2 nd2.
  apply cwp_bind, (cwp_node n nd2); [done|]. apply cwp_bind, cwp_when; [intros _ | intros _; by apply (keeps_todo false s0)].
  apply (r_with_slaves s2 n nd2); [apply Hs2 | done | by intros m Hm%elem_of_nil |]. intros s3 Hk3 _. apply (keeps_todo false s0); [done|]. by eapply kept_trans.
Qed.

Lemma k_note_role n hdr : live s0 n -> n <> myself s0 -> safe (note_role n hdr).
Proof.
  intros Hn Hne. unfold note_role. destruct (m_slaveof hdr) as [master|]; [|by apply k_setNodeAsMaster].
  intros s Hs. destruct (proj2 (proj2 (proj2 Hs) n) Hn) as [nd Hnd]. apply cwp_bind, (cwp_node n nd); [done|]. apply cwp_bind.
  apply (cwp_mono _ _ (fun s' _ => kept s0 s' /\ True)); [apply cwp_when; [intros _; by apply (k_demote n nd) | done]|].
  clear s Hs nd Hnd. intros s1 [] [Hs1 _]. apply keeps_run; [|exact Hs1].
  step (apply k_get) as s Hs.
  step (by apply keeps_node) as nd [_ Hfine]. destruct (bool_decide (is_Some (nodes (tab s) !! master))) eqn:El; [|by apply k_ret].
  apply bool_decide_eq_true in El. assert (live s0 master) as Hm by (destruct El as [x Hx]; by eapply kept_live'). apply keeps_when; [intros _ | done].
  apply (k_bind (P := fun _ => True)).
  { destruct (slaveof nd) as [m|] eqn:Em; [|by apply k_ret]. step (apply k_removeSlave, Hfine; by left) as b _. by apply k_ret. }
  intros [] _. step (by apply k_addSlave) as b _. apply (k_bind (P := fun _ => True)); [|intros [] _; apply k_todo].
  clear s Hs El nd Hfine b. intros s Hs. destruct (proj2 (proj2 (proj2 Hs) n) Hn) as [nd Hnd]. apply (cwp_mod_node n nd); [done|]. split; [|done].
  eapply kept_trans; [exact Hs|]. apply (kept_node s n nd (with_slaveof (Some master) nd)); try done; [apply Hs | by apply (to_slave s (proj1 Hs) n nd) | |].
  - intros m [[= <-]|Hml]; [by apply Hs | apply (to_ptr s (proj1 Hs) n nd); [done | by right]].
  - intros ->. destruct Hs as (_ & E1 & _). congruence.
Qed.

(** The first slot that is claimed against a newer configuration. *)
Lemma k_newer_owner n e slots j found : bitmap_ok slots -> slot j -> (forall o, found = Some o -> live s0 o) ->
  keeps false s0 (newer_owner n e slots j found) (fun found => forall o, found = Some o -> live s0 o).
Proof.
  intros Hb Hj Hf. unfold newer_owner. destruct found as [o|]; [by apply k_ret|].
  step (by apply (k_lift (a := bit slots j) (P := fun _ => True)); [apply test_bit|]) as b _. k_if.
  step (apply k_get) as s Hs. destruct (owner (tab s) !! j) as [o|] eqn:Eo; [|by apply k_ret].
  pose proof (kept_owner s0 s j o Hs Eo) as Ho. k_if. step (by apply keeps_node) as nd _.
  apply k_ret. destruct (_ >? _); [|done]. by intros ? [= <-].
Qed.

Lemma k_note_slots n e hdr : live s0 n -> bitmap_ok (m_myslots hdr) -> safe (note_slots n e hdr).
Proof.
  intros Hn Hb s Hs. destruct (proj2 (proj2 (proj2 Hs) n) Hn) as [nd Hnd]. apply cwp_bind, (cwp_node n nd); [done|].
  apply cwp_bind, (cwp_mono _ _ (fun s' _ => s' = s)).
  { destruct (if nodeIsMaster nd then Some n else slaveof nd) as [m|] eqn:Em; [|by apply cwp_ret].
    assert (is_Some (nodes (tab s) !! m)) as [x Hx].
    { destruct (nodeIsMaster nd); [simplify_eq; by rewrite Hnd | by apply (to_ptr s (proj1 Hs) n nd); [|left]]. }
    apply cwp_bind, (cwp_node m x); [done|]. by apply cwp_ret. }
  intros s' dirty ->. apply cwp_bind, (cwp_mono _ _ (fun s' _ => kept s0 s' /\ True)).
  { apply cwp_when; [|done]. intros [Hm _]%andb_true_iff. apply (k_updateSlots n e _ Hn Hb s nd); [done..|].
    destruct (nodeIsSlave nd) eqn:Esl; [|done]. destruct (to_slave s (proj1 Hs) n nd Hnd Esl). congruence. }
  clear s Hs nd Hnd. intros s [] [Hs _]. revert s Hs. change (safe (cwhen dirty
    (found ← for_slots (newer_owner n e (m_myslots hdr)) None; match found with Some o => clusterSendUpdate n o | None => mret tt end))).
  apply keeps_when; [intros _ | done]. eapply k_bind.
  - apply (keeps_slots (P := fun found => forall o, found = Some o -> live s0 o)); [done|]. intros j a Hj Ha. by apply k_newer_owner.
  - intros found Hf. destruct found as [o|]; [by apply k_sendUpdate, Hf | by apply k_ret].
Qed.

Lemma k_next_epoch : safe next_epoch.
Proof. step (by apply (k_modify (P := fun _ => True))) as [] _. step (apply k_get) as s _. by apply k_ret. Qed.

Lemma k_bump : safe clusterBumpConfigEpochWithoutConsensus.
Proof.
  step (apply k_get) as s Hs. step (apply keeps_me) as my _. k_if.
  step (apply k_next_epoch) as e _. step (apply k_mod; [by apply live_me | k_minor]) as [] _.
  step (apply k_todo) as [] _. by apply k_ret.
Qed.

Lemma k_note_collision n e : live s0 n -> safe (note_collision n e).
Proof.
  intros Hn. step (apply keeps_me) as my _. step (by apply keeps_node) as nd _. apply keeps_when; [intros _ | done].
  step (apply k_get) as s Hs. step (apply keeps_me) as my' _. step (by apply keeps_node) as nd' _.
  k_if. k_if. step (apply k_next_epoch) as e' _.
  apply k_mod; [by apply live_me | k_minor].
Qed.

(** ** Votes, rank and state *)

Lemma k_slot_newer e slots j b : bitmap_ok slots -> slot j -> safe (slot_newer e slots j b).
Proof.
  intros Hb Hj. unfold slot_newer. destruct b; [by apply k_ret|]. step (by apply (k_lift (a := bit slots j) (P := fun _ => True)); [apply test_bit|]) as b _. k_if. step (apply k_get) as s Hs. destruct (owner (tab s) !! j) as [o|] eqn:Eo; [|by apply k_ret].
  step (by apply keeps_node, (kept_owner s0 s j)) as nd _. by apply k_ret.
Qed.

Lemma k_vote n hdr : live s0 n -> bitmap_ok (m_myslots hdr) -> safe (clusterSendFailoverAuthIfNeeded conf clock n hdr).
Proof.
  intros Hn Hb. step (apply k_get) as s Hs. step (by apply keeps_node) as nd [_ Hnd]. step (apply keeps_me) as my _.
  k_if. k_if. k_if.
  destruct (if nodeIsMaster nd then None else slaveof nd) as [m|] eqn:Em; [|by apply k_ret].
  assert (live s0 m) as Hm by (apply Hnd; left; by destruct (nodeIsMaster nd)). step (by apply keeps_node) as mnd _.
  k_if. step (apply k_mstime) as t _. k_if.
  step (apply (keeps_slots (P := fun _ => True)); [done | intros j b Hj _; by apply k_slot_newer]) as newer _. destruct newer; [by apply k_ret|].
  apply (k_bind (P := fun _ => True)).
  { step (by apply keeps_node) as d _. apply keeps_when; [intros _ | done]. step (apply k_hdr) as m' _. apply k_send. }
  intros [] _. step (by apply (k_modify (P := fun _ => True))) as [] _. step (apply k_mstime) as t' _. apply k_mod; [done | k_minor].
Qed.

(** How many other slaves of the same master have more data. *)
Definition rank_among (s : clusterState) (l : list node_name) : Z :=
  foldr (fun x r => if negb (bool_decide (x = myself s)) && (match nodes (tab s) !! x with Some nd => repl_offset nd | None => 0 end >? slave_offset (out s)) then r + 1 else r) 0 l.
Definition rank_of (s : clusterState) (my : clusterNode) : Z :=
  match slaveof my with Some m => match nodes (tab s) !! m with Some mnd => rank_among s (slaves mnd) | None => 0 end | None => 0 end.

(** The rank is read off the state. *)
Lemma r_rank s my (Q : clusterState -> Z -> Prop) : table_ok s -> nodes (tab s) !! myself s = Some my -> nodeIsSlave my = true -> Q s (rank_of s my) -> cwp clusterGetSlaveRank s Q.
Proof.
  intros Hok Hmy Hsl HQ. apply cwp_bind, cwp_get. apply cwp_bind, (cwp_me my); [done|]. apply cwp_bind, cwp_assert; [done|]. unfold rank_of in HQ.
  destruct (slaveof my) as [m|] eqn:Em; [|by apply cwp_ret]. destruct (to_ptr s Hok _ my m Hmy (or_introl Em)) as [mnd Hm]. rewrite Hm in HQ. apply cwp_bind, (cwp_node m mnd); [done|]. cbv zeta.
  assert (forall x, x ∈ slaves mnd -> is_Some (nodes (tab s) !! x)) as Hall by (intros x Hx; apply (to_ptr s Hok m mnd); [done | by right]).
  revert Q HQ. induction (slaves mnd) as [|x l IH]; intros Q HQ; [by apply cwp_ret|]. destruct (Hall x (list_elem_of_here _ _)) as [nd Hnd].
  apply cwp_bind, (cwp_node x nd); [done|]. apply cwp_bind, IH; [intros y Hy; apply Hall; by right|]. apply cwp_ret. unfold rank_among in HQ. cbn [foldr] in HQ. by rewrite Hnd in HQ.
Qed.


(** ** Failover *)

Lemma r_take_slots s old (Q : clusterState -> unit -> Prop) my x : table_ok s -> nodes (tab s) !! myself s = Some my -> nodeIsSlave my = false -> nodes (tab s) !! old = Some x -> old <> myself s ->
  (forall s', kept s s' -> slots_only s s' -> (forall j, owner (tab s') !! j = if bool_decide (owner (tab s) !! j = Some old) then Some (myself s) else owner (tab s) !! j) -> Q s' tt) ->
  cwp (for_slots (take_slot old) tt) s Q.
Proof.
  intros Hok Hmy Hsl Hx Hne HQ. apply (cwp_slots _ (fun k s1 _ => kept s s1 /\ slots_only s s1 /\
    forall j, owner (tab s1) !! j = if (j <? k) && bool_decide (owner (tab s) !! j = Some old) then Some (myself s) else owner (tab s) !! j)).
  - split_and!; [by apply kept_refl | apply slots_only_refl |]. intros j. destruct (j <? 0) eqn:E1; [|done]. zbool.
    rewrite bool_decide_eq_false_2; [done|]. intros [Hj _]%(to_owner s Hok). unfold slot in Hj. lia.
  - intros k s1 [] Hk (Hkept & Hso & Ho). pose proof (proj1 Hkept) as Hok1. pose proof (proj1 (proj2 Hkept)) as Hme. destruct (slots_only_node _ _ old x Hso Hx) as (x1 & Hx1 & _).
    destruct (slots_only_slave _ _ _ my Hso Hmy) as (my1 & Hmy1 & Hf & _).
    apply cwp_bind, cwp_get. apply cwp_bind, (r_get_slot s1 old x1 k); [done..|]. rewrite (owner_bit s1 old x1 k Hok1 Hx1 Hk), Ho. zfalse (k <? k). cbn [andb].
    assert (forall j, (if (j <? k + 1) && bool_decide (owner (tab s) !! j = Some old) then Some (myself s) else owner (tab s) !! j) =
      if (j =? k) && bool_decide (owner (tab s) !! k = Some old) then Some (myself s) else owner (tab s1) !! j) as Hnext.
    { intros j. rewrite Ho. destruct (Z.eqb_spec j k) as [->|Hjk]; cbn [andb]; [ztrue (k <? k + 1); zfalse (k <? k); cbn [andb]; by destruct (bool_decide _)|].
      destruct (Z.ltb_spec j k), (Z.ltb_spec j (k + 1)); try lia; done. }
    rewrite Hme. apply cwp_when; intros Eo.
    + apply cwp_bind. eapply cwp_mono; [apply (r_move_slot s1 (myself s) my1 k (fun s2 _ => kept s1 s2 /\ slots_only s1 s2 /\ owner (tab s2) = <[k := myself s]> (owner (tab s1)))); [done | done | unfold nodeIsSlave in *; by rewrite Hf | done | by intros s2 H1 H2 H3]|].
      intros s2 b H2. apply cwp_bind. eapply cwp_mono; [exact H2|]. intros s3 b3 (Hk3 & Hso3 & Ho3). apply cwp_ret. split_and!; [by eapply kept_trans | by eapply slots_only_trans |].
      intros j. rewrite Hnext, Ho3, Eo, andb_true_r. destruct (Z.eqb_spec j k) as [->|Hjk]; [by rewrite lookup_insert_eq | by rewrite lookup_insert_ne].
    + split_and!; [done..|]. intros j. by rewrite Hnext, Eo, andb_false_r.
  - intros s1 [] (Hkept & Hso & Ho). apply HQ; [done..|]. intros j. rewrite Ho. destruct (bool_decide _) eqn:E1; [|by rewrite andb_false_r].
    apply bool_decide_eq_true in E1. pose proof (proj1 (to_owner s Hok j old) E1) as [Hj _]. unfold slot in Hj. by ztrue (j <? REDIS_CLUSTER_SLOTS).
Qed.

(** The slots of [old] are ours now, we are a master and replicate nobody. *)
Record took_over (s : clusterState) (old : node_name) (s' : clusterState) : Prop := {
  tk_kept : kept s s';
  tk_owner : forall j, owner (tab s') !! j = if bool_decide (owner (tab s) !! j = Some old) then Some (myself s) else owner (tab s) !! j;
  tk_role : exists my, nodes (tab s') !! myself s = Some my /\ nodeIsMaster my = true /\ nodeIsSlave my = false;
  tk_repl : replicates (out s') = None;
}.

Lemma took_over_aside s old s1 s2 : took_over s old s1 -> aside s1 s2 -> took_over s old s2.
Proof.
  intros [H1 H2 H3 H4] [Hs Ho]. pose proof Hs as (K1 & K2 & K3). constructor; [|by rewrite K3 | by rewrite K2 | by rewrite Ho].
  eapply kept_trans; [exact H1|]. apply kept_same; [apply H1 | done].
Qed.

Lemma r_replaceMaster gossip s old my : table_ok s -> nodes (tab s) !! myself s = Some my -> nodeIsMaster my = false -> slaveof my = Some old -> old <> myself s ->
  cwp (clusterFailoverReplaceYourMaster conf clock gossip) s (fun s' _ => took_over s old s').
Proof.
  intros Hok Hmy Hm Hsl Hne. apply cwp_bind, cwp_get. apply cwp_bind, (cwp_me my); [done|]. rewrite Hm, Hsl.
  destruct (to_ptr s Hok _ my old Hmy (or_introl Hsl)) as [x Hx].
  apply cwp_bind, (r_setNodeAsMaster s _ my); [done..|]. intros s1 my1 Hk1 Hmy1 Hm1 Hsl1 Ho1 _ _ _ Hothers. destruct (Hothers old x Hne Hx) as [l Hx1].
  apply cwp_bind, cwp_modify. set (s2 := with_out _ s1). assert (kept s s2) as Hk2 by (eapply kept_trans; [exact Hk1 | by apply kept_same; [apply Hk1|]]).
  pose proof (proj1 (proj2 Hk2)) as Hme. assert (replicates (out s2) = None) as Hrep by (cbn; by destruct (replicates (out s1)) eqn:E).
  apply cwp_bind, (r_take_slots s2 old _ my1 (with_slaves l x)); [apply Hk2 | by rewrite Hme | done | done | by rewrite Hme |]. intros s3 Hk3 Hso3 Ho3.
  destruct (slots_only_slave _ _ _ my1 Hso3 (eq_trans (f_equal (fun n => nodes (tab s2) !! n) Hme) Hmy1)) as (my3 & Hmy3 & Hf3 & _). rewrite Hme in Hmy3.
  assert (took_over s old s3) as H3.
  { constructor.
    - by eapply kept_trans.
    - intros j. by rewrite Ho3, Hme; change (owner (tab s2)) with (owner (tab s1)); rewrite Ho1.
    - exists my3. split; [done|]. unfold nodeIsMaster, nodeIsSlave in *. by rewrite Hf3.
    - by destruct Hso3 as (_ & _ & _ & -> & _). }
  assert (rel true s3 s3) as Hr by (by split; [apply H3|]).
  apply cwp_bind. eapply cwp_mono; [apply (k_updateState conf clock true s3 s3 Hr)|]. intros s4 [] [Hr4 _].
  apply cwp_bind. eapply cwp_mono; [apply (k_pong true s3 gossip false s4 Hr4)|]. intros s5 [] [[_ Ha] _].
  apply cwp_modify. by apply (took_over_aside s old s3).
Qed.

(** Our master, when we are a slave that follows one. *)
Lemma my_master s my old : table_ok s -> nodes (tab s) !! myself s = Some my -> (if nodeIsMaster my then None else slaveof my) = Some old ->
  nodeIsMaster my = false /\ nodeIsSlave my = true /\ slaveof my = Some old /\ old <> myself s.
Proof.
  intros Hok Hmy Hold. destruct (to_me s Hok) as (x & Hx & Hms & Hsl). assert (x = my) as -> by congruence. destruct (nodeIsMaster my); [done|].
  destruct Hsl as (m & Hm & Hne). split_and!; [done | by destruct (nodeIsSlave my) | done | congruence].
Qed.

Lemma k_replaceMaster gossip : safe (clusterFailoverReplaceYourMaster conf clock gossip).
Proof.
  intros s Hs. pose proof Hs as (Hok & _). destruct (to_me s Hok) as (my & Hmy & _). destruct (if nodeIsMaster my then None else slaveof my) as [old|] eqn:Eold.
  - destruct (my_master s my old Hok Hmy Eold) as (Hm & _ & Hsl & Hne). eapply cwp_mono; [by apply (r_replaceMaster gossip s old my)|].
    intros s' [] H. split; [|done]. eapply kept_trans; [exact Hs | apply H].
  - apply cwp_bind, cwp_get. apply cwp_bind, (cwp_me my); [done|]. rewrite Eold. by apply cwp_ret.
Qed.

Lemma k_win gossip : safe (win_election conf clock gossip).
Proof.
  step (apply k_get) as s Hs. step (apply keeps_me) as my _. step (apply (keeps_when (P := fun _ => True)); [intros _; apply k_mod; [by apply live_me | k_minor] | done]) as [] _.
  apply k_replaceMaster.
Qed.

Lemma k_request st : keeps st s0 clusterRequestFailoverAuth (fun _ => True).
Proof. step (apply k_hdr) as m _. step (apply k_get) as s _. apply k_broadcast. Qed.

Lemma k_next_epoch' st : keeps st s0 next_epoch (fun _ => True).
Proof. step (by apply (k_modify (P := fun _ => True))) as [] _. step (apply k_get) as s _. by apply k_ret. Qed.

Lemma k_start st : keeps st s0 start_election (fun _ => True).
Proof.
  step (apply k_next_epoch') as e _. step (by apply (k_modify (P := fun _ => True))) as [] _. step (apply k_request) as [] _.
  step (by apply (k_modify (P := fun _ => True))) as [] _. apply k_todo.
Qed.

Lemma kept_slave s s1 my : same_table s s1 -> nodes (tab s) !! myself s = Some my -> nodes (tab s1) !! myself s1 = Some my.
Proof. intros (-> & -> & _) H. exact H. Qed.

Lemma r_schedule st gossip chance s my : rel st s0 s -> nodes (tab s) !! myself s = Some my -> nodeIsSlave my = true -> cwp (schedule_election clock gossip chance) s (fun s' _ => rel st s0 s' /\ True).
Proof.
  intros Hs Hmy Hsl. apply cwp_bind, cwp_bind, cwp_get. apply cwp_bind, cwp_modify, cwp_ret. apply cwp_bind, cwp_modify.
  set (s1 := with_elec _ _). assert (rel st s0 s1) as Hs1 by (by eapply rel_aside).
  apply cwp_bind, (r_rank s1 my); [by eapply rel_kept | done | done |]. generalize (rank_of s1 my) as r. intros r. clearbody s1. apply (keeps_run st s0 _ (fun _ => True)); [|exact Hs1].
  step (by apply (k_modify (P := fun _ => True))) as [] _. step (apply k_get) as s2 _.
  step (apply (keeps_when (P := fun _ => True)); [intros _ | done]) as [] _; [|apply k_pong]. step (apply k_mstime) as t _. by apply k_modify.
Qed.

(** The votes suffice. *)
Definition enough_votes (s : clusterState) : bool := auth_sent (elec s) && (auth_count (elec s) >=? c_size (hlth s) / 2 + 1).

(** Without enough votes nothing of the table changes. *)
Lemma r_slaveFailover st gossip chance s : rel st s0 s -> (st = true -> enough_votes s = false) -> cwp (clusterHandleSlaveFailover conf clock gossip chance) s (fun s' _ => rel st s0 s' /\ True).
Proof.
  intros Hs Hfew. pose proof (rel_kept st s0 s Hs) as (Hok & _). destruct (to_me s Hok) as (my & Hmy & _). apply cwp_bind, cwp_get. apply cwp_bind, cwp_bind, cwp_get. apply cwp_bind, cwp_modify, cwp_ret.
  cbv zeta. apply cwp_bind, cwp_modify. set (s1 := with_todo _ _). assert (rel st s0 s1) as Hs1 by (by eapply rel_aside). pose proof (proj1 (rel_kept st s0 s1 Hs1)) as Hok1.
  assert (nodes (tab s1) !! myself s1 = Some my) as Hmy1 by done. assert (elec s1 = elec s) as He1 by done. generalize (clock (readings s)) as t; intros t. clearbody s1. apply cwp_bind, (cwp_me my); [done|].
  destruct (if nodeIsMaster my then None else slaveof my) as [old|] eqn:Eold; [|by apply cwp_ret].
  destruct (my_master s my old Hok Hmy Eold) as (_ & Hsl & Hold & _). destruct (to_ptr s1 Hok1 _ my old Hmy1 (or_introl Hold)) as [mnd Hmnd].
  apply cwp_bind, (cwp_node old mnd); [done|]. destruct (orb _ _); [by apply cwp_ret|]. destruct (andb _ _); [by apply cwp_ret|].
  destruct (_ >? _); [by apply (r_schedule st gossip chance s1 my)|].
  apply cwp_bind. apply (cwp_mono _ _ (fun s' _ => rel st s0 s' /\ auth_count (elec s') = auth_count (elec s) /\ auth_sent (elec s') = auth_sent (elec s))).
  { apply cwp_when; [intros _ | by rewrite He1]. apply cwp_bind, (r_rank s1 my); [done..|]. generalize (rank_of s1 my) as r. intros r. apply cwp_when; [intros _ | by rewrite He1].
    apply cwp_modify. cbn. rewrite He1. split; [by eapply rel_aside | done]. }
  intros s2 [] (Hs2 & Hcount & Hsent). apply cwp_bind, cwp_bind, cwp_get. apply cwp_bind, cwp_modify, cwp_ret. set (s3 := with_readings _ _). assert (rel st s0 s3) as Hs3 by (by eapply rel_aside).
  apply cwp_bind, cwp_get. destruct (_ <? auth_time _); [by apply cwp_ret|]. destruct (t - _ >? _); [by apply cwp_ret|].
  destruct (negb _) eqn:E1; [by apply k_start|]. destruct (_ >=? _) eqn:E2; [|by apply cwp_ret]. destruct st; [|by apply k_win].
  specialize (Hfew eq_refl). unfold enough_votes in Hfew. cbn in E1, E2. rewrite Hsent in E1. rewrite Hcount in E2. rewrite E2 in Hfew. by destruct (auth_sent (elec s)).
Qed.

Lemma k_slaveFailover gossip chance : safe (clusterHandleSlaveFailover conf clock gossip chance).
Proof. intros s Hs. by apply (r_slaveFailover false). Qed.

Lemma k_resetMF st : keeps st s0 resetManualFailover (fun _ => True).
Proof. by apply k_modify. Qed.

Lemma k_mfTimeout : safe (manualFailoverCheckTimeout clock).
Proof. step (apply k_get) as s _. k_if. step (apply k_mstime) as t _. apply keeps_when; [intros _; apply k_resetMF | done]. Qed.

Lemma k_manual : safe clusterHandleManualFailover.
Proof. step (apply k_get) as s _. k_if. apply keeps_when; [intros _; by apply k_modify | done]. Qed.

(** ** Packets *)

(** A packet comes from another node and its bitmaps have 16384 bits.  It is not part of
    a handshake: a MEET, or a packet on the link that we opened, comes from a node that
    is known and not in a handshake. *)
Definition packet_ok (s : clusterState) (on_link : bool) (hdr : clusterMsg) : Prop :=
  m_sender hdr <> myself s /\ bitmap_ok (m_myslots hdr) /\
  (on_link = true \/ m_type hdr = MsgMeet -> exists nd, nodes (tab s) !! m_sender hdr = Some nd /\ nodeInHandshake nd = false) /\
  forall e n slots, m_data hdr = NodeCfg e n slots -> bitmap_ok slots.

Lemma k_msgFail failing : safe (s ← cget; match nodes (tab s) !! failing with
    | Some nd => if has (n_flags nd) (Z.lor REDIS_NODE_FAIL REDIS_NODE_MYSELF) then mret tt else
        mod_node failing (with_n_flags (add_flags REDIS_NODE_FAIL));; t ← cluster_mstime clock; mod_node failing (with_fail_time t);;
        mod_node failing (with_n_flags (del_flags REDIS_NODE_PFAIL));; clusterDoBeforeSleep (Z.lor CLUSTER_TODO_SAVE_CONFIG CLUSTER_TODO_UPDATE_STATE)
    | None => mret tt end).
Proof.
  step (apply k_get) as s Hs. destruct (nodes (tab s) !! failing) as [nd|] eqn:En; [|by apply k_ret]. k_if. assert (live s0 failing) as Hl by (by eapply kept_live').
  step (by apply k_mod, minor_add_fail) as [] _. step (apply k_mstime) as t _. step (apply k_mod; [done | k_minor]) as [] _.
  step (by apply k_mod, minor_del_pfail) as [] _. apply k_todo.
Qed.

Lemma k_msgUpdate e about slots : bitmap_ok slots -> safe (s ← cget; match nodes (tab s) !! about with
    | None => mret tt
    | Some nd => if configEpoch nd >=? e then mret tt else
        cwhen (nodeIsSlave nd) (clusterSetNodeAsMaster about);; mod_node about (with_configEpoch e);;
        clusterDoBeforeSleep (Z.lor CLUSTER_TODO_SAVE_CONFIG CLUSTER_TODO_FSYNC_CONFIG);; clusterUpdateSlotsConfigWith about e slots
    end).
Proof.
  intros Hb s Hs. apply cwp_bind, cwp_get. destruct (nodes (tab s) !! about) as [nd|] eqn:En; [|by apply cwp_ret]. destruct (_ >=? _); [by apply cwp_ret|].
  assert (live s0 about) as Hl by (by eapply kept_live').
  apply cwp_bind, (cwp_mono _ _ (fun s' _ => kept s0 s' /\ exists nd', nodes (tab s') !! about = Some nd' /\ nodeIsSlave nd' = false)).
  { apply cwp_when; [intros _ | intros Hsl; eauto]. apply (r_setNodeAsMaster s about nd); [apply Hs | done |]. intros s' nd' Hk Hn' _ Hsl' _ _ _ _ _. split; [by eapply kept_trans | eauto]. }
  intros s1 [] (Hs1 & nd1 & Hn1 & Hsl1). apply cwp_bind, (cwp_mod_node about nd1); [done|]. apply cwp_bind, cwp_todo.
  apply (k_updateSlots about e slots Hl Hb _ (with_configEpoch e nd1)); [| apply lookup_insert_eq | done].
  eapply kept_trans; [exact Hs1|]. assert (kept s1 (with_tab (with_nodes (<[about := with_configEpoch e nd1]>)) s1)) as Hk by (apply (kept_minor s1 about nd1); [apply Hs1 | done | k_minor]).
  eapply kept_trans; [exact Hk|]. by apply kept_same; [apply Hk|].
Qed.

Lemma k_packet gossip on_link hdr : table_ok s0 -> packet_ok s0 on_link hdr -> cwp (clusterProcessPacket conf clock gossip on_link hdr) s0 (fun s' _ => kept s0 s' /\ True).
Proof.
  intros Hok (Hne & Hb & Hlink & Hdata). unfold clusterProcessPacket. apply cwp_bind, cwp_get. cbv zeta. set (n := m_sender hdr) in *.
  assert (rel false s0 s0) as Hrel by (by apply kept_refl). set (known := nodes (tab s0) !! n) in *.
  assert (forall nd, known = Some nd -> live s0 n) as Hlive by (intros nd H; red; fold known; eauto).
  apply (keeps_run false s0 _ (fun _ => True)); [|exact Hrel].
  step (apply (keeps_when (P := fun _ => True)); [intros Hg | done]) as [] _.
  { destruct known as [nd|] eqn:Ek; [|done]. apply k_note_sender. by eapply Hlive. }
  destruct (m_type hdr).
  1,2,3: step (try apply k_ping; by apply (k_ret _ _ tt (fun _ => True))) as [] _;
    (step (try (apply (keeps_when (P := fun _ => True)); [intros Hl; apply k_note_pong; destruct (Hlink (or_introl Hl)) as (nd & Hnd & _); by exists nd | done]); by apply (k_ret _ _ tt (fun _ => True))) as [] _);
    (destruct known as [nd|] eqn:Ek; [|by apply k_ret]); assert (live s0 n) as Hn by (by eapply Hlive);
    (step (by apply k_note_role) as [] _); (step (by apply k_note_slots) as [] _); (step (by apply k_note_collision) as [] _);
    destruct (m_data hdr); try (by apply k_ret); apply k_gossip; by intros ? [= <-].
  - destruct known as [nd|] eqn:Ek; [|by apply k_ret]. destruct (m_data hdr); try (by apply k_ret). apply k_msgFail.
  - destruct known as [nd|] eqn:Ek; [|by apply k_ret]. apply k_vote; [by eapply Hlive | done].
  - destruct known as [nd|] eqn:Ek; [|by apply k_ret]. step (by apply keeps_node; eapply Hlive) as x _. step (apply k_get) as s _.
    apply keeps_when; [intros _ | done]. step (by apply (k_modify (P := fun _ => True))) as [] _. apply k_todo.
  - destruct known as [nd|] eqn:Ek; [|by apply k_ret]. destruct (m_data hdr) eqn:Ed; try (by apply k_ret). apply k_msgUpdate. by eapply Hdata.
  - destruct known as [nd|] eqn:Ek; [|by apply k_ret]. k_if. step (apply k_resetMF) as [] _. step (apply k_mstime) as t _. by apply k_modify.
Qed.
End Safe.
