(* ===== verification/ClusterCmd.v ===== *)
(** * What users and clients ask of a node of the cluster (cluster.c)

    The subcommands of CLUSTER that change slots, roles and epochs, the check of the
    configuration after a restart, the migration of slaves, the work done before the
    event loop sleeps, and the routing of queries.

    Arguments come parsed: the number that [getLongLongFromObject] reads is an
    [option], and the keys of a query are those that [getKeysFromCommand] finds. *)
From Stdlib Require Import Lia ZArith String.
From stdpp Require Import base numbers list tactics option gmap fin_maps fin_sets sets.
From S2P Require Import Prelude Object Crc Cluster.

#[local] Open Scope Z_scope.

(** ** Replies *)

Inductive cluster_error :=
  | InvalidSlot | SlotUnassigned (j : Z) | SlotBusy (j : Z) | SlotTwice (j : Z)
  | NotOwner | AlreadyOwner | UnknownNode | HoldsKeys | DbNotEmpty
  | ReplicateMyself | ReplicateSlave | NotEmpty
  | SentToMaster | MasterUnknown | MasterDown
  | BadEpoch | KnowsOthers | EpochNotZero.
Inductive cluster_reply := ROk | RErr (e : cluster_error).

Definition err (e : cluster_error) : CM cluster_reply := mret (RErr e).
(** The end of a subcommand that changed something. *)
Definition done_ok : CM cluster_reply := clusterDoBeforeSleep (Z.lor CLUSTER_TODO_UPDATE_STATE CLUSTER_TODO_SAVE_CONFIG);; mret ROk.

Definition getSlotOrReply (o : option Z) : option Z :=
  match o with Some slot => if (slot <? 0) || (slot >=? REDIS_CLUSTER_SLOTS) then None else Some slot | None => None end.

(** ** Slots *)

Definition cluster_flushslots : CM cluster_reply :=
  s ← cget;
  if negb (bool_decide (keyed (out s) = ∅)) then err DbNotEmpty else
  clusterDelNodeSlots (myself s);;
  done_ok.

(** The first loop of ADDSLOTS and DELSLOTS; [seen] is the array [slots]. *)
Fixpoint check_slots (s : clusterState) (del : bool) (seen : list Z) (args : list (option Z)) : cluster_error + list Z :=
  match args with
  | [] => inr seen
  | a :: args =>
      match getSlotOrReply a with
      | None => inl InvalidSlot
      | Some slot =>
          if del && bool_decide (owner (tab s) !! slot = None) then inl (SlotUnassigned slot)
          else if negb del && bool_decide (is_Some (owner (tab s) !! slot)) then inl (SlotBusy slot)
          else if bool_decide (slot ∈ seen) then inl (SlotTwice slot)
          else check_slots s del (slot :: seen) args
      end
  end.

(** The second loop. *)
Definition change_slot (del : bool) (slots : list Z) (j : Z) (_ : unit) : CM unit :=
  cwhen (bool_decide (j ∈ slots))
    (cmodify (with_tab (fun t => mk_table (nodes t) (owner t) (migrating t) (base.delete j (importing t))));;
     s ← cget;
     retval ← (if del then clusterDelSlot j else clusterAddSlot (myself s) j);
     cassert retval).

Definition cluster_addslots (del : bool) (args : list (option Z)) : CM cluster_reply :=
  s ← cget;
  match check_slots s del [] args with
  | inl e => err e
  | inr slots => for_slots (change_slot del slots) tt;; done_ok
  end.

Definition with_migrating (f : gmap Z (list Z) -> gmap Z (list Z)) (t : table) : table := mk_table (nodes t) (owner t) (f (migrating t)) (importing t).
Definition with_importing (f : gmap Z (list Z) -> gmap Z (list Z)) (t : table) : table := mk_table (nodes t) (owner t) (migrating t) (f (importing t)).

Definition setslot_migrating (slot : Z) (n : node_name) : CM cluster_reply :=
  s ← cget;
  if negb (bool_decide (owner (tab s) !! slot = Some (myself s))) then err NotOwner else
  if negb (bool_decide (is_Some (nodes (tab s) !! n))) then err UnknownNode else
  cmodify (with_tab (with_migrating (<[slot := n]>)));;
  done_ok.

Definition setslot_importing (slot : Z) (n : node_name) : CM cluster_reply :=
  s ← cget;
  if bool_decide (owner (tab s) !! slot = Some (myself s)) then err AlreadyOwner else
  if negb (bool_decide (is_Some (nodes (tab s) !! n))) then err UnknownNode else
  cmodify (with_tab (with_importing (<[slot := n]>)));;
  done_ok.

Definition setslot_stable (slot : Z) : CM cluster_reply :=
  cmodify (with_tab (with_importing (base.delete slot)));; cmodify (with_tab (with_migrating (base.delete slot)));; done_ok.

Definition setslot_node (slot : Z) (n : node_name) : CM cluster_reply :=
  s ← cget;
  if negb (bool_decide (is_Some (nodes (tab s) !! n))) then err UnknownNode else
  if bool_decide (owner (tab s) !! slot = Some (myself s)) && negb (bool_decide (n = myself s)) && bool_decide (slot ∈ keyed (out s)) then err HoldsKeys else
  cwhen (negb (bool_decide (slot ∈ keyed (out s))) && bool_decide (is_Some (migrating (tab s) !! slot))) (cmodify (with_tab (with_migrating (base.delete slot))));;
  cwhen (bool_decide (n = myself s) && bool_decide (is_Some (importing (tab s) !! slot)))
    (clusterBumpConfigEpochWithoutConsensus;; cmodify (with_tab (with_importing (base.delete slot))));;
  clusterDelSlot slot;;
  clusterAddSlot n slot;;
  done_ok.

Inductive setslot_action := Migrating (n : node_name) | Importing (n : node_name) | Stable | Node (n : node_name).
Definition cluster_setslot (arg : option Z) (a : setslot_action) : CM cluster_reply :=
  match getSlotOrReply arg with
  | None => err InvalidSlot
  | Some slot => match a with Migrating n => setslot_migrating slot n | Importing n => setslot_importing slot n | Stable => setslot_stable slot | Node n => setslot_node slot n end
  end.

(** One slot of [verifyClusterConfigWithData]; the state of the loop is [update_config]. *)
Definition verify_slot (j : Z) (update_config : Z) : CM Z :=
  s ← cget;
  if negb (bool_decide (j ∈ keyed (out s))) then mret update_config else
  if bool_decide (owner (tab s) !! j = Some (myself s)) || bool_decide (is_Some (importing (tab s) !! j)) then mret update_config else
  match owner (tab s) !! j with
  | None => clusterAddSlot (myself s) j;; mret (update_config + 1)
  | Some o => cmodify (with_tab (with_importing (<[j := o]>)));; mret (update_config + 1)
  end.

(** [true] is [REDIS_OK]; [others] says that a database other than 0 has keys. *)
Definition verifyClusterConfigWithData (others : bool) : CM bool :=
  my ← me;
  if nodeIsSlave my then mret true else
  if others then mret false else
  for_slots verify_slot 0;; mret true.

(** ** Roles *)

Definition cluster_replicate (n : node_name) : CM cluster_reply :=
  s ← cget;
  match nodes (tab s) !! n with
  | None => err UnknownNode
  | Some nd =>
      if bool_decide (n = myself s) then err ReplicateMyself else
      if nodeIsSlave nd then err ReplicateSlave else
      my ← me;
      if nodeIsMaster my && (negb (numslots my =? 0) || negb (bool_decide (keyed (out s) = ∅))) then err NotEmpty else
      clusterSetMaster n;;
      done_ok
  end.

Definition count_if {A} (f : A -> bool) (l : list A) : Z := zlen (filter (fun x => f x = true) l).

Definition node_is (s : clusterState) (f : clusterNode -> bool) (n : node_name) : bool := match nodes (tab s) !! n with Some nd => f nd | None => false end.
Definition clusterCountNonFailingSlaves (s : clusterState) (nd : clusterNode) : Z := count_if (node_is s (fun x => negb (nodeFailed x))) (slaves nd).

(** Step 3 of the migration: the target and the candidate. *)
Definition migration_step (s : clusterState) (max_slaves : Z) (p : option node_name * node_name) (x : node_name * clusterNode) : option node_name * node_name :=
  let '(target, candidate) := p in
  let '(n, nd) := x in
  if nodeIsSlave nd || nodeFailed nd then p else
  if zlen (slaves nd) =? 0 then p else
  let okslaves := clusterCountNonFailingSlaves s nd in
  let target := if (okslaves =? 0) && bool_decide (target = None) && (numslots nd >? 0) then Some n else target in
  let candidate := if okslaves =? max_slaves then foldl (fun c x => if memcmp x c <? 0 then x else c) candidate (slaves nd) else candidate in
  (target, candidate).

Definition clusterHandleSlaveMigration (cluster_migration_barrier : Z) (max_slaves : Z) : CM unit :=
  s ← cget;
  my ← me;
  if negb (c_state (hlth s) =? REDIS_CLUSTER_OK) then mret tt else
  match slaveof my with
  | None => mret tt
  | Some mymaster =>
      mnd ← node_at mymaster;
      let okslaves := count_if (node_is s (fun x => negb (nodeFailed x) && negb (nodeTimedOut x))) (slaves mnd) in
      if okslaves <=? cluster_migration_barrier then mret tt else
      match foldl (migration_step s max_slaves) (None, myself s) (map_to_list (nodes (tab s))) with
      | (Some target, candidate) => if bool_decide (candidate = myself s) then clusterSetMaster target else mret tt
      | (None, _) => mret tt
      end
  end.

(** ** Epochs *)

Definition cluster_set_config_epoch (arg : option Z) : CM cluster_reply :=
  match arg with
  | None => err BadEpoch
  | Some epoch =>
      if epoch <? 0 then err BadEpoch else
      s ← cget;
      if Z.of_nat (size (nodes (tab s))) >? 1 then err KnowsOthers else
      my ← me;
      if negb (configEpoch my =? 0) then err EpochNotZero else
      mod_node (myself s) (with_configEpoch epoch);;
      cwhen (currentEpoch (elec s) <? epoch) (cmodify (with_elec (with_currentEpoch epoch)));;
      done_ok
  end.

Section Asked.
Context (conf : settings) (clock : nat -> Z).

Definition clusterSendMFStart (n : node_name) : CM unit := nd ← node_at n; cwhen (linked nd) (m ← clusterBuildMessageHdr MsgMFStart; clusterSendMessage n m).

Definition cluster_failover (gossip : list (node_name * Z)) (force takeover : bool) : CM cluster_reply :=
  let force := force || takeover in
  my ← me;
  if nodeIsMaster my then err SentToMaster else
  match slaveof my with
  | None => err MasterUnknown
  | Some master =>
      mnd ← node_at master;
      if negb force && (nodeFailed mnd || negb (linked mnd)) then err MasterDown else
      resetManualFailover;;
      t ← cluster_mstime clock;
      cmodify (with_mf (fun m => mk_manual (t + REDIS_CLUSTER_MF_TIMEOUT) (mf_slave m) (mf_master_offset m) (mf_can_start m)));;
      (if takeover then clusterBumpConfigEpochWithoutConsensus;; clusterFailoverReplaceYourMaster conf clock gossip
       else if force then cmodify (with_mf (fun m => mk_manual (mf_end m) (mf_slave m) (mf_master_offset m) true))
       else clusterSendMFStart master);;
      mret ROk
  end.

(** [clusterCron] finds that a PONG of [n] is late: the value of [update_state]. *)
Definition cron_late (n : node_name) : CM bool :=
  nd ← node_at n;
  if has (n_flags nd) (Z.lor REDIS_NODE_PFAIL REDIS_NODE_FAIL) then mret false else mod_node n (with_n_flags (add_flags REDIS_NODE_PFAIL));; mret true.

(** The end of [clusterCron], from the check of manual failovers on; the loop over
    the nodes gives [update_state], [orphaned_masters], [max_slaves] and [this_slaves]. *)
Definition cron_end (cluster_migration_barrier : Z) (gossip : list (node_name * Z)) (chance : Z) (update_state : bool) (orphaned_masters max_slaves this_slaves : Z) : CM unit :=
  manualFailoverCheckTimeout clock;;
  my ← me;
  cwhen (nodeIsSlave my)
    (clusterHandleManualFailover;;
     clusterHandleSlaveFailover conf clock gossip chance;;
     cwhen (negb (orphaned_masters =? 0) && (max_slaves >=? 2) && (this_slaves =? max_slaves)) (clusterHandleSlaveMigration cluster_migration_barrier max_slaves));;
  s ← cget;
  cwhen (update_state || (c_state (hlth s) =? REDIS_CLUSTER_FAIL)) (clusterUpdateState conf clock).

(** Writing the configuration to disk is not part of the state. *)
Definition clusterBeforeSleep (gossip : list (node_name * Z)) (chance : Z) : CM unit :=
  s ← cget;
  cwhen (has (todo_before_sleep s) CLUSTER_TODO_HANDLE_FAILOVER) (clusterHandleSlaveFailover conf clock gossip chance);;
  s ← cget;
  cwhen (has (todo_before_sleep s) CLUSTER_TODO_UPDATE_STATE) (clusterUpdateState conf clock);;
  cmodify (with_todo (fun _ => 0)).

(** ** Everything that happens to a node *)

Inductive command :=
  | FlushSlots | AddSlots (del : bool) (args : list (option Z)) | SetSlot (arg : option Z) (a : setslot_action)
  | Replicate (n : node_name) | SetConfigEpoch (arg : option Z) | AskFailover (gossip : list (node_name * Z)) (force takeover : bool).

Definition clusterCommand (c : command) : CM cluster_reply :=
  match c with
  | FlushSlots => cluster_flushslots
  | AddSlots del args => cluster_addslots del args
  | SetSlot arg a => cluster_setslot arg a
  | Replicate n => cluster_replicate n
  | SetConfigEpoch arg => cluster_set_config_epoch arg
  | AskFailover gossip force takeover => cluster_failover gossip force takeover
  end.

Inductive event :=
  | Packet (gossip : list (node_name * Z)) (on_link : bool) (hdr : clusterMsg)
  | Command (c : command)
  | Late (n : node_name)
  | Cron (barrier : Z) (gossip : list (node_name * Z)) (chance : Z) (update_state : bool) (orphaned_masters max_slaves this_slaves : Z)
  | Sleep (gossip : list (node_name * Z)) (chance : Z)
  | Loaded (others : bool)
  | World (o : around).

Definition happens (e : event) : CM unit :=
  match e with
  | Packet gossip on_link hdr => clusterProcessPacket conf clock gossip on_link hdr
  | Command c => clusterCommand c;; mret tt
  | Late n => cron_late n;; mret tt
  | Cron barrier gossip chance u o m t => cron_end barrier gossip chance u o m t
  | Sleep gossip chance => clusterBeforeSleep gossip chance
  | Loaded others => verifyClusterConfigWithData others;; mret tt
  | World o => cmodify (with_out (fun _ => o))
  end.
End Asked.

(** ** The routing of queries *)

(** The codes [REDIS_CLUSTER_REDIR_*]. *)
Inductive redirection := REDIR_NONE | REDIR_CROSS_SLOT | REDIR_UNSTABLE | REDIR_ASK | REDIR_MOVED | REDIR_DOWN_UNBOUND.

(** [q_asking]: the client said ASKING or the command implies it. *)
Record query := mk_query {
  q_exec : bool; q_in_multi : bool; q_asking : bool; q_client_readonly : bool; q_cmd_readonly : bool; q_keys : list (list (list Z)) }.

(** What the loop over the keys knows after the first one. *)
Record scanned := mk_scanned { firstkey : list Z; sc_slot : Z; sc_node : node_name; migrating_slot : bool; importing_slot : bool; multiple_keys : bool; missing_keys : Z }.
Definition with_multiple (x : scanned) : scanned := mk_scanned (firstkey x) (sc_slot x) (sc_node x) (migrating_slot x) (importing_slot x) true (missing_keys x).

Section Query.
(** [present]: does database 0 have the key? *)
Context (present : list Z -> bool).

Definition count_missing (key : list Z) (x : scanned) : scanned :=
  if (migrating_slot x || importing_slot x) && negb (present key)
  then mk_scanned (firstkey x) (sc_slot x) (sc_node x) (migrating_slot x) (importing_slot x) (multiple_keys x) (missing_keys x + 1) else x.

(** One key; an error ends the loop. *)
Definition scan_key (s : clusterState) (thisslot : Z) (thiskey : list Z) (x : option scanned) : redirection + scanned :=
  match x with
  | None =>
      match owner (tab s) !! thisslot with
      | None => inl REDIR_DOWN_UNBOUND
      | Some n =>
          let mig := bool_decide (n = myself s) && bool_decide (is_Some (migrating (tab s) !! thisslot)) in
          let imp := negb mig && bool_decide (is_Some (importing (tab s) !! thisslot)) in
          inr (count_missing thiskey (mk_scanned thiskey thisslot n mig imp false 0))
      end
  | Some x =>
      if bool_decide (firstkey x = thiskey) then inr (count_missing thiskey x) else
      if negb (sc_slot x =? thisslot) then inl REDIR_CROSS_SLOT else inr (count_missing thiskey (with_multiple x))
  end.

Fixpoint scan_keys (s : clusterState) (keys : list (list Z)) (x : option scanned) : option (redirection + option scanned) :=
  match keys with
  | [] => Some (inr x)
  | key :: keys =>
      thisslot ← keyHashSlot key (zlen key);
      match scan_key s thisslot key x with inl e => Some (inl e) | inr x => scan_keys s keys (Some x) end
  end.

(** The loop over the commands of the transaction. *)
Fixpoint scan_commands (s : clusterState) (cmds : list (list (list Z))) (x : option scanned) : option (redirection + option scanned) :=
  match cmds with
  | [] => Some (inr x)
  | keys :: cmds => r ← scan_keys s keys x; match r with inl e => Some (inl e) | inr x => scan_commands s cmds x end
  end.

(** The node (or [NULL]) and the error code. *)
Definition getNodeByQuery (s : clusterState) (q : query) : option (option node_name * redirection) :=
  if q_exec q && negb (q_in_multi q) then Some (Some (myself s), REDIR_NONE) else
  r ← scan_commands s (q_keys q) None;
  match r with
  | inl e => Some (None, e)
  | inr None => Some (Some (myself s), REDIR_NONE)
  | inr (Some x) =>
      if migrating_slot x && (missing_keys x >? 0) then Some (migrating (tab s) !! sc_slot x, REDIR_ASK) else
      if importing_slot x && q_asking q then
        (if multiple_keys x && (missing_keys x >? 0) then Some (None, REDIR_UNSTABLE) else Some (Some (myself s), REDIR_NONE)) else
      my ← nodes (tab s) !! myself s;
      if q_client_readonly q && q_cmd_readonly q && nodeIsSlave my && bool_decide (slaveof my = Some (sc_node x)) then Some (Some (myself s), REDIR_NONE) else
      Some (Some (sc_node x), if bool_decide (sc_node x = myself s) then REDIR_NONE else REDIR_MOVED)
  end.
End Query.
