(* ===== verification/ClusterCmdOk.v ===== *)
(** * Commands, the table of a node and the routing of queries

    The subcommands of CLUSTER keep the table consistent; ADDSLOTS and DELSLOTS do
    all or nothing.  [getNodeByQuery] is [route], which is stated without a loop. *)
From Stdlib Require Import Lia ZArith String.
From stdpp Require Import base numbers list tactics option gmap fin_maps fin_sets sets.
From S2P Require Import Prelude Object Crc Cluster ClusterOk ClusterSafe ClusterCmd.

#[local] Open Scope Z_scope.

(** ** Slots added and removed *)

Lemma getSlot_spec o j : getSlotOrReply o = Some j <-> o = Some j /\ slot j.
Proof.
  unfold getSlotOrReply, slot, REDIS_CLUSTER_SLOTS. destruct o as [x|]; [|naive_solver]. destruct ((x <? 0) || (x >=? 16384)) eqn:E1; zbool; split.
  - done.
  - intros [[= ->] ?]. lia.
  - intros [= ->]. split; [done | lia].
  - by intros [[= ->] _].
Qed.

(** What the first loop accepts. *)
Definition changeable (s : clusterState) (del : bool) (j : Z) : Prop := slot j /\ (if del then is_Some (owner (tab s) !! j) else owner (tab s) !! j = None).

Lemma check_cons s del seen a args :
  (exists j, a = Some j /\ changeable s del j /\ j ∉ seen /\ check_slots s del seen (a :: args) = check_slots s del (j :: seen) args) \/
  (forall j, a = Some j -> ~ (changeable s del j /\ j ∉ seen)) /\ exists e, check_slots s del seen (a :: args) = inl e.
Proof.
  cbn [check_slots]. destruct (getSlotOrReply a) as [j|] eqn:Ej.
  - apply getSlot_spec in Ej as [-> Hj]. unfold changeable. destruct del; cbn [andb negb].
    + case_bool_decide as E1; [right; split; [intros ? [= <-] [[_ [x Hx]] _]; congruence | eauto]|].
      case_bool_decide as E2; [right; split; [by intros ? [= <-] [_ ?] | eauto]|]. left. exists j. destruct (owner (tab s) !! j); naive_solver.
    + case_bool_decide as E1; [right; split; [intros ? [= <-] [[_ Hx] _]; rewrite Hx in E1; by destruct E1 | eauto]|].
      case_bool_decide as E2; [right; split; [by intros ? [= <-] [_ ?] | eauto]|]. left. exists j. destruct (owner (tab s) !! j); naive_solver.
  - right. split; [|eauto]. intros j -> [[Hj _] _]. rewrite (proj2 (getSlot_spec (Some j) j)) in Ej by done. done.
Qed.

Lemma check_slots_spec s del args : forall seen slots, check_slots s del seen args = inr slots <->
  exists js, args = Some <$> js /\ Forall (changeable s del) js /\ NoDup js /\ (forall j, j ∈ js -> j ∉ seen) /\ slots = rev js ++ seen.
Proof.
  induction args as [|a args IH]; intros seen slots.
  - split.
    + intros [= ->]. exists []. split_and!; try done; [constructor | by intros j Hj%elem_of_nil].
    + intros (js & Hjs & _ & _ & _ & ->). symmetry in Hjs. apply fmap_nil_inv in Hjs as ->. done.
  - destruct (check_cons s del seen a args) as [(j & -> & Hc & Hj & ->)|[Hno [e ->]]].
    + rewrite IH. split; intros (js & H1 & H2 & H3 & H4 & ->).
      * exists (j :: js). split_and!; [by rewrite H1 | by constructor | constructor; [|done] | | cbn [rev]; by rewrite <- app_assoc].
        -- intros Hin. apply (H4 j Hin). left.
        -- intros k [->|Hk]%elem_of_cons; [done|]. intros Hin. apply (H4 k Hk). by right.
      * destruct js as [|k js]; [done|]. injection H1 as <- H1. apply Forall_cons in H2 as [_ H2]. apply NoDup_cons in H3 as [H3 H3'].
        exists js. split_and!; [done.. | | cbn [rev]; by rewrite <- app_assoc]. intros k Hk [->|Hin]%elem_of_cons; [done|]. by apply (H4 k); [right|].
    + split; [done|]. intros (js & H1 & H2 & _ & H4 & _). destruct js as [|k js]; [done|]. injection H1 as -> _. apply Forall_cons in H2 as [H2 _].
      destruct (Hno k eq_refl). split; [done|]. apply H4. left.
Qed.

(** The slots [js] are given to us, or taken from their owners. *)
Definition changed (s : clusterState) (del : bool) (js : list Z) (j : Z) : option node_name :=
  if bool_decide (j ∈ js) then (if del then None else Some (myself s)) else owner (tab s) !! j.

(** Nothing but slots changes. *)
Definition slots_moved (s s' : clusterState) : Prop := kept s s' /\ elec s' = elec s /\ out s' = out s /\
  forall n, option_Forall2 (fun nd nd' => with_n_slots (n_slots nd') (numslots nd') nd = nd') (nodes (tab s) !! n) (nodes (tab s') !! n).

Lemma slots_moved_only s s1 s2 : slots_moved s s1 -> kept s1 s2 -> slots_only s1 s2 -> slots_moved s s2.
Proof.
  intros (H1 & H2 & H3 & H4) Hk (_ & K2 & _ & K4 & _ & K6). split_and!; [by eapply kept_trans | congruence | congruence |]. intros n. specialize (H4 n). specialize (K6 n).
  destruct H4 as [nd nd1 H|]; inversion K6 as [? nd2 K|]; subst; constructor. rewrite <- K, <- H. done.
Qed.

Lemma slots_moved_aside s s1 s2 : slots_moved s s1 -> same_table s1 s2 -> elec s2 = elec s1 -> out s2 = out s1 -> slots_moved s s2.
Proof.
  intros (H1 & H2 & H3 & H4) Hs E1 E2. split_and!; [eapply kept_trans; [exact H1 | by apply kept_same; [apply H1|]] | congruence | congruence |]. intros n. destruct Hs as (_ & -> & _). done.
Qed.

Lemma slots_moved_refl s : table_ok s -> slots_moved s s.
Proof. intros Hok. destruct (slots_only_refl s) as (_ & _ & _ & _ & _ & H). by split_and!. Qed.

Lemma r_change_slots s my del slots (Q : clusterState -> unit -> Prop) : table_ok s -> nodes (tab s) !! myself s = Some my -> (del = false -> nodeIsSlave my = false) -> Forall (changeable s del) slots ->
  (forall s', slots_moved s s' -> (forall j, owner (tab s') !! j = changed s del slots j) -> Q s' tt) -> cwp (for_slots (change_slot del slots) tt) s Q.
Proof.
  intros Hok Hmy Hsl Hall HQ. apply (cwp_slots _ (fun k s1 _ => slots_moved s s1 /\ forall j, owner (tab s1) !! j = if j <? k then changed s del slots j else owner (tab s) !! j)).
  - split; [by apply slots_moved_refl|]. intros j. destruct (j <? 0) eqn:E1; [|done]. zbool. unfold changed. rewrite bool_decide_eq_false_2; [done|].
    intros Hin. rewrite Forall_forall in Hall. destruct (Hall j Hin) as [Hj _]. unfold slot in Hj. lia.
  - intros k s1 [] Hk (Hm & Ho). pose proof Hm as ((Hok1 & Hme & Hd) & _ & _ & Hn).
    assert (forall s2 v, slots_moved s s2 -> (forall j, owner (tab s2) !! j = if j =? k then v else owner (tab s1) !! j) -> v = changed s del slots k ->
      slots_moved s s2 /\ forall j, owner (tab s2) !! j = if j <? k + 1 then changed s del slots j else owner (tab s) !! j) as Hnext.
    { intros s2 v Hm2 Ho2 ->. split; [done|]. intros j. rewrite Ho2, Ho. destruct (Z.eqb_spec j k) as [->|Hjk]; [by ztrue (k <? k + 1)|]. destruct (Z.ltb_spec j k), (Z.ltb_spec j (k + 1)); try lia; done. }
    apply cwp_when; intros Hin.
    + apply bool_decide_eq_true in Hin. rewrite Forall_forall in Hall. destruct (Hall k Hin) as [_ Hown].
      apply cwp_bind, cwp_modify. set (s2 := with_tab _ s1). assert (slots_moved s s2) as Hm2 by (by apply (slots_moved_aside s s1)).
      assert (owner (tab s2) = owner (tab s1)) as Ho2 by done. clearbody s2. pose proof Hm2 as ((Hok2 & Hme2 & _) & _ & _ & Hn2).
      assert (owner (tab s2) !! k = owner (tab s) !! k) as Hok' by (by rewrite Ho2, Ho; zfalse (k <? k)).
      apply cwp_bind, cwp_get. rewrite Hme2. apply cwp_bind. destruct del.
      * destruct Hown as [o Hown]. apply (r_delSlot s2 k o); [done | by rewrite Hok' |]. intros s3 Hk3 Hso3 Ho3. apply cwp_assert; [done|].
        apply (Hnext s3 None); [by eapply slots_moved_only | | unfold changed; by rewrite bool_decide_eq_true_2].
        intros j. rewrite Ho3, Ho2. destruct (Z.eqb_spec j k) as [->|]; [by rewrite lookup_delete_eq | by rewrite lookup_delete_ne].
      * specialize (Hn2 (myself s)). rewrite Hmy in Hn2. inversion Hn2 as [? my2 Hmy2|]; subst.
        apply (r_addSlot s2 (myself s) my2 k); [done | by symmetry | rewrite <- Hmy2; by apply Hsl | done | by rewrite Hok' |]. intros s3 Hk3 Hso3 Ho3. apply cwp_assert; [done|].
        apply (Hnext s3 (Some (myself s))); [by eapply slots_moved_only | | unfold changed; by rewrite bool_decide_eq_true_2].
        intros j. rewrite Ho3, Ho2. destruct (Z.eqb_spec j k) as [->|]; [by rewrite lookup_insert_eq | by rewrite lookup_insert_ne].
    + apply bool_decide_eq_false in Hin. apply (Hnext s1 (owner (tab s) !! k)); [done | | unfold changed; by rewrite bool_decide_eq_false_2].
      intros j. rewrite Ho. destruct (Z.eqb_spec j k) as [->|]; [by zfalse (k <? k) | done].
  - intros s1 [] (Hm & Ho). apply HQ; [done|]. intros j. rewrite Ho. destruct (j <? REDIS_CLUSTER_SLOTS) eqn:E1; [done|]. unfold changed. rewrite bool_decide_eq_false_2; [done|].
    intros Hin. rewrite Forall_forall in Hall. destruct (Hall j Hin) as [Hj _]. unfold slot in Hj. zbool. lia.
Qed.

(** The arguments name slots that can be changed, each once. *)
Definition args_ok (s : clusterState) (del : bool) (args : list (option Z)) (js : list Z) : Prop := args = Some <$> js /\ Forall (changeable s del) js /\ NoDup js.

Lemma r_addslots s my del args (Q : clusterState -> cluster_reply -> Prop) : table_ok s -> nodes (tab s) !! myself s = Some my -> (del = false -> nodeIsSlave my = false) ->
  (forall js s', args_ok s del args js -> slots_moved s s' -> (forall j, owner (tab s') !! j = changed s del js j) -> Q s' ROk) ->
  (forall e, (forall js, ~ args_ok s del args js) -> Q s (RErr e)) -> cwp (cluster_addslots del args) s Q.
Proof.
  intros Hok Hmy Hsl HQ1 HQ2. apply cwp_bind, cwp_get. destruct (check_slots s del [] args) as [e|slots] eqn:Ec.
  - apply cwp_ret, HQ2. intros js (H1 & H2 & H3). assert (check_slots s del [] args = inr (rev js ++ [])) as H; [|congruence].
    apply check_slots_spec. exists js. split_and!; try done. intros j _. apply not_elem_of_nil.
  - apply check_slots_spec in Ec as (js & H1 & H2 & H3 & _ & ->). rewrite app_nil_r.
    apply cwp_bind, (r_change_slots s my); [done..| |].
    { rewrite Forall_forall in H2 |- *. intros j Hj. apply H2. by rewrite (Permutation_rev js). }
    intros s1 Hm Ho. apply cwp_bind, cwp_todo, cwp_ret, (HQ1 js); [done | by apply (slots_moved_aside s s1) |].
    intros j. cbn. rewrite Ho. unfold changed. assert (bool_decide (j ∈ rev js) = bool_decide (j ∈ js)) as -> by (apply bool_decide_ext; by rewrite <- (Permutation_rev js)). done.
Qed.

(** ** The other commands *)

Section Commands.
Context (conf : settings) (clock : nat -> Z) (s0 : clusterState).

Abbreviation safe m := (keeps false s0 m (fun _ => True)).

Lemma k_err e : safe (err e).
Proof. by apply k_ret. Qed.

Lemma k_done : safe done_ok.
Proof. step (apply k_todo) as [] _. by apply k_ret. Qed.

Lemma k_same (f : clusterState -> clusterState) : (forall s, same_table s (f s)) -> safe (cmodify f).
Proof. intros Hf s Hs. apply cwp_modify. split; [|done]. eapply kept_trans; [exact Hs|]. by apply kept_same; [apply Hs|]. Qed.

Lemma k_flushslots : safe cluster_flushslots.
Proof.
  step (apply k_get) as s Hs. destruct (negb _); [apply k_err|].
  intros s1 Hs1. destruct (to_me s1 (proj1 Hs1)) as (my & Hmy & _). assert (myself s1 = myself s) as E1 by (destruct Hs as (_ & -> & _), Hs1 as (_ & -> & _); done).
  apply cwp_bind, (r_delNodeSlots s1 _ my); [apply Hs1 | by rewrite <- E1 |]. intros s2 Hk _ _. apply k_done. by eapply kept_trans.
Qed.

(** A slot moves to [n]. *)
Lemma k_move n j : live s0 n -> slot j -> forall s, kept s0 s -> (forall nd, nodes (tab s) !! n = Some nd -> nodeIsSlave nd = false) -> cwp (clusterDelSlot j;; clusterAddSlot n j;; done_ok) s (fun s' _ => kept s0 s' /\ True).
Proof.
  intros Hn Hj s Hs Hsl. destruct (proj2 (proj2 (proj2 Hs) n) Hn) as [nd Hnd]. apply cwp_bind.
  eapply cwp_mono; [apply (r_move_slot s n nd j (fun s2 _ => kept s s2)); [apply Hs | done | by apply Hsl | done | by intros s2 H1 _ _]|].
  intros s1 b H1. apply cwp_bind. eapply cwp_mono; [exact H1|]. intros s2 b2 Hk. apply k_done. by eapply kept_trans.
Qed.

(** A new epoch changes no role. *)
Lemma r_bump s (Q : clusterState -> bool -> Prop) : table_ok s ->
  (forall s' b, kept s s' -> owner (tab s') = owner (tab s) -> (forall m x, nodes (tab s') !! m = Some x -> exists y, nodes (tab s) !! m = Some y /\ n_flags x = n_flags y) -> Q s' b) ->
  cwp clusterBumpConfigEpochWithoutConsensus s Q.
Proof.
  intros Hok HQ. destruct (to_me s Hok) as (my & Hmy & _). apply cwp_bind, cwp_get. apply cwp_bind, (cwp_me my); [done|]. cbv zeta. destruct (orb _ _).
  - apply cwp_bind, cwp_bind, cwp_modify, cwp_bind, cwp_get, cwp_ret. apply cwp_bind. set (s1 := with_elec _ s). set (f := with_configEpoch _).
    assert (kept s s1) as Hk1 by (by apply kept_same). apply (cwp_mod_node _ my); [done|]. apply cwp_bind, cwp_todo, cwp_ret, HQ; [| done |].
    + eapply kept_trans; [exact Hk1|]. assert (kept s1 (with_tab (with_nodes (<[myself s := f my]>)) s1)) as Hk by (apply (kept_minor s1 _ my); [apply Hk1 | done | k_minor]).
      eapply kept_trans; [exact Hk|]. by apply kept_same; [apply Hk|].
    + intros m x Hx. cbn in Hx. apply lookup_insert_Some in Hx as [[<- <-]|[_ Hx]]; [by exists my | by exists x].
  - apply cwp_ret, HQ; [by apply kept_refl | done | eauto].
Qed.

Lemma k_setslot_node j n : slot j -> forall s, kept s0 s -> (forall nd, nodes (tab s) !! n = Some nd -> nodeIsSlave nd = false) -> cwp (setslot_node j n) s (fun s' _ => kept s0 s' /\ True).
Proof.
  intros Hj s Hs Hsl. apply cwp_bind, cwp_get. case_bool_decide as Hlive; cbn [negb]; [|by apply k_err]. destruct (andb _ _); [by apply k_err|].
  set (I := fun s' (_ : unit) => kept s0 s' /\ forall nd, nodes (tab s') !! n = Some nd -> nodeIsSlave nd = false).
  apply cwp_bind, (cwp_mono _ _ I); [by apply cwp_when; [intros _; apply cwp_modify; split; [by apply k_same|] | intros _; split]|]. intros s1 [] [Hs1 Hsl1].
  apply cwp_bind, (cwp_mono _ _ I).
  { apply cwp_when; [intros _ | intros _; by split]. apply cwp_bind, r_bump; [apply Hs1|]. intros s2 b Hk2 _ Hf2. apply cwp_modify. split; [apply k_same; [done | by eapply kept_trans]|].
    intros nd Hnd. destruct (Hf2 n nd Hnd) as (y & Hy & Hf). specialize (Hsl1 y Hy). unfold nodeIsSlave in *. by rewrite Hf. }
  intros s2 [] [Hs2 Hsl2]. apply k_move; [by apply (proj2 (proj2 Hs)) | done..].
Qed.

(** Who may get slots: not a slave. *)
Definition command_ok (s : clusterState) (c : command) : Prop :=
  match c with
  | AddSlots false _ => forall my, nodes (tab s) !! myself s = Some my -> nodeIsSlave my = false
  | SetSlot _ (Node n) => forall nd, nodes (tab s) !! n = Some nd -> nodeIsSlave nd = false
  | _ => True
  end.

Lemma k_replicate n : safe (cluster_replicate n).
Proof.
  intros s Hs. pose proof Hs as (Hok & _). destruct (to_me s Hok) as (my & Hmy & Hms & _). apply cwp_bind, cwp_get. destruct (nodes (tab s) !! n) as [nd|] eqn:En; [|by apply k_err].
  case_bool_decide as Hne; [by apply k_err|]. destruct (nodeIsSlave nd); [by apply k_err|]. apply cwp_bind, (cwp_me my); [done|].
  destruct (nodeIsMaster my && _) eqn:Em; [by apply k_err|]. apply cwp_bind, (r_setMaster s n my); [done | done | by rewrite En | done | |].
  - destruct (nodeIsMaster my); cbn [andb] in Em; [apply orb_false_iff in Em as [Em _]; by destruct (Z.eqb_spec (numslots my) 0)|].
    apply (to_slave s Hok _ my Hmy). by destruct (nodeIsSlave my).
  - intros s1 Hk _ _ _ _. apply k_done. by eapply kept_trans.
Qed.

Lemma k_set_config_epoch arg : safe (cluster_set_config_epoch arg).
Proof.
  unfold cluster_set_config_epoch. destruct arg as [epoch|]; [|apply k_err]. destruct (_ <? _); [apply k_err|]. step (apply k_get) as s Hs. destruct (_ >? _); [apply k_err|].
  step (apply keeps_me) as my _. destruct (negb _); [apply k_err|]. step (apply k_mod; [by apply live_me | k_minor]) as [] _.
  step (apply (keeps_when (P := fun _ => True)); [intros _; by apply k_modify | done]) as [] _. apply k_done.
Qed.

Lemma k_failover gossip force takeover : safe (cluster_failover conf clock gossip force takeover).
Proof.
  step (apply keeps_me) as my [_ Hmy]. destruct (nodeIsMaster my); [apply k_err|]. destruct (slaveof my) as [m|] eqn:Em; [|apply k_err].
  assert (live s0 m) as Hm by (apply Hmy; by left). step (by apply keeps_node) as mnd _. destruct (andb _ _); [apply k_err|].
  step (apply k_resetMF) as [] _. step (apply k_mstime) as t _. step (by apply (k_modify (P := fun _ => True))) as [] _.
  apply (k_bind (P := fun _ => True)); [|intros; by apply k_ret]. destruct takeover; [|destruct (force || false)].
  - step (apply k_bump) as b _. apply k_replaceMaster.
  - by apply k_modify.
  - step (by apply keeps_node) as x _. apply keeps_when; [intros _ | done]. step (apply k_hdr) as msg _. apply k_send.
Qed.

Lemma k_command c : table_ok s0 -> command_ok s0 c -> cwp (clusterCommand conf clock c) s0 (fun s' _ => kept s0 s' /\ True).
Proof.
  intros Hok Hc. assert (kept s0 s0) as H0 by done. destruct c as [|del args|arg a|n|arg|gossip force takeover]; cbn [clusterCommand].
  - by apply k_flushslots.
  - destruct (to_me s0 Hok) as (my & Hmy & _). apply (r_addslots s0 my); [done | done | | by intros js s' _ [Hk _] _ | done]. intros ->. by apply Hc.
  - unfold cluster_setslot. destruct (getSlotOrReply arg) as [j|] eqn:Ej; [|by apply k_err]. apply getSlot_spec in Ej as [_ Hj]. destruct a as [n|n| |n]; [| | |by apply k_setslot_node].
    + apply cwp_bind, cwp_get. destruct (negb _); [by apply k_err|]. destruct (negb _); [by apply k_err|]. apply cwp_bind, cwp_modify, k_done. by apply kept_same.
    + apply cwp_bind, cwp_get. destruct (bool_decide _); [by apply k_err|]. destruct (negb _); [by apply k_err|]. apply cwp_bind, cwp_modify, k_done. by apply kept_same.
    + apply cwp_bind, cwp_modify, cwp_bind, cwp_modify, k_done. by apply kept_same.
  - by apply k_replicate.
  - by apply k_set_config_epoch.
  - by apply k_failover.
Qed.

(** ** The other events *)

Lemma k_verify others : safe (verifyClusterConfigWithData others).
Proof.
  intros s Hs. destruct (to_me s (proj1 Hs)) as (my & Hmy & _). apply cwp_bind, (cwp_me my); [done|]. destruct (nodeIsSlave my) eqn:Esl; [by apply cwp_ret|].
  destruct others; [by apply cwp_ret|].
  apply cwp_bind, (cwp_slots _ (fun _ s1 _ => kept s0 s1 /\ exists my1, nodes (tab s1) !! myself s1 = Some my1 /\ nodeIsSlave my1 = false)); [eauto | | by intros s1 a [Hs1 _]; apply cwp_ret].
  clear s Hs my Hmy Esl. intros j s1 a Hj [Hs1 (my & Hmy & Hsl)]. apply cwp_bind, cwp_get. destruct (negb _); [apply cwp_ret; eauto|]. destruct (orb _ _); [apply cwp_ret; eauto|].
  destruct (owner (tab s1) !! j) as [o|] eqn:Eo.
  - apply cwp_bind, cwp_modify, cwp_ret. split; [by apply k_same | eauto].
  - apply cwp_bind, (r_addSlot s1 _ my); [apply Hs1 | done..|]. intros s2 Hk Hso _. apply cwp_ret. split; [by eapply kept_trans|].
    destruct (slots_only_slave _ _ _ my Hso Hmy) as (my2 & Hmy2 & Hf & _). exists my2. unfold nodeIsSlave in *. rewrite Hf. destruct Hso as (-> & _). done.
Qed.

(** The target is a node that is not a slave. *)
Lemma migration_target s max_slaves l : forall p, (forall t, p.1 = Some t -> exists nd, nodes (tab s) !! t = Some nd /\ nodeIsSlave nd = false) -> (forall x, x ∈ l -> nodes (tab s) !! x.1 = Some x.2) ->
  forall t, (foldl (migration_step s max_slaves) p l).1 = Some t -> exists nd, nodes (tab s) !! t = Some nd /\ nodeIsSlave nd = false.
Proof.
  induction l as [|[n nd] l IH]; intros p Hp Hl; [exact Hp|]. cbn [foldl]. apply IH; [|intros x Hx; apply Hl; by right].
  specialize (Hl (n, nd) (list_elem_of_here _ _)). destruct p as [target candidate]. cbn [migration_step fst snd] in *.
  destruct (nodeIsSlave nd || nodeFailed nd) eqn:E1; [exact Hp|]. destruct (zlen (slaves nd) =? 0); [exact Hp|]. cbn zeta. intros t.
  destruct (_ && _ && _); [|by apply Hp]. intros [= <-]. exists nd. split; [done|]. by destruct (nodeIsSlave nd).
Qed.

Lemma k_migration barrier max_slaves : forall s my, kept s0 s -> nodes (tab s) !! myself s = Some my -> nodeIsSlave my = true -> cwp (clusterHandleSlaveMigration barrier max_slaves) s (fun s' _ => kept s0 s' /\ True).
Proof.
  intros s my Hs Hmy Hsl. pose proof Hs as (Hok & _). apply cwp_bind, cwp_get. apply cwp_bind, (cwp_me my); [done|]. destruct (negb _); [by apply cwp_ret|].
  destruct (slaveof my) as [m|] eqn:Em; [|by apply cwp_ret]. destruct (to_ptr s Hok _ my m Hmy (or_introl Em)) as [mnd Hm]. apply cwp_bind, (cwp_node m mnd); [done|]. cbv zeta.
  destruct (_ <=? _); [by apply cwp_ret|]. destruct (foldl _ _ _) as [[target|] candidate] eqn:Ef; [|by apply cwp_ret]. destruct (bool_decide _); [|by apply cwp_ret].
  destruct (migration_target s max_slaves (map_to_list (nodes (tab s))) (None, myself s)) with (t := target) as (nd & Hnd & Hnsl); [done | by intros [n x] Hx%elem_of_map_to_list | by rewrite Ef |].
  apply (r_setMaster s target my); [done | congruence | by rewrite Hnd | done | by apply (to_slave s Hok (myself s) my) |]. intros s' Hk _ _ _ _. split; [by eapply kept_trans | done].
Qed.

Lemma k_migrate barrier max_slaves : safe (clusterHandleSlaveMigration barrier max_slaves).
Proof.
  intros s Hs. destruct (to_me s (proj1 Hs)) as (my & Hmy & Hms & Hsl). destruct (nodeIsMaster my) eqn:Em; [|apply (k_migration barrier max_slaves s my); [done | done | by destruct (nodeIsSlave my)]].
  apply cwp_bind, cwp_get. apply cwp_bind, (cwp_me my); [done|]. rewrite Hsl. destruct (c_state _ =? _); by apply cwp_ret.
Qed.

Lemma k_late n : live s0 n -> safe (cron_late n).
Proof.
  intros Hn. step (by apply keeps_node) as nd _. destruct (has _ _); [by apply k_ret|]. step (apply k_mod; [done|]) as [] _; [|by apply k_ret].
  apply minor_flags; intros f; change REDIS_NODE_PFAIL with (2 ^ 2); [change REDIS_NODE_MASTER with (2 ^ 0) | change REDIS_NODE_SLAVE with (2 ^ 1)]; rewrite has_add by lia; apply orb_false_r.
Qed.

Lemma k_sleep gossip chance : safe (clusterBeforeSleep conf clock gossip chance).
Proof.
  step (apply k_get) as s _. step (apply (keeps_when (P := fun _ => True)); [intros _; apply k_slaveFailover | done]) as [] _. step (apply k_get) as s1 _.
  step (apply (keeps_when (P := fun _ => True)); [intros _; apply k_updateState | done]) as [] _. by apply k_modify.
Qed.

Lemma k_cron barrier gossip chance u o m t : safe (cron_end conf clock barrier gossip chance u o m t).
Proof.
  step (apply k_mfTimeout) as [] _. step (apply keeps_me) as my _. apply (k_bind (P := fun _ => True)).
  { apply keeps_when; [intros _ | done]. step (apply k_manual) as [] _. step (apply k_slaveFailover) as [] _. apply keeps_when; [intros _; apply k_migrate | done]. }
  intros [] _. step (apply k_get) as s _. apply keeps_when; [intros _; apply k_updateState | done].
Qed.

(** A packet is well formed, slaves get no slots and the nodes named are known. *)
Definition event_ok (s : clusterState) (e : event) : Prop :=
  match e with
  | Packet _ on_link hdr => packet_ok s on_link hdr
  | Command c => command_ok s c
  | Late n => is_Some (nodes (tab s) !! n)
  | _ => True
  end.

Lemma k_event e : table_ok s0 -> event_ok s0 e -> cwp (happens conf clock e) s0 (fun s' _ => kept s0 s' /\ True).
Proof.
  intros Hok He. assert (kept s0 s0) as H0 by done. destruct e as [gossip on_link hdr|c|n|barrier gossip chance u o m t|gossip chance|others|w]; cbn [happens].
  - by apply k_packet.
  - apply cwp_bind. eapply cwp_mono; [by apply k_command|]. intros s' r [Hk _]. by apply cwp_ret.
  - apply cwp_bind. eapply cwp_mono; [by apply k_late|]. intros s' r [Hk _]. by apply cwp_ret.
  - by apply k_cron.
  - by apply k_sleep.
  - apply cwp_bind. eapply cwp_mono; [by apply k_verify|]. intros s' r [Hk _]. by apply cwp_ret.
  - by apply k_same.
Qed.
End Commands.

(** ** The life of a node *)

(** What can have happened to a node since it started as [s0]. *)
Inductive lived (conf : settings) (clock : nat -> Z) (s0 : clusterState) : clusterState -> Prop :=
  | lived_start : lived conf clock s0 s0
  | lived_event s e s' : lived conf clock s0 s -> event_ok s e -> happens conf clock e s = Some (s', tt) -> lived conf clock s0 s'.

Lemma lived_kept conf clock s0 s : table_ok s0 -> lived conf clock s0 s -> kept s0 s.
Proof.
  intros Hok. induction 1 as [|s e s' _ IH He Hs]; [done|]. pose proof (k_event conf clock s e (proj1 IH) He) as H. unfold cwp in H. rewrite Hs in H.
  eapply kept_trans; [exact IH | apply H].
Qed.

(** The node never stops at a failed assertion or a pointer to nowhere. *)
Lemma lived_goes_on conf clock s0 s e : table_ok s0 -> lived conf clock s0 s -> event_ok s e -> exists s', happens conf clock e s = Some (s', tt).
Proof.
  intros Hok Hs He. pose proof (lived_kept conf clock s0 s Hok Hs) as Hk. pose proof (k_event conf clock s e (proj1 Hk) He) as H. unfold cwp in H.
  destruct (happens conf clock e s) as [[s' []]|]; [eauto | done].
Qed.

(** ** The routing of queries *)

Definition hash_of (key : list Z) : Z := default 0 (keyHashSlot key (zlen key)).
Definition hashed (key : list Z) : Prop := keyHashSlot key (zlen key) = Some (hash_of key).

Section Route.
Context (present : list Z -> bool) (s : clusterState).

(** Where a query goes, without the loops. *)
Definition route (my : clusterNode) (q : query) : option node_name * redirection :=
  let here := (Some (myself s), REDIR_NONE) in
  if q_exec q && negb (q_in_multi q) then here else
  match concat (q_keys q) with
  | [] => here
  | k :: keys =>
      let slot := hash_of k in
      match owner (tab s) !! slot with
      | None => (None, REDIR_DOWN_UNBOUND)
      | Some n =>
          if existsb (fun k' => negb (hash_of k' =? slot)) keys then (None, REDIR_CROSS_SLOT) else
          let missing := existsb (fun k => negb (present k)) (k :: keys) in
          let leaving := bool_decide (n = myself s) && bool_decide (is_Some (migrating (tab s) !! slot)) in
          let arriving := negb leaving && bool_decide (is_Some (importing (tab s) !! slot)) in
          if leaving && missing then (migrating (tab s) !! slot, REDIR_ASK) else
          if arriving && q_asking q then (if existsb (fun k' => negb (bool_decide (k = k'))) keys && missing then (None, REDIR_UNSTABLE) else here) else
          if q_client_readonly q && q_cmd_readonly q && nodeIsSlave my && bool_decide (slaveof my = Some n) then here else
          (Some n, if bool_decide (n = myself s) then REDIR_NONE else REDIR_MOVED)
      end
  end.

Lemma scan_commands_concat cmds : forall x, scan_commands present s cmds x = scan_keys present s (concat cmds) x.
Proof.
  assert (forall keys rest x, scan_keys present s (keys ++ rest) x = r ← scan_keys present s keys x; match r with inl e => Some (inl e) | inr x => scan_keys present s rest x end) as Happ.
  { induction keys as [|k keys IH]; intros rest x; cbn [app scan_keys]; [done|]. destruct (keyHashSlot k (zlen k)) as [j|]; [|done]. cbn [mbind option_bind]. destruct (scan_key present s j k x); [done | apply IH]. }
  induction cmds as [|keys cmds IH]; intros x; cbn [scan_commands concat]; [done|]. rewrite Happ. destruct (scan_keys present s keys x) as [[e|y]|]; [done | apply IH | done].
Qed.

(** After the first key. *)
Definition scanned_all (x : scanned) (keys : list (list Z)) : scanned :=
  mk_scanned (firstkey x) (sc_slot x) (sc_node x) (migrating_slot x) (importing_slot x) (multiple_keys x || existsb (fun k => negb (bool_decide (firstkey x = k))) keys)
    (missing_keys x + if migrating_slot x || importing_slot x then count_if (fun k => negb (present k)) keys else 0).

Lemma count_if_cons {A} (f : A -> bool) a l : count_if f (a :: l) = (if f a then 1 else 0) + count_if f l.
Proof. unfold count_if. rewrite filter_cons. destruct (decide (f a = true)) as [E1|E1]; [rewrite E1 | destruct (f a); [done|]]; cbn; lia. Qed.

Lemma scan_rest keys : forall x, Forall hashed keys -> hash_of (firstkey x) = sc_slot x -> 
  scan_keys present s keys (Some x) = Some (if existsb (fun k => negb (hash_of k =? sc_slot x)) keys then inl REDIR_CROSS_SLOT else inr (Some (scanned_all x keys))).
Proof.
  induction keys as [|k keys IH]; intros x Hh Hx.
  - cbn. do 3 f_equal. unfold scanned_all. cbn [existsb]. change (count_if _ []) with 0. destruct x as [k n j [] [] mu mi]; cbn; rewrite orb_false_r; f_equal; lia.
  - apply Forall_cons in Hh as [Hk Hh]. cbn [scan_keys existsb]. rewrite Hk. cbn [mbind option_bind scan_key].
    assert (forall y, firstkey y = firstkey x -> sc_slot y = sc_slot x -> sc_node y = sc_node x -> migrating_slot y = migrating_slot x -> importing_slot y = importing_slot x -> 
      multiple_keys y = multiple_keys x || negb (bool_decide (firstkey x = k)) -> missing_keys y = missing_keys x -> hash_of k = sc_slot x ->
      scan_keys present s keys (Some (count_missing present k y)) = Some (if negb (hash_of k =? sc_slot x) || existsb (fun k => negb (hash_of k =? sc_slot x)) keys then inl REDIR_CROSS_SLOT else inr (Some (scanned_all x (k :: keys))))) as Hgo.
    { intros y E1 E2 E3 E4 E5 E6 E7 E8. assert (firstkey (count_missing present k y) = firstkey x /\ sc_slot (count_missing present k y) = sc_slot x) as [F1 F2] by (unfold count_missing; destruct (_ && _); done).
      rewrite IH by (try done; congruence). rewrite F2, E8, Z.eqb_refl. cbn [negb orb]. destruct (existsb _ keys); [done|]. do 3 f_equal. unfold scanned_all. rewrite count_if_cons. cbn [existsb].
      unfold count_missing. destruct x as [k0 j n mi im mu me], y as [k1 j1 n1 mi1 im1 mu1 me1]. cbn in *. subst. destruct mi, im, (present k); cbn; f_equal; rewrite ?orb_assoc; try done; lia. }
    case_bool_decide as Ek.
    + apply Hgo; try done; [cbn; by rewrite orb_false_r | congruence].
    + destruct (Z.eqb_spec (sc_slot x) (hash_of k)) as [Es|Es]; cbn [negb].
      * apply Hgo; try done. cbn. by rewrite orb_true_r.
      * by zfalse (hash_of k =? sc_slot x).
Qed.

Lemma count_pos {A} (f : A -> bool) l : (count_if f l >? 0) = existsb f l.
Proof. induction l as [|a l IH]; [done|]. rewrite count_if_cons. cbn [existsb]. rewrite <- IH. assert (0 <= count_if f l) by (unfold count_if; lia). destruct (f a); cbn [orb]; [apply Z.gtb_lt; lia | done]. Qed.

Lemma route_ok my q : nodes (tab s) !! myself s = Some my -> Forall hashed (concat (q_keys q)) -> getNodeByQuery present s q = Some (route my q).
Proof.
  intros Hmy Hh. unfold getNodeByQuery, route. destruct (q_exec q && negb (q_in_multi q)); [done|]. rewrite scan_commands_concat. destruct (concat (q_keys q)) as [|k keys]; [done|].
  apply Forall_cons in Hh as [Hk Hh]. cbn [scan_keys]. rewrite Hk. cbn [mbind option_bind scan_key]. destruct (owner (tab s) !! hash_of k) as [n|]; [|done]. cbv zeta.
  set (leaving := bool_decide (n = myself s) && bool_decide (is_Some (migrating (tab s) !! hash_of k))). set (arriving := negb leaving && bool_decide (is_Some (importing (tab s) !! hash_of k))).
  assert (count_missing present k (mk_scanned k (hash_of k) n leaving arriving false 0) = 
    mk_scanned k (hash_of k) n leaving arriving false (if leaving || arriving then (if negb (present k) then 1 else 0) else 0)) as -> by (unfold count_missing; cbn; by destruct (leaving || arriving), (present k)).
  rewrite scan_rest by done. cbn [sc_slot]. destruct (existsb _ keys); [done|]. unfold scanned_all; cbn [mbind option_bind migrating_slot importing_slot multiple_keys missing_keys sc_node sc_slot firstkey orb].
  assert (forall c : bool, (if c then if negb (present k) then 1 else 0 else 0) + (if c then count_if (fun k => negb (present k)) keys else 0) >? 0 = c && existsb (fun k => negb (present k)) (k :: keys)) as Hc.
  { intros [|]; [|done]. rewrite <- (count_pos _ (k :: keys)), count_if_cons. done. }
  rewrite Hc, Hmy. subst arriving. clearbody leaving. cbn [mbind option_bind].
  destruct leaving; cbn [orb andb negb]; [|destruct (bool_decide (is_Some (importing (tab s) !! hash_of k))); cbn [andb]]; repeat (case_match; try done); by simplify_eq/=.
Qed.
End Route.
