(* ===== verification/Election.v ===== *)
(** * Votes

    What each action of a node does to its part of an election: its epochs, the votes
    it counted and the votes and requests it sent.  [calm w m P]: wherever it ends, the
    action [m] of the node [w] leaves the election alone and sends no vote and no
    request for one. *)
From Stdlib Require Import Lia ZArith String.
From stdpp Require Import base numbers list tactics option gmap fin_maps fin_sets sets.
From S2P Require Import Prelude Object Cluster ClusterCmd.

#[local] Open Scope Z_scope.

(** ** Calm actions *)

(** A message that is not part of an election, from [w]. *)
Definition plain (w : node_name) (p : node_name * clusterMsg) : Prop := m_sender p.2 = w /\ m_type p.2 <> MsgAuthAck /\ m_type p.2 <> MsgAuthRequest.

Definition says (w : node_name) (s s' : clusterState) : Prop := myself s' = myself s /\ exists l, outbox s' = outbox s ++ l /\ Forall (plain w) l.
Definition calm_rel (w : node_name) (s s' : clusterState) : Prop := says w s s' /\ elec s' = elec s.

Definition calm (w : node_name) {A} (m : CM A) (P : A -> Prop) : Prop := forall s s' a, myself s = w -> m s = Some (s', a) -> calm_rel w s s' /\ P a.
Abbreviation calm' w m := (calm w m (fun _ => True)).

Lemma says_refl w s : says w s s.
Proof. split; [done|]. exists []. by rewrite app_nil_r. Qed.

Lemma says_trans w s s1 s2 : says w s s1 -> says w s1 s2 -> says w s s2.
Proof. intros [H1 (l & H2 & H3)] [K1 (k & K2 & K3)]. split; [congruence|]. exists (l ++ k). rewrite K2, H2, app_assoc. split; [done | by apply Forall_app]. Qed.

Lemma calm_refl w s : calm_rel w s s.
Proof. split; [apply says_refl | done]. Qed.

Lemma calm_trans w s s1 s2 : calm_rel w s s1 -> calm_rel w s1 s2 -> calm_rel w s s2.
Proof. intros [H1 H2] [K1 K2]. split; [by eapply says_trans | congruence]. Qed.

Section Calm.
Context (w : node_name).

Lemma calm_ret {A} (a : A) (P : A -> Prop) : P a -> calm w (mret a) P.
Proof. intros HP s s' a' Hw [= <- <-]. split; [apply calm_refl | done]. Qed.

Lemma calm_bind {A B} (m : CM B) (f : B -> CM A) (P : B -> Prop) (P' : A -> Prop) : calm w m P -> (forall b, P b -> calm w (f b) P') -> calm w (m ≫= f) P'.
Proof.
  intros Hm Hf s s' a Hw H. unfold mbind, CM_bind in H. destruct (m s) as [[s1 b]|] eqn:E1; [|done]. destruct (Hm s s1 b Hw E1) as [H1 Hb]. pose proof H1 as [[Hw1 _] _].
  destruct (Hf b Hb s1 s' a) as [H2 Ha]; [congruence | done |]. split; [by eapply calm_trans | done].
Qed.

Lemma calm_seq {A B} (m : CM B) (f : B -> CM A) (P : A -> Prop) : calm' w m -> (forall b, calm w (f b) P) -> calm w (m ≫= f) P.
Proof. intros Hm Hf. eapply calm_bind; [exact Hm | intros b _; apply Hf]. Qed.

Lemma calm_mono {A} (m : CM A) (P P' : A -> Prop) : calm w m P -> (forall a, P a -> P' a) -> calm w m P'.
Proof. intros Hm HP s s' a Hw H. destruct (Hm s s' a Hw H). auto. Qed.

Lemma calm_get : calm' w cget.
Proof. intros s s' a Hw [= <- <-]. split; [apply calm_refl | done]. Qed.

Lemma calm_who : calm w cget (fun s => myself s = w).
Proof. intros s s' a Hw [= <- <-]. split; [apply calm_refl | done]. Qed.

Lemma calm_modify f : (forall s, myself (f s) = myself s) -> (forall s, elec (f s) = elec s) -> (forall s, outbox (f s) = outbox s) -> calm' w (cmodify f).
Proof. intros H1 H2 H3 s s' a Hw [= <- <-]. split; [|done]. split; [|done]. split; [done|]. exists []. by rewrite app_nil_r. Qed.

Lemma calm_lift {A} (o : option A) : calm' w (clift o).
Proof. destruct o; [by apply calm_ret | done]. Qed.

Lemma calm_assert b : calm' w (cassert b).
Proof. destruct b; [by apply calm_ret | done]. Qed.

Lemma calm_when b m : calm' w m -> calm' w (cwhen b m).
Proof. intros Hm. destruct b; [done | by apply calm_ret]. Qed.

Lemma calm_each {A} (body : A -> CM unit) l : (forall a, calm' w (body a)) -> calm' w (ceach body l).
Proof. intros Hb. induction l as [|a l IH]; cbn [ceach]; [by apply calm_ret | by apply calm_seq]. Qed.

Lemma calm_slots {A} (body : Z -> A -> CM A) a : (forall j a, calm' w (body j a)) -> calm' w (for_slots body a).
Proof.
  intros Hb. unfold for_slots. generalize (Z.to_nat REDIS_CLUSTER_SLOTS) as n, 0 as j; intros n j. revert j a. induction n as [|n IH]; intros j a; cbn [cfold]; [by apply calm_ret|].
  by apply calm_seq.
Qed.

Lemma calm_node n : calm' w (node_at n).
Proof. apply calm_seq; [apply calm_get | intros s; apply calm_lift]. Qed.

Lemma calm_me : calm' w me.
Proof. apply calm_seq; [apply calm_get | intros s; apply calm_node]. Qed.

Lemma calm_mod n f : calm' w (mod_node n f).
Proof. apply calm_seq; [apply calm_node | intros nd; by apply calm_modify]. Qed.

Lemma calm_todo f : calm' w (clusterDoBeforeSleep f).
Proof. by apply calm_modify. Qed.
End Calm.

Create HintDb calm.
#[export] Hint Resolve calm_get calm_lift calm_assert calm_node calm_me calm_mod calm_todo : calm.

(** Through sequences, branches and loops down to the actions that are known. *)
Ltac calm_step :=
  match goal with
  | |- calm _ (mret _) _ => by apply calm_ret
  | |- calm _ (cmodify _) _ => by apply calm_modify
  | |- calm _ (cwhen _ _) _ => apply calm_when
  | |- calm _ (ceach _ _) _ => apply calm_each; intros ?
  | |- calm _ (for_slots _ _) _ => apply calm_slots; intros ? ?
  | |- calm _ (_ ≫= _) _ => apply calm_seq; [|intros ?]
  | |- calm _ (let _ := _ in _) _ => cbv zeta
  | |- calm _ (if ?b then _ else _) _ => destruct b
  | |- calm _ (match ?x with _ => _ end) _ => destruct x
  | |- calm _ ((fun _ => _) _) _ => cbn beta
  | |- calm _ _ _ => solve [auto with calm]
  end.
Ltac calm_tac := intros; repeat calm_step.

Section Actions.
Context (conf : settings) (clock : nat -> Z) (w : node_name).

Lemma c_setBit n j : calm' w (clusterNodeSetSlotBit n j).
Proof. unfold clusterNodeSetSlotBit. calm_tac. Qed.
#[local] Hint Resolve c_setBit : calm.

Lemma c_clearBit n j : calm' w (clusterNodeClearSlotBit n j).
Proof. unfold clusterNodeClearSlotBit. calm_tac. Qed.
#[local] Hint Resolve c_clearBit : calm.

Lemma c_getBit n j : calm' w (clusterNodeGetSlotBit n j).
Proof. unfold clusterNodeGetSlotBit. calm_tac. Qed.
#[local] Hint Resolve c_getBit : calm.

Lemma c_addSlot n j : calm' w (clusterAddSlot n j).
Proof. unfold clusterAddSlot. calm_tac. Qed.
#[local] Hint Resolve c_addSlot : calm.

Lemma c_delSlot j : calm' w (clusterDelSlot j).
Proof. unfold clusterDelSlot. calm_tac. Qed.
#[local] Hint Resolve c_delSlot : calm.

Lemma c_delNodeSlots n : calm' w (clusterDelNodeSlots n).
Proof. unfold clusterDelNodeSlots. calm_tac. Qed.
#[local] Hint Resolve c_delNodeSlots : calm.

Lemma c_closeAll : calm' w (clusterCloseAllSlots).
Proof. unfold clusterCloseAllSlots. calm_tac. Qed.
#[local] Hint Resolve c_closeAll : calm.

Lemma c_removeSlave m n : calm' w (clusterNodeRemoveSlave m n).
Proof. unfold clusterNodeRemoveSlave. calm_tac. Qed.
#[local] Hint Resolve c_removeSlave : calm.

Lemma c_addSlave m n : calm' w (clusterNodeAddSlave m n).
Proof. unfold clusterNodeAddSlave. calm_tac. Qed.
#[local] Hint Resolve c_addSlave : calm.

Lemma c_resetSlaves n : calm' w (clusterNodeResetSlaves n).
Proof. unfold clusterNodeResetSlaves. calm_tac. Qed.
#[local] Hint Resolve c_resetSlaves : calm.

Lemma c_setNodeAsMaster n : calm' w (clusterSetNodeAsMaster n).
Proof. unfold clusterSetNodeAsMaster. calm_tac. Qed.
#[local] Hint Resolve c_setNodeAsMaster : calm.

Lemma c_replSet n : calm' w (replicationSetMaster n).
Proof. unfold replicationSetMaster. calm_tac. Qed.

Lemma c_replUnset : calm' w replicationUnsetMaster.
Proof. unfold replicationUnsetMaster. calm_tac. Qed.
#[local] Hint Resolve c_replSet c_replUnset : calm.

Lemma c_resetMF : calm' w (resetManualFailover).
Proof. unfold resetManualFailover. calm_tac. Qed.
#[local] Hint Resolve c_resetMF : calm.

Lemma c_setMaster n : calm' w (clusterSetMaster n).
Proof. unfold clusterSetMaster. calm_tac. Qed.
#[local] Hint Resolve c_setMaster : calm.

Lemma c_claim n e slots cm j a : calm' w (claim_slot n e slots cm j a).
Proof. unfold claim_slot. calm_tac. Qed.
#[local] Hint Resolve c_claim : calm.

Lemma c_delKeys j : calm' w (delKeysInSlot j).
Proof. unfold delKeysInSlot. calm_tac. Qed.
#[local] Hint Resolve c_delKeys : calm.

Lemma c_updateSlots n e slots : calm' w (clusterUpdateSlotsConfigWith n e slots).
Proof. unfold clusterUpdateSlotsConfigWith. calm_tac. Qed.
#[local] Hint Resolve c_updateSlots : calm.

Lemma c_mstime : calm' w (cluster_mstime clock).
Proof. unfold cluster_mstime. calm_tac. Qed.
#[local] Hint Resolve c_mstime : calm.

(** The header says who sends it and what it is; only votes and requests matter. *)
Lemma c_hdr type : calm w (clusterBuildMessageHdr type) (fun m => m_sender m = w /\ m_type m = type).
Proof.
  eapply calm_bind; [apply calm_who|]. intros s Hs. calm_step; [auto with calm|]. calm_step; [calm_tac|]. cbv zeta. by apply calm_ret.
Qed.

Lemma c_send dest m : m_sender m = w -> m_type m <> MsgAuthAck -> m_type m <> MsgAuthRequest -> calm' w (clusterSendMessage dest m).
Proof.
  intros H1 H2 H3 s s' a Hw [= <- <-]. split; [|done]. split; [|done]. split; [done|]. exists [(dest, m)]. split; [done|]. by repeat constructor.
Qed.

Lemma c_ping gossip dest type : type <> MsgAuthAck -> type <> MsgAuthRequest -> calm' w (clusterSendPing gossip dest type).
Proof. intros H1 H2. eapply calm_bind; [apply c_hdr|]. intros m [Hm Ht]. by apply c_send; [|cbn; rewrite Ht..]. Qed.

Lemma c_ping' gossip dest : calm' w (clusterSendPing gossip dest MsgPong).
Proof. by apply c_ping. Qed.
#[local] Hint Resolve c_ping' : calm.

Lemma c_broadcast m : m_sender m = w -> m_type m <> MsgAuthAck -> m_type m <> MsgAuthRequest -> calm' w (clusterBroadcastMessage m).
Proof. intros. unfold clusterBroadcastMessage. calm_step; [auto with calm|]. do 3 calm_step. by apply c_send. Qed.

Lemma c_sendFail n : calm' w (clusterSendFail n).
Proof. eapply calm_bind; [apply c_hdr|]. intros m [Hm Ht]. by apply c_broadcast; [|cbn; rewrite Ht..]. Qed.
#[local] Hint Resolve c_sendFail : calm.

Lemma c_sendUpdate dest n : calm' w (clusterSendUpdate dest n).
Proof.
  unfold clusterSendUpdate. calm_step; [auto with calm|]. calm_step. eapply calm_bind; [apply c_hdr|]. intros m [Hm Ht]. calm_step; [auto with calm|]. by apply c_send; [|cbn; rewrite Ht..].
Qed.
#[local] Hint Resolve c_sendUpdate : calm.

Lemma c_mfStart n : calm' w (clusterSendMFStart n).
Proof. unfold clusterSendMFStart. calm_step; [auto with calm|]. calm_step. eapply calm_bind; [apply c_hdr|]. intros m [Hm Ht]. by apply c_send; [|rewrite Ht..]. Qed.
#[local] Hint Resolve c_mfStart : calm.

Lemma c_rank : calm' w clusterGetSlaveRank.
Proof.
  unfold clusterGetSlaveRank. do 3 (calm_step; [auto with calm|]). destruct (slaveof _) as [m|]; [|by calm_step]. calm_step; [auto with calm|]. cbv zeta.
  induction (slaves _) as [|x k IH]; [by calm_step|]. calm_step; [auto with calm|]. calm_step; [exact IH|]. by calm_step.
Qed.
#[local] Hint Resolve c_rank : calm.

Lemma c_pong gossip b : calm' w (clusterBroadcastPong gossip b).
Proof. unfold clusterBroadcastPong. calm_tac. Qed.
#[local] Hint Resolve c_pong : calm.

Lemma c_addReport n x : calm' w (clusterNodeAddFailureReport clock n x).
Proof. unfold clusterNodeAddFailureReport. calm_tac. Qed.
#[local] Hint Resolve c_addReport : calm.

Lemma c_cleanup n : calm' w (clusterNodeCleanupFailureReports conf clock n).
Proof. unfold clusterNodeCleanupFailureReports. calm_tac. Qed.
#[local] Hint Resolve c_cleanup : calm.

Lemma c_delReport n x : calm' w (clusterNodeDelFailureReport conf clock n x).
Proof. unfold clusterNodeDelFailureReport. calm_tac. Qed.
#[local] Hint Resolve c_delReport : calm.

Lemma c_reports n : calm' w (clusterNodeFailureReportsCount conf clock n).
Proof. unfold clusterNodeFailureReportsCount. calm_tac. Qed.
#[local] Hint Resolve c_reports : calm.

Lemma c_mark n : calm' w (markNodeAsFailingIfNeeded conf clock n).
Proof. unfold markNodeAsFailingIfNeeded. calm_tac. Qed.
#[local] Hint Resolve c_mark : calm.

Lemma c_clear n : calm' w (clearNodeFailureIfNeeded conf clock n).
Proof. unfold clearNodeFailureIfNeeded. calm_tac. Qed.
#[local] Hint Resolve c_clear : calm.

Lemma c_gossipEntry x g : calm' w (gossip_entry conf clock x g).
Proof. unfold gossip_entry. calm_tac. Qed.
#[local] Hint Resolve c_gossipEntry : calm.

Lemma c_gossip x l : calm' w (clusterProcessGossipSection conf clock x l).
Proof. unfold clusterProcessGossipSection. calm_tac. Qed.
#[local] Hint Resolve c_gossip : calm.

Lemma c_newer e slots j b : calm' w (slot_newer e slots j b).
Proof. unfold slot_newer. calm_tac. Qed.
#[local] Hint Resolve c_newer : calm.

Lemma c_covered j ok : calm' w (slot_covered j ok).
Proof. unfold slot_covered. calm_tac. Qed.
#[local] Hint Resolve c_covered : calm.

Lemma c_state : calm' w (clusterUpdateState conf clock).
Proof. unfold clusterUpdateState. calm_tac. Qed.
#[local] Hint Resolve c_state : calm.

Lemma c_take n j u : calm' w (take_slot n j u).
Proof. unfold take_slot. calm_tac. Qed.
#[local] Hint Resolve c_take : calm.

Lemma c_replace gossip : calm' w (clusterFailoverReplaceYourMaster conf clock gossip).
Proof. unfold clusterFailoverReplaceYourMaster. calm_tac. Qed.
#[local] Hint Resolve c_replace : calm.

Lemma c_win gossip : calm' w (win_election conf clock gossip).
Proof. unfold win_election. calm_tac. Qed.
#[local] Hint Resolve c_win : calm.

Lemma c_mfTimeout : calm' w (manualFailoverCheckTimeout clock).
Proof. unfold manualFailoverCheckTimeout. calm_tac. Qed.
#[local] Hint Resolve c_mfTimeout : calm.

Lemma c_manual : calm' w (clusterHandleManualFailover).
Proof. unfold clusterHandleManualFailover. calm_tac. Qed.
#[local] Hint Resolve c_manual : calm.

Lemma c_notePong n : calm' w (note_pong conf clock n).
Proof. unfold note_pong. calm_tac. Qed.
#[local] Hint Resolve c_notePong : calm.

Lemma c_noteRole n hdr : calm' w (note_role n hdr).
Proof. unfold note_role. calm_tac. Qed.
#[local] Hint Resolve c_noteRole : calm.

Lemma c_newerOwner n e slots j x : calm' w (newer_owner n e slots j x).
Proof. unfold newer_owner. calm_tac. Qed.
#[local] Hint Resolve c_newerOwner : calm.

Lemma c_noteSlots n e hdr : calm' w (note_slots n e hdr).
Proof. unfold note_slots. calm_tac. Qed.
#[local] Hint Resolve c_noteSlots : calm.

Lemma c_err e : calm' w (err e).
Proof. unfold err. calm_tac. Qed.
#[local] Hint Resolve c_err : calm.

Lemma c_done : calm' w (done_ok).
Proof. unfold done_ok. calm_tac. Qed.
#[local] Hint Resolve c_done : calm.

Lemma c_flush : calm' w (cluster_flushslots).
Proof. unfold cluster_flushslots. calm_tac. Qed.
#[local] Hint Resolve c_flush : calm.

Lemma c_change del l j u : calm' w (change_slot del l j u).
Proof. unfold change_slot. calm_tac. Qed.
#[local] Hint Resolve c_change : calm.

Lemma c_addslots del args : calm' w (cluster_addslots del args).
Proof. unfold cluster_addslots. calm_tac. Qed.
#[local] Hint Resolve c_addslots : calm.

Lemma c_migrating j n : calm' w (setslot_migrating j n).
Proof. unfold setslot_migrating. calm_tac. Qed.
#[local] Hint Resolve c_migrating : calm.

Lemma c_importing j n : calm' w (setslot_importing j n).
Proof. unfold setslot_importing. calm_tac. Qed.
#[local] Hint Resolve c_importing : calm.

Lemma c_stable j : calm' w (setslot_stable j).
Proof. unfold setslot_stable. calm_tac. Qed.
#[local] Hint Resolve c_stable : calm.

Lemma c_verifySlot j x : calm' w (verify_slot j x).
Proof. unfold verify_slot. calm_tac. Qed.
#[local] Hint Resolve c_verifySlot : calm.

Lemma c_verify b : calm' w (verifyClusterConfigWithData b).
Proof. unfold verifyClusterConfigWithData. calm_tac. Qed.
#[local] Hint Resolve c_verify : calm.

Lemma c_replicate n : calm' w (cluster_replicate n).
Proof. unfold cluster_replicate. calm_tac. Qed.
#[local] Hint Resolve c_replicate : calm.

Lemma c_migrate x y : calm' w (clusterHandleSlaveMigration x y).
Proof. unfold clusterHandleSlaveMigration. calm_tac. Qed.
#[local] Hint Resolve c_migrate : calm.

Lemma c_late n : calm' w (cron_late n).
Proof. unfold cron_late. calm_tac. Qed.
#[local] Hint Resolve c_late : calm.

(** ** The steps of an election *)

Ltac bif H E := match type of H with (if ?b then _ else _) _ = _ => destruct b eqn:E end.

Lemma bind_inv {A B} (m : CM B) (f : B -> CM A) s s' a : (m ≫= f) s = Some (s', a) -> exists s1 b, m s = Some (s1, b) /\ f b s1 = Some (s', a).
Proof. unfold mbind, CM_bind. destruct (m s) as [[s1 b]|]; [eauto | done]. Qed.

Lemma get_inv s s' a : cget s = Some (s', a) -> s' = s /\ a = s.
Proof. by intros [= <- <-]. Qed.

Lemma node_inv n s s' nd : node_at n s = Some (s', nd) -> s' = s /\ nodes (tab s) !! n = Some nd.
Proof. unfold node_at. intros (s1 & a & [-> ->]%get_inv & H)%bind_inv. destruct (nodes (tab s) !! n); [by injection H as <- <- | done]. Qed.

Lemma me_inv s s' nd : me s = Some (s', nd) -> s' = s /\ nodes (tab s) !! myself s = Some nd.
Proof. unfold me. intros (s1 & a & [-> ->]%get_inv & H)%bind_inv. by apply node_inv. Qed.

Lemma when_inv b m s s' : cwhen b m s = Some (s', tt) -> b = true /\ m s = Some (s', tt) \/ b = false /\ s' = s.
Proof. destruct b; [by left | intros [= <-]; by right]. Qed.

Lemma hdr_inv type s s' m : clusterBuildMessageHdr type s = Some (s', m) -> s' = s /\ m_type m = type /\ m_sender m = myself s /\ m_currentEpoch m = currentEpoch (elec s).
Proof.
  unfold clusterBuildMessageHdr. intros (s1 & a & [-> ->]%get_inv & (s2 & my & [-> Hmy]%me_inv & (s3 & x & Hx & H)%bind_inv)%bind_inv)%bind_inv. injection H as <- <-.
  assert (s3 = s) as ->; [|done]. destruct (slaveof my); [destruct (nodeIsSlave my); [by apply node_inv in Hx as [-> _]|]|]; by injection Hx as <- _.
Qed.

Abbreviation cur s := (currentEpoch (elec s)).
Abbreviation voted s := (lastVoteEpoch (elec s)).

(** The epoch may grow; the rest of the election stays. *)
Definition raised (s s' : clusterState) : Prop := says w s s' /\ cur s <= cur s' /\ exists c, elec s' = with_currentEpoch c (elec s).

Lemma raised_calm s s' : calm_rel w s s' -> raised s s'.
Proof. intros [H1 H2]. split_and!; [done | by rewrite H2 |]. exists (cur s). rewrite H2. by destruct (elec s). Qed.

Lemma raised_trans s s1 s2 : raised s s1 -> raised s1 s2 -> raised s s2.
Proof. intros (H1 & H2 & c & H3) (K1 & K2 & d & K3). split_and!; [by eapply says_trans | lia |]. exists d. by rewrite K3, H3. Qed.

(** There is room for one more epoch. *)
Definition room (s : clusterState) : Prop := 0 <= cur s < 2 ^ 64 - 1.

Lemma next_inv s s' e : room s -> next_epoch s = Some (s', e) -> e = cur s + 1 /\ s' = with_elec (with_currentEpoch (cur s + 1)) s.
Proof.
  intros Hr. unfold next_epoch. intros (s1 & a & [= <- <-] & (s2 & b & [-> ->]%get_inv & [= <- <-])%bind_inv)%bind_inv. unfold room in Hr. cbn.
  assert (uwrap 64 (cur s + 1) = cur s + 1) as E1 by (unfold uwrap; apply Z.mod_small; lia). rewrite E1. split; [done|]. unfold with_elec. by rewrite E1.
Qed.

Lemma raised_next s s' e : room s -> next_epoch s = Some (s', e) -> raised s s'.
Proof.
  intros Hr [_ ->]%next_inv; [|done]. split_and!; [|cbn; lia | by eexists]. split; [done|]. exists []. by rewrite app_nil_r.
Qed.

(** An action of which only the start is not calm. *)
Lemma raised_then {A B} (m : CM B) (f : B -> CM A) s s' a : (forall s1 b, m s = Some (s1, b) -> raised s s1) -> (forall b, calm' w (f b)) -> myself s = w -> (m ≫= f) s = Some (s', a) -> raised s s'.
Proof.
  intros Hm Hf Hw (s1 & b & H1 & H2)%bind_inv. pose proof (Hm s1 b H1) as Hr. pose proof Hr as [[Hw1 _] _]. destruct (Hf b s1 s' a) as [Hc _]; [congruence | done |].
  eapply raised_trans; [exact Hr | by apply raised_calm].
Qed.

(** Nothing but reads before. *)
Lemma raised_bump s s' b : myself s = w -> room s -> clusterBumpConfigEpochWithoutConsensus s = Some (s', b) -> raised s s'.
Proof.
  intros Hw Hr. unfold clusterBumpConfigEpochWithoutConsensus. intros (s1 & a & [-> ->]%get_inv & (s2 & my & [-> Hmy]%me_inv & H)%bind_inv)%bind_inv. cbv zeta in H.
  destruct (_ || _); [|injection H as <- _; apply raised_calm, calm_refl]. revert H. apply raised_then; [intros s1 e; by apply raised_next | calm_tac | done].
Qed.

Lemma raised_collision n s s' : myself s = w -> room s -> clusterHandleConfigEpochCollision n s = Some (s', tt) -> raised s s'.
Proof.
  intros Hw Hr. unfold clusterHandleConfigEpochCollision.
  intros (s1 & a & [-> ->]%get_inv & (s2 & my & [-> Hmy]%me_inv & (s3 & nd & [-> Hnd]%node_inv & H)%bind_inv)%bind_inv)%bind_inv.
  destruct (_ || _); [injection H as <-; apply raised_calm, calm_refl|]. destruct (_ <=? _); [injection H as <-; apply raised_calm, calm_refl|].
  revert H. apply raised_then; [intros s1 e; by apply raised_next | calm_tac | done].
Qed.

Lemma raised_noteCollision n e s s' : myself s = w -> room s -> note_collision n e s = Some (s', tt) -> raised s s'.
Proof.
  intros Hw Hr. unfold note_collision. intros (s2 & my & [-> Hmy]%me_inv & (s3 & nd & [-> Hnd]%node_inv & H)%bind_inv)%bind_inv.
  apply when_inv in H as [[_ H]|[_ ->]]; [by apply raised_collision in H | apply raised_calm, calm_refl].
Qed.

Lemma raised_setEpoch arg s s' r : myself s = w -> cluster_set_config_epoch arg s = Some (s', r) -> raised s s'.
Proof.
  intros Hw. unfold cluster_set_config_epoch. destruct arg as [epoch|]; [|intros [= <- _]; apply raised_calm, calm_refl]. destruct (_ <? 0); [intros [= <- _]; apply raised_calm, calm_refl|].
  intros (s1 & a & [-> ->]%get_inv & H)%bind_inv. destruct (_ >? 1); [injection H as <- _; apply raised_calm, calm_refl|]. apply bind_inv in H as (s2 & my & [-> Hmy]%me_inv & H).
  destruct (negb _); [injection H as <- _; apply raised_calm, calm_refl|]. apply bind_inv in H as (s1 & [] & H1 & H). destruct (calm_mod w _ _ s s1 tt Hw H1) as [Hc _].
  pose proof Hc as [[Hw1 _] Helec]. eapply raised_trans; [by apply raised_calm|]. revert H. apply raised_then; [| calm_tac | congruence].
  intros s2 [] [[Hlt [= <-]]|[_ ->]]%when_inv; [|apply raised_calm, calm_refl]. rewrite <- Helec in Hlt. apply Z.ltb_lt in Hlt. split_and!; [| cbn; lia | by eexists].
  split; [done|]. exists []. by rewrite app_nil_r.
Qed.

Lemma raised_setslot j n s s' r : myself s = w -> room s -> setslot_node j n s = Some (s', r) -> raised s s'.
Proof.
  intros Hw Hr. unfold setslot_node. intros (s1 & a & [-> ->]%get_inv & H)%bind_inv. destruct (negb _); [injection H as <- _; apply raised_calm, calm_refl|].
  destruct (_ && _ && _); [injection H as <- _; apply raised_calm, calm_refl|]. apply bind_inv in H as (s1 & [] & H1 & H).
  assert (calm_rel w s s1) as Hc by (apply when_inv in H1 as [[_ [= <-]]|[_ ->]]; [|apply calm_refl]; (split; [split; [done|]; exists []; by rewrite app_nil_r | done])).
  pose proof Hc as [[Hw1 _] Helec]. eapply raised_trans; [by apply raised_calm|]. revert H. apply raised_then; [| calm_tac | congruence].
  intros s2 [] [[_ H]|[_ ->]]%when_inv; [|apply raised_calm, calm_refl]. revert H. apply raised_then; [| calm_tac | congruence].
  intros s3 b. apply raised_bump; [congruence | unfold room; by rewrite Helec].
Qed.

Lemma raised_failover gossip force takeover s s' r : myself s = w -> room s -> cluster_failover conf clock gossip force takeover s = Some (s', r) -> raised s s'.
Proof.
  intros Hw Hr. unfold cluster_failover. intros (s2 & my & [-> Hmy]%me_inv & H)%bind_inv. destruct (nodeIsMaster my); [injection H as <- _; apply raised_calm, calm_refl|].
  destruct (slaveof my) as [m|]; [|injection H as <- _; apply raised_calm, calm_refl]. apply bind_inv in H as (s2 & mnd & [-> Hm]%node_inv & H). cbv zeta in H.
  destruct (_ && _); [injection H as <- _; apply raised_calm, calm_refl|].
  apply bind_inv in H as (s1 & [] & H1 & H). destruct (c_resetMF s s1 tt Hw H1) as [Hc1 _]. pose proof Hc1 as [[Hw1 _] He1].
  apply bind_inv in H as (s2 & t & H2 & H). destruct (c_mstime s1 s2 t) as [Hc2 _]; [congruence | done |]. pose proof Hc2 as [[Hw2 _] He2].
  apply bind_inv in H as (s3 & [] & [= <-] & H). set (s3 := with_mf _ s2) in *.
  assert (calm_rel w s2 s3) as Hc3 by (split; [split; [done|]; exists []; by rewrite app_nil_r | done]).
  eapply raised_trans; [apply raised_calm; eapply calm_trans; [exact Hc1|]; eapply calm_trans; [exact Hc2 | exact Hc3]|].
  assert (myself s3 = w) as Hw3 by (unfold s3; cbn; congruence). assert (room s3) as Hr3 by (unfold s3, room; cbn; by rewrite He2, He1).
  clearbody s3. revert H. apply raised_then; [| calm_tac | done]. intros s4 []. destruct takeover; [|destruct (force || false)].
  - apply raised_then; [intros s5 b; by apply raised_bump | calm_tac | done].
  - intros [= <-]. apply raised_calm. split; [split; [done|]; exists []; by rewrite app_nil_r | done].
  - intros H. apply raised_calm. by apply (c_mfStart m s3 s4 tt).
Qed.
(** ** What an event does *)

(** A vote of [w] for the epoch [e], and a request for votes. *)
Definition vote_for (e : Z) (m : clusterMsg) : Prop := m_type m = MsgAuthAck /\ m_sender m = w /\ m_currentEpoch m = e.
Definition request_for (e : Z) (m : clusterMsg) : Prop := m_type m = MsgAuthRequest /\ m_sender m = w /\ m_currentEpoch m = e.

Definition same_auth (s s' : clusterState) : Prop :=
  auth_count (elec s') = auth_count (elec s) /\ auth_sent (elec s') = auth_sent (elec s) /\ auth_epoch (elec s') = auth_epoch (elec s).

(** A vote that is counted has an epoch that is not below [auth_epoch]. *)
Inductive effect (hdr : option clusterMsg) (s s' : clusterState) : Prop :=
  | eff_quiet : says w s s' -> cur s <= cur s' -> voted s' = voted s -> same_auth s s' -> effect hdr s s'
  | eff_schedule : says w s s' -> cur s <= cur s' -> voted s' = voted s -> auth_count (elec s') = 0 -> auth_sent (elec s') = false -> auth_epoch (elec s') = auth_epoch (elec s) -> effect hdr s s'
  | eff_start l : myself s' = myself s -> outbox s' = outbox s ++ l -> Forall (fun p => plain w p \/ request_for (cur s') p.2) l -> cur s < cur s' -> voted s' = voted s ->
      auth_sent (elec s) = false -> auth_count (elec s') = auth_count (elec s) -> auth_sent (elec s') = true -> auth_epoch (elec s') = cur s' -> effect hdr s s'
  | eff_vote req k l : hdr = Some req -> m_type req = MsgAuthRequest -> myself s' = myself s -> outbox s' = outbox s ++ k ++ l -> Forall (plain w) k -> (forall p, p ∈ l -> p.1 = m_sender req /\ vote_for (cur s') p.2) -> (length l <= 1)%nat ->
      cur s <= cur s' -> cur s' <= m_currentEpoch req -> voted s <> cur s' -> voted s' = cur s' -> same_auth s s' -> effect hdr s s'
  | eff_count ack : hdr = Some ack -> m_type ack = MsgAuthAck -> says w s s' -> cur s <= cur s' -> voted s' = voted s -> auth_count (elec s') = auth_count (elec s) + 1 ->
      auth_sent (elec s') = auth_sent (elec s) -> auth_epoch (elec s') = auth_epoch (elec s) -> auth_epoch (elec s) <= m_currentEpoch ack \/ auth_epoch (elec s) <= 0 -> effect hdr s s'.

Lemma eff_raised hdr s s' : raised s s' -> effect hdr s s'.
Proof. intros (H1 & H2 & c & H3). apply eff_quiet; [done | done |..]; unfold same_auth; by rewrite H3. Qed.

Lemma eff_calm hdr s s' : calm_rel w s s' -> effect hdr s s'.
Proof. intros H. by apply eff_raised, raised_calm. Qed.

(** What was calm before or after does not matter. *)
Definition mild (s s' : clusterState) : Prop := says w s s' /\ cur s <= cur s' /\ voted s' = voted s /\ same_auth s s'.

Lemma mild_raised s s' : raised s s' -> mild s s'.
Proof. intros (H1 & H2 & c & H3). split; [done|]. split; [done|]. unfold same_auth. by rewrite H3. Qed.

Lemma mild_calm s s' : calm_rel w s s' -> mild s s'.
Proof. intros H. by apply mild_raised, raised_calm. Qed.

Lemma eff_before hdr s s1 s' : mild s s1 -> effect hdr s1 s' -> effect hdr s s'.
Proof.
  intros (Hsay & H2 & Hv & Hc & Hs & He) H. pose proof Hsay as (Hw & k & Hk & Hpl).
  destruct H as [K1 K2 K3 (K4 & K5 & K6)|K1 K2 K3 K4 K5 K6|l K1 K2 K3 K4 K5 K6 K7 K8 K9|req k' l K1 K2 K3 K4 K5 K6 K7 K8 K9 K10 K11 (K12 & K13 & K14)|ack K1 K2 K3 K4 K5 K6 K7 K8 K9].
  - apply eff_quiet; [by eapply says_trans | lia | congruence | split_and!; congruence].
  - apply eff_schedule; [by eapply says_trans | lia | congruence | congruence | congruence | congruence].
  - apply (eff_start _ _ _ (k ++ l)); try congruence; [by rewrite K2, Hk, app_assoc | apply Forall_app; split; [eapply Forall_impl; [exact Hpl | by left] | done] | lia].
  - apply (eff_vote _ _ _ req (k ++ k') l); try congruence; try done; [by rewrite K4, Hk, !app_assoc | by apply Forall_app | lia | split_and!; congruence].
  - apply (eff_count _ _ _ ack); try congruence; [by eapply says_trans | lia].
Qed.

Lemma eff_after s s1 s' : effect None s s1 -> calm_rel w s1 s' -> effect None s s'.
Proof.
  intros H [Hsay Helec]. pose proof Hsay as (Hw & k & Hk & Hpl).
  destruct H as [K1 K2 K3 (K4 & K5 & K6)|K1 K2 K3 K4 K5 K6|l K1 K2 K3 K4 K5 K6 K7 K8 K9|req k' l K1|ack K1]; [| | |done..].
  - apply eff_quiet; [by eapply says_trans | by rewrite Helec..|]. unfold same_auth. by rewrite Helec.
  - apply eff_schedule; [by eapply says_trans | by rewrite Helec..].
  - apply (eff_start _ _ _ (l ++ k)); rewrite ?Helec; try done; [congruence | by rewrite Hk, K2, app_assoc |]. apply Forall_app. split; [done|]. eapply Forall_impl; [exact Hpl | by left].
Qed.

(** ** Packets *)

Lemma raised_noteSender n hdr s s' : myself s = w -> note_sender n hdr s = Some (s', tt) -> raised s s' /\ m_currentEpoch hdr <= cur s' /\ cur s' <= Z.max (cur s) (m_currentEpoch hdr).
Proof.
  intros Hw. unfold note_sender. intros (s0 & a & [-> ->]%get_inv & (s1 & [] & H1 & H)%bind_inv)%bind_inv.
  assert (raised s s1 /\ m_currentEpoch hdr <= cur s1 /\ cur s1 <= Z.max (cur s) (m_currentEpoch hdr)) as (Hr & Hle & Hmax).
  { apply when_inv in H1 as [[Hgt [= <-]]|[Hgt ->]]; rewrite Z.gtb_ltb in Hgt; [|zbool; split_and!; [apply raised_calm, calm_refl | lia | lia]]. zbool. split_and!; [|cbn; lia | cbn; lia].
    split_and!; [|cbn; lia | by eexists]. split; [done|]. exists []. by rewrite app_nil_r. }
  pose proof Hr as [[Hw1 _] _]. apply bind_inv in H as (s2 & nd & [-> Hn]%node_inv & H).
  match type of H with ?m s1 = _ => assert (calm' w m) as Hc by calm_tac end. destruct (Hc s1 s' tt) as [Hcalm _]; [congruence | done |].
  destruct Hcalm as [Hs He] eqn:E1. rewrite He. split_and!; [eapply raised_trans; [exact Hr | apply raised_calm; by split] | done..].
Qed.

Lemma eff_votes n req s s' : myself s = w -> m_type req = MsgAuthRequest -> n = m_sender req -> clusterSendFailoverAuthIfNeeded conf clock n req s = Some (s', tt) -> effect (Some req) s s'.
Proof.
  intros Hw Ht Hn. unfold clusterSendFailoverAuthIfNeeded. intros (s0 & a & [-> ->]%get_inv & (s1 & nd & [-> Hnd]%node_inv & H)%bind_inv)%bind_inv. cbv zeta in H.
  apply bind_inv in H as (s1 & my & [-> Hmy]%me_inv & H). assert (effect (Some req) s s) as Hnone by apply eff_calm, calm_refl.
  bif H Eno; [by injection H as <-|]. bif H Ecur; [by injection H as <-|]. bif H Evote; [by injection H as <-|].
  destruct (if nodeIsMaster nd then None else slaveof nd) as [m|]; [|by injection H as <-]. apply bind_inv in H as (s1 & mnd & [-> Hmnd]%node_inv & H).
  bif H Efail; [by injection H as <-|]. apply bind_inv in H as (s1 & t & H1 & H). destruct (c_mstime s s1 t Hw H1) as [Hc1 _]. pose proof Hc1 as [[Hw1 _] He1].
  apply (eff_before (Some req) s s1); [by apply mild_calm|]. bif H Elate; [injection H as <-; apply eff_calm, calm_refl|].
  apply bind_inv in H as (s2 & newer & H2 & H). assert (calm' w (for_slots (slot_newer (m_configEpoch req) (m_myslots req)) false)) as Hc by calm_tac.
  destruct (Hc s1 s2 newer) as [Hc2 _]; [congruence | done |]. pose proof Hc2 as [[Hw2 _] He2]. apply (eff_before (Some req) s1 s2); [by apply mild_calm|].
  destruct newer; [injection H as <-; apply eff_calm, calm_refl|]. apply bind_inv in H as (s3 & [] & H3 & H).
  apply bind_inv in H as (s4 & [] & [= <-] & H). apply bind_inv in H as (s5 & t' & H5 & H6). set (s4 := with_elec _ s3) in *.
  assert (myself s3 = w /\ elec s3 = elec s /\ exists l, outbox s3 = outbox s2 ++ l /\ (forall p, p ∈ l -> p.1 = n /\ vote_for (cur s) p.2) /\ (length l <= 1)%nat) as (Hw3 & He3 & l & Hl & Hvote & Hlen).
  { unfold clusterSendFailoverAuth in H3. apply bind_inv in H3 as (s6 & d & [-> Hd]%node_inv & H3). apply when_inv in H3 as [[_ H3]|[_ ->]].
    - apply bind_inv in H3 as (s7 & msg & (-> & Hmt & Hms & Hmc)%hdr_inv & [= <-]). split_and!; [cbn; congruence | cbn; congruence |]. exists [(n, msg)]. split_and!; [done | | done].
      intros p ->%list_elem_of_singleton. unfold vote_for. cbn. split_and!; [done | done | congruence | congruence].
    - split_and!; [congruence | congruence |]. exists []. rewrite app_nil_r. split_and!; [done | by intros p Hp%elem_of_nil | cbn; lia]. }
  apply bind_inv in H5 as (s6 & a & [-> ->]%get_inv & (s7 & [] & [= <-] & [= <- _])%bind_inv). apply bind_inv in H6 as (s6 & d & [-> Hd]%node_inv & [= <-]).
  apply (eff_vote _ _ _ req [] l); cbn; try done; try congruence.
  - intros p Hp. destruct (Hvote p Hp) as [H4 H5]. split; [congruence | by rewrite He3].
  - rewrite He3, He2, He1. lia.
  - rewrite He3. zbool. lia.
  - rewrite He3, He2, He1. zbool. lia.
  - unfold same_auth. cbn. by rewrite He3, He2, He1.
Qed.
(** ** The failover of a slave *)

(** Only the time and the rank of the election change. *)
Definition hush_rel (s s' : clusterState) : Prop := says w s s' /\ cur s' = cur s /\ voted s' = voted s /\ same_auth s s'.
Definition hush {A} (m : CM A) : Prop := forall s s' a, myself s = w -> m s = Some (s', a) -> hush_rel s s'.

Lemma hush_calm_rel s s' : calm_rel w s s' -> hush_rel s s'.
Proof. intros [H1 H2]. unfold hush_rel, same_auth. by rewrite H2. Qed.

Lemma hush_trans s s1 s2 : hush_rel s s1 -> hush_rel s1 s2 -> hush_rel s s2.
Proof. intros (H1 & H2 & H3 & H4 & H5 & H6) (K1 & K2 & K3 & K4 & K5 & K6). split_and!; [by eapply says_trans | congruence..|]. split_and!; congruence. Qed.

Lemma hush_calm {A} (m : CM A) : calm' w m -> hush m.
Proof. intros Hm s s' a Hw H. destruct (Hm s s' a Hw H) as [Hc _]. by apply hush_calm_rel. Qed.

Lemma hush_seq {A B} (m : CM B) (f : B -> CM A) : hush m -> (forall b, hush (f b)) -> hush (m ≫= f).
Proof.
  intros Hm Hf s s' a Hw (s1 & b & H1 & H2)%bind_inv. pose proof (Hm s s1 b Hw H1) as Hh. eapply hush_trans; [exact Hh|]. pose proof Hh as [[Hw1 _] _].
  eapply Hf; [congruence | exact H2].
Qed.

Lemma hush_when b m : hush m -> hush (cwhen b m).
Proof. intros Hm. destruct b; [done | apply hush_calm; by apply calm_ret]. Qed.

Lemma hush_elec f : (forall e, currentEpoch (f e) = currentEpoch e) -> (forall e, lastVoteEpoch (f e) = lastVoteEpoch e) -> (forall e, auth_count (f e) = auth_count e) ->
  (forall e, auth_sent (f e) = auth_sent e) -> (forall e, auth_epoch (f e) = auth_epoch e) -> hush (cmodify (with_elec f)).
Proof. intros H1 H2 H3 H4 H5 s s' [] Hw [= <-]. split_and!; cbn; try done; [|split_and!; cbn; done]. split; [done|]. exists []. by rewrite app_nil_r. Qed.

(** After the first assignments of [schedule_election]. *)
Lemma eff_schedules gossip chance s s' : myself s = w -> schedule_election clock gossip chance s = Some (s', tt) -> effect None s s'.
Proof.
  intros Hw. unfold schedule_election. intros (s1 & t & H1 & (s2 & [] & [= <-] & H)%bind_inv)%bind_inv. destruct (c_mstime s s1 t Hw H1) as [Hc _]. pose proof Hc as [[Hw1 _] He].
  apply (eff_before _ _ s1); [by apply mild_calm|]. set (s2 := with_elec _ s1) in *.
  assert (hush_rel s2 s') as (Hsay & H2 & H3 & H4 & H5 & H6).
  { revert H. match goal with |- ?m s2 = _ -> _ => assert (hush m) as Hm end.
    - apply hush_seq; [apply hush_calm, c_rank | intros r]. apply hush_seq; [by apply hush_elec | intros _]. apply hush_seq; [apply hush_calm, calm_get | intros s3].
      apply hush_seq; [apply hush_when, hush_seq; [apply hush_calm, c_mstime | intros x; by apply hush_elec] | intros _; apply hush_calm, c_pong].
    - intros H. eapply Hm; [| exact H]. cbn. congruence. }
  apply eff_schedule; cbn in *; try done. lia.
Qed.

Lemma broadcast_inv m s s' : clusterBroadcastMessage m s = Some (s', tt) -> myself s' = myself s /\ elec s' = elec s /\ exists l, outbox s' = outbox s ++ l /\ Forall (fun p => p.2 = m) l.
Proof.
  unfold clusterBroadcastMessage. intros (s1 & a & [-> ->]%get_inv & H)%bind_inv. revert H. generalize (map_to_list (nodes (tab s))) as l. intros l. revert s.
  induction l as [|[n nd] l IH]; intros s H; cbn [ceach] in H.
  - injection H as <-. split_and!; [done..|]. exists []. by rewrite app_nil_r.
  - apply bind_inv in H as (s1 & [] & H1 & H). destruct (IH s1 H) as (K1 & K2 & k & K3 & K4). apply when_inv in H1 as [[_ [= <-]]|[_ ->]].
    + split_and!; [done..|]. exists ((n, m) :: k). rewrite K3. cbn. rewrite <- app_assoc. split; [done | by constructor].
    + split_and!; [done..|]. by exists k.
Qed.

Lemma eff_starts s s' : myself s = w -> room s -> auth_sent (elec s) = false -> start_election s = Some (s', tt) -> effect None s s'.
Proof.
  intros Hw Hr Hs. unfold start_election. intros (s1 & e & H1 & (s2 & [] & [= <-] & (s3 & [] & H3 & (s4 & [] & [= <-] & [= <-])%bind_inv)%bind_inv)%bind_inv)%bind_inv.
  apply next_inv in H1 as [-> ->]; [|done]. apply bind_inv in H3 as (s5 & m & (-> & Hmt & Hms & Hmc)%hdr_inv & (s6 & a & [-> ->]%get_inv & H3)%bind_inv).
  apply broadcast_inv in H3 as (K1 & K2 & l & K3 & K4). cbn in *. assert (elec s3 = with_auth_epoch (cur s + 1) (with_currentEpoch (cur s + 1) (elec s))) as He by done.
  apply (eff_start _ _ _ l); cbn; rewrite ?He; try done; [|cbn; lia]. eapply Forall_impl; [exact K4|]. intros p ->. right. unfold request_for.
  destruct (negb _); cbn; split_and!; try done; congruence.
Qed.

Lemma eff_slaveFailover gossip chance s s' : myself s = w -> room s -> clusterHandleSlaveFailover conf clock gossip chance s = Some (s', tt) -> effect None s s'.
Proof.
  intros Hw Hr. unfold clusterHandleSlaveFailover. intros (s0 & a & [-> ->]%get_inv & (s1 & t & H1 & H)%bind_inv)%bind_inv. cbv zeta in H.
  destruct (c_mstime s s1 t Hw H1) as [Hc1 _]. pose proof Hc1 as [[Hw1 _] He1]. apply bind_inv in H as (s2 & [] & [= <-] & H). set (s2 := with_todo _ s1) in *.
  assert (calm_rel w s s2) as Hc2 by (eapply calm_trans; [exact Hc1|]; split; [split; [done|]; exists []; by rewrite app_nil_r | done]). 
  apply bind_inv in H as (s3 & my & [-> Hmy]%me_inv & H). apply (eff_before _ _ s2); [by apply mild_calm|]. pose proof Hc2 as [[Hw2 _] He2]. clearbody s2. clear s1 H1 Hc1 Hw1 He1.
  assert (forall x, mret (M := CM) tt s2 = Some (x, tt) -> effect None s2 x) as Hret by (intros x [= <-]; apply eff_calm, calm_refl).
  destruct (if nodeIsMaster my then None else slaveof my) as [m|]; [|by apply Hret]. apply bind_inv in H as (s3 & mnd & [-> Hm]%node_inv & H).
  bif H E1; [by apply Hret|]. bif H E2; [by apply Hret|]. bif H E3; [apply (eff_schedules gossip chance); [congruence | done]|].
  apply bind_inv in H as (s3 & [] & H3 & H).
  assert (hush_rel s2 s3) as Hh.
  { revert H3. match goal with |- ?m s2 = _ -> _ => assert (hush m) as Hh end; [|intros H3; eapply Hh; [|exact H3]; congruence].
    apply hush_when, hush_seq; [apply hush_calm, c_rank|]. intros r. apply hush_when. by apply hush_elec. }
  apply bind_inv in H as (s4 & now & H4 & H). assert (hush_rel s2 s4) as Hh4.
  { eapply hush_trans; [exact Hh|]. apply hush_calm_rel. pose proof Hh as [[Hw3 _] _]. destruct (c_mstime s3 s4 now) as [Hc _]; [congruence | done..]. }
  apply bind_inv in H as (s5 & a & [-> ->]%get_inv & H). pose proof Hh4 as ((Hw4 & _) & Hcur & Hvoted & Hauth).
  assert (effect None s2 s4) as Hquiet by (apply eff_quiet; [apply Hh4 | lia | done | done]).
  bif H E4; [by injection H as <-|]. bif H E5; [by injection H as <-|]. bif H E6.
  - apply negb_true_iff in E6. apply (eff_before _ _ s4); [split_and!; [apply Hh4 | lia | done | done]|].
    apply eff_starts; [congruence | unfold room; by rewrite Hcur, He2 | done | done].
  - bif H E7; [|by injection H as <-]. eapply eff_after; [exact Hquiet|]. destruct (c_win gossip s4 s' tt) as [Hc _]; [congruence | done..].
Qed.
(** ** Events *)

Lemma raised_hush_free {A} (m : CM A) s s' a : calm' w m -> myself s = w -> m s = Some (s', a) -> raised s s'.
Proof. intros Hm Hw H. destruct (Hm s s' a Hw H) as [Hc _]. by apply raised_calm. Qed.

(** PING, PONG and MEET. *)
Lemma raised_ping gossip on_link hdr (known : option clusterNode) e s s' : myself s = w -> room s ->
  ((match m_type hdr with MsgPing | MsgMeet => clusterSendPing gossip (m_sender hdr) MsgPong | _ => mret tt end);;
   (match m_type hdr with MsgPong => cwhen on_link (note_pong conf clock (m_sender hdr)) | _ => mret tt end);;
   match known with
   | None => mret tt
   | Some _ => note_role (m_sender hdr) hdr;; note_slots (m_sender hdr) e hdr;; note_collision (m_sender hdr) e;;
       match m_data hdr with Gossip l => clusterProcessGossipSection conf clock (Some (m_sender hdr)) l | _ => mret tt end
   end) s = Some (s', tt) -> raised s s'.
Proof.
  intros Hw Hr (s1 & [] & H1 & (s2 & [] & H2 & H)%bind_inv)%bind_inv.
  assert (calm_rel w s s2) as Hc2.
  { match type of H1 with ?m s = _ => assert (calm' w m) as Hm1 by calm_tac end. destruct (Hm1 s s1 tt Hw H1) as [Hc1 _]. pose proof Hc1 as [[Hw1 _] _].
    match type of H2 with ?m s1 = _ => assert (calm' w m) as Hm2 by calm_tac end. destruct (Hm2 s1 s2 tt) as [Hc2 _]; [congruence | done |]. by eapply calm_trans. }
  pose proof Hc2 as [[Hw2 _] He2]. eapply raised_trans; [by apply raised_calm|]. destruct known as [nd|]; [|injection H as <-; apply raised_calm, calm_refl].
  apply bind_inv in H as (s3 & [] & H3 & (s4 & [] & H4 & H)%bind_inv). destruct (c_noteRole (m_sender hdr) hdr s2 s3 tt) as [Hc3 _]; [congruence | done |]. pose proof Hc3 as [[Hw3 _] He3].
  destruct (c_noteSlots (m_sender hdr) e hdr s3 s4 tt) as [Hc4 _]; [congruence | done |]. pose proof Hc4 as [[Hw4 _] He4].
  eapply raised_trans; [apply raised_calm; eapply calm_trans; [exact Hc3 | exact Hc4]|]. revert H. apply raised_then; [| calm_tac | congruence].
  intros s5 []. apply raised_noteCollision; [congruence | unfold room; by rewrite He4, He3, He2].
Qed.

Lemma eff_packet gossip on_link hdr s s' : myself s = w -> room s -> m_currentEpoch hdr < 2 ^ 64 - 1 -> clusterProcessPacket conf clock gossip on_link hdr s = Some (s', tt) -> effect (Some hdr) s s'.
Proof.
  intros Hw Hr Hroom. unfold clusterProcessPacket. intros (s0 & a & [-> ->]%get_inv & H)%bind_inv. cbv zeta in H. set (greeted := match nodes (tab s) !! m_sender hdr with Some nd => negb (nodeInHandshake nd) | None => false end) in *.
  apply bind_inv in H as (s1 & [] & H1 & H).
  assert (raised s s1 /\ room s1) as [Hr1 Hroom1].
  { apply when_inv in H1 as [[_ H1]|[_ ->]]; [|split; [apply raised_calm, calm_refl | done]]. apply raised_noteSender in H1 as (H1 & _ & Hmax); [|done]. split; [done|].
    pose proof H1 as (_ & Hle & _). unfold room in *. lia. }
  apply (eff_before _ _ s1); [by apply mild_raised|]. pose proof Hr1 as [[Hw1 _] _]. assert (myself s1 = w) as Hw' by congruence. clear H1.
  destruct (m_type hdr) eqn:Ht.
  1,2,3: apply eff_raised, (raised_ping gossip on_link hdr (nodes (tab s) !! m_sender hdr) (if greeted then m_configEpoch hdr else 0)); [done | done |]; rewrite Ht; exact H.
  - apply eff_calm. match type of H with ?m s1 = _ => assert (calm' w m) as Hm by calm_tac end. by destruct (Hm s1 s' tt Hw' H).
  - destruct (nodes (tab s) !! m_sender hdr); [by apply (eff_votes (m_sender hdr)) | injection H as <-; apply eff_calm, calm_refl].
  - destruct (nodes (tab s) !! m_sender hdr) as [nd0|]; [|injection H as <-; apply eff_calm, calm_refl].
    apply bind_inv in H as (s2 & nd & [-> Hnd]%node_inv & (s3 & a & [-> ->]%get_inv & H)%bind_inv). apply when_inv in H as [[Hge H]|[_ ->]]; [|apply eff_calm, calm_refl].
    apply bind_inv in H as (s2 & [] & [= <-] & [= <-]). apply andb_true_iff in Hge as [_ Hge%Z.geb_le].
    apply (eff_count _ _ _ hdr); cbn; try done; [split; [done|]; exists []; by rewrite app_nil_r | destruct greeted; [by left | by right]].
  - apply eff_calm. match type of H with ?m s1 = _ => assert (calm' w m) as Hm by calm_tac end. by destruct (Hm s1 s' tt Hw' H).
  - apply eff_calm. match type of H with ?m s1 = _ => assert (calm' w m) as Hm by calm_tac end. by destruct (Hm s1 s' tt Hw' H).
Qed.

Lemma raised_command c s s' r : myself s = w -> room s -> clusterCommand conf clock c s = Some (s', r) -> raised s s'.
Proof.
  intros Hw Hr. destruct c as [|del args|arg a|n|arg|gossip force takeover]; cbn [clusterCommand].
  - apply raised_hush_free; [apply c_flush | done].
  - apply raised_hush_free; [apply c_addslots | done].
  - unfold cluster_setslot. destruct (getSlotOrReply arg) as [j|]; [|apply raised_hush_free; [apply c_err | done]]. destruct a as [n|n| |n]; [| | |by apply raised_setslot].
    + apply raised_hush_free; [apply c_migrating | done].
    + apply raised_hush_free; [apply c_importing | done].
    + apply raised_hush_free; [apply c_stable | done].
  - apply raised_hush_free; [apply c_replicate | done].
  - by apply raised_setEpoch.
  - by apply raised_failover.
Qed.

Lemma eff_cron barrier gossip chance u o m t s s' : myself s = w -> room s -> cron_end conf clock barrier gossip chance u o m t s = Some (s', tt) -> effect None s s'.
Proof.
  intros Hw Hr. unfold cron_end. intros (s1 & [] & H1 & (s2 & my & [-> _]%me_inv & (s3 & [] & H3 & H)%bind_inv)%bind_inv)%bind_inv.
  destruct (c_mfTimeout s s1 tt Hw H1) as [Hc1 _]. pose proof Hc1 as [[Hw1 _] He1]. apply (eff_before _ _ s1); [by apply mild_calm|].
  assert (myself s3 = w /\ effect None s1 s3) as [Hw3 He3].
  { apply when_inv in H3 as [[_ H3]|[_ ->]]; [|split; [congruence | apply eff_calm, calm_refl]]. apply bind_inv in H3 as (s4 & [] & H4 & (s5 & [] & H5 & H6)%bind_inv).
    destruct (c_manual s1 s4 tt) as [Hc4 _]; [congruence | done |]. pose proof Hc4 as [[Hw4 _] He4].
    assert (effect None s4 s5) as H45 by (eapply eff_slaveFailover; [congruence | unfold room; by rewrite He4, He1 | exact H5]).
    assert (myself s5 = w) as Hw5 by (destruct H45 as [[? _]|[? _]| |??? [=]|? [=]]; congruence).
    match type of H6 with ?m s5 = _ => assert (calm' w m) as Hm by calm_tac end. destruct (Hm s5 s3 tt) as [Hc6 _]; [done..|]. pose proof Hc6 as [[Hw6 _] _].
    split; [congruence|]. apply (eff_before _ _ s4); [by apply mild_calm|]. by apply (eff_after s4 s5). }
  apply (eff_after s1 s3); [done|]. match type of H with ?m s3 = _ => assert (calm' w m) as Hm by calm_tac end. by destruct (Hm s3 s' tt Hw3 H).
Qed.

Lemma eff_sleep gossip chance s s' : myself s = w -> room s -> clusterBeforeSleep conf clock gossip chance s = Some (s', tt) -> effect None s s'.
Proof.
  intros Hw Hr. unfold clusterBeforeSleep. intros (s0 & a & [-> ->]%get_inv & (s1 & [] & H1 & H)%bind_inv)%bind_inv.
  assert (effect None s s1) as He1 by (apply when_inv in H1 as [[_ H1]|[_ ->]]; [by eapply eff_slaveFailover | apply eff_calm, calm_refl]).
  assert (myself s1 = w) as Hw1 by (destruct He1 as [[? _]|[? _]| |??? [=]|? [=]]; congruence).
  apply (eff_after s s1); [done|]. match type of H with ?m s1 = _ => assert (calm' w m) as Hm by calm_tac end. by destruct (Hm s1 s' tt Hw1 H).
Qed.

(** The packet of an event. *)
Definition packet_of (e : event) : option clusterMsg := match e with Packet _ _ hdr => Some hdr | _ => None end.

Lemma event_effect e s s' : myself s = w -> room s -> (forall hdr, packet_of e = Some hdr -> m_currentEpoch hdr < 2 ^ 64 - 1) -> happens conf clock e s = Some (s', tt) -> effect (packet_of e) s s'.
Proof.
  intros Hw Hr Hp H. destruct e as [gossip on_link hdr|c|n|barrier gossip chance u o m t|gossip chance|others|x]; cbn [happens packet_of] in *.
  - apply (eff_packet gossip on_link); [done | done | by apply Hp | done].
  - apply bind_inv in H as (s1 & r & H1 & [= <-]). by eapply eff_raised, raised_command.
  - apply bind_inv in H as (s1 & r & H1 & [= <-]). apply eff_calm. by destruct (c_late n s s1 r Hw H1).
  - by eapply eff_cron.
  - by eapply eff_sleep.
  - apply bind_inv in H as (s1 & r & H1 & [= <-]). apply eff_calm. by destruct (c_verify others s s1 r Hw H1).
  - injection H as <-. apply eff_calm. split; [split; [done|]; exists []; by rewrite app_nil_r | done].
Qed.
End Actions.
