(* ===== verification/ElectionOk.v ===== *)
(** * One winner per epoch

    The nodes of a cluster and the messages between them.  The outbox of a node keeps
    every message it sent; the messages that have arrived are marked by their sender
    and their place in its outbox, so a message arrives at most once, in any order, or
    never.  A run is timely when no vote arrives at a node while it waits to ask for
    votes: between [schedule_election] and [start_election]. *)
From Stdlib Require Import Lia ZArith String.
From stdpp Require Import base numbers list tactics option gmap fin_maps fin_sets sets.
From S2P Require Import Prelude Object Cluster ClusterCmd Election.

#[local] Open Scope Z_scope.

Abbreviation cur s := (currentEpoch (elec s)).
Abbreviation voted s := (lastVoteEpoch (elec s)).

Section Run.
Context (conf : node_name -> settings) (clock : node_name -> nat -> Z).

Record cluster := mk_cl { states : gmap (list Z) clusterState; arrived : gset (list Z * nat) }.

Inductive cl_step : cluster -> cluster -> Prop :=
  | step_local c n e s s' : states c !! n = Some s -> packet_of e = None -> room s -> happens (conf n) (clock n) e s = Some (s', tt) ->
      cl_step c (mk_cl (<[n := s']> (states c)) (arrived c))
  | step_arrive c src t i n hdr gossip on_link s s' : states c !! src = Some t -> outbox t !! i = Some (n, hdr) -> (src, i) ∉ arrived c ->
      states c !! n = Some s -> room s -> m_currentEpoch hdr < 2 ^ 64 - 1 -> (m_type hdr = MsgAuthAck -> auth_sent (elec s) = true) ->
      happens (conf n) (clock n) (Packet gossip on_link hdr) s = Some (s', tt) ->
      cl_step c (mk_cl (<[n := s']> (states c)) ({[(src, i)]} ∪ arrived c)).

Inductive cl_run (c : cluster) : cluster -> Prop :=
  | run_none : cl_run c c
  | run_step c1 c2 : cl_run c c1 -> cl_step c1 c2 -> cl_run c c2.

(** At the start nobody has sent anything or asked for votes. *)
Definition cl_start (c : cluster) : Prop := forall n s, states c !! n = Some s ->
  myself s = n /\ outbox s = [] /\ auth_sent (elec s) = false /\ auth_count (elec s) = 0 /\ voted s <= cur s /\ auth_epoch (elec s) <= cur s.

(** ** One node *)

Record node_ok (n : node_name) (s : clusterState) : Prop := {
  no_me : myself s = n;
  no_cur : voted s <= cur s /\ auth_epoch (elec s) <= cur s;
  no_out : forall i d m, outbox s !! i = Some (d, m) -> m_sender m = n /\ (m_type m = MsgAuthAck -> m_currentEpoch m <= voted s) /\ (m_type m = MsgAuthRequest -> m_currentEpoch m <= auth_epoch (elec s));
  no_once : forall i j d d' m m', outbox s !! i = Some (d, m) -> outbox s !! j = Some (d', m') -> m_type m = MsgAuthAck -> m_type m' = MsgAuthAck -> m_currentEpoch m = m_currentEpoch m' -> i = j;
  no_count : if auth_sent (elec s) then 1 <= auth_epoch (elec s) else auth_count (elec s) = 0;
}.

(** New messages of which none is a vote. *)
Lemma out_more n s s' l : node_ok n s -> outbox s' = outbox s ++ l -> voted s' = voted s -> auth_epoch (elec s) <= auth_epoch (elec s') ->
  Forall (fun p => plain n p \/ request_for n (auth_epoch (elec s')) p.2) l ->
  (forall i d m, outbox s' !! i = Some (d, m) -> m_sender m = n /\ (m_type m = MsgAuthAck -> m_currentEpoch m <= voted s') /\ (m_type m = MsgAuthRequest -> m_currentEpoch m <= auth_epoch (elec s'))) /\
  (forall i j d d' m m', outbox s' !! i = Some (d, m) -> outbox s' !! j = Some (d', m') -> m_type m = MsgAuthAck -> m_type m' = MsgAuthAck -> m_currentEpoch m = m_currentEpoch m' -> i = j).
Proof.
  intros [_ _ Hout Honce _] Hl Hv He Hall. assert (forall i d m, outbox s' !! i = Some (d, m) -> outbox s !! i = Some (d, m) \/ plain n (d, m) \/ request_for n (auth_epoch (elec s')) m) as Hcase.
  { intros i d m H. rewrite Hl in H. apply lookup_app_Some in H as [H|[_ H]]; [by left|]. right. apply list_elem_of_lookup_2 in H. rewrite Forall_forall in Hall. by apply (Hall (d, m)). }
  assert (forall i d m, outbox s' !! i = Some (d, m) -> m_type m = MsgAuthAck -> outbox s !! i = Some (d, m)) as Hack.
  { intros i d m H Ht. destruct (Hcase i d m H) as [?|[(_ & ? & _)|(Hr & _)]]; [done | done | congruence]. }
  split.
  - intros i d m H. split_and!.
    + destruct (Hcase i d m H) as [H'|[(? & _)|(_ & ? & _)]]; [by apply (Hout i d m) | done..].
    + intros Ht. rewrite Hv. apply (Hout i d m); [by apply Hack | done].
    + intros Ht. destruct (Hcase i d m H) as [H'|[(_ & _ & ?)|(_ & _ & He')]]; [|done | by rewrite He']. destruct (Hout i d m H') as (_ & _ & Hq). specialize (Hq Ht). lia.
  - intros i j d d' m m' H H' Ht Ht'. by apply (Honce i j d d' m m'); [apply Hack..| |].
Qed.

(** A new vote is for an epoch that is greater than those voted for. *)
Lemma out_vote n s s' k l d : node_ok n s -> outbox s' = outbox s ++ k ++ l -> Forall (plain n) k -> (forall p, p ∈ l -> p.1 = d /\ vote_for n (voted s') p.2) -> (length l <= 1)%nat ->
  voted s < voted s' -> auth_epoch (elec s') = auth_epoch (elec s) ->
  (forall i d m, outbox s' !! i = Some (d, m) -> m_sender m = n /\ (m_type m = MsgAuthAck -> m_currentEpoch m <= voted s') /\ (m_type m = MsgAuthRequest -> m_currentEpoch m <= auth_epoch (elec s'))) /\
  (forall i j d d' m m', outbox s' !! i = Some (d, m) -> outbox s' !! j = Some (d', m') -> m_type m = MsgAuthAck -> m_type m' = MsgAuthAck -> m_currentEpoch m = m_currentEpoch m' -> i = j).
Proof.
  intros [_ _ Hout Honce _] Hl Hk Hvote Hlen Hlt He.
  assert (forall i x m, outbox s' !! i = Some (x, m) -> outbox s !! i = Some (x, m) \/ plain n (x, m) \/ i = (length (outbox s) + length k)%nat /\ vote_for n (voted s') m) as Hcase.
  { intros i x m H. rewrite Hl in H. apply lookup_app_Some in H as [H|[Hi H]]; [by left|]. right. apply lookup_app_Some in H as [H|[Hi' H]].
    - left. apply list_elem_of_lookup_2 in H. rewrite Forall_forall in Hk. by apply Hk.
    - right. split; [apply lookup_lt_Some in H; lia|]. apply list_elem_of_lookup_2 in H. by apply (Hvote (x, m)). }
  split.
  - intros i x m H. destruct (Hcase i x m H) as [H'|[(H1 & H2 & H3)|(_ & H1 & H2 & H3)]].
    + destruct (Hout i x m H') as (K1 & K2 & K3). split_and!; [done | intros Ht; specialize (K2 Ht); lia | by rewrite He].
    + split_and!; done.
    + split_and!; [done | intros _; lia | congruence].
  - intros i j x x' m m' H H' Ht Ht' Hmm. destruct (Hcase i x m H) as [K|[(_ & ? & _)|(Ki & _ & _ & K)]]; [|done|]; destruct (Hcase j x' m' H') as [K'|[(_ & ? & _)|(Kj & _ & _ & K')]]; try done.
    + by apply (Honce i j x x' m m').
    + destruct (Hout i x m K) as (_ & Hle & _). specialize (Hle Ht). lia.
    + destruct (Hout j x' m' K') as (_ & Hle & _). specialize (Hle Ht'). lia.
    + congruence.
Qed.

Lemma plain_all n e l : Forall (plain n) l -> Forall (fun p => plain n p \/ request_for n e p.2) l.
Proof. intros H. eapply Forall_impl; [exact H | by left]. Qed.

Lemma node_ok_effect n hdr s s' : node_ok n s -> room s -> effect n hdr s s' -> (forall m, hdr = Some m -> m_type m = MsgAuthAck -> auth_sent (elec s) = true) ->
  node_ok n s' /\ (exists l, outbox s' = outbox s ++ l) /\ auth_epoch (elec s) <= auth_epoch (elec s').
Proof.
  intros Hok [Hr _] Heff Htime. pose proof Hok as [Hme [Hv Hepoch] _ _ Hcount].
  destruct Heff as [(K1 & l & Kl & Kp) K2 K3 (K4 & K5 & K6)|(K1 & l & Kl & Kp) K2 K3 K4 K5 K6|l K1 Kl Kp K3 K4 K5 K6 K7 K8|req k l Kh Kt K1 Kl Kk Kp Klen K2 K3 K4 K5 (K6 & K7 & K8)|ack Kh Kt (K1 & l & Kl & Kp) K2 K3 K4 K5 K6 K7].
  - destruct (out_more n s s' l) as [Ho Hn]; [done | done | done | lia | by apply plain_all |]. split_and!; [|by eexists | lia]. constructor; [congruence | lia | done | done | by rewrite K4, K5, K6].
  - destruct (out_more n s s' l) as [Ho Hn]; [done | done | done | lia | by apply plain_all |]. split_and!; [|by eexists | lia]. constructor; [congruence | lia | done | done | by rewrite K5].
  - destruct (out_more n s s' l) as [Ho Hn]; [done | done | done | lia | by rewrite K8 |]. split_and!; [|by eexists | lia]. constructor; [congruence | lia | done | done | rewrite K7; lia].
  - destruct (out_vote n s s' k l (m_sender req)) as [Ho Hn]; [done | done | done | by rewrite K5 | done | lia | done |].
    split_and!; [|by eexists | lia]. constructor; [congruence | lia | done | done | by rewrite K6, K7, K8].
  - destruct (out_more n s s' l) as [Ho Hn]; [done | done | done | lia | by apply plain_all |]. split_and!; [|by eexists | lia].
    constructor; [congruence | lia | done | done |]. specialize (Htime ack Kh Kt). rewrite K5, Htime. rewrite Htime in Hcount. lia.
Qed.
(** ** The cluster *)

(** The [i]th message of [v] is a vote for [n] in the epoch [e]. *)
Definition ack_at (c : cluster) (v : node_name) (i : nat) (n : node_name) (e : Z) : Prop :=
  exists t m, states c !! v = Some t /\ outbox t !! i = Some (n, m) /\ m_type m = MsgAuthAck /\ m_currentEpoch m = e.

Record cl_ok (c : cluster) : Prop := {
  co_node : forall n s, states c !! n = Some s -> node_ok n s;
  co_ack : forall v i n e s, ack_at c v i n e -> states c !! n = Some s -> e <= auth_epoch (elec s);
  co_votes : forall n s, states c !! n = Some s -> auth_sent (elec s) = true ->
    exists W : gset (list Z), auth_count (elec s) <= Z.of_nat (size W) /\ forall v, v ∈ W -> exists i, (v, i) ∈ arrived c /\ ack_at c v i n (auth_epoch (elec s));
}.

Lemma new_ack n hdr s s' i d m : effect n hdr s s' -> outbox s' !! i = Some (d, m) -> m_type m = MsgAuthAck ->
  outbox s !! i = Some (d, m) \/ exists req, hdr = Some req /\ m_type req = MsgAuthRequest /\ d = m_sender req /\ m_currentEpoch m <= m_currentEpoch req.
Proof.
  intros Heff Hi Ht. assert (forall l, outbox s' = outbox s ++ l -> (forall p, p ∈ l -> m_type p.2 <> MsgAuthAck) -> outbox s !! i = Some (d, m)) as Hnone.
  { intros l Hl Hno. rewrite Hl in Hi. apply lookup_app_Some in Hi as [Hi|[_ Hi]]; [done|]. apply list_elem_of_lookup_2, Hno in Hi. done. }
  assert (forall l, Forall (plain n) l -> forall p, p ∈ l -> m_type p.2 <> MsgAuthAck) as Hplain by (intros l Hall p Hp; rewrite Forall_forall in Hall; by apply Hall).
  destruct Heff as [(_ & l & Kl & Kp) _ _ _|(_ & l & Kl & Kp) _ _ _|l _ Kl Kp _ _ _ _ _ _|req k l Kh Kt _ Kl Kk Kp _ _ K3 _ _ _|ack _ _ (_ & l & Kl & Kp) _ _ _ _ _].
  - left. eapply Hnone; [exact Kl | by apply Hplain].
  - left. eapply Hnone; [exact Kl | by apply Hplain].
  - left. eapply Hnone; [exact Kl|]. intros p Hp. rewrite Forall_forall in Kp. destruct (Kp p Hp) as [(_ & ? & _)|(E1 & _)]; [done | congruence].
  - rewrite Kl in Hi. apply lookup_app_Some in Hi as [Hi|[_ Hi]]; [by left|]. apply list_elem_of_lookup_2, elem_of_app in Hi as [Hi|Hi]; [by destruct (Hplain k Kk _ Hi)|].
    right. exists req. destruct (Kp _ Hi) as (H1 & _ & _ & H2). cbn in *. split_and!; [done.. | lia].
  - left. eapply Hnone; [exact Kl | by apply Hplain].
Qed.

(** Votes stay where they are. *)
Lemma ack_stays c n s s' D v i k e : states c !! n = Some s -> (exists l, outbox s' = outbox s ++ l) -> ack_at c v i k e -> ack_at (mk_cl (<[n := s']> (states c)) D) v i k e.
Proof.
  intros Hn [l Hl] (t & m & Ht & Hi & H). destruct (decide (n = v)) as [<-|Hne].
  - exists s', m. cbn. rewrite lookup_insert_eq. split_and!; [done | | apply H..]. assert (t = s) as -> by congruence. rewrite Hl. by apply lookup_app_l_Some.
  - exists t, m. cbn. by rewrite lookup_insert_ne.
Qed.

(** How a packet came to be processed. *)
Definition came (c : cluster) (n : node_name) (s : clusterState) (D : gset (list Z * nat)) (hdr : option clusterMsg) : Prop :=
  match hdr with
  | None => True
  | Some m => exists src t i, states c !! src = Some t /\ outbox t !! i = Some (n, m) /\ (src, i) ∉ arrived c /\ (src, i) ∈ D /\ (m_type m = MsgAuthAck -> auth_sent (elec s) = true)
  end.

(** The votes that a node has counted, after one more event. *)
Lemma own_votes c n s s' hdr D : cl_ok c -> states c !! n = Some s -> effect n hdr s s' -> came c n s D hdr -> arrived c ⊆ D -> (exists l, outbox s' = outbox s ++ l) -> auth_sent (elec s') = true ->
  exists W : gset (list Z), auth_count (elec s') <= Z.of_nat (size W) /\ forall v, v ∈ W -> exists i, (v, i) ∈ D /\ ack_at (mk_cl (<[n := s']> (states c)) D) v i n (auth_epoch (elec s')).
Proof.
  intros [Hnode Hack Hvotes] Hn Heff Hcame HD Hout Hsent.
  assert (same_auth s s' -> exists W : gset (list Z), auth_count (elec s') <= Z.of_nat (size W) /\ forall v, v ∈ W -> exists i, (v, i) ∈ D /\ ack_at (mk_cl (<[n := s']> (states c)) D) v i n (auth_epoch (elec s'))) as Hsame.
  { intros (K1 & K2 & K3). destruct (Hvotes n s Hn) as (W & Hsize & HW); [congruence|]. exists W. split; [by rewrite K1|]. intros v Hv. destruct (HW v Hv) as (i & Hi & Ha). exists i.
    split; [by apply HD | rewrite K3; by apply (ack_stays c n s)]. }
  destruct Heff as [_ _ _ K|_ _ _ _ K|l _ _ _ _ _ K1 K2 _ _|req k l _ _ _ _ _ _ _ _ _ _ _ K|ack Kh Kt _ _ _ K1 K2 K3 K4]; [by apply Hsame | congruence | | by apply Hsame |].
  - exists ∅. pose proof (no_count _ _ (Hnode n s Hn)) as H0. rewrite K1 in H0. split; [rewrite K2, H0; lia|]. intros v Hv. set_solver.
  - subst hdr. destruct Hcame as (src & t & i & Hsrc & Hi & Hnew & HinD & Htime). specialize (Htime Kt). destruct (Hvotes n s Hn Htime) as (W & Hsize & HW).
    assert (ack_at c src i n (m_currentEpoch ack)) as Ha by (by exists t, ack). pose proof (Hack _ _ _ _ s Ha Hn) as Hle.
    pose proof (no_count _ _ (Hnode n s Hn)) as Hpos. rewrite Htime in Hpos. assert (m_currentEpoch ack = auth_epoch (elec s)) as He by lia.
    assert (src ∉ W) as Hnot.
    { intros Hin. destruct (HW src Hin) as (j & Hj & t' & m & Ht' & Hm & Hmt & Hme). assert (t' = t) as -> by congruence.
      assert (j = i) as ->; [|done]. apply (no_once _ _ (Hnode src t Hsrc) j i n n m ack); try done. congruence. }
    exists ({[src]} ∪ W). split; [rewrite size_union by set_solver; rewrite size_singleton; lia|]. intros v [->%elem_of_singleton|Hv]%elem_of_union.
    + exists i. split; [done|]. apply (ack_stays c n s); [done | done |]. by rewrite K3, <- He.
    + destruct (HW v Hv) as (j & Hj & Hav). exists j. split; [by apply HD|]. apply (ack_stays c n s); [done | done |]. by rewrite K3.
Qed.

Lemma cl_ok_effect c n s s' hdr D : cl_ok c -> states c !! n = Some s -> room s -> effect n hdr s s' -> came c n s D hdr -> arrived c ⊆ D -> cl_ok (mk_cl (<[n := s']> (states c)) D).
Proof.
  intros Hcl Hn Hr Heff Hcame HD. pose proof Hcl as [Hnode Hack Hvotes].
  destruct (node_ok_effect n hdr s s') as (Hok' & Hout & Hepoch); [by apply Hnode | done | done | |].
  { intros m -> Ht. destruct Hcame as (src & t & i & _ & _ & _ & _ & H). by apply H. }
  assert (forall k x', <[n := s']> (states c) !! k = Some x' -> exists x, states c !! k = Some x /\ auth_epoch (elec x) <= auth_epoch (elec x')) as Hmono.
  { intros k x' Hk. apply lookup_insert_Some in Hk as [[<- <-]|[_ Hk]]; [by exists s | by exists x']. }
  constructor; cbn [states arrived].
  - intros k x Hk. apply lookup_insert_Some in Hk as [[<- <-]|[_ Hk]]; [done | by apply Hnode].
  - intros v i k e x' (t' & m & Ht' & Hi & Hty & He) Hk. cbn in Ht'. destruct (Hmono k x' Hk) as (x & Hx & Hle).
    assert (ack_at c v i k e \/ e <= auth_epoch (elec x)) as [Hold|]; [| pose proof (Hack v i k e x Hold Hx); lia | lia].
    apply lookup_insert_Some in Ht' as [[<- <-]|[_ Ht']]; [|left; by exists t', m].
    destruct (new_ack n hdr s s' i k m Heff Hi Hty) as [Hi'|(req & -> & Hreq & -> & Hmle)]; [left; by exists s, m|]. right.
    destruct Hcame as (src & t & j & Hsrc & Hj & _). destruct (no_out _ _ (Hnode src t Hsrc) j n req Hj) as (Hsend & _ & Hq). specialize (Hq Hreq).
    rewrite Hsend in Hx. assert (x = t) as -> by congruence. lia.
  - intros k x' Hk Hsent. apply lookup_insert_Some in Hk as [[<- <-]|[Hne Hk]].
    + by apply (own_votes c n s s' hdr D).
    + destruct (Hvotes k x' Hk Hsent) as (W & Hsize & HW). exists W. split; [done|]. intros v Hv. destruct (HW v Hv) as (i & Hi & Ha). exists i. split; [by apply HD | by apply (ack_stays c n s)].
Qed.
Lemma cl_ok_step c c' : cl_ok c -> cl_step c c' -> cl_ok c'.
Proof.
  intros Hok. destruct 1 as [c n e s s' Hn Hp Hr He|c src t i n hdr gossip on_link s s' Hsrc Hi Hnew Hn Hr Hroom Htime He].
  - apply (cl_ok_effect c n s s' None); try done. rewrite <- Hp. apply (event_effect (conf n) (clock n) n e); [by apply (no_me _ _ (co_node c Hok n s Hn)) | done | by rewrite Hp | done].
  - apply (cl_ok_effect c n s s' (Some hdr)); try done.
    + apply (event_effect (conf n) (clock n) n (Packet gossip on_link hdr)); [by apply (no_me _ _ (co_node c Hok n s Hn)) | done | by intros ? [= <-] | done].
    + exists src, t, i. split_and!; try done. set_solver.
    + set_solver.
Qed.

Lemma cl_ok_start c : cl_start c -> cl_ok c.
Proof.
  intros H. constructor.
  - intros n s Hn. destruct (H n s Hn) as (H1 & H2 & H3 & H4 & H5 & H6). constructor; rewrite ?H2, ?H3; done.
  - intros v i n e s (t & m & Ht & Hi & _) _. destruct (H v t Ht) as (_ & H2 & _). by rewrite H2 in Hi.
  - intros n s Hn Hs. destruct (H n s Hn) as (_ & _ & H3 & _). congruence.
Qed.

Lemma cl_ok_run c c' : cl_ok c -> cl_run c c' -> cl_ok c'.
Proof. intros Hok. induction 1 as [|c1 c2 _ IH Hs]; [done | by eapply cl_ok_step]. Qed.

Lemma ack_step c c' v i n e : cl_ok c -> cl_step c c' -> ack_at c v i n e -> ack_at c' v i n e.
Proof.
  intros Hok. destruct 1 as [c k ev s s' Hn Hp Hr He|c src t j k hdr gossip on_link s s' Hsrc Hi Hnew Hn Hr Hroom Htime He]; apply (ack_stays c k s); try done.
  - destruct (node_ok_effect k None s s') as (_ & Hout & _); [by apply (co_node c Hok) | done | | done | done]. rewrite <- Hp.
    apply (event_effect (conf k) (clock k) k ev); [by apply (no_me _ _ (co_node c Hok k s Hn)) | done | by rewrite Hp | done].
  - destruct (node_ok_effect k (Some hdr) s s') as (_ & Hout & _); [by apply (co_node c Hok) | done | | by intros ? [= <-] | done].
    apply (event_effect (conf k) (clock k) k (Packet gossip on_link hdr)); [by apply (no_me _ _ (co_node c Hok k s Hn)) | done | by intros ? [= <-] | done].
Qed.

Lemma ack_run c c' v i n e : cl_ok c -> cl_run c c' -> ack_at c v i n e -> ack_at c' v i n e.
Proof. intros Hok. induction 1 as [|c1 c2 Hr IH Hs]; [done|]. intros Ha. eapply ack_step; [by eapply cl_ok_run | exact Hs | by apply IH]. Qed.

(** [n] has the votes it needs in the epoch [e] among [size] masters: the test of
    [clusterHandleSlaveFailover]. *)
Definition elected (c : cluster) (n : node_name) (e size : Z) : Prop :=
  exists s, states c !! n = Some s /\ auth_sent (elec s) = true /\ auth_epoch (elec s) = e /\ c_size (hlth s) = size /\ auth_count (elec s) >= size / 2 + 1.

Definition voter (c : cluster) (v n : node_name) (e : Z) : Prop := exists i, ack_at c v i n e.

Lemma voter_once c v n n' e : cl_ok c -> voter c v n e -> voter c v n' e -> n = n'.
Proof.
  intros Hok (i & t & m & Ht & Hi & Hm & He) (j & t' & m' & Ht' & Hj & Hm' & He'). assert (t' = t) as -> by congruence.
  assert (i = j) as ->; [|congruence]. apply (no_once _ _ (co_node c Hok v t Ht) i j n n' m m'); try done. congruence.
Qed.

Lemma elected_voters c n e size : cl_ok c -> elected c n e size -> exists W : gset (list Z), size / 2 + 1 <= Z.of_nat (base.size W) /\ forall v, v ∈ W -> voter c v n e.
Proof.
  intros Hok (s & Hs & Hsent & He & _ & Hcount). destruct (co_votes c Hok n s Hs Hsent) as (W & HW1 & HW2). exists W. split; [lia|].
  intros v Hv. destruct (HW2 v Hv) as (i & _ & Ha). exists i. by rewrite <- He.
Qed.

(** Two majorities of the same masters meet. *)
Lemma one_elected (c1 c2 : cluster) (n1 n2 : node_name) (e : Z) (M : gset (list Z)) : cl_ok c1 -> cl_run c1 c2 -> (forall v n, voter c2 v n e -> v ∈ M) ->
  elected c1 n1 e (Z.of_nat (size M)) -> elected c2 n2 e (Z.of_nat (size M)) -> n1 = n2.
Proof.
  intros Hok Hrun HM H1 H2. pose proof (cl_ok_run c1 c2 Hok Hrun) as Hok2. destruct (elected_voters c1 n1 e _ Hok H1) as (W1 & Hs1 & Hv1). destruct (elected_voters c2 n2 e _ Hok2 H2) as (W2 & Hs2 & Hv2).
  assert (forall v, v ∈ W1 -> voter c2 v n1 e) as Hv1' by (intros v Hv; destruct (Hv1 v Hv) as [i Hi]; exists i; by apply (ack_run c1 c2)).
  destruct (decide (W1 ## W2)) as [Hdisj|Hmeet].
  - assert (size (W1 ∪ W2) <= size M)%nat as Hle by (apply subseteq_size; intros v [Hv|Hv]%elem_of_union; [by eapply HM, Hv1' | by eapply HM, Hv2]).
    rewrite size_union in Hle by done. pose proof (Z.div_mod (Z.of_nat (size M)) 2). pose proof (Z.mod_pos_bound (Z.of_nat (size M)) 2). lia.
  - assert (exists v, v ∈ W1 /\ v ∈ W2) as (v & Hin1 & Hin2).
    { destruct (decide (W1 ∩ W2 = ∅)) as [E1|E1]; [by apply disjoint_intersection_L in E1 | apply set_choose_L in E1 as [v Hv]; exists v; set_solver]. }
    eapply voter_once; [exact Hok2 | by apply Hv1' | by apply Hv2].
Qed.
End Run.
