(* ===== verification/ClusterProps.v ===== *)
(** * A node of the cluster: what is guaranteed

    The theorems about the table of slots, failover, the commands and the routing of
    queries, and about elections in a whole cluster. *)
From Stdlib Require Import Lia ZArith String.
From stdpp Require Import base numbers list tactics option gmap fin_maps fin_sets sets.
From S2P Require Import Prelude Object Crc Cluster ClusterOk ClusterSafe ClusterCmd ClusterCmdOk Election ElectionOk.

#[local] Open Scope Z_scope.

Lemma cwp_runs {A} (m : CM A) s (Q : clusterState -> A -> Prop) : cwp m s Q -> exists s' a, m s = Some (s', a) /\ Q s' a.
Proof. unfold cwp. destruct (m s) as [[s' a]|]; [eauto | done]. Qed.

Lemma cwp_runs_unit (m : CM unit) s (Q : clusterState -> Prop) : cwp m s (fun s' _ => Q s') -> exists s', m s = Some (s', tt) /\ Q s'.
Proof. intros (s' & [] & H)%cwp_runs. eauto. Qed.


(** C8: a claim of slots by another master always goes through.  Exactly the slots that
    it names, that we are not importing and whose owner is missing or has an older
    configuration become the claimant's.  When our master loses its last slot to the
    claim we follow the claimant and keep our keys; otherwise our role stays and exactly
    the keys in the slots that we lost are dropped. *)
Theorem claim_moves_slots s sender nd e slots : table_ok s -> bitmap_ok slots -> sender <> myself s -> nodes (tab s) !! sender = Some nd -> nodeIsSlave nd = false ->
  exists s', clusterUpdateSlotsConfigWith sender e slots s = Some (s', tt) /\ config_updated s sender e slots s'.
Proof. intros Hok Hb Hne Hn Hs. by apply cwp_runs_unit, (r_updateSlots s sender nd). Qed.

(** C9: a slave that replaces its master becomes a master that replicates nobody and owns
    exactly the slots of the old master besides its own; no other slot moves. *)
Theorem failover_takes_slots conf clock gossip s old my : table_ok s -> nodes (tab s) !! myself s = Some my -> nodeIsMaster my = false -> slaveof my = Some old -> old <> myself s ->
  exists s', clusterFailoverReplaceYourMaster conf clock gossip s = Some (s', tt) /\ took_over s old s'.
Proof. intros Hok Hmy Hm Hsl Hne. by apply cwp_runs_unit, (r_replaceMaster conf clock gossip s old my). Qed.

(** C10: without the votes of more than half of the masters, asked for and counted, the
    failover handler of a slave changes no node, no slot and no replication. *)
Theorem failover_needs_majority conf clock gossip chance s : table_ok s -> auth_sent (elec s) = false \/ auth_count (elec s) < c_size (hlth s) / 2 + 1 ->
  exists s', clusterHandleSlaveFailover conf clock gossip chance s = Some (s', tt) /\ nodes (tab s') = nodes (tab s) /\ owner (tab s') = owner (tab s) /\ out s' = out s.
Proof.
  intros Hok Hfew. destruct (cwp_runs_unit (clusterHandleSlaveFailover conf clock gossip chance) s (fun s' => rel true s s' /\ True)) as (s' & H & [[_ [(_ & H1 & H2) H3]] _]); [|eauto].
  apply r_slaveFailover; [by split|]. intros _. unfold enough_votes. destruct Hfew as [->|Hlt]; [done|]. assert (auth_count (elec s) >=? c_size (hlth s) / 2 + 1 = false) as ->; [|apply andb_false_r].
  rewrite Z.geb_leb. apply Z.leb_gt. lia.
Qed.

(** A calm action that goes through keeps the election. *)
Lemma cwp_calm (m : CM unit) s (Q : clusterState -> unit -> Prop) : (exists s', m s = Some (s', tt)) -> calm (myself s) m (fun _ => True) -> (forall s', elec s' = elec s -> Q s' tt) -> cwp m s Q.
Proof. intros [s' H] Hc HQ. unfold cwp. rewrite H. apply HQ. by destruct (Hc s s' tt eq_refl H) as [[_ He] _]. Qed.

Lemma keeps_total s0 (m : CM unit) s : keeps false s0 m (fun _ => True) -> kept s0 s -> exists s', m s = Some (s', tt).
Proof. intros Hk Hs. destruct (cwp_runs_unit m s (fun s' => kept s0 s' /\ True)) as (s' & H & _); [by apply Hk | eauto]. Qed.

Lemma rank_bounds s l : 0 <= rank_among s l <= zlen l.
Proof. induction l as [|x l IH]; cbn [rank_among foldr length]; [lia|]. fold (rank_among s l). destruct (_ && _); lia. Qed.

(** C17: the delay of an election.  A slave that schedules one waits at least 500 and less
    than 1000 milliseconds, and 1000 more for every other slave of its master that has
    more data, never more than one per slave; in a manual failover it does not wait. *)
Theorem election_delay clock gossip chance s my m mnd : table_ok s -> nodes (tab s) !! myself s = Some my -> nodeIsSlave my = true -> slaveof my = Some m -> nodes (tab s) !! m = Some mnd -> 0 <= chance ->
  exists s', schedule_election clock gossip chance s = Some (s', tt) /\ auth_sent (elec s') = false /\ auth_count (elec s') = 0 /\ 0 <= rank_among s (slaves mnd) <= zlen (slaves mnd) /\
    if mf_end (mf s) =? 0 then 500 <= auth_time (elec s') - clock (readings s) - 1000 * rank_among s (slaves mnd) < 1000 else auth_time (elec s') = clock (S (readings s)).
Proof.
  intros Hok Hmy Hsl Hm Hmnd Hch. apply cwp_runs_unit. apply cwp_bind, cwp_bind, cwp_get. apply cwp_bind, cwp_modify, cwp_ret. apply cwp_bind, cwp_modify. set (s1 := with_elec _ _).
  assert (table_ok s1) as Hok1 by (by apply (table_ok_same s)). apply cwp_bind, (r_rank s1 my); [done..|].
  assert (rank_of s1 my = rank_among s (slaves mnd)) as -> by (unfold rank_of; rewrite Hm; change (nodes (tab s1)) with (nodes (tab s)); by rewrite Hmnd).
  pose proof (rank_bounds s (slaves mnd)) as Hrank. apply cwp_bind, cwp_modify, cwp_bind, cwp_get. pose proof (Z.rem_bound_pos chance 500 Hch eq_refl) as Hrem.
  apply cwp_bind, cwp_when; cbn [mf with_elec s1]; intros Emf; [apply cwp_bind, cwp_bind, cwp_get; apply cwp_bind, cwp_modify, cwp_ret, cwp_modify|];
    (apply cwp_calm; [by eapply keeps_total; [apply (k_pong false s1) | by apply (kept_same s1)] | apply c_pong |]); intros s' He; rewrite He; cbn.
  - apply negb_true_iff in Emf. cbn in Emf. rewrite Emf. split_and!; done || lia.
  - apply negb_false_iff in Emf. cbn in Emf. rewrite Emf. split_and!; done || lia.
Qed.

(** C16: ADDSLOTS and DELSLOTS do all or nothing.  When every argument is a slot, no slot
    is named twice and all are free (or, for DELSLOTS, owned), exactly the slots named
    change hands; otherwise there is an error and the state is untouched. *)
Theorem addslots_all_or_nothing s my del args : table_ok s -> nodes (tab s) !! myself s = Some my -> nodeIsSlave my = false ->
  exists s' r, cluster_addslots del args s = Some (s', r) /\
    ((exists js, args_ok s del args js /\ r = ROk /\ table_ok s' /\ forall j, owner (tab s') !! j = changed s del js j) \/
     (forall js, ~ args_ok s del args js) /\ (exists e, r = RErr e) /\ s' = s).
Proof.
  intros Hok Hmy Hsl. apply cwp_runs. apply (r_addslots s my); [done..| |].
  - intros js s' Ha [Hk _] Ho. left. exists js. split_and!; [done | done | apply Hk | done].
  - intros e Hno. right. eauto.
Qed.

Lemma existsb_false {A} (f : A -> bool) l : existsb f l = false -> forall x, x ∈ l -> f x = false.
Proof. induction l as [|a l IH]; intros H x Hx; [by apply elem_of_nil in Hx|]. apply orb_false_iff in H as [Ha Hl]. apply elem_of_cons in Hx as [->|Hx]; [done | by apply IH]. Qed.

(** What it takes to be served here. *)
Definition may_serve (present : list Z -> bool) (s : clusterState) (my : clusterNode) (q : query) (k : list Z) (keys : list (list Z)) : Prop :=
  (forall k', k' ∈ keys -> hash_of k' = hash_of k) /\ exists o, owner (tab s) !! hash_of k = Some o /\
    (o = myself s /\ (migrating (tab s) !! hash_of k = None \/ forall k', k' ∈ k :: keys -> present k' = true) \/
     is_Some (importing (tab s) !! hash_of k) /\ q_asking q = true \/
     q_client_readonly q = true /\ q_cmd_readonly q = true /\ nodeIsSlave my = true /\ slaveof my = Some o).

Lemma served_here present s my q k keys : concat (q_keys q) = k :: keys -> (q_exec q = true -> q_in_multi q = true) -> route present s my q = (Some (myself s), REDIR_NONE) -> may_serve present s my q k keys.
Proof.
  intros Hk Hexec. unfold route, may_serve. rewrite Hk.
  assert (q_exec q && negb (q_in_multi q) = false) as -> by (destruct (q_exec q); [by rewrite Hexec | done]). cbv zeta.
  destruct (owner (tab s) !! hash_of k) as [o|]; [|done]. destruct (existsb _ keys) eqn:Ecross; [done|]. set (missing := existsb (fun k => negb (present k)) (k :: keys)) in *. intros H. split.
  { intros k' Hk'. pose proof (existsb_false _ _ Ecross k' Hk') as H1. cbn beta in H1. by destruct (Z.eqb_spec (hash_of k') (hash_of k)). }
  exists o. split; [done|]. destruct (bool_decide (o = myself s)) eqn:Eo; cbn [andb negb] in H.
  - apply bool_decide_eq_true in Eo. destruct (migrating (tab s) !! hash_of k) as [m|] eqn:Em; [|left; split; [done | by left]].
    destruct missing eqn:Emiss; [done|]. left. split; [done|]. right. intros k' Hk'. pose proof (existsb_false _ _ Emiss k' Hk') as H1. cbn beta in H1. by destruct (present k').
  - destruct (bool_decide (is_Some (importing (tab s) !! hash_of k)) && q_asking q) eqn:Ea; [apply andb_true_iff in Ea as [Ea1%bool_decide_eq_true Ea2]; right; by left|].
    destruct (q_client_readonly q && q_cmd_readonly q && nodeIsSlave my && bool_decide (slaveof my = Some o)) eqn:Er; [|by injection H].
    right. right. apply andb_true_iff in Er as [[[H1 H2]%andb_true_iff H3]%andb_true_iff H4%bool_decide_eq_true]. done.
Qed.


(** C4: in one epoch one slave wins.  In a timely run of any number of nodes, with
    messages lost, delayed and reordered at will, let all the votes of an epoch come from
    the set [M] of masters; two nodes that, at any two times, have counted the votes of
    more than half of [M] in that epoch are the same node. *)
Theorem one_winner_per_epoch (conf : node_name -> settings) (clock : node_name -> nat -> Z) (c0 c1 c2 : cluster) (n1 n2 : node_name) (e : Z) (M : gset (list Z)) : cl_start c0 -> cl_run conf clock c0 c1 -> cl_run conf clock c1 c2 ->
  (forall v n, voter c2 v n e -> v ∈ M) -> elected c1 n1 e (Z.of_nat (size M)) -> elected c2 n2 e (Z.of_nat (size M)) -> n1 = n2.
Proof. intros H0 H1 H2. apply (one_elected conf clock c1 c2); [|done]. eapply cl_ok_run; [by apply cl_ok_start | exact H1]. Qed.
