(* ===== verification/DemoCluster.v ===== *)
(** * A small cluster

    A few nodes, on which the theorems about the cluster are applied; and two runs that
    show what the code does not rule out. *)
From Stdlib Require Import Lia ZArith String.
From stdpp Require Import base numbers list tactics option gmap fin_maps fin_sets sets.
From S2P Require Import Prelude Object Crc Cluster ClusterOk ClusterSafe ClusterCmd ClusterCmdOk Election ElectionOk ClusterProps.

#[local] Open Scope Z_scope.

(** ** Nodes *)

Definition na : node_name := [97].
Definition nb : node_name := [98].
Definition nc : node_name := [99].
Definition nd : node_name := [100].

Definition no_slots : list Z := replicate 2048 0.
Definition slot_0 : list Z := 1 :: replicate 2047 0.
Definition slot_1 : list Z := 2 :: replicate 2047 0.
Definition slot_2 : list Z := 4 :: replicate 2047 0.

Definition node (flags : Z) (slots : list Z) (count : Z) (sl : list node_name) (m : option node_name) : clusterNode := mk_node flags 0 slots count sl m 0 0 0 [] true.

Definition quiet_world : around := mk_around true 0 0 0 0 0 false None ∅.
Definition no_election : election := mk_election 0 0 0 0 false 0 0.
Definition no_manual : manual := mk_manual 0 None 0 false.

Definition state (me : node_name) (t : table) (size : Z) : clusterState := mk_cluster me t no_election no_manual (mk_health 0 size 0 1) quiet_world 0 0 [].

Definition conf0 : settings := mk_settings 1000 0 10 false.
Definition clock0 : nat -> Z := fun k => 100000 + 400 * Z.of_nat k.

(** ** A table without slots *)

Definition node_fresh (t : table) (nd : clusterNode) : bool :=
  bool_decide (n_slots nd = no_slots) && (numslots nd =? 0) && (negb (nodeIsSlave nd) || negb (nodeIsMaster nd)) &&
  forallb (fun m => bool_decide (is_Some (nodes t !! m))) (slaves nd) && match slaveof nd with Some m => bool_decide (is_Some (nodes t !! m)) | None => true end.

Definition fresh (s : clusterState) : bool :=
  bool_decide (owner (tab s) = ∅) && forallb (fun p => node_fresh (tab s) p.2) (map_to_list (nodes (tab s))) &&
  match nodes (tab s) !! myself s with
  | Some my => if nodeIsMaster my then negb (nodeIsSlave my) && bool_decide (slaveof my = None)
               else nodeIsSlave my && match slaveof my with Some m => negb (bool_decide (m = myself s)) | None => false end
  | None => false
  end.

Lemma bit_none j : bit no_slots j = false.
Proof. unfold bit, no_slots. destruct (replicate 2048 0 !! Z.to_nat (j / 8)) as [x|] eqn:Ex; [apply lookup_replicate in Ex as [-> _]|]; apply Z.testbit_0_l. Qed.

Lemma fresh_ok s : fresh s = true -> table_ok s.
Proof.
  unfold fresh. intros [[Ho%bool_decide_eq_true Hn]%andb_true_iff Hme]%andb_true_iff.
  assert (forall n nd, nodes (tab s) !! n = Some nd -> node_fresh (tab s) nd = true) as Hall.
  { intros n nd Hnd. rewrite forallb_forall in Hn. apply (Hn (n, nd)). by apply list_elem_of_In, elem_of_map_to_list. }
  assert (forall n nd, nodes (tab s) !! n = Some nd -> n_slots nd = no_slots /\ numslots nd = 0 /\ (nodeIsSlave nd = true -> nodeIsMaster nd = false) /\
    forall m, slaveof nd = Some m \/ m ∈ slaves nd -> is_Some (nodes (tab s) !! m)) as Hfresh.
  { intros n nd Hnd. specialize (Hall n nd Hnd). unfold node_fresh in Hall.
    apply andb_true_iff in Hall as [[[[H1%bool_decide_eq_true H2%Z.eqb_eq]%andb_true_iff H3]%andb_true_iff H4]%andb_true_iff H5]. split_and!; [done | done | |].
    - intros Hs. rewrite Hs in H3. by destruct (nodeIsMaster nd).
    - intros m [Hm|Hm]; [rewrite Hm in H5; by apply bool_decide_eq_true in H5|]. rewrite forallb_forall in H4. apply (bool_decide_eq_true_1 _ (H4 m (proj1 (list_elem_of_In _ _) Hm))). }
  constructor.
  - destruct (nodes (tab s) !! myself s) as [my|]; [|done]. exists my. split; [done|]. destruct (nodeIsMaster my).
    + apply andb_true_iff in Hme as [H1 H2%bool_decide_eq_true]. by rewrite H1.
    + apply andb_true_iff in Hme as [-> H2]. split; [done|]. destruct (slaveof my) as [m|]; [|done]. exists m. split; [done|]. by apply negb_true_iff, bool_decide_eq_false in H2.
  - intros n nd Hnd. destruct (Hfresh n nd Hnd) as (-> & -> & _). split; [done|]. symmetry. apply popcount_zero. intros j _. apply bit_none.
  - intros j n. rewrite Ho, lookup_empty. split; [done|]. intros (_ & nd & Hnd & Hb). destruct (Hfresh n nd Hnd) as (E1 & _). by rewrite E1, bit_none in Hb.
  - intros n nd Hnd Hs. destruct (Hfresh n nd Hnd) as (_ & -> & H & _). split; [done | by apply H].
  - intros n nd m Hnd Hm. destruct (Hfresh n nd Hnd) as (_ & _ & _ & H). by apply H.
Qed.

(** A master [a] that knows a master [b], and a slave [c] of [b]. *)
Definition masters : table := mk_table {[na := node 17 no_slots 0 [] None; nb := node 1 no_slots 0 [] None]} ∅ ∅ ∅.
Definition at_a : clusterState := state na masters 1.
Definition at_c : clusterState :=
  state nc (mk_table {[na := node 1 no_slots 0 [] None; nb := node 1 no_slots 0 [nc] None; nc := node 18 no_slots 0 [] (Some nb)]} ∅ ∅ ∅) 1.

Lemma at_a_ok : table_ok at_a.
Proof. apply fresh_ok. by vm_compute. Qed.

Lemma at_c_ok : table_ok at_c.
Proof. apply fresh_ok. by vm_compute. Qed.

Definition moved (s : clusterState) (m : CM unit) : option (gmap Z (list Z)) := p ← m s; Some (owner (tab p.1)).


Lemma claim_moves_slots_witness : exists s', clusterUpdateSlotsConfigWith nb 5 slot_0 at_a = Some (s', tt) /\ owner (tab s') !! 0 = Some nb.
Proof.
  destruct (claim_moves_slots at_a nb (node 1 no_slots 0 [] None) 5 slot_0) as (s' & H & [_ Ho _]); [exact at_a_ok | by vm_compute | done | reflexivity | reflexivity |].
  exists s'. split; [exact H|]. rewrite Ho, decide_True; [done|]. split; [split; [done | by vm_compute] | by vm_compute].
Defined.

Lemma failover_takes_slots_witness : exists s', clusterFailoverReplaceYourMaster conf0 clock0 [] at_c = Some (s', tt) /\ took_over at_c nb s'.
Proof. apply (failover_takes_slots conf0 clock0 [] at_c nb (node 18 no_slots 0 [] (Some nb))); [exact at_c_ok | reflexivity | reflexivity | reflexivity | done]. Defined.

Lemma failover_needs_majority_witness : exists s', clusterHandleSlaveFailover conf0 clock0 [] 3 at_c = Some (s', tt) /\ nodes (tab s') = nodes (tab at_c) /\ owner (tab s') = owner (tab at_c) /\ out s' = out at_c.
Proof. apply (failover_needs_majority conf0 clock0 [] 3 at_c); [exact at_c_ok | by left]. Defined.

Lemma addslots_all_or_nothing_witness : exists s' r, cluster_addslots false [Some 5; Some 5] at_a = Some (s', r) /\ s' = at_a.
Proof.
  destruct (addslots_all_or_nothing at_a (node 17 no_slots 0 [] None) false [Some 5; Some 5]) as (s' & r & H & [(js & (Hjs & _ & Hnd) & _)|(_ & _ & Hs)]); [exact at_a_ok | reflexivity | reflexivity | | eauto].
  exfalso. destruct js as [|j [|k [|l js]]]; simplify_eq/=. apply NoDup_cons in Hnd as [Hnd _]. destruct Hnd. left.
Defined.

Definition a_query : query := mk_query false false false false false [[[49]; [49]]].
Definition owns_hash : clusterState := with_tab (with_owner (fun _ => {[hash_of [49] := na]})) at_a.

Lemma a_query_hashed : Forall hashed (concat (q_keys a_query)).
Proof. repeat constructor; by vm_compute. Qed.


Lemma election_delay_witness : exists s', schedule_election clock0 [] 1234 at_c = Some (s', tt) /\ 500 <= auth_time (elec s') - 100000 < 1000.
Proof.
  destruct (election_delay clock0 [] 1234 at_c (node 18 no_slots 0 [] (Some nb)) nb (node 1 no_slots 0 [nc] None)) as (s' & H & _ & _ & _ & Ht);
    [exact at_c_ok | reflexivity | reflexivity | reflexivity | reflexivity | lia |].
  exists s'. split; [exact H|]. replace (auth_time (elec s') - 100000) with (auth_time (elec s') - clock0 (readings at_c) - 1000 * rank_among at_c (slaves (node 1 no_slots 0 [nc] None))); [exact Ht|].
  assert (clock0 (readings at_c) = 100000 /\ rank_among at_c (slaves (node 1 no_slots 0 [nc] None)) = 0) as [-> ->] by (split; by vm_compute). lia.
Defined.

(** ** An election *)

(** [b], which serves slot 0, has failed; [c] is its slave; [a] serves slot 1 and [d] slot 2. *)
Definition failed_table (flags_a flags_c flags_d : Z) : table :=
  mk_table {[na := node flags_a slot_1 1 [] None; nb := node 9 slot_0 1 [nc] None; nc := node flags_c no_slots 0 [] (Some nb); nd := node flags_d slot_2 1 [] None]} {[0 := nb; 1 := na; 2 := nd]} ∅ ∅.
Definition a0 : clusterState := state na (failed_table 17 2 1) 3.
Definition d0 : clusterState := state nd (failed_table 1 2 17) 3.
Definition c0 : clusterState := state nc (failed_table 1 18 1) 3.

Definition after (e : event) (s : clusterState) : clusterState := match happens conf0 clock0 e s with Some (s', _) => s' | None => s end.
Definition tick : event := Cron 1 [] 0 false 0 0 0.
Definition c1 : clusterState := Eval vm_compute in after tick c0.
Definition c2 : clusterState := Eval vm_compute in after tick c1.

Definition nth_msg (s : clusterState) (i : nat) : clusterMsg := match outbox s !! i with Some (_, m) => m | None => mk_msg MsgPing 0 0 0 [] [] None false false NoData end.
Definition gets (src : clusterState) (i : nat) : event := Packet [] false (nth_msg src i).
Definition a1 : clusterState := Eval vm_compute in after (gets c2 2) a0.
Definition d1 : clusterState := Eval vm_compute in after (gets c2 0) d0.
Definition c3 : clusterState := Eval vm_compute in after (gets a1 0) c2.
Definition c4 : clusterState := Eval vm_compute in after (gets d1 0) c3.

(** The states of [a], [d] and [c]. *)
Definition cl (a d c : clusterState) (x : gset (list Z * nat)) : cluster := mk_cl (<[nc := c]> (<[nd := d]> {[na := a]})) x.

Lemma cl_a a d c x : states (cl a d c x) !! na = Some a.
Proof. unfold cl. cbn [states]. rewrite !lookup_insert_ne by done. apply lookup_singleton_eq. Qed.

Lemma cl_d a d c x : states (cl a d c x) !! nd = Some d.
Proof. unfold cl. cbn [states]. rewrite lookup_insert_ne by done. apply lookup_insert_eq. Qed.

Lemma cl_c a d c x : states (cl a d c x) !! nc = Some c.
Proof. apply lookup_insert_eq. Qed.

Lemma cl_cases a d c x n s : states (cl a d c x) !! n = Some s -> n = nc /\ s = c \/ n = nd /\ s = d \/ n = na /\ s = a.
Proof. unfold cl. cbn [states]. intros [[<- <-]|[_ [[<- <-]|[_ [<- <-]%lookup_singleton_Some]]%lookup_insert_Some]]%lookup_insert_Some; auto. Qed.

Lemma set_c a d c c' x x' : mk_cl (<[nc := c']> (states (cl a d c x))) x' = cl a d c' x'.
Proof. unfold cl. cbn [states]. by rewrite insert_insert_eq. Qed.

Lemma set_d a d d' c x x' : mk_cl (<[nd := d']> (states (cl a d c x))) x' = cl a d' c x'.
Proof. unfold cl. cbn [states]. by rewrite insert_insert_ne, insert_insert_eq by done. Qed.

Lemma set_a a a' d c x x' : mk_cl (<[na := a']> (states (cl a d c x))) x' = cl a' d c x'.
Proof. unfold cl. cbn [states]. by rewrite insert_insert_ne, (insert_insert_ne _ na nd), insert_singleton_eq by done. Qed.

Lemma room_check s : (0 <=? currentEpoch (elec s)) && (currentEpoch (elec s) <? 2 ^ 64 - 1) = true -> room s.
Proof. intros [H1%Z.leb_le H2%Z.ltb_lt]%andb_true_iff. by split. Qed.

Abbreviation steps := (cl_step (fun _ => conf0) (fun _ => clock0)).

Lemma ticks a d c c' x : room c -> happens conf0 clock0 tick c = Some (c', tt) -> steps (cl a d c x) (cl a d c' x).
Proof. intros Hr Hg. rewrite <- (set_c a d c c' x x). by apply (step_local _ _ (cl a d c x) nc tick c c'); [apply cl_c |..]. Qed.

(** What has to be checked before message [i] of [t] arrives at [s]. *)
Definition may_arrive (t : clusterState) (i : nat) (n : node_name) (s : clusterState) : bool :=
  match outbox t !! i with Some (to, m) => bool_decide (to = n) && (m_currentEpoch m <? 2 ^ 64 - 1) && (match m_type m with MsgAuthAck => auth_sent (elec s) | _ => true end) | None => false end &&
  ((0 <=? currentEpoch (elec s)) && (currentEpoch (elec s) <? 2 ^ 64 - 1)).

Lemma arrives c src t i n s s' : states c !! src = Some t -> states c !! n = Some s -> (src, i) ∉ arrived c -> may_arrive t i n s = true ->
  happens conf0 clock0 (gets t i) s = Some (s', tt) -> steps c (mk_cl (<[n := s']> (states c)) ({[(src, i)]} ∪ arrived c)).
Proof.
  intros Hsrc Hn Hx [Hm Hr%room_check]%andb_true_iff Hg. unfold gets, nth_msg in *. destruct (outbox t !! i) as [[to m]|] eqn:Em; [|done].
  apply andb_true_iff in Hm as [[->%bool_decide_eq_true He%Z.ltb_lt]%andb_true_iff Hv].
  apply (step_arrive _ _ c src t i n m [] false s); try done. intros Ht; by rewrite Ht in Hv.
Qed.

(** [c] asks for votes, [a] and [d] vote, and [c] gets the votes. *)
Definition seen (n : nat) : gset (list Z * nat) := foldr (fun p x => {[p]} ∪ x) ∅ (drop (4 - n) [(nd, 0%nat); (na, 0%nat); (nc, 0%nat); (nc, 2%nat)]).

Lemma unseen (p : list Z * nat) (x : gset (list Z * nat)) : bool_decide (p ∈ x) = false -> p ∉ x.
Proof. apply bool_decide_eq_false. Qed.

Lemma an_election : cl_run (fun _ => conf0) (fun _ => clock0) (cl a0 d0 c0 ∅) (cl a1 d1 c4 (seen 4)).
Proof.
  apply (run_step _ _ _ (cl a1 d1 c3 (seen 3))); [apply (run_step _ _ _ (cl a1 d1 c2 (seen 2))); [apply (run_step _ _ _ (cl a1 d0 c2 (seen 1))); [apply (run_step _ _ _ (cl a0 d0 c2 ∅));
    [apply (run_step _ _ _ (cl a0 d0 c1 ∅)); [apply (run_step _ _ _ (cl a0 d0 c0 ∅)); [constructor|]|]|]|]|]|].
  - apply ticks; [apply room_check|]; by vm_compute.
  - apply ticks; [apply room_check|]; by vm_compute.
  - rewrite <- (set_a a0 a1 d0 c2 ∅ (seen 1)). apply (arrives (cl a0 d0 c2 ∅) nc c2 2 na a0); [apply cl_c | apply cl_a | apply not_elem_of_empty | by vm_compute | by vm_compute].
  - rewrite <- (set_d a1 d0 d1 c2 (seen 1) (seen 2)). apply (arrives (cl a1 d0 c2 (seen 1)) nc c2 0 nd d0); [apply cl_c | apply cl_d | | by vm_compute | by vm_compute].
    apply unseen. by vm_compute.
  - rewrite <- (set_c a1 d1 c2 c3 (seen 2) (seen 3)). apply (arrives (cl a1 d1 c2 (seen 2)) na a1 0 nc c2); [apply cl_a | apply cl_c | | by vm_compute | by vm_compute].
    apply unseen. by vm_compute.
  - rewrite <- (set_c a1 d1 c3 c4 (seen 3) (seen 4)). apply (arrives (cl a1 d1 c3 (seen 3)) nd d1 0 nc c3); [apply cl_d | apply cl_c | | by vm_compute | by vm_compute].
    apply unseen. by vm_compute.
Qed.

Lemma start_ok : cl_start (cl a0 d0 c0 ∅).
Proof. intros n s [[-> ->]|[[-> ->]|[-> ->]]]%cl_cases; split_and!; by vm_compute. Qed.

Definition votes_in (s : clusterState) : bool := existsb (fun p => match m_type p.2 with MsgAuthAck => true | _ => false end) (outbox s).

Lemma no_vote s i d m : votes_in s = false -> outbox s !! i = Some (d, m) -> m_type m <> MsgAuthAck.
Proof. intros H Hi Hm. pose proof (existsb_false _ _ H (d, m) (list_elem_of_lookup_2 _ _ _ Hi)) as H1. cbn in H1. by rewrite Hm in H1. Qed.

Definition three_masters : gset (list Z) := {[na; nb; nd]}.

(** The messages of [c] are not votes. *)
Lemma masters_vote v n : voter (cl a1 d1 c4 (seen 4)) v n 1 -> v ∈ three_masters.
Proof.
  intros (i & t & m & [[-> ->]|[[-> ->]|[-> ->]]]%cl_cases & Hi & Hm & _); unfold three_masters; [|rewrite !elem_of_union, !elem_of_singleton; tauto..].
  destruct (no_vote c4 i n m); [by vm_compute | exact Hi | exact Hm].
Qed.

Lemma c_elected : elected (cl a1 d1 c4 (seen 4)) nc 1 3.
Proof. exists c4. split; [apply cl_c|]. split_and!; by vm_compute. Qed.

Lemma one_winner_per_epoch_witness : elected (cl a1 d1 c4 (seen 4)) nc 1 3 /\ ~ elected (cl a1 d1 c4 (seen 4)) na 1 3.
Proof.
  split; [exact c_elected|]. intros Ha. assert (nc = na) as H; [|discriminate H].
  assert (Z.of_nat (size three_masters) = 3) as Hsize by (by vm_compute).
  apply (one_winner_per_epoch (fun _ => conf0) (fun _ => clock0) (cl a0 d0 c0 ∅) (cl a1 d1 c4 (seen 4)) (cl a1 d1 c4 (seen 4)) nc na 1 three_masters).
  - exact start_ok.
  - exact an_election.
  - constructor.
  - exact masters_vote.
  - rewrite Hsize. exact c_elected.
  - rewrite Hsize. exact Ha.
Defined.

(** ** What the code does not rule out *)

Fixpoint run (es : list event) (s : clusterState) : option clusterState :=
  match es with [] => Some s | e :: es => match happens conf0 clock0 e s with Some (s, _) => run es s | None => None end end.

Definition packet (type : msg_type) (from : node_name) (epoch : Z) (slots : list Z) : clusterMsg := mk_msg type epoch epoch 0 from slots None false false (Gossip []).

(** [c] lost the election of epoch 1 and has scheduled another.  The votes of [a]
    and [d] for epoch 1 arrive before [c] asks for votes again. *)
Definition c_again : clusterState := with_elec (fun e => with_currentEpoch 1 (with_auth_epoch 1 e)) c1.
Definition late_votes : list event := [Packet [] false (packet MsgAuthAck na 1 slot_1); Packet [] false (packet MsgAuthAck nd 1 slot_2)].

(** The late votes count for the next epoch: [c] has the votes that win epoch 2 as soon
    as it asks for them, before anyone can vote in epoch 2. *)
Example stale_vote_wins : exists s, run (late_votes ++ [tick]) c_again = Some s /\
  auth_sent (elec s) = true /\ auth_epoch (elec s) = 2 /\ auth_count (elec s) = 2 /\ enough_votes s = true.
Proof.
  assert (match run (late_votes ++ [tick]) c_again with
    | Some s => auth_sent (elec s) && (auth_epoch (elec s) =? 2) && (auth_count (elec s) =? 2) && enough_votes s | None => false end = true) as H by (by vm_compute).
  destruct (run (late_votes ++ [tick]) c_again) as [s|]; [|done]. apply andb_true_iff in H as [[[H1 H2%Z.eqb_eq]%andb_true_iff H3%Z.eqb_eq]%andb_true_iff H4]. exists s. split_and!; done.
Qed.

(** [c] is a slave of [b], which serves slot 0.  A client may give slot 1 to the slave;
    when it is then told to replicate [a], the assertion that a slave has no slots
    fails.  Without the first command it replicates [a]. *)
Definition c_slave : clusterState :=
  state nc (mk_table {[na := node 1 no_slots 0 [] None; nb := node 1 slot_0 1 [nc] None; nc := node 18 no_slots 0 [] (Some nb)]} {[0 := nb]} ∅ ∅) 1.
Definition give_slot : event := Command (AddSlots false [Some 1]).
Definition follow_a : event := Command (Replicate na).

Example slave_with_slots_stops : (exists s, run [give_slot] c_slave = Some s /\ owner (tab s) !! 1 = Some nc) /\
  run [give_slot; follow_a] c_slave = None /\ exists s my, run [follow_a] c_slave = Some s /\ nodes (tab s) !! nc = Some my /\ slaveof my = Some na.
Proof.
  split_and!.
  - assert (match run [give_slot] c_slave with Some s => bool_decide (owner (tab s) !! 1 = Some nc) | None => false end = true) as H by (by vm_compute).
    destruct (run [give_slot] c_slave) as [s|]; [|done]. exists s. split; [done | by apply bool_decide_eq_true in H].
  - by vm_compute.
  - assert (match run [follow_a] c_slave with Some s => match nodes (tab s) !! nc with Some my => bool_decide (slaveof my = Some na) | None => false end | None => false end = true) as H by (by vm_compute).
    destruct (run [follow_a] c_slave) as [s|]; [|done]. destruct (nodes (tab s) !! nc) as [my|] eqn:Emy; [|done]. exists s, my. split_and!; [done | done | by apply bool_decide_eq_true in H].
Qed.

(** [clusterDelNodeSlots] returns 16384 however many slots it deletes. *)
Lemma delNodeSlots_returns s n nd : table_ok s -> nodes (tab s) !! n = Some nd -> exists s', clusterDelNodeSlots n s = Some (s', REDIS_CLUSTER_SLOTS).
Proof.
  intros Hok Hn. destruct (cwp_runs (clusterDelNodeSlots n) s (fun _ r => r = REDIS_CLUSTER_SLOTS)) as (s' & r & H & ->); [by apply (r_delNodeSlots s n nd) | by exists s'].
Qed.

(** A vote is not marked to be saved: nothing is to be done before the loop sleeps. *)
Example vote_is_not_saved : lastVoteEpoch (elec a1) = 1 /\ has (todo_before_sleep a1) CLUSTER_TODO_SAVE_CONFIG = false.
Proof. split; by vm_compute. Qed.
